(* ===== verification/_CoqProject ===== *)
-Q . S2P
Prelude.v
Frame.v
Rtp.v
RtpMedia.v
RtpPlain.v
RtpJpeg.v
Pmsg.v
SendBuf.v
Base64.v
Md5.v
HttpAuth.v
Live.v
Http.v
Rtsp.v
RtspInv.v
RtspRun.v
Tcp.v
Rtcp.v
Event.v
RtpH264.v
Bitstream.v
RtpMpv.v
RtpMpeg4.v
Conf.v
Spook.v
Encoder.v
Alaw.v
Video.v
Log.v
Conversions.v
ParamFile.v
Wiscam.v
Rest.v
Cgi.v
SoftQueue.v
Convert.v
Overlay.v
