(* ===== verification/Prelude.v ===== *)
(** * A verification of the programs of the WisCam camera

    The main program is RTSPServer (src/sources/applications/RTSPServer/src), the C
    program of the firmware that takes frames from the camera and the
    microphone and serves them over RTSP, RTP and RTCP, on UDP or interleaved in
    the TCP connection. It is one event loop with encoder threads beside it. The
    settings it starts with are files that two other programs change: the REST
    server (src/sources/applications/restful_server) and the CGI programs of the
    web pages (src/sources/applications/httpd-cgi).

    ** The parts of the program and the files that model them

    - Encoder threads fill frames of a global heap and hand them to the event
      loop through exchangers (frame.c): [Frame]. The state is the ring of frame
      numbers with its two cursors and the mutex ([heap]), the reference counts
      and clone links ([frame]), and the slots of an exchanger
      ([frame_exchanger]); the operations have the names of the C functions.
    - A stream delivers frames to the destinations that wait for it (stream.c),
      a live source turns a group of streams into tracks and gives each client a
      session (live.c, session.c): [Live], with [Live.Stream] for the streams of
      the build. [Convert] has all of stream.c, with the streams it makes to convert
      the frames of others.
    - A packetizer cuts a frame into RTP packets: rtp-jpeg.c in [RtpJpeg];
      rtp-rawaudio.c, rtp-mpa.c, rtp-aac.c, rtp-g726.c, rtp-adpcm.c and
      rtp-h263.c in [RtpPlain]. The loop they share and the interface to the
      endpoints (rtp_media.h), the class [RtpSink], are in [RtpMedia].
    - An endpoint numbers, stamps and counts packets and sends sender reports
      (rtp.c): [Rtp], over any [Transport]; it also has the search for UDP ports.
    - A TCP connection queues replies and interleaved packets in a circular
      buffer (tcp.c, rtsp.c): [SendBuf], which is a [Transport] too. The base64
      of clients that tunnel through HTTP (tcp.c), and that of the SDP of H.264
      (rtp-h264.c), are in [Base64].
    - Requests and replies are parsed and built in one buffer (pmsg.c): [Pmsg].
    - Clients authenticate with a digest (http-auth.c, md5.c): [HttpAuth], [Md5].
    - The RTSP server finds locations, keeps sessions and channels and handles
      the requests (rtsp.c): [Rtsp] has its state ([server]) and one definition
      per handler; [RtspInv] the invariant of that state and that every handler
      keeps it; [RtspRun] the server as a transition system over everything that
      happens to it.
    - The HTTP server answers with the last frame or a multipart stream (http.c):
      [Http].
    - What clients send is read, decoded when it comes through a tunnel, and
      given to one of the two servers (tcp.c): [Tcp], whose state [system] joins
      the states of [Rtsp] and [Http] and the input side of the connections.
    - The RTCP packets of clients are parsed for the round-trip time
      (rtcp-parse.c): [Rtcp], which also has the reads of an endpoint's sockets.
    - All of this runs in one event loop of timers, descriptors and "always"
      events around select (event.c): [Event], whose state [loop] is the store of
      all events and the three lists of them; callbacks are operations on it.
      [SoftQueue] has the queues between threads that it offers: circular lists of
      nodes in a store, the mutex and the pipe.
    - The threads of the two encoders of the build have one form, [Encoder], with
      the class [Producer] for what differs: [Alaw] is the audio encoder with its
      A-law companding (encoder-alaw.c), [Video] the JPEG encoder with its bit
      rate control (encoder-jpeg.c, JpegEnc.c). [Overlay] draws the date on the
      pictures (TextOverlap.c, Digit_8_16.h) and has the copying of pictures
      (ImgOverlap.c).
    - The program starts by registering the contexts of its modules and running
      directives (conf_parse.c, spook.c, RTSPServer.c): [Conf] has contexts,
      directives and the reader of configuration files, [Spook] the modules of the
      build, the configuration they make and the options of main.
    - Apart from these: the H.264 packetizer (rtp-h264.c) in [RtpH264]; those of
      MPEG video in [RtpMpv] (rtp-mpv.c) and [RtpMpeg4] (rtp-mpeg4.c), over the
      start codes and bit fields of [Bitstream]; the log (log.c) in [Log]; the
      colour conversions (conversions.c) in [Conversions].
    - The settings: [ParamFile] reads and writes parameters in files of lines, for a
      file system that is a map from paths to contents; [Wiscam] (wiscam-config.c)
      decodes and makes the changes of a query and prints parameters as JSON; [Rest]
      (wiscam-server.c) has the requests, over the buffer of the connection, with
      the answers as bytes; [Cgi] (param.c, restart.c, common.c) the older interface
      to the same files.

    ** How the code is represented

    A C function is a Rocq function on the state it changes. [res] is the result
    of code that can leave the meaning of C: an access outside an object, a null
    or freed pointer, a division by zero or a lock taken twice is [Fault]. A null
    or -1 that the code returns as a failure is [None] or the number. Integers
    are [Z] with the wrap of their width written out ([u8], [u16], [u32], [s16],
    [s32]); bytes and strings are [list Z]. A pointer to an object of a list is
    the object's number, so a pointer to a freed object exists and following it
    faults. The kernel (answers of write and bind, the clock, random numbers, the
    bytes malloc returns) is an argument, and the theorems hold for all answers;
    so are the capture device, the hardware encoder, the tokens of the scanner and
    the shell that the REST server calls.

    ** What the theorems show

    - Frames: the heap and the exchanger refine queues, under every interleaving
      of the two threads; counts and clones release exactly what is free.
    - Packets: what a receiver written from the RFC gets back from the packets is
      what the packetizer was given, for every packetizer, with numbers, marks,
      stamps and counters as the RFC has them, and sizes within the maximum
      except where a theorem says which packets exceed it. JPEG files may have
      their segments in any order; rtp-mpeg4.c drops some units of a frame, and
      the theorem says which.
    - Connections: the bytes on the wire are the accepted packets and replies,
      whole and in order, whatever write answers; a client reads back the replies.
      A request gets to its handler exactly once, however it is cut into reads
      and also through the tunnel; images get to HTTP clients whole.
    - Messages: parsing is the inverse of printing; building and looking up
      headers refine an association list.
    - Digests: the optimised MD5 equals the RFC's; a right answer is accepted.
    - Streams and sessions: a source runs while somebody listens, also behind
      conversions, and frames reach exactly those who do; what setup, play and
      teardown do to the counters.
    - The server: from the start, over every sequence of events, no handler
      faults but for two known defects, which are stated with the theorem
      ([unsafe] in [RtspRun]), and sessions, endpoints, connections and channels
      point to each other; URIs find their location and track.
    - RTCP: the parser ends and stays inside every packet.
    - The event loop: what an iteration calls, why and in which order, that a
      removed timer, descriptor or "always" event is never called again (a removed
      listener of a software queue can be), that timers do not drift, how long
      select waits. The software queues refine a bounded queue.
    - Settings: a parameter that is written to its line is read back as far as the
      reader reads it, a parameter without a line is not stored, and no other
      changes; a query does what its assignments say; what a client of the REST
      interface sets is what it gets.
    - Encoders: every run of an encoder thread beside the event loop is free of
      faults, and what the event loop gets is what the device gave, in order; the
      A-law code is that of G.711; the quality of pictures stays in its range and
      pictures come no faster than configured. [audio_received] follows samples
      from the microphone to the client.
    - Start: directives get arguments of the types they declare, a configuration
      file does what its directives do one by one, and the camera starts with the
      streams and locations of its options.
    - MPEG video: frames are parsed into the units they are made of, fields are
      the bits of the standard, and the packets give back the units that are sent.
    - The log holds the last lines, whole; the direct colour conversions agree
      with those through YUY2, for IYU2 where the pixels of a pair share their
      colours; the date is drawn on its rectangle of the frame and
      nothing else changes.
    - Defects of the code that the models show are theorems too, claims of the
      kind error or lemmas at the end of their files.

    ** Fuel and bounds

    Loops are structural on the data they walk, or have fuel that their lemmas
    show to be enough: [parse_pmsg] and [parse_auth_header] the length of the
    text, the packet loops the length of the frame, [unref_frame] the number of
    frames, the loop of MD5Update the length of the data, the loop around
    [parse_client_data] three rounds, of which it uses two. A line
    of the log is skipped with the size of the ring as fuel, a conversion runs with
    the size of its source; the parsers of MPEG video run with the size of the frame
    and [mpeg4_pack] with a turn for each byte and two for each unit. Files are read
    with their length as fuel, queries with that of their text; [set_waiting] and
    [deliver] of [Convert] with a turn for each stream; the counting loops of
    [Overlay] with their limit. The loops that retry a busy write or read until EAGAIN
    take the list of the kernel's answers, the event loop that of the answers of
    select; h264_get_sdp polls the encoder at most 30 times, as the code does.
    [audio_path] and [video_path] unreference frames without clones, where one step
    is enough. The sizes of JPEG frames are the 8 bits per side of RFC 2435.

    ** Not modelled

    Devices and the other encoders (V4L.c, OSS.c, the encoder-*.c of other
    formats) and the calls of JpegEnc.c to the driver, which are system calls
    around what a driver answers; the access log (access_log.c), which nothing opens; the
    scanner that flex generates (conf_scan.c); the sample-rate meter of frame.c, the
    statistics of encoder-jpeg.c, the conversion of the clock in rtcp-parse.c and the
    quality analyser, which compute with floating point; del_stream, which nothing
    calls; of the HTTP library of the REST server (mongoose.c) all but the string
    functions and chunks its handlers use; and the programs of other projects in
    the repository (kernel, busybox, boa, ser2net).

    This file holds what the others share: results and faults, C integers, the
    text and byte functions of C, tactics, lemmas on lists and rings. *)

From stdpp Require Import prelude gmap strings pretty.

Declare Scope c_scope.
Delimit Scope c_scope with c.

#[global] Open Scope Z_scope.

(** Hint databases of the development: [wc_bytes] carries facts about byte
    values and byte lists, [wc_ring] the ring-buffer facts. *)
Create HintDb wc_bytes.
Create HintDb wc_ring.
Create Rewrite HintDb wc_len.

(** ** Faults and results

    C code that reads or writes outside an object, dereferences a null or a
    freed pointer, or waits for a mutex it already holds has no result; the
    models make this a value, so that its absence is a theorem. *)
Inductive fault :=
| OutOfBounds
| NullDeref
| UseAfterFree
| Deadlock
| DivByZero
| BadFree
| OutOfFuel.

Inductive res (A : Type) :=
| Ok (a : A)
| Fault (e : fault).
Arguments Ok {A} a.
Arguments Fault {A} e.

#[global] Instance fault_eq_dec : EqDecision fault.
Proof. solve_decision. Defined.
#[global] Instance res_eq_dec {A} `{EqDecision A} : EqDecision (res A).
Proof. solve_decision. Defined.

#[global] Instance res_ret : MRet res := @Ok.
#[global] Instance res_bind : MBind res := λ A B k m,
  match m with Ok a => k a | Fault e => Fault e end.
#[global] Instance res_fmap : FMap res := λ A B f m,
  match m with Ok a => Ok (f a) | Fault e => Fault e end.

Definition is_ok {A} (r : res A) : bool := match r with Ok _ => true | Fault _ => false end.

(** A read through a pointer into an array: out of range is a fault. *)
Definition rd {A} (l : list A) (i : Z) : res A :=
  if decide (i < 0) then Fault OutOfBounds
  else match l !! Z.to_nat i with Some x => Ok x | None => Fault OutOfBounds end.

(** A write through a pointer into an array: out of range is a fault. *)
Definition wr {A} (l : list A) (i : Z) (x : A) : res (list A) :=
  if decide (0 ≤ i < Z.of_nat (length l)) then Ok (<[Z.to_nat i := x]> l)
  else Fault OutOfBounds.

(** ** C integers *)
Definition u8 (x : Z) : Z := x `mod` 256.
Definition u16 (x : Z) : Z := x `mod` 65536.
Definition u32 (x : Z) : Z := x `mod` 4294967296.
Definition u64 (x : Z) : Z := x `mod` 18446744073709551616.
Definition s16 (x : Z) : Z := (x + 32768) `mod` 65536 - 32768.
Definition s32 (x : Z) : Z := (x + 2147483648) `mod` 4294967296 - 2147483648.

Definition int_range (x : Z) : Prop := -2147483648 ≤ x ≤ 2147483647.

Definition is_byte (x : Z) : Prop := 0 ≤ x < 256.
#[global] Instance is_byte_dec x : Decision (is_byte x).
Proof. unfold is_byte. apply _. Defined.

(** The length of a list as the [int] the C code keeps. *)
Definition zlen {A} (l : list A) : Z := Z.of_nat (length l).

(** [struct timeval]: a reading of the clock. *)
Record timeval := mkTime { tv_sec : Z; tv_usec : Z }.

#[global] Instance timeval_eq_dec : EqDecision timeval.
Proof. solve_decision. Defined.

(** The bytes [i .. i + len) of an object, as an [iovec] names them. *)
Definition slice (d : list Z) (i len : Z) : list Z := take (Z.to_nat len) (drop (Z.to_nat i) d).

(** Characters and string literals as the bytes of the C execution character
    set. *)
Definition byte_of_ascii (a : Ascii.ascii) : Z := Z.of_N (Ascii.N_of_ascii a).
Fixpoint bytes_of_string (s : string) : list Z :=
  match s with
  | EmptyString => []
  | String a s' => byte_of_ascii a :: bytes_of_string s'
  end.
Notation "$ s" := (bytes_of_string s%string) (at level 8, s at level 0) : c_scope.

(** The conversions of [printf] the sources use: [%d] (and [%u] of a
    non-negative value), [%02x] and [%02X] of a byte. *)
Definition fmt_d (z : Z) : list Z := bytes_of_string (pretty z).
Definition hex_digit (upper : bool) (n : Z) : Z :=
  if decide (n < 10) then 48 + n else (if upper then 55 else 87) + n.
Definition fmt_02x (b : Z) : list Z := [hex_digit false (b `div` 16); hex_digit false (b `mod` 16)].
Definition fmt_02X (b : Z) : list Z := [hex_digit true (b `div` 16); hex_digit true (b `mod` 16)].
Definition crlf : list Z := [13; 10].

(** sprintf into an array of [size] bytes, with its terminating zero. *)
Definition sprintf_into (size : Z) (text : list Z) : res (list Z) :=
  if decide (zlen text < size) then Ok text else Fault OutOfBounds.

(** Big-endian fields, the macros of rtp.h. *)
Definition PUT_16 (v : Z) : list Z :=
  [Z.land (Z.shiftr v 8) 255; Z.land v 255].
Definition PUT_32 (v : Z) : list Z :=
  [Z.land (Z.shiftr v 24) 255; Z.land (Z.shiftr v 16) 255;
   Z.land (Z.shiftr v 8) 255; Z.land v 255].
Definition GET_16 (p0 p1 : Z) : Z := Z.lor (Z.shiftl p0 8) p1.
Definition GET_32 (p0 p1 p2 p3 : Z) : Z :=
  Z.lor (Z.lor (Z.lor (Z.shiftl p0 24) (Z.shiftl p1 16)) (Z.shiftl p2 8)) p3.

(** ** Tactics *)

(** Case analysis on the test of an [if] on a boolean or a decision. *)
Ltac case_test :=
  match goal with
  | |- context [if ?b then _ else _] => destruct b eqn:?
  | H : context [if ?b then _ else _] |- _ => destruct b eqn:?
  end.

(** Boolean comparisons to propositions. *)
Ltac b2p :=
  repeat match goal with
  | H : (_ && _)%bool = true |- _ => apply andb_prop in H as [? ?]
  | H : (_ || _)%bool = false |- _ => apply orb_false_elim in H as [? ?]
  | H : negb _ = true |- _ => apply negb_true_iff in H
  | H : negb _ = false |- _ => apply negb_false_iff in H
  | H : Z.eqb _ _ = true |- _ => apply Z.eqb_eq in H
  | H : Z.eqb _ _ = false |- _ => apply Z.eqb_neq in H
  | H : Z.ltb _ _ = true |- _ => apply Z.ltb_lt in H
  | H : Z.ltb _ _ = false |- _ => apply Z.ltb_ge in H
  | H : Z.leb _ _ = true |- _ => apply Z.leb_le in H
  | H : Z.leb _ _ = false |- _ => apply Z.leb_gt in H
  | H : Nat.eqb _ _ = true |- _ => apply Nat.eqb_eq in H
  | H : Nat.eqb _ _ = false |- _ => apply Nat.eqb_neq in H
  | H : bool_decide _ = true |- _ => apply bool_decide_eq_true in H
  | H : bool_decide _ = false |- _ => apply bool_decide_eq_false in H
  end.

(** [Forall] of a decidable property over a closed list, by computation. *)
Ltac closed_nonzero := apply (bool_decide_unpack _); vm_compute; exact I.

(** Arithmetic with division and modulo by positive constants. *)
Ltac zdm := Z.div_mod_to_equations; lia.

(** [simpl] may unfold the overloaded map on lists; fold it back. *)
Ltac fold_fmap :=
  repeat match goal with
  | |- context [list_fmap _ _ ?f ?l] => change (list_fmap _ _ f l) with (f <$> l)
  | H : context [list_fmap _ _ ?f ?l] |- _ => change (list_fmap _ _ f l) with (f <$> l) in H
  end.

(** Length goals. *)
Ltac len_simpl := rewrite ?length_app, ?length_insert, ?length_drop, ?length_take,
  ?length_replicate, ?length_fmap in *.

(** ** Generic lemmas: integers *)

Lemma u8_range x : is_byte (u8 x).
Proof. unfold is_byte, u8. pose proof (Z.mod_pos_bound x 256). lia. Qed.

Lemma u16_range x : 0 ≤ u16 x < 65536.
Proof. unfold u16. apply Z.mod_pos_bound. lia. Qed.

Lemma u32_range x : 0 ≤ u32 x < 4294967296.
Proof. unfold u32. apply Z.mod_pos_bound. lia. Qed.

Lemma u32_small x : 0 ≤ x < 4294967296 → u32 x = x.
Proof. apply Z.mod_small. Qed.

Lemma u32_add_l x y : u32 (u32 x + y) = u32 (x + y).
Proof. apply Zplus_mod_idemp_l. Qed.

Lemma u32_add_r x y : u32 (x + u32 y) = u32 (x + y).
Proof. apply Zplus_mod_idemp_r. Qed.

Lemma u32_u32 x : u32 (u32 x) = u32 x.
Proof. apply Zmod_mod. Qed.

Lemma s32_small x : int_range x → s32 x = x.
Proof. unfold int_range, s32. intros. rewrite Z.mod_small; lia. Qed.

Lemma s32_range x : int_range (s32 x).
Proof. unfold int_range, s32. pose proof (Z.mod_pos_bound (x + 2147483648) 4294967296). lia. Qed.

Lemma land_1 x : Z.land x 1 = x `mod` 2.
Proof. change 1 with (Z.ones 1). by rewrite Z.land_ones by lia. Qed.

Lemma land_ff x : Z.land x 255 = x `mod` 256.
Proof. change 255 with (Z.ones 8). by rewrite Z.land_ones by lia. Qed.

Lemma land_ffff x : Z.land x 65535 = x `mod` 65536.
Proof. change 65535 with (Z.ones 16). by rewrite Z.land_ones by lia. Qed.

Lemma land_ffffffff x : Z.land x 4294967295 = u32 x.
Proof. change 4294967295 with (Z.ones 32). by rewrite Z.land_ones by lia. Qed.

Lemma shiftr_div x k : 0 ≤ k → Z.shiftr x k = x `div` 2 ^ k.
Proof. apply Z.shiftr_div_pow2. Qed.

(** A value shifted past a small one: the disjunction is a sum. *)
Lemma lor_shiftl_add a b k : 0 ≤ k → 0 ≤ b < 2 ^ k → Z.lor (Z.shiftl a k) b = a * 2 ^ k + b.
Proof.
  intros Hk Hb. rewrite <- Z.shiftl_mul_pow2 by lia. symmetry.
  apply Z.add_nocarry_lor, Z.bits_inj'. intros n Hn.
  rewrite Z.land_spec, Z.bits_0. destruct (decide (n < k)).
  - by rewrite Z.shiftl_spec_low by lia.
  - replace b with (b `mod` 2 ^ k) by (apply Z.mod_small; lia).
    rewrite Z.mod_pow2_bits_high by lia. apply andb_false_r.
Qed.

Lemma GET_16_eq p0 p1 : is_byte p1 → GET_16 p0 p1 = p0 * 256 + p1.
Proof. unfold GET_16, is_byte. intros. by rewrite lor_shiftl_add by (change (2^8) with 256; lia). Qed.

Lemma GET_32_eq p0 p1 p2 p3 :
  is_byte p1 → is_byte p2 → is_byte p3 →
  GET_32 p0 p1 p2 p3 = p0 * 16777216 + p1 * 65536 + p2 * 256 + p3.
Proof.
  unfold GET_32, is_byte. intros.
  replace (Z.shiftl p0 24) with (Z.shiftl (Z.shiftl (Z.shiftl p0 8) 8) 8) by by rewrite !Z.shiftl_shiftl by lia.
  replace (Z.shiftl p1 16) with (Z.shiftl (Z.shiftl p1 8) 8) by by rewrite !Z.shiftl_shiftl by lia.
  rewrite <- !Z.shiftl_lor. rewrite !lor_shiftl_add by (change (2^8) with 256; lia).
  change (2 ^ 8) with 256. lia.
Qed.

Lemma PUT_16_eq v : PUT_16 v = [(v `div` 256) `mod` 256; v `mod` 256].
Proof. unfold PUT_16. by rewrite !land_ff, shiftr_div by lia. Qed.

Lemma PUT_32_eq v :
  PUT_32 v = [(v `div` 16777216) `mod` 256; (v `div` 65536) `mod` 256;
              (v `div` 256) `mod` 256; v `mod` 256].
Proof. unfold PUT_32. by rewrite !land_ff, !shiftr_div by lia. Qed.

Lemma PUT_16_bytes v : Forall is_byte (PUT_16 v).
Proof. rewrite PUT_16_eq. repeat constructor; apply u8_range. Qed.

Lemma PUT_32_bytes v : Forall is_byte (PUT_32 v).
Proof. rewrite PUT_32_eq. repeat constructor; apply u8_range. Qed.

(** What a reader of a big-endian field sees is what was written, at the
    field's width. *)
Lemma GET_PUT_16 v : match PUT_16 v with [a; b] => GET_16 a b = u16 v | _ => False end.
Proof. rewrite PUT_16_eq, GET_16_eq by apply u8_range. unfold u16. zdm. Qed.

Lemma GET_PUT_32 v : match PUT_32 v with [a; b; c; d] => GET_32 a b c d = u32 v | _ => False end.
Proof. rewrite PUT_32_eq, GET_32_eq by apply u8_range. unfold u32. zdm. Qed.

#[export] Hint Resolve u8_range PUT_16_bytes PUT_32_bytes : wc_bytes.

(** ** Generic lemmas: lists *)

Lemma zlen_app {A} (l k : list A) : zlen (l ++ k) = zlen l + zlen k.
Proof. unfold zlen. rewrite length_app. lia. Qed.

Lemma zlen_cons {A} (x : A) l : zlen (x :: l) = 1 + zlen l.
Proof. unfold zlen. simpl. lia. Qed.

Lemma zlen_nonneg {A} (l : list A) : 0 ≤ zlen l.
Proof. unfold zlen. lia. Qed.

Lemma zlen_nil {A} : zlen (@nil A) = 0.
Proof. reflexivity. Qed.

#[export] Hint Rewrite @zlen_app @zlen_cons @zlen_nil : wc_len.

Lemma zlen_slice d i len : 0 ≤ i → 0 ≤ len → i + len ≤ zlen d → zlen (slice d i len) = len.
Proof. unfold zlen, slice. intros. rewrite length_take, length_drop. lia. Qed.

(** Adjacent slices join. *)
Lemma slice_app d i l1 l2 :
  0 ≤ i → 0 ≤ l1 → 0 ≤ l2 → slice d i l1 ++ slice d (i + l1) l2 = slice d i (l1 + l2).
Proof.
  intros. unfold slice. rewrite !Z2Nat.inj_add by lia.
  rewrite <- drop_drop. apply take_take_drop.
Qed.

(** A slice behind a pointer into the object. *)
Lemma slice_drop d p i len : 0 ≤ p → 0 ≤ i → slice d (p + i) len = slice (drop (Z.to_nat p) d) i len.
Proof. intros. unfold slice. by rewrite drop_drop, Z2Nat.inj_add by lia. Qed.

Lemma slice_0 d i : slice d i 0 = [].
Proof. reflexivity. Qed.

Lemma slice_all d : slice d 0 (zlen d) = d.
Proof. unfold slice, zlen. rewrite drop_0, Nat2Z.id. by apply take_ge. Qed.

Lemma slice_bytes d i len : Forall is_byte d → Forall is_byte (slice d i len).
Proof. intros. by apply Forall_take, Forall_drop. Qed.


Lemma rd_ok {A} (l : list A) i : 0 ≤ i < zlen l → ∃ x, rd l i = Ok x ∧ l !! Z.to_nat i = Some x.
Proof.
  unfold zlen, rd. intros Hi. destruct (lookup_lt_is_Some_2 l (Z.to_nat i)) as [x Hx]; [lia|].
  exists x. rewrite decide_False by lia. by rewrite Hx.
Qed.

Lemma rd_inv {A} (l : list A) i x : rd l i = Ok x → 0 ≤ i < zlen l ∧ l !! Z.to_nat i = Some x.
Proof.
  unfold zlen, rd. case_decide; [done|]. destruct (l !! Z.to_nat i) eqn:E; [|done].
  intros [= ->]. apply lookup_lt_Some in E as ?. split; [lia|done].
Qed.

Lemma rd_last p x (z : Z) : last x = Some z → rd (p ++ x) (zlen (p ++ x) - 1) = Ok z.
Proof.
  rewrite last_lookup, zlen_app. intros Hz. assert (0 < length x)%nat as H0 by (destruct x; [done|simpl; lia]).
  unfold rd. rewrite decide_False by (unfold zlen; lia). rewrite lookup_app_r by (unfold zlen; lia).
  replace (_ - _)%nat with (pred (length x)) by (unfold zlen; lia). by rewrite Hz.
Qed.

Lemma wr_ok {A} (l : list A) i x : 0 ≤ i < zlen l → wr l i x = Ok (<[Z.to_nat i := x]> l).
Proof. unfold zlen, wr. intros. by rewrite decide_True. Qed.

(** Evaluation of binds and reads one at a time, where [simpl] would unfold too
    much. *)
Lemma res_bind_ok {A B} (k : A → res B) a : (Ok a ≫= k) = k a.
Proof. reflexivity. Qed.

Lemma rd_head {A} (x : A) l : rd (x :: l) 0 = Ok x.
Proof. reflexivity. Qed.

(** A pointer into an object and what is behind it. *)
Definition at_off (l : list Z) (i : Z) (rest : list Z) : Prop :=
  0 ≤ i ≤ zlen l ∧ drop (Z.to_nat i) l = rest.

Lemma at_off_start l : at_off l 0 l.
Proof. split; [pose proof (zlen_nonneg l); lia|done]. Qed.

Lemma at_off_len l i rest : at_off l i rest → i + zlen rest = zlen l.
Proof. intros [Hi <-]. unfold zlen in *. rewrite length_drop. lia. Qed.

Lemma at_off_app l i a rest : at_off l i (a ++ rest) → at_off l (i + zlen a) rest.
Proof.
  intros Ha. pose proof (at_off_len _ _ _ Ha) as Hl. destruct Ha as [Hi Hd].
  rewrite zlen_app in Hl. pose proof (zlen_nonneg a). pose proof (zlen_nonneg rest).
  split; [lia|]. rewrite Z2Nat.inj_add by lia. rewrite <- drop_drop, Hd.
  unfold zlen. rewrite Nat2Z.id. apply drop_app_length.
Qed.

Lemma at_off_rd l i rest k : at_off l i rest → 0 ≤ k → rd l (i + k) = rd rest k.
Proof.
  intros [Hi <-] Hk. unfold rd. rewrite !decide_False by lia.
  by rewrite lookup_drop, Z2Nat.inj_add by lia.
Qed.

Lemma at_off_read l i rest k x :
  at_off l i rest → 0 ≤ k → rest !! Z.to_nat k = Some x → rd l (i + k) = Ok x.
Proof.
  intros H Hk Hx. rewrite (at_off_rd _ _ _ _ H Hk). unfold rd. rewrite decide_False by lia. by rewrite Hx.
Qed.

Lemma at_off_rd0 l i rest : at_off l i rest → rd l i = rd rest 0.
Proof. intros H. by rewrite <- (at_off_rd l i rest 0 H), Z.add_0_r by lia. Qed.

Lemma at_off_slice l i a rest : at_off l i (a ++ rest) → slice l i (zlen a) = a.
Proof. intros [_ Hd]. unfold slice. rewrite Hd. unfold zlen. by rewrite Nat2Z.id, take_app_length. Qed.

Lemma Forall_insert_byte (l : list Z) i x : Forall is_byte l → is_byte x → Forall is_byte (<[i:=x]> l).
Proof. intros. by apply Forall_insert. Qed.

Lemma to_nat_zlen {A} (l : list A) : Z.to_nat (zlen l) = length l.
Proof. apply Nat2Z.id. Qed.

(** Bytes written over a buffer from an offset on. *)
Definition blit (d : list Z) (i : Z) (s : list Z) : list Z :=
  take (Z.to_nat i) d ++ s ++ drop (Z.to_nat i + length s) d.

Lemma zlen_blit d i s : 0 ≤ i → i + zlen s ≤ zlen d → zlen (blit d i s) = zlen d.
Proof.
  intros Hi Hl. unfold blit, zlen in *. rewrite !length_app, length_take, length_drop. lia.
Qed.

Lemma wr_blit d i s x :
  0 ≤ i → i + zlen s < zlen d → wr (blit d i s) (i + zlen s) x = Ok (blit d i (s ++ [x])).
Proof.
  intros Hi Hl. pose proof (zlen_nonneg s). rewrite wr_ok by (rewrite zlen_blit; lia). f_equal. unfold blit, zlen in *.
  rewrite insert_app_r_alt by (rewrite length_take; lia).
  rewrite insert_app_r_alt by (rewrite length_take; lia).
  replace (Z.to_nat (i + Z.of_nat (length s)) - length (take (Z.to_nat i) d) - length s)%nat with 0%nat
    by (rewrite length_take; lia).
  rewrite <- app_assoc. do 2 f_equal. rewrite length_app. cbn [length].
  destruct (drop (Z.to_nat i + length s) d) as [|y r] eqn:E.
  - apply (f_equal length) in E. rewrite length_drop in E. simpl in E. lia.
  - cbn. f_equal. replace (Z.to_nat i + (length s + 1))%nat with (Z.to_nat i + length s + 1)%nat by lia.
    by rewrite <- drop_drop, E.
Qed.

Lemma blit_nil d i : blit d i [] = d.
Proof. unfold blit. rewrite Nat.add_0_r. apply take_drop. Qed.

Lemma take_blit d i s k :
  0 ≤ i ≤ zlen d → 0 ≤ k ≤ zlen s → take (Z.to_nat (i + k)) (blit d i s) = take (Z.to_nat i) d ++ take (Z.to_nat k) s.
Proof.
  intros Hi Hk. unfold blit, zlen in *. rewrite take_app_ge by (rewrite length_take; lia). f_equal.
  rewrite length_take. replace (Z.to_nat (i + k) - Z.to_nat i `min` length d)%nat with (Z.to_nat k) by lia.
  apply take_app_le. lia.
Qed.

Lemma drop_blit d i s j : 0 ≤ i → i + zlen s ≤ j → zlen s + i ≤ zlen d → drop (Z.to_nat j) (blit d i s) = drop (Z.to_nat j) d.
Proof.
  intros Hi Hj Hd. unfold blit, zlen in *. rewrite drop_app_ge by (rewrite length_take; lia).
  rewrite drop_app_ge by (rewrite length_take; lia). rewrite drop_drop, length_take. f_equal. lia.
Qed.

(** ** Ring buffers

    The frame heap, the frame exchangers and the TCP send buffers are all
    circular buffers with a start index. [ring_holds buf r q] says that the
    buffer [buf], read from index [r] on and wrapping around, starts with
    [q]. *)
Section Ring.
Context {A : Type}.
Implicit Types (buf q : list A) (r i : nat) (x y : A).

Definition ring_next (n i : nat) : nat := if decide (S i = n) then 0%nat else S i.

Definition ring_holds buf r q : Prop :=
  (length q <= length buf)%nat ∧
  ∀ i x, q !! i = Some x → buf !! ((r + i) `mod` length buf)%nat = Some x.

Lemma ring_next_mod n i : (i < n)%nat → ring_next n i = (S i `mod` n)%nat.
Proof.
  intros. unfold ring_next. case_decide as E.
  - by rewrite E, Nat.Div0.mod_same.
  - rewrite Nat.mod_small by lia. done.
Qed.

Lemma ring_next_lt n i : (i < n)%nat → (ring_next n i < n)%nat.
Proof. intros. rewrite ring_next_mod by done. apply Nat.mod_upper_bound. lia. Qed.

Lemma ring_next_add n r k :
  (r < n)%nat → ((ring_next n r + k) `mod` n)%nat = ((r + S k) `mod` n)%nat.
Proof.
  intros. rewrite ring_next_mod by done. rewrite Nat.Div0.add_mod_idemp_l. f_equal. lia.
Qed.

Lemma ring_next_end n r k :
  (r < n)%nat → ring_next n ((r + k) `mod` n)%nat = ((r + S k) `mod` n)%nat.
Proof.
  intros. rewrite ring_next_mod by (apply Nat.mod_upper_bound; lia).
  replace (S ((r + k) `mod` n))%nat with ((r + k) `mod` n + 1)%nat by lia.
  rewrite Nat.Div0.add_mod_idemp_l. f_equal. lia.
Qed.

(** Distinct offsets below the length reach distinct cells. *)
Lemma ring_offset_inj n r i j :
  (i < n)%nat → (j < n)%nat → ((r + i) `mod` n)%nat = ((r + j) `mod` n)%nat → i = j.
Proof.
  intros Hi Hj E.
  pose proof (Nat.div_mod_eq (r + i) n) as Ei. pose proof (Nat.div_mod_eq (r + j) n) as Ej.
  rewrite E in Ei.
  assert ((r + i) / n = (r + j) / n)%nat as Eq by nia. rewrite Eq in Ei. lia.
Qed.

Lemma ring_holds_nil buf r : ring_holds buf r [].
Proof. split; [simpl; lia|]. intros i x. by rewrite lookup_nil. Qed.

Lemma ring_holds_head buf r x q :
  (r < length buf)%nat → ring_holds buf r (x :: q) → buf !! r = Some x.
Proof.
  intros Hr [_ H]. specialize (H 0%nat x eq_refl).
  by rewrite Nat.add_0_r, Nat.mod_small in H.
Qed.

Lemma ring_holds_tail buf r x q :
  (r < length buf)%nat → ring_holds buf r (x :: q) →
  ring_holds buf (ring_next (length buf) r) q.
Proof.
  intros Hr [Hl H]. split; [simpl in *; lia|].
  intros i y Hy. rewrite ring_next_add by done. by apply H.
Qed.

(** Writing the cell at offset [i] changes the [i]-th element. *)
Lemma ring_holds_insert buf r q i x :
  ring_holds buf r q → (i < length buf)%nat →
  ring_holds (<[((r + i) `mod` length buf)%nat := x]> buf) r (<[i := x]> q).
Proof.
  intros [Hl H] Hi. split; [by rewrite !length_insert|].
  rewrite length_insert. intros j y Hy.
  apply list_lookup_insert_Some in Hy as [(-> & -> & Hj)|[Hij Hy]].
  - apply list_lookup_insert_eq. apply Nat.mod_upper_bound. lia.
  - rewrite list_lookup_insert_ne; [by apply H|].
    apply lookup_lt_Some in Hy. intros E. apply Hij.
    eapply ring_offset_inj; [| |exact E]; lia.
Qed.

(** Writing the first free cell appends. *)
Lemma ring_holds_snoc buf r q x :
  ring_holds buf r q → (length q < length buf)%nat →
  ring_holds (<[((r + length q) `mod` length buf)%nat := x]> buf) r (q ++ [x]).
Proof.
  intros Hq Hl. pose proof (ring_holds_insert buf r q (length q) x Hq ltac:(lia)) as [_ H].
  split; [rewrite length_app, length_insert; simpl; lia|].
  intros i y Hy. apply lookup_app_Some in Hy as [Hy|[Hi Hy]].
  - apply H. apply lookup_lt_Some in Hy as Hlt. rewrite list_lookup_insert_ne by lia. done.
  - apply list_lookup_singleton_Some in Hy as [? ->].
    replace i with (length q) by lia. rewrite length_insert.
    apply list_lookup_insert_eq. apply Nat.mod_upper_bound. lia.
Qed.

(** When the whole ring is described, overwriting the first cell and
    advancing rotates the contents. *)
Lemma ring_holds_rotate buf r x q y :
  (r < length buf)%nat → ring_holds buf r (x :: q) → length (x :: q) = length buf →
  ring_holds (<[r := y]> buf) (ring_next (length buf) r) (q ++ [y]).
Proof.
  intros Hr Hq Hl.
  pose proof (ring_holds_tail _ _ _ _ Hr Hq) as Ht.
  pose proof (ring_holds_snoc buf _ q y Ht ltac:(simpl in *; lia)) as H.
  rewrite ring_next_add in H by done. simpl in Hl.
  replace ((r + S (length q)) `mod` length buf)%nat with r in H; [done|].
  rewrite Hl. replace (r + length buf)%nat with (r + 1 * length buf)%nat by lia.
  rewrite Nat.Div0.mod_add, Nat.mod_small; lia.
Qed.

Lemma ring_holds_prefix buf r q1 q2 : ring_holds buf r (q1 ++ q2) → ring_holds buf r q1.
Proof.
  intros [Hl H]. rewrite length_app in Hl. split; [lia|].
  intros i x Hx. apply H. by apply lookup_app_l_Some.
Qed.
End Ring.

#[export] Hint Resolve ring_next_lt ring_holds_nil ring_holds_tail ring_holds_prefix : wc_ring.

(** ** Decimal numbers *)

(** The value of a string of digits, as [atoi] and [strtol] compute it. *)
Definition dec_value (ds : list Z) : Z := foldl (λ a c, a * 10 + (c - 48)) 0 ds.
Definition is_digit (c : Z) : Prop := 48 ≤ c ≤ 57.

Lemma pretty_N_char_digit (x : N) : (x < 10)%N → byte_of_ascii (pretty_N_char x) = Z.of_N x + 48.
Proof.
  intros Hx. assert (x = 0 ∨ x = 1 ∨ x = 2 ∨ x = 3 ∨ x = 4 ∨ x = 5 ∨ x = 6 ∨ x = 7 ∨ x = 8 ∨ x = 9)%N as Hc by lia.
  by destruct Hc as [->|[->|[->|[->|[->|[->|[->|[->|[->| ->]]]]]]]]].
Qed.

Lemma pretty_N_go_digits (x : N) s :
  ∃ ds, bytes_of_string (pretty_N_go x s) = ds ++ bytes_of_string s ∧ Forall is_digit ds ∧
    dec_value ds = Z.of_N x ∧ ((0 < x)%N → ds ≠ []) ∧ ∀ k, Z.of_N x < 10 ^ Z.of_nat k → (length ds <= k)%nat.
Proof.
  revert s. induction (N.lt_wf_0 x) as [x _ IH]; intros s.
  destruct (decide (x = 0)%N) as [->|Hx].
  - exists []. rewrite pretty_N_go_0. split_and!; try done; simpl; lia.
  - rewrite pretty_N_go_step by lia. destruct (IH (x `div` 10)%N (N.div_lt x 10 ltac:(lia) eq_refl)
      (String (pretty_N_char (x `mod` 10)) s)) as (ds & -> & Hd & Hv & _ & Hl).
    assert (x `mod` 10 < 10)%N as Hm by (by apply N.mod_lt).
    pose proof (N.div_mod x 10 ltac:(done)) as Hdm.
    exists (ds ++ [Z.of_N (x `mod` 10) + 48]). cbn [bytes_of_string]. rewrite pretty_N_char_digit by done.
    remember (x `mod` 10)%N as m eqn:Em. clear Em. split_and!.
    + by rewrite <- app_assoc.
    + apply Forall_app. split; [done|]. constructor; [unfold is_digit; lia|constructor].
    + unfold dec_value in *. rewrite foldl_app. simpl. rewrite Hv. lia.
    + intros _. by destruct ds.
    + intros k Hk. rewrite length_app. simpl. destruct k as [|k]; [simpl in Hk; lia|].
      assert (length ds <= k)%nat; [|lia]. apply Hl. rewrite N2Z.inj_div. apply Z.div_lt_upper_bound; [lia|].
      rewrite Nat2Z.inj_succ, Z.pow_succ_r in Hk by lia. lia.
Qed.

(** What [%d] prints for a non-negative number: its digits. *)
Lemma fmt_d_digits z :
  0 ≤ z → fmt_d z ≠ [] ∧ Forall is_digit (fmt_d z) ∧ dec_value (fmt_d z) = z ∧
  ∀ k, (1 <= k)%nat → z < 10 ^ Z.of_nat k → (length (fmt_d z) <= k)%nat.
Proof.
  intros Hz. assert (fmt_d z = bytes_of_string (pretty (Z.to_N z))) as ->.
  { unfold fmt_d. destruct z; [done|done|lia]. }
  unfold pretty, pretty_N. case_decide as E.
  - split_and!; [done|by apply Forall_singleton; vm_compute|change (0 = z); lia|]. intros k Hk _. simpl. lia.
  - destruct (pretty_N_go_digits (Z.to_N z) "") as (ds & -> & H1 & H2 & H3 & H4). cbn [bytes_of_string].
    rewrite app_nil_r. split_and!; [apply H3; lia|done|lia|]. intros k _ Hk. apply H4. lia.
Qed.
