(* ===== verification/Frame.v ===== *)
(** * Frame: the frame heap, reference counts and frame exchangers

    Models src/sources/applications/RTSPServer/src/frame.c and frame.h: the
    global ring of frame buffers ([init_frame_heap], [new_frame],
    [clone_frame], [ref_frame], [unref_frame]) and the ring through which an
    encoder thread hands frames to the event loop ([new_exchanger],
    [deliver_frame], [exchanger_read], [exchange_frame], [get_next_frame]).

    The nodes of both circular lists are built once and never relinked, so a
    node is its index and [next] is [ring_next]. A pointer to a frame is the
    frame's number. [heap_locked] is the state of [frame_heap_mutex]: taking
    it while it is held never returns, which is [Fault Deadlock]. *)

From stdpp Require Import prelude gmap strings.
From S2P Require Import Prelude.

(** ** Data *)

Definition FORMAT_EMPTY : Z := 0.
Definition FORMAT_RAW_RGB24 : Z := 1.
Definition FORMAT_RAW_UYVY : Z := 2.
Definition FORMAT_PCM : Z := 64.
Definition FORMAT_MPEG4 : Z := 100.
Definition FORMAT_JPEG : Z := 101.
Definition FORMAT_MPV : Z := 102.
Definition FORMAT_H263 : Z := 103.
Definition FORMAT_H264 : Z := 104.
Definition FORMAT_MPA : Z := 200.
Definition FORMAT_ALAW : Z := 201.
Definition FORMAT_ADPCM : Z := 202.
Definition FORMAT_ULAW : Z := 203.
Definition FORMAT_AAC : Z := 204.
Definition FORMAT_G726 : Z := 205.

(** [destructor] is [None] for the null pointer and [Some o] for
    [clone_destructor] with [destructor_data = o], the only destructor of the
    program. [d] is the frame whose buffer the pointer [d] points into. *)
Record frame := mkFrame {
  ref_count : Z;
  size : Z;
  destructor : option nat;
  format : Z;
  width : Z;
  height : Z;
  flength : Z;
  key : Z;
  step : Z;
  d : nat;
  timestamp : Z }.

Record heap := mkHeap {
  frames : gmap nat frame;
  slots : list (option nat);
  frame_heap_take : nat;
  frame_heap_put : nat;
  heap_locked : bool;
  max_frame_size : Z;
  max_frame_slot : Z }.

Definition set_ref_count (r : Z) (f : frame) : frame :=
  mkFrame r (size f) (destructor f) (format f) (width f) (height f) (flength f)
    (key f) (step f) (d f) (timestamp f).

Definition set_frames (h : heap) (fr : gmap nat frame) : heap :=
  mkHeap fr (slots h) (frame_heap_take h) (frame_heap_put h) (heap_locked h)
    (max_frame_size h) (max_frame_slot h).

(** ** The frame heap *)

(** [g] is the content of the freshly allocated, not yet initialised frames. *)
Definition init_frame_heap (g : nat → frame) (sz count : Z) : res heap :=
  let n := Z.to_nat count in
  if decide (count ≤ 0) then Fault NullDeref else
  Ok (mkHeap
    (list_to_map ((λ i, (i, mkFrame (ref_count (g i)) sz (destructor (g i)) (format (g i))
        (width (g i)) (height (g i)) (flength (g i)) (key (g i)) (step (g i)) (d (g i))
        (timestamp (g i)))) <$> seq 0 n))
    (Some <$> seq 0 n) 0 0 false sz count).

Definition get_max_frame_size (h : heap) : Z := max_frame_size h.
Definition get_max_frame_slot (h : heap) : Z := max_frame_slot h.

(** The fields [new_frame] sets; [step] and [timestamp] keep the values of the
    frame's previous use. *)
Definition reset_frame (id : nat) (f : frame) : frame :=
  mkFrame 1 (size f) None FORMAT_EMPTY 0 0 0 0 (step f) id (timestamp f).

Definition new_frame (h : heap) : res (heap * option nat) :=
  if heap_locked h then Fault Deadlock else
  match slots h !! frame_heap_take h with
  | None => Fault NullDeref
  | Some None => Ok (h, None)
  | Some (Some id) =>
      match frames h !! id with
      | None => Fault UseAfterFree
      | Some f =>
          Ok (mkHeap (<[id := reset_frame id f]> (frames h))
                (<[frame_heap_take h := None]> (slots h))
                (ring_next (length (slots h)) (frame_heap_take h))
                (frame_heap_put h) false (max_frame_size h) (max_frame_slot h), Some id)
      end
  end.

Definition ref_frame (h : heap) (id : nat) : res heap :=
  match frames h !! id with
  | None => Fault UseAfterFree
  | Some f => Ok (set_frames h (<[id := set_ref_count (ref_count f + 1) f]> (frames h)))
  end.

(** The tail of [unref_frame]: put the frame back at [frame_heap_put]. The
    branch with a frame already there returns with the mutex held. *)
Definition put_frame (h : heap) (id : nat) : res heap :=
  if heap_locked h then Fault Deadlock else
  match slots h !! frame_heap_put h with
  | None => Fault NullDeref
  | Some (Some _) =>
      Ok (mkHeap (frames h) (slots h) (frame_heap_take h) (frame_heap_put h) true
            (max_frame_size h) (max_frame_slot h))
  | Some None =>
      Ok (mkHeap (frames h) (<[frame_heap_put h := Some id]> (slots h)) (frame_heap_take h)
            (ring_next (length (slots h)) (frame_heap_put h)) false
            (max_frame_size h) (max_frame_slot h))
  end.

(** [clone_destructor] calls [unref_frame] on the original and returns 0, so
    the recursion follows the chain of clones; the fuel bounds its length. *)
Fixpoint unref_frame (fuel : nat) (h : heap) (id : nat) : res heap :=
  match fuel with
  | O => Fault OutOfFuel
  | S fuel =>
      match frames h !! id with
      | None => Fault UseAfterFree
      | Some f =>
          let r := ref_count f - 1 in
          if decide (r > 0) then
            Ok (set_frames h (<[id := set_ref_count r f]> (frames h)))
          else
            match destructor f with
            | None =>
                put_frame (set_frames h (<[id := set_ref_count r f]> (frames h))) id
            | Some o =>
                h2 ← unref_frame fuel (set_frames h (<[id := set_ref_count 1 f]> (frames h))) o;
                put_frame h2 id
            end
      end
  end.

Definition clone_frame (h : heap) (orig : nat) : res (heap * option nat) :=
  '(h1, r) ← new_frame h;
  match r with
  | None => Ok (h1, None)
  | Some id =>
      match frames h1 !! id, frames h1 !! orig with
      | Some f, Some o =>
          let f' := mkFrame (ref_count f) (size f) (Some orig) (format o) (width o) (height o)
                      (flength o) (key o) (step o) (d o) (timestamp f) in
          h2 ← ref_frame (set_frames h1 (<[id := f']> (frames h1))) orig;
          Ok (h2, Some id)
      | _, _ => Fault UseAfterFree
      end
  end.

(** [realloc] gives the new address of the block, or null. *)
Definition enlarge_frame_buffer (h : heap) (id : nat) (new_size : Z) (realloc : option nat)
  : res (heap * option nat) :=
  if decide (new_size = 0) then Ok (h, None) else
  match realloc with
  | None => Ok (h, None)
  | Some p =>
      match frames h !! id with
      | None => Fault UseAfterFree
      | Some f =>
          let f' := mkFrame (ref_count f) new_size (destructor f) (format f) (width f) (height f)
                      (flength f) (key f) (step f) p (timestamp f) in
          Ok (set_frames h (<[p := f']> (delete id (frames h))), Some p)
      end
  end.

(** ** The frame exchanger *)

Record frame_slot := mkSlot { pending : Z; sf : option nat }.

(** [pipe] is the number of bytes written to [slave_fd] and not yet read from
    [master_fd]. *)
Record frame_exchanger := mkEx {
  ex_slots : list frame_slot;
  slave_cur : nat;
  master_read : nat;
  master_write : nat;
  pipe : nat }.

Definition new_exchanger (n : Z) : res frame_exchanger :=
  if decide (n ≤ 0) then Fault NullDeref
  else Ok (mkEx (replicate (Z.to_nat n) (mkSlot 0 None)) 0 0 0 0).

Definition ex_next (ex : frame_exchanger) (i : nat) : nat := ring_next (length (ex_slots ex)) i.

(** Master side, towards the slave. *)
Definition exchange_frame (ex : frame_exchanger) (f : nat) : res (frame_exchanger * Z) :=
  match ex_slots ex !! master_write ex with
  | None => Fault NullDeref
  | Some s =>
      match sf s with
      | Some _ => Ok (ex, -1)
      | None =>
          Ok (mkEx (<[master_write ex := mkSlot 1 (Some f)]> (ex_slots ex)) (slave_cur ex)
                (master_read ex) (ex_next ex (master_write ex)) (pipe ex), 0)
      end
  end.

(** Slave side. With [wait] the thread sleeps on [slave_wait] when the current
    slot has no pending frame; [woken] is the exchanger when it wakes up. *)
Definition get_next_frame (ex : frame_exchanger) (wait : bool) (woken : frame_exchanger)
  : res (frame_exchanger * option nat) :=
  let peek e := match ex_slots e !! slave_cur e with
                | None => Fault NullDeref
                | Some s => Ok (if decide (pending s = 0) then None else sf s)
                end in
  f ← peek ex;
  match f with
  | Some id => Ok (ex, Some id)
  | None => if wait then f' ← peek woken; Ok (woken, f') else Ok (ex, None)
  end.

(** What [deliver_frame] does with the frame: the caller of this model performs
    [unref_frame] on [Dropped]. [Exited] is [exit(0)] when the pipe cannot be
    written. *)
Inductive delivery :=
| Delivered (ex : frame_exchanger)
| Dropped
| Exited.

Definition deliver_frame (ex : frame_exchanger) (f : nat) (write_ok : bool) : delivery :=
  if decide (ex_next ex (slave_cur ex) = master_read ex) then Dropped
  else if write_ok then
    Delivered (mkEx (<[slave_cur ex := mkSlot 0 (Some f)]> (ex_slots ex))
      (ex_next ex (slave_cur ex)) (master_read ex) (master_write ex) (S (pipe ex)))
  else Exited.

(** [exchanger_read] first reads one byte of the pipe ([master_fd] is
    non-blocking: an empty pipe ends the call), then takes the frame under the
    mutex. The slave can run between the two. *)
Definition exchanger_read_byte (ex : frame_exchanger) : option frame_exchanger :=
  match pipe ex with
  | O => None
  | S p => Some (mkEx (ex_slots ex) (slave_cur ex) (master_read ex) (master_write ex) p)
  end.

Definition clear_slot (ex : frame_exchanger) : list frame_slot :=
  match ex_slots ex !! master_read ex with
  | Some s => <[master_read ex := mkSlot (pending s) None]> (ex_slots ex)
  | None => ex_slots ex
  end.

(** The returned frame is passed to the exchanger's callback; [None] is the
    "We lost a frame!" branch. *)
Definition exchanger_take (ex : frame_exchanger) : res (frame_exchanger * option nat) :=
  match ex_slots ex !! master_read ex with
  | None => Fault NullDeref
  | Some s =>
      match sf s with
      | None =>
          Ok (mkEx (clear_slot ex) (slave_cur ex) (slave_cur ex) (master_write ex) (pipe ex), None)
      | Some f =>
          Ok (mkEx (clear_slot ex) (slave_cur ex) (ex_next ex (master_read ex))
                (master_write ex) (pipe ex), Some f)
      end
  end.

Definition exchanger_read (ex : frame_exchanger) : res (frame_exchanger * option nat) :=
  match exchanger_read_byte ex with
  | None => Ok (ex, None)
  | Some ex1 => exchanger_take ex1
  end.

(** ** Invariant of the heap

    [heap_inv h q]: the mutex is free and the ring, read from
    [frame_heap_take], holds exactly the frames of [q] (the free frames, least
    recently freed first) and then empty slots up to the ring's size; every
    frame of the program is free or outstanding. *)

Definition ring_image (n : nat) (q : list nat) : list (option nat) :=
  (Some <$> q) ++ replicate (n - length q) None.

Record heap_inv (h : heap) (q : list nat) : Prop := {
  hi_unlocked : heap_locked h = false;
  hi_take : (frame_heap_take h < length (slots h))%nat;
  hi_put : frame_heap_put h = ((frame_heap_take h + length q) `mod` length (slots h))%nat;
  hi_len : (length q <= length (slots h))%nat;
  hi_ring : ring_holds (slots h) (frame_heap_take h) (ring_image (length (slots h)) q);
  hi_nodup : NoDup q;
  hi_dom : ∀ id, id ∈ q → is_Some (frames h !! id);
  hi_size : base.size (frames h) = length (slots h) }.

(** A frame is outstanding when it exists and is not free. *)
Definition outstanding (h : heap) (q : list nat) (id : nat) : Prop :=
  is_Some (frames h !! id) ∧ id ∉ q.

Lemma length_ring_image n q : (length q <= n)%nat → length (ring_image n q) = n.
Proof. unfold ring_image. len_simpl. lia. Qed.

Lemma ring_image_full n q : length q = n → ring_image n q = Some <$> q.
Proof. unfold ring_image. intros ->. by rewrite Nat.sub_diag, app_nil_r. Qed.

Lemma ring_image_cons n id q :
  (length (id :: q) <= n)%nat →
  ∃ rest, ring_image n (id :: q) = Some id :: rest ∧ ring_image n q = rest ++ [None].
Proof.
  unfold ring_image. simpl. intros. exists ((Some <$> q) ++ replicate (n - S (length q)) None).
  split; [done|]. rewrite <- app_assoc. f_equal.
  replace (n - length q)%nat with (S (n - S (length q))) by lia.
  by rewrite replicate_S_end.
Qed.

Lemma ring_image_snoc n q id :
  (length q < n)%nat → ring_image n (q ++ [id]) = <[length q := Some id]> (ring_image n q).
Proof.
  unfold ring_image. intros. rewrite fmap_app, length_app. simpl.
  replace (n - length q)%nat with (S (n - (length q + 1))) by lia. simpl.
  rewrite <- app_assoc. simpl.
  replace (length q) with (length (Some <$> q) + 0)%nat at 2 by (len_simpl; lia).
  by rewrite insert_app_r.
Qed.

(** Pigeonhole: while a frame is outstanding the free list does not fill the
    ring. *)
Lemma outstanding_room h q id :
  heap_inv h q → outstanding h q id → (length q < length (slots h))%nat.
Proof.
  intros [] [Hid Hq]. rewrite <- hi_size0.
  assert (list_to_set (id :: q) ⊆ dom (frames h)) as Hsub.
  { intros x. rewrite elem_of_list_to_set, elem_of_cons, elem_of_dom.
    intros [->|?]; [done|]. by apply hi_dom0. }
  apply subseteq_size in Hsub. rewrite size_dom, size_list_to_set in Hsub; [simpl in *; lia|].
  by constructor.
Qed.

(** The invariant does not depend on the frames' contents. *)
Lemma heap_inv_update h q id f :
  heap_inv h q → is_Some (frames h !! id) → heap_inv (set_frames h (<[id := f]> (frames h))) q.
Proof.
  intros [] Hid. split; simpl; try done.
  - intros j Hj. rewrite lookup_insert_is_Some. destruct (decide (id = j)); auto.
  - rewrite map_size_insert. destruct Hid as [? ->]. done.
Qed.

Lemma take_slot h id q :
  heap_inv h (id :: q) → slots h !! frame_heap_take h = Some (Some id).
Proof.
  intros []. destruct (ring_image_cons (length (slots h)) id q) as (rest & E & _); [done|].
  rewrite E in hi_ring0. by apply ring_holds_head in hi_ring0.
Qed.

Lemma take_slot_empty h : heap_inv h [] → slots h !! frame_heap_take h = Some None.
Proof.
  intros []. unfold ring_image in *. simpl in *. rewrite Nat.sub_0_r in *.
  destruct (length (slots h)) eqn:E; [lia|]. simpl in *.
  eapply ring_holds_head; [|done]. lia.
Qed.

Lemma put_slot_empty h q id :
  heap_inv h q → outstanding h q id → slots h !! frame_heap_put h = Some None.
Proof.
  intros Hinv Hid. pose proof (outstanding_room _ _ _ Hinv Hid).
  destruct Hinv. rewrite hi_put0. apply hi_ring0.
  unfold ring_image. rewrite lookup_app_r by (len_simpl; lia).
  apply lookup_replicate_2. len_simpl. lia.
Qed.

(** *** Functional behaviour *)

Lemma new_frame_empty h : heap_inv h [] → new_frame h = Ok (h, None).
Proof.
  intros Hinv. unfold new_frame. rewrite (hi_unlocked _ _ Hinv).
  by rewrite take_slot_empty.
Qed.

Lemma new_frame_take h id q :
  heap_inv h (id :: q) →
  ∃ h' f, new_frame h = Ok (h', Some id) ∧ heap_inv h' q ∧ frames h !! id = Some f ∧
    frames h' = <[id := reset_frame id f]> (frames h) ∧ outstanding h' q id.
Proof.
  intros Hinv. unfold new_frame. rewrite (hi_unlocked _ _ Hinv), (take_slot _ _ _ Hinv).
  destruct (hi_dom _ _ Hinv id) as [f Hf]; [left|]. rewrite Hf.
  eexists _, f. split; [done|]. simpl. destruct Hinv.
  apply NoDup_cons in hi_nodup0 as [Hnin Hnd].
  split; [|split; [done|split; [done|split; [|done]]]].
  - split; simpl; rewrite ?length_insert; try done.
    + by apply ring_next_lt.
    + rewrite hi_put0. simpl. by rewrite ring_next_add.
    + simpl in *. lia.
    + destruct (ring_image_cons _ _ _ hi_len0) as (rest & E & ->). rewrite E in hi_ring0.
      eapply ring_holds_rotate; [done|done|].
      rewrite <- E. by apply length_ring_image.
    + intros j Hj. rewrite lookup_insert_is_Some.
      destruct (decide (id = j)); [by left|right]. split; [done|]. apply hi_dom0. by right.
    + rewrite map_size_insert, Hf. done.
  - unfold outstanding. simpl. rewrite lookup_insert_eq. eauto.
Qed.

Lemma put_frame_spec h q id :
  heap_inv h q → outstanding h q id →
  ∃ h', put_frame h id = Ok h' ∧ heap_inv h' (q ++ [id]) ∧ frames h' = frames h.
Proof.
  intros Hinv Hid. pose proof (outstanding_room _ _ _ Hinv Hid) as Hroom.
  unfold put_frame. rewrite (hi_unlocked _ _ Hinv), (put_slot_empty _ _ _ Hinv Hid).
  eexists. split; [done|]. split; [|done]. destruct Hinv, Hid as [Hsome Hnin].
  split; simpl; rewrite ?length_insert, ?length_app; simpl; try done.
  - rewrite hi_put0. by rewrite ring_next_end, Nat.add_1_r.
  - lia.
  - rewrite hi_put0, ring_image_snoc by done. apply ring_holds_insert; [done|lia].
  - apply NoDup_app. split; [done|]. split; [|apply NoDup_singleton].
    intros x Hx ->%list_elem_of_singleton. done.
  - intros j [?| ->%list_elem_of_singleton]%elem_of_app; auto.
Qed.

(** *** Clone chains

    [chain fr id l]: following [destructor_data] from [id] visits exactly the
    frames of [l]. *)
Inductive chain (fr : gmap nat frame) : nat → list nat → Prop :=
| chain_end id f : fr !! id = Some f → destructor f = None → chain fr id [id]
| chain_clone id f o l :
    fr !! id = Some f → destructor f = Some o → chain fr o l → chain fr id (id :: l).

(** The frames of a chain that an [unref_frame] of its head releases: those
    before the first one that is still referenced. *)
Fixpoint released (fr : gmap nat frame) (l : list nat) : list nat :=
  match l with
  | [] => []
  | id :: l' =>
      match fr !! id with
      | Some f => if decide (ref_count f - 1 > 0) then [] else id :: released fr l'
      | None => []
      end
  end.

Lemma chain_det fr id l1 : chain fr id l1 → ∀ l2, chain fr id l2 → l1 = l2.
Proof.
  induction 1 as [id f Hf Hd|id f o l Hf Hd _ IH]; intros l2 H2; inversion H2; simplify_eq; auto.
  f_equal. by apply IH.
Qed.

Lemma chain_head fr id l : chain fr id l → ∃ l', l = id :: l'.
Proof. inversion 1; eauto. Qed.

Lemma chain_suffix fr id l x :
  chain fr id l → x ∈ l → ∃ k, chain fr x k ∧ (length k <= length l)%nat.
Proof.
  induction 1 as [id f Hf Hd|id f o l Hf Hd Hc IH].
  - intros ->%list_elem_of_singleton. exists [id]. split; [by econstructor|done].
  - intros [->|Hx]%elem_of_cons.
    + exists (id :: l). split; [by econstructor|done].
    + destruct (IH Hx) as (k & ? & ?). exists k. simpl. split; [done|lia].
Qed.

Lemma chain_NoDup fr id l : chain fr id l → NoDup l.
Proof.
  induction 1 as [id f Hf Hd|id f o l Hf Hd Hc IH]; [apply NoDup_singleton|].
  constructor; [|done]. intros Hin.
  destruct (chain_suffix _ _ _ _ Hc Hin) as (k & Hk & Hlen).
  assert (k = id :: l) as -> by (eapply chain_det; [done|by econstructor]).
  simpl in Hlen. lia.
Qed.

Lemma chain_elem_some fr id l x : chain fr id l → x ∈ l → is_Some (fr !! x).
Proof.
  induction 1 as [id f Hf Hd|id f o l Hf Hd Hc IH].
  - intros ->%list_elem_of_singleton. eauto.
  - intros [->|?]%elem_of_cons; eauto.
Qed.

(** Changing a reference count leaves the chains alone. *)
Lemma chain_set_ref fr id l x f r :
  chain fr id l → fr !! x = Some f → chain (<[x := set_ref_count r f]> fr) id l.
Proof.
  intros Hc Hx. induction Hc as [id f' Hf Hd|id f' o l Hf Hd Hc IH]; destruct (decide (x = id)) as [->|Hne].
  - simplify_eq. eapply chain_end; [apply lookup_insert_eq|done].
  - eapply chain_end; [|done]. by rewrite lookup_insert_ne.
  - simplify_eq. eapply chain_clone; [apply lookup_insert_eq|done|done].
  - eapply chain_clone; [|done|done]. by rewrite lookup_insert_ne.
Qed.

Lemma released_insert fr l x f : x ∉ l → released (<[x := f]> fr) l = released fr l.
Proof.
  induction l as [|id l IH]; [done|]. intros [? ?]%not_elem_of_cons. simpl.
  rewrite lookup_insert_ne by done. destruct (fr !! id); [|done]. case_decide; [done|].
  f_equal. by apply IH.
Qed.

(** The released frames begin the chain, each at its last reference, and the
    first frame after them has more. *)
Lemma released_split fr id l :
  chain fr id l →
  (∀ x, x ∈ released fr l → ∃ f, fr !! x = Some f ∧ ref_count f ≤ 1) ∧
  ∃ rest, l = released fr l ++ rest ∧
    ∀ s, head rest = Some s → ∃ f, fr !! s = Some f ∧ 1 < ref_count f.
Proof.
  induction 1 as [id f Hf Hd|id f o l Hf Hd Hc (IH & rest & Hl & Hs)]; simpl; rewrite Hf;
    case_decide as Hr.
  1,3: split; [set_solver|]; eexists; split; [reflexivity|]; simpl; intros s [= <-];
    exists f; split; [done|lia].
  - split; [intros x ->%list_elem_of_singleton; exists f; split; [done|lia]|]. by exists [].
  - split; [intros x [->|?]%elem_of_cons; [exists f; split; [done|lia]|auto]|].
    exists rest. split; [simpl; by f_equal|done].
Qed.

Lemma released_sub fr l : released fr l ⊆ l.
Proof.
  induction l as [|id l IH]; [done|]. simpl. destruct (fr !! id); [|set_solver].
  case_decide; set_solver.
Qed.

(** Dropping the reference to the head of a chain of outstanding frames: it
    terminates with fuel for the chain's length, releases exactly the frames
    whose last reference it was, innermost original first, takes one reference
    from the first frame that has more, and leaves every other frame's record
    alone. *)
Lemma unref_frame_chain fuel h q id l :
  heap_inv h q → chain (frames h) id l → (∀ x, x ∈ l → x ∉ q) → (length l <= fuel)%nat →
  ∃ h', unref_frame fuel h id = Ok h' ∧
    heap_inv h' (q ++ reverse (released (frames h) l)) ∧
    (∀ x, x ∉ l → frames h' !! x = frames h !! x) ∧
    (∀ s rest, l = released (frames h) l ++ s :: rest →
      (∃ f, frames h !! s = Some f ∧ frames h' !! s = Some (set_ref_count (ref_count f - 1) f)) ∧
      (∀ x, x ∈ rest → frames h' !! x = frames h !! x)).
Proof.
  revert h q id l. induction fuel as [|fuel IH]; intros h q id l Hinv Hc Hq Hlen.
  { apply chain_head in Hc as [? ->]. simpl in Hlen. lia. }
  pose proof (chain_NoDup _ _ _ Hc) as Hnd.
  inversion Hc as [? f Hf Hd|? f o l' Hf Hd Hc']; subst; simpl; rewrite Hf;
    apply NoDup_cons in Hnd as [Hnin Hnd];
    destruct (decide (ref_count f - 1 > 0)) as [Hr|Hr].
  1,3: eexists; split; [done|]; rewrite reverse_nil, app_nil_r; split;
    [by apply heap_inv_update; eauto|split; simpl];
    [intros x Hx; rewrite lookup_insert_ne; set_solver|];
    intros s rest [= <- <-]; split; [exists f; by rewrite lookup_insert_eq|];
    intros x Hx; rewrite lookup_insert_ne; set_solver.
  - rewrite Hd. set (h1 := set_frames h _).
    assert (heap_inv h1 q) as H1 by (apply heap_inv_update; eauto).
    destruct (put_frame_spec h1 q id H1) as (h' & -> & Hi & Hfr).
    { split; [simpl; rewrite lookup_insert_eq; eauto|apply Hq; set_solver]. }
    eexists. split; [done|]. rewrite reverse_singleton. split; [done|]. split; [|done].
    intros x Hx. rewrite Hfr. simpl. rewrite lookup_insert_ne; set_solver.
  - rewrite Hd. set (h1 := set_frames h _).
    assert (heap_inv h1 q) as H1 by (apply heap_inv_update; eauto).
    destruct (IH h1 q o l') as (h2 & E2 & Hi2 & Hfr2 & Hs2); [done| | |simpl in Hlen; lia|].
    { simpl. by apply chain_set_ref. }
    { intros x Hx. apply Hq. by right. }
    simpl. rewrite E2. simpl in *. rewrite (released_insert _ _ _ _ Hnin) in Hi2, Hs2.
    destruct (put_frame_spec h2 _ id Hi2) as (h' & -> & Hi' & Hfr').
    { split; [rewrite Hfr2 by done; simpl; rewrite lookup_insert_eq; eauto|].
      rewrite not_elem_of_app, elem_of_reverse. split; [apply Hq; by left|].
      intros Hx%released_sub. done. }
    eexists. split; [done|]. rewrite reverse_cons, (assoc_L (++)). split; [done|]. split.
    + intros x [? ?]%not_elem_of_cons. rewrite Hfr', Hfr2 by done. simpl.
      by rewrite lookup_insert_ne.
    + intros s rest [= Hl]. rewrite Hfr'. destruct (Hs2 _ _ Hl) as [Hs Hrest].
      assert (s ≠ id ∧ id ∉ rest) as [? ?] by (rewrite Hl in Hnin; set_solver).
      rewrite lookup_insert_ne in Hs by done. split; [done|]. intros x Hx.
      rewrite Hrest, lookup_insert_ne by set_solver. done.
Qed.

Lemma init_frame_heap_inv g sz count :
  0 < count →
  ∃ h, init_frame_heap g sz count = Ok h ∧ heap_inv h (seq 0 (Z.to_nat count)).
Proof.
  intros Hc. unfold init_frame_heap. rewrite decide_False by lia.
  eexists. split; [done|]. set (n := Z.to_nat count).
  assert (0 < n)%nat by lia.
  split; simpl; rewrite ?length_fmap, ?length_seq; try done.
  - by rewrite Nat.Div0.mod_same.
  - rewrite ring_image_full by apply length_seq.
    split; [by rewrite !length_fmap|]. rewrite length_fmap, length_seq.
    intros i x Hx. apply lookup_lt_Some in Hx as Hlt. rewrite length_fmap, length_seq in Hlt.
    by rewrite Nat.mod_small.
  - apply NoDup_seq.
  - intros id Hid. apply elem_of_dom. rewrite dom_list_to_map, elem_of_list_to_set.
    rewrite <- list_fmap_compose. apply list_elem_of_fmap. by exists id.
  - rewrite map_size_list_to_map; [by rewrite length_fmap, length_seq|].
    rewrite <- list_fmap_compose. rewrite (list_fmap_ext _ id) by done.
    rewrite list_fmap_id. apply NoDup_seq.
Qed.

(** ** The exchanger as a bounded queue

    The encoder thread runs [deliver_frame] and the event loop runs
    [exchanger_read]; each is atomic under the exchanger's mutex, except that
    the byte of the pipe is read before the mutex is taken. [xs_reading] says
    that the event loop is between the two. *)

Record ex_sys := mkSys { xs_ex : frame_exchanger; xs_reading : bool }.

Inductive ex_event :=
| EvDeliver (f : nat)
| EvDrop (f : nat)
| EvByte
| EvTake (o : option nat).

Inductive ex_step : ex_sys → ex_event → ex_sys → Prop :=
| step_deliver ex ex' r f :
    deliver_frame ex f true = Delivered ex' → ex_step (mkSys ex r) (EvDeliver f) (mkSys ex' r)
| step_drop ex r f :
    deliver_frame ex f true = Dropped → ex_step (mkSys ex r) (EvDrop f) (mkSys ex r)
| step_byte ex ex' :
    exchanger_read_byte ex = Some ex' → ex_step (mkSys ex false) EvByte (mkSys ex' true)
| step_take ex ex' o :
    exchanger_take ex = Ok (ex', o) → ex_step (mkSys ex true) (EvTake o) (mkSys ex' false).

Inductive ex_run : ex_sys → list ex_event → ex_sys → Prop :=
| run_nil s : ex_run s [] s
| run_snoc s s' s'' tr e : ex_run s tr s' → ex_step s' e s'' → ex_run s (tr ++ [e]) s''.

Definition ev_delivered (e : ex_event) : list nat :=
  match e with EvDeliver f => [f] | _ => [] end.
Definition ev_taken (e : ex_event) : list nat :=
  match e with EvTake (Some f) => [f] | _ => [] end.
Definition delivered (tr : list ex_event) : list nat := tr ≫= ev_delivered.
Definition taken (tr : list ex_event) : list nat := tr ≫= ev_taken.

(** [ex_inv s q]: [q] are the frames delivered and not yet taken. *)
Record ex_inv (s : ex_sys) (q : list nat) : Prop := {
  xi_read : (master_read (xs_ex s) < length (ex_slots (xs_ex s)))%nat;
  xi_cur : slave_cur (xs_ex s)
    = ((master_read (xs_ex s) + length q) `mod` length (ex_slots (xs_ex s)))%nat;
  xi_len : (length q < length (ex_slots (xs_ex s)))%nat;
  xi_ring : ring_holds (sf <$> ex_slots (xs_ex s)) (master_read (xs_ex s)) (Some <$> q);
  xi_pipe : (pipe (xs_ex s) + (if xs_reading s then 1 else 0) = length q)%nat }.

Lemma ex_inv_init n ex : new_exchanger n = Ok ex →
  ex_inv (mkSys ex false) [] ∧ length (ex_slots ex) = Z.to_nat n.
Proof.
  unfold new_exchanger. case_decide; [done|]. intros [= <-].
  split; [|simpl; by rewrite length_replicate]. split; simpl; rewrite ?length_replicate; try lia.
  - by rewrite Nat.Div0.mod_0_l.
  - apply ring_holds_nil.
Qed.

(** Delivering appends at the tail, and is refused exactly when all slots but
    one are in flight. *)
Lemma deliver_spec s q f :
  ex_inv s q →
  if decide (S (length q) = length (ex_slots (xs_ex s))) then
    deliver_frame (xs_ex s) f true = Dropped
  else ∃ ex', deliver_frame (xs_ex s) f true = Delivered ex' ∧
    ex_inv (mkSys ex' (xs_reading s)) (q ++ [f]) ∧
    length (ex_slots ex') = length (ex_slots (xs_ex s)).
Proof.
  intros []. destruct s as [ex r]. simpl in *. unfold deliver_frame, ex_next.
  set (n := length (ex_slots ex)) in *.
  assert (ring_next n (slave_cur ex) = ((master_read ex + S (length q)) `mod` n)%nat) as En
    by (rewrite xi_cur0; by apply ring_next_end).
  assert (ring_next n (slave_cur ex) = master_read ex ↔ S (length q) = n) as Hfull.
  { rewrite En. split.
    - intros E. destruct (decide (S (length q) = n)) as [|Hne]; [done|exfalso].
      assert (S (length q) = 0)%nat; [|lia].
      apply (ring_offset_inj n (master_read ex)); [lia|lia|].
      rewrite E, Nat.add_0_r, Nat.mod_small; lia.
    - intros ->. replace (master_read ex + n)%nat with (master_read ex + 1 * n)%nat by lia.
      rewrite Nat.Div0.mod_add, Nat.mod_small; lia. }
  destruct (decide (S (length q) = n)) as [Hn|Hn].
  { by rewrite decide_True by (by apply Hfull). }
  rewrite decide_False by (by rewrite Hfull).
  eexists. split; [done|]. split; [|simpl; by rewrite length_insert].
  split; simpl; rewrite ?length_insert, ?length_app; simpl; fold n.
  - done.
  - rewrite En. f_equal. lia.
  - lia.
  - rewrite list_fmap_insert, fmap_app. simpl. rewrite xi_cur0.
    pose proof (ring_holds_snoc (sf <$> ex_slots ex) (master_read ex) (Some <$> q) (Some f) xi_ring0) as H.
    rewrite !length_fmap in H. fold n in H. apply H. lia.
  - destruct r; lia.
Qed.

Lemma take_spec ex f q :
  ex_inv (mkSys ex true) (f :: q) →
  ∃ ex', exchanger_take ex = Ok (ex', Some f) ∧ ex_inv (mkSys ex' false) q ∧
    length (ex_slots ex') = length (ex_slots ex).
Proof.
  intros []. simpl in *. fold_fmap.
  assert (master_read ex < length (sf <$> ex_slots ex))%nat as Hrd by by rewrite length_fmap.
  pose proof (ring_holds_head _ _ _ _ Hrd xi_ring0) as Hs.
  rewrite list_lookup_fmap_Some in Hs. destruct Hs as (s & Hf & Hs).
  unfold exchanger_take, clear_slot. rewrite Hs, <- Hf.
  eexists. split; [done|]. split; [|simpl; by rewrite length_insert].
  split; simpl; rewrite ?length_insert.
  - by apply ring_next_lt.
  - rewrite xi_cur0. simpl. unfold ex_next. by rewrite ring_next_add.
  - lia.
  - rewrite list_fmap_insert. simpl. unfold ex_next.
    pose proof (ring_holds_tail _ _ _ _ Hrd xi_ring0) as [Hl Ht].
    rewrite !length_fmap in *. split; [by len_simpl|]. len_simpl.
    intros i x Hx. rewrite list_lookup_insert_ne; [by apply Ht|].
    apply lookup_lt_Some in Hx. rewrite length_fmap in Hx. rewrite ring_next_add by done.
    intros E. assert (0 = S i)%nat; [|lia].
    apply (ring_offset_inj (length (ex_slots ex)) (master_read ex)); [lia|lia|].
    rewrite <- E, Nat.add_0_r, Nat.mod_small; lia.
  - lia.
Qed.

Lemma ex_step_inv s e s' q :
  ex_inv s q → ex_step s e s' →
  ∃ q', ex_inv s' q' ∧ q ++ ev_delivered e = ev_taken e ++ q' ∧ e ≠ EvTake None ∧
    length (ex_slots (xs_ex s')) = length (ex_slots (xs_ex s)).
Proof.
  intros Hinv Hstep. destruct Hstep as [ex ex' r f E|ex r f E|ex ex' E|ex ex' o E]; simpl.
  - pose proof (deliver_spec _ _ f Hinv) as H. simpl in H. case_decide; [congruence|].
    destruct H as (ex2 & E2 & Hi & Hl). rewrite E in E2. injection E2 as <-. by exists (q ++ [f]).
  - exists q. by rewrite app_nil_r.
  - exists q. rewrite app_nil_r. unfold exchanger_read_byte in E.
    destruct (pipe ex) eqn:Hp; [done|]. simplify_eq. destruct Hinv. simpl in *.
    split; [|done]. split; simpl; try done. lia.
  - destruct q as [|f q]; [destruct Hinv; simpl in *; lia|].
    destruct (take_spec _ _ _ Hinv) as (ex2 & E2 & Hi & Hl). rewrite E in E2. injection E2 as <- ->.
    exists q. simpl. by rewrite app_nil_r.
Qed.

Lemma ex_run_inv s0 tr s :
  ex_inv s0 [] → ex_run s0 tr s →
  ∃ q, ex_inv s q ∧ delivered tr = taken tr ++ q ∧ (EvTake None ∉ tr) ∧
    length (ex_slots (xs_ex s)) = length (ex_slots (xs_ex s0)).
Proof.
  intros H0. induction 1 as [s|s s' s'' tr e Hr IH Hs].
  - exists []. split; [done|]. set_solver.
  - destruct (IH H0) as (q & Hi & Hd & Hn & Hl).
    destruct (ex_step_inv _ _ _ _ Hi Hs) as (q' & Hi' & Hq & He & Hl').
    exists q'. split; [done|]. unfold delivered, taken in *. rewrite !bind_app, Hd.
    split; [|split; [set_solver|congruence]].
    simpl. rewrite !app_nil_r, <- !(assoc_L (++)). by f_equal.
Qed.

(** ** Properties *)

(** C20. The frame heap is a first-in first-out queue of free frames: on a heap
    whose free frames are [q], [new_frame] fails with the null pointer exactly
    when [q] is empty, and otherwise hands out the head of [q], reset (one
    reference, no destructor, empty format, width, height, length and key 0,
    [d] at its own buffer; size, step and timestamp kept) and no longer free,
    changes no other frame, and leaves the tail of [q] as the free frames. *)
Theorem frame_heap_fifo h q :
  heap_inv h q →
  match q with
  | [] => new_frame h = Ok (h, None)
  | id :: q' =>
      ∃ h' f, new_frame h = Ok (h', Some id) ∧ heap_inv h' q' ∧ outstanding h' q' id ∧
        frames h !! id = Some f ∧
        frames h' =
          <[id := mkFrame 1 (size f) None FORMAT_EMPTY 0 0 0 0 (step f) id (timestamp f)]> (frames h)
  end.
Proof.
  intros Hinv. destruct q as [|id q]; [by apply new_frame_empty|].
  destruct (new_frame_take _ _ _ Hinv) as (h' & f & ?). exists h', f. naive_solver.
Qed.

(** C21. Dropping a reference: on a heap with free frames [q], [unref_frame] of
    the head of a chain of clones of outstanding frames terminates within the
    chain's length, never finds an occupied slot, and releases, originals
    before their clones and behind [q], exactly the frames that begin the chain
    and whose last reference this was. The first frame [s] of the chain that
    has more references loses one and keeps its other fields; the frames behind
    it and the frames outside the chain are unchanged. *)
Theorem unref_frame_releases h q id l :
  heap_inv h q → chain (frames h) id l → (∀ x, x ∈ l → x ∉ q) →
  ∃ h' gone rest, unref_frame (length l) h id = Ok h' ∧
    l = gone ++ rest ∧ heap_inv h' (q ++ reverse gone) ∧
    (∀ x, x ∈ gone → ∃ f, frames h !! x = Some f ∧ ref_count f ≤ 1) ∧
    match rest with
    | [] => True
    | s :: rest' =>
        (∃ f, frames h !! s = Some f ∧ 1 < ref_count f ∧
          frames h' !! s = Some (mkFrame (ref_count f - 1) (size f) (destructor f) (format f)
            (width f) (height f) (flength f) (key f) (step f) (d f) (timestamp f))) ∧
        (∀ x, x ∈ rest' → frames h' !! x = frames h !! x)
    end ∧
    (∀ x, x ∉ l → frames h' !! x = frames h !! x).
Proof.
  intros Hinv Hc Hq. destruct (released_split _ _ _ Hc) as (Hgone & rest & Hl & Hs).
  destruct (unref_frame_chain (length l) h q id l) as (h' & E & Hi & Hout & Hst); [done..|].
  exists h', (released (frames h) l), rest. do 4 (split; [done|]). split; [|done].
  destruct rest as [|s rest]; [done|]. destruct (Hst _ _ Hl) as ((f & Hf & Hf') & Hrest).
  destruct (Hs s eq_refl) as (f2 & Hf2 & Hr). simplify_eq. eauto.
Qed.

(** An unbalanced [unref_frame] blocks the whole server: when every frame
    is already free, dropping one more reference returns normally but leaves
    [frame_heap_mutex] held, and the next [new_frame] never returns. *)
Lemma unref_free_frame_deadlocks h q id f :
  heap_inv h q → length q = length (slots h) →
  frames h !! id = Some f → ref_count f ≤ 1 → destructor f = None →
  ∃ h', unref_frame 1 h id = Ok h' ∧ new_frame h' = Fault Deadlock.
Proof.
  intros Hinv Hfull Hf Hr Hd. simpl. rewrite Hf, decide_False by lia. rewrite Hd.
  unfold put_frame. simpl. rewrite (hi_unlocked _ _ Hinv).
  assert (∃ x, slots h !! frame_heap_put h = Some (Some x)) as [x ->].
  { destruct Hinv. rewrite hi_put0, Hfull.
    replace (frame_heap_take h + length (slots h))%nat
      with (frame_heap_take h + 1 * length (slots h))%nat by lia.
    rewrite Nat.Div0.mod_add, Nat.mod_small by done.
    destruct q as [|x q]; [simpl in *; lia|]. exists x.
    rewrite ring_image_full in hi_ring0 by done. by apply ring_holds_head in hi_ring0. }
  eexists. split; [done|]. done.
Qed.

(** C7. Under every interleaving of the encoder thread's [deliver_frame] with
    the event loop's [exchanger_read], an exchanger of [n] slots is a first-in
    first-out queue of at most [n - 1] frames: the frames taken so far followed
    by the frames in flight are the frames accepted, in order, and the "We lost
    a frame!" branch is never taken. *)
Theorem exchanger_fifo n ex tr s :
  new_exchanger n = Ok ex → ex_run (mkSys ex false) tr s →
  ∃ q, delivered tr = taken tr ++ q ∧ Z.of_nat (length q) < n ∧ (EvTake None ∉ tr) ∧
    (xs_reading s = true → ∃ ex' f, exchanger_take (xs_ex s) = Ok (ex', Some f)).
Proof.
  intros Hnew Hrun. destruct (ex_inv_init _ _ Hnew) as [H0 Hlen].
  destruct (ex_run_inv _ _ _ H0 Hrun) as (q & Hi & Hd & Hn & Hl). exists q.
  split; [done|]. split; [|split; [done|]].
  - destruct Hi. simpl in *. unfold new_exchanger in Hnew. case_decide; [done|]. lia.
  - intros Hr. destruct s as [ex' r]. simpl in *. subst r.
    destruct q as [|f q]; [destruct Hi; simpl in *; lia|].
    destruct (take_spec _ _ _ Hi) as (ex2 & ? & _). eauto.
Qed.

(** *** Concrete instances *)

Definition blank_frame (i : nat) : frame := mkFrame 0 0 None 0 0 0 0 0 0 0 0.
Definition demo_heap : heap :=
  match init_frame_heap blank_frame 100 2 with Ok h => h | Fault _ => mkHeap ∅ [] 0 0 false 0 0 end.

Lemma demo_heap_inv : heap_inv demo_heap [0; 1]%nat.
Proof. destruct (init_frame_heap_inv blank_frame 100 2) as (h & E & H); [lia|].
  unfold demo_heap. rewrite E. exact H.
Qed.

(** The heap after one [new_frame] and one [clone_frame] of it. *)
Definition cloned_heap : heap :=
  match new_frame demo_heap with
  | Ok (h, Some o) => match clone_frame h o with Ok (h', _) => h' | Fault _ => h end
  | _ => demo_heap
  end.

Lemma cloned_heap_inv : heap_inv cloned_heap [].
Proof.
  assert (cloned_heap = mkHeap (<[0%nat := mkFrame 2 100 None 0 0 0 0 0 0 0 0]>
    (<[1%nat := mkFrame 1 100 (Some 0%nat) 0 0 0 0 0 0 0 0]> ∅)) [None; None] 0 0 false 100 2) as ->
    by reflexivity.
  split; simpl; try done; try lia.
  - split; [done|]. intros [|[|i]] x Hx; simpl in *; simplify_eq; done.
  - constructor.
  - set_solver.
Qed.

Lemma frame_heap_fifo_witness :
  ∃ h' f, new_frame demo_heap = Ok (h', Some 0%nat) ∧ heap_inv h' [1%nat] ∧
    outstanding h' [1%nat] 0%nat ∧ frames demo_heap !! 0%nat = Some f ∧
    frames h' = <[0%nat := mkFrame 1 (size f) None FORMAT_EMPTY 0 0 0 0 (step f) 0
                             (timestamp f)]> (frames demo_heap).
Proof. exact (frame_heap_fifo demo_heap [0; 1]%nat demo_heap_inv). Defined.

Lemma unref_frame_releases_witness :
  ∃ h' gone rest, unref_frame 2 cloned_heap 1 = Ok h' ∧
    [1; 0]%nat = gone ++ rest ∧ heap_inv h' ([] ++ reverse gone) ∧
    (∀ x, x ∈ gone → ∃ f, frames cloned_heap !! x = Some f ∧ ref_count f ≤ 1) ∧
    match rest with
    | [] => True
    | s :: rest' =>
        (∃ f, frames cloned_heap !! s = Some f ∧ 1 < ref_count f ∧
          frames h' !! s = Some (mkFrame (ref_count f - 1) (size f) (destructor f) (format f)
            (width f) (height f) (flength f) (key f) (step f) (d f) (timestamp f))) ∧
        (∀ x, x ∈ rest' → frames h' !! x = frames cloned_heap !! x)
    end ∧
    (∀ x, x ∉ [1; 0]%nat → frames h' !! x = frames cloned_heap !! x).
Proof.
  apply (unref_frame_releases cloned_heap [] 1 [1; 0]%nat cloned_heap_inv).
  - eapply chain_clone; [reflexivity|reflexivity|]. eapply chain_end; reflexivity.
  - set_solver.
Defined.

Lemma unref_free_frame_deadlocks_witness :
  ∃ h', unref_frame 1 demo_heap 0 = Ok h' ∧ new_frame h' = Fault Deadlock.
Proof.
  eapply (unref_free_frame_deadlocks demo_heap [0; 1]%nat 0 (mkFrame 0 100 None 0 0 0 0 0 0 0 0)
    demo_heap_inv); [reflexivity|reflexivity|simpl; lia|reflexivity].
Defined.

Definition demo_ex : frame_exchanger :=
  match new_exchanger 4 with Ok ex => ex | Fault _ => mkEx [] 0 0 0 0 end.

Lemma exchanger_fifo_witness :
  ∃ s q, delivered [EvDeliver 7; EvDeliver 8; EvByte]%nat = taken [EvDeliver 7; EvDeliver 8; EvByte]%nat ++ q ∧
    Z.of_nat (length q) < 4 ∧ (EvTake None ∉ [EvDeliver 7; EvDeliver 8; EvByte]%nat) ∧
    (xs_reading s = true → ∃ ex' f, exchanger_take (xs_ex s) = Ok (ex', Some f)).
Proof.
  eexists. apply (exchanger_fifo 4 demo_ex); [reflexivity|].
  change [EvDeliver 7; EvDeliver 8; EvByte] with ((([] ++ [EvDeliver 7]) ++ [EvDeliver 8]) ++ [EvByte]).
  eapply run_snoc; [eapply run_snoc; [eapply run_snoc; [apply run_nil|]|]|].
  - apply step_deliver. reflexivity.
  - apply step_deliver. reflexivity.
  - apply step_byte. reflexivity.
Defined.
