(* ===== verification/Rtp.v ===== *)
(** * Rtp: endpoints, RTP packets and RTCP sender reports

    Models rtp.c and rtp.h of src/sources/applications/RTSPServer/src: the
    state of an endpoint, [send_rtp_packet], [rtcp_send], the search for a pair
    of UDP ports in [connect_udp_endpoint], and the RTP port range directive.

    The transport under an endpoint (a pair of UDP sockets, or two interleaved
    channels of a TCP connection) is the class [Transport]; the theorems hold
    for every transport. A clock reading is an argument. A call that tears the
    session down frees the endpoint: its result is [None], which stands for the
    return value -1. *)

From stdpp Require Import prelude gmap strings.
From S2P Require Import Prelude.

Definition RTP_TRANS_UDP : Z := 1.
Definition RTP_TRANS_INTER : Z := 2.

(** What an endpoint needs of its transport: its kind, and the two sends, which
    say whether the call succeeded (a non-negative return value). *)
Class Transport (T : Type) := {
  trans_type : T → Z;
  rtp_out : T → list (list Z) → T * bool;
  rtcp_out : T → list Z → T * bool }.

(** ** Data *)

Record rtp_endpoint (T : Type) := mkEp {
  payload : Z;
  max_data_size : Z;
  ssrc : Z;
  start_timestamp : Z;
  last_timestamp : Z;
  seqnum : Z;
  packet_count : Z;
  octet_count : Z;
  rtcp_enabled : bool;
  force_rtcp : bool;
  last_rtcp_recv : timeval;
  last_rtcp_send : timeval;
  trans : T }.
Arguments mkEp {T}.
Arguments payload {T}. Arguments max_data_size {T}. Arguments ssrc {T}.
Arguments start_timestamp {T}. Arguments last_timestamp {T}. Arguments seqnum {T}.
Arguments packet_count {T}. Arguments octet_count {T}. Arguments rtcp_enabled {T}.
Arguments force_rtcp {T}. Arguments last_rtcp_recv {T}. Arguments last_rtcp_send {T}.
Arguments trans {T}.

Section Endpoint.
Context {T : Type} `{Transport T}.
Implicit Types (ep : rtp_endpoint T) (now : timeval).

(** [r_ssrc], [r_ts] and [r_seq] are the random bytes; the RTCP timer is created
    disabled. *)
Definition new_rtp_endpoint (pl r_ssrc r_ts r_seq : Z) now (t : T) : rtp_endpoint T :=
  mkEp pl 8192 (u32 r_ssrc) (u32 r_ts) (u32 r_ts) (u16 r_seq) 0 0 false true now now t.

Definition update_rtp_timestamp ep (time_increment : Z) : rtp_endpoint T :=
  mkEp (payload ep) (max_data_size ep) (ssrc ep) (start_timestamp ep)
    (Z.land (u32 (last_timestamp ep + time_increment)) 4294967295) (seqnum ep)
    (packet_count ep) (octet_count ep) (rtcp_enabled ep) (force_rtcp ep)
    (last_rtcp_recv ep) (last_rtcp_send ep) (trans ep).

(** [interleave_recv_rtcp] and the successful branch of [udp_rtcp_read] record
    when the client was last heard. *)
Definition note_rtcp_recv ep now : rtp_endpoint T :=
  mkEp (payload ep) (max_data_size ep) (ssrc ep) (start_timestamp ep) (last_timestamp ep)
    (seqnum ep) (packet_count ep) (octet_count ep) (rtcp_enabled ep) (force_rtcp ep)
    now (last_rtcp_send ep) (trans ep).

(** *** RTCP sender reports *)

Definition ntp_sec now : Z := u32 (tv_sec now + 2208988800).
(** The double product and quotient are exact up to the fraction that the
    conversion to an integer drops: the product has 46 significant bits, and the
    quotient by 5^6 is at least 1/15625 away from any integer it is not. *)
Definition ntp_usec now : Z := u32 ((tv_usec now * 67108864) `div` 15625).

Definition cname_text : list Z := bytes_of_string "Unnamed stream".

Definition sender_report ep now : list Z :=
  [128; 200] ++ PUT_16 6 ++ PUT_32 (ssrc ep) ++ PUT_32 (ntp_sec now) ++ PUT_32 (ntp_usec now)
  ++ PUT_32 (last_timestamp ep) ++ PUT_32 (packet_count ep) ++ PUT_32 (octet_count ep)
  ++ [129; 202] ++ PUT_16 5 ++ PUT_32 (ssrc ep) ++ [1; 14] ++ cname_text.

Definition with_rtcp_sent ep now (t : T) : rtp_endpoint T :=
  mkEp (payload ep) (max_data_size ep) (ssrc ep) (start_timestamp ep) (last_timestamp ep)
    (seqnum ep) (packet_count ep) (octet_count ep) (rtcp_enabled ep) false
    (last_rtcp_recv ep) now t.

Definition rtcp_send ep now : option (rtp_endpoint T) :=
  if decide (trans_type (trans ep) ≠ RTP_TRANS_INTER ∧
             tv_sec now - tv_sec (last_rtcp_recv ep) > 20) then None
  else if decide (trans_type (trans ep) = RTP_TRANS_UDP ∨ trans_type (trans ep) = RTP_TRANS_INTER) then
    let '(t, ok) := rtcp_out (trans ep) (sender_report ep now) in
    if ok then Some (with_rtcp_sent ep now t) else None
  else None.

(** *** RTP packets *)

Definition rtphdr ep (marker : bool) : list Z :=
  [128; if marker then Z.lor (u8 (payload ep)) 128 else u8 (payload ep)]
  ++ PUT_16 (seqnum ep) ++ PUT_32 (last_timestamp ep) ++ PUT_32 (ssrc ep).

Definition with_timestamp ep (ts : Z) : rtp_endpoint T :=
  mkEp (payload ep) (max_data_size ep) (ssrc ep) (start_timestamp ep)
    (Z.land (u32 (start_timestamp ep + ts)) 4294967295) (seqnum ep) (packet_count ep)
    (octet_count ep) (rtcp_enabled ep) (force_rtcp ep) (last_rtcp_recv ep)
    (last_rtcp_send ep) (trans ep).

Definition count_packet ep (v : list (list Z)) (t : T) : rtp_endpoint T :=
  mkEp (payload ep) (max_data_size ep) (ssrc ep) (start_timestamp ep) (last_timestamp ep)
    (Z.land (seqnum ep + 1) 65535) (s32 (packet_count ep + 1))
    (s32 (octet_count ep + foldr (λ b a, zlen b + a) 0 v)) (rtcp_enabled ep) (force_rtcp ep)
    (last_rtcp_recv ep) (last_rtcp_send ep) t.

Definition enable_rtcp ep : rtp_endpoint T :=
  mkEp (payload ep) (max_data_size ep) (ssrc ep) (start_timestamp ep) (last_timestamp ep)
    (seqnum ep) (packet_count ep) (octet_count ep) true (force_rtcp ep)
    (last_rtcp_recv ep) (last_rtcp_send ep) (trans ep).

(** [v] are the vectors after the first, which the function fills with the
    header. An endpoint without a transport skips the send. The rate-control
    command of the ten-second branch has an empty body in this build. *)
Definition send_rtp_packet ep now (v : list (list Z)) (ts : Z) (marker : bool)
  : option (rtp_endpoint T) :=
  let ep1 := with_timestamp ep ts in
  let iov := rtphdr ep1 marker :: v in
  let '(t, ok) :=
    if decide (trans_type (trans ep) = RTP_TRANS_UDP ∨ trans_type (trans ep) = RTP_TRANS_INTER)
    then rtp_out (trans ep1) iov else (trans ep1, true) in
  if negb ok then None else
  let ep2 := count_packet ep1 iov t in
  if force_rtcp ep2 then
    match rtcp_send ep2 now with None => None | Some ep3 => Some (enable_rtcp ep3) end
  else if decide (tv_sec now - tv_sec (last_rtcp_send ep2) > 10) then rtcp_send ep2 now
  else Some ep2.

End Endpoint.

(** ** UDP ports *)

(** [rtp_port_start] and [rtp_port_end]. *)
Record port_range := mkRange { rtp_port_start : Z; rtp_port_end : Z }.

Definition default_range : port_range := mkRange 50000 60000.

(** [None] is [exit(1)]: fewer than eight ports. *)
Definition config_rtprange (a b : Z) : option port_range :=
  let s := if decide (Z.land a 1 = 0) then a else a + 1 in
  let e := if decide (Z.land b 1 = 0) then b - 1 else b in
  if decide (e - s + 1 < 8) then None else Some (mkRange s e).

Inductive bind_result := BindOk | BindInUse | BindError.

(** The answers of the kernel: whether the two [socket] calls (with so many
    tries left) and the calls after the port search succeed, and what [bind]
    says for each port. *)
Record net_env := mkEnv {
  rtp_socket_ok : nat → bool;
  rtcp_socket_ok : nat → bool;
  bind_port : Z → bind_result;
  connect_ok : bool;
  getsockname_ok : bool }.

(** [ports_open] counts the sockets the call leaves open. *)
Inductive udp_result :=
| UdpPort (port : Z)
| UdpFailed (ports_open : nat).

(** The retry loop. [have_rtp] and [have_rtcp] say whether the two sockets
    exist ([rtpfd >= 0], [rtcpfd >= 0]). *)
Fixpoint port_loop (env : net_env) (r : port_range) (tries : nat) (port : Z)
    (have_rtp have_rtcp : bool) : udp_result :=
  match tries with
  | O => UdpFailed ((if have_rtp then 1 else 0) + (if have_rtcp then 1 else 0))
  | S tries =>
      let port := if decide (port + 1 > rtp_port_end r) then rtp_port_start r else port in
      if negb have_rtp && negb (rtp_socket_ok env tries) then
        UdpFailed (if have_rtcp then 1 else 0)
      else if negb have_rtcp && negb (rtcp_socket_ok env tries) then UdpFailed 0
      else match bind_port env port with
      | BindInUse => port_loop env r tries (port + 2) true true
      | BindError => UdpFailed 0
      | BindOk =>
          match bind_port env (port + 1) with
          | BindInUse => port_loop env r tries (port + 2) false true
          | BindError => UdpFailed 0
          | BindOk => UdpPort port
          end
      end
  end.

Definition max_tries (r : port_range) : Z := (rtp_port_end r - rtp_port_start r + 1) `quot` 2.

(** [rnd] is the value of [random()]. *)
Definition first_port (r : port_range) (rnd : Z) : Z :=
  let port := rtp_port_start r + rnd `rem` (rtp_port_end r - rtp_port_start r) in
  if decide (Z.land port 1 = 0) then port else port + 1.

Definition connect_udp_endpoint (env : net_env) (r : port_range) (rnd : Z) : udp_result :=
  match port_loop env r (Z.to_nat (max_tries r)) (first_port r rnd) false false with
  | UdpPort port =>
      if connect_ok env && getsockname_ok env then UdpPort port else UdpFailed 0
  | failed => failed
  end.

(** ** Lemmas: port search *)

Record range_ok (r : port_range) : Prop := {
  ro_even : rtp_port_start r `mod` 2 = 0;
  ro_order : rtp_port_start r < rtp_port_end r }.

Definition pair_free (env : net_env) (p : Z) : Prop :=
  bind_port env p = BindOk ∧ bind_port env (p + 1) = BindOk.

Definition norm_port (r : port_range) (port : Z) : Z :=
  if decide (port + 1 > rtp_port_end r) then rtp_port_start r else port.

Lemma max_tries_bounds r :
  range_ok r → 1 ≤ max_tries r ∧
  2 * max_tries r ≤ rtp_port_end r - rtp_port_start r + 1 ≤ 2 * max_tries r + 1.
Proof.
  intros []. unfold max_tries. rewrite Z.quot_div_nonneg by lia. zdm.
Qed.

(** The pair of the range, counted from 0, at which the search starts: the
    first even port from the random one on, or the first pair of the range
    behind its end. *)
Definition first_pair (r : port_range) (rnd : Z) : Z :=
  ((rnd `mod` (rtp_port_end r - rtp_port_start r) + 1) `div` 2)
    `mod` ((rtp_port_end r - rtp_port_start r + 1) `div` 2).

Lemma max_tries_div r : range_ok r → max_tries r = (rtp_port_end r - rtp_port_start r + 1) `div` 2.
Proof. intros []. unfold max_tries. rewrite Z.quot_div_nonneg by lia. done. Qed.

Lemma first_port_norm r rnd :
  range_ok r → 0 ≤ rnd →
  0 ≤ first_pair r rnd < max_tries r ∧
  norm_port r (first_port r rnd) = rtp_port_start r + 2 * first_pair r rnd.
Proof.
  intros Hr Hrnd. pose proof (max_tries_bounds r Hr) as Hm. pose proof (max_tries_div r Hr) as Hd.
  destruct Hr. unfold first_pair. rewrite <- Hd. split; [apply Z.mod_pos_bound; lia|].
  unfold first_port. rewrite land_1. rewrite Z.rem_mod_nonneg by lia.
  pose proof (Z.mod_pos_bound rnd (rtp_port_end r - rtp_port_start r) ltac:(lia)).
  set (k := rnd `mod` _) in *. clearbody k. unfold norm_port.
  destruct (decide ((k + 1) `div` 2 = max_tries r)) as [E|E].
  - rewrite E, Z.mod_same by lia. rewrite decide_True; [lia|]. case_decide; zdm.
  - rewrite (Z.mod_small ((k + 1) `div` 2)) by zdm. rewrite decide_False; case_decide; zdm.
Qed.

(** The port after [start + 2 j] is the next pair of the range, cyclically. *)
Lemma norm_port_next r j :
  range_ok r → 0 ≤ j < max_tries r →
  norm_port r (rtp_port_start r + 2 * j + 2)
  = rtp_port_start r + 2 * ((j + 1) `mod` max_tries r).
Proof.
  intros Hr Hj. pose proof (max_tries_bounds r Hr) as Hm. unfold norm_port.
  destruct (decide (j + 1 = max_tries r)) as [E|E].
  - rewrite decide_True by lia. rewrite E, Z.mod_same by lia. lia.
  - rewrite decide_False by lia. rewrite Z.mod_small by lia. lia.
Qed.

Lemma port_loop_sound env r tries port a b p j :
  range_ok r → 0 ≤ j < max_tries r → norm_port r port = rtp_port_start r + 2 * j →
  port_loop env r tries port a b = UdpPort p →
  ∃ k, 0 ≤ k < max_tries r ∧ p = rtp_port_start r + 2 * k ∧ pair_free env p.
Proof.
  intros Hr. revert port a b j. induction tries as [|tries IH]; intros port a b j Hj Hp; [done|].
  simpl. fold (norm_port r port). rewrite Hp.
  assert (0 ≤ (j + 1) `mod` max_tries r < max_tries r) by (apply Z.mod_pos_bound; lia).
  repeat case_match; try done; intros E.
  all: try by apply (IH _ _ _ _ H (norm_port_next r j Hr Hj) E).
  injection E as <-. by exists j.
Qed.

(** The order of the search meets every pair of the range exactly once. *)
Lemma pair_visited_once r j q :
  range_ok r → 0 ≤ j < max_tries r →
  q `mod` 2 = 0 → rtp_port_start r ≤ q → q + 1 ≤ rtp_port_end r →
  exists! t, 0 ≤ t < max_tries r ∧ rtp_port_start r + 2 * ((j + t) `mod` max_tries r) = q.
Proof.
  intros Hr Hj He Hlo Hhi. pose proof (max_tries_bounds r Hr) as Hm. pose proof (ro_even r Hr) as Hs.
  set (k := (q - rtp_port_start r) `div` 2).
  assert (q = rtp_port_start r + 2 * k ∧ 0 ≤ k < max_tries r) as [Eq Hk] by (unfold k; zdm).
  exists ((k - j) `mod` max_tries r). split.
  - split; [apply Z.mod_pos_bound; lia|]. rewrite Zplus_mod_idemp_r.
    replace (j + (k - j)) with k by lia. rewrite Z.mod_small by lia. done.
  - intros t [Ht E]. assert ((j + t) `mod` max_tries r = k) as <- by lia.
    rewrite Zminus_mod_idemp_l. replace (j + t - j) with t by lia. by rewrite Z.mod_small.
Qed.

(** When only busy ports make the loop go on, it returns the first free pair
    from the current one on, and fails when none of the pairs it may try is
    free. *)
Lemma port_loop_first env r tries port a b j :
  range_ok r → 0 ≤ j < max_tries r → norm_port r port = rtp_port_start r + 2 * j →
  (∀ n, rtp_socket_ok env n = true) → (∀ n, rtcp_socket_ok env n = true) →
  (∀ p, bind_port env p ≠ BindError) →
  let pair t := rtp_port_start r + 2 * ((j + t) `mod` max_tries r) in
  match port_loop env r tries port a b with
  | UdpPort q => ∃ t, 0 ≤ t < Z.of_nat tries ∧ q = pair t ∧ pair_free env q ∧
      ∀ u, 0 ≤ u < t → ¬ pair_free env (pair u)
  | UdpFailed _ => ∀ t, 0 ≤ t < Z.of_nat tries → ¬ pair_free env (pair t)
  end.
Proof.
  intros Hr Hj Hp H1 H2 Herr. revert port a b j Hj Hp.
  induction tries as [|tries IH]; intros port a b j Hj Hp pair; [simpl; lia|].
  cbn [port_loop]. fold (norm_port r port). rewrite Hp, H1, H2, !andb_false_r.
  assert (0 ≤ (j + 1) `mod` max_tries r < max_tries r) as Hnext by (apply Z.mod_pos_bound; lia).
  pose proof (norm_port_next r j Hr Hj) as Hn.
  assert (pair 0 = rtp_port_start r + 2 * j) as E0
    by (unfold pair; rewrite Z.add_0_r, Z.mod_small; lia).
  assert (Hgo : ¬ pair_free env (pair 0) → ∀ a' b',
    match port_loop env r tries (rtp_port_start r + 2 * j + 2) a' b' with
    | UdpPort q => ∃ t, 0 ≤ t < Z.of_nat (S tries) ∧ q = pair t ∧ pair_free env q ∧
        ∀ u, 0 ≤ u < t → ¬ pair_free env (pair u)
    | UdpFailed _ => ∀ t, 0 ≤ t < Z.of_nat (S tries) → ¬ pair_free env (pair t)
    end).
  { intros Hbusy a' b'. specialize (IH _ a' b' _ Hnext Hn). cbv zeta in IH.
    assert (Hsh : ∀ t, rtp_port_start r + 2 * (((j + 1) `mod` max_tries r + t) `mod` max_tries r)
      = pair (t + 1)) by (intros t; rewrite Zplus_mod_idemp_l; unfold pair; do 3 f_equal; lia).
    destruct (port_loop env r tries _ a' b') as [q|k].
    - destruct IH as (t & Ht & -> & Hf & Hu). rewrite Hsh in Hf |- *. exists (t + 1).
      split; [lia|]. split; [done|]. split; [done|]. intros u Hub. destruct (decide (u = 0)) as [->|]; [done|].
      specialize (Hu (u - 1) ltac:(lia)). cbv beta in Hu. rewrite Hsh in Hu. by replace (u - 1 + 1) with u in Hu by lia.
    - intros t Ht. destruct (decide (t = 0)) as [->|]; [done|].
      specialize (IH (t - 1) ltac:(lia)). cbv beta in IH. rewrite Hsh in IH. by replace (t - 1 + 1) with t in IH by lia. }
  unfold pair_free in Hgo at 1. rewrite E0 in Hgo.
  destruct (bind_port env (rtp_port_start r + 2 * j)) eqn:E1; [|by apply Hgo; intros [? ?]|by apply Herr in E1].
  destruct (bind_port env (_ + 1)) eqn:E2; [|by apply Hgo; intros [? ?]|by apply Herr in E2].
  exists 0. rewrite E0. repeat split; try done; lia.
Qed.

Lemma port_loop_exhausted env r tries port :
  (∀ n, rtp_socket_ok env n = true) → (∀ n, rtcp_socket_ok env n = true) →
  (∀ p, bind_port env p = BindInUse) →
  port_loop env r tries port true true = UdpFailed 2.
Proof.
  intros H1 H2 Hb. revert port. induction tries as [|tries IH]; intros port; [done|].
  simpl. rewrite Hb. apply IH.
Qed.

(** ** A reference receiver

    The fixed RTP header of RFC 3550, for a stream without contributing
    sources, as a client reads it. *)
Record rtp_fields := mkFields {
  rf_version : Z; rf_marker : bool; rf_payload_type : Z; rf_seq : Z; rf_timestamp : Z; rf_ssrc : Z }.

Definition parse_rtp (l : list Z) : option (rtp_fields * list Z) :=
  match l with
  | b0 :: b1 :: s0 :: s1 :: t0 :: t1 :: t2 :: t3 :: c0 :: c1 :: c2 :: c3 :: rest =>
      Some (mkFields (b0 `div` 64) (128 <=? b1) (b1 `mod` 128) (GET_16 s0 s1)
              (GET_32 t0 t1 t2 t3) (GET_32 c0 c1 c2 c3), rest)
  | _ => None
  end.

(** A pair of UDP sockets that keeps what was sent; [udp_answers] says which of
    the next sends fail. *)
Record udp := mkUdp { udp_rtp : list (list Z); udp_rtcp : list (list Z); udp_answers : list bool }.

Definition udp_answer (t : udp) : bool := default true (head (udp_answers t)).

#[global] Instance udp_transport : Transport udp := {|
  trans_type _ := RTP_TRANS_UDP;
  rtp_out t v :=
    if udp_answer t then (mkUdp (udp_rtp t ++ [concat v]) (udp_rtcp t) (tail (udp_answers t)), true)
    else (mkUdp (udp_rtp t) (udp_rtcp t) (tail (udp_answers t)), false);
  rtcp_out t b :=
    if udp_answer t then (mkUdp (udp_rtp t) (udp_rtcp t ++ [b]) (tail (udp_answers t)), true)
    else (mkUdp (udp_rtp t) (udp_rtcp t) (tail (udp_answers t)), false) |}.

(** A sequence of packets as a packetizer sends it: clock, vectors, timestamp,
    marker. *)
Record rtp_request := mkReq { rq_now : timeval; rq_v : list (list Z); rq_ts : Z; rq_marker : bool }.

Fixpoint send_all {T} `{Transport T} (ep : rtp_endpoint T) (l : list rtp_request)
  : option (rtp_endpoint T) :=
  match l with
  | [] => Some ep
  | r :: l =>
      match send_rtp_packet ep (rq_now r) (rq_v r) (rq_ts r) (rq_marker r) with
      | None => None
      | Some ep' => send_all ep' l
      end
  end.

(** ** Lemmas: packets *)

(** The ranges an endpoint's fields keep. *)
Record ep_wf {T} (ep : rtp_endpoint T) : Prop := {
  ew_payload : 0 ≤ payload ep < 128;
  ew_seq : 0 ≤ seqnum ep < 65536;
  ew_ssrc : 0 ≤ ssrc ep < 4294967296;
  ew_start : 0 ≤ start_timestamp ep < 4294967296 }.

Lemma lor_128 x : 0 ≤ x < 128 → Z.lor x 128 = x + 128.
Proof.
  intros. rewrite Z.lor_comm. change 128 with (Z.shiftl 1 7) at 1.
  rewrite lor_shiftl_add by (change (2^7) with 128; lia). lia.
Qed.

Lemma parse_rtp_hdr {T} (ep : rtp_endpoint T) m rest :
  ep_wf ep → 0 ≤ last_timestamp ep < 4294967296 →
  parse_rtp (rtphdr ep m ++ rest)
  = Some (mkFields 2 m (payload ep) (seqnum ep) (last_timestamp ep) (ssrc ep), rest).
Proof.
  intros [] Ht. unfold rtphdr.
  pose proof (GET_PUT_16 (seqnum ep)) as H16. pose proof (GET_PUT_32 (last_timestamp ep)) as Ht32.
  pose proof (GET_PUT_32 (ssrc ep)) as Hs32. unfold u16 in H16. rewrite Z.mod_small in H16 by lia.
  rewrite u32_small in Ht32, Hs32 by lia.
  unfold PUT_16, PUT_32 in *. simpl. rewrite H16, Ht32, Hs32.
  unfold u8. rewrite Z.mod_small by lia.
  do 3 f_equal; destruct m; rewrite ?lor_128 by lia.
  - apply Z.leb_le. lia.
  - apply Z.leb_gt. lia.
  - zdm.
  - apply Z.mod_small. lia.
Qed.

Lemma rtcp_send_fields {T} `{Transport T} (ep ep' : rtp_endpoint T) now :
  rtcp_send ep now = Some ep' → ∃ t, rtcp_out (trans ep) (sender_report ep now) = (t, true) ∧
    ep' = with_rtcp_sent ep now t.
Proof.
  unfold rtcp_send. repeat case_decide; try done.
  destruct (rtcp_out _ _) as [t [|]] eqn:E; [|done]. intros [= <-]. eauto.
Qed.

(** The fields a successful send leaves alone and the ones it advances. *)
Lemma send_rtp_packet_fields {T} `{Transport T} (ep ep' : rtp_endpoint T) now v ts m :
  send_rtp_packet ep now v ts m = Some ep' →
  payload ep' = payload ep ∧ max_data_size ep' = max_data_size ep ∧ ssrc ep' = ssrc ep ∧
  start_timestamp ep' = start_timestamp ep ∧ seqnum ep' = (seqnum ep + 1) `mod` 65536 ∧
  packet_count ep' = s32 (packet_count ep + 1) ∧
  last_timestamp ep' = u32 (start_timestamp ep + ts) ∧
  octet_count ep' = s32 (octet_count ep + (12 + foldr (λ b a, zlen b + a) 0 v)).
Proof.
  unfold send_rtp_packet. destruct (if decide _ then _ else _) as [t ok].
  destruct ok; [|done]. simpl. intros E.
  assert (∃ t', ep' = mkEp (payload ep) (max_data_size ep) (ssrc ep) (start_timestamp ep)
    (Z.land (u32 (start_timestamp ep + ts)) 4294967295) (Z.land (seqnum ep + 1) 65535)
    (s32 (packet_count ep + 1)) (s32 (octet_count ep + (12 + foldr (λ b a, zlen b + a) 0 v)))
    (rtcp_enabled ep') (force_rtcp ep') (last_rtcp_recv ep') (last_rtcp_send ep') t') as [t' ->].
  { destruct (force_rtcp ep).
    - destruct (rtcp_send _ now) eqn:E2; [|done]. injection E as <-.
      apply rtcp_send_fields in E2 as (t' & _ & ->). by exists t'.
    - case_decide.
      + apply rtcp_send_fields in E as (t' & _ & ->). by exists t'.
      + injection E as <-. by exists t. }
  simpl. rewrite land_ffffffff, u32_u32, land_ffff. done.
Qed.

(** Over UDP a successful send appends exactly one datagram. *)
Lemma send_rtp_packet_udp (ep ep' : rtp_endpoint udp) now v ts m :
  send_rtp_packet ep now v ts m = Some ep' →
  udp_rtp (trans ep') = udp_rtp (trans ep) ++ [concat (rtphdr (with_timestamp ep ts) m :: v)].
Proof.
  assert (∀ (e e' : rtp_endpoint udp), rtcp_send e now = Some e' →
    udp_rtp (trans e') = udp_rtp (trans e)) as Hrtcp.
  { intros e e' (t & Ho & ->)%rtcp_send_fields. simpl in *. destruct (udp_answer _); [|done].
    by injection Ho as <-. }
  unfold send_rtp_packet. rewrite decide_True by (left; done). cbn [rtp_out udp_transport].
  cbn [trans with_timestamp]. destruct (udp_answer (trans ep)); [|done].
  cbn [negb]. destruct (force_rtcp _).
  - destruct (rtcp_send _ now) eqn:E; [|done]. intros [= <-]. simpl. by apply Hrtcp in E as ->.
  - case_decide; [intros ->%Hrtcp; done|]. by intros [= <-].
Qed.

Lemma send_wf {T} `{Transport T} (ep ep' : rtp_endpoint T) now v ts m :
  ep_wf ep → send_rtp_packet ep now v ts m = Some ep' → ep_wf ep'.
Proof.
  intros [] (E1 & _ & E3 & E4 & E5 & _)%send_rtp_packet_fields.
  split; rewrite ?E1, ?E3, ?E4, ?E5; try done. apply Z.mod_pos_bound. lia.
Qed.

(** The datagrams of a run, as the receiver decodes them. *)
Lemma send_all_udp (ep ep' : rtp_endpoint udp) l :
  ep_wf ep → send_all ep l = Some ep' →
  ∃ dgs, udp_rtp (trans ep') = udp_rtp (trans ep) ++ dgs ∧ length dgs = length l ∧
    seqnum ep' = (seqnum ep + Z.of_nat (length l)) `mod` 65536 ∧
    ∀ i r dg, l !! i = Some r → dgs !! i = Some dg →
      parse_rtp dg = Some (mkFields 2 (rq_marker r) (payload ep)
        ((seqnum ep + Z.of_nat i) `mod` 65536) (u32 (start_timestamp ep + rq_ts r)) (ssrc ep),
        concat (rq_v r)).
Proof.
  revert ep. induction l as [|r l IH]; intros ep Hwf; simpl.
  { intros [= <-]. exists []. rewrite app_nil_r. destruct Hwf.
    split; [done|]. split; [done|]. split; [|by intros i ?]. rewrite Z.mod_small; lia. }
  destruct (send_rtp_packet ep _ _ _ _) as [ep1|] eqn:E; [|done]. intros Hall.
  destruct (IH ep1 (send_wf _ _ _ _ _ _ Hwf E) Hall) as (dgs & Hd & Hl & Hs & Hp).
  rewrite (send_rtp_packet_udp _ _ _ _ _ _ E) in Hd.
  apply send_rtp_packet_fields in E as (E1 & _ & E3 & E4 & E5 & _).
  set (dg0 := concat (rtphdr (with_timestamp ep (rq_ts r)) (rq_marker r) :: rq_v r)) in *.
  exists (dg0 :: dgs).
  split; [by rewrite Hd, <- (assoc_L (++))|]. split; [simpl; by rewrite Hl|].
  split; [rewrite Hs, E5, Zplus_mod_idemp_l; f_equal; lia|].
  intros [|i] r' dg Hr Hdg; simpl in *.
  - injection Hr as <-. injection Hdg as <-. 
    change dg0 with (rtphdr (with_timestamp ep (rq_ts r)) (rq_marker r) ++ concat (rq_v r)).
    rewrite parse_rtp_hdr; simpl; rewrite ?land_ffffffff, ?u32_u32.
    + destruct Hwf. do 3 f_equal. rewrite Z.mod_small; lia.
    + destruct Hwf. by split.
    + apply u32_range.
  - specialize (Hp i r' dg Hr Hdg). rewrite Hp, E1, E3, E4, E5.
    do 3 f_equal. rewrite Zplus_mod_idemp_l. f_equal. lia.
Qed.

(** ** Properties *)

(** C11. What a client receives: when a sequence of packets is sent over UDP
    without a failure, the i-th new datagram decodes as an RTP version 2 packet
    with the endpoint's payload type and SSRC, the given marker, the i-th
    sequence number after the first modulo 2^16, the given timestamp offset by
    the endpoint's random start modulo 2^32, and the given vectors as its
    payload; one datagram is sent per packet. *)
Theorem rtp_stream_received (ep ep' : rtp_endpoint udp) l :
  ep_wf ep → send_all ep l = Some ep' →
  ∃ dgs, udp_rtp (trans ep') = udp_rtp (trans ep) ++ dgs ∧ length dgs = length l ∧
    seqnum ep' = (seqnum ep + Z.of_nat (length l)) `mod` 65536 ∧
    ∀ i r dg, l !! i = Some r → dgs !! i = Some dg →
      parse_rtp dg = Some (mkFields 2 (rq_marker r) (payload ep)
        ((seqnum ep + Z.of_nat i) `mod` 65536) (u32 (start_timestamp ep + rq_ts r)) (ssrc ep),
        concat (rq_v r)).
Proof. apply send_all_udp. Qed.

(** Every endpoint is created, and stays after every successful packet,
    well formed: sequence number below 2^16, SSRC and start timestamp below
    2^32, and its sender counters advance by one packet and by the header plus
    payload octets (as 32-bit ints). *)
Lemma send_rtp_packet_counts {T} `{Transport T} (ep ep' : rtp_endpoint T) now v ts m :
  ep_wf ep → send_rtp_packet ep now v ts m = Some ep' →
  ep_wf ep' ∧ packet_count ep' = s32 (packet_count ep + 1) ∧
  octet_count ep' = s32 (octet_count ep + (12 + foldr (λ b a, zlen b + a) 0 v)) ∧
  max_data_size ep' = max_data_size ep ∧
  last_timestamp ep' = u32 (start_timestamp ep + ts).
Proof.
  intros Hwf E. split; [by eapply send_wf|].
  apply send_rtp_packet_fields in E. naive_solver.
Qed.

(** The UDP port search only returns an even port of the configured range
    whose odd neighbour is also in the range, both of which the kernel let the
    server bind, whatever the kernel answers. *)
Lemma udp_port_sound env r rnd p :
  range_ok r → 0 ≤ rnd → connect_udp_endpoint env r rnd = UdpPort p →
  p `mod` 2 = 0 ∧ rtp_port_start r ≤ p ∧ p + 1 ≤ rtp_port_end r ∧ pair_free env p.
Proof.
  intros Hr Hrnd. unfold connect_udp_endpoint. destruct (port_loop _ _ _ _ _ _) eqn:E; [|done].
  case_match; [|done]. intros [= ->].
  destruct (first_port_norm r rnd Hr Hrnd) as [Hj Hp].
  destruct (port_loop_sound _ _ _ _ _ _ _ _ Hr Hj Hp E) as (k & Hk & -> & Hf).
  pose proof (max_tries_bounds r Hr). destruct Hr. split; [zdm|]. split; [lia|]. split; [lia|done].
Qed.

(** C39. The UDP port search, when no call fails but for busy ports: it goes
    through the pairs of an even port and its neighbour inside the range,
    each of them exactly once, cyclically from the first pair at or after the
    random port; it returns the first pair of that order of which the kernel
    let it bind both ports, and fails only when no pair of the range is free. *)
Theorem udp_port_complete env r rnd :
  range_ok r → 0 ≤ rnd →
  (∀ n, rtp_socket_ok env n = true) → (∀ n, rtcp_socket_ok env n = true) →
  (∀ q, bind_port env q ≠ BindError) → connect_ok env = true → getsockname_ok env = true →
  let s := rtp_port_start r in
  let e := rtp_port_end r in
  let n := (e - s + 1) `div` 2 in
  let pair t := s + 2 * ((first_pair r rnd + t) `mod` n) in
  (∀ q, q `mod` 2 = 0 → s ≤ q → q + 1 ≤ e → exists! t, 0 ≤ t < n ∧ pair t = q) ∧
  match connect_udp_endpoint env r rnd with
  | UdpPort q =>
      q `mod` 2 = 0 ∧ s ≤ q ∧ q + 1 ≤ e ∧
      bind_port env q = BindOk ∧ bind_port env (q + 1) = BindOk ∧
      ∃ t, 0 ≤ t < n ∧ q = pair t ∧ ∀ u, 0 ≤ u < t → ¬ pair_free env (pair u)
  | UdpFailed _ => ∀ q, q `mod` 2 = 0 → s ≤ q → q + 1 ≤ e → ¬ pair_free env q
  end.
Proof.
  intros Hr Hrnd H1 H2 Herr Hc Hg s e n pair.
  destruct (first_port_norm r rnd Hr Hrnd) as [Hj Hp].
  assert (∀ q, q `mod` 2 = 0 → s ≤ q → q + 1 ≤ e → exists! t, 0 ≤ t < n ∧ pair t = q) as Honce.
  { intros q He Hlo Hhi. unfold pair, n, e, s in *. rewrite <- max_tries_div by done.
    apply (pair_visited_once r); [done|lia|done..]. }
  split; [done|]. pose proof (port_loop_first env r (Z.to_nat (max_tries r)) (first_port r rnd) false false
    (first_pair r rnd) Hr Hj Hp H1 H2 Herr) as HL. cbv zeta in HL. rewrite Z2Nat.id in HL by lia.
  rewrite !max_tries_div in HL by done. fold s e n in HL.
  unfold connect_udp_endpoint. rewrite Hc, Hg. rewrite max_tries_div in Hj |- * by done. fold s e n in Hj |- *.
  destruct (port_loop env r _ _ false false) as [q|k].
  - destruct HL as (t & Ht & -> & [Hf1 Hf2] & Hu). simpl. pose proof (ro_even r Hr) as Hs.
    pose proof (Z.mod_pos_bound (first_pair r rnd + t) n ltac:(lia)).
    assert (2 * n ≤ e - s + 1) by (unfold n; zdm). fold s in Hs.
    split; [zdm|]. split; [lia|]. split; [lia|]. split; [done|]. split; [done|]. by exists t.
  - intros q He Hlo Hhi. destruct (Honce q He Hlo Hhi) as (t & [Ht <-] & _). by apply HL.
Qed.

(** When every port of the range is taken the call fails, and leaves both
    sockets it created open. *)
Lemma udp_port_exhaustion_leaks env r rnd :
  range_ok r →
  (∀ n, rtp_socket_ok env n = true) → (∀ n, rtcp_socket_ok env n = true) →
  (∀ q, bind_port env q = BindInUse) →
  connect_udp_endpoint env r rnd = UdpFailed 2.
Proof.
  intros Hr H1 H2 Hb. pose proof (max_tries_bounds r Hr).
  unfold connect_udp_endpoint. destruct (Z.to_nat (max_tries r)) as [|n] eqn:E; [lia|].
  simpl. rewrite H1, H2, Hb. simpl. by rewrite port_loop_exhausted.
Qed.

(** The RTPRange directive either refuses the range (the process exits) or
    yields a range of at least eight ports inside the given one that starts
    even and ends odd. *)
Lemma config_rtprange_ok a b r :
  config_rtprange a b = Some r →
  range_ok r ∧ rtp_port_end r `mod` 2 = 1 ∧ a ≤ rtp_port_start r ∧ rtp_port_end r ≤ b ∧
  8 ≤ rtp_port_end r - rtp_port_start r + 1.
Proof.
  unfold config_rtprange. rewrite !land_1. case_decide; [done|]. intros [= <-]. simpl.
  repeat case_decide; (split; [split; simpl; zdm|]; zdm).
Qed.

(** *** Concrete instances *)

Definition demo_ep : rtp_endpoint udp :=
  mkEp 26 1400 305419896 4294967290 4294967290 65535 0 0 true false
    (mkTime 100 0) (mkTime 100 0) (mkUdp [] [] []).

Lemma demo_ep_wf : ep_wf demo_ep.
Proof. split; simpl; lia. Qed.

Definition demo_reqs : list rtp_request :=
  [mkReq (mkTime 101 0) [[1; 2]; [3]] 4 false; mkReq (mkTime 101 0) [[4]] 10 true].

Definition demo_ep' : rtp_endpoint udp := default demo_ep (send_all demo_ep demo_reqs).

Lemma rtp_stream_received_witness :
  ∃ dgs, udp_rtp (trans demo_ep') = [] ++ dgs ∧ length dgs = 2%nat ∧ seqnum demo_ep' = 1 ∧
    ∀ i r dg, demo_reqs !! i = Some r → dgs !! i = Some dg →
      parse_rtp dg = Some (mkFields 2 (rq_marker r) 26 ((65535 + Z.of_nat i) `mod` 65536)
        (u32 (4294967290 + rq_ts r)) 305419896, concat (rq_v r)).
Proof. exact (rtp_stream_received demo_ep demo_ep' demo_reqs demo_ep_wf eq_refl). Defined.

Lemma send_rtp_packet_counts_witness :
  ∃ ep' : rtp_endpoint udp, ep_wf ep' ∧ packet_count ep' = 1 ∧ octet_count ep' = 15 ∧ max_data_size ep' = 1400 ∧
    last_timestamp ep' = 4.
Proof.
  eexists. apply (send_rtp_packet_counts demo_ep _ (mkTime 101 0) [[1; 2]; [3]] 10 true demo_ep_wf).
  vm_compute. reflexivity.
Defined.

Definition demo_env : net_env :=
  mkEnv (λ _, true) (λ _, true) (λ p, if decide (p < 50010) then BindInUse else BindOk) true true.

Lemma default_range_ok : range_ok default_range.
Proof. split; vm_compute; reflexivity. Qed.

Lemma udp_port_sound_witness :
  connect_udp_endpoint demo_env default_range 3 = UdpPort 50010 ∧
  50010 `mod` 2 = 0 ∧ 50000 ≤ 50010 ∧ 50010 + 1 ≤ 60000 ∧ pair_free demo_env 50010.
Proof.
  assert (connect_udp_endpoint demo_env default_range 3 = UdpPort 50010) as E by (vm_compute; reflexivity).
  split; [exact E|]. apply (udp_port_sound demo_env default_range 3 50010 default_range_ok); [lia|exact E].
Defined.

(** Two pairs, of which the RTCP port of the first is taken. *)
Lemma udp_port_complete_witness :
  let env := mkEnv (λ _, true) (λ _, true) (λ p, if decide (p = 7) then BindInUse else BindOk) true true in
  let r := mkRange 6 9 in
  connect_udp_endpoint env r 0 = UdpPort 8 ∧
  (∀ q, q `mod` 2 = 0 → 6 ≤ q → q + 1 ≤ 9 →
    exists! t, 0 ≤ t < 2 ∧ 6 + 2 * ((first_pair r 0 + t) `mod` 2) = q) ∧
  match connect_udp_endpoint env r 0 with
  | UdpPort q =>
      q `mod` 2 = 0 ∧ 6 ≤ q ∧ q + 1 ≤ 9 ∧
      bind_port env q = BindOk ∧ bind_port env (q + 1) = BindOk ∧
      ∃ t, 0 ≤ t < 2 ∧ q = 6 + 2 * ((first_pair r 0 + t) `mod` 2) ∧
        ∀ u, 0 ≤ u < t → ¬ pair_free env (6 + 2 * ((first_pair r 0 + u) `mod` 2))
  | UdpFailed _ => ∀ q, q `mod` 2 = 0 → 6 ≤ q → q + 1 ≤ 9 → ¬ pair_free env q
  end.
Proof.
  intros env r. split; [vm_compute; reflexivity|].
  refine (udp_port_complete env r 0 _ _ _ _ _ _ _); try reflexivity; [split; simpl; reflexivity|].
  intros q. simpl. case_decide; discriminate.
Defined.

Lemma udp_port_exhaustion_leaks_witness :
  connect_udp_endpoint (mkEnv (λ _, true) (λ _, true) (λ _, BindInUse) true true) default_range 0
  = UdpFailed 2.
Proof. apply (udp_port_exhaustion_leaks _ default_range 0 default_range_ok); reflexivity. Defined.

Lemma config_rtprange_ok_witness :
  range_ok (mkRange 5002 5021) ∧ 5021 `mod` 2 = 1 ∧ 5001 ≤ 5002 ∧ 5021 ≤ 5022 ∧ 8 ≤ 5021 - 5002 + 1.
Proof. apply (config_rtprange_ok 5001 5022 (mkRange 5002 5021)). vm_compute. reflexivity. Defined.
