(* ===== verification/RtpMedia.v ===== *)
(** * RtpMedia: what packetizers and endpoints promise each other

    Models the interface of rtp_media.h: a packetizer turns one encoded frame
    into packets and hands them, one by one, to [send_rtp_packet]. The class
    [RtpSink] is what it uses of an endpoint; [endpoint_sink] shows that the
    endpoints of [Rtp] provide it. All packetizers but that of MPEG-4 share the
    loop
      for (i = 0; i < len; i += plen) { plen = len - i; clip; send; }
    which is [frag_loop]; this file proves once what it sends. *)

From stdpp Require Import prelude gmap strings.
From S2P Require Import Prelude Rtp.

(** A call of [send_rtp_packet]: the vectors after the header, the timestamp
    and the marker. *)
Record packet := mkPkt { pk_v : list (list Z); pk_ts : Z; pk_marker : bool }.

Definition pk_size (p : packet) : Z := zlen (concat (pk_v p)).

(** [sink_mtu] is [ep->max_data_size], [sink_count] is [ep->packet_count]; a
    send returns [None] when it fails and the endpoint is gone. *)
Class RtpSink (E : Type) := {
  sink_mtu : E → Z;
  sink_count : E → Z;
  sink_send : E → packet → option E;
  sink_mtu_stable : ∀ e p e', sink_send e p = Some e' → sink_mtu e' = sink_mtu e }.

(** Sending packets in order, stopping at the first failure. *)
Fixpoint send_seq {E} `{RtpSink E} (e : E) (l : list packet) : option E :=
  match l with
  | [] => Some e
  | p :: l => match sink_send e p with None => None | Some e' => send_seq e' l end
  end.

Lemma send_seq_app {E} `{RtpSink E} (e : E) l1 l2 :
  send_seq e (l1 ++ l2) = match send_seq e l1 with Some e' => send_seq e' l2 | None => None end.
Proof. revert e. induction l1 as [|p l1 IH]; intros e; [done|]. cbn. destruct (sink_send e p); [apply IH|done]. Qed.

Lemma send_seq_mtu {E} `{RtpSink E} (e e' : E) l : send_seq e l = Some e' → sink_mtu e' = sink_mtu e.
Proof.
  revert e. induction l as [|p l IH]; intros e; cbn; [by intros [= ->]|].
  destruct (sink_send e p) as [e1|] eqn:E1; [|done]. intros Hs. rewrite (IH _ Hs). by eapply sink_mtu_stable.
Qed.

(** An endpoint with the clock readings its next sends will get. *)
Record clocked (T : Type) := mkClocked { cl_ep : rtp_endpoint T; cl_clock : list timeval }.
Arguments mkClocked {T}. Arguments cl_ep {T}. Arguments cl_clock {T}.

Definition clocked_send {T} `{Transport T} (c : clocked T) (p : packet) : option (clocked T) :=
  match send_rtp_packet (cl_ep c) (default (mkTime 0 0) (head (cl_clock c)))
          (pk_v p) (pk_ts p) (pk_marker p) with
  | None => None
  | Some ep => Some (mkClocked ep (tail (cl_clock c)))
  end.

#[global] Program Instance endpoint_sink {T} `{Transport T} : RtpSink (clocked T) := {|
  sink_mtu c := max_data_size (cl_ep c);
  sink_count c := packet_count (cl_ep c);
  sink_send := clocked_send |}.
Next Obligation.
  intros T ? c p c' E. unfold clocked_send in E. destruct (send_rtp_packet _ _ _ _ _) eqn:E'; [|done].
  injection E as <-. simpl. by apply send_rtp_packet_fields in E' as (_ & ? & _).
Qed.

(** A sink that only keeps the packets, for evaluating packetizers. *)
Record recorder := mkRec { rec_mtu : Z; rec_log : list packet }.

#[global] Program Instance recorder_sink : RtpSink recorder := {|
  sink_mtu := rec_mtu;
  sink_count r := zlen (rec_log r);
  sink_send r p := Some (mkRec (rec_mtu r) (rec_log r ++ [p])) |}.
Next Obligation. by intros r p r' [= <-]. Qed.

(** ** The fragmentation loop *)

Section Fragments.
Context {S : Type}.
(** [clip mtu s i rest]: the size of the fragment at [i]; [pkt s i plen]: the
    packet; [nxt]: how the headers change after a fragment. *)
Variable clip : Z → S → Z → Z → Z.
Variable pkt : S → Z → Z → packet.
Variable nxt : S → S.

Fixpoint frag_loop {E} `{RtpSink E} (fuel : nat) (len : Z) (e : E) (s : S) (i : Z) : res (option E) :=
  if decide (i < len) then
    match fuel with
    | O => Fault OutOfFuel
    | Datatypes.S fuel =>
        let plen := clip (sink_mtu e) s i (len - i) in
        match sink_send e (pkt s i plen) with
        | None => Ok None
        | Some e' => frag_loop fuel len e' (nxt s) (i + plen)
        end
    end
  else Ok (Some e).

(** The packets of the loop. *)
Fixpoint frags (fuel : nat) (mtu len : Z) (s : S) (i : Z) : list packet :=
  if decide (i < len) then
    match fuel with
    | O => []
    | Datatypes.S fuel =>
        let plen := clip mtu s i (len - i) in
        pkt s i plen :: frags fuel mtu len (nxt s) (i + plen)
    end
  else [].

(** Every fragment is non-empty and within what is left. *)
Definition clip_ok (mtu : Z) : Prop := ∀ s i rest, 0 < rest → 0 < clip mtu s i rest ≤ rest.

Lemma frag_loop_frags {E} `{RtpSink E} fuel len (e : E) s i :
  clip_ok (sink_mtu e) → (Z.to_nat (len - i) <= fuel)%nat →
  frag_loop fuel len e s i = Ok (send_seq e (frags fuel (sink_mtu e) len s i)).
Proof.
  revert e s i. induction fuel as [|fuel IH]; intros e s i Hc Hf; simpl; case_decide as Hi; try done.
  - lia.
  - simpl. destruct (sink_send e _) as [e'|] eqn:Es; [|done].
    pose proof (Hc s i (len - i) ltac:(lia)). pose proof (sink_mtu_stable _ _ _ Es) as Em.
    rewrite IH; [by rewrite Em|by rewrite Em|lia].
Qed.

(** The payload data, fragment by fragment, is the object from [i] on. *)
Lemma frags_data (data : packet → list Z) d fuel mtu len s i :
  clip_ok mtu → (∀ s i plen, 0 ≤ i → data (pkt s i plen) = slice d i plen) →
  0 ≤ i ≤ len → (Z.to_nat (len - i) <= fuel)%nat →
  concat (data <$> frags fuel mtu len s i) = slice d i (len - i).
Proof.
  intros Hc Hd. revert s i. induction fuel as [|fuel IH]; intros s i Hi Hf; simpl; case_decide as Hlt.
  - lia.
  - by replace (len - i) with 0 by lia; rewrite slice_0.
  - pose proof (Hc s i (len - i) ltac:(lia)). simpl. fold_fmap. rewrite IH, Hd by lia.
    rewrite slice_app by lia. f_equal. lia.
  - by replace (len - i) with 0 by lia; rewrite slice_0.
Qed.

(** The marker is on the last packet and only there. *)
Lemma frags_marker fuel mtu len s i k p :
  clip_ok mtu → (∀ s i plen, pk_marker (pkt s i plen) = bool_decide (plen + i = len)) →
  (Z.to_nat (len - i) <= fuel)%nat →
  frags fuel mtu len s i !! k = Some p →
  pk_marker p = bool_decide (Datatypes.S k = length (frags fuel mtu len s i)).
Proof.
  intros Hc Hm. revert s i k. induction fuel as [|fuel IH]; intros s i k Hf; simpl; case_decide as Hlt; try done.
  pose proof (Hc s i (len - i) ltac:(lia)) as Hp. set (plen := clip _ _ _ _) in *.
  destruct k as [|k]; simpl.
  - intros [= <-]. rewrite Hm. apply bool_decide_ext.
    destruct fuel; simpl; (destruct (decide (i + plen < len)); simpl); split; lia.
  - intros Hk. rewrite (IH (nxt s) (i + plen) k ltac:(lia) Hk). apply bool_decide_ext. lia.
Qed.

(** A bound on every packet. *)
Lemma frags_size bound fuel mtu len s i :
  (∀ s i rest, 0 < rest → pk_size (pkt s i (clip mtu s i rest)) ≤ bound) →
  Forall (λ p, pk_size p ≤ bound) (frags fuel mtu len s i).
Proof.
  intros Hb. revert s i. induction fuel as [|fuel IH]; intros s i; simpl; case_decide; constructor; auto.
  apply Hb. lia.
Qed.

(** Any property of the packet of a non-empty fragment within the object, where
    [I] is what the header state keeps. *)
Lemma frags_Forall (I : S → Prop) (P : packet → Prop) fuel mtu len s i :
  clip_ok mtu → I s → (∀ s, I s → I (nxt s)) →
  (∀ s j, I s → i ≤ j < len → P (pkt s j (clip mtu s j (len - j)))) →
  Forall P (frags fuel mtu len s i).
Proof.
  intros Hc Hs Hn. revert s i Hs. induction fuel as [|fuel IH]; intros s i Hs HP; simpl; case_decide; constructor; auto.
  - apply HP; [done|lia].
  - apply IH; [auto|]. intros. apply HP; [done|]. pose proof (Hc s i (len - i) ltac:(lia)). lia.
Qed.

(** Where the [k]-th fragment starts: right behind the data of the fragments
    before it. [Q] is any property of offsets that the loop keeps. *)
Lemma frags_lookup (data : packet → list Z) (Q : Z → Prop) d fuel mtu len s i k p :
  clip_ok mtu → (∀ s i plen, data (pkt s i plen) = slice d i plen) →
  (∀ s j, Q j → j < len → j + clip mtu s j (len - j) < len → Q (j + clip mtu s j (len - j))) →
  0 ≤ i → len = zlen d → Q i → frags fuel mtu len s i !! k = Some p →
  ∃ s' j, i ≤ j < len ∧ Q j ∧ p = pkt s' j (clip mtu s' j (len - j)) ∧
    concat (data <$> take k (frags fuel mtu len s i)) = slice d i (j - i).
Proof.
  intros Hc Hd HQ Hi Hl. revert s i k Hi.
  induction fuel as [|fuel IH]; intros s i k Hi Hqi; simpl; case_decide as Hlt; try done.
  pose proof (Hc s i (len - i) ltac:(lia)) as Hp. set (plen := clip _ _ _ _) in *.
  destruct k as [|k]; simpl.
  - intros [= <-]. exists s, i. replace (i - i) with 0 by lia. rewrite slice_0. repeat split; auto; lia.
  - intros Hk. destruct (decide (i + plen < len)) as [Hn|Hn];
      [|destruct fuel; simpl in Hk; rewrite decide_False in Hk by lia; done].
    destruct (IH (nxt s) (i + plen) k) as (s' & j & Hj & Hqj & Hpk & Hcat); [lia|by apply HQ|done|].
    exists s', j. split; [lia|]. split; [done|]. split; [done|]. fold_fmap.
    rewrite Hcat, Hd, slice_app by lia. f_equal. lia.
Qed.

End Fragments.

(** Clipping at a positive bound is always admissible. *)
Lemma clip_min_ok {S} (f : Z → Z) mtu :
  0 < f mtu →
  clip_ok (λ (m : Z) (_ : S) (_ rest : Z), if decide (rest > f m) then f m else rest) mtu.
Proof. intros Hm s i rest Hr. case_decide; lia. Qed.

Lemma pk_size_app v1 v2 ts m : pk_size (mkPkt (v1 ++ v2) ts m) = zlen (concat v1) + zlen (concat v2).
Proof. unfold pk_size. simpl. by rewrite concat_app, zlen_app. Qed.

Lemma zlen_slice_le d i len : 0 ≤ len → zlen (slice d i len) ≤ len.
Proof. unfold zlen, slice. rewrite length_take, length_drop. lia. Qed.
