(* ===== verification/RtpPlain.v ===== *)
(** * RtpPlain: packetizers that only cut the frame

    Models rtp-rawaudio.c (PCM, A-law, mu-law: the audio path of this build),
    rtp-mpa.c, rtp-aac.c, rtp-g726.c, rtp-adpcm.c and rtp-h263.c of
    src/sources/applications/RTSPServer/src. Each keeps a pointer to the
    current frame's bytes, computes the RTP timestamp and cuts the frame into
    packets. A get_sdp function returns the text it formats, [None] for -1. *)

From stdpp Require Import prelude gmap strings pretty.
From S2P Require Import Prelude Frame Rtp RtpMedia.

Local Open Scope c_scope.

(** ** Raw audio *)

Module RawAudio.

Record rtp_rawaudio := mkRaw {
  rawaudio_data : list Z;
  format : Z;
  sampsize : Z;
  channels : Z;
  rate : Z;
  timestamp : Z }.

(** [get_framerate] of the stream gave [ch] and [fbase]. *)
Definition new_rtp_media_rawaudio_stream (fmt ch fbase : Z) : res rtp_rawaudio :=
  if decide (ch = 0) then Fault DivByZero
  else Ok (mkRaw [] fmt (if decide (fmt = FORMAT_PCM) then 2 else 1) ch (fbase `quot` ch) 0).

Definition m_line (port pt : Z) : list Z :=
  $"m=audio " ++ fmt_d port ++ $" RTP/AVP " ++ fmt_d pt ++ crlf.

Definition rtpmap (pt : Z) (name : list Z) (out : rtp_rawaudio) : list Z :=
  $"a=rtpmap:" ++ fmt_d pt ++ $" " ++ name ++ $"/" ++ fmt_d (rate out) ++ $"/"
  ++ fmt_d (channels out) ++ crlf.

Definition rawaudio_get_sdp (out : rtp_rawaudio) (payload port : Z) : option (list Z) :=
  if decide (format out = FORMAT_PCM) then
    if decide (rate out = 44100 ∧ channels out = 2) then Some (m_line port 10)
    else if decide (rate out = 44100 ∧ channels out = 1) then Some (m_line port 11)
    else Some (m_line port payload ++ rtpmap payload ($"L16") out)
  else if decide (format out = FORMAT_ALAW) then
    if decide (rate out = 8000 ∧ channels out = 1) then Some (m_line port 8)
    else Some (m_line port payload ++ rtpmap payload ($"PCMA") out)
  else if decide (format out = FORMAT_ULAW) then
    if decide (rate out = 8000 ∧ channels out = 1) then Some (m_line port 0)
    else Some (m_line port payload ++ rtpmap payload ($"PCMU") out)
  else None.

Definition rawaudio_get_payload (out : rtp_rawaudio) (payload : Z) : Z :=
  if decide (format out = FORMAT_PCM) then
    if decide (rate out = 44100 ∧ channels out = 2) then 10
    else if decide (rate out = 44100 ∧ channels out = 1) then 11
    else payload
  else if decide (format out = FORMAT_ALAW) then
    if decide (rate out = 8000 ∧ channels out = 1) then 8 else payload
  else if decide (format out = FORMAT_ULAW) then
    if decide (rate out = 8000 ∧ channels out = 1) then 0 else payload
  else -1.

Definition rawaudio_process_frame (out : rtp_rawaudio) (data : list Z) (ts : Z) : rtp_rawaudio * Z :=
  (mkRaw data (format out) (sampsize out) (channels out) (rate out) ts, 1).

(** Whole samples only, unless the rest of the frame fits. *)
Definition raw_clip (out : rtp_rawaudio) (mtu : Z) (_ : unit) (_ rest : Z) : Z :=
  if decide (rest > mtu) then mtu - mtu `rem` (channels out * sampsize out) else rest.

Definition raw_pkt (out : rtp_rawaudio) (_ : unit) (i plen : Z) : packet :=
  mkPkt [slice (rawaudio_data out) i plen]
    (u32 (timestamp out + (i `quot` channels out) `quot` sampsize out)) false.

Definition rawaudio_send {E} `{RtpSink E} (e : E) (out : rtp_rawaudio) : res (option E) :=
  if decide (channels out * sampsize out = 0) then Fault DivByZero else
  frag_loop (raw_clip out) (raw_pkt out) (λ s, s) (length (rawaudio_data out))
    (zlen (rawaudio_data out)) e tt 0.

Definition rawaudio_packets (mtu : Z) (out : rtp_rawaudio) : list packet :=
  frags (raw_clip out) (raw_pkt out) (λ s, s) (length (rawaudio_data out)) mtu
    (zlen (rawaudio_data out)) tt 0.

Lemma raw_clip_ok out mtu :
  0 < channels out * sampsize out ≤ mtu → clip_ok (raw_clip out) mtu.
Proof.
  intros Hs u i rest Hr. unfold raw_clip. case_decide; [|lia].
  pose proof (Z.rem_bound_pos mtu (channels out * sampsize out)). 
  assert (mtu `rem` (channels out * sampsize out) < mtu); [|lia].
  destruct (decide (channels out * sampsize out = mtu)) as [->|]; [rewrite Z.rem_same; lia|].
  lia.
Qed.

End RawAudio.

(** ** MPEG audio *)

Module Mpa.

Record rtp_mpa := mkMpa { mpa_data : list Z; ts_incr : Z; timestamp : Z }.

Definition samrate_tab : list Z := [44100; 48000; 32000].

Definition mpa_process_frame (out : rtp_mpa) (f : option (list Z * Z)) : res (rtp_mpa * Z) :=
  match f with
  | Some (data, ts) =>
      b ← rd data 2;
      r ← rd samrate_tab (Z.land (Z.shiftr b 2) 3);
      Ok (mkMpa data ((90000 * 1152) `quot` r) ts, 1)
  | None => Ok (mkMpa [] 0 (timestamp out), 1)
  end.

Definition mpa_clip (mtu : Z) (_ : unit) (_ rest : Z) : Z :=
  if decide (rest > mtu) then mtu else rest.

Definition mpa_pkt (out : rtp_mpa) (_ : unit) (i plen : Z) : packet :=
  mkPkt [PUT_16 0 ++ PUT_16 i; slice (mpa_data out) i plen] (timestamp out)
    (bool_decide (plen + i = zlen (mpa_data out))).

Definition mpa_send {E} `{RtpSink E} (e : E) (out : rtp_mpa) : res (option E) :=
  frag_loop mpa_clip (mpa_pkt out) (λ s, s) (length (mpa_data out)) (zlen (mpa_data out)) e tt 0.

Definition mpa_packets (mtu : Z) (out : rtp_mpa) : list packet :=
  frags mpa_clip (mpa_pkt out) (λ s, s) (length (mpa_data out)) mtu (zlen (mpa_data out)) tt 0.

(** What the description of the track says, and the payload type. *)
Definition mpa_get_sdp (payload port : Z) : option (list Z) := Some (RawAudio.m_line port 14).
Definition mpa_get_payload (payload : Z) : Z := 14.
Definition new_rtp_media_mpa : rtp_mpa := mkMpa [] 0 0.

End Mpa.

(** ** AAC *)

Module Aac.

Record rtp_aac := mkAac {
  aac_data : list Z; channels : Z; rate : Z; timestamp : Z; last_frame : Z }.

Definition s_aiAACSRI : list Z :=
  [96000; 88200; 64000; 48000; 44100; 32000; 24000; 22050; 16000; 12000; 11025; 8000].

(** [None] is the return value -1. *)
Definition GetAACSRI (sr : Z) : option Z :=
  (λ '(i, _), Z.of_nat i) <$> list_find (λ x, x = sr) s_aiAACSRI.

(** The two bytes of the AudioSpecificConfig that [aac_get_sdp] prints;
    [i32SRI] is uninitialised when the rate is not in the table, which is a
    fault. *)
Definition audio_spec_config (out : rtp_aac) : res (list Z) :=
  match GetAACSRI (rate out) with
  | None => Fault OutOfBounds
  | Some sri =>
      Ok [Z.lor 16 (Z.shiftr (Z.land sri 15) 1);
          Z.lor (u8 (Z.shiftl (Z.land sri 15) 7)) (u8 (Z.shiftl (Z.land (channels out) 15) 3))]
  end.

Definition aac_process_frame (out : rtp_aac) (data : list Z) (ts : Z) : rtp_aac * Z :=
  let frames := ts `quot` 1024 in
  let frames := if decide (frames ≤ last_frame out) then u64 (last_frame out + 1) else frames in
  (mkAac data (channels out) (rate out) (u32 (frames * 1024)) frames, 1).

Definition aac_clip (mtu : Z) (_ : unit) (_ rest : Z) : Z :=
  if decide (rest > mtu) then mtu else rest.

Definition au_header (out : rtp_aac) : list Z :=
  [0; 16; u8 (Z.shiftr (zlen (aac_data out)) 5); u8 (Z.shiftl (Z.land (zlen (aac_data out)) 31) 3)].

Definition aac_pkt (out : rtp_aac) (_ : unit) (i plen : Z) : packet :=
  mkPkt [au_header out; slice (aac_data out) i plen] (timestamp out)
    (bool_decide (plen + i = zlen (aac_data out))).

Definition aac_send {E} `{RtpSink E} (e : E) (out : rtp_aac) : res (option E) :=
  frag_loop aac_clip (aac_pkt out) (λ s, s) (length (aac_data out)) (zlen (aac_data out)) e tt 0.

Definition aac_packets (mtu : Z) (out : rtp_aac) : list packet :=
  frags aac_clip (aac_pkt out) (λ s, s) (length (aac_data out)) mtu (zlen (aac_data out)) tt 0.

Definition aac_get_sdp (out : rtp_aac) (payload port : Z) : res (list Z) :=
  c ← audio_spec_config out;
  Ok (RawAudio.m_line port payload ++
      $"a=rtpmap:" ++ fmt_d payload ++ $" MPEG4-GENERIC/" ++ fmt_d (rate out) ++ $"/" ++ fmt_d (channels out) ++ crlf ++
      $"a=fmtp:" ++ fmt_d payload ++ $" profile-level-id=1;mode=AAC-hbr;sizelength=13;indexlength=3;indexdeltalength=3;config=" ++
      (c ≫= fmt_02x) ++ crlf).

(** [get_framerate] of the stream gave [ch] and [fbase]. *)
Definition new_rtp_media_aac_stream (ch fbase : Z) : res rtp_aac :=
  if decide (ch = 0) then Fault DivByZero else Ok (mkAac [] ch (fbase `quot` ch) 0 0).

End Aac.

(** ** G.726 *)

Module G726.

Record rtp_g726 := mkG726 {
  g726_data : list Z; channels : Z; rate : Z; timestamp : Z; last_frame : Z;
  u32SamplePerBlock : Z; u32Bitrate_kbps : Z; u32BitsPerSample : Z }.

(** The bit rates the encoder configuration may name; another one leaves the
    two fields as they are. *)
Definition g726_bitrate (out : rtp_g726) (smpl_per_frame bitrate : Z) : rtp_g726 :=
  let set k b := mkG726 (g726_data out) (channels out) (rate out) (timestamp out) (last_frame out)
                   smpl_per_frame k b in
  if decide (bitrate = 16) then set 16 2
  else if decide (bitrate = 24) then set 24 3
  else if decide (bitrate = 32) then set 32 4
  else if decide (bitrate = 40) then set 40 5
  else set (u32Bitrate_kbps out) (u32BitsPerSample out).

Definition g726_process_frame (out : rtp_g726) (data : list Z) (ts : Z) : rtp_g726 * Z :=
  let n := u16 (u32SamplePerBlock out) in
  if decide (n = 0) then (out, 1) else
  let frames := ts `quot` n in
  let frames := if decide (frames ≤ last_frame out) then u64 (last_frame out + 1) else frames in
  (mkG726 data (channels out) (rate out) (u32 (frames * n)) frames
     (u32SamplePerBlock out) (u32Bitrate_kbps out) (u32BitsPerSample out), 1).

Definition g726_clip (out : rtp_g726) (mtu : Z) (_ : unit) (_ rest : Z) : Z :=
  let m := (u32 mtu `quot` u32Bitrate_kbps out) * u32Bitrate_kbps out in
  if decide (rest > m) then m else rest.

Definition g726_pkt (out : rtp_g726) (_ : unit) (i plen : Z) : packet :=
  mkPkt [slice (g726_data out) i plen]
    (u32 (timestamp out + (i * 8) `quot` u32BitsPerSample out)) false.

Definition g726_send {E} `{RtpSink E} (e : E) (out : rtp_g726) : res (option E) :=
  if decide (u32Bitrate_kbps out = 0) then Fault DivByZero
  else if decide (u32BitsPerSample out = 0 ∧ g726_data out ≠ []) then Fault DivByZero
  else frag_loop (g726_clip out) (g726_pkt out) (λ s, s) (length (g726_data out))
         (zlen (g726_data out)) e tt 0.

Definition g726_packets (mtu : Z) (out : rtp_g726) : list packet :=
  frags (g726_clip out) (g726_pkt out) (λ s, s) (length (g726_data out)) mtu
    (zlen (g726_data out)) tt 0.

(** The configuration of the encoder, asked for up to 30 times; [answers] are
    what m_pfnImportDirty returns. The count is tested before the answer is
    used. *)
Fixpoint import_loop (i32TryCnt : nat) (answers : nat → option (Z * Z)) (i : nat) : option (Z * Z) :=
  match i32TryCnt with
  | O => None
  | S cnt =>
      if decide (cnt = 0)%nat then None
      else match answers i with Some c => Some c | None => import_loop cnt answers (S i) end
  end.
Definition ImportG726EncConfig (answers : nat → option (Z * Z)) : option (Z * Z) := import_loop 30 answers 0.

Definition g726_get_sdp (answers : nat → option (Z * Z)) (out : rtp_g726) (payload port : Z) : rtp_g726 * option (list Z) :=
  match ImportG726EncConfig answers with
  | None => (out, None)
  | Some (smpl_per_frame, bitrate) =>
      let out := g726_bitrate out smpl_per_frame bitrate in
      (out, Some (RawAudio.m_line port payload ++
         $"a=rtpmap:" ++ fmt_d payload ++ $" G726-" ++ fmt_d (u32Bitrate_kbps out) ++ $"/" ++ fmt_d (rate out) ++ $"/" ++
         fmt_d (channels out) ++ crlf))
  end.

(** The last three fields are what malloc left there. *)
Definition new_rtp_media_g726_stream (junk : Z * Z * Z) (ch fbase : Z) : res rtp_g726 :=
  if decide (ch = 0) then Fault DivByZero
  else let '(spb, kbps, bits) := junk in Ok (mkG726 [] ch (fbase `quot` ch) 0 0 spb kbps bits).

End G726.

(** ** DVI ADPCM *)

Module Adpcm.

Record rtp_adpcm := mkAdpcm {
  adpcm_data : list Z; channels : Z; rate : Z; timestamp : Z; last_frame : Z }.

Definition adpcm_get_payload (out : rtp_adpcm) (payload : Z) : Z :=
  if decide (rate out = 8000 ∧ channels out = 1) then 5
  else if decide (rate out = 16000 ∧ channels out = 1) then 6
  else if decide (rate out = 11025 ∧ channels out = 1) then 16
  else if decide (rate out = 22050 ∧ channels out = 1) then 17
  else payload.

(** [ms] is [utils_get_ms_time()]. *)
Definition adpcm_process_frame (out : rtp_adpcm) (data : list Z) (ms : Z) : res (rtp_adpcm * Z) :=
  if decide (channels out = 0) then Fault DivByZero else
  let u16N := u16 ((zlen data `quot` 4) `quot` channels out - 1) in
  let spb := u16 (u16N * 8 * channels out) in
  if decide (spb = 0) then Fault DivByZero else
  let frames := u64 (ms * (rate out `quot` 1000)) `quot` spb in
  let frames := if decide (frames ≤ last_frame out) then u64 (last_frame out + 1) else frames in
  Ok (mkAdpcm data (channels out) (rate out) (u32 (frames * spb)) frames, 1).

Definition adpcm_clip (mtu : Z) (_ : unit) (_ rest : Z) : Z :=
  if decide (rest > mtu) then mtu else rest.

Definition adpcm_pkt (out : rtp_adpcm) (_ : unit) (i plen : Z) : packet :=
  mkPkt [slice (adpcm_data out) i plen] (timestamp out) false.

Definition adpcm_send {E} `{RtpSink E} (e : E) (out : rtp_adpcm) : res (option E) :=
  frag_loop adpcm_clip (adpcm_pkt out) (λ s, s) (length (adpcm_data out))
    (zlen (adpcm_data out)) e tt 0.

Definition adpcm_packets (mtu : Z) (out : rtp_adpcm) : list packet :=
  frags adpcm_clip (adpcm_pkt out) (λ s, s) (length (adpcm_data out)) mtu
    (zlen (adpcm_data out)) tt 0.

Definition adpcm_get_sdp (out : rtp_adpcm) (payload port : Z) : option (list Z) :=
  let text pt := RawAudio.m_line port pt ++
    $"a=rtpmap:" ++ fmt_d payload ++ $" DVI4/" ++ fmt_d (rate out) ++ $"/" ++ fmt_d 1 ++ crlf in
  if decide (rate out = 8000 ∧ channels out = 1) then Some (text 5)
  else if decide (rate out = 16000 ∧ channels out = 1) then Some (text 6)
  else if decide (rate out = 11025 ∧ channels out = 1) then Some (text 16)
  else if decide (rate out = 22050 ∧ channels out = 1) then Some (text 17)
  else None.

Definition new_rtp_media_adpcm_stream (ch fbase : Z) : res rtp_adpcm :=
  if decide (ch = 0) then Fault DivByZero else Ok (mkAdpcm [] ch (fbase `quot` ch) 0 0).

End Adpcm.

(** ** H.263 *)

Module H263.

Record rtp_h263 := mkH263 { h263_data : list Z; init_done : Z; ts_incr : Z; timestamp : Z }.

(** The first two bytes of the frame are dropped. *)
Definition h263_process_frame (out : rtp_h263) (data : list Z) : rtp_h263 * Z :=
  (mkH263 (drop 2 data) (init_done out) (ts_incr out) (u32 (timestamp out + ts_incr out)),
   init_done out).

Definition h263_clip (mtu : Z) (_ : Z) (_ rest : Z) : Z :=
  if decide (rest > mtu) then mtu else rest.

(** [p] is [vhdr[0]]: the P bit, set on the first packet only. *)
Definition h263_pkt (out : rtp_h263) (p : Z) (i plen : Z) : packet :=
  mkPkt [[p; 0]; slice (h263_data out) i plen] (timestamp out)
    (bool_decide (plen + i = zlen (h263_data out))).

Definition h263_send {E} `{RtpSink E} (e : E) (out : rtp_h263) : res (option E) :=
  frag_loop h263_clip (h263_pkt out) (λ _, 0) (length (h263_data out)) (zlen (h263_data out)) e 4 0.

Definition h263_packets (mtu : Z) (out : rtp_h263) : list packet :=
  frags h263_clip (h263_pkt out) (λ _, 0) (length (h263_data out)) mtu (zlen (h263_data out)) 4 0.

Definition h263_get_sdp (payload port : Z) : option (list Z) :=
  Some ($"m=video " ++ fmt_d port ++ $" RTP/AVP " ++ fmt_d payload ++ crlf ++
        $"a=rtpmap:" ++ fmt_d payload ++ $" H263-1998/90000" ++ crlf).

Definition new_rtp_media_h263_stream (fincr fbase : Z) : res rtp_h263 :=
  if decide (fbase = 0) then Fault DivByZero else Ok (mkH263 [] 1 (s32 (90000 * fincr) `quot` fbase) 0).

(** An RFC 2429 receiver: each packet has a two-byte header; a set P bit stands
    for the two zero bytes of a start code. *)
Definition h263_depay (pkts : list packet) : list Z :=
  concat ((λ p, match concat (pk_v p) with
                | h :: _ :: rest => if decide (Z.land h 4 = 4) then 0 :: 0 :: rest else rest
                | _ => []
                end) <$> pkts).

End H263.

(** ** Properties *)

(** The facts shared by the packetizers that clip at a positive bound: the loop
    terminates with the packets of [frags], the data vectors joined are the
    frame, and with a marker test in the packet the marker is on the last packet
    exactly. *)
Lemma plain_send {E S} `{RtpSink E} clip pkt (nxt : S → S) (e : E) (data : list Z) s0 (last_vec : packet → list Z) :
  clip_ok clip (sink_mtu e) → (∀ s i plen, last_vec (pkt s i plen) = slice data i plen) →
  let pkts := frags clip pkt nxt (length data) (sink_mtu e) (zlen data) s0 0 in
  frag_loop clip pkt nxt (length data) (zlen data) e s0 0 = Ok (send_seq e pkts) ∧
  concat (last_vec <$> pkts) = data.
Proof.
  intros Hc Hd pkts. split.
  - apply frag_loop_frags; [done|]. unfold zlen. lia.
  - unfold pkts. rewrite (frags_data _ _ _ last_vec data); auto;
      [by rewrite Z.sub_0_r, slice_all|split; [lia|apply zlen_nonneg]|unfold zlen; lia].
Qed.

Lemma plain_marker {S} clip pkt (nxt : S → S) mtu (data : list Z) s0 k p :
  clip_ok clip mtu → (∀ s i plen, pk_marker (pkt s i plen) = bool_decide (plen + i = zlen data)) →
  frags clip pkt nxt (length data) mtu (zlen data) s0 0 !! k = Some p →
  pk_marker p = bool_decide (Datatypes.S k = length (frags clip pkt nxt (length data) mtu (zlen data) s0 0)).
Proof. intros Hc Hm. apply frags_marker; [done|done|unfold zlen; lia]. Qed.

(** The vector behind the payload header. *)
Definition second_vec (p : packet) : list Z := match pk_v p with [_; v] => v | _ => [] end.
Definition only_vec (p : packet) : list Z := match pk_v p with [v] => v | _ => [] end.

Import RawAudio.

Lemma quot_quot_div i a b : 0 ≤ i → 0 < a → 0 < b → (i `quot` a) `quot` b = i `div` (a * b).
Proof. intros. rewrite !Z.quot_div_nonneg by (try apply Z.quot_pos; lia). by apply Z.div_div; lia. Qed.

(** The audio packetizer of this build: with room for at least one sample
    block per packet, sending a frame terminates and hands over exactly the
    packets of [rawaudio_packets]; their payloads joined are the frame; no
    packet exceeds the endpoint's maximum; and every packet starts at a block
    boundary and is stamped with the frame's timestamp plus the number of
    sample blocks sent before it. *)
Lemma rawaudio_send_packets {E} `{RtpSink E} (e : E) out :
  0 < channels out → 0 < sampsize out → channels out * sampsize out ≤ sink_mtu e →
  let pkts := rawaudio_packets (sink_mtu e) out in
  let bytes := λ p, concat (pk_v p) in
  rawaudio_send e out = Ok (send_seq e pkts) ∧
  concat (bytes <$> pkts) = rawaudio_data out ∧
  Forall (λ p, pk_size p ≤ sink_mtu e) pkts ∧
  ∀ k p, pkts !! k = Some p →
    let off := zlen (concat (bytes <$> take k pkts)) in
    off `mod` (channels out * sampsize out) = 0 ∧
    pk_ts p = u32 (timestamp out + off `div` (channels out * sampsize out)).
Proof.
  intros Hch Hss Hm pkts bytes.
  assert (clip_ok (raw_clip out) (sink_mtu e)) as Hc by (apply raw_clip_ok; nia).
  assert (∀ s i plen, bytes (raw_pkt out s i plen) = slice (rawaudio_data out) i plen) as Hd
    by (intros; apply app_nil_r).
  split; [|split; [|split]].
  - unfold rawaudio_send. rewrite decide_False by nia. apply frag_loop_frags; [done|].
    unfold zlen. lia.
  - unfold pkts, rawaudio_packets.
    rewrite (frags_data _ _ _ bytes (rawaudio_data out)); auto; [|split; [lia|apply zlen_nonneg]|unfold zlen; lia].
    by rewrite Z.sub_0_r, slice_all.
  - apply frags_size. intros s i rest Hr. unfold pk_size. fold (bytes (raw_pkt out s i (raw_clip out (sink_mtu e) s i rest))).
    rewrite Hd. pose proof (Hc s i rest Hr). etrans; [apply zlen_slice_le; lia|].
    unfold raw_clip in *. case_decide; [|lia].
    pose proof (Z.rem_bound_pos (sink_mtu e) (channels out * sampsize out)). nia.
  - intros k p Hk off. set (B := channels out * sampsize out) in *.
    destruct (frags_lookup (raw_clip out) (raw_pkt out) (λ s, s) bytes (λ j, j `mod` B = 0)
      (rawaudio_data out) (length (rawaudio_data out)) (sink_mtu e) (zlen (rawaudio_data out))
      tt 0 k p Hc Hd) as (s & j & Hj & Hq & -> & Hcat); [|lia|done|by apply Z.mod_0_l; nia|exact Hk|].
    + intros s j Hj Hlt. unfold raw_clip. case_decide; [|lia]. fold B. intros _.
      rewrite Z.rem_mod_nonneg by nia.
      replace (sink_mtu e - sink_mtu e `mod` B) with (sink_mtu e `div` B * B) by (pose proof (Z.div_mod (sink_mtu e) B); nia).
      by rewrite Z.mod_add by nia.
    + assert (off = j) as ->; [|split; [done|]].
      { unfold off, pkts, rawaudio_packets. rewrite Hcat, zlen_slice; lia. }
      simpl. by rewrite quot_quot_div by lia.
Qed.

(** The SDP a client is given and the packets it receives agree: whenever
    the raw audio packetizer describes the stream, its media line names the
    payload type that [rawaudio_get_payload] puts in the packets. *)
Lemma rawaudio_sdp_payload out pl port text :
  rawaudio_get_sdp out pl port = Some text →
  ∃ rest, text = $"m=audio " ++ fmt_d port ++ $" RTP/AVP " ++ fmt_d (rawaudio_get_payload out pl) ++ crlf ++ rest.
Proof.
  unfold rawaudio_get_sdp, rawaudio_get_payload, m_line.
  repeat case_decide; try done; intros <-%(inj Some);
    first [exists []; by rewrite app_nil_r | eexists; by rewrite <- !(assoc_L (++))].
Qed.

(** The other audio packetizers lose nothing: for a positive packet size
    (and a G.726 bit rate that fits in it), sending a frame terminates with the
    packetizer's packets, whose data parts joined are the frame; MPEG audio and
    AAC put the marker on the last packet and on no other. *)
Lemma audio_send_reassembles {E} `{RtpSink E} (e : E)
    (mpa : Mpa.rtp_mpa) (aac : Aac.rtp_aac) (g : G726.rtp_g726) (ad : Adpcm.rtp_adpcm) :
  0 < sink_mtu e < 4294967296 →
  0 < G726.u32Bitrate_kbps g ≤ sink_mtu e → 0 < G726.u32BitsPerSample g →
  (Mpa.mpa_send e mpa = Ok (send_seq e (Mpa.mpa_packets (sink_mtu e) mpa)) ∧
   concat (second_vec <$> Mpa.mpa_packets (sink_mtu e) mpa) = Mpa.mpa_data mpa ∧
   ∀ k p, Mpa.mpa_packets (sink_mtu e) mpa !! k = Some p →
     pk_marker p = bool_decide (S k = length (Mpa.mpa_packets (sink_mtu e) mpa))) ∧
  (Aac.aac_send e aac = Ok (send_seq e (Aac.aac_packets (sink_mtu e) aac)) ∧
   concat (second_vec <$> Aac.aac_packets (sink_mtu e) aac) = Aac.aac_data aac ∧
   ∀ k p, Aac.aac_packets (sink_mtu e) aac !! k = Some p →
     pk_marker p = bool_decide (S k = length (Aac.aac_packets (sink_mtu e) aac))) ∧
  (G726.g726_send e g = Ok (send_seq e (G726.g726_packets (sink_mtu e) g)) ∧
   concat (only_vec <$> G726.g726_packets (sink_mtu e) g) = G726.g726_data g) ∧
  (Adpcm.adpcm_send e ad = Ok (send_seq e (Adpcm.adpcm_packets (sink_mtu e) ad)) ∧
   concat (only_vec <$> Adpcm.adpcm_packets (sink_mtu e) ad) = Adpcm.adpcm_data ad).
Proof.
  intros Hm Hg Hb.
  assert (clip_ok Mpa.mpa_clip (sink_mtu e)) as Hc by (apply (clip_min_ok (λ m, m)); lia).
  assert (clip_ok (G726.g726_clip g) (sink_mtu e)) as Hcg.
  { intros s i rest Hr. unfold G726.g726_clip. rewrite u32_small by lia.
    rewrite Z.quot_div_nonneg by lia. case_decide; [|lia].
    assert (1 ≤ sink_mtu e `div` G726.u32Bitrate_kbps g); [|nia].
    apply Z.div_le_lower_bound; lia. }
  split; [|split; [|split]].
  - destruct (plain_send Mpa.mpa_clip (Mpa.mpa_pkt mpa) (λ s, s) e (Mpa.mpa_data mpa) tt second_vec Hc)
      as [H1 H2]; [done|]. split; [done|]. split; [done|].
    intros k p. by apply plain_marker.
  - destruct (plain_send Aac.aac_clip (Aac.aac_pkt aac) (λ s, s) e (Aac.aac_data aac) tt second_vec Hc)
      as [H1 H2]; [done|]. split; [done|]. split; [done|].
    intros k p. by apply plain_marker.
  - unfold G726.g726_send. rewrite decide_False by lia. rewrite decide_False by lia.
    by apply plain_send.
  - by apply plain_send.
Qed.

(** Packets without the P bit are joined as they are. *)
Lemma h263_depay_cont out fuel m len i :
  let pkts := frags H263.h263_clip (H263.h263_pkt out) (λ _, 0) fuel m len 0 i in
  H263.h263_depay pkts = concat (second_vec <$> pkts).
Proof.
  revert i. induction fuel as [|fuel IH]; intros i; simpl; case_decide; try done.
  unfold H263.h263_depay in *. rewrite fmap_cons, concat_cons, IH. simpl.
  by rewrite app_nil_r.
Qed.

(** An H.263 client gets the frame back: the packets of a frame that starts
    with the two zero bytes of its start code, read with their P bits, are the
    frame. *)
Lemma h263_roundtrip {E} `{RtpSink E} (e : E) (out : H263.rtp_h263) body :
  0 < sink_mtu e → body ≠ [] →
  let out' := fst (H263.h263_process_frame out (0 :: 0 :: body)) in
  H263.h263_send e out' = Ok (send_seq e (H263.h263_packets (sink_mtu e) out')) ∧
  H263.h263_depay (H263.h263_packets (sink_mtu e) out') = 0 :: 0 :: body.
Proof.
  intros Hm Hne out'.
  assert (clip_ok H263.h263_clip (sink_mtu e)) as Hc by (apply (clip_min_ok (λ m, m)); lia).
  destruct (plain_send H263.h263_clip (H263.h263_pkt out') (λ _, 0) e (H263.h263_data out') 4 second_vec Hc)
    as [H1 H2]; [done|]. split; [done|]. clear H1. revert H2.
  unfold H263.h263_packets. change (H263.h263_data out') with body.
  destruct body as [|b body]; [done|]. cbn [length frags].
  rewrite decide_True by (rewrite zlen_cons; pose proof (zlen_nonneg body); lia).
  set (m := sink_mtu e) in *. set (pk := H263.h263_pkt out').
  rewrite fmap_cons, concat_cons. fold_fmap.
  rewrite <- (h263_depay_cont out'). fold pk. unfold H263.h263_depay.
  rewrite fmap_cons, concat_cons. intros H2.
  etrans; [|apply (f_equal (λ l, 0 :: 0 :: l)), H2]. simpl. by rewrite app_nil_r.
Qed.


Import Mpa Aac G726 Adpcm.

(** The counters of the frame clocks never stand still. *)
Lemma frame_clock_advances last frames :
  0 ≤ last < 18446744073709551615 →
  last < (if decide (frames ≤ last) then u64 (last + 1) else frames).
Proof. intros Hl. case_decide; [|lia]. unfold u64. rewrite Z.mod_small; lia. Qed.

(** The frame clocks of AAC, G.726 and ADPCM are strictly monotone: whatever
    the clock says (it may stand still or go back), each processed frame gets
    a frame number greater than the one before, and the RTP timestamp is that
    number times the samples per frame. *)
Lemma audio_frames_advance (aac : rtp_aac) (g : rtp_g726) (ad ad' : rtp_adpcm) data ts ms r :
  0 ≤ Aac.last_frame aac < 18446744073709551615 →
  0 ≤ G726.last_frame g < 18446744073709551615 → u16 (u32SamplePerBlock g) ≠ 0 →
  0 ≤ Adpcm.last_frame ad < 18446744073709551615 →
  adpcm_process_frame ad data ms = Ok (ad', r) →
  let aac' := fst (aac_process_frame aac data ts) in
  let g' := fst (g726_process_frame g data ts) in
  (Aac.last_frame aac < Aac.last_frame aac' ∧
   Aac.timestamp aac' = u32 (Aac.last_frame aac' * 1024)) ∧
  (G726.last_frame g < G726.last_frame g' ∧
   G726.timestamp g' = u32 (G726.last_frame g' * u16 (u32SamplePerBlock g))) ∧
  (Adpcm.last_frame ad < Adpcm.last_frame ad' ∧
   ∃ spb, 0 < spb < 65536 ∧ Adpcm.timestamp ad' = u32 (Adpcm.last_frame ad' * spb)).
Proof.
  intros Ha Hg Hn Hd Had. split; [|split].
  - split; [by apply frame_clock_advances|done].
  - unfold g726_process_frame. rewrite decide_False by done. simpl.
    split; [by apply frame_clock_advances|done].
  - unfold adpcm_process_frame in Had. case_decide; [done|]. case_decide as Hz; [done|].
    injection Had as <- <-. split; [by apply frame_clock_advances|]. eexists.
    split; [|done]. set (x := u16 _) in *. pose proof (u16_range (u16 ((zlen data `quot` 4) `quot` Adpcm.channels ad - 1) * 8 * Adpcm.channels ad)).
    unfold x in *. lia.
Qed.

(** The MPEG audio packetizer indexes its three sampling rates with a
    two-bit field: it reads past the table exactly for the reserved value 3 of
    a frame header, which it does not reject. *)
Lemma mpa_reserved_rate_overruns (out : rtp_mpa) data ts b :
  data !! 2%nat = Some b → 0 ≤ b →
  (mpa_process_frame out (Some (data, ts)) = Fault OutOfBounds ↔ (b `div` 4) `mod` 4 = 3) ∧
  ((b `div` 4) `mod` 4 ≠ 3 → ∃ r, r ∈ samrate_tab ∧
     mpa_process_frame out (Some (data, ts)) = Ok (mkMpa data (103680000 `quot` r) ts, 1)).
Proof.
  intros Hb Hp. unfold mpa_process_frame.
  assert (rd data 2 = Ok b) as -> by (unfold rd; simpl; by change (Z.to_nat 2) with 2%nat; rewrite Hb).
  simpl. assert (Z.land (Z.shiftr b 2) 3 = (b `div` 4) `mod` 4) as ->.
  { change 3 with (Z.ones 2). by rewrite Z.land_ones, Z.shiftr_div_pow2 by lia. }
  set (q := (b `div` 4) `mod` 4). assert (0 ≤ q < 4) by (apply Z.mod_pos_bound; lia).
  assert (q = 0 ∨ q = 1 ∨ q = 2 ∨ q = 3) as Hq by lia.
  destruct Hq as [->|[->|[->| ->]]]; unfold rd; simpl; (split; [split; [done|lia || done]|]);
    try done; intros _; eexists; (split; [|reflexivity]); unfold samrate_tab;
    rewrite !elem_of_cons; tauto.
Qed.

(** ** Witnesses *)

Definition wit_raw : rtp_rawaudio := mkRaw [1; 2; 3; 4; 5; 6; 7; 8; 9; 10] FORMAT_PCM 2 1 8000 4294967295.

Lemma rawaudio_send_packets_witness :
  rawaudio_packets 5 wit_raw =
    [mkPkt [[1; 2; 3; 4]] 4294967295 false; mkPkt [[5; 6; 7; 8]] 1 false; mkPkt [[9; 10]] 3 false] ∧
  rawaudio_send (mkRec 5 []) wit_raw = Ok (send_seq (mkRec 5 []) (rawaudio_packets 5 wit_raw)).
Proof.
  split; [vm_compute; reflexivity|].
  refine (proj1 (rawaudio_send_packets (mkRec 5 []) wit_raw _ _ _)); vm_compute; congruence.
Defined.

Lemma rawaudio_sdp_payload_witness :
  ∃ text rest, rawaudio_get_sdp (mkRaw [] FORMAT_ALAW 1 1 8000 0) 96 0 = Some text ∧
    text = $"m=audio " ++ fmt_d 0 ++ $" RTP/AVP " ++ fmt_d 8 ++ crlf ++ rest.
Proof.
  eexists.
  destruct (rawaudio_sdp_payload (mkRaw [] FORMAT_ALAW 1 1 8000 0) 96 0 _ eq_refl) as [rest Hr].
  exists rest. split; [reflexivity|exact Hr].
Defined.

Definition wit_aac : rtp_aac := mkAac [1; 2; 3; 4; 5] 1 8000 0 7.
Definition wit_g726 : rtp_g726 := mkG726 (replicate 40 9) 1 8000 0 7 160 16 2.
Definition wit_adpcm : rtp_adpcm := mkAdpcm [1; 2; 3] 1 8000 0 7.

Lemma audio_send_reassembles_witness :
  mpa_send (mkRec 20 []) (mkMpa [1; 2; 3] 0 0) =
    Ok (send_seq (mkRec 20 []) (mpa_packets 20 (mkMpa [1; 2; 3] 0 0))).
Proof.
  refine (proj1 (proj1 (audio_send_reassembles (mkRec 20 []) (mkMpa [1; 2; 3] 0 0)
    wit_aac wit_g726 wit_adpcm _ _ _))); vm_compute; repeat split; congruence.
Defined.

Lemma h263_roundtrip_witness :
  H263.h263_depay (H263.h263_packets 2 (fst (H263.h263_process_frame (H263.mkH263 [] 1 3003 0) [0; 0; 1; 2; 3]))) = [0; 0; 1; 2; 3].
Proof.
  refine (proj2 (h263_roundtrip (mkRec 2 []) (H263.mkH263 [] 1 3003 0) [1; 2; 3] _ _));
    [vm_compute; reflexivity|congruence].
Defined.

Lemma audio_frames_advance_witness :
  let aac' := fst (aac_process_frame wit_aac (replicate 12 1) 1024) in
  Aac.last_frame aac' = 8 ∧ Aac.last_frame wit_aac < Aac.last_frame aac'.
Proof.
  split; [vm_compute; reflexivity|].
  destruct (adpcm_process_frame wit_adpcm (replicate 12 1) 500) as [[ad' r]|] eqn:E;
    [|vm_compute in E; congruence].
  refine (proj1 (proj1 (audio_frames_advance wit_aac wit_g726 wit_adpcm ad' (replicate 12 1) 1024 500 r
    _ _ _ _ E))); vm_compute; repeat split; congruence.
Defined.

Lemma mpa_reserved_rate_overruns_witness :
  mpa_process_frame (mkMpa [] 0 0) (Some ([255; 251; 156; 0], 0)) = Fault OutOfBounds.
Proof.
  refine (proj2 (proj1 (mpa_reserved_rate_overruns (mkMpa [] 0 0) [255; 251; 156; 0] 0 156 _ _)) _);
    vm_compute; congruence.
Defined.

(** ** Descriptions and packets *)

(** The media line of an ADPCM track names the payload type of its packets. The
    rtpmap line names the type that was offered, so that it describes a type the
    track does not use. *)
Lemma adpcm_sdp_payload out payload port text :
  Adpcm.adpcm_get_sdp out payload port = Some text →
  text = RawAudio.m_line port (Adpcm.adpcm_get_payload out payload) ++
    $"a=rtpmap:" ++ fmt_d payload ++ $" DVI4/" ++ fmt_d (Adpcm.rate out) ++ $"/" ++ fmt_d (Adpcm.channels out) ++ crlf ∧
  Adpcm.adpcm_get_payload out payload ∈ [5; 6; 16; 17].
Proof.
  unfold Adpcm.adpcm_get_sdp, Adpcm.adpcm_get_payload. intros H.
  repeat (case_decide as Hc; [destruct Hc as (_ & ->); injection H as <-; split; [done|closed_nonzero]|clear Hc]). done.
Qed.

(** The configuration is found when it is there at one of the first 29 tries, and
    only then. *)
Lemma import_loop_spec cnt answers : ∀ i,
  G726.import_loop (S cnt) answers i = snd <$> list_find (λ _, True) (omap answers (seq i cnt)).
Proof.
  induction cnt as [|cnt IH]; intros i; [done|]. remember (S cnt) as n. cbn [G726.import_loop]. subst n. rewrite decide_False by done.
  rewrite <- cons_seq. cbn [omap list_omap]. destruct (answers i) as [c|]; [done|]. apply IH.
Qed.

Lemma import_found answers i c :
  (i < 29)%nat → answers i = Some c → (∀ j, (j < i)%nat → answers j = None) → G726.ImportG726EncConfig answers = Some c.
Proof.
  intros Hi Hc Hj. unfold G726.ImportG726EncConfig. rewrite (import_loop_spec 29).
  replace 29%nat with (i + S (28 - i))%nat by lia. rewrite seq_app, <- cons_seq, omap_app. cbn [omap list_omap]. rewrite Nat.add_0_l, Hc.
  assert (omap answers (seq 0 i) = []) as ->; [|done].
  assert (∀ l, (∀ j, j ∈ l → answers j = None) → omap answers l = []) as Hom.
  { induction l as [|j l IHl]; intros Hl; [done|]. cbn. rewrite Hl by by left. apply IHl. intros k Hk. apply Hl. by right. }
  apply Hom. intros j Hjs%elem_of_seq. apply Hj. lia.
Qed.

(** An answer at the 30th try comes too late: the count is tested first. *)
Lemma last_try_lost c : G726.ImportG726EncConfig (λ i, if decide (i = 29)%nat then Some c else None) = None.
Proof. reflexivity. Qed.
