(* ===== verification/RtpJpeg.v ===== *)
(** * RtpJpeg: JPEG frames as RTP packets

    Models rtp-jpeg.c of src/sources/applications/RTSPServer/src, the video path
    of this build: the walk over the segments of a JPEG file in
    [jpeg_process_frame] and the RFC 2435 packets of [jpeg_send]. Pointers into
    the frame buffer are offsets into it; the buffer [fd] may be longer than the
    frame ([flen] is [f->length]). *)

From stdpp Require Import prelude gmap strings pretty.
From S2P Require Import Prelude Rtp RtpMedia.

Local Open Scope c_scope.

(** ** Data *)

Record rtp_jpeg := mkJpeg {
  type : Z;
  width : Z;
  height : Z;
  luma_table : Z;
  chroma_table : Z;
  quant : list (option Z);
  scan_data : Z;
  scan_data_len : Z;
  init_done : Z;
  ts_incr : Z;
  timestamp : Z;
  bHasDRI : bool;
  DRI : Z }.

Definition set_quant (o : rtp_jpeg) (q : list (option Z)) : rtp_jpeg :=
  mkJpeg (type o) (width o) (height o) (luma_table o) (chroma_table o) q (scan_data o)
    (scan_data_len o) (init_done o) (ts_incr o) (timestamp o) (bHasDRI o) (DRI o).
Definition set_dri (o : rtp_jpeg) (b : bool) (v : Z) : rtp_jpeg :=
  mkJpeg (type o) (width o) (height o) (luma_table o) (chroma_table o) (quant o) (scan_data o)
    (scan_data_len o) (init_done o) (ts_incr o) (timestamp o) b v.
Definition set_size (o : rtp_jpeg) (w h : Z) : rtp_jpeg :=
  mkJpeg (type o) w h (luma_table o) (chroma_table o) (quant o) (scan_data o)
    (scan_data_len o) (init_done o) (ts_incr o) (timestamp o) (bHasDRI o) (DRI o).
Definition set_luma (o : rtp_jpeg) (ty t : Z) : rtp_jpeg :=
  mkJpeg ty (width o) (height o) t (chroma_table o) (quant o) (scan_data o)
    (scan_data_len o) (init_done o) (ts_incr o) (timestamp o) (bHasDRI o) (DRI o).
Definition set_chroma (o : rtp_jpeg) (t : Z) : rtp_jpeg :=
  mkJpeg (type o) (width o) (height o) (luma_table o) t (quant o) (scan_data o)
    (scan_data_len o) (init_done o) (ts_incr o) (timestamp o) (bHasDRI o) (DRI o).
Definition set_scan (o : rtp_jpeg) (p len done ts : Z) : rtp_jpeg :=
  mkJpeg (type o) (width o) (height o) (luma_table o) (chroma_table o) (quant o) p
    len done (ts_incr o) ts (bHasDRI o) (DRI o).

(** The error exits of [jpeg_process_frame]. *)
Definition no_scan (o : rtp_jpeg) : rtp_jpeg * Z :=
  (set_scan o (scan_data o) 0 (init_done o) (timestamp o), 0).

(** The fields malloc leaves unset are taken from [junk]. *)
Definition new_rtp_media_jpeg_stream (junk : rtp_jpeg) (fincr fbase : Z) : res rtp_jpeg :=
  if decide (fbase = 0) then Fault DivByZero else
  Ok (mkJpeg (type junk) (width junk) (height junk) (luma_table junk) (chroma_table junk)
        (quant junk) (scan_data junk) (scan_data_len junk) 0 ((90000 * fincr) `quot` fbase) 0
        (bHasDRI junk) (DRI junk)).

(** ** Parsing *)

Section Parse.
Context (fd : list Z).

(** [d] is the offset of the segment's payload in the frame. *)
Fixpoint parse_DQT (fuel : nat) (out : rtp_jpeg) (d len i : Z) : res (rtp_jpeg * Z) :=
  if decide (i < len) then
    match fuel with
    | O => Fault OutOfFuel
    | S fuel =>
        b ← rd fd (d + i);
        if decide (Z.land b 240 ≠ 0) then Ok (out, -1) else
        q ← wr (quant out) (Z.land b 15) (Some (d + i + 1));
        parse_DQT fuel (set_quant out q) d len (i + 65)
    end
  else Ok (out, 0).

Definition parse_DRI (out : rtp_jpeg) (d : Z) : res (rtp_jpeg * Z) :=
  a ← rd fd d; b ← rd fd (d + 1);
  Ok (set_dri out true (GET_16 a b), 0).

Definition sof_component (out : rtp_jpeg) (id samp t : Z) : rtp_jpeg * Z :=
  if decide (id = 1) then
    if decide (samp = 17) then (set_luma out 0 t, 0)
    else if decide (samp = 34) then (set_luma out 1 t, 0)
    else if decide (samp = 33) then (set_luma out 0 t, 0)
    else (out, -1)
  else if decide (id = 2 ∨ id = 3) then
    if decide (samp ≠ 17) then (out, -1)
    else if decide (chroma_table out < 0) then (set_chroma out t, 0)
    else if decide (chroma_table out ≠ t) then (out, -1)
    else (out, 0)
  else (out, -1).

Fixpoint sof_components (out : rtp_jpeg) (d : Z) (cs : list Z) : res (rtp_jpeg * Z) :=
  match cs with
  | [] => Ok (out, 0)
  | c :: cs =>
      t ← rd fd (d + c + 2);
      undef ← (if decide (16 ≤ t) then Ok true
               else q ← rd (quant out) t; Ok (bool_decide (q = None)));
      if (undef : bool) then Ok (out, -1) else
      id ← rd fd (d + c); samp ← rd fd (d + c + 1);
      let '(out, r) := sof_component out id samp t in
      if decide (r < 0) then Ok (out, r) else sof_components out d cs
  end.

Definition parse_SOF (out : rtp_jpeg) (d : Z) : res (rtp_jpeg * Z) :=
  let out := set_chroma out (-1) in
  p ← rd fd d;
  if decide (p ≠ 8) then Ok (out, -1) else
  h1 ← rd fd (d + 1); h0 ← rd fd (d + 2);
  w1 ← rd fd (d + 3); w0 ← rd fd (d + 4);
  let h := GET_16 h1 h0 in
  let w := GET_16 w1 w0 in
  let out := set_size out w h in
  if decide (Z.land h 7 ≠ 0 ∨ Z.land w 7 ≠ 0) then Ok (out, -1) else
  let out := set_size out (Z.shiftr w 3) (Z.shiftr h 3) in
  n ← rd fd (d + 5);
  if decide (n ≠ 3) then Ok (out, -1) else
  sof_components out d [6; 9; 12].

(** One segment other than SOS: what the switch does. [init_done] only guards
    [parse_DHT], which does nothing. *)
Definition jpeg_segment (out : rtp_jpeg) (mk d blen : Z) : res (rtp_jpeg * Z) :=
  if decide (mk = 219) then parse_DQT (Z.to_nat (blen - 2)) out d (blen - 2) 0
  else if decide (mk = 192) then parse_SOF out d
  else if decide (mk = 221) then parse_DRI out d
  else Ok (out, 0).

Definition segment_len (mk i : Z) : res Z :=
  if decide (mk = 216) then Ok 0
  else a ← rd fd (i + 2); b ← rd fd (i + 3); Ok (GET_16 a b).

(** [ms] is [utils_get_ms_time()]. *)
Fixpoint jpeg_loop (fuel : nat) (flen ms : Z) (out : rtp_jpeg) (i : Z) : res (rtp_jpeg * Z) :=
  if decide (i < flen) then
    match fuel with
    | O => Fault OutOfFuel
    | S fuel =>
        b0 ← rd fd i;
        if decide (b0 ≠ 255) then Ok (no_scan out) else
        mk ← rd fd (i + 1);
        blen ← segment_len mk i;
        if decide (mk = 218) then
          Ok (set_scan out (i + 2 + blen) (flen - i - 2 - blen) 1 (u32 (ms * 90)), 1)
        else
          '(out', r) ← jpeg_segment out mk (i + 4) blen;
          if decide (r < 0) then Ok (no_scan out')
          else jpeg_loop fuel flen ms out' (i + (blen + 2))
    end
  else Ok (no_scan out).

Definition jpeg_process_frame (flen ms : Z) (out : rtp_jpeg) : res (rtp_jpeg * Z) :=
  let out := set_quant (set_dri out false (DRI out)) (replicate 16 None) in
  jpeg_loop (Z.to_nat flen) flen ms out 0.

End Parse.

(** ** Sending *)

Definition jpeg_get_sdp (port : Z) : list Z :=
  $"m=video " ++ fmt_d port ++ $" RTP/AVP " ++ fmt_d 26 ++ crlf
  ++ $"a=rtpmap:" ++ fmt_d 26 ++ $" JPEG/90000" ++ crlf.
Definition jpeg_get_payload (payload : Z) : Z := 26.

(** The 64 bytes a table pointer points to. *)
Definition table (fd : list Z) (q : option Z) : res (list Z) :=
  match q with
  | None => Fault NullDeref
  | Some p => if decide (0 ≤ p ∧ p + 64 ≤ zlen fd) then Ok (slice fd p 64) else Fault OutOfBounds
  end.

Definition vhdr (out : rtp_jpeg) (i : Z) : list Z :=
  [0; u8 (Z.shiftr i 16); Z.land (Z.shiftr i 8) 255; Z.land i 255;
   u8 (if bHasDRI out then type out + 64 else type out); 255; u8 (width out); u8 (height out)].
Definition rhdr (out : rtp_jpeg) : list Z := PUT_16 (DRI out) ++ [255; 255].
Definition qhdr : list Z := [0; 0] ++ PUT_16 128.

(** The state of the loop is whether the packet is the first: only that one has
    the tables, and [hdr_len] drops to 8 after it. *)
Definition jpeg_hdr_len (out : rtp_jpeg) (first : bool) : Z :=
  if first then 8 + (if bHasDRI out then 4 else 0) + 4 + 64 + 64 else 8.

Definition jpeg_clip (out : rtp_jpeg) (mtu : Z) (first : bool) (_ rest : Z) : Z :=
  if decide (rest > mtu - jpeg_hdr_len out first) then mtu - jpeg_hdr_len out first else rest.

Definition jpeg_hdrs (out : rtp_jpeg) (lq cq : list Z) (first : bool) (i : Z) : list (list Z) :=
  [vhdr out i] ++ (if bHasDRI out then [rhdr out] else [])
  ++ (if first then [qhdr; lq; cq] else []).

Definition jpeg_pkt (fd : list Z) (out : rtp_jpeg) (lq cq : list Z) (first : bool) (i plen : Z) : packet :=
  mkPkt (jpeg_hdrs out lq cq first i ++ [slice fd (scan_data out + i) plen]) (timestamp out)
    (bool_decide (plen + i = scan_data_len out)).

Definition jpeg_send {E} `{RtpSink E} (fd : list Z) (e : E) (out : rtp_jpeg) : res (option E) :=
  lp ← rd (quant out) (luma_table out);
  cp ← rd (quant out) (chroma_table out);
  if decide (0 < scan_data_len out) then
    lq ← table fd lp; cq ← table fd cp;
    frag_loop (jpeg_clip out) (jpeg_pkt fd out lq cq) (λ _, false)
      (Z.to_nat (scan_data_len out)) (scan_data_len out) e true 0
  else Ok (Some e).

Definition jpeg_packets (mtu : Z) (fd : list Z) (out : rtp_jpeg) (lq cq : list Z) : list packet :=
  frags (jpeg_clip out) (jpeg_pkt fd out lq cq) (λ _, false) (Z.to_nat (scan_data_len out)) mtu
    (scan_data_len out) true 0.

(** ** The receiver of RFC 2435 *)

Record jpeg_frame := mkFrame {
  jf_type : Z; jf_w : Z; jf_h : Z; jf_dri : option Z; jf_tables : list Z; jf_scan : list Z }.

(** One payload: the main header, the restart header of types 64 to 127, the
    tables of a first packet with Q at least 128, the scan data. *)
Definition jpeg_parse (p : list Z) : option (Z * jpeg_frame) :=
  match p with
  | _ :: o2 :: o1 :: o0 :: ty :: q :: w :: h :: rest =>
      let off := o2 * 65536 + o1 * 256 + o0 in
      let '(dri, rest) :=
        if decide (64 ≤ ty) then
          match rest with
          | a :: b :: _ :: _ :: rest => (Some (GET_16 a b), rest)
          | _ => (None, [])
          end
        else (None, rest) in
      let '(tabs, rest) :=
        if decide (off = 0 ∧ 128 ≤ q) then
          match rest with
          | _ :: _ :: a :: b :: rest => (take (Z.to_nat (GET_16 a b)) rest, drop (Z.to_nat (GET_16 a b)) rest)
          | _ => ([], [])
          end
        else ([], rest) in
      Some (off, mkFrame (Z.land ty 63) w h dri tabs rest)
  | _ => None
  end.

(** In-order reassembly: each fragment must start where the one before ended. *)
Fixpoint jpeg_join (f : jpeg_frame) (l : list packet) : option jpeg_frame :=
  match l with
  | [] => Some f
  | p :: l =>
      match jpeg_parse (concat (pk_v p)) with
      | Some (off, g) =>
          if decide (off = zlen (jf_scan f)) then
            jpeg_join (mkFrame (jf_type g) (jf_w g) (jf_h g) (jf_dri g) (jf_tables f ++ jf_tables g)
                         (jf_scan f ++ jf_scan g)) l
          else None
      | None => None
      end
  end.
Definition jpeg_depay (l : list packet) : option jpeg_frame :=
  jpeg_join (mkFrame 0 0 0 None [] []) l.

(** What the packetizer holds after a frame was processed. *)
Definition jpeg_held (fd : list Z) (out : rtp_jpeg) (lq cq : list Z) : jpeg_frame :=
  mkFrame (type out) (u8 (width out)) (u8 (height out))
    (if bHasDRI out then Some (DRI out) else None) (lq ++ cq)
    (slice fd (scan_data out) (scan_data_len out)).

(** A state from which a frame can be sent. *)
Record sendable (fd : list Z) (out : rtp_jpeg) (lq cq : list Z) : Prop := {
  sd_type : 0 ≤ type out < 64;
  sd_dri : bHasDRI out = true → 0 ≤ DRI out < 65536;
  sd_luma : ∃ q, rd (quant out) (luma_table out) = Ok q ∧ table fd q = Ok lq;
  sd_chroma : ∃ q, rd (quant out) (chroma_table out) = Ok q ∧ table fd q = Ok cq;
  sd_scan : 0 ≤ scan_data out;
  sd_len : 0 < scan_data_len out < 16777216;
  sd_end : scan_data out + scan_data_len out ≤ zlen fd }.

Lemma table_len fd q t : table fd q = Ok t → length t = 64%nat.
Proof.
  unfold table. destruct q; [|done]. case_decide; [|done]. intros [= <-].
  unfold slice. rewrite length_take, length_drop. unfold zlen in *. lia.
Qed.

(** Parsing the packet at offset [i]. *)
Lemma jpeg_parse_pkt fd out lq cq first i plen :
  sendable fd out lq cq → 0 ≤ i < 16777216 → first = bool_decide (i = 0) →
  jpeg_parse (concat (pk_v (jpeg_pkt fd out lq cq first i plen))) =
  Some (i, mkFrame (type out) (u8 (width out)) (u8 (height out))
             (if bHasDRI out then Some (DRI out) else None)
             (if first then lq ++ cq else []) (slice fd (scan_data out + i) plen)).
Proof.
  intros Hs Hi ->.
  destruct Hs as [Hty Hdri (q1 & _ & Hl%table_len) (q2 & _ & Hc%table_len) _ _ _].
  assert (u8 (Z.shiftr i 16) * 65536 + Z.land (Z.shiftr i 8) 255 * 256 + Z.land i 255 = i) as Hoff.
  { unfold u8. rewrite !land_ff, !shiftr_div by lia. change (2 ^ 16) with 65536. change (2^8) with 256. zdm. }
  assert (bHasDRI out = true →
    GET_16 (Z.land (Z.shiftr (DRI out) 8) 255) (Z.land (DRI out) 255) = DRI out) as Hd.
  { intros Hb. specialize (Hdri Hb). rewrite (GET_PUT_16 (DRI out)). unfold u16. apply Z.mod_small. lia. }
  assert (∀ ty, ty = type out ∨ ty = type out + 64 → Z.land (u8 ty) 63 = type out) as Hland.
  { intros ty Hty'. change 63 with (Z.ones 6). rewrite Z.land_ones by lia. unfold u8.
    change (2 ^ 6) with 64. zdm. }
  unfold jpeg_parse, jpeg_pkt, jpeg_hdrs. cbn [pk_v].
  rewrite concat_app. cbn [app concat]. unfold vhdr. cbn [app]. rewrite Hoff.
  destruct (bHasDRI out) eqn:EB; cbn [app concat].
  - rewrite decide_True by (unfold u8; rewrite Z.mod_small; lia).
    unfold rhdr, PUT_16 at 1. cbn [app]. rewrite Hd, Hland by auto.
    case_bool_decide as E; cbn [app concat].
    + rewrite decide_True by lia. unfold qhdr. cbn [app PUT_16].
      rewrite !app_nil_r, <- !(assoc_L (++)). change (Z.to_nat (GET_16 _ _)) with 128%nat.
      rewrite (assoc_L (++)), take_app_length', drop_app_length' by (rewrite length_app; lia). done.
    + rewrite decide_False by lia. by rewrite app_nil_r.
  - rewrite decide_False by (unfold u8; rewrite Z.mod_small; lia).
    rewrite Hland by auto. case_bool_decide as E; cbn [app concat].
    + rewrite decide_True by lia. unfold qhdr. cbn [app PUT_16].
      rewrite !app_nil_r, <- !(assoc_L (++)). change (Z.to_nat (GET_16 _ _)) with 128%nat.
      rewrite (assoc_L (++)), take_app_length', drop_app_length' by (rewrite length_app; lia). done.
    + rewrite decide_False by lia. by rewrite app_nil_r.
Qed.

Lemma jpeg_clip_ok out mtu : jpeg_hdr_len out true < mtu → clip_ok (jpeg_clip out) mtu.
Proof.
  intros Hm s i rest Hr. unfold jpeg_clip.
  assert (jpeg_hdr_len out s ≤ jpeg_hdr_len out true) by (unfold jpeg_hdr_len; destruct s, (bHasDRI out); lia).
  case_decide; lia.
Qed.

(** The receiver, having joined the packets up to [i], joins the rest. *)
Lemma jpeg_join_rest fd out lq cq mtu fuel i f :
  sendable fd out lq cq → jpeg_hdr_len out true < mtu → 0 ≤ i ≤ scan_data_len out →
  (Z.to_nat (scan_data_len out - i) <= fuel)%nat →
  jf_scan f = slice fd (scan_data out) i → jf_tables f = (if decide (i = 0) then [] else lq ++ cq) →
  (0 < i → f = mkFrame (jf_type (jpeg_held fd out lq cq)) (jf_w (jpeg_held fd out lq cq))
     (jf_h (jpeg_held fd out lq cq)) (jf_dri (jpeg_held fd out lq cq)) (lq ++ cq) (slice fd (scan_data out) i)) →
  jpeg_join f (frags (jpeg_clip out) (jpeg_pkt fd out lq cq) (λ _, false) fuel mtu
                 (scan_data_len out) (bool_decide (i = 0)) i) = Some (jpeg_held fd out lq cq).
Proof.
  intros Hs Hm. revert i f. induction fuel as [|fuel IH]; intros i f Hi Hf Hsc Ht Hfr; simpl;
    destruct (sd_len _ _ _ _ Hs) as [Hl0 Hl1]; pose proof (sd_scan _ _ _ _ Hs); pose proof (sd_end _ _ _ _ Hs);
    destruct (decide (i < scan_data_len out)) as [Hlt|Hlt].
  - lia.
  - assert (i = scan_data_len out) as -> by lia. rewrite Hfr by lia. done.
  - pose proof (jpeg_clip_ok out mtu Hm (bool_decide (i = 0)) i (scan_data_len out - i) ltac:(lia)) as Hp.
    set (plen := jpeg_clip _ _ _ _ _) in *. cbn [jpeg_join].
    rewrite jpeg_parse_pkt by (done || lia).
    rewrite decide_True by (rewrite Hsc, zlen_slice; lia). cbn [jf_tables jf_scan jf_type jf_w jf_h jf_dri].
    assert (jf_tables f ++ (if bool_decide (i = 0) then lq ++ cq else []) = lq ++ cq) as Htab.
    { rewrite Ht. destruct (decide (i = 0)); [by rewrite bool_decide_eq_true_2|].
      rewrite bool_decide_eq_false_2 by done. by rewrite app_nil_r. }
    rewrite Htab, Hsc, slice_app by lia.
    specialize (IH (i + plen)). rewrite (bool_decide_eq_false_2 (i + plen = 0)) in IH by lia.
    apply IH; cbn [jf_tables jf_scan]; [lia|lia|done|by rewrite decide_False by lia|done].
  - assert (i = scan_data_len out) as -> by lia. rewrite Hfr by lia. done.
Qed.

(** ** The walk over a JPEG file *)

Definition segment (mk : Z) (payload : list Z) : list Z :=
  [255; mk] ++ PUT_16 (zlen payload + 2) ++ payload.

Definition sof_payload (w h samp lt ct : Z) : list Z :=
  [8] ++ PUT_16 (8 * h) ++ PUT_16 (8 * w) ++ [3; 1; samp; lt; 2; 17; ct; 3; 17; ct].

(** The segments between SOI and SOS. A DQT segment has any number of 8-bit
    tables; [SegOther] is a segment that carries nothing the packetizer uses. *)
Inductive seg :=
  | SegDQT (ts : list (Z * list Z))
  | SegDRI (v : Z)
  | SegSOF (w h samp lt ct : Z)
  | SegOther (mk : Z) (payload : list Z).

Definition dqt_payload (ts : list (Z * list Z)) : list Z := concat ((λ '(t, q), t :: q) <$> ts).

Definition seg_bytes (s : seg) : list Z :=
  match s with
  | SegDQT ts => segment 219 (dqt_payload ts)
  | SegDRI v => segment 221 (PUT_16 v)
  | SegSOF w h samp lt ct => segment 192 (sof_payload w h samp lt ct)
  | SegOther mk p => segment mk p
  end.

(** A file: the segments come in any order. *)
Definition jpeg_file (segs : list seg) (sos scan : list Z) : list Z :=
  [255; 216] ++ concat (seg_bytes <$> segs) ++ segment 218 sos ++ scan.

Definition table_ok (tq : Z * list Z) : Prop := 0 ≤ tq.1 < 16 ∧ length tq.2 = 64%nat.

(** What can be written in each segment; sizes are in units of 8 pixels. *)
Definition seg_ok (s : seg) : Prop :=
  match s with
  | SegDQT ts => Forall table_ok ts ∧ zlen (dqt_payload ts) < 65534
  | SegDRI v => 0 ≤ v < 65536
  | SegSOF w h samp lt ct =>
      (0 ≤ w < 8192 ∧ 0 ≤ h < 8192) ∧ samp ∈ [17; 33; 34] ∧ 0 ≤ lt < 16 ∧ 0 ≤ ct < 16
  | SegOther mk p => mk ∉ [216; 218; 219; 192; 221] ∧ zlen p < 65534
  end.

(** What a decoder knows when it comes to the scan: the tables by number, a
    later definition replacing an earlier one, the restart interval and the frame
    header. A file has one frame header, after definitions of its tables. *)
Record decoded := mkDecoded {
  dc_tables : gmap Z (list Z);
  dc_dri : option Z;
  dc_frame : option (Z * Z * Z * Z * Z) }.

Definition define_tables (m : gmap Z (list Z)) (ts : list (Z * list Z)) : gmap Z (list Z) :=
  foldl (λ m '(t, q), <[t := q]> m) m ts.

Definition decode_seg (d : decoded) (s : seg) : option decoded :=
  match s with
  | SegDQT ts => Some (mkDecoded (define_tables (dc_tables d) ts) (dc_dri d) (dc_frame d))
  | SegDRI v => Some (mkDecoded (dc_tables d) (Some v) (dc_frame d))
  | SegSOF w h samp lt ct =>
      match dc_frame d, dc_tables d !! lt, dc_tables d !! ct with
      | None, Some _, Some _ => Some (mkDecoded (dc_tables d) (dc_dri d) (Some (w, h, samp, lt, ct)))
      | _, _, _ => None
      end
  | SegOther _ _ => Some d
  end.

Fixpoint decode_segs (d : decoded) (segs : list seg) : option decoded :=
  match segs with
  | [] => Some d
  | s :: segs => decode_seg d s ≫= λ d, decode_segs d segs
  end.

Section Walk.
Context (fd : list Z) (flen ms : Z).
Hypothesis (Hlen : flen ≤ zlen fd).

Definition walks (out : rtp_jpeg) (i : Z) (r : res (rtp_jpeg * Z)) : Prop :=
  ∀ fuel, (Z.to_nat (flen - i) <= fuel)%nat → jpeg_loop fd fuel flen ms out i = r.

Lemma segment_length mk p : zlen (segment mk p) = zlen p + 4.
Proof. unfold segment. rewrite !zlen_app. change (zlen (PUT_16 _)) with 2. change (zlen [255; mk]) with 2. lia. Qed.

Lemma segment_payload i mk p rest :
  at_off fd i (segment mk p ++ rest) → at_off fd (i + 4) (p ++ rest).
Proof.
  unfold segment. intros H. rewrite (assoc_L (++)), <- (assoc_L (++)) in H.
  apply at_off_app in H. exact H.
Qed.

Lemma segment_len_read i mk p rest :
  at_off fd i (segment mk p ++ rest) → mk ≠ 216 → zlen p < 65534 →
  rd fd i = Ok 255 ∧ rd fd (i + 1) = Ok mk ∧ segment_len fd mk i = Ok (zlen p + 2).
Proof.
  intros H Hmk Hp. split; [|split].
  - by rewrite (at_off_rd0 _ _ _ H).
  - by rewrite (at_off_rd _ _ _ 1 H).
  - unfold segment_len. rewrite decide_False by done.
    rewrite (at_off_rd _ _ _ 2 H), (at_off_rd _ _ _ 3 H) by lia. cbn [rd].
    pose proof (GET_PUT_16 (zlen p + 2)) as HG. simpl in HG. unfold rd. simpl. rewrite HG.
    unfold u16. rewrite Z.mod_small; [done|]. pose proof (zlen_nonneg p). lia.
Qed.

Lemma walks_segment out out' i mk p rest r :
  at_off fd i (segment mk p ++ rest) → i < flen → mk ≠ 216 → mk ≠ 218 → zlen p < 65534 →
  jpeg_segment fd out mk (i + 4) (zlen p + 2) = Ok (out', 0) →
  walks out' (i + zlen (segment mk p)) r → walks out i r.
Proof.
  intros H Hi H1 H2 Hp Hs Hw fuel Hf. pose proof (zlen_nonneg p).
  destruct (segment_len_read _ _ _ _ H H1 Hp) as (E1 & E2 & E3).
  destruct fuel as [|fuel]; [lia|]. cbn [jpeg_loop]. rewrite decide_True by done.
  rewrite E1. cbn. rewrite E2. cbn. rewrite E3. cbn.
  rewrite !decide_False by lia. rewrite Hs. cbn.
  rewrite segment_length in Hw.
  replace (i + (zlen p + 2 + 2)) with (i + (zlen p + 4)) by lia. apply Hw. lia.
Qed.

Lemma walks_SOI out rest r :
  at_off fd 0 ([255; 216] ++ rest) → 0 < flen → walks out 2 r → walks out 0 r.
Proof.
  intros H Hi Hw fuel Hf. destruct fuel as [|fuel]; [lia|]. cbn [jpeg_loop]. rewrite decide_True by done.
  rewrite (at_off_rd0 _ _ _ H). cbn. rewrite (at_off_rd _ _ _ 1 H) by lia. cbn.
  apply Hw. lia.
Qed.

Lemma walks_SOS out i p rest :
  at_off fd i (segment 218 p ++ rest) → i < flen → zlen p < 65534 →
  walks out i (Ok (set_scan out (i + zlen (segment 218 p)) (flen - i - zlen (segment 218 p)) 1 (u32 (ms * 90)), 1)).
Proof.
  intros H Hi Hp fuel Hf. rewrite segment_length.
  destruct (segment_len_read _ _ _ _ H ltac:(lia) Hp) as (E1 & E2 & E3).
  destruct fuel as [|fuel]; [lia|]. cbn [jpeg_loop]. rewrite decide_True by done.
  rewrite E1. cbn. rewrite E2. cbn. rewrite E3. cbn.
  rewrite decide_False, decide_True by lia. do 3 f_equal; lia.
Qed.

Lemma table_at i q rest :
  at_off fd i (q ++ rest) → length q = 64%nat → 0 ≤ i → table fd (Some i) = Ok q.
Proof.
  intros H Hq Hi. unfold table. pose proof (at_off_len _ _ _ H) as Hl. rewrite zlen_app in Hl.
  pose proof (zlen_nonneg rest). assert (zlen q = 64) as H64 by (unfold zlen; lia).
  rewrite decide_True by lia. rewrite <- H64. by rewrite (at_off_slice _ _ _ _ H).
Qed.

(** The table pointers point to the tables defined so far. *)
Definition points (m : gmap Z (list Z)) (qs : list (option Z)) : Prop :=
  length qs = 16%nat ∧
  ∀ t q, m !! t = Some q → 0 ≤ t < 16 ∧ ∃ p, rd qs t = Ok (Some p) ∧ table fd (Some p) = Ok q.

Lemma points_insert m qs t q p :
  points m qs → 0 ≤ t < 16 → table fd (Some p) = Ok q →
  points (<[t := q]> m) (<[Z.to_nat t := Some p]> qs).
Proof.
  intros [Hl Hp] Ht Hq. split; [by rewrite length_insert|]. intros t' q' [[<- <-]|[Hne H']]%lookup_insert_Some.
  - split; [done|]. exists p. split; [|done]. unfold rd. rewrite decide_False by lia.
    by rewrite list_lookup_insert_eq by lia.
  - destruct (Hp t' q' H') as (Ht' & p' & E & E'). split; [done|]. exists p'. split; [|done].
    revert E. unfold rd. rewrite !decide_False by lia. by rewrite list_lookup_insert_ne by lia.
Qed.

Lemma parse_DQT_tables ts : ∀ fuel out m d j rest,
  at_off fd (d + j) (dqt_payload ts ++ rest) → 0 ≤ d → 0 ≤ j → Forall table_ok ts →
  points m (quant out) → (length ts <= fuel)%nat →
  ∃ qs, parse_DQT fd fuel out d (j + zlen (dqt_payload ts)) j = Ok (set_quant out qs, 0) ∧
    points (define_tables m ts) qs.
Proof.
  induction ts as [|[t q] ts IH]; intros fuel out m d j rest H Hd Hj Hts Hpt Hf.
  - exists (quant out). split; [|done]. change (zlen (dqt_payload [])) with 0.
    destruct fuel; cbn [parse_DQT]; rewrite decide_False by lia; by destruct out.
  - apply Forall_cons in Hts as [[Ht Hq] Hts]. cbn [fst snd] in Ht, Hq.
    change (dqt_payload ((t, q) :: ts)) with ((t :: q) ++ dqt_payload ts) in *.
    destruct fuel as [|fuel]; [cbn in Hf; lia|]. cbn [parse_DQT].
    assert (zlen (t :: q) = 65) as L by (rewrite zlen_cons; unfold zlen; lia).
    rewrite zlen_app, L. pose proof (zlen_nonneg (dqt_payload ts)).
    rewrite decide_True by lia. rewrite <- (assoc_L (++)) in H.
    rewrite (at_off_rd0 _ _ _ H). cbn [app]. rewrite rd_head, res_bind_ok.
    assert (Z.land t 15 = t) as E by (change 15 with (Z.ones 4); rewrite Z.land_ones, Z.mod_small; lia).
    replace (Z.land t 240) with 0 by (rewrite <- E, <- Z.land_assoc; symmetry; apply Z.land_0_r).
    rewrite decide_False, E by lia.
    destruct Hpt as [Hl Hpt]. rewrite wr_ok, res_bind_ok by (unfold zlen; rewrite Hl; lia).
    pose proof (at_off_app _ _ [t] _ H) as Htab. change (zlen [t]) with 1 in Htab.
    apply at_off_app in H. rewrite L, <- Z.add_assoc in H.
    destruct (IH fuel (set_quant out (<[Z.to_nat t := Some (d + j + 1)]> (quant out)))
      (<[t := q]> m) d (j + 65) rest) as (qs & E1 & E2); try done; try lia.
    + apply points_insert; [done|done|]. eapply table_at; [exact Htab|done|lia].
    + cbn in Hf. lia.
    + exists qs. split; [|exact E2]. transitivity (parse_DQT fd fuel (set_quant out
        (<[Z.to_nat t := Some (d + j + 1)]> (quant out))) d (j + 65 + zlen (dqt_payload ts)) (j + 65));
        [f_equal; lia|exact E1].
Qed.

Lemma DQT_segment out m i ts rest :
  at_off fd i (segment 219 (dqt_payload ts) ++ rest) → 0 ≤ i → Forall table_ok ts → points m (quant out) →
  ∃ qs, jpeg_segment fd out 219 (i + 4) (zlen (dqt_payload ts) + 2) = Ok (set_quant out qs, 0) ∧
    points (define_tables m ts) qs.
Proof.
  intros H%segment_payload Hi Hts Hpt. unfold jpeg_segment. rewrite decide_True by done.
  rewrite Z.add_simpl_r. rewrite <- (Z.add_0_r (i + 4)) in H.
  apply (parse_DQT_tables ts _ out m (i + 4) 0 rest); try done; try lia.
  clear H. unfold zlen, dqt_payload. induction ts as [|[t q] ts IH]; cbn; [lia|].
  apply Forall_cons in Hts as [_ Hts]. specialize (IH Hts). rewrite length_app in *. cbn. lia.
Qed.

Lemma sof_step out out' d c cs t id samp p :
  rd fd (d + c + 2) = Ok t → 0 ≤ t < 16 → rd (quant out) t = Ok (Some p) →
  rd fd (d + c) = Ok id → rd fd (d + c + 1) = Ok samp → sof_component out id samp t = (out', 0) →
  sof_components fd out d (c :: cs) = sof_components fd out' d cs.
Proof.
  intros E1 Ht Ep E2 E3 Es. cbn [sof_components]. rewrite E1, res_bind_ok, decide_False by lia.
  rewrite Ep, !res_bind_ok, bool_decide_eq_false_2 by done.
  by rewrite E2, res_bind_ok, E3, res_bind_ok, Es.
Qed.

(** The part of a frame header before its components. *)
Definition sof_head (w h : Z) : list Z := [8] ++ PUT_16 (8 * h) ++ PUT_16 (8 * w) ++ [3].

Lemma parse_SOF_head out d w h comps :
  at_off fd d (sof_head w h ++ comps) → 0 ≤ w < 8192 → 0 ≤ h < 8192 →
  parse_SOF fd out d = sof_components fd (set_chroma (set_size out w h) (-1)) d [6; 9; 12].
Proof.
  intros H Hw Hh.
  assert (∀ x, 0 ≤ x < 8192 → GET_16 (Z.land (Z.shiftr (8 * x) 8) 255) (Z.land (8 * x) 255) = 8 * x) as HG.
  { intros x Hx. rewrite (GET_PUT_16 (8 * x)). unfold u16. apply Z.mod_small. lia. }
  assert (∀ x, 0 ≤ x → Z.land (8 * x) 7 = 0 ∧ Z.shiftr (8 * x) 3 = x) as H8.
  { intros x Hx. change 7 with (Z.ones 3). rewrite Z.land_ones, shiftr_div by lia. change (2 ^ 3) with 8. zdm. }
  destruct (H8 w) as [Hw1 Hw2]; [lia|]. destruct (H8 h) as [Hh1 Hh2]; [lia|].
  pose proof (at_off_rd0 _ _ _ H) as R0. pose proof (λ k x, at_off_read _ _ _ k x H) as R.
  unfold parse_SOF. rewrite R0. unfold sof_head at 1. cbn [app].
  rewrite rd_head, res_bind_ok, decide_False by lia.
  rewrite (R 1 _ ltac:(lia) eq_refl), res_bind_ok, (R 2 _ ltac:(lia) eq_refl), res_bind_ok.
  rewrite (R 3 _ ltac:(lia) eq_refl), res_bind_ok, (R 4 _ ltac:(lia) eq_refl), res_bind_ok.
  rewrite !HG, Hw1, Hh1, Hw2, Hh2 by lia. rewrite decide_False by lia.
  by rewrite (R 5 _ ltac:(lia) eq_refl), res_bind_ok, decide_False by lia.
Qed.

Lemma SOF_segment out i w h samp lt ct rest :
  at_off fd i (segment 192 (sof_payload w h samp lt ct) ++ rest) →
  0 ≤ w < 8192 → 0 ≤ h < 8192 → samp ∈ [17; 33; 34] → 0 ≤ lt < 16 → 0 ≤ ct < 16 →
  (∃ p, rd (quant out) lt = Ok (Some p)) → (∃ p, rd (quant out) ct = Ok (Some p)) →
  jpeg_segment fd out 192 (i + 4) (zlen (sof_payload w h samp lt ct) + 2) =
  Ok (set_chroma (set_luma (set_size out w h) (if decide (samp = 34) then 1 else 0) lt) ct, 0).
Proof.
  intros H%segment_payload Hw Hh Hs Hlt Hct [p1 Hp1] [p2 Hp2].
  unfold jpeg_segment. rewrite decide_False, decide_True by lia.
  rewrite (parse_SOF_head _ _ w h _ H) by done. pose proof (λ k x, at_off_read _ _ _ k x H) as R.
  set (o0 := set_chroma (set_size out w h) (-1)).
  set (o1 := set_luma o0 (if decide (samp = 34) then 1 else 0) lt).
  rewrite (sof_step o0 o1 (i + 4) 6 _ lt 1 samp p1), (sof_step o1 (set_chroma o1 ct) (i + 4) 9 _ ct 2 17 p2),
    (sof_step (set_chroma o1 ct) (set_chroma o1 ct) (i + 4) 12 _ ct 3 17 p2); try done;
    rewrite <- ?(Z.add_assoc (i + 4)); try (apply R; [lia|reflexivity]).
  - unfold sof_component. simpl. by rewrite decide_False, decide_False by lia.
  - unfold sof_component, o1. rewrite decide_True by done.
    rewrite !elem_of_cons, elem_of_nil in Hs. destruct Hs as [->|[->|[->|[]]]]; reflexivity.
Qed.

Lemma DRI_segment out i v rest :
  at_off fd i (segment 221 (PUT_16 v) ++ rest) → 0 ≤ v < 65536 →
  jpeg_segment fd out 221 (i + 4) (zlen (PUT_16 v) + 2) = Ok (set_dri out true v, 0).
Proof.
  intros H%segment_payload Hv. unfold jpeg_segment. rewrite !decide_False, decide_True by lia.
  unfold parse_DRI. rewrite (at_off_rd0 _ _ _ H), (at_off_rd _ _ _ 1 H) by lia.
  change (rd (PUT_16 v ++ rest) 0) with (Ok (Z.land (Z.shiftr v 8) 255)).
  change (rd (PUT_16 v ++ rest) 1) with (Ok (Z.land v 255)). rewrite !res_bind_ok, (GET_PUT_16 v).
  unfold u16. by rewrite Z.mod_small.
Qed.

(** The state of the packetizer agrees with what a decoder knows. *)
Record agrees (d : decoded) (out : rtp_jpeg) : Prop := {
  ag_tables : points (dc_tables d) (quant out);
  ag_dri : (if bHasDRI out then Some (DRI out) else None) = dc_dri d;
  ag_dri_range : bHasDRI out = true → 0 ≤ DRI out < 65536;
  ag_frame : match dc_frame d with
    | Some (w, h, samp, lt, ct) =>
        type out = (if decide (samp = 34) then 1 else 0) ∧ width out = w ∧ height out = h ∧
        luma_table out = lt ∧ chroma_table out = ct
    | None => True
    end }.

(** One segment: the walk goes on behind it, in a state that agrees. *)
Lemma walks_seg d d' out i s rest :
  agrees d out → seg_ok s → decode_seg d s = Some d' →
  at_off fd i (seg_bytes s ++ rest) → 0 ≤ i < flen →
  ∃ out', agrees d' out' ∧ ∀ r, walks out' (i + zlen (seg_bytes s)) r → walks out i r.
Proof.
  intros Ha Hs Hd H Hi. destruct s as [ts|v|w h samp lt ct|mk p]; cbn [seg_ok decode_seg seg_bytes] in *.
  - destruct Hs as [Hts Hl]. injection Hd as <-.
    destruct (DQT_segment out _ i ts rest H ltac:(lia) Hts (ag_tables _ _ Ha)) as (qs & E & Hpt).
    exists (set_quant out qs). split; [destruct Ha; by split|].
    intros r. eapply walks_segment; eauto; lia.
  - injection Hd as <-. exists (set_dri out true v). split; [destruct Ha; by split|].
    intros r. eapply walks_segment; [exact H|lia|lia|lia|unfold zlen; simpl; lia|by eapply DRI_segment].
  - destruct (dc_frame d); [done|]. destruct (dc_tables d !! lt) as [lq|] eqn:El; [|done].
    destruct (dc_tables d !! ct) as [cq|] eqn:Ec; [|done]. injection Hd as <-.
    destruct Hs as ([Hw Hh] & Hs & Hlt & Hct).
    destruct (proj2 (ag_tables _ _ Ha) _ _ El) as (_ & p1 & P1 & _).
    destruct (proj2 (ag_tables _ _ Ha) _ _ Ec) as (_ & p2 & P2 & _).
    eexists. split; cycle 1.
    + intros r. eapply walks_segment; [exact H|lia|lia|lia|unfold zlen; simpl; lia|].
      apply (SOF_segment _ _ _ _ _ _ _ _ H); eauto.
    + destruct Ha. by split.
  - destruct Hs as [Hmk Hp]. injection Hd as <-. exists out. split; [done|]. rewrite !not_elem_of_cons in Hmk.
    intros r. eapply walks_segment; [exact H|lia|lia|lia|done|].
    unfold jpeg_segment. by rewrite !decide_False by lia.
Qed.

Lemma walks_segs segs : ∀ d d' out i rest,
  agrees d out → Forall seg_ok segs → decode_segs d segs = Some d' →
  at_off fd i (concat (seg_bytes <$> segs) ++ rest) → 0 ≤ i →
  i + zlen (concat (seg_bytes <$> segs)) < flen →
  ∃ out', agrees d' out' ∧
    ∀ r, walks out' (i + zlen (concat (seg_bytes <$> segs))) r → walks out i r.
Proof.
  induction segs as [|s segs IH]; intros d d' out i rest Ha Hok Hd H Hi Hlt.
  - injection Hd as <-. exists out. split; [done|]. intros r. change (zlen _) with 0. by rewrite Z.add_0_r.
  - apply Forall_cons in Hok as [Hs Hok]. cbn [decode_segs] in Hd.
    destruct (decode_seg d s) as [d1|] eqn:E1; [|done]. cbn in Hd.
    rewrite fmap_cons, concat_cons in *. rewrite zlen_app in *. rewrite <- (assoc_L (++)) in H.
    pose proof (zlen_nonneg (concat (seg_bytes <$> segs))). pose proof (zlen_nonneg (seg_bytes s)).
    destruct (walks_seg _ _ _ _ _ _ Ha Hs E1 H ltac:(lia)) as (o1 & Ha1 & W1).
    destruct (IH d1 d' o1 (i + zlen (seg_bytes s)) rest) as (o2 & Ha2 & W2);
      [done|done|done|by apply at_off_app|lia|lia|].
    exists o2. split; [done|]. intros r Hw. apply W1, W2. by rewrite <- Z.add_assoc.
Qed.

End Walk.

(** The state behind the walk can be sent and holds the file. *)
Lemma held_after_walk fd d out w h samp lt ct lq cq scan isc ts :
  agrees fd d out → dc_frame d = Some (w, h, samp, lt, ct) →
  dc_tables d !! lt = Some lq → dc_tables d !! ct = Some cq →
  slice fd isc (zlen scan) = scan → 0 ≤ isc → 0 < zlen scan < 16777216 → isc + zlen scan ≤ zlen fd →
  let o := set_scan out isc (zlen scan) 1 ts in
  sendable fd o lq cq ∧ (width o = w ∧ height o = h) ∧
  jpeg_held fd o lq cq = mkFrame (if decide (samp = 34) then 1 else 0) (u8 w) (u8 h) (dc_dri d) (lq ++ cq) scan.
Proof.
  intros [[_ Hpt] Hdri Hdr Hfr] Ef El Ec Esc Hisc Hscan Hend o. rewrite Ef in Hfr.
  destruct Hfr as (E1 & E2 & E3 & E4 & E5).
  destruct (Hpt _ _ El) as (_ & p1 & P1 & T1). destruct (Hpt _ _ Ec) as (_ & p2 & P2 & T2).
  split; [|split; [done|]].
  - split; cbn [type DRI bHasDRI quant luma_table chroma_table scan_data scan_data_len set_scan o]; try lia; try done.
    + rewrite E1. case_decide; lia.
    + rewrite E4. eauto.
    + rewrite E5. eauto.
  - unfold jpeg_held. cbn [type DRI bHasDRI scan_data scan_data_len set_scan width height o].
    by rewrite E1, E2, E3, Hdri, Esc.
Qed.

(** C12. A camera frame is understood: take a JPEG file in a buffer that may be
    larger than the frame: SOI, then DQT segments with any number of 8-bit
    tables, DRI segments, segments with other markers and one baseline frame
    header (Y, Cb, Cr with 1x1, 2x1 or 2x2 luma sampling, one table for both
    chroma components, sides that are multiples of 8) in any order that defines
    the tables the frame header names before it, then SOS and a scan that is not
    empty and below 16 MB.
    [jpeg_process_frame] succeeds, and the packetizer then holds exactly the
    type, the size, the last restart interval, the last definitions of the two
    tables and the scan data, in a state from which they can be sent; the
    packets carry the low byte of each side in units of 8 pixels, which is the
    side itself up to 2040 pixels. *)
Theorem jpeg_process_frame_ok segs d w h samp lt ct lq cq sos scan spare ms out :
  Forall seg_ok segs → decode_segs (mkDecoded ∅ None None) segs = Some d →
  dc_frame d = Some (w, h, samp, lt, ct) →
  dc_tables d !! lt = Some lq → dc_tables d !! ct = Some cq →
  zlen sos < 65534 → 0 < zlen scan < 16777216 →
  let file := jpeg_file segs sos scan in
  let fd := file ++ spare in
  ∃ out', jpeg_process_frame fd (zlen file) ms out = Ok (out', 1) ∧ sendable fd out' lq cq ∧
    (width out' = w ∧ height out' = h) ∧
    jpeg_held fd out' lq cq =
    mkFrame (if decide (samp = 34) then 1 else 0) (u8 w) (u8 h) (dc_dri d) (lq ++ cq) scan.
Proof.
  intros Hok Hd Ef El Ec Hsos Hscan file fd.
  assert (at_off fd 0 (file ++ spare)) as A0 by apply at_off_start.
  pose proof (at_off_len _ _ _ A0) as L0. set (flen := zlen file).
  set (body := concat (seg_bytes <$> segs)) in *.
  assert (flen = 2 + zlen body + zlen (segment 218 sos) + zlen scan) as Hfl.
  { unfold flen, file, jpeg_file. rewrite !zlen_app. change (zlen [255; 216]) with 2. unfold body. lia. }
  rewrite zlen_app in L0. fold flen in L0. revert A0. unfold file, jpeg_file. fold body.
  rewrite <- !(assoc_L (++)). intros A0.
  pose proof (at_off_app _ _ _ _ A0) as A2. change (0 + zlen [255; 216]) with 2 in A2.
  pose proof (at_off_app _ _ _ _ A2) as A3. pose proof (at_off_app _ _ _ _ A3) as A4.
  pose proof (zlen_nonneg body). pose proof (zlen_nonneg spare). pose proof (zlen_nonneg sos).
  pose proof (segment_length 218 sos) as L218.
  set (o1 := set_quant (set_dri out false (DRI out)) (replicate 16 None)).
  destruct (walks_segs fd flen ms segs (mkDecoded ∅ None None) d o1 2 _ ltac:(by split) Hok Hd A2)
    as (o2 & Ha & Hw); [lia|fold body; lia|].
  set (isc := 2 + zlen body + zlen (segment 218 sos)) in *.
  exists (set_scan o2 isc (zlen scan) 1 (u32 (ms * 90))). split.
  - unfold jpeg_process_frame. fold o1.
    apply (walks_SOI fd flen ms o1 _ _ A0); [lia| |lia]. apply Hw. fold body.
    replace (zlen scan) with (flen - (2 + zlen body) - zlen (segment 218 sos)) by lia.
    eapply walks_SOS; [exact A3|lia|done].
  - apply (held_after_walk fd d o2 w h samp lt ct lq cq scan isc); try done; try lia. by apply (at_off_slice _ _ _ _ A4).
Qed.

(** C10. A viewer gets the JPEG the camera sent: from a state with both tables,
    [jpeg_send] terminates with the packets of [jpeg_packets], and an RFC 2435
    receiver that joins them gets exactly the type, size, restart interval,
    quantization tables and scan data the packetizer held; the marker is on the
    last packet and only there. *)
Theorem jpeg_roundtrip {E} `{RtpSink E} (e : E) fd out lq cq :
  sendable fd out lq cq → jpeg_hdr_len out true < sink_mtu e →
  let pkts := jpeg_packets (sink_mtu e) fd out lq cq in
  jpeg_send fd e out = Ok (send_seq e pkts) ∧
  jpeg_depay pkts = Some (jpeg_held fd out lq cq) ∧
  ∀ k p, pkts !! k = Some p → pk_marker p = bool_decide (S k = length pkts).
Proof.
  intros Hs Hm pkts. pose proof (jpeg_clip_ok out _ Hm) as Hc. split; [|split].
  - destruct Hs as [_ _ (q1 & E1 & E2) (q2 & E3 & E4) _ Hl _]. unfold jpeg_send.
    rewrite E1. simpl. rewrite E3. simpl. rewrite decide_True by lia. rewrite E2. simpl. rewrite E4. simpl.
    apply frag_loop_frags; [done|lia].
  - apply (jpeg_join_rest fd out lq cq (sink_mtu e) _ 0); auto; try lia;
      [destruct (sd_len _ _ _ _ Hs); lia].
  - intros k p. apply frags_marker; [done|done|lia].
Qed.

Lemma jpeg_pkt_size fd out lq cq first i plen :
  sendable fd out lq cq → 0 ≤ i → 0 ≤ plen → i + plen ≤ scan_data_len out →
  pk_size (jpeg_pkt fd out lq cq first i plen) =
  8 + (if bHasDRI out then 4 else 0) + (if first then 132 else 0) + plen.
Proof.
  intros [_ _ (q1 & _ & Hl%table_len) (q2 & _ & Hc%table_len) H0 _ H1] Hi Hp Hip.
  unfold jpeg_pkt. rewrite pk_size_app. cbn [concat]. rewrite app_nil_r, zlen_slice by lia.
  unfold jpeg_hdrs. rewrite !concat_app, !zlen_app.
  destruct (bHasDRI out), first; cbn [concat]; rewrite ?app_nil_r, ?zlen_app;
    unfold zlen; simpl; rewrite ?Hl, ?Hc; lia.
Qed.

(** A frame header that is accepted but cannot be sent: when all three
    components are luma, [parse_SOF] succeeds and leaves no chroma table, and
    [jpeg_send] then reads [quant] at index -1. *)
Lemma jpeg_no_chroma_overruns {E} `{RtpSink E} (e : E) fd out d w h lt p rest :
  at_off fd d (sof_head w h ++ [1; 17; lt; 1; 17; lt; 1; 17; lt] ++ rest) →
  0 ≤ w < 8192 → 0 ≤ h < 8192 → 0 ≤ lt < 16 → rd (quant out) lt = Ok (Some p) →
  ∃ out', parse_SOF fd out d = Ok (out', 0) ∧ jpeg_send fd e out' = Fault OutOfBounds.
Proof.
  intros A Hw Hh Hl Hq. exists (set_luma (set_chroma (set_size out w h) (-1)) 0 lt).
  pose proof (λ k x, at_off_read _ _ _ k x A) as R. split.
  - rewrite (parse_SOF_head fd _ _ _ _ _ A) by done. set (o0 := set_chroma _ _).
    rewrite (sof_step fd o0 (set_luma o0 0 lt) d 6 _ lt 1 17 p),
      (sof_step fd (set_luma o0 0 lt) (set_luma o0 0 lt) d 9 _ lt 1 17 p),
      (sof_step fd (set_luma o0 0 lt) (set_luma o0 0 lt) d 12 _ lt 1 17 p); try done;
      rewrite <- ?(Z.add_assoc d); apply R; try lia; reflexivity.
  - unfold jpeg_send. cbn [quant luma_table chroma_table set_luma set_chroma set_size].
    by rewrite Hq.
Qed.

(** Packet sizes: every packet of a frame without a restart interval fits
    in the endpoint's maximum, but with one the packets after the first are
    only clipped for an 8-byte header while they carry 12, so each that is not
    the last exceeds the maximum by exactly 4 bytes. *)
Lemma jpeg_packet_sizes fd out lq cq mtu k p :
  sendable fd out lq cq → jpeg_hdr_len out true < mtu →
  jpeg_packets mtu fd out lq cq !! k = Some p →
  (bHasDRI out = false → pk_size p ≤ mtu) ∧
  (bHasDRI out = true → (0 < k)%nat → pk_marker p = false → pk_size p = mtu + 4).
Proof.
  intros Hs Hm. pose proof (jpeg_clip_ok out mtu Hm) as Hc. unfold jpeg_packets.
  assert (∀ s j, 0 ≤ j < scan_data_len out →
    let p := jpeg_pkt fd out lq cq s j (jpeg_clip out mtu s j (scan_data_len out - j)) in
    (bHasDRI out = false → pk_size p ≤ mtu) ∧
    (bHasDRI out = true → s = false → pk_marker p = false → pk_size p = mtu + 4)) as Hp.
  { intros s j Hj. pose proof (Hc s j (scan_data_len out - j) ltac:(lia)) as Hb. cbn zeta.
    rewrite jpeg_pkt_size by (done || lia). cbn [pk_marker jpeg_pkt]. revert Hb.
    unfold jpeg_clip, jpeg_hdr_len. intros Hb. split.
    - intros E. rewrite E in *. repeat case_decide; destruct s; lia.
    - intros E -> Hlast%bool_decide_eq_false. rewrite E in *. repeat case_decide; lia. }
  destruct (Z.to_nat (scan_data_len out)) as [|fuel] eqn:Ef; cbn [frags]; case_decide as Hl; try done.
  destruct k as [|k]; cbn [lookup list_lookup].
  - intros [= <-]. split; [apply Hp; lia|lia].
  - intros Hk. refine (_ (Forall_lookup_1 _ _ _ _ (frags_Forall (jpeg_clip out) (jpeg_pkt fd out lq cq)
      (λ _, false) (λ s, s = false) (λ p, (bHasDRI out = false → pk_size p ≤ mtu) ∧
        (bHasDRI out = true → pk_marker p = false → pk_size p = mtu + 4)) fuel mtu _ _ _ Hc eq_refl _ _) Hk)).
    + intros [H1 H2]. split; auto.
    + done.
    + intros s j -> Hj. destruct (Hp false j) as [H1 H2]; [|auto].
      pose proof (Hc true 0 (scan_data_len out - 0) ltac:(lia)). lia.
Qed.

(** ** Witnesses *)

Definition wit_out : rtp_jpeg := mkJpeg 7 0 0 3 3 [] 0 0 0 0 0 true 9.
Definition wit_lq : list Z := replicate 64 2.
Definition wit_cq : list Z := replicate 64 3.
(** APP0 first, both tables in one DQT segment and the luma table once more, DHT
    before the frame header and the restart interval behind it. *)
Definition wit_segs : list seg :=
  [SegOther 224 ($"JFIF"); SegDQT [(0, wit_cq); (1, wit_cq)]; SegOther 196 [1; 2; 3]; SegDQT [(0, wit_lq)];
   SegSOF 80 60 34 0 1; SegDRI 40; SegOther 196 [4]].
Definition wit_decoded : decoded :=
  mkDecoded (<[0 := wit_lq]> (<[1 := wit_cq]> (<[0 := wit_cq]> ∅))) (Some 40) (Some (80, 60, 34, 0, 1)).
Definition wit_file : list Z := jpeg_file wit_segs [0; 1] (replicate 300 5).

Lemma wit_segs_ok : Forall seg_ok wit_segs.
Proof.
  unfold wit_segs, seg_ok, table_ok, wit_lq, wit_cq.
  repeat constructor; cbn [fst snd]; try lia; try reflexivity; set_solver.
Qed.

Lemma jpeg_process_frame_ok_witness :
  ∃ out', jpeg_process_frame (wit_file ++ [9; 9]) (zlen wit_file) 11 wit_out = Ok (out', 1) ∧
    jpeg_held (wit_file ++ [9; 9]) out' wit_lq wit_cq = mkFrame 1 80 60 (Some 40) (wit_lq ++ wit_cq) (replicate 300 5).
Proof.
  destruct (jpeg_process_frame_ok wit_segs wit_decoded 80 60 34 0 1 wit_lq wit_cq [0; 1]
    (replicate 300 5) [9; 9] 11 wit_out wit_segs_ok eq_refl eq_refl eq_refl eq_refl) as (out' & H1 & _ & _ & H2);
    [vm_compute; reflexivity|vm_compute; split; reflexivity|].
  exists out'. split; [exact H1|exact H2].
Defined.

Definition wit_held : rtp_jpeg :=
  mkJpeg 1 80 60 0 1 (Some 0 :: Some 64 :: replicate 14 None) 128 400 1 0 990 true 40.
Definition wit_fd : list Z := wit_lq ++ wit_cq ++ replicate 400 5.

Lemma wit_sendable : sendable wit_fd wit_held wit_lq wit_cq.
Proof.
  split; try (vm_compute; (congruence || (split; congruence))).
  - exists (Some 0). by split; vm_compute.
  - exists (Some 64). by split; vm_compute.
Qed.

Lemma jpeg_roundtrip_witness :
  jpeg_depay (jpeg_packets 200 wit_fd wit_held wit_lq wit_cq) =
  Some (mkFrame 1 80 60 (Some 40) (wit_lq ++ wit_cq) (replicate 400 5)).
Proof.
  refine (proj1 (proj2 (jpeg_roundtrip (mkRec 200 []) wit_fd wit_held wit_lq wit_cq wit_sendable _))).
  vm_compute. congruence.
Defined.

Lemma jpeg_packet_sizes_witness :
  ∃ p, jpeg_packets 200 wit_fd wit_held wit_lq wit_cq !! 1%nat = Some p ∧ pk_size p = 204.
Proof.
  destruct (jpeg_packets 200 wit_fd wit_held wit_lq wit_cq !! 1%nat) as [p|] eqn:E;
    [|vm_compute in E; congruence].
  exists p. split; [reflexivity|].
  refine (proj2 (jpeg_packet_sizes wit_fd wit_held wit_lq wit_cq 200 1 p wit_sendable _ E) _ _ _);
    [vm_compute; congruence|reflexivity|lia|vm_compute in E; injection E as <-; reflexivity].
Defined.

Lemma jpeg_no_chroma_overruns_witness :
  ∃ out', parse_SOF (sof_head 2 2 ++ [1; 17; 0; 1; 17; 0; 1; 17; 0]) wit_held 0 = Ok (out', 0) ∧
    jpeg_send (sof_head 2 2 ++ [1; 17; 0; 1; 17; 0; 1; 17; 0]) (mkRec 200 []) out' = Fault OutOfBounds.
Proof.
  apply (jpeg_no_chroma_overruns (mkRec 200 []) _ wit_held 0 2 2 0 0 []); try (vm_compute; (congruence || (split; congruence)));
    apply at_off_start.
Defined.
