(* ===== verification/Pmsg.v ===== *)
(** * Pmsg: RTSP and HTTP messages

    Models pmsg.c and pmsg.h of src/sources/applications/RTSPServer/src. A
    message is one buffer; every string of it is a pointer into the buffer, here
    an offset, and [parse_pmsg] cuts the text into strings by writing zero bytes
    over the delimiters. *)

From stdpp Require Import prelude gmap strings pretty.
From S2P Require Import Prelude.

Local Open Scope c_scope.

Definition MAX_FIELDS : Z := 32.

(** ** C strings *)

(** The number of leading elements that satisfy a test. *)
Fixpoint span_len (p : Z → bool) (l : list Z) : Z :=
  match l with
  | [] => 0
  | x :: l => if p x then 1 + span_len p l else 0
  end.

(** The string at an offset; a fault when no zero byte ends it. *)
Definition cstr (d : list Z) (p : Z) : res (list Z) :=
  let rest := drop (Z.to_nat p) d in
  let n := span_len (λ x, negb (x =? 0)) rest in
  if decide (0 ≤ p ∧ n < zlen rest) then Ok (take (Z.to_nat n) rest) else Fault OutOfBounds.

Definition tolower (c : Z) : Z := if decide (65 ≤ c ≤ 90) then c + 32 else c.

(** [strcasecmp(a, b) == 0] and [strncasecmp(a, b, strlen(b)) == 0]. *)
Definition strcaseeq (a b : list Z) : bool := bool_decide (tolower <$> a = tolower <$> b).
Definition strcaseprefix (a b : list Z) : bool :=
  bool_decide (tolower <$> take (length b) a = tolower <$> b).

(** ** Data *)

Inductive start_line :=
| SlReq (method uri : Z)
| SlStat (code reason : Z).

(** [max_len] is the length of [msg]; [header_count] the length of [fields]. *)
Record pmsg := mkPmsg {
  msg : list Z;
  msg_len : Z;
  proto_id : Z;
  sl : start_line;
  fields : list (Z * Z) }.

Definition max_len (m : pmsg) : Z := zlen (msg m).
Definition header_count (m : pmsg) : Z := zlen (fields m).

(** ** Parsing *)

Section Parse.
Context (len : Z).
Implicit Types (d : list Z) (i : Z).

(** [delim(d + i, len - i, t1, t2)]. *)
Definition delim d i (t1 t2 : Z) : Z :=
  span_len (λ x, negb ((x =? t1) || (x =? t2) || (x =? 13) || (x =? 10))) (slice d i (len - i)).

(** [while (i < len && d[i] == ' ') ++i]. *)
Definition skip_spaces d i : Z := i + span_len (λ x, x =? 32) (slice d i (len - i)).
Definition skip_blanks d i : Z := i + span_len (λ x, (x =? 32) || (x =? 9)) (slice d i (len - i)).

(** [if (i < len && d[i] == '\r') ++i]. *)
Definition skip_cr d i : res Z :=
  if decide (i < len) then x ← rd d i; Ok (if decide (x = 13) then i + 1 else i) else Ok i.

(** [if (i >= len || d[i++] != c) return -1]: the index behind the character. *)
Definition expect d i (c : Z) : res (option Z) :=
  if decide (len ≤ i) then Ok None
  else x ← rd d i; Ok (if decide (x = c) then Some (i + 1) else None).

(** One header line from its first character on; [None] is the return of -1. *)
Definition parse_header d (fs : list (Z * Z)) i : res (option (list Z * list (Z * Z) * Z)) :=
  if decide (MAX_FIELDS ≤ zlen fs) then Fault OutOfBounds else
  let name := i in
  let i := i + delim d i 32 58 in
  if decide (len ≤ i) then Ok None else
  x ← rd d i;
  '(d, i) ← (if decide (x = 32) then d ← wr d i 0; Ok (d, skip_spaces d (i + 1)) else Ok (d, i));
  if decide (len ≤ i) then Ok None else
  x ← rd d i;
  if decide (x ≠ 58) then Ok None else
  d ← wr d i 0;
  let i := skip_blanks d (i + 1) in
  let value := i in
  let i := i + delim d i 0 0 in
  d ← wr d i 0;
  r ← expect d (i + 1) 10;
  match r with
  | None => Ok None
  | Some i => Ok (Some (d, fs ++ [(name, value)], i))
  end.

(** The header lines; the result is the buffer, the fields and the number of
    bytes used. *)
Fixpoint parse_headers (fuel : nat) d (fs : list (Z * Z)) i : res (option (list Z * list (Z * Z) * Z)) :=
  match fuel with
  | O => Fault OutOfFuel
  | S fuel =>
      i ← skip_cr d i;
      if decide (i = len) then Ok (Some (d, fs, len)) else
      x ← rd d i;
      if decide (x = 10) then Ok (Some (d, fs, i + 1)) else
      if decide (x = 9 ∨ x = 32) then Ok None else
      r ← parse_header d fs i;
      match r with
      | None => Ok None
      | Some (d, fs, i) => parse_headers fuel d fs i
      end
  end.

Definition isdigit (c : Z) : bool := bool_decide (48 ≤ c ≤ 57).

(** The status line behind the protocol: three digits, whose value [atoi] takes,
    a space, the reason. *)
Definition parse_status d i : res (option (list Z * start_line * Z)) :=
  if decide (len - i < 4) then Ok None else
  a ← rd d i; b ← rd d (i + 1); c ← rd d (i + 2); x ← rd d (i + 3);
  if negb (isdigit a && isdigit b && isdigit c) || negb (x =? 32) then Ok None else
  let code := (a - 48) * 100 + (b - 48) * 10 + (c - 48) in
  let i := skip_spaces d (i + 4) in
  let reason := i in
  let i := i + delim d i 0 0 in
  d ← wr d i 0;
  Ok (Some (d, SlStat code reason, i + 1)).

(** The start line: the buffer, the protocol, the line and the index behind it. *)
Definition parse_start d : res (option (list Z * Z * start_line * Z)) :=
  let i := span_len (λ x, negb ((x =? 32) || (x =? 47))) (slice d 0 len) in
  if decide (i = len) then Ok None else
  x ← rd d i;
  if decide (x = 47) then
    let i := delim d 0 32 0 in
    x ← rd d i;
    if decide (x ≠ 32) then Ok None else
    d ← wr d i 0;
    r ← parse_status d (skip_spaces d (i + 1));
    Ok (match r with Some (d, l, i) => Some (d, 0, l, i) | None => None end)
  else
    let i := delim d 0 32 0 in
    r ← expect d i 32;
    match r with
    | None => Ok None
    | Some _ =>
        d ← wr d i 0;
        let uri := skip_spaces d (i + 1) in
        let i := uri + delim d uri 32 0 in
        r ← expect d i 32;
        match r with
        | None => Ok None
        | Some _ =>
            d ← wr d i 0;
            let proto := skip_spaces d (i + 1) in
            let i := proto + delim d proto 0 0 in
            d ← wr d i 0;
            Ok (Some (d, proto, SlReq 0 uri, i + 1))
        end
    end.

(** [None] stands for -1, after which the callers free the message. *)
Definition parse_pmsg d : res (option (pmsg * Z)) :=
  if decide (len < 4) then Ok None else
  r ← parse_start d;
  match r with
  | None => Ok None
  | Some (d, proto, l, i) =>
      i ← skip_cr d (skip_spaces d i);
      r ← expect d i 10;
      match r with
      | None => Ok None
      | Some i =>
          r ← parse_headers (S (Z.to_nat len)) d [] i;
          Ok (match r with Some (d, fs, n) => Some (mkPmsg d len proto l fs, n) | None => None end)
      end
  end.

End Parse.

(** ** Headers *)

Fixpoint find_header (d : list Z) (fs : list (Z * Z)) (name : list Z) (i : nat) : res (option nat) :=
  match fs with
  | [] => Ok None
  | (n, _) :: fs =>
      s ← cstr d n;
      if strcaseeq s name then Ok (Some i) else find_header d fs name (S i)
  end.

(** The value found, or [None] for the null pointer. *)
Definition get_header (m : pmsg) (name : list Z) : res (option (list Z)) :=
  r ← find_header (msg m) (fields m) name 0;
  match r with
  | None => Ok None
  | Some i => match fields m !! i with Some (_, v) => s ← cstr (msg m) v; Ok (Some s) | None => Ok None end
  end.

Definition set_msg (m : pmsg) (d : list Z) (n : Z) (fs : list (Z * Z)) : pmsg :=
  mkPmsg d n (proto_id m) (sl m) fs.

Definition add_pmsg_string (m : pmsg) (s : list Z) : pmsg * option Z :=
  let len := zlen s + 1 in
  if decide (msg_len m + len > max_len m) then (m, None)
  else (set_msg m (blit (msg m) (msg_len m) (s ++ [0])) (msg_len m + len) (fields m), Some (msg_len m)).

(** The boolean is whether the call returned 0. *)
Definition add_header (m : pmsg) (name value : list Z) : pmsg * bool :=
  if decide (header_count m = MAX_FIELDS) then (m, false) else
  match add_pmsg_string m name with
  | (m, None) => (m, false)
  | (m, Some n) =>
      match add_pmsg_string m value with
      | (m, None) => (m, false)
      | (m, Some v) => (set_msg m (msg m) (msg_len m) (fields m ++ [(n, v)]), true)
      end
  end.

(** [text] is the formatted value. *)
Definition add_header_printf (m : pmsg) (name text : list Z) : pmsg * bool :=
  let space := max_len m - msg_len m in
  let m := if decide (0 < space) then
      set_msg m (blit (msg m) (msg_len m) (take (Z.to_nat (space - 1)) text ++ [0])) (msg_len m) (fields m)
    else m in
  if decide (header_count m = MAX_FIELDS) then (m, false)
  else if decide (max_len m ≤ msg_len m + zlen text) then (m, false)
  else
    let v := msg_len m in
    match add_pmsg_string (set_msg m (msg m) (msg_len m + (zlen text + 1)) (fields m)) name with
    | (m, None) => (m, false)
    | (m, Some n) => (set_msg m (msg m) (msg_len m) (fields m ++ [(n, v)]), true)
    end.

Definition replace_header (m : pmsg) (name value : list Z) : res (pmsg * bool) :=
  r ← find_header (msg m) (fields m) name 0;
  match r with
  | None => Ok (add_header m name value)
  | Some i =>
      match fields m !! i with
      | None => Ok (m, false)
      | Some (n, v) =>
          old ← cstr (msg m) v;
          if decide (zlen old < zlen value) then
            match add_pmsg_string m value with
            | (m, None) => Ok (m, false)
            | (m, Some p) => Ok (set_msg m (msg m) (msg_len m) (<[i := (n, p)]> (fields m)), true)
            end
          else Ok (set_msg m (blit (msg m) v (value ++ [0])) (msg_len m) (fields m), true)
      end
  end.

Fixpoint copy_fields (dest : pmsg) (d : list Z) (fs : list (Z * Z)) (name : list Z) (count : Z) : res (pmsg * Z) :=
  match fs with
  | [] => Ok (dest, count)
  | (n, v) :: fs =>
      s ← cstr d n;
      if strcaseeq s name then
        t ← cstr d v;
        copy_fields (fst (add_header dest s t)) d fs name (count + 1)
      else copy_fields dest d fs name count
  end.

Definition copy_headers (dest src : pmsg) (name : list Z) : res (pmsg * Z) :=
  copy_fields dest (msg src) (fields src) name 0.

(** [new_pmsg(size)] leaves the buffer as malloc gave it. *)
Definition new_pmsg (heap : list Z) : pmsg := mkPmsg heap 0 0 (SlReq 0 0) [].

(** ** Header parameters *)

(** From the first ';' on, including it; [None] when there is none. *)
Fixpoint strchr (l : list Z) (c : Z) : option (list Z) :=
  match l with
  | [] => None
  | x :: r => if decide (x = c) then Some l else strchr r c
  end.

(** What [get_param] does with the text behind a matching tag. *)
Inductive param_hit := Found (dest : option (list Z)) | TooLong | FalseHit.

Definition has_room (size : option Z) : bool := match size with Some n => 0 <? n | None => false end.

Definition param_value (c : list Z) (size : option Z) : param_hit :=
  match c with
  | [] => Found (if has_room size then Some [] else None)
  | x :: r =>
      if decide (x = 59) then Found (if has_room size then Some [] else None)
      else if decide (x = 61) then
        match size with
        | None => Found None
        | Some n =>
            if decide (n ≤ 0) then Found None else
            let v := take (Z.to_nat (span_len (λ y, negb (y =? 59)) r)) r in
            if decide (zlen v < n) then Found (Some v) else TooLong
        end
      else FalseHit
  end.

(** [c] is where the loop's pointer stands, which the body first advances; the
    end of the list is the zero byte. [size] is [None] when [dest] is null. *)
Fixpoint get_param_loop (fuel : nat) (c tag : list Z) (size : option Z) : res (Z * option (list Z)) :=
  match fuel with
  | O => Fault OutOfFuel
  | S fuel =>
      match c with
      | [] => Fault OutOfBounds
      | _ :: c =>
          let continue c :=
            match strchr c 59 with
            | None => Ok (0, None)
            | Some c => get_param_loop fuel c tag size
            end in
          if strcaseprefix c tag then
            let c := drop (length tag) c in
            match param_value c size with
            | Found v => Ok (1, v)
            | TooLong => Ok (-1, None)
            | FalseHit => continue c
            end
          else continue c
      end
  end.

Definition get_param (value : option (list Z)) (tag : list Z) (size : option Z) : res (Z * option (list Z)) :=
  match value with
  | None => Ok (-1, None)
  | Some v => get_param_loop (S (length v)) v tag size
  end.

(** ** Lemmas: strings *)

Lemma span_len_app p s c rest :
  Forall (λ x, p x = true) s → p c = false → span_len p (s ++ c :: rest) = zlen s.
Proof.
  induction 1 as [|x s Hx Hs IH]; intros Hc; simpl; [by rewrite Hc|].
  rewrite Hx, IH by done. by rewrite zlen_cons.
Qed.

Lemma span_len_stop p c rest : p c = false → span_len p (c :: rest) = 0.
Proof. intros Hc. simpl. by rewrite Hc. Qed.

Lemma slice_rest pre rest : slice (pre ++ rest) (zlen pre) (zlen (pre ++ rest) - zlen pre) = rest.
Proof.
  rewrite zlen_app. unfold slice, zlen. rewrite Nat2Z.id, drop_app_length. apply take_ge. lia.
Qed.

(** Text at a position: [d] is [pre ++ s ++ c :: rest] and [i] the position
    behind [pre]. *)
Lemma rd_mid {A} (d pre rest : list A) c i : d = pre ++ c :: rest → i = zlen pre → rd d i = Ok c.
Proof.
  intros -> ->. unfold rd, zlen. rewrite decide_False by lia. rewrite Nat2Z.id, lookup_app_r by lia.
  by rewrite Nat.sub_diag.
Qed.

Lemma wr_mid {A} (d pre rest : list A) c y i :
  d = pre ++ c :: rest → i = zlen pre → wr d i y = Ok (pre ++ y :: rest).
Proof.
  intros -> ->.
  rewrite wr_ok by (rewrite zlen_app, zlen_cons; pose proof (zlen_nonneg pre); pose proof (zlen_nonneg rest); lia).
  rewrite to_nat_zlen, insert_app_r_alt, Nat.sub_diag by lia. done.
Qed.

Lemma expect_mid len d pre rest c i :
  d = pre ++ c :: rest → i = zlen pre → len = zlen d → expect len d i c = Ok (Some (i + 1)).
Proof.
  intros Hd Hi Hl. unfold expect. rewrite decide_False.
  - by rewrite (rd_mid _ _ _ _ _ Hd Hi), res_bind_ok, decide_True.
  - subst. rewrite zlen_app, zlen_cons. pose proof (zlen_nonneg rest). lia.
Qed.

Lemma cstr_mid pre s rest : Forall (λ x, x ≠ 0) s → cstr (pre ++ s ++ 0 :: rest) (zlen pre) = Ok s.
Proof.
  intros Hs. unfold cstr. rewrite !to_nat_zlen, !drop_app_length.
  assert (span_len (λ x, negb (x =? 0)) (s ++ 0 :: rest) = zlen s) as ->.
  { apply span_len_app; [|done]. eapply Forall_impl; [exact Hs|]. intros x Hx. simpl.
    by apply negb_true_iff, Z.eqb_neq. }
  rewrite decide_True by (rewrite zlen_app, zlen_cons; pose proof (zlen_nonneg pre); pose proof (zlen_nonneg rest); lia).
  by rewrite to_nat_zlen, take_app_length.
Qed.

Lemma skip_cr_mid len d pre rest i :
  d = pre ++ 13 :: rest → i = zlen pre → len = zlen d → skip_cr len d i = Ok (i + 1).
Proof.
  intros Hd Hi Hl. unfold skip_cr. rewrite decide_True.
  - by rewrite (rd_mid _ _ _ _ _ Hd Hi), res_bind_ok.
  - subst. rewrite zlen_app, zlen_cons. pose proof (zlen_nonneg rest). lia.
Qed.

Lemma skip_cr_stay len d pre c rest i :
  d = pre ++ c :: rest → i = zlen pre → c ≠ 13 → skip_cr len d i = Ok i.
Proof.
  intros Hd Hi Hc. unfold skip_cr. case_decide; [|done].
  by rewrite (rd_mid _ _ _ _ _ Hd Hi), res_bind_ok, decide_False.
Qed.

(** Moving over a piece of the text. *)
Lemma delim_mid len d i pre s c rest t1 t2 :
  d = pre ++ s ++ c :: rest → i = zlen pre → len = zlen d →
  Forall (λ x, x ≠ t1 ∧ x ≠ t2 ∧ x ≠ 13 ∧ x ≠ 10) s → c = t1 ∨ c = t2 ∨ c = 13 ∨ c = 10 →
  delim len d i t1 t2 = zlen s.
Proof.
  intros -> -> -> Hs Hc. unfold delim. rewrite slice_rest. apply span_len_app.
  - eapply Forall_impl; [exact Hs|]. intros x (?&?&?&?). simpl.
    by rewrite !(proj2 (Z.eqb_neq _ _)).
  - destruct Hc as [->|[->|[-> | ->]]]; rewrite !Z.eqb_refl, ?orb_true_r; done.
Qed.

Lemma skip_spaces_stop len d i pre c rest :
  d = pre ++ c :: rest → i = zlen pre → len = zlen d → c ≠ 32 → skip_spaces len d i = i.
Proof.
  intros -> -> -> Hc. unfold skip_spaces. rewrite slice_rest, span_len_stop by (by apply Z.eqb_neq). lia.
Qed.

Lemma skip_blanks_one len d i pre c rest :
  d = pre ++ 32 :: c :: rest → i = zlen pre → len = zlen d → c ≠ 32 → c ≠ 9 → skip_blanks len d i = i + 1.
Proof.
  intros -> -> -> H1 H2. unfold skip_blanks. rewrite slice_rest. f_equal.
  apply (span_len_app _ [32] c rest); [by repeat constructor|]. by rewrite !(proj2 (Z.eqb_neq _ _)).
Qed.

Definition hdr_text (h : list Z * list Z) : list Z := h.1 ++ [58; 32] ++ h.2 ++ crlf.
Definition hdr_cut (h : list Z * list Z) : list Z := h.1 ++ [0; 32] ++ h.2 ++ [0; 10].

Ltac nonneg_len :=
  repeat match goal with
  | |- context [zlen ?l] =>
      lazymatch goal with H : 0 ≤ zlen l |- _ => fail | _ => pose proof (zlen_nonneg l) end
  end.

Ltac split_pairs := repeat match goal with |- (_, _) = (_, _) => apply f_equal2 end.

(** Side conditions of these: a regrouping of the text, a position or a length. *)
Ltac text :=
  unfold hdr_text, hdr_cut, crlf in *; cbn [fst snd app] in *;
  repeat (progress (rewrite <- ?app_assoc; cbn [app]));
  autorewrite with wc_len;
  first [done | nonneg_len; lia].

(** ** Messages as text *)

(** Where the strings of the headers lie when the first starts at [base]. *)
Fixpoint hdr_offs (base : Z) (hs : list (list Z * list Z)) : list (Z * Z) :=
  match hs with
  | [] => []
  | h :: hs => (base, base + zlen h.1 + 2) :: hdr_offs (base + zlen (hdr_text h)) hs
  end.

(** Text that [delim] does not cut: no zero byte and no line end. *)
Definition plain (s : list Z) : Prop := Forall (λ x, x ≠ 0 ∧ x ≠ 13 ∧ x ≠ 10) s.
Definition starts_black (s : list Z) : Prop := match s with x :: _ => x ≠ 32 ∧ x ≠ 9 | [] => True end.

Definition header_ok (h : list Z * list Z) : Prop :=
  (h.1 ≠ [] ∧ Forall (λ x, x ≠ 0 ∧ x ≠ 9 ∧ x ≠ 32 ∧ x ≠ 58 ∧ x ≠ 13 ∧ x ≠ 10) h.1) ∧
  plain h.2 ∧ starts_black h.2.

Lemma parse_header_ok pre h rest fs :
  header_ok h → zlen fs < MAX_FIELDS →
  parse_header (zlen (pre ++ hdr_text h ++ rest)) (pre ++ hdr_text h ++ rest) fs (zlen pre) =
  Ok (Some (pre ++ hdr_cut h ++ rest, fs ++ [(zlen pre, zlen pre + zlen h.1 + 2)],
            zlen (pre ++ hdr_text h))).
Proof.
  destruct h as [n v]. intros [[Hne Hn] [Hv Hsv]] Hfs. simpl in *.
  set (d0 := pre ++ hdr_text (n, v) ++ rest). set (len := zlen d0).
  assert (∃ c t, v ++ crlf ++ rest = c :: t ∧ c ≠ 32 ∧ c ≠ 9) as (c & t & Ec & Hc).
  { destruct v as [|x v]; simpl in *; [by exists 13, (10 :: rest)|by exists x, (v ++ crlf ++ rest)]. }
  unfold parse_header. rewrite decide_False by (unfold MAX_FIELDS in *; lia).
  rewrite (delim_mid len d0 (zlen pre) pre n 58 (32 :: v ++ crlf ++ rest)); [|by unfold d0; text|done|done| |lia];
    [|eapply Forall_impl; [exact Hn|naive_solver]].
  rewrite decide_False by (unfold len, d0; text).
  rewrite (rd_mid d0 (pre ++ n) (32 :: v ++ crlf ++ rest) 58), !res_bind_ok; [|by unfold d0; text|text].
  rewrite (decide_False (P := 58 = 32)), res_bind_ok by done.
  rewrite decide_False by (unfold len, d0; text).
  rewrite (rd_mid d0 (pre ++ n) (32 :: v ++ crlf ++ rest) 58), !res_bind_ok; [|by unfold d0; text|text].
  rewrite decide_False by lia.
  rewrite (wr_mid d0 (pre ++ n) (32 :: v ++ crlf ++ rest) 58), res_bind_ok; [|by unfold d0; text|text].
  set (d1 := (pre ++ n) ++ 0 :: 32 :: v ++ crlf ++ rest).
  assert (len = zlen d1) as Hl1 by (unfold len, d0, d1; text).
  rewrite (skip_blanks_one len d1 _ (pre ++ n ++ [0]) c t); [|unfold d1; rewrite Ec; text|text|done|apply Hc|apply Hc].
  rewrite (delim_mid len d1 _ (pre ++ n ++ [0; 32]) v 13 (10 :: rest)); [|unfold d1; text|text|done| |lia];
    [|eapply Forall_impl; [exact Hv|naive_solver]].
  rewrite (wr_mid d1 (pre ++ n ++ [0; 32] ++ v) (10 :: rest) 13), res_bind_ok; [|unfold d1; text|text].
  rewrite (expect_mid len _ (pre ++ n ++ [0; 32] ++ v ++ [0]) rest 10), res_bind_ok;
    [|text|text|rewrite Hl1; unfold d1; text].
  f_equal. f_equal. f_equal; [f_equal|]; text || (f_equal; f_equal; f_equal; text).
Qed.

Lemma len_cut0' h : zlen (hdr_text h) = zlen (hdr_cut h).
Proof. destruct h. text. Qed.
Lemma len_cut0 pre h : zlen (pre ++ hdr_text h) = zlen (pre ++ hdr_cut h).
Proof. by rewrite !zlen_app, len_cut0'. Qed.
Lemma len_cut pre h rest : zlen (pre ++ hdr_text h ++ rest) = zlen ((pre ++ hdr_cut h) ++ rest).
Proof. rewrite !zlen_app, len_cut0'. lia. Qed.

(** The loop enters a header line. *)
Lemma parse_headers_enter fuel pre h rest fs :
  header_ok h →
  let d := pre ++ hdr_text h ++ rest in
  parse_headers (zlen d) (S fuel) d fs (zlen pre) =
  (r ← parse_header (zlen d) d fs (zlen pre);
   match r with None => Ok None | Some (d', fs', i) => parse_headers (zlen d) fuel d' fs' i end).
Proof.
  intros Hh d. set (len := zlen d). cbn [parse_headers].
  destruct h as [n v]. destruct Hh as [[Hne Hn1] _]. destruct n as [|x n]; [done|].
  apply Forall_cons in Hn1 as [Hx _]. cbn [fst] in Hx.
  set (r1 := n ++ [58; 32] ++ v ++ crlf ++ rest).
  assert (d = pre ++ x :: r1) as Ed by (unfold d, r1; text).
  rewrite (skip_cr_stay _ d pre x r1), res_bind_ok by (done || lia).
  rewrite decide_False by (unfold len; rewrite Ed; text).
  by rewrite (rd_mid d pre r1 x (zlen pre)), res_bind_ok, !decide_False by (done || lia).
Qed.

(** The header lines and the empty line behind them; [body] is what follows. *)
Lemma parse_headers_ok fuel pre hs body fs :
  Forall header_ok hs → zlen fs + zlen hs ≤ MAX_FIELDS → (length hs < fuel)%nat →
  parse_headers (zlen (pre ++ concat (hdr_text <$> hs) ++ crlf ++ body)) fuel
    (pre ++ concat (hdr_text <$> hs) ++ crlf ++ body) fs (zlen pre) =
  Ok (Some (pre ++ concat (hdr_cut <$> hs) ++ crlf ++ body, fs ++ hdr_offs (zlen pre) hs,
            zlen (pre ++ concat (hdr_text <$> hs) ++ crlf))).
Proof.
  intros Hhs. revert fuel pre fs. induction Hhs as [|h hs Hh Hhs IH]; intros fuel pre fs Hn Hf;
    (destruct fuel as [|fuel]; [simpl in Hf; lia|]).
  - cbn [parse_headers fmap list_fmap concat app]. set (d := pre ++ crlf ++ body).
    rewrite (skip_cr_mid _ d pre (10 :: body)), res_bind_ok by text.
    rewrite decide_False by (unfold d; text).
    rewrite (rd_mid d (pre ++ [13]) body 10), res_bind_ok, decide_True by (unfold d; text).
    rewrite app_nil_r. do 2 f_equal. f_equal. text.
  - cbn [fmap list_fmap concat]. rewrite <- (app_assoc (hdr_text h)).
    rewrite parse_headers_enter, parse_header_ok, res_bind_ok
      by (done || (rewrite zlen_cons in Hn; pose proof (zlen_nonneg hs); lia)).
    rewrite (len_cut pre h (concat (hdr_text <$> hs) ++ crlf ++ body)), (len_cut0 pre h).
    rewrite (app_assoc pre (hdr_cut h) (concat (hdr_text <$> hs) ++ crlf ++ body)).
    rewrite IH by (autorewrite with wc_len in *; simpl in Hf; lia).
    cbn [hdr_offs]. rewrite <- !app_assoc, <- len_cut0. cbn [app]. do 2 f_equal. split_pairs; [done| |].
    + do 3 f_equal. text.
    + rewrite !zlen_app, <- len_cut0'. text.
Qed.

(** A message with more headers than [fields] has room for runs over it. *)
Lemma parse_headers_overflow fuel pre hs body fs :
  Forall header_ok hs → zlen fs ≤ MAX_FIELDS < zlen fs + zlen hs → (length hs < fuel)%nat →
  parse_headers (zlen (pre ++ concat (hdr_text <$> hs) ++ body)) fuel
    (pre ++ concat (hdr_text <$> hs) ++ body) fs (zlen pre) = Fault OutOfBounds.
Proof.
  intros Hhs. revert fuel pre fs. induction Hhs as [|h hs Hh Hhs IH]; intros fuel pre fs Hn Hf;
    (destruct fuel as [|fuel]; [simpl in Hf; lia|]); [rewrite zlen_nil in Hn; lia|].
  cbn [fmap list_fmap concat]. rewrite <- (app_assoc (hdr_text h)), parse_headers_enter by done.
  destruct (decide (zlen fs = MAX_FIELDS)) as [E|E].
  - unfold parse_header. by rewrite decide_True by lia.
  - rewrite parse_header_ok, res_bind_ok by (done || lia).
    rewrite (len_cut pre h (concat (hdr_text <$> hs) ++ body)), (len_cut0 pre h).
    rewrite (app_assoc pre (hdr_cut h) (concat (hdr_text <$> hs) ++ body)).
    apply IH; autorewrite with wc_len in *; simpl in Hf; lia.
Qed.

(** What a client sent, and the message after [parse_pmsg] read it: the strings
    at the pointers. *)
Definition request_text (meth uri proto : list Z) (hs : list (list Z * list Z)) : list Z :=
  meth ++ [32] ++ uri ++ [32] ++ proto ++ crlf ++ concat (hdr_text <$> hs) ++ crlf.

Definition header_strings (m : pmsg) : res (list (list Z * list Z)) :=
  foldr (λ '(n, v) r, n ← cstr (msg m) n; v ← cstr (msg m) v; l ← r; Ok ((n, v) :: l)) (Ok []) (fields m).

Definition request_ok (meth uri proto : list Z) (hs : list (list Z * list Z)) : Prop :=
  (meth ≠ [] ∧ Forall (λ x, x ≠ 0 ∧ x ≠ 32 ∧ x ≠ 47 ∧ x ≠ 13 ∧ x ≠ 10) meth) ∧
  (uri ≠ [] ∧ Forall (λ x, x ≠ 0 ∧ x ≠ 32 ∧ x ≠ 13 ∧ x ≠ 10) uri) ∧
  (plain proto ∧ starts_black proto) ∧ Forall header_ok hs.

(** The buffer after the parse. *)
Definition request_cut (meth uri proto : list Z) (hs : list (list Z * list Z)) (body : list Z) : list Z :=
  meth ++ [0] ++ uri ++ [0] ++ proto ++ [0; 10] ++ concat (hdr_cut <$> hs) ++ crlf ++ body.

Lemma parse_start_request meth uri proto hs body :
  request_ok meth uri proto hs →
  let d := request_text meth uri proto hs ++ body in
  parse_start (zlen d) d =
  Ok (Some (meth ++ [0] ++ uri ++ [0] ++ proto ++ [0; 10] ++ concat (hdr_text <$> hs) ++ crlf ++ body,
            zlen meth + zlen uri + 2, SlReq 0 (zlen meth + 1), zlen meth + zlen uri + zlen proto + 3)).
Proof.
  intros ([Hm1 Hm2] & [Hu1 Hu2] & [Hp1 Hp2] & Hhs) d. set (len := zlen d).
  set (r3 := concat (hdr_text <$> hs) ++ crlf ++ body).
  assert (d = meth ++ 32 :: uri ++ 32 :: proto ++ crlf ++ r3) as Ed by (unfold d, request_text, r3; text).
  assert (len = zlen meth + zlen uri + zlen proto + zlen r3 + 4) as Hlen by (unfold len; rewrite Ed; text).
  pose proof (zlen_nonneg meth). pose proof (zlen_nonneg uri).
  pose proof (zlen_nonneg proto). pose proof (zlen_nonneg r3).
  unfold parse_start.
  assert (span_len (λ x, negb ((x =? 32) || (x =? 47))) (slice d 0 len) = zlen meth) as ->.
  { unfold len. rewrite slice_all, Ed. apply span_len_app; [|done].
    eapply Forall_impl; [exact Hm2|]. intros x (?&?&?&?&?). simpl. by rewrite !(proj2 (Z.eqb_neq _ _)). }
  rewrite decide_False by lia.
  rewrite (rd_mid d meth (uri ++ 32 :: proto ++ crlf ++ r3) 32 (zlen meth)), res_bind_ok, decide_False by (done || lia).
  rewrite (delim_mid len d 0 [] meth 32 (uri ++ 32 :: proto ++ crlf ++ r3)); [|done..| |lia];
    [|eapply Forall_impl; [exact Hm2|naive_solver]].
  rewrite (expect_mid len d meth (uri ++ 32 :: proto ++ crlf ++ r3) 32), res_bind_ok by done.
  rewrite (wr_mid d meth (uri ++ 32 :: proto ++ crlf ++ r3) 32), res_bind_ok by done.
  set (d1 := meth ++ 0 :: _). assert (len = zlen d1) as E1 by (rewrite Hlen; unfold d1; text).
  destruct uri as [|u uri']; [done|]. apply Forall_cons in Hu2 as Hu. destruct Hu as [Hu _].
  rewrite (skip_spaces_stop len d1 _ (meth ++ [0]) u (uri' ++ 32 :: proto ++ crlf ++ r3)); [|unfold d1; text|text|done|lia].
  set (uri := u :: uri') in *.
  rewrite (delim_mid len d1 _ (meth ++ [0]) uri 32 (proto ++ crlf ++ r3)); [|unfold d1; text|text|done| |lia];
    [|eapply Forall_impl; [exact Hu2|naive_solver]].
  rewrite (expect_mid len d1 (meth ++ [0] ++ uri) (proto ++ crlf ++ r3) 32), res_bind_ok; [|unfold d1; text|text|done].
  rewrite (wr_mid d1 (meth ++ [0] ++ uri) (proto ++ crlf ++ r3) 32), res_bind_ok; [|unfold d1; text|text].
  set (d2 := (meth ++ [0] ++ uri) ++ 0 :: _). assert (len = zlen d2) as E2 by (rewrite Hlen; unfold d2; text).
  assert (∃ c t, proto ++ crlf ++ r3 = c :: t ∧ c ≠ 32) as (c & t & Ec & Hc).
  { destruct proto as [|x p]; simpl in *; [by exists 13, (10 :: r3)|]. exists x, (p ++ crlf ++ r3). naive_solver. }
  rewrite (skip_spaces_stop len d2 _ (meth ++ [0] ++ uri ++ [0]) c t); [|unfold d2; rewrite Ec; text|text|done|done].
  rewrite (delim_mid len d2 _ (meth ++ [0] ++ uri ++ [0]) proto 13 (10 :: r3)); [|unfold d2; text|text|done| |lia];
    [|eapply Forall_impl; [exact Hp1|naive_solver]].
  rewrite (wr_mid d2 (meth ++ [0] ++ uri ++ [0] ++ proto) (10 :: r3) 13), res_bind_ok; [|unfold d2; text|text].
  do 2 f_equal. split_pairs; [unfold r3; text|text|f_equal; text|text].
Qed.

Lemma length_headers hs : Forall header_ok hs → zlen hs ≤ zlen (concat (hdr_text <$> hs)).
Proof.
  induction 1 as [|h hs Hh _ IH]; [done|]. cbn [fmap list_fmap concat]. rewrite zlen_app, zlen_cons.
  destruct h as [n v]. assert (1 ≤ zlen (hdr_text (n, v))); [|lia]. text.
Qed.

(** Behind the start line. *)
Lemma parse_pmsg_tail len d p1 r3 proto l :
  4 ≤ len → len = zlen (p1 ++ 10 :: r3) →
  parse_start len d = Ok (Some (p1 ++ 10 :: r3, proto, l, zlen p1)) →
  parse_pmsg len d =
  (r ← parse_headers len (S (Z.to_nat len)) (p1 ++ 10 :: r3) [] (zlen (p1 ++ [10]));
   Ok (match r with Some (d, fs, n) => Some (mkPmsg d len proto l fs, n) | None => None end)).
Proof.
  intros H4 Hl Hs. unfold parse_pmsg. rewrite decide_False, Hs, res_bind_ok by lia.
  rewrite (skip_spaces_stop _ _ _ p1 10 r3), (skip_cr_stay _ _ p1 10 r3), res_bind_ok by (done || lia).
  rewrite (expect_mid _ _ p1 r3 10), res_bind_ok by done. by rewrite zlen_app.
Qed.

(** The parse up to the headers. *)
Lemma parse_pmsg_request meth uri proto hs body :
  request_ok meth uri proto hs →
  let d := request_text meth uri proto hs ++ body in
  let pre := meth ++ [0] ++ uri ++ [0] ++ proto ++ [0; 10] in
  let d1 := pre ++ concat (hdr_text <$> hs) ++ crlf ++ body in
  zlen d1 = zlen d ∧
  parse_pmsg (zlen d) d =
  (r ← parse_headers (zlen d1) (S (Z.to_nat (zlen d))) d1 [] (zlen pre);
   Ok (match r with
       | Some (d, fs, n) =>
           Some (mkPmsg d (zlen d1) (zlen meth + zlen uri + 2) (SlReq 0 (zlen meth + 1)) fs, n)
       | None => None end)).
Proof.
  intros Hok d pre d1. assert (zlen d1 = zlen d) as El by (unfold d, d1, pre, request_text; text).
  split; [done|]. pose proof Hok as ([Hm _] & [Hu _] & _).
  assert (1 ≤ zlen meth ∧ 1 ≤ zlen uri) as [Lm Lu].
  { destruct meth, uri; try done. rewrite !zlen_cons. nonneg_len. lia. }
  set (p1 := meth ++ [0] ++ uri ++ [0] ++ proto ++ [0]).
  set (r3 := concat (hdr_text <$> hs) ++ crlf ++ body).
  rewrite (parse_pmsg_tail (zlen d) d p1 r3 (zlen meth + zlen uri + 2) (SlReq 0 (zlen meth + 1))).
  - rewrite El. replace (p1 ++ 10 :: r3) with d1 by (unfold d1, pre, p1, r3; text).
    by replace (p1 ++ [10]) with pre by (unfold pre, p1; text).
  - unfold d, request_text. autorewrite with wc_len. nonneg_len. lia.
  - rewrite <- El. unfold d1, pre, p1, r3. text.
  - unfold d. rewrite (parse_start_request _ _ _ _ body Hok). do 2 f_equal.
    split_pairs; [unfold p1, r3; text|done|done|unfold p1; text].
Qed.

(** The strings at the pointers of the headers. *)
Lemma header_strings_cut pre hs rest :
  Forall header_ok hs →
  foldr (λ '(n, v) r, n ← cstr (pre ++ concat (hdr_cut <$> hs) ++ rest) n;
                      v ← cstr (pre ++ concat (hdr_cut <$> hs) ++ rest) v; l ← r; Ok ((n, v) :: l))
    (Ok []) (hdr_offs (zlen pre) hs) = Ok hs.
Proof.
  intros Hhs. revert pre. induction Hhs as [|[n v] hs [[_ Hn] [Hv _]] Hhs IH]; intros pre; [done|].
  cbn [hdr_offs foldr fst snd] in *. cbn [fmap list_fmap concat].
  set (D := pre ++ _). set (R := concat (hdr_cut <$> hs) ++ rest).
  assert (D = pre ++ n ++ 0 :: 32 :: v ++ 0 :: 10 :: R) as E1 by (unfold D, R; text).
  assert (cstr D (zlen pre) = Ok n) as ->.
  { rewrite E1. apply cstr_mid. eapply Forall_impl; [exact Hn|naive_solver]. }
  rewrite res_bind_ok. assert (cstr D (zlen pre + zlen n + 2) = Ok v) as ->.
  { replace (zlen pre + zlen n + 2) with (zlen (pre ++ n ++ [0; 32])) by text.
    replace D with ((pre ++ n ++ [0; 32]) ++ v ++ 0 :: 10 :: R) by (rewrite E1; text).
    apply cstr_mid. eapply Forall_impl; [exact Hv|naive_solver]. }
  rewrite res_bind_ok. replace (zlen pre + zlen (hdr_text (n, v))) with (zlen (pre ++ hdr_cut (n, v))) by text.
  replace D with ((pre ++ hdr_cut (n, v)) ++ concat (hdr_cut <$> hs) ++ rest)
    by (unfold D; by rewrite <- !app_assoc).
  by rewrite IH.
Qed.

(** Responses: the status line, and what the parse makes of it. *)
Definition status_line (proto : list Z) (code : Z) (reason : list Z) : list Z :=
  proto ++ [32] ++ fmt_d code ++ [32] ++ reason ++ crlf.

Definition status_ok (proto : list Z) (code : Z) (reason : list Z) : Prop :=
  (47 ∈ proto ∧ Forall (λ x, x ≠ 0 ∧ x ≠ 32 ∧ x ≠ 13 ∧ x ≠ 10) proto) ∧ 100 ≤ code ≤ 999 ∧
  (plain reason ∧ starts_black reason).

Lemma fmt_code code : 100 ≤ code ≤ 999 →
  ∃ a b c, fmt_d code = [a; b; c] ∧ is_digit a ∧ is_digit b ∧ is_digit c ∧
    (a - 48) * 100 + (b - 48) * 10 + (c - 48) = code.
Proof.
  intros Hc. destruct (fmt_d_digits code ltac:(lia)) as (_ & Hd & Hv & Hl).
  specialize (Hl 3%nat ltac:(lia) ltac:(simpl; lia)). unfold dec_value in Hv.
  destruct (fmt_d code) as [|a [|b [|c [|? ?]]]]; simpl in *; rewrite ?Forall_cons in Hd;
    unfold is_digit in *; try lia.
  exists a, b, c. split_and!; naive_solver lia.
Qed.

Lemma parse_start_response proto code reason rest :
  status_ok proto code reason →
  let d := status_line proto code reason ++ rest in
  parse_start (zlen d) d =
  Ok (Some (proto ++ [0] ++ fmt_d code ++ [32] ++ reason ++ [0; 10] ++ rest, 0,
            SlStat code (zlen proto + 5), zlen proto + zlen reason + 6)).
Proof.
  intros ([Hp1 Hp2] & Hc & [Hr1 Hr2]) d. set (len := zlen d).
  destruct (fmt_code code Hc) as (a & b & c & Ef & Ha & Hb & Hcc & Hv). unfold is_digit in *.
  assert (d = proto ++ 32 :: a :: b :: c :: 32 :: reason ++ crlf ++ rest) as Ed
    by (unfold d, status_line; rewrite Ef; text).
  assert (len = zlen proto + zlen reason + zlen rest + 7) as Hlen by (unfold len; rewrite Ed; text).
  pose proof (zlen_nonneg proto). pose proof (zlen_nonneg reason). pose proof (zlen_nonneg rest).
  apply list_elem_of_split_l in Hp1 as (pa & pb & Ep & Hpa).
  assert (Forall (λ x, x ≠ 0 ∧ x ≠ 32 ∧ x ≠ 13 ∧ x ≠ 10) pa) as Hpa2 by (rewrite Ep in Hp2; by apply Forall_app in Hp2 as [? _]).
  unfold parse_start.
  assert (span_len (λ x, negb ((x =? 32) || (x =? 47))) (slice d 0 len) = zlen pa) as ->.
  { unfold len. rewrite slice_all, Ed, Ep, <- app_assoc. apply span_len_app; [|done].
    rewrite Forall_forall in Hpa2 |- *. intros x Hx. destruct (Hpa2 x Hx) as (?&?&?&?).
    assert (x ≠ 47) by (by intros ->). by rewrite !(proj2 (Z.eqb_neq _ _)). }
  assert (zlen proto = zlen pa + 1 + zlen pb) as Lp by (rewrite Ep; text).
  pose proof (zlen_nonneg pa). pose proof (zlen_nonneg pb). rewrite decide_False by lia.
  rewrite (rd_mid d pa (pb ++ 32 :: a :: b :: c :: 32 :: reason ++ crlf ++ rest) 47 (zlen pa)), res_bind_ok
    by (rewrite ?Ed, ?Ep; text).
  rewrite decide_True by done.
  set (t0 := a :: b :: c :: 32 :: reason ++ crlf ++ rest) in *.
  rewrite (delim_mid len d 0 [] proto 32 t0); [|done..| |lia]; [|eapply Forall_impl; [exact Hp2|naive_solver]].
  rewrite (rd_mid d proto t0 32 (zlen proto)), res_bind_ok by done. rewrite decide_False by lia.
  rewrite (wr_mid d proto t0 32), res_bind_ok by done.
  set (d1 := proto ++ 0 :: t0). assert (len = zlen d1) as E1 by (rewrite Hlen; unfold d1, t0; text).
  rewrite (skip_spaces_stop len d1 _ (proto ++ [0]) a (b :: c :: 32 :: reason ++ crlf ++ rest));
    [|unfold d1, t0; text|text|done|lia].
  unfold parse_status. rewrite decide_False by lia.
  rewrite (rd_mid d1 (proto ++ [0]) (b :: c :: 32 :: reason ++ crlf ++ rest) a (zlen proto + 1)), res_bind_ok by (unfold d1, t0; text).
  rewrite (rd_mid d1 (proto ++ [0; a]) (c :: 32 :: reason ++ crlf ++ rest) b (zlen proto + 1 + 1)), res_bind_ok by (unfold d1, t0; text).
  rewrite (rd_mid d1 (proto ++ [0; a; b]) (32 :: reason ++ crlf ++ rest) c (zlen proto + 1 + 2)), res_bind_ok by (unfold d1, t0; text).
  rewrite (rd_mid d1 (proto ++ [0; a; b; c]) (reason ++ crlf ++ rest) 32 (zlen proto + 1 + 3)), res_bind_ok by (unfold d1, t0; text).
  unfold isdigit. rewrite !bool_decide_eq_true_2 by lia. simpl (negb _ || negb _).
  assert (∃ x t, reason ++ crlf ++ rest = x :: t ∧ x ≠ 32) as (x & t & Ex & Hx).
  { destruct reason as [|x p]; simpl in *; [by exists 13, (10 :: rest)|]. exists x, (p ++ crlf ++ rest). naive_solver. }
  rewrite (skip_spaces_stop len d1 _ (proto ++ [0; a; b; c; 32]) x t); [|unfold d1, t0; rewrite Ex; text|text|done|done].
  rewrite (delim_mid len d1 _ (proto ++ [0; a; b; c; 32]) reason 13 (10 :: rest)); [|unfold d1, t0; text|text|done| |lia];
    [|eapply Forall_impl; [exact Hr1|naive_solver]].
  rewrite (wr_mid d1 (proto ++ [0; a; b; c; 32] ++ reason) (10 :: rest) 13), !res_bind_ok; [|unfold d1, t0; text|text].
  rewrite Ef. do 2 f_equal. split_pairs; [text|done|f_equal; [done|lia]|text].
Qed.

(** A whole response. *)
Lemma parse_response proto code reason hs body :
  status_ok proto code reason → Forall header_ok hs → zlen hs ≤ MAX_FIELDS →
  let head := status_line proto code reason ++ concat (hdr_text <$> hs) ++ crlf in
  let d := head ++ body in
  ∃ m r, parse_pmsg (zlen d) d = Ok (Some (m, zlen head)) ∧ sl m = SlStat code r ∧
    cstr (msg m) (proto_id m) = Ok proto ∧ cstr (msg m) r = Ok reason ∧ header_strings m = Ok hs.
Proof.
  intros Hok Hhs Hn head d. pose proof (parse_start_response _ _ _ (concat (hdr_text <$> hs) ++ crlf ++ body) Hok) as Hst.
  assert (d = status_line proto code reason ++ concat (hdr_text <$> hs) ++ crlf ++ body) as Ed
    by (unfold d, head; by rewrite <- !app_assoc).
  destruct Hok as ([_ Hp] & Hc & [Hr _]). cbn zeta in Hst. rewrite <- Ed in Hst.
  destruct (fmt_code code Hc) as (a & b & c & Ef & _). rewrite Ef in Hst.
  set (p1 := proto ++ [0; a; b; c; 32] ++ reason ++ [0]).
  set (r3 := concat (hdr_text <$> hs) ++ crlf ++ body) in *.
  pose proof (length_headers hs Hhs) as Hlh.
  assert (zlen d = zlen (p1 ++ 10 :: r3)) as El by (rewrite Ed; unfold status_line, p1; rewrite Ef; text).
  assert (p1 ++ 10 :: r3 = (p1 ++ [10]) ++ r3) as Ep by (by rewrite <- app_assoc).
  rewrite (parse_pmsg_tail (zlen d) d p1 r3 0 (SlStat code (zlen proto + 5))).
  - rewrite El, Ep. unfold r3. rewrite parse_headers_ok; [|done|by rewrite zlen_nil|]; rewrite ?res_bind_ok.
    2: { unfold zlen in *. rewrite !length_app. lia. }
    do 2 eexists. split; [do 3 f_equal; unfold head, status_line, p1; rewrite Ef; text|].
    set (T := concat (hdr_cut <$> hs) ++ crlf ++ body). cbn [msg proto_id sl]. split_and!; [done|..].
    + replace ((p1 ++ [10]) ++ T) with ([] ++ proto ++ 0 :: [a; b; c; 32] ++ reason ++ 0 :: 10 :: T) by (unfold p1; text).
      apply (cstr_mid []). eapply Forall_impl; [exact Hp|naive_solver].
    + replace ((p1 ++ [10]) ++ T) with ((proto ++ [0; a; b; c; 32]) ++ reason ++ 0 :: 10 :: T) by (unfold p1; text).
      replace (zlen proto + 5) with (zlen (proto ++ [0; a; b; c; 32])) by text.
      apply cstr_mid. eapply Forall_impl; [exact Hr|naive_solver].
    + by apply header_strings_cut.
  - rewrite El. unfold p1. autorewrite with wc_len. nonneg_len. lia.
  - done.
  - rewrite Hst. do 2 f_equal. split_pairs; [unfold p1; text|done|done|unfold p1; text].
Qed.

(** ** The headers of a message as a list

    [pm_holds m hs]: the message is within its bounds, its fields are the
    strings [hs], each with its terminating zero below [msg_len], and the
    strings together fit in the bytes used. *)

Definition str_at (d : list Z) (n p : Z) (s : list Z) : Prop :=
  0 ≤ p ∧ p + zlen s + 1 ≤ n ∧ Forall (λ x, x ≠ 0) s ∧ slice d p (zlen s + 1) = s ++ [0].

(** The bytes the strings of the headers take, each with its zero. *)
Definition hdrs_size (hs : list (list Z * list Z)) : Z :=
  foldr (λ h a, zlen h.1 + zlen h.2 + 2 + a) 0 hs.

Record pm_holds (m : pmsg) (hs : list (list Z * list Z)) : Prop := {
  ph_len : 0 ≤ msg_len m ≤ max_len m;
  ph_count : zlen hs ≤ MAX_FIELDS;
  ph_size : hdrs_size hs ≤ msg_len m;
  ph_fields : Forall2 (λ f h, str_at (msg m) (msg_len m) f.1 h.1 ∧ str_at (msg m) (msg_len m) f.2 h.2)
                (fields m) hs }.

(** The bytes of a string and its end. *)
Lemma cstr_end d p x :
  cstr d p = Ok x →
  0 ≤ p ∧ p + zlen x < zlen d ∧ rd d (p + zlen x) = Ok 0 ∧ ∀ i, 0 ≤ i < zlen x → rd d (p + i) = rd x i.
Proof.
  unfold cstr. cbv zeta. case_decide as H; [|done]. intros [= <-]. destruct H as [Hp H].
  assert (∀ k, 0 ≤ k → rd d (p + k) = rd (drop (Z.to_nat p) d) k) as HR.
  { intros k Hk. unfold rd. rewrite !decide_False by lia. by rewrite lookup_drop, Z2Nat.inj_add. }
  assert (p + zlen (drop (Z.to_nat p) d) ≤ Z.max p (zlen d)) as HL by (unfold zlen; rewrite length_drop; lia).
  revert H HR HL. generalize (drop (Z.to_nat p) d). intros a H HR HL.
  assert (0 ≤ span_len (λ x, negb (x =? 0)) a ∧ (span_len (λ x, negb (x =? 0)) a < zlen a →
    a !! Z.to_nat (span_len (λ x, negb (x =? 0)) a) = Some 0)) as [H0 He].
  { clear. induction a as [|y a [IH1 IH2]]; [split; [done|done]|]. cbn [span_len]. destruct (negb (y =? 0)) eqn:E.
    - split; [lia|]. rewrite zlen_cons. intros Hl. replace (Z.to_nat (1 + _)) with (S (Z.to_nat (span_len (λ x, negb (x =? 0)) a))) by lia.
      apply IH2. lia.
    - split; [lia|]. intros _. simpl. b2p. congruence. }
  assert (zlen (take (Z.to_nat (span_len (λ x, negb (x =? 0)) a)) a) = span_len (λ x, negb (x =? 0)) a) as -> by
    (unfold zlen in *; rewrite length_take; lia).
  split_and!; [done|lia| |].
  - rewrite HR by lia. unfold rd. rewrite decide_False by lia. by rewrite He.
  - intros i Hi. rewrite HR by lia. unfold rd. rewrite !decide_False by lia. by rewrite lookup_take_lt by lia.
Qed.

Lemma str_at_cstr d n p s : n ≤ zlen d → str_at d n p s → cstr d p = Ok s.
Proof.
  intros Hn (Hp & Hl & Hs & Hsl). pose proof (zlen_nonneg s).
  replace d with (take (Z.to_nat p) d ++ s ++ 0 :: drop (Z.to_nat p + (length s + 1)) d).
  - assert (p = zlen (take (Z.to_nat p) d)) as Ep by (unfold zlen in *; rewrite length_take; lia).
    rewrite Ep at 3. by apply cstr_mid.
  - rewrite <- drop_drop. unfold slice in Hsl.
    replace (Z.to_nat (zlen s + 1)) with (length s + 1)%nat in Hsl by (unfold zlen; lia).
    change (0 :: drop (length s + 1) (drop (Z.to_nat p) d)) with ([0] ++ drop (length s + 1) (drop (Z.to_nat p) d)).
    by rewrite (app_assoc s), <- Hsl, !take_drop.
Qed.

(** Writing behind a string keeps it; the written string is there. *)
Lemma str_at_blit_old d n n' p s i t :
  str_at d n p s → n ≤ i → n ≤ n' → i + zlen t ≤ zlen d → str_at (blit d i t) n' p s.
Proof.
  intros (Hp & Hl & Hs & Hsl) Hi Hn Hd. split_and!; [done|lia|done|]. rewrite <- Hsl.
  unfold slice, blit. pose proof (zlen_nonneg s).
  rewrite drop_app_le by (rewrite length_take; unfold zlen in *; lia).
  rewrite take_app_le by (rewrite length_drop, length_take; unfold zlen in *; lia).
  rewrite !firstn_skipn_comm, take_take. do 2 f_equal. unfold zlen in *. lia.
Qed.

Lemma str_at_blit_new d i s :
  0 ≤ i → i + zlen s + 1 ≤ zlen d → Forall (λ x, x ≠ 0) s →
  str_at (blit d i (s ++ [0])) (i + (zlen s + 1)) i s.
Proof.
  intros Hi Hl Hs. split_and!; [done|lia|done|]. unfold slice, blit.
  rewrite drop_app_length' by (rewrite length_take; unfold zlen in *; lia).
  apply take_app_length'. rewrite length_app. simpl. unfold zlen. lia.
Qed.

Lemma str_at_mono d n n' p s : str_at d n p s → n ≤ n' → str_at d n' p s.
Proof. intros (?&?&?&?) ?. split_and!; auto; lia. Qed.

Lemma fields_blit d n n' fs hs i t :
  Forall2 (λ f h, str_at d n f.1 h.1 ∧ str_at d n f.2 h.2) fs hs →
  n ≤ i → n ≤ n' → i + zlen t ≤ zlen d →
  Forall2 (λ f h, str_at (blit d i t) n' f.1 h.1 ∧ str_at (blit d i t) n' f.2 h.2) fs hs.
Proof.
  intros H ???. eapply Forall2_impl; [exact H|]. intros f h [??].
  split; by eapply str_at_blit_old.
Qed.

Lemma add_pmsg_string_spec m hs s :
  pm_holds m hs → Forall (λ x, x ≠ 0) s →
  match add_pmsg_string m s with
  | (m', None) => m' = m ∧ max_len m < msg_len m + zlen s + 1
  | (m', Some p) => pm_holds m' hs ∧ p = msg_len m ∧ str_at (msg m') (msg_len m') p s ∧
      max_len m' = max_len m ∧ msg_len m' = msg_len m + zlen s + 1 ∧ fields m' = fields m
  end.
Proof.
  intros [Hl Hc Hz Hf] Hs. unfold add_pmsg_string. pose proof (zlen_nonneg s). unfold max_len in *.
  case_decide as E; [split; [done|lia]|].
  assert (zlen (s ++ [0]) = zlen s + 1) as Ez by (by rewrite zlen_app).
  assert (zlen (blit (msg m) (msg_len m) (s ++ [0])) = zlen (msg m)) as Eb by (apply zlen_blit; lia).
  split_and!; [split|done|apply str_at_blit_new; [lia|lia|done]|done|simpl; lia|done].
  - unfold max_len. cbn [set_msg msg msg_len]. lia.
  - done.
  - cbn [set_msg msg_len]. lia.
  - eapply fields_blit; [done|lia|cbn [set_msg msg_len]; lia|lia].
Qed.

Lemma header_strings_holds m hs : pm_holds m hs → header_strings m = Ok hs.
Proof.
  intros [Hl _ _ Hf]. unfold header_strings. apply proj2 in Hl. unfold max_len in Hl. revert Hl Hf.
  generalize (msg m) (msg_len m) (fields m). intros d n fs Hn Hf.
  induction Hf as [|[p q] [a b] fs hs [Ha Hb] _ IH]; [done|]. cbn [foldr fst snd] in *.
  by rewrite (str_at_cstr _ _ _ _ Hn Ha), res_bind_ok, (str_at_cstr _ _ _ _ Hn Hb), res_bind_ok, IH.
Qed.

Definition assoc_header (hs : list (list Z * list Z)) (name : list Z) : option (list Z) :=
  snd <$> (snd <$> list_find (λ h, strcaseeq h.1 name = true) hs).

Lemma find_header_spec d n fs hs name k :
  n ≤ zlen d → Forall2 (λ f h, str_at d n f.1 h.1 ∧ str_at d n f.2 h.2) fs hs →
  find_header d fs name k = Ok ((λ x, k + x.1)%nat <$> list_find (λ h, strcaseeq h.1 name = true) hs).
Proof.
  intros Hn H. revert k. induction H as [|[p q] [a b] fs hs [Ha _] _ IH]; intros k; [done|].
  cbn [find_header list_find fst snd] in *. rewrite (str_at_cstr _ _ _ _ Hn Ha), res_bind_ok.
  destruct (strcaseeq a name) eqn:E.
  - rewrite decide_True by done. simpl. do 2 f_equal. lia.
  - rewrite decide_False by done. rewrite IH.
    destruct (list_find _ hs) as [[i h]|]; simpl; [|done]. do 2 f_equal. lia.
Qed.

Lemma get_header_assoc m hs name : pm_holds m hs → get_header m name = Ok (assoc_header hs name).
Proof.
  intros [Hl Hc _ Hf]. unfold get_header, assoc_header.
  rewrite (find_header_spec _ (msg_len m) _ hs) by (done || apply Hl). rewrite res_bind_ok.
  destruct (list_find _ hs) as [[i h]|] eqn:E; [|done]. simpl.
  apply list_find_Some in E as (Ei & _). destruct (Forall2_lookup_r _ _ _ _ _ Hf Ei) as ([n v] & En & _ & Hv).
  rewrite En. cbn [fst snd] in Hv. by rewrite (str_at_cstr _ _ _ _ (proj2 Hl) Hv).
Qed.

Lemma hdrs_size_nonneg hs : 0 ≤ hdrs_size hs.
Proof.
  induction hs as [|[a b] hs IH]; simpl in *; [done|].
  pose proof (zlen_nonneg a). pose proof (zlen_nonneg b). lia.
Qed.

Lemma hdrs_size_app hs hs' : hdrs_size (hs ++ hs') = hdrs_size hs + hdrs_size hs'.
Proof. induction hs as [|h hs IH]; simpl; [done|]. rewrite IH. lia. Qed.

Lemma add_header_spec m hs name value :
  pm_holds m hs → Forall (λ x, x ≠ 0) name → Forall (λ x, x ≠ 0) value →
  let room := zlen hs < MAX_FIELDS ∧ msg_len m + zlen name + zlen value + 2 ≤ max_len m in
  let '(m', ok) := add_header m name value in
  pm_holds m' (if ok then hs ++ [(name, value)] else hs) ∧ (ok = true ↔ room) ∧
  max_len m' = max_len m ∧ (ok = true → msg_len m' = msg_len m + zlen name + zlen value + 2).
Proof.
  intros H Hn Hv room. pose proof H as [Hl Hc Hz Hf]. unfold add_header, header_count.
  pose proof (zlen_nonneg name) as Ln. pose proof (zlen_nonneg value) as Lv.
  assert (zlen (fields m) = zlen hs) as Ef by (unfold zlen; by rewrite (Forall2_length _ _ _ Hf)).
  case_decide as E1; [split; [done|]; split; [unfold room; split; [done|lia]|done]|].
  pose proof (add_pmsg_string_spec m hs name H Hn) as H1. destruct (add_pmsg_string m name) as [m1 [p|]].
  2: { destruct H1 as [-> H1]. split; [done|]. split; [unfold room; split; [done|lia]|done]. }
  destruct H1 as (H1 & -> & S1 & M1 & L1 & F1).
  pose proof (add_pmsg_string_spec m1 hs value H1 Hv) as H2.
  pose proof (ph_len _ _ H1) as Hl1. unfold max_len in Hl1.
  destruct (add_pmsg_string m1 value) as [m2 [q|]] eqn:E2.
  2: { destruct H2 as [-> H2]. rewrite M1 in H2. split; [done|]. split; [unfold room; split; [done|lia]|done]. }
  destruct H2 as (H2 & -> & S2 & M2 & L2 & F2). destruct H2 as [Hl2 Hc2 Hz2 Hf2].
  assert (str_at (msg m2) (msg_len m2) (msg_len m) name) as S1'.
  { unfold add_pmsg_string in E2. case_decide as E3; [done|]. injection E2 as <-.
    unfold max_len in E3. cbn [set_msg msg msg_len] in *.
    eapply str_at_blit_old; [exact S1|lia|lia|]. rewrite zlen_app. change (zlen [0]) with 1. lia. }
  split; [|split; [|split]].
  - split; cbn [set_msg msg msg_len fields] in *; [done| | |].
    + rewrite zlen_app. change (zlen [(name, value)]) with 1. unfold MAX_FIELDS in *. lia.
    + rewrite hdrs_size_app. simpl. lia.
    + apply Forall2_app; [done|]. apply Forall2_cons. split; [by split|apply Forall2_nil]; done.
  - unfold room. split; [intros _|done]. unfold max_len in *. unfold MAX_FIELDS in *. lia.
  - unfold max_len in *. simpl. congruence.
  - intros _. simpl. lia.
Qed.

(** A string added at the end leaves the others where they are. *)
Lemma add_string_keeps m hs x p s :
  pm_holds m hs → str_at (msg m) (msg_len m) p s →
  str_at (msg (add_pmsg_string m x).1) (msg_len (add_pmsg_string m x).1) p s.
Proof.
  intros Hm Hs. pose proof (ph_len _ _ Hm). unfold add_pmsg_string, max_len in *. pose proof (zlen_nonneg x). case_decide; [done|].
  cbn [fst set_msg msg msg_len]. eapply str_at_blit_old; [done|lia|lia|]. rewrite zlen_app. change (zlen [0]) with 1. lia.
Qed.

Lemma add_header_keeps m hs name value :
  pm_holds m hs → Forall (λ x, x ≠ 0) name →
  (∀ p s, str_at (msg m) (msg_len m) p s →
    str_at (msg (add_header m name value).1) (msg_len (add_header m name value).1) p s) ∧
  sl (add_header m name value).1 = sl m ∧ proto_id (add_header m name value).1 = proto_id m.
Proof.
  intros Hm Hn. split.
  - intros p s Hs. unfold add_header. case_decide; [done|].
    pose proof (add_string_keeps m hs name p s Hm Hs) as H1. pose proof (add_pmsg_string_spec m hs name Hm Hn) as S1.
    destruct (add_pmsg_string m name) as [m1 [q|]]; [|done]. destruct S1 as (S1 & _).
    pose proof (add_string_keeps m1 hs value p s S1 H1) as H2. by destruct (add_pmsg_string m1 value) as [m2 [q2|]].
  - unfold add_header, add_pmsg_string. repeat case_decide; done.
Qed.

Definition same_name (name : list Z) (h : list Z * list Z) : bool := strcaseeq h.1 name.

(** Copying keeps headers of that name, in order, and all of them while there
    is room. *)
Lemma copy_fields_spec dest hs d n fs hs' name k :
  pm_holds dest hs → n ≤ zlen d →
  Forall2 (λ f h, str_at d n f.1 h.1 ∧ str_at d n f.2 h.2) fs hs' →
  let found := filter (λ h, same_name name h = true) hs' in
  ∃ dest' kept, copy_fields dest d fs name k = Ok (dest', k + zlen found) ∧
    pm_holds dest' (hs ++ kept) ∧ sublist kept found ∧
    (zlen hs + zlen found ≤ MAX_FIELDS → msg_len dest + hdrs_size found ≤ max_len dest → kept = found).
Proof.
  intros H Hn Hf. revert dest hs H k. induction Hf as [|[p q] [a b] fs hs' [Ha Hb] _ IH]; intros dest hs H k.
  - exists dest, []. rewrite app_nil_r, Z.add_0_r. done.
  - cbn [copy_fields fst snd] in *. rewrite (str_at_cstr _ _ _ _ Hn Ha), res_bind_ok.
    destruct (strcaseeq a name) eqn:E.
    + rewrite filter_cons_True by done.
      rewrite (str_at_cstr _ _ _ _ Hn Hb), res_bind_ok.
      pose proof (add_header_spec dest hs a b H (proj1 (proj2 (proj2 Ha))) (proj1 (proj2 (proj2 Hb)))) as HA.
      destruct (add_header dest a b) as [m1 ok]. destruct HA as (HA & Hok & Hmax & Hlen). cbn [fst].
      destruct (IH m1 _ HA (k + 1)) as (dest' & kept & Eq & Hh & Hs & Hall).
      exists dest', (if ok then (a, b) :: kept else kept). split_and!.
      * rewrite Eq, zlen_cons. do 2 f_equal. lia.
      * destruct ok; [by rewrite <- app_assoc in Hh|done].
      * destruct ok; [by apply sublist_skip|by apply sublist_cons].
      * rewrite zlen_cons. cbn [hdrs_size foldr fst snd]. intros Hroom Hfit.
        pose proof (zlen_nonneg (filter (λ h, same_name name h = true) hs')).
        pose proof (hdrs_size_nonneg (filter (λ h, same_name name h = true) hs')) as Hsz.
        unfold hdrs_size in Hsz. rewrite (proj2 Hok) in * by (split; lia).
        f_equal. apply Hall; [rewrite zlen_app; change (zlen [(a, b)]) with 1; lia|].
        rewrite Hlen, Hmax by done. unfold hdrs_size. lia.
    + rewrite filter_cons_False by (unfold same_name; simpl; by rewrite E). by apply IH.
Qed.

Lemma parse_request meth uri proto hs body :
  request_ok meth uri proto hs → zlen hs ≤ MAX_FIELDS →
  let d := request_text meth uri proto hs ++ body in
  ∃ m u, parse_pmsg (zlen d) d = Ok (Some (m, zlen (request_text meth uri proto hs))) ∧
    sl m = SlReq 0 u ∧ cstr (msg m) 0 = Ok meth ∧ cstr (msg m) u = Ok uri ∧
    cstr (msg m) (proto_id m) = Ok proto ∧ header_strings m = Ok hs.
Proof.
  intros Hok Hn d. pose proof (parse_pmsg_request meth uri proto hs body Hok) as [El Hp].
  set (pre := meth ++ [0] ++ uri ++ [0] ++ proto ++ [0; 10]) in *.
  destruct Hok as ([_ Hm] & [_ Hu] & [Hpr _] & Hhs). pose proof (length_headers hs Hhs) as Hlh.
  rewrite (parse_headers_ok _ pre hs body []) in Hp; [|done|by rewrite zlen_nil|].
  2: { rewrite <- El. unfold zlen in *. rewrite !length_app. lia. }
  set (D := pre ++ concat (hdr_cut <$> hs) ++ crlf ++ body) in *.
  do 2 eexists. split; [unfold d; rewrite Hp, res_bind_ok; do 3 f_equal; unfold pre, request_text; text|].
  split; [done|]. cbn [msg proto_id].
  set (T := concat (hdr_cut <$> hs) ++ crlf ++ body) in *.
  split_and!.
  - assert (D = [] ++ meth ++ 0 :: uri ++ 0 :: proto ++ 0 :: 10 :: T) as -> by (unfold D, pre; text).
    apply cstr_mid. eapply Forall_impl; [exact Hm|naive_solver].
  - assert (D = (meth ++ [0]) ++ uri ++ 0 :: proto ++ 0 :: 10 :: T) as -> by (unfold D, pre; text).
    replace (zlen meth + 1) with (zlen (meth ++ [0])) by text.
    apply cstr_mid. eapply Forall_impl; [exact Hu|naive_solver].
  - assert (D = (meth ++ [0] ++ uri ++ [0]) ++ proto ++ 0 :: 10 :: T) as -> by (unfold D, pre; text).
    replace (zlen meth + zlen uri + 2) with (zlen (meth ++ [0] ++ uri ++ [0])) by text.
    apply cstr_mid. eapply Forall_impl; [exact Hpr|naive_solver].
  - by apply header_strings_cut.
Qed.

(** Requests are read back exactly: for every request line and at most 32
    headers in the form of RFC 2326, followed by any bytes, [parse_pmsg]
    succeeds, consumes exactly the head of the message, and the method, URI,
    protocol and the names and values of all headers are the strings at the
    pointers it stores. *)
Lemma pmsg_request_roundtrip meth uri proto hs body :
  request_ok meth uri proto hs → zlen hs ≤ MAX_FIELDS →
  let d := request_text meth uri proto hs ++ body in
  ∃ m u, parse_pmsg (zlen d) d = Ok (Some (m, zlen (request_text meth uri proto hs))) ∧
    sl m = SlReq 0 u ∧ cstr (msg m) 0 = Ok meth ∧ cstr (msg m) u = Ok uri ∧
    cstr (msg m) (proto_id m) = Ok proto ∧ header_strings m = Ok hs.
Proof. apply parse_request. Qed.

(** A request with more than 32 headers, otherwise well-formed, makes
    [parse_pmsg] write behind the 32 entries of [fields]. *)
Lemma pmsg_many_headers_overflow meth uri proto hs body :
  request_ok meth uri proto hs → MAX_FIELDS < zlen hs →
  let d := request_text meth uri proto hs ++ body in
  parse_pmsg (zlen d) d = Fault OutOfBounds.
Proof.
  intros Hok Hn d. pose proof (parse_pmsg_request meth uri proto hs body Hok) as [El Hp].
  unfold d. rewrite Hp. destruct Hok as (_ & _ & _ & Hhs). pose proof (length_headers hs Hhs).
  rewrite parse_headers_overflow; [done|done|rewrite zlen_nil; unfold MAX_FIELDS in *; lia|].
  rewrite <- El. unfold zlen in *. rewrite !length_app. lia.
Qed.

(** C22. The headers of a message are a list: from an empty message on,
    [get_header] finds the first value of a name without regard to case,
    [add_header] appends exactly when there is a free field and room for both
    strings, and leaves every header as it was otherwise, and [copy_headers]
    counts the headers of the given name and appends them in their order: all
    of them when there are fields and room for all, and otherwise a part of
    them. *)
Theorem pmsg_headers_refine :
  (∀ heap, pm_holds (new_pmsg heap) []) ∧
  (∀ m hs name, pm_holds m hs → get_header m name = Ok (assoc_header hs name)) ∧
  (∀ m hs name value, pm_holds m hs → Forall (λ x, x ≠ 0) name → Forall (λ x, x ≠ 0) value →
     let '(m', ok) := add_header m name value in
     pm_holds m' (if ok then hs ++ [(name, value)] else hs) ∧
     (ok = true ↔ zlen hs < MAX_FIELDS ∧ msg_len m + zlen name + zlen value + 2 ≤ max_len m)) ∧
  (∀ dest hs src hs' name, pm_holds dest hs → pm_holds src hs' →
     let found := filter (λ h, same_name name h = true) hs' in
     ∃ dest' kept, copy_headers dest src name = Ok (dest', zlen found) ∧
       pm_holds dest' (hs ++ kept) ∧ sublist kept found ∧
       (zlen hs + zlen found ≤ MAX_FIELDS →
        msg_len dest + hdrs_size found ≤ max_len dest →
        kept = found)).
Proof.
  split_and!.
  - intros heap. split; [|done|done|constructor]. unfold max_len. simpl. pose proof (zlen_nonneg heap). lia.
  - intros m hs name. apply get_header_assoc.
  - intros m hs name value H Hn Hv. pose proof (add_header_spec m hs name value H Hn Hv) as HA.
    destruct (add_header m name value). by destruct HA as (? & ? & _).
  - intros dest hs src hs' name Hd [Hl _ _ Hf].
    destruct (copy_fields_spec dest hs (msg src) (msg_len src) (fields src) hs' name 0 Hd) as (d' & kept & H1 & H2 & H3 & H4);
      [apply Hl|done|]. by exists d', kept.
Qed.

(** ** Witnesses *)

Definition wit_hs : list (list Z * list Z) := [($"CSeq", $"3"); ($"Session", $"abc def")].

Lemma wit_header_ok : Forall header_ok wit_hs.
Proof.
  unfold wit_hs. repeat constructor; simpl; try congruence; repeat constructor; vm_compute; congruence.
Qed.

Lemma wit_request_ok hs : Forall header_ok hs → request_ok ($"PLAY") ($"rtsp://cam/live") ($"RTSP/1.0") hs.
Proof.
  intros H. unfold request_ok. split_and!; try done; simpl; unfold plain; repeat constructor; vm_compute; congruence.
Qed.

Lemma pmsg_request_roundtrip_witness :
  let d := request_text ($"PLAY") ($"rtsp://cam/live") ($"RTSP/1.0") wit_hs ++ $"rest" in
  ∃ m u, parse_pmsg (zlen d) d =
      Ok (Some (m, zlen (request_text ($"PLAY") ($"rtsp://cam/live") ($"RTSP/1.0") wit_hs))) ∧
    sl m = SlReq 0 u ∧ cstr (msg m) 0 = Ok ($"PLAY") ∧ cstr (msg m) u = Ok ($"rtsp://cam/live") ∧
    cstr (msg m) (proto_id m) = Ok ($"RTSP/1.0") ∧ header_strings m = Ok wit_hs.
Proof.
  apply (pmsg_request_roundtrip ($"PLAY") ($"rtsp://cam/live") ($"RTSP/1.0") wit_hs ($"rest")).
  - apply wit_request_ok, wit_header_ok.
  - vm_compute. congruence.
Defined.

Lemma pmsg_many_headers_overflow_witness :
  let hs := replicate 33 ($"A", $"b") in
  let d := request_text ($"PLAY") ($"rtsp://cam/live") ($"RTSP/1.0") hs ++ [] in
  parse_pmsg (zlen d) d = Fault OutOfBounds.
Proof.
  apply (pmsg_many_headers_overflow ($"PLAY") ($"rtsp://cam/live") ($"RTSP/1.0") (replicate 33 ($"A", $"b")) []).
  - apply wit_request_ok. apply Forall_replicate. repeat constructor; simpl; vm_compute; congruence.
  - vm_compute. reflexivity.
Defined.
