(* ===== verification/SendBuf.v ===== *)
(** * SendBuf: the send buffer of a TCP connection and interleaved RTP

    Models the send side of tcp.c ([avail_send_buf], [send_data], [conn_write],
    [tcp_send_pmsg]) and the interleaving of rtsp.c ([tcp_conn_flush],
    [interleave_send]) of src/sources/applications/RTSPServer/src. The circular
    buffer refines a queue of bytes; RTP and RTCP packets go through it framed
    with their channel, and the connection is a [Transport] for the endpoints of
    [Rtp]. *)

From stdpp Require Import prelude gmap strings pretty.
From S2P Require Import Prelude Rtp Pmsg.

Local Open Scope c_scope.

(** ** Data *)

(** The fields of [struct conn] the send side uses; [sizeof(c->send_buf)] is the
    length of [send_buf]; [write_on] is whether the write event is enabled. *)
Record send_state := mkSend {
  send_buf : list Z;
  send_buf_r : nat;
  send_buf_w : nat;
  drop_after : bool;
  write_on : bool }.

Definition SEND_BUF_SIZE : nat := Z.to_nat 65536.

(** [do_accept] on a fresh connection; the bytes are as malloc left them. *)
Definition new_send (heap : list Z) : send_state := mkSend heap 0 0 false false.

(** ** Operations *)

Definition avail_send_buf (c : send_state) : nat :=
  if decide (send_buf_w c < send_buf_r c)%nat then send_buf_r c - send_buf_w c - 1
  else length (send_buf c) - send_buf_w c + send_buf_r c - 1.

Definition put_byte (c : send_state) (x : Z) : send_state :=
  mkSend (<[send_buf_w c := x]> (send_buf c)) (send_buf_r c)
    (ring_next (length (send_buf c)) (send_buf_w c)) (drop_after c) (write_on c).

(** The return value is 1 when the data does not fit. *)
Definition send_data (c : send_state) (d : list Z) : send_state * Z :=
  if decide (avail_send_buf c < length d)%nat then (c, 1)
  else
    let c := foldl put_byte c d in
    (mkSend (send_buf c) (send_buf_r c) (send_buf_w c) (drop_after c) true, 0).

(** The answers of [write]: [WWrote n] bytes with [0 < n], [WAgain] for EAGAIN,
    [WFail] for zero or another error. *)
Inductive write_answer := WWrote (n : nat) | WAgain | WFail.

(** What one pass of the loop offers to [write]. *)
Definition offered (c : send_state) : nat :=
  if decide (send_buf_w c < send_buf_r c)%nat then length (send_buf c) - send_buf_r c
  else send_buf_w c - send_buf_r c.

Definition took (c : send_state) (n : nat) : send_state :=
  let r := (send_buf_r c + n)%nat in
  mkSend (send_buf c) (if decide (r = length (send_buf c)) then 0%nat else r) (send_buf_w c)
    (drop_after c) (write_on c).

(** The loop of [conn_write] and [tcp_conn_flush] against the answers of the
    kernel: done, stopped at an error, or still asking when no answer is left
    (EAGAIN is asked again at once). The list is what the kernel took. *)
Inductive flush_result := Flushed (c : send_state) | FlushFailed (c : send_state) | FlushBusy (c : send_state).

Fixpoint flush (c : send_state) (ws : list write_answer) : list Z * flush_result :=
  if decide (send_buf_r c = send_buf_w c) then ([], Flushed c) else
  match ws with
  | [] => ([], FlushBusy c)
  | WFail :: _ => ([], FlushFailed c)
  | WAgain :: ws => flush c ws
  | WWrote n :: ws =>
      let n := (n `min` offered c)%nat in
      let '(out, r) := flush (took c n) ws in
      (take n (drop (send_buf_r c) (send_buf c)) ++ out, r)
  end.

(** [None] is a dropped connection. *)
Definition conn_write (c : send_state) (ws : list write_answer) : list Z * option send_state :=
  match flush c ws with
  | (out, Flushed c) =>
      (out, if drop_after c then None
            else Some (mkSend (send_buf c) (send_buf_r c) (send_buf_w c) (drop_after c) false))
  | (out, FlushFailed c) => (out, None)
  | (out, FlushBusy c) => (out, Some c)
  end.

Definition tcp_conn_flush (c : send_state) (ws : list write_answer) : list Z * send_state :=
  match flush c ws with (out, Flushed c) | (out, FlushFailed c) | (out, FlushBusy c) => (out, c) end.

(** [interleave_send]: the bytes the kernel took while flushing, the state and
    the return value. *)
Definition interleave_send (c : send_state) (chan : Z) (v : list (list Z)) (ws : list write_answer)
  : list Z * send_state * Z :=
  let len := foldr (λ b a, zlen b + a) 0 v in
  let '(out, c) :=
    if decide (Z.of_nat (avail_send_buf c) < len + 4) then tcp_conn_flush c ws else ([], c) in
  if decide (Z.of_nat (avail_send_buf c) < len + 4) then (out, c, 1)
  else
    let head := [36; u8 chan] ++ PUT_16 len in
    let c := fst (send_data c head) in
    (out, foldl (λ c b, fst (send_data c b)) c v, 0).

(** ** Responses *)

(** The text [tcp_send_pmsg] formats; its buffer has 2048 bytes. *)
Definition response_text (proto : list Z) (code : Z) (reason : list Z) (hs : list (list Z * list Z))
    (len : Z) : list Z :=
  proto ++ [32] ++ fmt_d code ++ [32] ++ reason ++ crlf ++ concat (hdr_text <$> hs)
  ++ (if decide (0 ≤ len) then $"Content-Length: " ++ fmt_d len ++ crlf ++ crlf else crlf).

Definition tcp_send_pmsg (c : send_state) (m : pmsg) (len : Z) : res (send_state * Z) :=
  match sl m with
  | SlReq _ _ => Ok (c, -1)
  | SlStat code reason =>
      proto ← cstr (msg m) (proto_id m);
      reason ← cstr (msg m) reason;
      hs ← header_strings m;
      let text := response_text proto code reason hs len in
      if decide (2048 ≤ zlen text) then Fault OutOfBounds else
      let totlen := if decide (0 ≤ len) then zlen text + len else zlen text in
      if decide (Z.of_nat (avail_send_buf c) < totlen) then Ok (c, -1)
      else Ok (fst (send_data c text), 0)
  end.

(** ** The buffer refines a queue *)

Record queue_of (c : send_state) (q : list Z) : Prop := {
  qo_r : (send_buf_r c < length (send_buf c))%nat;
  qo_w : send_buf_w c = ((send_buf_r c + length q) `mod` length (send_buf c))%nat;
  qo_len : (length q < length (send_buf c))%nat;
  qo_ring : ring_holds (send_buf c) (send_buf_r c) q }.

Lemma mod_cases n r k : (r < n)%nat → (k < n)%nat →
  ((r + k) `mod` n = if decide (r + k < n) then r + k else r + k - n)%nat.
Proof.
  intros Hr Hk. case_decide; [by apply Nat.mod_small|].
  replace (r + k)%nat with (r + k - n + 1 * n)%nat at 1 by lia.
  rewrite Nat.Div0.mod_add. apply Nat.mod_small. lia.
Qed.

Lemma queue_w c q : queue_of c q →
  send_buf_w c = (if decide (send_buf_r c + length q < length (send_buf c)) then send_buf_r c + length q
                  else send_buf_r c + length q - length (send_buf c))%nat.
Proof. intros [Hr -> Hl _]. by apply mod_cases. Qed.

Lemma avail_queue c q : queue_of c q → avail_send_buf c = (length (send_buf c) - 1 - length q)%nat.
Proof.
  intros H. pose proof (queue_w c q H) as Hw. destruct H as [Hr _ Hl _]. unfold avail_send_buf.
  rewrite Hw. clear Hw. case_decide; case_decide; lia.
Qed.

Lemma queue_empty c q : queue_of c q → send_buf_r c = send_buf_w c ↔ q = [].
Proof.
  intros H. pose proof (queue_w c q H) as Hw. destruct H as [Hr _ Hl _]. rewrite Hw. clear Hw.
  split; [|intros ->; simpl; case_decide; lia].
  intros E. apply nil_length_inv. case_decide; lia.
Qed.

Lemma put_byte_queue c q x :
  queue_of c q → (S (length q) < length (send_buf c))%nat → queue_of (put_byte c x) (q ++ [x]).
Proof.
  intros [Hr Hw Hl Hq] Hlt. split; cbn [put_byte send_buf send_buf_r send_buf_w]; rewrite ?length_insert.
  - done.
  - rewrite Hw, length_app. simpl. rewrite ring_next_end by done. f_equal. lia.
  - rewrite length_app. simpl. lia.
  - rewrite Hw. by apply ring_holds_snoc.
Qed.

Lemma put_bytes_queue c q d :
  queue_of c q → (length q + length d < length (send_buf c))%nat →
  queue_of (foldl put_byte c d) (q ++ d) ∧ length (send_buf (foldl put_byte c d)) = length (send_buf c).
Proof.
  revert c q. induction d as [|x d IH]; intros c q H Hl; cbn [foldl length] in *.
  - by rewrite app_nil_r.
  - destruct (IH (put_byte c x) (q ++ [x])) as [H1 H2].
    + apply put_byte_queue; [done|lia].
    + rewrite length_app. simpl. rewrite length_insert. lia.
    + rewrite <- app_assoc in H1. split; [done|]. rewrite H2. apply length_insert.
Qed.

Lemma send_data_queue c q d :
  queue_of c q →
  let '(c', ret) := send_data c d in
  length (send_buf c') = length (send_buf c) ∧
  if decide (length q + length d < length (send_buf c))%nat then ret = 0 ∧ queue_of c' (q ++ d) ∧ write_on c' = true
  else ret = 1 ∧ c' = c.
Proof.
  intros H. unfold send_data. rewrite (avail_queue c q H). pose proof (qo_len _ _ H).
  case_decide as E1; case_decide as E2; try lia; [done|].
  destruct (put_bytes_queue c q d H E2) as [[H1 H2 H3 H4] HL]. by split_and!.
Qed.

Lemma took_queue c q n :
  queue_of c q → (n <= offered c)%nat →
  take n (drop (send_buf_r c) (send_buf c)) = take n q ∧ queue_of (took c n) (drop n q).
Proof.
  intros H Hn. pose proof (queue_w c q H) as Hw. destruct H as [Hr Hw' Hl [Hl' Hq]].
  assert (n <= length q ∧ send_buf_r c + n <= length (send_buf c))%nat as [Hnq Hrn].
  { unfold offered in Hn. destruct (decide (send_buf_r c + length q < length (send_buf c))%nat);
      rewrite Hw in Hn; case_decide; lia. }
  split.
  - apply list_eq_same_length with n; [rewrite length_take; lia|rewrite length_take, length_drop; lia|].
    intros i x y Hi. rewrite !lookup_take_lt by lia. rewrite lookup_drop.
    intros Hx Hy. specialize (Hq i y Hy). rewrite Nat.mod_small in Hq by lia. congruence.
  - clear Hw Hn. set (N := length (send_buf c)) in *.
    set (r' := if decide ((send_buf_r c + n)%nat = N) then 0%nat else (send_buf_r c + n)%nat).
    assert (∀ k, ((r' + k) `mod` N = (send_buf_r c + (n + k)) `mod` N)%nat) as Hr'.
    { intros k. unfold r'. case_decide as E; [|f_equal; lia].
      replace (send_buf_r c + (n + k))%nat with (k + 1 * N)%nat by lia. by rewrite Nat.Div0.mod_add. }
    split; cbn [took send_buf send_buf_r send_buf_w]; fold N r'.
    + unfold r'. case_decide; lia.
    + rewrite Hr', length_drop, Hw'. do 2 f_equal. lia.
    + rewrite length_drop. lia.
    + split; [rewrite length_drop; lia|]. intros i x Hx. rewrite lookup_drop in Hx.
      fold N. rewrite Hr'. by apply Hq.
Qed.

Definition flush_state (r : flush_result) : send_state :=
  match r with Flushed c | FlushFailed c | FlushBusy c => c end.

Lemma flush_queue c q ws out r :
  queue_of c q → flush c ws = (out, r) →
  length (send_buf (flush_state r)) = length (send_buf c) ∧
  drop_after (flush_state r) = drop_after c ∧
  ∃ q', q = out ++ q' ∧ queue_of (flush_state r) q' ∧
    match r with Flushed _ => q' = [] | _ => q' ≠ [] end.
Proof.
  revert c q out r. induction ws as [|w ws IH]; intros c q out r H; cbn [flush]; case_decide as E.
  1,3: intros [= <- <-]; apply (queue_empty c q H) in E as ->;
    (split; [done|split; [done|]]); exists []; by split_and!.
  - intros [= <- <-]. split_and!; try done. exists q. split_and!; try done. intros ->. by apply E, (queue_empty c [] H).
  - destruct w as [n| |].
    + set (n' := (n `min` offered c)%nat). destruct (flush (took c n') ws) as [out' r'] eqn:EF.
      intros [= <- <-]. destruct (took_queue c q n' H ltac:(lia)) as [Ht Hq].
      destruct (IH _ _ _ _ Hq EF) as (H1 & H2 & q' & H3 & H4 & H5).
      split_and!; [done|done|]. exists q'. split; [|done].
      by rewrite Ht, <- app_assoc, <- H3, take_drop.
    + intros EF. by eapply IH.
    + intros [= <- <-]. split_and!; try done. exists q. split_and!; try done.
      intros ->. by apply E, (queue_empty c [] H).
Qed.

(** ** Interleaved packets *)

Definition vec_len (v : list (list Z)) : Z := foldr (λ b a, zlen b + a) 0 v.

Definition iframe (chan : Z) (p : list Z) : list Z := [36; u8 chan] ++ PUT_16 (zlen p) ++ p.

Lemma vec_len_concat v : vec_len v = zlen (concat v).
Proof. induction v as [|b v IH]; simpl; [done|]. by rewrite IH, zlen_app. Qed.

Lemma send_vecs_queue c q v :
  queue_of c q → (length q + length (concat v) < length (send_buf c))%nat →
  let c' := foldl (λ c b, fst (send_data c b)) c v in
  queue_of c' (q ++ concat v) ∧ length (send_buf c') = length (send_buf c).
Proof.
  revert c q. induction v as [|b v IH]; intros c q H Hl; cbn [foldl concat] in *.
  - by rewrite app_nil_r.
  - rewrite length_app in Hl. pose proof (send_data_queue c q b H) as HS.
    destruct (send_data c b) as [c1 ret]. destruct HS as [HL HS]. rewrite decide_True in HS by lia.
    destruct HS as (_ & H1 & _). cbn [fst]. destruct (IH c1 (q ++ b) H1) as [H2 H3].
    + rewrite length_app. lia.
    + rewrite <- app_assoc in H2. split; [done|]. by rewrite H3.
Qed.

(** A packet enters the queue whole or not at all; what the kernel took
    meanwhile came from the front. *)
Lemma interleave_send_queue c q chan v ws out c' ret :
  queue_of c q → interleave_send c chan v ws = (out, c', ret) →
  ∃ q', q = out ++ q' ∧ length (send_buf c') = length (send_buf c) ∧
    ((ret = 0 ∧ queue_of c' (q' ++ iframe chan (concat v)) ∧
      zlen (concat v) + 4 < Z.of_nat (length (send_buf c))) ∨
     (ret = 1 ∧ queue_of c' q' ∧ Z.of_nat (length (send_buf c)) ≤ zlen q' + zlen (concat v) + 4)).
Proof.
  intros H. unfold interleave_send. fold (vec_len v). rewrite vec_len_concat.
  set (step := if decide (Z.of_nat (avail_send_buf c) < _) then _ else _).
  assert (∃ o c1 q1, step = (o, c1) ∧ q = o ++ q1 ∧ queue_of c1 q1 ∧
    length (send_buf c1) = length (send_buf c)) as (o & c1 & q1 & -> & -> & H1 & HL1).
  { unfold step. case_decide; [|by exists [], c, q]. unfold tcp_conn_flush.
    destruct (flush c ws) as [o r] eqn:EF. destruct (flush_queue _ _ _ _ _ H EF) as (F1 & _ & q1 & F2 & F3 & _).
    exists o, (flush_state r), q1. by destruct r. }
  pose proof (avail_queue c1 q1 H1) as HA. pose proof (qo_len _ _ H1).
  case_decide as E; intros [= <- <- <-]; exists q1; (split; [done|]).
  - split; [done|]. right. split; [done|]. split; [done|]. rewrite HA in E. unfold zlen in *. lia.
  - rewrite HA in E. set (hd := [36; u8 chan] ++ PUT_16 (zlen (concat v))).
    change (36 :: u8 chan :: PUT_16 (zlen (concat v))) with hd.
    assert (length hd = 4%nat) as Eh by done.
    pose proof (send_data_queue c1 q1 hd H1) as HS.
    destruct (send_data c1 hd) as [c2 ret2]. destruct HS as [HL2 HS].
    rewrite decide_True in HS by (unfold zlen in *; lia). destruct HS as (_ & H2 & _). cbn [fst].
    destruct (send_vecs_queue c2 (q1 ++ hd) v H2) as [H3 HL3].
    { rewrite length_app. unfold zlen in *. lia. }
    split; [etrans; [exact HL3|]; by rewrite HL2|]. left. split; [done|]. split; [|unfold zlen in *; lia].
    unfold hd in H3. by rewrite <- app_assoc in H3.
Qed.

(** The client side: the packets of a byte stream, as far as they are complete. *)
Fixpoint demux (fuel : nat) (l : list Z) : list (Z * list Z) :=
  match fuel with
  | O => []
  | S fuel =>
      match l with
      | 36 :: ch :: a :: b :: rest =>
          if decide (zlen rest < GET_16 a b) then []
          else (ch, take (Z.to_nat (GET_16 a b)) rest) :: demux fuel (drop (Z.to_nat (GET_16 a b)) rest)
      | _ => []
      end
  end.

Definition ipackets (l : list (Z * list Z)) : list Z := concat ((λ '(ch, p), iframe ch p) <$> l).

Definition ipacket_ok (x : Z * list Z) : Prop := 0 ≤ x.1 < 256 ∧ zlen x.2 < 65536.

(** A prefix of a stream of packets gives a prefix of the packets. *)
Lemma demux_prefix fuel l acc :
  Forall ipacket_ok acc → l `prefix_of` ipackets acc → demux fuel l `prefix_of` acc.
Proof.
  intros Ha. revert fuel l. induction Ha as [|[ch p] acc [Hc Hp] Ha IH]; intros fuel l Hl.
  - apply prefix_nil_inv in Hl as ->. by destruct fuel.
  - destruct fuel as [|fuel]; [apply prefix_nil|]. cbn [fst snd] in *.
    assert (ipackets ((ch, p) :: acc) = iframe ch p ++ ipackets acc) as E by done. rewrite E in Hl.
    unfold iframe in Hl. rewrite PUT_16_eq in Hl. cbn [app] in Hl.
    assert (u8 ch = ch) as Ech by (unfold u8; apply Z.mod_small; lia). rewrite Ech in Hl.
    do 4 (destruct l as [|? l]; [apply prefix_nil|]; apply prefix_cons_inv_1 in Hl as Heq;
      apply prefix_cons_inv_2 in Hl; subst; try apply prefix_nil).
    cbn [demux].
    assert (GET_16 ((zlen p `div` 256) `mod` 256) (zlen p `mod` 256) = zlen p) as ->.
    { rewrite GET_16_eq by apply u8_range. pose proof (zlen_nonneg p). zdm. }
    case_decide as El; [apply prefix_nil|]. rewrite to_nat_zlen.
    assert (∃ l', l = p ++ l' ∧ l' `prefix_of` ipackets acc) as (l' & -> & Hl').
    { destruct Hl as [k Hk]. exists (drop (length p) l). unfold zlen in El.
      assert (take (length p) l = p) as Et.
      { transitivity (take (length p) (l ++ k)); [by rewrite take_app_le by lia|].
        rewrite <- Hk. apply take_app_length. }
      split; [by rewrite <- Et at 1; rewrite take_drop|].
      exists k. rewrite <- drop_app_le by lia. rewrite <- Hk. symmetry. apply drop_app_length. }
    rewrite take_app_length, drop_app_length. by apply prefix_cons, IH.
Qed.

Lemma demux_all fuel acc :
  Forall ipacket_ok acc → (length acc <= fuel)%nat → demux fuel (ipackets acc) = acc.
Proof.
  intros Ha. revert fuel. induction Ha as [|[ch p] acc [Hc Hp] Ha IH]; intros fuel Hf; [by destruct fuel|].
  destruct fuel as [|fuel]; [simpl in Hf; lia|]. cbn [fst snd] in *.
  assert (ipackets ((ch, p) :: acc) = iframe ch p ++ ipackets acc) as -> by done.
  unfold iframe. rewrite PUT_16_eq. cbn [app demux].
  assert (GET_16 ((zlen p `div` 256) `mod` 256) (zlen p `mod` 256) = zlen p) as ->.
  { rewrite GET_16_eq by apply u8_range. pose proof (zlen_nonneg p). zdm. }
  rewrite decide_False by (rewrite zlen_app; pose proof (zlen_nonneg (ipackets acc)); lia).
  rewrite to_nat_zlen, take_app_length, drop_app_length, IH by (simpl in Hf; lia).
  unfold u8. by rewrite Z.mod_small.
Qed.

(** A history of a connection: packets sent, and the write event. The result is
    the bytes the client got, the connection unless it was dropped, and the
    packets that were accepted. *)
Inductive conn_op := OpSend (chan : Z) (v : list (list Z)) (ws : list write_answer) | OpWrite (ws : list write_answer).

Fixpoint run (c : send_state) (ops : list conn_op) : list Z * option send_state * list (Z * list Z) :=
  match ops with
  | [] => ([], Some c, [])
  | OpSend chan v ws :: ops =>
      let '(out, c, ret) := interleave_send c chan v ws in
      let '(out', c, acc) := run c ops in
      (out ++ out', c, if decide (ret = 0) then (chan, concat v) :: acc else acc)
  | OpWrite ws :: ops =>
      match conn_write c ws with
      | (out, None) => (out, None, [])
      | (out, Some c) => let '(out', c, acc) := run c ops in (out ++ out', c, acc)
      end
  end.

Definition op_ok (o : conn_op) : Prop := match o with OpSend chan _ _ => 0 ≤ chan < 256 | OpWrite _ => True end.

Lemma conn_write_queue c q ws out c' :
  queue_of c q → conn_write c ws = (out, c') →
  out `prefix_of` q ∧
  match c' with
  | None => True
  | Some c' => ∃ q', q = out ++ q' ∧ queue_of c' q' ∧ length (send_buf c') = length (send_buf c)
  end.
Proof.
  intros H. unfold conn_write. destruct (flush c ws) as [o r] eqn:EF.
  destruct (flush_queue _ _ _ _ _ H EF) as (F1 & F2 & q' & -> & F3 & F4).
  destruct r as [c1|c1|c1]; [destruct (drop_after c1)|..]; intros [= <- <-];
    (split; [by apply prefix_app_r|]); try done; exists q'; split_and!; try done.
  destruct F3 as [???]. by split.
Qed.

Lemma run_stream c q ops :
  queue_of c q → (length (send_buf c) <= SEND_BUF_SIZE)%nat → Forall op_ok ops →
  let '(out, c', acc) := run c ops in
  Forall ipacket_ok acc ∧ out `prefix_of` q ++ ipackets acc ∧
  match c' with
  | None => True
  | Some c' => ∃ q', q ++ ipackets acc = out ++ q' ∧ queue_of c' q'
  end.
Proof.
  intros H HN Hops. revert c q H HN. induction Hops as [|o ops Ho Hops IH]; intros c q H HN; cbn [run].
  - change (ipackets []) with (@nil Z). rewrite app_nil_r. split_and!; [done|apply prefix_nil|by exists q].
  - destruct o as [chan v ws|ws].
    + destruct (interleave_send c chan v ws) as [[out c1] ret] eqn:ES.
      destruct (interleave_send_queue _ _ _ _ _ _ _ _ H ES) as (q1 & -> & HL & Hcase).
      destruct Hcase as [(-> & H1 & Hsz)|(-> & H1 & _)].
      * specialize (IH c1 _ H1 ltac:(lia)). destruct (run c1 ops) as [[out' c'] acc].
        destruct IH as (I1 & I2 & I3). rewrite decide_True by done.
        assert (ipackets ((chan, concat v) :: acc) = iframe chan (concat v) ++ ipackets acc) as -> by done.
        rewrite !app_assoc in *. rewrite <- !app_assoc in *. split_and!.
        -- constructor; [|done]. split; [done|]. cbn [snd]. unfold SEND_BUF_SIZE in HN. lia.
        -- by apply prefix_app.
        -- destruct c' as [c'|]; [|done]. destruct I3 as (q' & E & Hq'). exists q'. by rewrite <- app_assoc, <- E.
      * specialize (IH c1 _ H1 ltac:(lia)). destruct (run c1 ops) as [[out' c'] acc].
        destruct IH as (I1 & I2 & I3). rewrite decide_False by done. rewrite <- !app_assoc. split_and!.
        -- done.
        -- by apply prefix_app.
        -- destruct c' as [c'|]; [|done]. destruct I3 as (q' & E & Hq'). exists q'. by rewrite <- app_assoc, <- E.
    + destruct (conn_write c ws) as [out [c1|]] eqn:EW; destruct (conn_write_queue _ _ _ _ _ H EW) as [Hp Hc].
      * destruct Hc as (q1 & -> & H1 & HL). specialize (IH c1 q1 H1 ltac:(lia)).
        destruct (run c1 ops) as [[out' c'] acc]. destruct IH as (I1 & I2 & I3).
        rewrite <- !app_assoc. split_and!; [done|by apply prefix_app|].
        destruct c' as [c'|]; [|done]. destruct I3 as (q' & E & Hq'). exists q'. by rewrite <- app_assoc, <- E.
      * change (ipackets []) with (@nil Z). by rewrite app_nil_r.
Qed.

(** A kernel that takes at least one byte each time empties the buffer. *)
Lemma flush_progress c q ws :
  queue_of c q → Forall (λ w, match w with WWrote n => (0 < n)%nat | _ => False end) ws →
  (length q <= length ws)%nat →
  ∃ c', flush c ws = (q, Flushed c') ∧ queue_of c' [] ∧ drop_after c' = drop_after c.
Proof.
  intros H Hws. revert c q H. induction Hws as [|w ws Hw Hws IH]; intros c q H Hl; cbn [flush]; case_decide as E.
  1,3: apply (queue_empty c q H) in E as ->; by exists c.
  - destruct q; [|simpl in Hl; lia]. by destruct (E (proj2 (queue_empty c [] H) eq_refl)).
  - destruct w as [n| |]; try done. set (n' := (n `min` offered c)%nat).
    destruct (took_queue c q n' H ltac:(lia)) as [Ht Hq].
    assert (0 < n')%nat as Hn.
    { pose proof (queue_w c q H) as Hqw. pose proof (qo_r _ _ H). pose proof (qo_len _ _ H).
      destruct q as [|x q]; [by destruct (E (proj2 (queue_empty c [] H) eq_refl))|].
      unfold n', offered. cbn [length] in *. destruct (decide (send_buf_r c + S (length q) < length (send_buf c))%nat);
        case_decide; lia. }
    destruct (IH _ _ Hq) as (c' & EF & H1 & HD); [rewrite length_drop; simpl in Hl; lia|].
    exists c'. rewrite EF, Ht, take_drop. done.
Qed.

(** C3. What an interleaved client sees: over every history of packet sends and
    socket writability, with whatever the kernel answers, the bytes the client
    has received are a prefix of the accepted packets, framed, in order; read
    as interleaved frames they give a prefix of the accepted packets, and as long
    as the connection stands the rest is in the send buffer, nothing lost,
    duplicated or reordered. *)
Theorem interleaved_stream c ops :
  queue_of c [] → (length (send_buf c) <= SEND_BUF_SIZE)%nat → Forall op_ok ops →
  let '(out, c', acc) := run c ops in
  demux (length out) out `prefix_of` acc ∧
  match c' with
  | None => True
  | Some c' => ∃ q, queue_of c' q ∧ out ++ q = ipackets acc ∧ demux (length (out ++ q)) (out ++ q) = acc
  end.
Proof.
  intros H HN Hops. pose proof (run_stream c [] ops H HN Hops) as HR.
  destruct (run c ops) as [[out c'] acc]. destruct HR as (H1 & H2 & H3). cbn [app] in *.
  split; [by apply demux_prefix|]. destruct c' as [c'|]; [|done]. destruct H3 as (q & E & Hq).
  exists q. split; [done|]. split; [done|]. rewrite <- E. apply demux_all; [done|].
  clear. induction acc as [|[ch p] acc IH]; [done|].
  assert (ipackets ((ch, p) :: acc) = iframe ch p ++ ipackets acc) as -> by done.
  rewrite length_app. simpl. lia.
Qed.

(** The send buffer is a bounded queue: data fits exactly when it leaves one
    byte free, is then appended whole, and otherwise nothing changes; the write
    handler hands the kernel bytes from the front in order, and when the
    kernel takes at least one byte each time and is asked often enough, it
    empties the buffer and disables the write event, or drops the connection
    if that was asked for. *)
Lemma send_buffer_queue c q d ws :
  queue_of c q → Forall (λ w, match w with WWrote n => (0 < n)%nat | _ => False end) ws →
  (let '(c', ret) := send_data c d in
   (ret = 0 ↔ (length q + length d < length (send_buf c))%nat) ∧
   (ret = 0 → queue_of c' (q ++ d) ∧ write_on c' = true) ∧ (ret ≠ 0 → c' = c)) ∧
  ((length q <= length ws)%nat → ∃ c', conn_write c ws = (q, if drop_after c then None else Some c') ∧
    queue_of c' [] ∧ write_on c' = false).
Proof.
  intros H Hws. split.
  - pose proof (send_data_queue c q d H) as HS. destruct (send_data c d) as [c' ret].
    destruct HS as [_ HS]. case_decide; [destruct HS as (-> & ? & ?)|destruct HS as [-> ->]];
      split_and!; done || lia.
  - intros Hl. destruct (flush_progress c q ws H Hws Hl) as (c1 & EF & [H1 H2 H3 H4] & HD).
    eexists. unfold conn_write. rewrite EF, HD. split; [by destruct (drop_after c)|]. by split.
Qed.

(** ** Responses *)

Definition response_headers (hs : list (list Z * list Z)) (len : Z) : list (list Z * list Z) :=
  if decide (0 ≤ len) then hs ++ [($"Content-Length", fmt_d len)] else hs.

Lemma response_text_eq proto code reason hs len :
  response_text proto code reason hs len =
  status_line proto code reason ++ concat (hdr_text <$> response_headers hs len) ++ crlf.
Proof.
  unfold response_text, response_headers, status_line. case_decide.
  - rewrite fmap_app, concat_app. cbn [fmap list_fmap concat].
    assert (hdr_text ($"Content-Length", fmt_d len) = $"Content-Length: " ++ fmt_d len ++ crlf) as -> by done.
    by rewrite app_nil_r, <- !app_assoc.
  - by rewrite <- !app_assoc.
Qed.

Lemma response_headers_ok hs len : Forall header_ok hs → Forall header_ok (response_headers hs len).
Proof.
  intros H. unfold response_headers. case_decide; [|done]. apply Forall_app. split; [done|].
  apply Forall_singleton. destruct (fmt_d_digits len) as (Hne & Hd & _); [done|].
  split; [split; [done|]; simpl; repeat constructor; vm_compute; congruence|]. cbn [snd]. split.
  - eapply Forall_impl; [exact Hd|]. unfold is_digit. intros x Hx. lia.
  - destruct (fmt_d len) as [|x l]; [done|]. apply Forall_cons in Hd as [Hx _]. unfold is_digit in Hx. simpl. lia.
Qed.

Lemma hdr_text_size hs : zlen (concat (hdr_text <$> hs)) = hdrs_size hs + 2 * zlen hs.
Proof.
  induction hs as [|[n v] hs IH]; [done|]. cbn [fmap list_fmap concat]. rewrite zlen_app, IH, zlen_cons.
  assert (zlen (hdr_text (n, v)) = zlen n + zlen v + 4) as -> by text. simpl. lia.
Qed.

(** What [tcp_send_pmsg] does with a reply of at most 512 bytes. *)
Lemma tcp_send_reply c q m hs proto code rp reason len :
  queue_of c q → pm_holds m hs → max_len m ≤ 512 → sl m = SlStat code rp →
  str_at (msg m) (msg_len m) (proto_id m) proto → str_at (msg m) (msg_len m) rp reason →
  100 ≤ code ≤ 999 → len < 2147483648 →
  let text := response_text proto code reason hs len in
  ∃ c' ret, tcp_send_pmsg c m len = Ok (c', ret) ∧ (ret = 0 ∨ ret = -1) ∧
    (ret = 0 ↔ zlen q + zlen text + Z.max 0 len < Z.of_nat (length (send_buf c))) ∧
    (ret ≠ 0 → c' = c) ∧ (ret = 0 → queue_of c' (q ++ text)).
Proof.
  intros Hq Hm H512 Hsl Hp Hr Hc Hlen text.
  pose proof (ph_len _ _ Hm) as Hl. pose proof (ph_size _ _ Hm) as Hz. pose proof (ph_count _ _ Hm) as Hn. unfold max_len in *.
  assert (zlen text < 2048) as Hb.
  { unfold text. rewrite response_text_eq, !zlen_app, hdr_text_size. unfold status_line. rewrite !zlen_app.
    destruct (fmt_code code Hc) as (x & y & z & -> & _).
    destruct Hp as (? & ? & _). destruct Hr as (? & ? & _). unfold MAX_FIELDS in *.
    assert (hdrs_size (response_headers hs len) + 2 * zlen (response_headers hs len) ≤ hdrs_size hs + 2 * zlen hs + 28).
    { unfold response_headers. case_decide; [|lia]. rewrite hdrs_size_app, zlen_app.
      destruct (fmt_d_digits len) as (_ & _ & _ & Hk); [done|].
      specialize (Hk 10%nat ltac:(lia) ltac:(simpl; lia)). simpl. unfold zlen. simpl. lia. }
    change (zlen crlf) with 2. change (zlen [32]) with 1. change (zlen [x; y; z]) with 3. lia. }
  unfold tcp_send_pmsg. rewrite Hsl, (str_at_cstr _ _ _ _ (proj2 Hl) Hp), res_bind_ok,
    (str_at_cstr _ _ _ _ (proj2 Hl) Hr), res_bind_ok.
  rewrite (header_strings_holds m hs Hm), res_bind_ok. fold text. rewrite decide_False by lia.
  rewrite (avail_queue c q Hq). pose proof (qo_len _ _ Hq).
  assert ((if decide (0 ≤ len) then zlen text + len else zlen text) = zlen text + Z.max 0 len) as ->
    by (case_decide; lia).
  pose proof (send_data_queue c q text Hq) as HS. destruct (send_data c text) as [c1 ret1].
  destruct HS as [_ HS]. cbn [fst]. pose proof (zlen_nonneg text). unfold zlen in *.
  match goal with |- context [decide ?P] => destruct (decide P) as [E|E] end.
  - exists c, (-1). split; [done|]. split; [by right|]. split; [split; [done|lia]|]. done.
  - rewrite decide_True in HS by lia. destruct HS as (_ & HS & _).
    exists c1, 0. split; [done|]. split; [by left|]. split; [split; [lia|done]|]. done.
Qed.

(** The size of the buffer and the mark to close the connection stay. *)
Lemma put_bytes_keep c d :
  length (send_buf (foldl put_byte c d)) = length (send_buf c) ∧ drop_after (foldl put_byte c d) = drop_after c.
Proof.
  revert c. induction d as [|x d IH]; intros c; [done|]. cbn [foldl]. destruct (IH (put_byte c x)) as [-> ->].
  split; [apply length_insert|done].
Qed.

Lemma send_data_keeps c d : length (send_buf (send_data c d).1) = length (send_buf c) ∧ drop_after (send_data c d).1 = drop_after c.
Proof. unfold send_data. case_decide; [done|]. apply put_bytes_keep. Qed.

Lemma tcp_send_keeps c m len c' ret :
  tcp_send_pmsg c m len = Ok (c', ret) → length (send_buf c') = length (send_buf c) ∧ drop_after c' = drop_after c.
Proof.
  unfold tcp_send_pmsg. destruct (sl m) as [|code r]; [by intros [= <- _]|].
  destruct (cstr _ (proto_id m)) as [p|]; [|done]. rewrite res_bind_ok. destruct (cstr _ r) as [rs|]; [|done]. rewrite res_bind_ok.
  destruct (header_strings m) as [hs|]; [|done]. rewrite res_bind_ok. case_decide; [done|].
  match goal with |- context [if decide (_ < ?x) then _ else _] => generalize x end. intros tot.
  case_decide; intros [= <- _]; [done|apply send_data_keeps].
Qed.

(** C25. Responses arrive: for a response message within the 512 bytes the
    server's replies have, the text [tcp_send_pmsg] formats never overruns its
    2048-byte buffer; when it fits in the send buffer it is queued whole behind
    what was there, and a client that parses it, followed by any body, reads
    the code, the reason, the headers and the length that were sent. *)
Theorem response_roundtrip c q m hs proto code rp reason len :
  queue_of c q → pm_holds m hs → max_len m ≤ 512 → sl m = SlStat code rp →
  str_at (msg m) (msg_len m) (proto_id m) proto → str_at (msg m) (msg_len m) rp reason →
  status_ok proto code reason → Forall header_ok hs → zlen hs < MAX_FIELDS → len < 2147483648 →
  let text := response_text proto code reason hs len in
  ∃ c' ret, tcp_send_pmsg c m len = Ok (c', ret) ∧
    (ret = 0 ↔ zlen q + zlen text + Z.max 0 len < Z.of_nat (length (send_buf c))) ∧
    (ret ≠ 0 → c' = c) ∧ (ret = 0 → queue_of c' (q ++ text)) ∧
    ∀ body, ∃ m' r', parse_pmsg (zlen (text ++ body)) (text ++ body) = Ok (Some (m', zlen text)) ∧
      sl m' = SlStat code r' ∧ cstr (msg m') (proto_id m') = Ok proto ∧ cstr (msg m') r' = Ok reason ∧
      header_strings m' = Ok (response_headers hs len).
Proof.
  intros Hq Hm H512 Hsl Hp Hr Hst Hhs Hn Hlen text.
  destruct (tcp_send_reply c q m hs proto code rp reason len Hq Hm H512 Hsl Hp Hr (proj1 (proj2 Hst)) Hlen)
    as (c' & ret & H1 & _ & H2 & H3 & H4).
  exists c', ret. split; [done|]. split; [done|]. split; [done|]. split; [done|].
  intros body. unfold text. rewrite response_text_eq. apply parse_response; [done|by apply response_headers_ok|].
  unfold response_headers. destruct (decide (0 ≤ len)); [|lia]. rewrite zlen_app. change (zlen [_]) with 1. lia.
Qed.

(** ** The connection as a transport *)

(** An endpoint connected with [connect_interleaved_endpoint]: the connection,
    the bytes its client got, the two channels and what the kernel will answer
    during the next sends. *)
Record inter := mkInter {
  it_conn : send_state; it_got : list Z; it_rtp_chan : Z; it_rtcp_chan : Z;
  it_kernel : list (list write_answer) }.

Definition inter_out (t : inter) (chan : Z) (v : list (list Z)) : inter * bool :=
  let '(out, c, ret) := interleave_send (it_conn t) chan v (default [] (head (it_kernel t))) in
  (mkInter c (it_got t ++ out) (it_rtp_chan t) (it_rtcp_chan t) (tail (it_kernel t)), 0 <=? ret).

#[global] Instance inter_transport : Transport inter := {|
  trans_type _ := RTP_TRANS_INTER;
  rtp_out t v := inter_out t (it_rtp_chan t) v;
  rtcp_out t b := inter_out t (it_rtcp_chan t) [b] |}.

Definition got_and_queued (t : inter) (s : list Z) : Prop :=
  ∃ q, queue_of (it_conn t) q ∧ it_got t ++ q = s.

(** RTP over the RTSP connection: between reports, a send over an
    interleaved endpoint always succeeds and is counted; either the packet,
    header and payload framed with the RTP channel, is appended to what the
    client gets, or, when the client does not read and the send buffer is too
    full for it, the packet is dropped as a whole and the stream stays intact. *)
Lemma interleaved_send_rtp (ep : rtp_endpoint inter) now v ts m s :
  got_and_queued (trans ep) s → force_rtcp ep = false →
  tv_sec now - tv_sec (last_rtcp_send ep) ≤ 10 →
  ∃ ep', send_rtp_packet ep now v ts m = Some ep' ∧
    seqnum ep' = Z.land (seqnum ep + 1) 65535 ∧ packet_count ep' = s32 (packet_count ep + 1) ∧
    (got_and_queued (trans ep')
       (s ++ iframe (it_rtp_chan (trans ep)) (rtphdr (with_timestamp ep ts) m ++ concat v)) ∨
     (got_and_queued (trans ep') s ∧
      ∃ q, queue_of (it_conn (trans ep')) q ∧
        Z.of_nat (length (send_buf (it_conn (trans ep)))) ≤ zlen q + (zlen (concat v) + 12) + 4)).
Proof.
  intros (q & Hq & <-) Hf Hnow. unfold send_rtp_packet.
  rewrite decide_True by (by right). cbn [rtp_out trans_type inter_transport].
  change (trans (with_timestamp ep ts)) with (trans ep). unfold inter_out.
  set (hd := rtphdr (with_timestamp ep ts) m).
  destruct (interleave_send _ _ (hd :: v) _) as [[out c1] ret] eqn:ES.
  destruct (interleave_send_queue _ _ _ _ _ _ _ _ Hq ES) as (q' & -> & HL & Hcase).
  assert (0 <=? ret = true) as -> by (apply Z.leb_le; destruct Hcase as [(-> & _)|(-> & _)]; lia).
  cbn [negb]. cbn [force_rtcp count_packet with_timestamp]. rewrite Hf.
  cbn [last_rtcp_send count_packet with_timestamp]. rewrite decide_False by lia.
  eexists. split; [reflexivity|]. split; [done|]. split; [done|]. cbn [trans it_conn count_packet].
  destruct Hcase as [(-> & H1 & _)|(-> & H1 & H2)].
  - left. exists (q' ++ iframe (it_rtp_chan (trans ep)) (concat (hd :: v))). split; [done|].
    cbn [it_got]. by rewrite <- !app_assoc.
  - right. split.
    + exists q'. split; [done|]. cbn [it_got]. by rewrite <- !app_assoc.
    + exists q'. split; [done|]. cbn [concat] in H2. rewrite zlen_app in H2.
      change (zlen hd) with 12 in H2. lia.
Qed.

(** ** Witnesses *)

Definition wit_conn : send_state := mkSend (replicate 20 0) 17 17 false false.
Definition wit_ops : list conn_op :=
  [OpSend 0 [[1; 2]; [3]] []; OpWrite [WWrote 2; WAgain; WWrote 9]; OpSend 1 [[9]] [];
   OpSend 0 [replicate 30 1] []; OpWrite [WWrote 3]].

Lemma wit_conn_queue : queue_of wit_conn [].
Proof. split; try (simpl; lia). apply ring_holds_nil. Qed.

Lemma interleaved_stream_witness :
  run wit_conn wit_ops =
    ([36; 0; 0; 3; 1; 2], snd (fst (run wit_conn wit_ops)), [(0, [1; 2; 3]); (1, [9])]) ∧
  demux 6 [36; 0; 0; 3; 1; 2] `prefix_of` [(0, [1; 2; 3]); (1, [9])].
Proof.
  pose proof (interleaved_stream wit_conn wit_ops wit_conn_queue) as H.
  split; [vm_compute; reflexivity|].
  destruct (run wit_conn wit_ops) as [[out c'] acc] eqn:E. vm_compute in E. injection E as <- _ <-.
  apply H.
  - unfold SEND_BUF_SIZE. change (length (send_buf wit_conn)) with 20%nat. lia.
  - repeat constructor; simpl; lia.
Defined.

Lemma send_buffer_queue_witness :
  conn_write (fst (send_data wit_conn [7; 8; 9; 10])) (replicate 4 (WWrote 2)) =
  ([7; 8; 9; 10], snd (conn_write (fst (send_data wit_conn [7; 8; 9; 10])) (replicate 4 (WWrote 2)))).
Proof.
  destruct (send_data wit_conn [7; 8; 9; 10]) as [c ret] eqn:E.
  assert (queue_of c [7; 8; 9; 10]) as Hq.
  { pose proof (send_data_queue wit_conn [] [7; 8; 9; 10] wit_conn_queue) as H. rewrite E in H.
    destruct H as [_ H]. rewrite decide_True in H by (simpl; lia). apply H. }
  destruct (send_buffer_queue c [7; 8; 9; 10] [] (replicate 4 (WWrote 2)) Hq) as [_ H].
  - apply Forall_replicate. lia.
  - cbn [fst]. destruct H as (c' & -> & _); [simpl; lia|]. reflexivity.
Defined.

Definition wit_resp : pmsg :=
  fst (add_header (mkPmsg ($"RTSP/1.0" ++ [0] ++ $"OK" ++ [0] ++ replicate 100 0) 12 0 (SlStat 200 9) [])
         ($"CSeq") ($"3")).

Lemma wit_resp_holds : pm_holds wit_resp [($"CSeq", $"3")].
Proof.
  set (m0 := mkPmsg ($"RTSP/1.0" ++ [0] ++ $"OK" ++ [0] ++ replicate 100 0) 12 0 (SlStat 200 9) []).
  assert (pm_holds m0 []) as H0.
  { split; [vm_compute; split; congruence|vm_compute; congruence|vm_compute; congruence|constructor]. }
  pose proof (add_header_spec m0 [] ($"CSeq") ($"3") H0) as H. unfold wit_resp. fold m0.
  destruct (add_header m0 ($"CSeq") ($"3")) as [m1 ok] eqn:E.
  destruct H as (H & [_ Hok] & _); [repeat constructor; vm_compute; congruence..|].
  destruct ok; [exact H|]. discriminate Hok. vm_compute. split; congruence.
Qed.

Lemma wit_status_ok : status_ok ($"RTSP/1.0") 200 ($"OK").
Proof.
  split_and!; try lia; try (vm_compute; (congruence || (split; congruence))).
  - simpl. set_solver.
  - simpl. repeat constructor; vm_compute; congruence.
  - simpl. repeat constructor; vm_compute; congruence.
Qed.

Lemma response_roundtrip_witness :
  ∃ c' ret, tcp_send_pmsg (mkSend (replicate 100 0) 0 0 false false) wit_resp 5 = Ok (c', ret) ∧ ret = 0 ∧
    queue_of c' ($"RTSP/1.0 200 OK" ++ crlf ++ $"CSeq: 3" ++ crlf ++ $"Content-Length: 5" ++ crlf ++ crlf).
Proof.
  destruct (response_roundtrip (mkSend (replicate 100 0) 0 0 false false) [] wit_resp [($"CSeq", $"3")]
    ($"RTSP/1.0") 200 9 ($"OK") 5) as (c' & ret & H1 & [_ H2] & _ & H3 & _).
  - split; try (simpl; lia). apply ring_holds_nil.
  - apply wit_resp_holds.
  - vm_compute. congruence.
  - reflexivity.
  - split_and!; try (vm_compute; congruence). simpl. repeat constructor; vm_compute; congruence.
  - split_and!; try (vm_compute; congruence). simpl. repeat constructor; vm_compute; congruence.
  - apply wit_status_ok.
  - repeat constructor; vm_compute; congruence.
  - vm_compute. reflexivity.
  - lia.
  - exists c', ret. specialize (H2 ltac:(vm_compute; reflexivity)). split; [exact H1|]. split; [exact H2|exact (H3 H2)].
Defined.

Lemma interleaved_send_rtp_witness :
  ∃ ep', send_rtp_packet (mkEp 26 8192 7 0 0 9 0 0 true false (mkTime 0 0) (mkTime 0 0)
      (mkInter wit_conn [] 0 1 [])) (mkTime 1 0) [[5]] 3 true = Some ep' ∧ seqnum ep' = 10.
Proof.
  destruct (interleaved_send_rtp (mkEp 26 8192 7 0 0 9 0 0 true false (mkTime 0 0) (mkTime 0 0)
      (mkInter wit_conn [] 0 1 [])) (mkTime 1 0) [[5]] 3 true []) as (ep' & H1 & H2 & _).
  - exists []. split; [apply wit_conn_queue|reflexivity].
  - reflexivity.
  - vm_compute. congruence.
  - exists ep'. split; [exact H1|exact H2].
Defined.
