(* ===== verification/Base64.v ===== *)
(** * Base64: the encoder of rtp-h264.c and the decoder of tcp.c

    [base64_encode] of rtp-h264.c prints parameter sets into the SDP; [unbase64]
    of tcp.c decodes, in place and in chunks, the RTSP requests of clients that
    tunnel through HTTP (base64_table.h holds its table). All under
    src/sources/applications/RTSPServer. *)

From stdpp Require Import prelude gmap strings.
From S2P Require Import Prelude.

Local Open Scope c_scope.

(** ** The decoder *)

Definition base64 : list Z := [
  -1; -1; -1; -1; -1; -1; -1; -1; -1; -1; -1; -1; -1; -1; -1; -1;
  -1; -1; -1; -1; -1; -1; -1; -1; -1; -1; -1; -1; -1; -1; -1; -1;
  -1; -1; -1; -1; -1; -1; -1; -1; -1; -1; -1; 62; -1; -1; -1; 63;
  52; 53; 54; 55; 56; 57; 58; 59; 60; 61; -1; -1; -1; 0; -1; -1;
  -1; 0; 1; 2; 3; 4; 5; 6; 7; 8; 9; 10; 11; 12; 13; 14;
  15; 16; 17; 18; 19; 20; 21; 22; 23; 24; 25; -1; -1; -1; -1; -1;
  -1; 26; 27; 28; 29; 30; 31; 32; 33; 34; 35; 36; 37; 38; 39; 40;
  41; 42; 43; 44; 45; 46; 47; 48; 49; 50; 51; -1; -1; -1; -1; -1;
  -1; -1; -1; -1; -1; -1; -1; -1; -1; -1; -1; -1; -1; -1; -1; -1;
  -1; -1; -1; -1; -1; -1; -1; -1; -1; -1; -1; -1; -1; -1; -1; -1;
  -1; -1; -1; -1; -1; -1; -1; -1; -1; -1; -1; -1; -1; -1; -1; -1;
  -1; -1; -1; -1; -1; -1; -1; -1; -1; -1; -1; -1; -1; -1; -1; -1;
  -1; -1; -1; -1; -1; -1; -1; -1; -1; -1; -1; -1; -1; -1; -1; -1;
  -1; -1; -1; -1; -1; -1; -1; -1; -1; -1; -1; -1; -1; -1; -1; -1;
  -1; -1; -1; -1; -1; -1; -1; -1; -1; -1; -1; -1; -1; -1; -1; -1;
  -1; -1; -1; -1; -1; -1; -1; -1; -1; -1; -1; -1; -1; -1; -1; -1].

Definition b64 (c : Z) : Z := default (-1) (base64 !! Z.to_nat c).

(** The three bytes of a quantum, and how many of them count. *)
Definition quad (e : list Z) : list Z :=
  match e with
  | [a; b; c; d] =>
      [Z.lor (Z.land (Z.shiftl (b64 a) 2) 252) (Z.shiftr (b64 b) 4);
       Z.lor (Z.land (Z.shiftl (b64 b) 4) 240) (Z.shiftr (b64 c) 2);
       Z.lor (Z.land (Z.shiftl (b64 c) 6) 192) (b64 d)]
  | _ => []
  end.

Definition quad_len (e : list Z) : Z :=
  match e with
  | [_; _; c; d] => if decide (d = 61) then if decide (c = 61) then 1 else 2 else 3
  | _ => 0
  end.

(** Three stores through [d + dest]. *)
Definition put_quad (d : list Z) (dest : Z) (q : list Z) : res (list Z) :=
  match q with
  | [x; y; z] => d ← wr d dest x; d ← wr d (dest + 1) y; wr d (dest + 2) z
  | _ => Ok d
  end.

Fixpoint memcpy (d : list Z) (dest : Z) (s : list Z) : res (list Z) :=
  match s with
  | [] => Ok d
  | x :: s => d ← wr d dest x; memcpy d (dest + 1) s
  end.

(** The two loops, one character at a time: [enc] holds the characters of the
    current quantum. The result is the buffer, the return value and
    [*remain]. *)
Fixpoint unbase64_loop (fuel : nat) (d : list Z) (len src dest : Z) (enc : list Z) : res (list Z * Z * Z) :=
  match fuel with
  | O => Fault OutOfFuel
  | S fuel =>
      if decide (zlen enc = 4) then
        d ← put_quad d dest (quad enc);
        unbase64_loop fuel d len src (dest + quad_len enc) []
      else if decide (len ≤ src) then
        d ← memcpy d dest enc; Ok (d, dest + zlen enc, zlen enc)
      else
        c ← rd d src;
        if decide (b64 c < 0) then unbase64_loop fuel d len (src + 1) dest enc
        else unbase64_loop fuel d len (src + 1) dest (enc ++ [c])
  end.

(** Fuel: every pass reads a character or ends a quantum of four. *)
Definition unbase64 (d : list Z) (len : Z) : res (list Z * Z * Z) :=
  unbase64_loop (Z.to_nat (2 * len) + 2) d len 0 0 [].

(** ** The encoder *)

Definition b64_alphabet : list Z := $"ABCDEFGHIJKLMNOPQRSTUVWXYZabcdefghijklmnopqrstuvwxyz0123456789+/".

Definition b64_char (n : Z) : Z := default 0 (b64_alphabet !! Z.to_nat n).

(** The do-while loop: emits while more than six bits wait, or until none do
    when the input is used up. [i_bits] is a 32-bit unsigned integer. *)
Fixpoint emit (fuel : nat) (i_bits i_shift : Z) (last : bool) : list Z * Z :=
  match fuel with
  | O => ([], i_shift)
  | S fuel =>
      let ch := b64_char (Z.land (Z.shiftr (u32 (Z.shiftl i_bits 6)) i_shift) 63) in
      let i_shift := i_shift - 6 in
      if decide (i_shift > 6 ∨ (last = true ∧ i_shift > 0)) then
        let '(l, s) := emit fuel i_bits i_shift last in (ch :: l, s)
      else ([ch], i_shift)
  end.

Fixpoint encode_loop (i_bits i_shift : Z) (l : list Z) : list Z :=
  match l with
  | [] => []
  | x :: l =>
      let i_bits := u32 (Z.shiftl i_bits 8 + x) in
      let '(out, i_shift) := emit 4 i_bits (i_shift + 8) (bool_decide (l = [])) in
      out ++ encode_loop i_bits i_shift l
  end.

(** [None] is the null pointer returned when the output does not fit. *)
Definition base64_encode (out_size : Z) (l : list Z) : option (list Z) :=
  if decide (out_size < (zlen l + 2) `quot` 3 * 4 + 1) then None
  else
    let out := encode_loop 0 0 l in
    Some (out ++ replicate (Z.to_nat ((- zlen out) `mod` 4)) 61).

(** ** The encoding of RFC 4648 *)

Fixpoint sextets (l : list Z) : list Z :=
  match l with
  | a :: b :: c :: l => a `div` 4 :: a `mod` 4 * 16 + b `div` 16 :: b `mod` 16 * 4 + c `div` 64 :: c `mod` 64 :: sextets l
  | [a; b] => [a `div` 4; a `mod` 4 * 16 + b `div` 16; b `mod` 16 * 4]
  | [a] => [a `div` 4; a `mod` 4 * 16]
  | [] => []
  end.

Definition pad (n : Z) : list Z := replicate (Z.to_nat ((- n) `mod` 4)) 61.

Definition rfc_encode (l : list Z) : list Z := (b64_char <$> sextets l) ++ pad (zlen (sextets l)).

Definition sx (B s : Z) : Z := ((B * 64) `mod` 4294967296 `div` 2 ^ s) `mod` 64.

Lemma sx_eq B s : 0 ≤ s → Z.land (Z.shiftr (u32 (Z.shiftl B 6)) s) 63 = sx B s.
Proof.
  intros Hs. unfold sx, u32. change 63 with (Z.ones 6).
  by rewrite Z.land_ones, shiftr_div, Z.shiftl_mul_pow2 by lia.
Qed.

(** The passes of the inner loop that occur. *)
Lemma emits B :
  emit 4 B 8 false = ([b64_char (sx B 8)], 2) ∧ emit 4 B 14 false = ([b64_char (sx B 14); b64_char (sx B 8)], 2) ∧
  emit 4 B 10 false = ([b64_char (sx B 10)], 4) ∧ emit 4 B 12 false = ([b64_char (sx B 12)], 6) ∧
  emit 4 B 8 true = ([b64_char (sx B 8); b64_char (sx B 2)], -4) ∧
  emit 4 B 14 true = ([b64_char (sx B 14); b64_char (sx B 8); b64_char (sx B 2)], -4) ∧
  emit 4 B 10 true = ([b64_char (sx B 10); b64_char (sx B 4)], -2) ∧
  emit 4 B 12 true = ([b64_char (sx B 12); b64_char (sx B 6)], 0).
Proof. rewrite <- !sx_eq by lia. split_and!; reflexivity. Qed.

Definition waiting (B s : Z) : list Z := if decide (s = 6) then [B `mod` 64] else [].

Lemma sx_values B a b :
  is_byte a → is_byte b → 0 ≤ B →
  let B1 := u32 (Z.shiftl B 8 + a) in
  let B2 := u32 (Z.shiftl B1 8 + b) in
  sx B1 14 = B `mod` 64 ∧ sx B1 8 = a `div` 4 ∧ sx B1 2 = a `mod` 4 * 16 ∧
  sx B2 10 = a `mod` 4 * 16 + b `div` 16 ∧ sx B2 4 = b `mod` 16 * 4 ∧
  sx B2 12 = a `mod` 16 * 4 + b `div` 64 ∧ sx B2 6 = b `mod` 64 ∧ B1 `mod` 256 = a ∧ 0 ≤ B1.
Proof.
  unfold is_byte, sx, u32. intros Ha Hb HB. rewrite !Z.shiftl_mul_pow2 by lia.
  change (2 ^ 14) with 16384. change (2 ^ 8) with 256. change (2 ^ 2) with 4. change (2 ^ 10) with 1024.
  change (2 ^ 4) with 16. change (2 ^ 12) with 4096. change (2 ^ 6) with 64. cbn zeta.
  split_and!; zdm.
Qed.

Lemma encode_step B s x l :
  encode_loop B s (x :: l) =
  (let '(out, s') := emit 4 (u32 (Z.shiftl B 8 + x)) (s + 8) (bool_decide (l = [])) in
   out ++ encode_loop (u32 (Z.shiftl B 8 + x)) s' l).
Proof. reflexivity. Qed.

Lemma encode_first B s a l :
  s = 0 ∨ s = 6 → 0 ≤ B → is_byte a → l ≠ [] →
  encode_loop B s (a :: l) =
  (b64_char <$> (waiting B s ++ [a `div` 4])) ++ encode_loop (u32 (Z.shiftl B 8 + a)) 2 l.
Proof.
  intros Hs HB Ha Hl. rewrite encode_step, (bool_decide_eq_false_2 (l = [])) by done.
  destruct (sx_values B a 0 Ha ltac:(done) HB) as (E14 & E8 & _).
  destruct (emits (u32 (Z.shiftl B 8 + a))) as (M8 & M14 & _).
  destruct Hs as [-> | ->]; unfold waiting; [change (0 + 8) with 8; rewrite M8|change (6 + 8) with 14; rewrite M14];
    simpl; by rewrite ?E14, ?E8.
Qed.

Lemma encode_loop_sextets n l B s :
  (length l <= n)%nat → s = 0 ∨ s = 6 → 0 ≤ B → Forall is_byte l → l ≠ [] →
  encode_loop B s l = b64_char <$> (waiting B s ++ sextets l).
Proof.
  revert l B s. induction n as [|n IH]; intros l B s Hn Hs HB Hl Hne; [by destruct l; simpl in Hn; [|lia]|].
  destruct l as [|a l]; [done|]. apply Forall_cons in Hl as [Ha Hl].
  set (B1 := u32 (Z.shiftl B 8 + a)). destruct l as [|b l].
  { rewrite encode_step. fold B1. destruct (sx_values B a 0 Ha ltac:(done) HB) as (E14 & E8 & E2 & _).
    destruct (emits B1) as (_ & _ & _ & _ & M8 & M14 & _).
    rewrite bool_decide_eq_true_2 by done. fold B1 in E14, E8, E2.
    destruct Hs as [-> | ->]; unfold waiting; [change (0 + 8) with 8; rewrite M8|change (6 + 8) with 14; rewrite M14];
      simpl; by rewrite ?E14, E8, E2. }
  apply Forall_cons in Hl as [Hb Hl]. rewrite encode_first by done. fold B1.
  destruct (sx_values B a b Ha Hb HB) as (_ & _ & _ & E10 & E4 & _ & _ & _ & HB1). fold B1 in E10, E4, HB1.
  set (B2 := u32 (Z.shiftl B1 8 + b)) in *. destruct (emits B2) as (_ & _ & M10 & _ & _ & _ & M10t & _).
  rewrite encode_step. fold B2. change (2 + 8) with 10. destruct l as [|c l].
  { rewrite bool_decide_eq_true_2 by done. rewrite M10t, E10, E4. simpl.
    rewrite !fmap_app, <- app_assoc. by simpl. }
  rewrite bool_decide_eq_false_2 by done. rewrite M10, E10. apply Forall_cons in Hl as [Hc Hl].
  destruct (sx_values B1 b c Hb Hc HB1) as (_ & _ & _ & _ & _ & E12 & E6 & _ & HB2). fold B2 in E12, E6, HB2.
  destruct (sx_values B2 c 0 Hc ltac:(done) HB2) as (_ & _ & _ & _ & _ & _ & _ & Hm & HB3).
  set (B3 := u32 (Z.shiftl B2 8 + c)) in *. destruct (emits B3) as (_ & _ & _ & M12 & _ & _ & _ & M12t).
  rewrite encode_step. fold B3. change (4 + 8) with 12. destruct l as [|x l].
  { rewrite bool_decide_eq_true_2 by done. rewrite M12t, E12, E6. simpl.
    rewrite !fmap_app, <- app_assoc. by simpl. }
  rewrite bool_decide_eq_false_2 by done. rewrite M12, E12.
  rewrite (IH (x :: l) B3 6) by (done || (simpl in *; lia) || (by right)).
  unfold waiting at 2. rewrite decide_True by done.
  assert (B3 `mod` 64 = c `mod` 64) as -> by (clear -Hm; zdm).
  cbn [sextets]. rewrite !fmap_app, <- !app_assoc. by simpl.
Qed.

Lemma zlen_sextets n l : (length l <= n)%nat → zlen (sextets l) = (zlen l * 8 + 5) `div` 6.
Proof.
  revert l. induction n as [|n IH]; intros l Hn; [by destruct l; [|simpl in Hn; lia]|].
  destruct l as [|a [|b [|c l]]]; [done..|]. cbn [sextets]. rewrite !zlen_cons, IH by (simpl in Hn; lia). zdm.
Qed.

Lemma zlen_rfc l : zlen (rfc_encode l) = (zlen l + 2) `div` 3 * 4.
Proof.
  unfold rfc_encode, pad. rewrite zlen_app. unfold zlen at 1 2. rewrite length_fmap, length_replicate.
  fold (zlen (sextets l)). rewrite (zlen_sextets (length l) l) by done. pose proof (zlen_nonneg l).
  rewrite Z2Nat.id by (apply Z.mod_pos_bound; lia). zdm.
Qed.

(** The SDP carries standard base64: [base64_encode] computes the encoding
    of RFC 4648 of every byte string the output buffer has room for, returns
    null exactly when the buffer is too small for it and its terminator, and
    never writes more than the buffer. *)
Lemma base64_encode_rfc l out_size :
  Forall is_byte l →
  base64_encode out_size l = if decide (zlen (rfc_encode l) < out_size) then Some (rfc_encode l) else None.
Proof.
  intros Hl. unfold base64_encode. rewrite zlen_rfc. pose proof (zlen_nonneg l).
  rewrite Z.quot_div_nonneg by lia.
  assert (encode_loop 0 0 l = b64_char <$> sextets l) as Ee.
  { destruct l as [|x l]; [done|]. rewrite (encode_loop_sextets (length (x :: l))); auto; done. }
  case_decide; case_decide; try lia; [done|]. unfold rfc_encode, pad. rewrite Ee.
  unfold zlen. by rewrite length_fmap.
Qed.

(** ** What the decoder computes *)

Definition valid (c : Z) : Prop := 0 ≤ b64 c.
#[global] Instance valid_dec c : Decision (valid c).
Proof. unfold valid. apply _. Defined.

Fixpoint decode (l : list Z) : list Z :=
  match l with
  | a :: b :: c :: d :: l => take (Z.to_nat (quad_len [a; b; c; d])) (quad [a; b; c; d]) ++ decode l
  | _ => []
  end.

Fixpoint leftover (l : list Z) : list Z :=
  match l with
  | _ :: _ :: _ :: _ :: l => leftover l
  | _ => l
  end.

Lemma b64_alphabet_ok n : 0 ≤ n < 64 → b64 (b64_char n) = n ∧ b64_char n ≠ 61 ∧ is_byte (b64_char n).
Proof.
  intros Hn. assert (Forall (λ n, b64 (b64_char n) = n ∧ b64_char n ≠ 61 ∧ is_byte (b64_char n)) (seqZ 0 64)) as HF
    by (vm_compute; repeat constructor; congruence).
  rewrite Forall_forall in HF. apply HF, elem_of_seqZ. lia.
Qed.

Lemma land_shifted x k m : 0 ≤ k → 0 ≤ m → Z.land (Z.shiftl x k) (Z.shiftl (Z.ones m) k) = x `mod` 2 ^ m * 2 ^ k.
Proof.
  intros. by rewrite <- Z.shiftl_land, Z.land_ones, Z.shiftl_mul_pow2 by lia.
Qed.

Lemma quad_bytes s1 s2 s3 s4 c1 c2 c3 c4 :
  b64 c1 = s1 → b64 c2 = s2 → b64 c3 = s3 → b64 c4 = s4 →
  0 ≤ s1 < 64 → 0 ≤ s2 < 64 → 0 ≤ s3 < 64 → 0 ≤ s4 < 64 →
  quad [c1; c2; c3; c4] = [s1 * 4 + s2 `div` 16; s2 `mod` 16 * 16 + s3 `div` 4; s3 `mod` 4 * 64 + s4].
Proof.
  intros <- <- <- <- H1 H2 H3 H4. unfold quad.
  change 252 with (Z.shiftl (Z.ones 6) 2). change 240 with (Z.shiftl (Z.ones 4) 4). change 192 with (Z.shiftl (Z.ones 2) 6).
  rewrite !land_shifted, <- !Z.shiftl_mul_pow2, !shiftr_div by lia.
  change (2 ^ 6) with 64. change (2 ^ 4) with 16. change (2 ^ 2) with 4.
  rewrite !lor_shiftl_add by (try lia; change (2^2) with 4; change (2^4) with 16; change (2^6) with 64; zdm).
  change (2 ^ 6) with 64. change (2 ^ 4) with 16. change (2 ^ 2) with 4. by rewrite (Z.mod_small (b64 c1) 64) by lia.
Qed.

Lemma decode_rfc n l : (length l <= n)%nat → Forall is_byte l → decode (rfc_encode l) = l ∧ leftover (rfc_encode l) = [].
Proof.
  revert l. induction n as [|n IH]; intros l Hn Hl; [by destruct l; [|simpl in Hn; lia]|].
  assert (∀ m, 0 ≤ m < 64 → b64 (b64_char m) = m) as HA by (intros m Hm; by apply b64_alphabet_ok).
  assert (∀ m, 0 ≤ m < 64 → b64_char m ≠ 61) as HN by (intros m Hm; by apply b64_alphabet_ok).
  destruct l as [|a [|b [|c l]]]; [done|..].
  - rewrite Forall_singleton in Hl. unfold is_byte in Hl. unfold rfc_encode.
    change (pad (zlen (sextets [a]))) with [61; 61]. cbn [sextets fmap list_fmap app decode leftover].
    split; [|done]. rewrite (quad_bytes (a `div` 4) (a `mod` 4 * 16) 0 0); [|apply HA; zdm|apply HA; zdm|done|done|zdm|zdm|lia|lia].
    unfold quad_len. rewrite !decide_True by done. change (Z.to_nat 1) with 1%nat. cbn [take app]. f_equal. zdm.
  - rewrite !Forall_cons in Hl. destruct Hl as (Ha & Hb & _). unfold is_byte in *. unfold rfc_encode.
    change (pad (zlen (sextets [a; b]))) with [61]. cbn [sextets fmap list_fmap app decode leftover].
    split; [|done]. rewrite (quad_bytes (a `div` 4) (a `mod` 4 * 16 + b `div` 16) (b `mod` 16 * 4) 0);
      [|apply HA; zdm|apply HA; zdm|apply HA; zdm|done|zdm|zdm|zdm|lia].
    unfold quad_len. rewrite decide_True by done. rewrite decide_False by (apply HN; zdm).
    change (Z.to_nat 2) with 2%nat. cbn [take app]. f_equal; [zdm|]. f_equal. zdm.
  - rewrite !Forall_cons in Hl. destruct Hl as (Ha & Hb & Hc & Hl). unfold is_byte in Ha, Hb, Hc.
    destruct (IH l) as [I1 I2]; [simpl in Hn; lia|done|]. unfold rfc_encode in *.
    assert (pad (zlen (sextets (a :: b :: c :: l))) = pad (zlen (sextets l))) as ->.
    { unfold pad. cbn [sextets]. rewrite !zlen_cons. do 2 f_equal. zdm. }
    cbn [sextets fmap list_fmap app decode leftover]. fold_fmap. rewrite I1, I2. split; [|done].
    rewrite (quad_bytes (a `div` 4) (a `mod` 4 * 16 + b `div` 16) (b `mod` 16 * 4 + c `div` 64) (c `mod` 64));
      [|apply HA; zdm..|zdm|zdm|zdm|zdm].
    unfold quad_len. rewrite decide_False by (apply HN; zdm).
    change (Z.to_nat 3) with 3%nat. cbn [take app]. f_equal; [zdm|]. f_equal; [zdm|]. f_equal. zdm.
Qed.

Lemma put_quad_blit d dest q :
  length q = 3%nat → 0 ≤ dest → dest + 3 ≤ zlen d → put_quad d dest q = Ok (blit d dest q).
Proof.
  intros He Hd Hl. destruct q as [|y1 [|y2 [|y3 [|]]]]; try done. unfold put_quad.
  pose proof (wr_blit d dest [] y1 Hd) as W1. rewrite blit_nil, zlen_nil, Z.add_0_r in W1. rewrite W1, res_bind_ok by lia.
  pose proof (wr_blit d dest [y1] y2 Hd) as W2. change (zlen [y1]) with 1 in W2. cbn [app]. rewrite W2, res_bind_ok by lia.
  pose proof (wr_blit d dest [y1; y2] y3 Hd) as W3. change (zlen [y1; y2]) with 2 in W3. apply W3. lia.
Qed.

Lemma memcpy_blit d dest s t :
  0 ≤ dest → dest + zlen s + zlen t ≤ zlen d → memcpy (blit d dest s) (dest + zlen s) t = Ok (blit d dest (s ++ t)).
Proof.
  revert s. induction t as [|x t IH]; intros s Hd Hl; cbn [memcpy]; [by rewrite app_nil_r|].
  rewrite zlen_cons in Hl. pose proof (zlen_nonneg t). rewrite wr_blit, res_bind_ok by lia.
  replace (dest + zlen s + 1) with (dest + zlen (s ++ [x])) by (rewrite zlen_app; simpl; change (zlen [x]) with 1; lia).
  rewrite IH; [by rewrite <- app_assoc|done|]. rewrite zlen_app. change (zlen [x]) with 1. lia.
Qed.

Lemma decode_short l : (length l < 4)%nat → decode l = [] ∧ leftover l = l.
Proof. intros Hl. destruct l as [|a [|b [|c [|x l]]]]; simpl in *; try done. lia. Qed.

Lemma quad_len_bounds e : length e = 4%nat → 1 ≤ quad_len e ≤ 3 ∧ zlen (quad e) = 3.
Proof.
  intros He. destruct e as [|a [|b [|c [|x [|]]]]]; try done. split; [|done].
  unfold quad_len. repeat case_decide; lia.
Qed.

Lemma decode_quad e l :
  length e = 4%nat → decode (e ++ l) = take (Z.to_nat (quad_len e)) (quad e) ++ decode l ∧ leftover (e ++ l) = leftover l.
Proof. intros He. by destruct e as [|a [|b [|c [|x [|]]]]]. Qed.

Lemma slice_cons d i len : 0 ≤ i < zlen d → 0 < len →
  ∃ c, rd d i = Ok c ∧ slice d i len = c :: slice d (i + 1) (len - 1).
Proof.
  intros Hi Hl. destruct (rd_ok d i Hi) as (c & Hr & Hc). exists c. split; [done|]. unfold slice.
  rewrite (drop_S d c (Z.to_nat i) Hc). replace (Z.to_nat len) with (S (Z.to_nat (len - 1))) by lia.
  cbn [take]. do 2 f_equal. f_equal. lia.
Qed.

(** The decoder in the middle of its work: it never overtakes its input. *)
Lemma unbase64_loop_spec fuel d len src dest enc :
  0 ≤ dest → dest + zlen enc ≤ src ≤ len → len ≤ zlen d → zlen enc ≤ 4 →
  2 * (len - src) + (if decide (zlen enc = 4) then 1 else 0) + 1 ≤ Z.of_nat fuel →
  let s := enc ++ filter valid (slice d src (len - src)) in
  let n := dest + zlen (decode s) + zlen (leftover s) in
  ∃ d', unbase64_loop fuel d len src dest enc = Ok (d', n, zlen (leftover s)) ∧ zlen d' = zlen d ∧
    take (Z.to_nat n) d' = take (Z.to_nat dest) d ++ decode s ++ leftover s ∧
    drop (Z.to_nat len) d' = drop (Z.to_nat len) d ∧ n ≤ len.
Proof.
  revert d src dest enc. induction fuel as [|fuel IH]; intros d src dest enc Hd Hs Hl He Hf; [case_decide; lia|].
  cbn [unbase64_loop]. pose proof (zlen_nonneg enc). destruct (decide (zlen enc = 4)) as [E4|E4].
  - assert (length enc = 4%nat) as L4 by (unfold zlen in E4; lia).
    destruct (quad_len_bounds enc L4) as [Hq Hq3].
    rewrite put_quad_blit, res_bind_ok by (done || lia || (unfold zlen in Hq3; lia)). set (d1 := blit d dest (quad enc)).
    assert (zlen d1 = zlen d) as L1 by (apply zlen_blit; lia).
    destruct (IH d1 src (dest + quad_len enc) []) as (d' & H1 & H2 & H3 & H4 & H5); [lia|rewrite zlen_nil; lia|lia|rewrite zlen_nil; lia|rewrite decide_False by done; lia|].
    assert (slice d1 src (len - src) = slice d src (len - src)) as Esl.
    { unfold slice, d1. by rewrite drop_blit by lia. }
    rewrite Esl in *. cbn [app] in *. destruct (decode_quad enc (filter valid (slice d src (len - src))) L4) as [-> ->].
    set (r := filter valid (slice d src (len - src))) in *.
    assert (zlen (take (Z.to_nat (quad_len enc)) (quad enc)) = quad_len enc) as Eq
      by (unfold zlen in *; rewrite length_take; lia).
    exists d'. rewrite !zlen_app, Eq, !Z.add_assoc. split; [done|]. split; [lia|]. split; [|split; [|lia]].
    + rewrite H3. unfold d1. rewrite take_blit by lia. by rewrite <- !app_assoc.
    + rewrite H4. unfold d1. by apply drop_blit; lia.
  - destruct (decide (len ≤ src)) as [Hend|Hgo].
    + replace (len - src) with 0 by lia. rewrite slice_0, filter_nil, app_nil_r.
      destruct (decode_short enc) as [-> ->]; [unfold zlen in *; lia|]. rewrite zlen_nil, Z.add_0_r.
      pose proof (memcpy_blit d dest [] enc) as HM. change (zlen (@nil Z)) with 0 in HM.
      rewrite blit_nil, !Z.add_0_r in HM.
      rewrite HM, res_bind_ok by lia. cbn [app]. exists (blit d dest enc). split; [done|]. split; [apply zlen_blit; lia|].
      split; [|split; [apply drop_blit; lia|lia]].
      rewrite take_blit by lia. f_equal. rewrite to_nat_zlen. by apply take_ge.
    + destruct (slice_cons d src (len - src)) as (c & Hr & Hsl); [lia|lia|]. rewrite Hr, res_bind_ok, Hsl.
      replace (len - src - 1) with (len - (src + 1)) by lia. case_decide as Ev.
      * rewrite filter_cons_False by (unfold valid; lia).
        apply IH; try lia. case_decide; lia.
      * rewrite filter_cons_True by (unfold valid; lia).
        assert (zlen (enc ++ [c]) = zlen enc + 1) as Lc by (by rewrite zlen_app).
        destruct (IH d (src + 1) dest (enc ++ [c])) as (d' & HH); [lia|lia|lia|lia|case_decide; lia|].
        rewrite <- app_assoc in HH. by exists d'.
Qed.

(** Decoding is additive: the characters left over from one chunk are decoded
    with the next. *)
Lemma decode_app l1 l2 :
  decode (l1 ++ l2) = decode l1 ++ decode (leftover l1 ++ l2) ∧ leftover (l1 ++ l2) = leftover (leftover l1 ++ l2).
Proof.
  remember (length l1) as n eqn:Hn. assert (length l1 <= n)%nat as Hle by lia. clear Hn. revert l1 Hle.
  induction n as [|n IH]; intros l1 Hle; [by destruct l1; [|simpl in Hle; lia]|].
  destruct l1 as [|a [|b [|c [|x l1]]]]; try done. cbn [app decode leftover].
  destruct (IH l1) as [-> ->]; [simpl in Hle; lia|]. by rewrite app_assoc.
Qed.

Lemma leftover_valid l : Forall valid l → filter valid (leftover l) = leftover l ∧ zlen (leftover l) < 4.
Proof.
  intros Hl. assert (∀ n l, (length l <= n)%nat → (∃ p, l = p ++ leftover l) ∧ zlen (leftover l) < 4) as HP.
  { clear. induction n as [|n IH]; intros l Hn; [by destruct l; [split; [by exists []|done]|simpl in Hn; lia]|].
    destruct l as [|a [|b [|c [|x l]]]]; try (split; [by exists []|done]). cbn [leftover].
    destruct (IH l) as [[p Hp] H4]; [simpl in Hn; lia|]. split; [|done]. exists (a :: b :: c :: x :: p). by rewrite Hp at 1. }
  destruct (HP (length l) l) as [[p Hp] H4]; [done|]. split; [|done].
  assert (Forall valid (leftover l)) as HF by (rewrite Hp in Hl; by apply Forall_app in Hl as [_ ?]).
  clear -HF. induction HF; [done|]. by rewrite filter_cons_True, IHHF.
Qed.

(** What is behind [req_buf + req_len - base64_count] when [ret] new bytes were
    read: one step of [do_read] on a tunnelled connection. The state is the
    decoded bytes and the characters waiting. *)
Definition tunnel_read (st : list Z * list Z) (chunk : list Z) : res (list Z * list Z) :=
  let '(req, wait) := st in
  let buf := wait ++ chunk in
  '(d, n, remain) ← unbase64 buf (zlen buf);
  Ok (req ++ take (Z.to_nat (n - remain)) d, slice d (n - remain) remain).

Fixpoint tunnel_reads (st : list Z * list Z) (chunks : list (list Z)) : res (list Z * list Z) :=
  match chunks with
  | [] => Ok st
  | c :: cs => st ← tunnel_read st c; tunnel_reads st cs
  end.

Lemma tunnel_read_spec req wait chunk :
  filter valid wait = wait →
  let s := wait ++ filter valid chunk in
  tunnel_read (req, wait) chunk = Ok (req ++ decode s, leftover s).
Proof.
  intros Hw s. unfold tunnel_read, unbase64. set (buf := wait ++ chunk). pose proof (zlen_nonneg buf).
  destruct (unbase64_loop_spec (Z.to_nat (2 * zlen buf) + 2) buf (zlen buf) 0 0 []) as (d' & H1 & H2 & H3 & H4 & H5);
    [lia|change (zlen (@nil Z)) with 0; lia|lia|change (zlen (@nil Z)) with 0; lia|rewrite decide_False by done; lia|].
  rewrite Z.sub_0_r, slice_all in *. cbn [app] in *. unfold buf in H1, H3, H5. rewrite filter_app, Hw in H1, H3, H5.
  fold s in H1, H3, H5. fold buf in H1. rewrite H1, res_bind_ok. rewrite Z.add_0_l in *.
  replace (zlen (decode s) + zlen (leftover s) - zlen (leftover s)) with (zlen (decode s)) by lia.
  pose proof (zlen_nonneg (decode s)). pose proof (zlen_nonneg (leftover s)).
  change (take (Z.to_nat 0) (wait ++ chunk)) with (@nil Z) in H3. cbn [app] in H3.
  assert (take (Z.to_nat (zlen (decode s))) d' = decode s) as E1.
  { rewrite to_nat_zlen.
    transitivity (take (length (decode s)) (take (Z.to_nat (zlen (decode s) + zlen (leftover s))) d')).
    - rewrite take_take. f_equal. unfold zlen. lia.
    - rewrite H3. apply take_app_length. }
  f_equal. f_equal; [by rewrite E1|]. unfold slice. rewrite firstn_skipn_comm.
  rewrite <- Z2Nat.inj_add by lia. rewrite H3, to_nat_zlen. apply drop_app_length.
Qed.

Lemma tunnel_reads_spec chunks req wait :
  Forall valid wait → zlen wait < 4 →
  let s := wait ++ filter valid (concat chunks) in
  tunnel_reads (req, wait) chunks = Ok (req ++ decode s, leftover s).
Proof.
  revert req wait. induction chunks as [|c cs IH]; intros req wait Hw H4 s; cbn [tunnel_reads].
  - unfold s. cbn [concat]. rewrite filter_nil, app_nil_r. destruct (decode_short wait) as [-> ->]; [unfold zlen in *; lia|].
    by rewrite app_nil_r.
  - assert (filter valid wait = wait) as Hfw by (clear -Hw; induction Hw; [done|by rewrite filter_cons_True, IHHw]).
    rewrite tunnel_read_spec, res_bind_ok by done. set (s1 := wait ++ filter valid c).
    assert (Forall valid s1) as Hs1 by (apply Forall_app; split; [done|apply Forall_forall; intros x Hx; by apply list_elem_of_filter in Hx as [? _]]).
    destruct (leftover_valid s1 Hs1) as [Hl1 Hl2].
    assert (Forall valid (leftover s1)) as Hvl by (rewrite <- Hl1; apply Forall_forall; intros x Hx; by apply list_elem_of_filter in Hx as [? _]).
    rewrite IH by done. unfold s. cbn [concat]. rewrite filter_app, app_assoc. fold s1.
    destruct (decode_app s1 (filter valid (concat cs))) as [-> ->]. by rewrite app_assoc.
Qed.

(** C26. A tunnelled request gets through: however the client's base64 stream is
    cut into reads, and whatever characters outside the alphabet are mixed in,
    the in-place decoder, fed the reads with the characters left from the last
    one, never runs outside the buffer nor over characters it has not read, and
    the bytes it gives are exactly the request the client encoded. *)
Theorem tunnel_roundtrip request chunks :
  Forall is_byte request → filter valid (concat chunks) = rfc_encode request →
  tunnel_reads ([], []) chunks = Ok (request, []).
Proof.
  intros Hb Hc. rewrite tunnel_reads_spec by (done || constructor). cbn [app]. rewrite Hc.
  destruct (decode_rfc (length request) request) as [-> ->]; done.
Qed.

Example encode_man : base64_encode 100 ($"Man") = Some ($"TWFu").
Proof. vm_compute. reflexivity. Qed.
Example encode_ma : base64_encode 100 ($"Many hands") = Some ($"TWFueSBoYW5kcw==").
Proof. vm_compute. reflexivity. Qed.
Example encode_7 : base64_encode 100 ($"foobarx!") = Some ($"Zm9vYmFyeCE=").
Proof. vm_compute. reflexivity. Qed.

Lemma base64_encode_rfc_witness : base64_encode 9 ($"foob") = Some ($"Zm9vYg==").
Proof.
  pose proof (base64_encode_rfc ($"foob") 9) as H.
  rewrite H by (repeat constructor; vm_compute; congruence). vm_compute. reflexivity.
Defined.

Lemma tunnel_roundtrip_witness :
  tunnel_reads ([], []) [$"T1B" ++ [10]; $"USU9O"; $"Uw="; $"="] = Ok ($"OPTIONS", []).
Proof.
  apply (tunnel_roundtrip ($"OPTIONS")).
  - repeat constructor; vm_compute; congruence.
  - vm_compute. reflexivity.
Defined.
