(* ===== verification/Md5.v ===== *)
(** * Md5: the message digest

    Models md5.c and md5.h of src/sources/applications/RTSPServer/src: the
    context, [MD5Init], [MD5Update], [MD5Final] and the unrolled
    [MD5Transform], and relates them to the algorithm of RFC 1321, written as a
    loop over the padded message. The target is little-endian, so [byteReverse]
    is empty. *)

From stdpp Require Import prelude.
From S2P Require Import Prelude.

(** ** The code *)

Definition F1 (x y z : Z) : Z := Z.lxor z (Z.land x (Z.lxor y z)).
Definition F2 (x y z : Z) : Z := F1 z x y.
Definition F3 (x y z : Z) : Z := Z.lxor (Z.lxor x y) z.
Definition F4 (x y z : Z) : Z := Z.lxor y (Z.lor x (u32 (Z.lnot z))).

Definition MD5STEP (f : Z → Z → Z → Z) (w x y z data s : Z) : Z :=
  let w := u32 (w + (f x y z + data)) in
  let w := Z.lor (u32 (Z.shiftl w s)) (Z.shiftr w (32 - s)) in
  u32 (w + x).

(** An assignment to one of the registers, and what follows it. *)
Definition assign {A} (w : Z) (k : Z → A) : A := k w.
Local Notation "'REG' w := e ; k" := (assign e (λ w, k)) (at level 200, w name, right associativity).

(** The four words of [buf]. *)
Definition regs : Type := Z * Z * Z * Z.

(** [((u32 * ) in)[i]] on a little-endian machine. *)
Definition byte_at (l : list Z) (i : nat) : Z := default 0 (l !! i).
Definition word (l : list Z) (i : nat) : Z :=
  byte_at l (4 * i) + Z.shiftl (byte_at l (4 * i + 1)) 8 + Z.shiftl (byte_at l (4 * i + 2)) 16
  + Z.shiftl (byte_at l (4 * i + 3)) 24.

Definition MD5Transform (buf : regs) (in_ : list Z) : regs :=
  let '(a0, b0, c0, d0) := buf in
  let '(a, b, c, d) := buf in
  REG a := MD5STEP F1 a b c d (word in_ 0 + 0xd76aa478) 7;
  REG d := MD5STEP F1 d a b c (word in_ 1 + 0xe8c7b756) 12;
  REG c := MD5STEP F1 c d a b (word in_ 2 + 0x242070db) 17;
  REG b := MD5STEP F1 b c d a (word in_ 3 + 0xc1bdceee) 22;
  REG a := MD5STEP F1 a b c d (word in_ 4 + 0xf57c0faf) 7;
  REG d := MD5STEP F1 d a b c (word in_ 5 + 0x4787c62a) 12;
  REG c := MD5STEP F1 c d a b (word in_ 6 + 0xa8304613) 17;
  REG b := MD5STEP F1 b c d a (word in_ 7 + 0xfd469501) 22;
  REG a := MD5STEP F1 a b c d (word in_ 8 + 0x698098d8) 7;
  REG d := MD5STEP F1 d a b c (word in_ 9 + 0x8b44f7af) 12;
  REG c := MD5STEP F1 c d a b (word in_ 10 + 0xffff5bb1) 17;
  REG b := MD5STEP F1 b c d a (word in_ 11 + 0x895cd7be) 22;
  REG a := MD5STEP F1 a b c d (word in_ 12 + 0x6b901122) 7;
  REG d := MD5STEP F1 d a b c (word in_ 13 + 0xfd987193) 12;
  REG c := MD5STEP F1 c d a b (word in_ 14 + 0xa679438e) 17;
  REG b := MD5STEP F1 b c d a (word in_ 15 + 0x49b40821) 22;
  REG a := MD5STEP F2 a b c d (word in_ 1 + 0xf61e2562) 5;
  REG d := MD5STEP F2 d a b c (word in_ 6 + 0xc040b340) 9;
  REG c := MD5STEP F2 c d a b (word in_ 11 + 0x265e5a51) 14;
  REG b := MD5STEP F2 b c d a (word in_ 0 + 0xe9b6c7aa) 20;
  REG a := MD5STEP F2 a b c d (word in_ 5 + 0xd62f105d) 5;
  REG d := MD5STEP F2 d a b c (word in_ 10 + 0x02441453) 9;
  REG c := MD5STEP F2 c d a b (word in_ 15 + 0xd8a1e681) 14;
  REG b := MD5STEP F2 b c d a (word in_ 4 + 0xe7d3fbc8) 20;
  REG a := MD5STEP F2 a b c d (word in_ 9 + 0x21e1cde6) 5;
  REG d := MD5STEP F2 d a b c (word in_ 14 + 0xc33707d6) 9;
  REG c := MD5STEP F2 c d a b (word in_ 3 + 0xf4d50d87) 14;
  REG b := MD5STEP F2 b c d a (word in_ 8 + 0x455a14ed) 20;
  REG a := MD5STEP F2 a b c d (word in_ 13 + 0xa9e3e905) 5;
  REG d := MD5STEP F2 d a b c (word in_ 2 + 0xfcefa3f8) 9;
  REG c := MD5STEP F2 c d a b (word in_ 7 + 0x676f02d9) 14;
  REG b := MD5STEP F2 b c d a (word in_ 12 + 0x8d2a4c8a) 20;
  REG a := MD5STEP F3 a b c d (word in_ 5 + 0xfffa3942) 4;
  REG d := MD5STEP F3 d a b c (word in_ 8 + 0x8771f681) 11;
  REG c := MD5STEP F3 c d a b (word in_ 11 + 0x6d9d6122) 16;
  REG b := MD5STEP F3 b c d a (word in_ 14 + 0xfde5380c) 23;
  REG a := MD5STEP F3 a b c d (word in_ 1 + 0xa4beea44) 4;
  REG d := MD5STEP F3 d a b c (word in_ 4 + 0x4bdecfa9) 11;
  REG c := MD5STEP F3 c d a b (word in_ 7 + 0xf6bb4b60) 16;
  REG b := MD5STEP F3 b c d a (word in_ 10 + 0xbebfbc70) 23;
  REG a := MD5STEP F3 a b c d (word in_ 13 + 0x289b7ec6) 4;
  REG d := MD5STEP F3 d a b c (word in_ 0 + 0xeaa127fa) 11;
  REG c := MD5STEP F3 c d a b (word in_ 3 + 0xd4ef3085) 16;
  REG b := MD5STEP F3 b c d a (word in_ 6 + 0x04881d05) 23;
  REG a := MD5STEP F3 a b c d (word in_ 9 + 0xd9d4d039) 4;
  REG d := MD5STEP F3 d a b c (word in_ 12 + 0xe6db99e5) 11;
  REG c := MD5STEP F3 c d a b (word in_ 15 + 0x1fa27cf8) 16;
  REG b := MD5STEP F3 b c d a (word in_ 2 + 0xc4ac5665) 23;
  REG a := MD5STEP F4 a b c d (word in_ 0 + 0xf4292244) 6;
  REG d := MD5STEP F4 d a b c (word in_ 7 + 0x432aff97) 10;
  REG c := MD5STEP F4 c d a b (word in_ 14 + 0xab9423a7) 15;
  REG b := MD5STEP F4 b c d a (word in_ 5 + 0xfc93a039) 21;
  REG a := MD5STEP F4 a b c d (word in_ 12 + 0x655b59c3) 6;
  REG d := MD5STEP F4 d a b c (word in_ 3 + 0x8f0ccc92) 10;
  REG c := MD5STEP F4 c d a b (word in_ 10 + 0xffeff47d) 15;
  REG b := MD5STEP F4 b c d a (word in_ 1 + 0x85845dd1) 21;
  REG a := MD5STEP F4 a b c d (word in_ 8 + 0x6fa87e4f) 6;
  REG d := MD5STEP F4 d a b c (word in_ 15 + 0xfe2ce6e0) 10;
  REG c := MD5STEP F4 c d a b (word in_ 6 + 0xa3014314) 15;
  REG b := MD5STEP F4 b c d a (word in_ 13 + 0x4e0811a1) 21;
  REG a := MD5STEP F4 a b c d (word in_ 4 + 0xf7537e82) 6;
  REG d := MD5STEP F4 d a b c (word in_ 11 + 0xbd3af235) 10;
  REG c := MD5STEP F4 c d a b (word in_ 2 + 0x2ad7d2bb) 15;
  REG b := MD5STEP F4 b c d a (word in_ 9 + 0xeb86d391) 21;
  (u32 (a0 + a), u32 (b0 + b), u32 (c0 + c), u32 (d0 + d)).

Record MD5Context := mkMD5 { buf : regs; bits : Z * Z; in_ : list Z }.

(** The block buffer is as the caller's stack left it. *)
Definition MD5Init (stack : list Z) : MD5Context :=
  mkMD5 (0x67452301, 0xefcdab89, 0x98badcfe, 0x10325476) (0, 0) stack.

(** The loop over whole blocks and the remaining bytes. *)
Fixpoint md5_blocks (fuel : nat) (b : regs) (in_ d : list Z) : regs * list Z :=
  match fuel with
  | O => (b, blit in_ 0 d)
  | S fuel =>
      if decide (64 ≤ zlen d) then
        let in_ := blit in_ 0 (take 64 d) in
        md5_blocks fuel (MD5Transform b in_) in_ (drop 64 d)
      else (b, blit in_ 0 d)
  end.

Definition MD5Update (ctx : MD5Context) (d : list Z) : MD5Context :=
  let len := zlen d in
  let '(b0, b1) := bits ctx in
  let n0 := u32 (b0 + u32 (Z.shiftl len 3)) in
  let b1 := if decide (n0 < b0) then u32 (b1 + 1) else b1 in
  let bits := (n0, u32 (b1 + Z.shiftr len 29)) in
  let t := Z.land (Z.shiftr b0 3) 63 in
  if decide (t ≠ 0) then
    if decide (len < 64 - t) then mkMD5 (buf ctx) bits (blit (in_ ctx) t d)
    else
      let i := blit (in_ ctx) t (take (Z.to_nat (64 - t)) d) in
      let d := drop (Z.to_nat (64 - t)) d in
      let '(b, i) := md5_blocks (length d) (MD5Transform (buf ctx) i) i d in
      mkMD5 b bits i
  else
    let '(b, i) := md5_blocks (length d) (buf ctx) (in_ ctx) d in
    mkMD5 b bits i.

(** A 32-bit word as little-endian bytes in memory. *)
Definition le32 (x : Z) : list Z :=
  [u8 x; u8 (Z.shiftr x 8); u8 (Z.shiftr x 16); u8 (Z.shiftr x 24)].
Definition zeros (n : Z) : list Z := replicate (Z.to_nat n) 0.

Definition MD5Final (ctx : MD5Context) : list Z :=
  let count := Z.land (Z.shiftr (fst (bits ctx)) 3) 63 in
  let i := blit (in_ ctx) count [128] in
  let p := count + 1 in
  let count := 64 - 1 - count in
  let '(b, i) :=
    if decide (count < 8) then
      let i := blit i p (zeros count) in
      (MD5Transform (buf ctx) i, blit i 0 (zeros 56))
    else (buf ctx, blit i p (zeros (count - 8))) in
  let i := blit (blit i 56 (le32 (fst (bits ctx)))) 60 (le32 (snd (bits ctx))) in
  let '(a, b, c, d) := MD5Transform b i in
  le32 a ++ le32 b ++ le32 c ++ le32 d.

(** ** RFC 1321 *)

Module Rfc.

Definition F (x y z : Z) : Z := Z.lor (Z.land x y) (Z.land (u32 (Z.lnot x)) z).
Definition G (x y z : Z) : Z := Z.lor (Z.land x z) (Z.land y (u32 (Z.lnot z))).
Definition H (x y z : Z) : Z := Z.lxor (Z.lxor x y) z.
Definition I (x y z : Z) : Z := Z.lxor y (Z.lor x (u32 (Z.lnot z))).

(** The table of sines. *)
Definition T : list Z :=
  [0xd76aa478; 0xe8c7b756; 0x242070db; 0xc1bdceee;
   0xf57c0faf; 0x4787c62a; 0xa8304613; 0xfd469501;
   0x698098d8; 0x8b44f7af; 0xffff5bb1; 0x895cd7be;
   0x6b901122; 0xfd987193; 0xa679438e; 0x49b40821;
   0xf61e2562; 0xc040b340; 0x265e5a51; 0xe9b6c7aa;
   0xd62f105d; 0x02441453; 0xd8a1e681; 0xe7d3fbc8;
   0x21e1cde6; 0xc33707d6; 0xf4d50d87; 0x455a14ed;
   0xa9e3e905; 0xfcefa3f8; 0x676f02d9; 0x8d2a4c8a;
   0xfffa3942; 0x8771f681; 0x6d9d6122; 0xfde5380c;
   0xa4beea44; 0x4bdecfa9; 0xf6bb4b60; 0xbebfbc70;
   0x289b7ec6; 0xeaa127fa; 0xd4ef3085; 0x04881d05;
   0xd9d4d039; 0xe6db99e5; 0x1fa27cf8; 0xc4ac5665;
   0xf4292244; 0x432aff97; 0xab9423a7; 0xfc93a039;
   0x655b59c3; 0x8f0ccc92; 0xffeff47d; 0x85845dd1;
   0x6fa87e4f; 0xfe2ce6e0; 0xa3014314; 0x4e0811a1;
   0xf7537e82; 0xbd3af235; 0x2ad7d2bb; 0xeb86d391].

Definition fn (i : nat) : Z → Z → Z → Z :=
  match (i / 16)%nat with 0 => F | 1 => G | 2 => H | _ => I end%nat.
Definition idx (i : nat) : nat :=
  match (i / 16)%nat with 0 => i mod 16 | 1 => (5 * i + 1) mod 16 | 2 => (3 * i + 5) mod 16 | _ => (7 * i) mod 16 end%nat.
Definition shift (i : nat) : Z :=
  nth (i mod 4)%nat
    (match (i / 16)%nat with 0%nat => [7; 12; 17; 22] | 1%nat => [5; 9; 14; 20] | 2%nat => [4; 11; 16; 23] | _ => [6; 10; 15; 21] end) 0.

(** Rotation of a 32-bit word to the left. *)
Definition rotl (x s : Z) : Z := Z.lor (u32 (Z.shiftl x s)) (Z.shiftr x (32 - s)).

(** One operation: the registers move by one place. *)
Definition op (X : list Z) (i : nat) (a b c d : Z) : Z :=
  u32 (b + rotl (u32 (a + fn i b c d + word X (idx i) + nth i T 0)) (shift i)).
Definition step (X : list Z) (r : regs) (i : nat) : regs :=
  let '(a, b, c, d) := r in (d, op X i a b c d, b, c).

Definition block (r : regs) (X : list Z) : regs :=
  let '(a0, b0, c0, d0) := r in
  let '(a, b, c, d) := foldl (step X) r (seq 0 64) in
  (u32 (a0 + a), u32 (b0 + b), u32 (c0 + c), u32 (d0 + d)).

(** [n] whole blocks. *)
Fixpoint blocks (n : nat) (r : regs) (m : list Z) : regs :=
  match n with
  | O => r
  | S n => blocks n (block r (take 64 m)) (drop 64 m)
  end.

(** A one bit, zeros up to 56 bytes modulo 64, the number of bits. *)
Definition pad (m : list Z) : list Z :=
  m ++ [128] ++ zeros ((55 - zlen m) `mod` 64) ++ le32 (u32 (8 * zlen m)) ++ le32 (u32 (Z.shiftr (8 * zlen m) 32)).

Definition init : regs := (0x67452301, 0xefcdab89, 0x98badcfe, 0x10325476).

Definition md5 (m : list Z) : list Z :=
  let p := pad m in
  let '(a, b, c, d) := blocks (length p / 64) init p in
  le32 a ++ le32 b ++ le32 c ++ le32 d.

End Rfc.

(** ** The unrolled transform is the RFC's loop *)

Definition word_ok (x : Z) : Prop := 0 ≤ x < 4294967296.
Definition regs_ok (r : regs) : Prop := let '(a, b, c, d) := r in word_ok a ∧ word_ok b ∧ word_ok c ∧ word_ok d.

Lemma u32_ok x : word_ok (u32 x).
Proof. apply Z.mod_pos_bound. lia. Qed.

Lemma u32_testbit x n : 0 ≤ n → Z.testbit (u32 x) n = bool_decide (n < 32) && Z.testbit x n.
Proof.
  intros Hn. unfold u32. change 4294967296 with (2 ^ 32). case_bool_decide.
  - rewrite Z.mod_pow2_bits_low by lia. done.
  - rewrite Z.mod_pow2_bits_high by lia. done.
Qed.

Lemma word_testbit x n : word_ok x → 32 ≤ n → Z.testbit x n = false.
Proof.
  intros Hx Hn. rewrite <- (Z.mod_small x 4294967296) by done. fold (u32 x).
  rewrite u32_testbit by lia. by rewrite bool_decide_eq_false_2 by lia.
Qed.

(** Decides an equation between two bitwise expressions of 32-bit words. *)
Ltac word_bits :=
  intros; apply Z.bits_inj'; intros n Hn;
  repeat (rewrite ?Z.lxor_spec, ?Z.land_spec, ?Z.lor_spec, ?u32_testbit, ?Z.lnot_spec by lia);
  destruct (decide (n < 32));
  [rewrite ?bool_decide_eq_true_2 by done
  |rewrite ?bool_decide_eq_false_2 by done; rewrite ?(word_testbit _ n) by (done || lia)];
  repeat match goal with |- context [Z.testbit ?x n] => destruct (Z.testbit x n) end; reflexivity.

Lemma F1_rfc x y z : word_ok x → word_ok y → word_ok z → F1 x y z = Rfc.F x y z.
Proof. unfold F1, Rfc.F. word_bits. Qed.
Lemma F2_rfc x y z : word_ok x → word_ok y → word_ok z → F2 x y z = Rfc.G x y z.
Proof. unfold F2, F1, Rfc.G. word_bits. Qed.

Lemma MD5STEP_rfc f X i w x y z data s :
  f x y z = Rfc.fn i x y z → data = word X (Rfc.idx i) + nth i Rfc.T 0 → s = Rfc.shift i →
  MD5STEP f w x y z data s = Rfc.op X i w x y z.
Proof.
  intros Hf -> ->. unfold MD5STEP, Rfc.op, Rfc.rotl. rewrite Hf, !Z.add_assoc. by rewrite (Z.add_comm x).
Qed.

Definition last_add (r0 r : regs) : regs :=
  let '(a0, b0, c0, d0) := r0 in let '(a, b, c, d) := r in
  (u32 (a0 + a), u32 (b0 + b), u32 (c0 + c), u32 (d0 + d)).

(** One unrolled step against one iteration. *)
Lemma unroll_step r0 (K : Z → regs) w X i l a b c d :
  w = Rfc.op X i a b c d →
  (∀ x, word_ok x → K x = last_add r0 (foldl (Rfc.step X) (d, x, b, c) l)) →
  assign w K = last_add r0 (foldl (Rfc.step X) (a, b, c, d) (i :: l)).
Proof. unfold assign. intros -> HK. cbn [foldl Rfc.step]. apply HK. apply u32_ok. Qed.

Ltac unroll :=
  apply unroll_step;
  [apply MD5STEP_rfc; [first [apply F1_rfc; assumption | apply F2_rfc; assumption | reflexivity]|reflexivity|reflexivity]
  |intros ? ?].

Lemma transform_rfc r X : regs_ok r → MD5Transform r X = Rfc.block r X.
Proof.
  destruct r as [[[a0 b0] c0] d0]. intros (Ha & Hb & Hc & Hd).
  transitivity (last_add (a0, b0, c0, d0) (foldl (Rfc.step X) (a0, b0, c0, d0) (seq 0 64))).
  - unfold MD5Transform. let l := eval cbv in (seq 0 64) in change (seq 0 64) with l.
    do 64 unroll. reflexivity.
  - unfold Rfc.block, last_add. by destruct (foldl _ _ _) as [[[]]].
Qed.

Lemma block_ok r X : regs_ok (Rfc.block r X).
Proof.
  unfold Rfc.block. destruct r as [[[a0 b0] c0] d0]. destruct (foldl _ _ _) as [[[a b] c] d].
  repeat split; apply u32_ok.
Qed.

(** ** Streaming *)

Lemma blocks_app n k r m m' :
  length m = (64 * n)%nat → Rfc.blocks (n + k) r (m ++ m') = Rfc.blocks k (Rfc.blocks n r m) m'.
Proof.
  revert r m. induction n as [|n IH]; intros r m Hm; simpl.
  - by destruct m.
  - rewrite take_app_le, drop_app_le by lia. apply IH. rewrite length_drop. lia.
Qed.

Lemma blocks_ok n r m : regs_ok r → regs_ok (Rfc.blocks n r m).
Proof. revert r m. induction n as [|n IH]; intros r m Hr; [done|]. apply IH, block_ok. Qed.

(** The context after the bytes [m]. *)
Record absorbed (ctx : MD5Context) (m : list Z) : Prop := {
  ab_len : length (in_ ctx) = 64%nat;
  ab_bits : bits ctx = (u32 (8 * zlen m), u32 (Z.shiftr (8 * zlen m) 32));
  ab_buf : buf ctx = Rfc.blocks (length m / 64) Rfc.init m;
  ab_in : take (length m mod 64) (in_ ctx) = drop (64 * (length m / 64)) m }.

Lemma MD5Init_absorbed stack : length stack = 64%nat → absorbed (MD5Init stack) [].
Proof. by split. Qed.

(** The bit count, with its carry. *)
Lemma bits_carry n len :
  0 ≤ n → 0 ≤ len < 4294967296 →
  let b0 := u32 (8 * n) in
  let n0 := u32 (b0 + u32 (Z.shiftl len 3)) in
  let b1 := u32 (Z.shiftr (8 * n) 32) in
  n0 = u32 (8 * (n + len)) ∧
  u32 ((if decide (n0 < b0) then u32 (b1 + 1) else b1) + Z.shiftr len 29) = u32 (Z.shiftr (8 * (n + len)) 32).
Proof.
  intros Hn Hl. cbv zeta. rewrite !Z.shiftr_div_pow2, Z.shiftl_mul_pow2 by lia.
  change (2 ^ 3) with 8. change (2 ^ 32) with 4294967296. change (2 ^ 29) with 536870912. unfold u32.
  assert (len * 8 = 8 * len) as -> by lia.
  replace (8 * (n + len)) with (8 * n + 8 * len) by lia.
  assert (8 * len `div` 536870912 = len `div` 536870912 * 8) by lia.
  assert ((8 * len) `div` 4294967296 = len `div` 536870912) as <-.
  { change 4294967296 with (8 * 536870912). apply Z.div_mul_cancel_l; lia. }
  set (A := 8 * n) in *. set (L := 8 * len) in *. assert (0 ≤ A) by lia. assert (0 ≤ L) by lia. clearbody A L.
  split; [by rewrite <- Z.add_mod by lia|].
  rewrite <- Z.add_mod by lia.
  case_decide as Hc; rewrite !Zplus_mod_idemp_l; [rewrite <- Z.add_assoc, Zplus_mod_idemp_l, Z.add_assoc|];
    f_equal; clear -Hc H0 H1; Z.div_mod_to_equations; lia.
Qed.

Lemma blit_start i d : blit i 0 d = d ++ drop (length d) i.
Proof. unfold blit. by rewrite take_0. Qed.

Lemma div64_step n : (64 ≤ n)%nat → (n / 64 = S ((n - 64) / 64) ∧ n mod 64 = (n - 64) mod 64)%nat.
Proof.
  intros Hn. assert (n = (n - 64) + 1 * 64)%nat as E by lia. rewrite E at 1 3.
  rewrite Nat.div_add, Nat.Div0.mod_add by lia. lia.
Qed.

Lemma md5_blocks_spec fuel b i d :
  length i = 64%nat → regs_ok b → (length d ≤ fuel)%nat →
  ∃ i', md5_blocks fuel b i d = (Rfc.blocks (length d / 64) b d, i') ∧ length i' = 64%nat ∧
    take (length d mod 64) i' = drop (64 * (length d / 64)) d.
Proof.
  revert b i d. induction fuel as [|fuel IH]; intros b i d Hi Hb Hf.
  - destruct d; [|simpl in Hf; lia]. exists (blit i 0 []). cbn [md5_blocks]. by rewrite blit_nil.
  - cbn [md5_blocks]. unfold zlen. case_decide as H.
    + destruct (div64_step (length d)) as [E1 E2]; [lia|].
      assert (blit i 0 (take 64 d) = take 64 d) as ->.
      { rewrite blit_start, length_take, drop_ge by lia. apply app_nil_r. }
      rewrite transform_rfc by done.
      destruct (IH (Rfc.block b (take 64 d)) (take 64 d) (drop 64 d)) as (i' & H1 & H2 & H3);
        [rewrite length_take; lia|apply block_ok|rewrite length_drop; lia|].
      rewrite length_drop in H1, H3. exists i'. rewrite E1. cbn [Rfc.blocks]. split; [done|]. split; [done|].
      rewrite E2, H3, drop_drop. f_equal. lia.
    + exists (blit i 0 d). rewrite Nat.div_small, Nat.mod_small by lia. split; [done|]. rewrite blit_start. split.
      * rewrite length_app, length_drop. lia.
      * by rewrite take_app_length.
Qed.

(** Blocks look at no more than they need. *)
Lemma blocks_prefix n r m d : (64 * n ≤ length m)%nat → Rfc.blocks n r (m ++ d) = Rfc.blocks n r m.
Proof.
  intros Hn. rewrite <- (take_drop (64 * n) m) at 2. rewrite <- (take_drop (64 * n) m) at 1. rewrite <- app_assoc.
  replace n with (n + 0)%nat at 1 4 by lia. rewrite !blocks_app by (rewrite length_take; lia). done.
Qed.

Lemma fill_index n : 0 ≤ n → Z.land (Z.shiftr (u32 (8 * n)) 3) 63 = n `mod` 64.
Proof.
  intros Hn. change 63 with (Z.ones 6). rewrite Z.land_ones, Z.shiftr_div_pow2 by lia.
  unfold u32. change (2 ^ 3) with 8. change (2 ^ 6) with 64. Z.div_mod_to_equations; lia.
Qed.

Lemma split64 q k : ((64 * q + k) / 64 = q + k / 64 ∧ (64 * q + k) mod 64 = k mod 64)%nat.
Proof.
  replace (64 * q + k)%nat with (k + q * 64)%nat by lia. rewrite Nat.div_add, Nat.Div0.mod_add by lia. lia.
Qed.

(** Whole blocks absorbed, the rest goes through the loop. *)
Lemma md5_blocks_absorbed bts i q m d :
  length i = 64%nat → length m = (64 * q)%nat →
  bts = (u32 (8 * zlen (m ++ d)), u32 (Z.shiftr (8 * zlen (m ++ d)) 32)) →
  absorbed (let '(b, i') := md5_blocks (length d) (Rfc.blocks q Rfc.init m) i d in mkMD5 b bts i') (m ++ d).
Proof.
  intros Hi Hm Hb.
  destruct (md5_blocks_spec (length d) (Rfc.blocks q Rfc.init m) i d) as (i' & H1 & H2 & H3);
    [done|apply blocks_ok; repeat split; done|done|].
  rewrite H1.
  assert (length (m ++ d) / 64 = q + length d / 64 ∧ length (m ++ d) mod 64 = length d mod 64)%nat as [E1 E2].
  { rewrite length_app, Hm. apply split64. }
  split; cbn [buf bits in_]; [done|done|rewrite E1, blocks_app by done; done|].
  rewrite E2, H3, E1, drop_app_ge by lia. f_equal. lia.
Qed.

(** [MD5Update] appends. *)
Lemma MD5Update_absorbed ctx m d :
  absorbed ctx m → zlen d < 4294967296 → absorbed (MD5Update ctx d) (m ++ d).
Proof.
  intros [Hi Hbits Hb Hin] Hd. unfold MD5Update. rewrite Hbits.
  destruct (bits_carry (zlen m) (zlen d)) as [C1 C2]; [unfold zlen; lia|unfold zlen in *; lia|].
  rewrite C1, <- zlen_app in *. rewrite C2, fill_index by (unfold zlen; lia).
  pose proof (Nat.div_mod_eq (length m) 64) as Hdm. pose proof (Nat.mod_upper_bound (length m) 64 ltac:(lia)) as Hlt.
  set (q := (length m / 64)%nat) in *. set (t := (length m mod 64)%nat) in *.
  assert (zlen m `mod` 64 = Z.of_nat t) as -> by (unfold zlen, t; by rewrite Nat2Z.inj_mod).
  set (bts := (_, _)).
  assert (take t (in_ ctx) ++ d = drop (64 * q) (m ++ d)) as Hcat by (rewrite drop_app_le by lia; by rewrite Hin).
  clear C1 C2. case_decide as Ht; [case_decide as Hs|].
  - unfold zlen in Hs.
    assert (length (m ++ d) / 64 = q ∧ length (m ++ d) mod 64 = t + length d)%nat as [E1 E2].
    { rewrite length_app. replace (length m + length d)%nat with (64 * q + (t + length d))%nat by lia.
      rewrite (proj1 (split64 _ _)), (proj2 (split64 _ _)), Nat.div_small, Nat.mod_small by lia. lia. }
    split; cbn [buf bits in_]; [|done| |].
    + unfold blit. rewrite !length_app, length_take, length_drop. lia.
    + rewrite E1, Hb. symmetry. apply blocks_prefix. lia.
    + rewrite E1, E2, <- Hcat. replace (t + length d)%nat with (Z.to_nat (Z.of_nat t + Z.of_nat (length d))) by lia.
      rewrite take_blit by (unfold zlen; lia). rewrite !Nat2Z.id, firstn_all. done.
  - unfold zlen in Hs. replace (Z.to_nat (64 - Z.of_nat t)) with (64 - t)%nat by lia.
    set (f := take (64 - t) d). assert (length f = 64 - t)%nat as Hf by (unfold f; rewrite length_take; lia).
    assert (blit (in_ ctx) (Z.of_nat t) f = drop (64 * q) (m ++ f)) as ->.
    { unfold blit. rewrite Nat2Z.id, drop_ge, app_nil_r by lia. rewrite Hin, drop_app_le by lia. done. }
    rewrite Hb, transform_rfc by (apply blocks_ok; repeat split; done).
    assert (Rfc.block (Rfc.blocks q Rfc.init m) (drop (64 * q) (m ++ f)) = Rfc.blocks (q + 1) Rfc.init (m ++ f)) as ->.
    { rewrite <- (take_drop (64 * q) (m ++ f)) at 2. rewrite blocks_app by (rewrite length_take, length_app; lia).
      cbn [Rfc.blocks]. rewrite (take_ge (drop (64 * q) (m ++ f)) 64) by (rewrite length_drop, length_app; lia).
      rewrite take_app_le by lia. rewrite <- (blocks_prefix q _ (take (64 * q) m) (drop (64 * q) m)) by (rewrite length_take; lia).
      by rewrite take_drop. }
    assert (m ++ d = (m ++ f) ++ drop (64 - t) d) as Hmd by (rewrite <- app_assoc; unfold f; by rewrite take_drop).
    rewrite Hmd. apply md5_blocks_absorbed; [|rewrite length_app; lia|].
    + rewrite length_drop, length_app. lia.
    + unfold bts. by rewrite Hmd.
  - rewrite Hb. apply md5_blocks_absorbed; [done|lia|done].
Qed.

Lemma blit_app r x s i : i = zlen r → blit (r ++ x) i s = (r ++ s) ++ drop (length s) x.
Proof.
  intros ->. unfold blit. rewrite to_nat_zlen, take_app_length, <- app_assoc. do 2 f_equal.
  rewrite drop_app_ge by lia. f_equal. lia.
Qed.

Lemma length_zeros n : length (zeros n) = Z.to_nat n.
Proof. apply length_replicate. Qed.

(** Two buffers for the end: what the padding leaves in the last block. *)
(** The last block when the padding fits in it. *)
Lemma pad_one_block r x lo hi :
  length lo = 4%nat → length hi = 4%nat → (length r < 56)%nat → length x = (64 - length r)%nat →
  let i := blit (r ++ x) (zlen r) [128] in
  let l := r ++ [128] ++ zeros (55 - zlen r) ++ lo ++ hi in
  blit (blit (blit i (zlen r + 1) (zeros (64 - 1 - zlen r - 8))) 56 lo) 60 hi = l ∧ length l = 64%nat.
Proof.
  intros Hlo Hhi Hr Hx i l. split; [|unfold l, zlen; rewrite !length_app, length_zeros; simpl; lia].
  unfold i, l. rewrite (blit_app r x [128]) by done.
  rewrite (blit_app (r ++ [128])) by (rewrite zlen_app; unfold zlen; simpl; lia).
  rewrite (blit_app _ _ lo) by (rewrite !zlen_app; unfold zlen; rewrite length_zeros; simpl; lia).
  rewrite (blit_app _ _ hi) by (rewrite !zlen_app; unfold zlen; rewrite length_zeros; simpl; lia).
  rewrite !drop_drop, (drop_ge x), app_nil_r by (rewrite length_zeros, Hlo, Hhi; unfold zlen; simpl; lia).
  rewrite <- !app_assoc. by replace (64 - 1 - zlen r - 8) with (55 - zlen r) by lia.
Qed.

(** The last two blocks when it does not. *)
Lemma pad_two_blocks r x lo hi :
  length lo = 4%nat → length hi = 4%nat → (56 ≤ length r < 64)%nat → length x = (64 - length r)%nat →
  let l := r ++ [128] ++ zeros (63 - zlen r) in
  blit (blit (r ++ x) (zlen r) [128]) (zlen r + 1) (zeros (64 - 1 - zlen r)) = l ∧ length l = 64%nat ∧
  blit (blit (blit l 0 (zeros 56)) 56 lo) 60 hi = zeros 56 ++ lo ++ hi ∧
  r ++ [128] ++ zeros (119 - zlen r) ++ lo ++ hi = l ++ zeros 56 ++ lo ++ hi.
Proof.
  intros Hlo Hhi Hr Hx l. assert (length l = 64%nat) as Hl by (unfold l, zlen; rewrite !length_app, length_zeros; simpl; lia). split_and!.
  - unfold l. rewrite (blit_app r x [128]) by done. rewrite (blit_app (r ++ [128])) by (rewrite zlen_app; unfold zlen; simpl; lia).
    rewrite !drop_drop, (drop_ge x), app_nil_r by (rewrite length_zeros; unfold zlen; simpl; lia).
    rewrite <- !app_assoc. by replace (64 - 1 - zlen r) with (63 - zlen r) by lia.
  - done.
  - rewrite (blit_start l), (blit_app _ _ lo), (blit_app _ _ hi) by (rewrite ?zlen_app; unfold zlen; rewrite length_zeros; simpl; lia).
    rewrite !drop_drop, (drop_ge l), app_nil_r by (rewrite length_zeros, Hlo, Hhi, Hl; simpl; lia). by rewrite <- !app_assoc.
  - unfold l. replace (zeros (119 - zlen r)) with (zeros (63 - zlen r) ++ zeros 56)
      by (unfold zeros, zlen; rewrite <- replicate_add; f_equal; lia). by rewrite <- !app_assoc.
Qed.

Lemma MD5Final_absorbed ctx m : absorbed ctx m → MD5Final ctx = Rfc.md5 m.
Proof.
  intros [Hi Hbits Hb Hin]. unfold MD5Final. rewrite Hbits. cbn [fst snd]. rewrite fill_index by (unfold zlen; lia).
  pose proof (Nat.div_mod_eq (length m) 64) as Hdm. pose proof (Nat.mod_upper_bound (length m) 64 ltac:(lia)) as Hlt.
  assert (zlen m `mod` 64 = Z.of_nat (length m mod 64)) as -> by (unfold zlen; by rewrite Nat2Z.inj_mod).
  unfold Rfc.md5, Rfc.pad.
  set (lo := le32 (u32 (8 * zlen m))). set (hi := le32 (u32 (Z.shiftr (8 * zlen m) 32))).
  assert (length lo = 4%nat ∧ length hi = 4%nat) as [Hlo Hhi] by done. clearbody lo hi.
  set (q := (length m / 64)%nat) in *. set (t := (length m mod 64)%nat) in *.
  set (r := drop (64 * q) m) in *. assert (length r = t) as Hr by (unfold r; rewrite length_drop; lia).
  assert (∃ x, in_ ctx = r ++ x ∧ length x = (64 - t)%nat) as (x & -> & Hx).
  { exists (drop t (in_ ctx)). rewrite <- Hin, take_drop, length_drop. split; [done|lia]. }
  assert (m = take (64 * q) m ++ r) as Hm by (unfold r; by rewrite take_drop).
  set (w := take (64 * q) m) in *. assert (length w = (64 * q)%nat) as Hw by (unfold w; rewrite length_take; lia).
  assert (buf ctx = Rfc.blocks q Rfc.init w) as ->.
  { rewrite Hb, Hm. apply blocks_prefix. lia. }
  assert ((55 - zlen m) `mod` 64 = if decide (t < 56)%nat then 55 - zlen r else 119 - zlen r) as ->.
  { unfold zlen. rewrite Hr, Hdm. case_decide;
    [symmetry; apply (Z.mod_unique _ _ (- Z.of_nat q)); lia|symmetry; apply (Z.mod_unique _ _ (- Z.of_nat q - 1)); lia]. }
  assert (∀ r', regs_ok (Rfc.blocks q Rfc.init r')) as Hok by (intros; apply blocks_ok; repeat split; done).
  assert (∀ k l, length l = (64 * k)%nat →
    Rfc.blocks (length (w ++ l) / 64) Rfc.init (w ++ l) = Rfc.blocks k (Rfc.blocks q Rfc.init w) l) as HB.
  { intros k l Hl. replace (length (w ++ l) / 64)%nat with (q + k)%nat; [by apply blocks_app|].
    rewrite length_app, Hl, Hw. replace (64 * q + 64 * k)%nat with (64 * (q + k) + 0)%nat by lia. rewrite (proj1 (split64 _ _)). simpl. lia. }
  clearbody q t r w. clear Hb Hin Hdm. rewrite Hm. clear Hm. replace (Z.of_nat t) with (zlen r) by (unfold zlen; by rewrite Hr).
  destruct (decide (t < 56)%nat) as [Hc|Hc].
  - rewrite (decide_False (P := 64 - 1 - zlen r < 8)) by (unfold zlen; lia).
    destruct (pad_one_block r x lo hi Hlo Hhi ltac:(lia) ltac:(lia)) as [-> Hl]. rewrite <- !app_assoc.
    rewrite transform_rfc by apply Hok. rewrite (HB 1%nat) by done. cbn [Rfc.blocks]. by rewrite take_ge by lia.
  - rewrite (decide_True (P := 64 - 1 - zlen r < 8)) by (unfold zlen; lia).
    destruct (pad_two_blocks r x lo hi Hlo Hhi ltac:(lia) ltac:(lia)) as (-> & Hl & -> & El). rewrite <- !app_assoc, El.
    set (l := r ++ [128] ++ _) in *. clearbody l. set (l2 := zeros 56 ++ lo ++ hi).
    assert (length l2 = 64)%nat as Hl2 by (unfold l2; rewrite !length_app, length_zeros; simpl; lia).
    rewrite (transform_rfc _ l) by apply Hok. rewrite transform_rfc by apply block_ok.
    rewrite (HB 2%nat (l ++ l2)) by (rewrite length_app; lia).
    cbn [Rfc.blocks]. rewrite take_app_le, (take_ge l), drop_app_le, (drop_ge l) by lia. simpl app. by rewrite take_ge by lia.
Qed.

Lemma updates_absorbed ctx m ds :
  absorbed ctx m → Forall (λ d, zlen d < 4294967296) ds → absorbed (foldl MD5Update ctx ds) (m ++ concat ds).
Proof.
  intros Ha Hd. revert ctx m Ha. induction Hd as [|d ds Hd _ IH]; intros ctx m Ha; simpl.
  - by rewrite app_nil_r.
  - rewrite app_assoc. apply IH. by apply MD5Update_absorbed.
Qed.

(** C23. [MD5Init], any sequence of [MD5Update] calls and [MD5Final] compute the
    digest RFC 1321 defines of the concatenation of the chunks: however the
    message is cut, with the bit count and its carry, the padding over one or
    two blocks, and the unrolled transform with its optimised round functions. *)
Theorem md5_rfc stack ds :
  length stack = 64%nat → Forall (λ d, zlen d < 4294967296) ds →
  MD5Final (foldl MD5Update (MD5Init stack) ds) = Rfc.md5 (concat ds).
Proof.
  intros Hs Hd. apply MD5Final_absorbed. apply (updates_absorbed _ []); [by apply MD5Init_absorbed|done].
Qed.

Lemma md5_rfc_witness :
  MD5Final (foldl MD5Update (MD5Init (replicate 64 0)) [[97]; [98; 99]]) = Rfc.md5 [97; 98; 99].
Proof.
  apply (md5_rfc (replicate 64 0) [[97]; [98; 99]]).
  - reflexivity.
  - repeat (constructor; [reflexivity|]). constructor.
Defined.
