(* ===== verification/HttpAuth.v ===== *)
(** * HttpAuth: digest authentication

    Models http-auth.c of src/sources/applications/RTSPServer/src, with
    [random_bytes] and [random_id] of spook.c: the challenge, the nonce it
    carries, the parser of the Authorization header and the check of a response.
    The clock and the random numbers are arguments; the secret of the process,
    once created, is the state. *)

From stdpp Require Import prelude strings.
From S2P Require Import Prelude Pmsg Md5.

Local Open Scope c_scope.

(** ** The code *)

(** The bytes of successive calls of [random()]. *)
Definition random_bytes (rnd : list Z) : list Z := (λ x, Z.land x 255) <$> rnd.
(** [random_id(dest, 2 * length rnd)]. *)
Definition random_id (rnd : list Z) : list Z := concat (fmt_02X <$> random_bytes rnd).

(** The character arrays hold strings; [memset] empties them. *)
Record digest_auth_info := mkAuth {
  a_realm : list Z;
  a_uri : list Z;
  a_nonce : list Z;
  a_opaque : list Z;
  a_username : list Z;
  a_response : list Z }.

Definition no_auth : digest_auth_info := mkAuth [] [] [] [] [] [].

(** The updates of [md5_hash]: a colon between the strings. *)
Fixpoint colon_chunks (v : list (list Z)) : list (list Z) :=
  match v with
  | [] => []
  | [x] => [x]
  | x :: v => x :: [58] :: colon_chunks v
  end.

(** [stack] is what the block buffer of the context holds before. *)
Definition md5_hash_on (stack : list Z) (v : list (list Z)) : list Z :=
  concat (fmt_02x <$> MD5Final (foldl MD5Update (MD5Init stack) (colon_chunks v))).
Definition md5_hash : list (list Z) → list Z := md5_hash_on (replicate 64 0).

(** [rnd] are 12 random bytes. *)
Definition create_nonce (secret : list Z) (now : Z) (rnd : list Z) : list Z :=
  let token := concat (fmt_02x <$> PUT_32 now ++ random_bytes rnd) in
  token ++ md5_hash [token; secret].

(** *** The Authorization header *)

(** The value at [v]: where it starts and its length, [None] when a quote is not
    closed. *)
Definition auth_value (v : list Z) : option (list Z * nat) :=
  match v with
  | [] => None
  | x :: r =>
      if decide (x = 34) then
        match strchr r 34 with Some rest => Some (r, length r - length rest)%nat | None => None end
      else Some (v, Z.to_nat (span_len (λ c, negb ((c =? 44) || (c =? 32))) v))
  end.

(** The directive whose name is at [n]. *)
Definition auth_directive (a : digest_auth_info) (n v : list Z) (len : nat) : option digest_auth_info :=
  let s := take len v in
  if strcaseprefix n $"realm=" then
    if decide (128 ≤ Z.of_nat len) then None
    else Some (mkAuth s (a_uri a) (a_nonce a) (a_opaque a) (a_username a) (a_response a))
  else if strcaseprefix n $"uri=" then
    if decide (512 ≤ Z.of_nat len) then None
    else Some (mkAuth (a_realm a) s (a_nonce a) (a_opaque a) (a_username a) (a_response a))
  else if strcaseprefix n $"nonce=" then
    if decide (128 ≤ Z.of_nat len) then None
    else Some (mkAuth (a_realm a) (a_uri a) s (a_opaque a) (a_username a) (a_response a))
  else if strcaseprefix n $"opaque=" then
    if decide (128 ≤ Z.of_nat len) then None
    else Some (mkAuth (a_realm a) (a_uri a) (a_nonce a) s (a_username a) (a_response a))
  else if strcaseprefix n $"username=" then
    if decide (128 ≤ Z.of_nat len) then None
    else Some (mkAuth (a_realm a) (a_uri a) (a_nonce a) (a_opaque a) s (a_response a))
  else if strcaseprefix n $"response=" then
    if decide (33 ≤ Z.of_nat len) then None
    else Some (mkAuth (a_realm a) (a_uri a) (a_nonce a) (a_opaque a) (a_username a) s)
  else if strcaseprefix n $"algorithm=" then
    if strcaseprefix v $"md5" then Some a else None
  else Some a.

Definition skip_seps (n : list Z) : list Z :=
  drop (Z.to_nat (span_len (λ c, (c =? 34) || (c =? 44) || (c =? 32)) n)) n.

(** The loop; the inner [None] stands for -1. *)
Fixpoint auth_directives (fuel : nat) (n : list Z) (a : digest_auth_info) : res (option digest_auth_info) :=
  match fuel with
  | O => Fault OutOfFuel
  | S fuel =>
      match n with
      | [] => Ok (Some a)
      | _ =>
          match strchr n 61 with
          | None | Some [] => Ok None
          | Some (_ :: v) =>
              match auth_value v with
              | None => Ok None
              | Some (v, len) =>
                  match auth_directive a n v len with
                  | None => Ok None
                  | Some a => auth_directives fuel (skip_seps (drop len v)) a
                  end
              end
          end
      end
  end.

Definition parse_auth_header (header : list Z) (a : digest_auth_info) : res (option digest_auth_info) :=
  if strcaseprefix header $"digest " then auth_directives (S (length header)) (drop 7 header) a
  else Ok None.

(** *** The check *)

Definition create_response (a : digest_auth_info) (method password : list Z) : list Z :=
  let ha1 := md5_hash [a_username a; a_realm a; password] in
  let ha2 := md5_hash [method; a_uri a] in
  md5_hash [ha1; a_nonce a; ha2].

(** One character; [None] leaves the loop. *)
Definition hex_step (val c : Z) : option Z :=
  if decide (48 ≤ c ≤ 57) then Some (Z.lor (u32 (Z.shiftl val 4)) (c - 0))
  else if decide (65 ≤ c ≤ 70) then Some (Z.lor (u32 (Z.shiftl val 4)) (c - 65 + 10))
  else if decide (97 ≤ c ≤ 102) then Some (Z.lor (u32 (Z.shiftl val 4)) (c - 97 + 10))
  else None.

Fixpoint get_hex_u32_loop (n : nat) (hex : list Z) (val : Z) : Z :=
  match n, hex with
  | S n, c :: hex => match hex_step val c with Some val => get_hex_u32_loop n hex val | None => val end
  | _, _ => val
  end.
Definition get_hex_u32 (hex : list Z) : Z := get_hex_u32_loop 8 hex 0.

(** [msg->sl.req.method] and [msg->sl.req.uri]; a response has neither. *)
Definition req_method (m : pmsg) : res (list Z) :=
  match sl m with SlReq p _ => cstr (msg m) p | SlStat _ _ => Fault OutOfBounds end.
Definition req_uri (m : pmsg) : res (list Z) :=
  match sl m with SlReq _ p => cstr (msg m) p | SlStat _ _ => Fault OutOfBounds end.

(** [secret] is [None] until [create_digest_secret] ran. *)
Definition check_nonce (secret : option (list Z)) (now : Z) (nonce : list Z) : Z :=
  match secret with
  | None => 0
  | Some secret =>
      if decide (length nonce ≠ 64%nat) then 0 else
      let token := take 32 nonce in
      if decide (drop 32 nonce ≠ md5_hash [token; secret]) then 0 else
      if decide (u32 (get_hex_u32 token + 15) < u32 now) then 0 else 1
  end.

Definition check_digest_response (secret : option (list Z)) (now : Z) (m : pmsg) (realm username password : list Z) : res Z :=
  hdr ← get_header m $"authorization";
  match hdr with
  | None => Ok (-1)
  | Some hdr =>
      r ← parse_auth_header hdr no_auth;
      match r with
      | None => Ok (-1)
      | Some a =>
          if decide (a_realm a ≠ realm) then Ok (-1) else
          if bool_decide (0 < zlen username) && negb (strcaseeq (a_username a) username) then Ok (-1) else
          r ← (if decide (a_uri a = []) then
                 uri ← req_uri m;
                 Ok (if decide (512 ≤ zlen uri) then None
                     else Some (mkAuth (a_realm a) uri (a_nonce a) (a_opaque a) (a_username a) (a_response a)))
               else Ok (Some a));
          match r with
          | None => Ok (-1)
          | Some a =>
              method ← req_method m;
              let expected := create_response a method
                (if decide (0 < zlen username ∧ 0 < zlen password) then password else []) in
              if negb (strcaseeq (a_response a) expected) then Ok (-1)
              else Ok (check_nonce secret now (a_nonce a))
          end
      end
  end.

(** [rnd] are the random numbers of the nonce, [rs] the 8 of a secret not yet
    created; the result is the secret and the message. *)
Definition add_digest_challenge (secret : option (list Z)) (now : Z) (rnd rs : list Z) (m : pmsg) (realm : list Z)
    (stale : bool) : option (list Z) * pmsg :=
  let secret := default (random_id rs) secret in
  let nonce := create_nonce secret now rnd in
  let text := $"Digest realm=" ++ [34] ++ realm ++ [34] ++ $", nonce=" ++ [34] ++ nonce ++ [34]
    ++ (if stale then $", stale=true" else []) in
  (Some secret, fst (add_header_printf m $"WWW-Authenticate" text)).

(** ** Hash strings *)

Lemma colon_chunks_size v n : Forall (λ d, zlen d < n) v → 1 < n → Forall (λ d, zlen d < n) (colon_chunks v).
Proof.
  intros Hv Hn. induction Hv as [|x v Hx Hv IH]; [constructor|]. destruct v; simpl; repeat constructor; done.
Qed.

Definition hash_ok (v : list (list Z)) : Prop := Forall (λ d, zlen d < 4294967296) v.

(** What the stack held does not matter. *)
Lemma md5_hash_any stack v : length stack = 64%nat → hash_ok v → md5_hash_on stack v = md5_hash v.
Proof.
  intros Hs Hv. unfold md5_hash, md5_hash_on.
  assert (∀ st, length st = 64%nat → MD5Final (foldl MD5Update (MD5Init st) (colon_chunks v)) = Rfc.md5 (concat (colon_chunks v))) as E.
  { intros st Hst. apply MD5Final_absorbed, (updates_absorbed _ []); [by apply MD5Init_absorbed|]. by apply colon_chunks_size. }
  rewrite (E stack Hs), (E (replicate 64 0) eq_refl). reflexivity.
Qed.

Definition hex_char (c : Z) : Prop := 48 ≤ c ≤ 57 ∨ 97 ≤ c ≤ 102.

Lemma fmt_02x_hex b : 0 ≤ b < 256 → Forall hex_char (fmt_02x b).
Proof.
  intros Hb. assert (∀ n, 0 ≤ n < 16 → hex_char (hex_digit false n)) as H.
  { intros n Hn. unfold hex_digit, hex_char. case_decide; lia. }
  constructor; [apply H; Z.div_mod_to_equations; lia|]. constructor; [apply H; Z.div_mod_to_equations; lia|constructor].
Qed.

Lemma hex_text l : Forall is_byte l → Forall hex_char (concat (fmt_02x <$> l)) ∧ length (concat (fmt_02x <$> l)) = (2 * length l)%nat.
Proof.
  intros Hl. induction Hl as [|b l Hb _ [IH1 IH2]]; [by split|]. rewrite fmap_cons, concat_cons. split.
  - apply Forall_app_2; [by apply fmt_02x_hex|done].
  - rewrite length_app, IH2. simpl. lia.
Qed.

Lemma le32_bytes x : Forall is_byte (le32 x).
Proof. repeat constructor; apply Z.mod_pos_bound; lia. Qed.

Lemma md5_hash_hex v : Forall hex_char (md5_hash v) ∧ length (md5_hash v) = 32%nat.
Proof.
  unfold md5_hash, md5_hash_on. generalize (foldl MD5Update (MD5Init (replicate 64 0)) (colon_chunks v)). intros ctx.
  assert (Forall is_byte (MD5Final ctx) ∧ length (MD5Final ctx) = 16%nat) as [H1 H2].
  { unfold MD5Final. case_decide; destruct (MD5Transform _ _) as [[[a b] c] d];
      (split; [repeat apply Forall_app_2; apply le32_bytes|done]). }
  destruct (hex_text _ H1) as [H3 H4]. by rewrite H2 in H4.
Qed.

(** ** The time stamp of a nonce *)

Definition bits_in (b a : Z) : Prop := ∀ n, 0 ≤ n → Z.testbit b n = true → Z.testbit a n = true.

Lemma bits_in_le a b : 0 ≤ a → 0 ≤ b → bits_in b a → b ≤ a.
Proof.
  intros Ha Hb H. assert (Z.ldiff b a = 0) as E.
  { apply Z.bits_inj'. intros n Hn. rewrite Z.ldiff_spec, Z.bits_0. specialize (H n Hn).
    destruct (Z.testbit b n); [by rewrite H|done]. }
  pose proof (Z.sub_nocarry_ldiff a b E). assert (0 ≤ Z.ldiff a b) by (apply Z.ldiff_nonneg; by left). lia.
Qed.

Definition nibble (n : Z) : Prop := 0 ≤ n < 16.
Definition hex_acc (p n : Z) : Z := Z.lor (Z.shiftl p 4) n.
(** What the code's [hex[i] - 0] adds to the digits below ten. *)
Definition hex_noise (n : Z) : Z := if decide (n < 10) then 48 else 0.

Lemma hex_acc_eq p n : nibble n → hex_acc p n = p * 16 + n.
Proof. intros Hn. unfold hex_acc, nibble in *. by rewrite lor_shiftl_add by (change (2 ^ 4) with 16; lia). Qed.

Lemma hex_step_digit val n :
  nibble n → hex_step val (hex_digit false n) = Some (Z.lor (u32 (Z.shiftl val 4)) (Z.lor (hex_noise n) n)).
Proof.
  unfold nibble, hex_step, hex_digit, hex_noise. intros Hn. destruct (decide (n < 10)).
  - rewrite decide_True by lia. do 2 f_equal. change 48 with (Z.shiftl 3 4). rewrite lor_shiftl_add by (change (2 ^ 4) with 16; lia).
    change (Z.shiftl 3 4) with 48. lia.
  - rewrite !decide_False, decide_True by lia. do 2 f_equal. rewrite Z.lor_0_l. lia.
Qed.

(** The value read contains the true one, and besides it only the noise. *)
Record stamp_of (val p M : Z) : Prop := {
  st_range : 0 ≤ val < 4294967296;
  st_low : bits_in p val;
  st_high : bits_in val (Z.lor p M) }.

Lemma stamp_step val p M n :
  stamp_of val p M → nibble n → 0 ≤ p → hex_acc p n < 4294967296 →
  stamp_of (Z.lor (u32 (Z.shiftl val 4)) (Z.lor (hex_noise n) n)) (hex_acc p n) (Z.lor (Z.shiftl M 4) 48).
Proof.
  intros [Hr Hl Hh] Hn Hp Hlt. unfold nibble in *.
  assert (0 ≤ hex_noise n < 4294967296 ∧ bits_in (hex_noise n) 48) as [Hz Hz'].
  { unfold hex_noise. case_decide; (split; [lia|intros k Hk; by rewrite ?Z.bits_0]). }
  assert (0 ≤ hex_acc p n) by (unfold hex_acc; apply Z.lor_nonneg; split; [apply Z.shiftl_nonneg|]; lia).
  split.
  - assert (Z.lor (u32 (Z.shiftl val 4)) (Z.lor (hex_noise n) n) = u32 (Z.lor (Z.shiftl val 4) (Z.lor (hex_noise n) n))) as ->;
      [|apply u32_ok].
    apply Z.bits_inj'. intros k Hk. rewrite u32_testbit, !Z.lor_spec, u32_testbit by lia.
    case_bool_decide; [done|]. rewrite (word_testbit (hex_noise n)), (word_testbit n) by (unfold word_ok; lia). done.
  - intros k Hk. rewrite <- (Z.mod_small (hex_acc p n) 4294967296) by lia. fold (u32 (hex_acc p n)).
    unfold hex_acc. rewrite !Z.lor_spec, !u32_testbit, Z.lor_spec by lia.
    destruct (bool_decide (k < 32)); [|done]. simpl.
    destruct (decide (k < 4)); [rewrite !Z.shiftl_spec_low by lia|rewrite !Z.shiftl_spec by lia]; simpl; [intros ->; by rewrite !orb_true_r|].
    specialize (Hl (k - 4)). intros [H1|H1]%orb_true_iff; [by rewrite Hl by (done || lia)|rewrite H1; by rewrite !orb_true_r].
  - intros k Hk. unfold hex_acc. rewrite !Z.lor_spec, u32_testbit by lia. specialize (Hz' k Hk).
    destruct (decide (k < 4)); [rewrite !Z.shiftl_spec_low by lia|rewrite !Z.shiftl_spec by lia].
    + revert Hz'. destruct (Z.testbit (hex_noise n) k), (Z.testbit n k), (Z.testbit 48 k), (bool_decide (k < 32)); simpl; auto.
    + specialize (Hh (k - 4) ltac:(lia)). rewrite Z.lor_spec in Hh. revert Hz' Hh.
      destruct (Z.testbit (hex_noise n) k), (Z.testbit n k), (Z.testbit 48 k), (bool_decide (k < 32)), (Z.testbit val (k - 4)),
        (Z.testbit p (k - 4)), (Z.testbit M (k - 4)); simpl; auto.
Qed.

Lemma hex_loop ns rest val p M :
  Forall nibble ns → stamp_of val p M → 0 ≤ p → (p + 1) * 16 ^ zlen ns ≤ 4294967296 →
  stamp_of (get_hex_u32_loop (length ns) ((hex_digit false <$> ns) ++ rest) val) (foldl hex_acc p ns)
    (foldl (λ M _, Z.lor (Z.shiftl M 4) 48) M ns).
Proof.
  intros Hns. revert val p M. induction Hns as [|n ns Hn _ IH]; intros val p M Hst Hp Hlt; [done|].
  rewrite zlen_cons, Z.pow_add_r, Z.pow_1_r in Hlt by (try apply zlen_nonneg; lia).
  assert (0 < 16 ^ zlen ns) by (apply Z.pow_pos_nonneg; [lia|apply zlen_nonneg]). pose proof Hn as Hn'. unfold nibble in Hn'.
  cbn [length fmap list_fmap app get_hex_u32_loop foldl]. rewrite hex_step_digit by done.
  apply IH; [|rewrite hex_acc_eq by done; lia|rewrite hex_acc_eq by done; nia].
  apply stamp_step; [done|done|done|]. rewrite hex_acc_eq by done. nia.
Qed.

(** The first half of a nonce made at time [t]. *)
Definition token (t : Z) (rnd : list Z) : list Z := concat (fmt_02x <$> PUT_32 t ++ random_bytes rnd).

Definition nibbles (t : Z) : list Z := concat ((λ b, [b `div` 16; b `mod` 16]) <$> PUT_32 t).

Lemma stamp_token t rnd : 0 ≤ t < 4294967296 → stamp_of (get_hex_u32 (token t rnd)) t 13743895344.
Proof.
  intros Ht. unfold token. rewrite fmap_app, concat_app.
  replace (concat (fmt_02x <$> PUT_32 t)) with (hex_digit false <$> nibbles t) by (unfold nibbles; rewrite PUT_32_eq; done).
  assert (foldl hex_acc 0 (nibbles t) = t ∧ Forall nibble (nibbles t) ∧ length (nibbles t) = 8%nat) as (E & Hn & Hl).
  { unfold nibbles. rewrite PUT_32_eq. simpl.
    assert (∀ b, is_byte b → nibble (b `div` 16) ∧ nibble (b `mod` 16) ∧ b = b `div` 16 * 16 + b `mod` 16) as Hb.
    { intros b Hb. unfold is_byte, nibble in *. Z.div_mod_to_equations; lia. }
    destruct (Hb ((t `div` 16777216) `mod` 256)) as (? & ? & ?); [apply u8_range|].
    destruct (Hb ((t `div` 65536) `mod` 256)) as (? & ? & ?); [apply u8_range|].
    destruct (Hb ((t `div` 256) `mod` 256)) as (? & ? & ?); [apply u8_range|].
    destruct (Hb (t `mod` 256)) as (? & ? & ?); [apply u8_range|].
    split; [|split; [repeat (apply Forall_cons_2; [done|]); apply Forall_nil_2|done]]. rewrite !hex_acc_eq by done.
    clear Hb. assert (t = (t `div` 16777216) `mod` 256 * 16777216 + (t `div` 65536) `mod` 256 * 65536 + (t `div` 256) `mod` 256 * 256 + t `mod` 256)
      by (Z.div_mod_to_equations; lia). lia. }
  pose proof (hex_loop (nibbles t) (concat (fmt_02x <$> random_bytes rnd)) 0 0 0 Hn) as H. rewrite E in H. unfold get_hex_u32.
  rewrite <- Hl at 1. replace 13743895344 with (foldl (λ M _, Z.lor (Z.shiftl M 4) 48) 0 (nibbles t)).
  - apply H; [|lia|unfold zlen; rewrite Hl; by vm_compute].
    split; [lia|intros k _; by rewrite Z.bits_0|intros k _; by rewrite Z.bits_0].
  - destruct (nibbles t) as [|? [|? [|? [|? [|? [|? [|? [|? [|]]]]]]]]]; try done.
Qed.

(** The stamp is never earlier than the true time and keeps to 31 bits. *)
Lemma stamp_bounds t rnd : 0 ≤ t < 2147483648 → t ≤ get_hex_u32 (token t rnd) < 2147483648.
Proof.
  intros Ht. destruct (stamp_token t rnd) as [Hr Hl Hh]; [lia|]. split; [apply bits_in_le; (lia || done)|].
  set (v := get_hex_u32 _) in *. destruct (decide (v < 2147483648)); [done|].
  assert (Z.testbit v 31 = true) as H31.
  { apply Z.testbit_true; [lia|]. change (2 ^ 31) with 2147483648. Z.div_mod_to_equations; lia. }
  specialize (Hh 31 ltac:(lia) H31). rewrite Z.lor_spec in Hh. change (Z.testbit 13743895344 31) with false in Hh. rewrite orb_false_r in Hh.
  apply Z.testbit_true in Hh; [|lia]. change (2 ^ 31) with 2147483648 in Hh. rewrite Z.div_small in Hh by lia. done.
Qed.

(** ** The answer of a client *)

Definition quoted (s : list Z) : list Z := [34] ++ s ++ [34].
Definition no_quote (s : list Z) : Prop := Forall (λ c, c ≠ 34) s.

Lemma strchr_app l c r : Forall (λ x, x ≠ c) l → strchr (l ++ c :: r) c = Some (c :: r).
Proof. intros Hl. induction Hl as [|x l Hx _ IH]; simpl; [by rewrite decide_True|by rewrite decide_False]. Qed.

Lemma skip_seps_stop l x r :
  Forall (λ c, c = 34 ∨ c = 44 ∨ c = 32) l → x ≠ 34 → x ≠ 44 → x ≠ 32 → skip_seps (l ++ x :: r) = x :: r.
Proof.
  intros Hl H1 H2 H3. unfold skip_seps.
  assert (span_len (λ c, (c =? 34) || (c =? 44) || (c =? 32)) (l ++ x :: r) = zlen l) as ->.
  { induction Hl as [|c l Hc _ IH]; simpl.
    - by rewrite !(proj2 (Z.eqb_neq x _)) by done.
    - rewrite IH, zlen_cons. destruct Hc as [->|[->| ->]]; simpl; lia. }
  rewrite to_nat_zlen. by rewrite drop_app_length.
Qed.

Lemma skip_next tag r :
  match tag with x :: _ => x ≠ 34 ∧ x ≠ 44 ∧ x ≠ 32 | [] => False end → skip_seps ([34] ++ $", " ++ tag ++ r) = tag ++ r.
Proof.
  destruct tag as [|x tag]; [done|]. intros (H1 & H2 & H3).
  apply (skip_seps_stop [34; 44; 32] x (tag ++ r)); [|done|done|done].
  repeat (apply Forall_cons_2; [lia|]). apply Forall_nil_2.
Qed.

(** One quoted directive. *)
Lemma quoted_directive fuel tag val rest a :
  tag ≠ [] → Forall (λ c, c ≠ 61) tag → no_quote val →
  auth_directives (S fuel) (tag ++ [61] ++ quoted val ++ rest) a =
  match auth_directive a (tag ++ [61] ++ quoted val ++ rest) (val ++ [34] ++ rest) (length val) with
  | None => Ok None
  | Some a => auth_directives fuel (skip_seps ([34] ++ rest)) a
  end.
Proof.
  intros Ht He Hq. cbn [auth_directives]. destruct tag as [|x tag]; [done|]. cbn [app].
  change (x :: tag ++ 61 :: quoted val ++ rest) with ((x :: tag) ++ 61 :: quoted val ++ rest). rewrite strchr_app by done.
  unfold quoted at 1. cbn [app auth_value]. rewrite decide_True by done. rewrite <- app_assoc. cbn [app].
  rewrite strchr_app by done. rewrite length_app. cbn [length].
  replace (length val + S (length rest) - S (length rest))%nat with (length val) by lia. by rewrite drop_app_length.
Qed.

Definition digest_header (username realm nonce uri response : list Z) : list Z :=
  $"Digest " ++ $"username" ++ [61] ++ quoted username ++ $", " ++ $"realm" ++ [61] ++ quoted realm ++ $", "
  ++ $"nonce" ++ [61] ++ quoted nonce ++ $", " ++ $"uri" ++ [61] ++ quoted uri ++ $", "
  ++ $"response" ++ [61] ++ quoted response ++ [].

Ltac next_directive :=
  rewrite quoted_directive by (done || (repeat (apply Forall_cons_2; [done|]); apply Forall_nil_2));
  unfold auth_directive;
  repeat match goal with |- context [strcaseprefix (?t ++ [61] ++ ?r) ?s] =>
    first [change (strcaseprefix (t ++ [61] ++ r) s) with true | change (strcaseprefix (t ++ [61] ++ r) s) with false] end;
  cbv match; rewrite decide_False by lia; rewrite take_app_length; cbn [a_realm a_uri a_nonce a_opaque a_username a_response].

Lemma parse_digest_header username realm nonce uri response :
  no_quote username → no_quote realm → no_quote nonce → no_quote uri → no_quote response →
  zlen username < 128 → zlen realm < 128 → zlen nonce < 128 → zlen uri < 512 → zlen response < 33 →
  parse_auth_header (digest_header username realm nonce uri response) no_auth =
  Ok (Some (mkAuth realm uri nonce [] username response)).
Proof.
  intros ? ? ? ? ? H1 H2 H3 H4 H5. unfold zlen in *. unfold parse_auth_header.
  change (strcaseprefix (digest_header username realm nonce uri response) $"digest ") with true. cbv match.
  set (n := length _). assert (6 ≤ n)%nat as Hn by (unfold n, digest_header; simpl; lia). clearbody n.
  do 6 (destruct n as [|n]; [lia|]). clear Hn.
  unfold digest_header. match goal with |- context [drop 7 ($"Digest " ++ ?x)] => change (drop 7 ($"Digest " ++ x)) with x end.
  do 4 (next_directive; rewrite skip_next by done).
  next_directive. done.
Qed.

Lemma hex_no_quote l : Forall hex_char l → no_quote l.
Proof. intros H. apply (Forall_impl _ _ _ H). unfold hex_char. intros; lia. Qed.

Lemma random_bytes_ok rnd : Forall is_byte (random_bytes rnd).
Proof. unfold random_bytes. apply Forall_fmap, Forall_true. intros x. unfold compose. rewrite land_ff. apply u8_range. Qed.

Lemma token_hex t rnd :
  Forall hex_char (token t rnd) ∧ length (token t rnd) = (8 + 2 * length rnd)%nat.
Proof.
  destruct (hex_text (PUT_32 t ++ random_bytes rnd)) as [H1 H2].
  - apply Forall_app_2; [apply PUT_32_bytes|apply random_bytes_ok].
  - split; [done|]. unfold token. rewrite H2, length_app. unfold random_bytes. rewrite length_fmap. simpl. lia.
Qed.

Lemma create_nonce_hex secret t rnd :
  length rnd = 12%nat → Forall hex_char (create_nonce secret t rnd) ∧ length (create_nonce secret t rnd) = 64%nat.
Proof.
  intros Hr. unfold create_nonce. fold (token t rnd). destruct (token_hex t rnd) as [H1 H2].
  destruct (md5_hash_hex [token t rnd; secret]) as [H3 H4]. split; [by apply Forall_app_2|].
  rewrite length_app, H2, H4, Hr. done.
Qed.

(** The server's own nonce is good until its stamp says otherwise. *)
Lemma check_own_nonce secret t rnd now :
  length rnd = 12%nat → 0 ≤ t < 2147483648 → 0 ≤ now < 4294967296 →
  check_nonce (Some secret) now (create_nonce secret t rnd) =
  if decide (now ≤ get_hex_u32 (token t rnd) + 15) then 1 else 0.
Proof.
  intros Hr Ht Hn. destruct (create_nonce_hex secret t rnd Hr) as [_ Hl]. unfold check_nonce.
  rewrite decide_False by (intros H; by apply H).
  destruct (token_hex t rnd) as [_ Hk]. rewrite Hr in Hk.
  assert (take 32 (create_nonce secret t rnd) = token t rnd) as ->.
  { unfold create_nonce. fold (token t rnd). by apply take_app_length'. }
  assert (drop 32 (create_nonce secret t rnd) = md5_hash [token t rnd; secret]) as ->.
  { unfold create_nonce. fold (token t rnd). by apply drop_app_length'. }
  rewrite decide_False by (intros H; by apply H).
  pose proof (stamp_bounds t rnd Ht). rewrite !u32_small by lia.
  destruct (decide (_ ≤ _)); [by rewrite decide_False by lia|by rewrite decide_True by lia].
Qed.

#[local] Opaque md5_hash.

(** What a client that knows the password answers. *)
Definition client_response (username realm password nonce method uri : list Z) : list Z :=
  md5_hash [md5_hash [username; realm; password]; nonce; md5_hash [method; uri]].

Lemma strcaseeq_refl s : strcaseeq s s = true.
Proof. by apply bool_decide_eq_true_2. Qed.

Lemma check_answer secret now m username realm password method uri nonce resp :
  no_quote username → no_quote realm → no_quote uri → no_quote nonce → no_quote resp →
  0 < zlen username < 128 → zlen realm < 128 → 0 < zlen uri < 512 → 0 < zlen password → zlen nonce < 128 → zlen resp < 33 →
  req_method m = Ok method → client_response username realm password nonce method uri = resp →
  get_header m $"authorization" = Ok (Some (digest_header username realm nonce uri resp)) →
  check_digest_response secret now m realm username password = Ok (check_nonce secret now nonce).
Proof.
  intros Hu Hre Huri Hn Hrs Hul Hrl Hurl Hpl Hnl Hrsl Hm Hresp Hh.
  unfold check_digest_response. rewrite Hh, res_bind_ok, parse_digest_header, res_bind_ok by (assumption || lia).
  cbn [a_realm a_uri a_nonce a_opaque a_username a_response].
  rewrite decide_False by (intros H; by apply H).
  rewrite bool_decide_eq_true_2, strcaseeq_refl by lia. simpl andb. cbv match.
  rewrite (decide_False (P := uri = [])) by (intros ->; unfold zlen in Hurl; simpl in Hurl; lia).
  rewrite res_bind_ok, Hm, res_bind_ok.
  rewrite (decide_True (P := 0 < zlen username ∧ 0 < zlen password)) by lia. unfold create_response. cbn [a_realm a_uri a_nonce a_opaque a_username a_response].
  unfold client_response in Hresp. rewrite Hresp, strcaseeq_refl. reflexivity.
Qed.

(** C24. A client that knows the password and answers the server's challenge, made
    at time [t], is let in exactly up to 15 seconds after the time the server
    reads back from its nonce, and asked to retry with a fresh nonce after that;
    the time it reads is never before [t], so every answer within the 15 seconds
    is accepted. *)
Theorem digest_answer_accepted secret t rnd now m username realm password method uri :
  length rnd = 12%nat → 0 ≤ t < 2147483648 → 0 ≤ now < 4294967296 →
  no_quote username → no_quote realm → no_quote uri →
  0 < zlen username < 128 → zlen realm < 128 → 0 < zlen uri < 512 → 0 < zlen password →
  req_method m = Ok method →
  let nonce := create_nonce secret t rnd in
  get_header m $"authorization" = Ok (Some (digest_header username realm nonce uri
    (client_response username realm password nonce method uri))) →
  check_digest_response (Some secret) now m realm username password =
    Ok (if decide (now ≤ get_hex_u32 (token t rnd) + 15) then 1 else 0) ∧
  t ≤ get_hex_u32 (token t rnd).
Proof.
  intros Hr Ht Hnow Hu Hre Huri Hul Hrl Hurl Hpl Hm nonce Hh. split; [|by apply stamp_bounds].
  pose proof (check_own_nonce secret t rnd now Hr Ht Hnow) as <-. fold nonce.
  destruct (create_nonce_hex secret t rnd Hr) as [N1%hex_no_quote N2]. fold nonce in N1, N2. clearbody nonce.
  destruct (md5_hash_hex [md5_hash [username; realm; password]; nonce; md5_hash [method; uri]]) as [R1%hex_no_quote R2].
  apply (check_answer _ _ _ _ _ _ method uri nonce _ Hu Hre Huri N1 R1); try assumption; try reflexivity;
    unfold zlen; rewrite ?N2, ?R2; lia.
Qed.

(** A nonce made on 6 November 2017 is still good 233 days later: the digits below
    ten of its stamp are read with the offset of their character. *)
Lemma nonce_outlives : get_hex_u32 (token 0x5A000000 (replicate 12 0)) = 0x5B333330.
Proof. vm_compute. reflexivity. Qed.

Definition demo_request : pmsg :=
  let nonce := create_nonce $"0123456789ABCDEF" 0x5A000000 (replicate 12 0) in
  let text := $"SETUP" ++ [0] ++ $"rtsp://h/cam" ++ [0] ++ $"Authorization" ++ [0]
    ++ digest_header $"user" $"cam" nonce $"rtsp://h/cam" (client_response $"user" $"cam" $"pw" nonce $"SETUP" $"rtsp://h/cam") ++ [0] in
  mkPmsg text (zlen text) 0 (SlReq 0 6) [(19, 33)].

Lemma digest_answer_accepted_witness :
  check_digest_response (Some $"0123456789ABCDEF") (0x5A000000 + 86400) demo_request $"cam" $"user" $"pw" = Ok 1.
Proof.
  destruct (digest_answer_accepted $"0123456789ABCDEF" 0x5A000000 (replicate 12 0) (0x5A000000 + 86400) demo_request
    $"user" $"cam" $"pw" $"SETUP" $"rtsp://h/cam") as [H _].
  1-11: (repeat constructor; discriminate) || (vm_compute; repeat split; congruence).
  - vm_compute. reflexivity.
  - rewrite H. vm_compute. reflexivity.
Defined.
