(* ===== verification/Live.v ===== *)
(** * Live: streams, live sources and their sessions

    Models stream.c ([set_waiting], [new_dest], [connect_to_stream],
    [deliver_frame_to_stream]), session.c and live.c of
    src/sources/applications/RTSPServer/src: who listens to a stream, and the
    life of a session from [live_open] to [live_teardown]. Pointers to sessions
    are session numbers; a pointer to an endpoint is its session's number and
    its track. *)

From stdpp Require Import prelude gmap strings.
From S2P Require Import Prelude.

Local Open Scope c_scope.

Definition MAX_TRACKS : nat := 2.

(** ** Streams and their listeners *)

Module Stream.

(** A destination is its [waiting] flag; [running] is the argument of the last
    call of [set_running], [calls] their number. *)
Record stream := mkStream {
  name : list Z;
  format : Z;
  dest_list : list bool;
  running : bool;
  calls : nat }.

Definition with_dests (s : stream) (l : list bool) : stream := mkStream (name s) (format s) l (running s) (calls s).
Definition set_running (s : stream) (w : bool) : stream := mkStream (name s) (format s) (dest_list s) w (S (calls s)).

(** [i] is the destination, counted from the oldest. *)
Definition set_waiting (s : stream) (i : nat) (waiting : bool) : res stream :=
  match dest_list s !! i with
  | None => Fault NullDeref
  | Some true =>
      if waiting then Ok s else
      let s := with_dests s (<[i := false]> (dest_list s)) in
      let waiting := foldl orb false (dest_list s) in
      if waiting then Ok s else Ok (set_running s waiting)
  | Some false =>
      if waiting then Ok (set_running (with_dests s (<[i := true]> (dest_list s))) true) else Ok s
  end.

Definition new_dest (s : stream) : stream * nat :=
  (with_dests s (dest_list s ++ [false]), length (dest_list s)).

Definition new_stream (nm : list Z) (fmt : Z) : stream := mkStream nm fmt [] false 0.

Definition format_match (fmt : Z) (formats : list Z) : bool :=
  match formats with [] => true | _ => existsb (λ f, fmt =? f) formats end.

(** The first stream of the name in an acceptable format. The conversion that
    [connect_to_stream] then tries, from UYVY to RGB24, is for video sources this
    build does not have. *)
Fixpoint connect_to_stream (l : list stream) (nm : list Z) (formats : list Z) (i : nat) : option (nat * nat * stream) :=
  match l with
  | [] => None
  | s :: l =>
      if bool_decide (name s = nm) && format_match (format s) formats then
        let '(s, d) := new_dest s in Some (i, d, s)
      else connect_to_stream l nm formats (S i)
  end.

(** The references [deliver_frame_to_stream] takes: one per waiting destination,
    which that destination releases, and the caller's own, which it drops. *)
Definition deliver_frame_to_stream (s : stream) : list nat :=
  (λ x : nat * bool, x.1) <$> filter (λ x, x.2 = true) (imap pair (dest_list s)).

(** The source runs exactly while somebody listens. *)
Definition stream_ok (s : stream) : Prop := running s = true ↔ true ∈ dest_list s.

Lemma foldl_orb l b : foldl orb b l = true ↔ b = true ∨ true ∈ l.
Proof.
  revert b. induction l as [|x l IH]; intros b; simpl; [set_solver|]. rewrite IH, elem_of_cons.
  destruct b, x; simpl; naive_solver.
Qed.

Lemma elem_insert_true l i : (i < length l)%nat → true ∈ <[i := true]> l.
Proof. intros Hi. apply list_elem_of_lookup_2 with i. by apply list_lookup_insert_eq. Qed.

Lemma insert_same (l : list bool) i x : l !! i = Some x → <[i := x]> l = l.
Proof. apply list_insert_id. Qed.

(** A stream runs exactly while somebody listens: [set_waiting] on any
    destination sets that flag and no other, keeps the source running if and
    only if some destination waits, and calls [set_running] exactly when a
    destination starts to listen or the last one stops; a frame goes to the
    waiting destinations. *)
Lemma stream_runs_while_listened s i w :
  stream_ok s → (i < length (dest_list s))%nat →
  ∃ s', set_waiting s i w = Ok s' ∧ stream_ok s' ∧ dest_list s' = <[i := w]> (dest_list s) ∧
    calls s' = (if bool_decide (dest_list s !! i = Some w) then calls s
                else if w || negb (running s') then S (calls s) else calls s) ∧
    ∀ k, k ∈ deliver_frame_to_stream s' ↔ dest_list s' !! k = Some true.
Proof.
  intros Hs Hi. destruct (lookup_lt_is_Some_2 _ _ Hi) as [b Hb].
  assert (∀ s k, k ∈ deliver_frame_to_stream s ↔ dest_list s !! k = Some true) as HD.
  { clear. intros s k. unfold deliver_frame_to_stream. rewrite list_elem_of_fmap. split.
    - intros ([j x] & -> & [Hx Hj]%list_elem_of_filter). simpl in *. subst x.
      apply list_elem_of_lookup_1 in Hj as [n Hn]. rewrite list_lookup_imap in Hn.
      destruct (dest_list s !! n) eqn:E; simplify_eq/=. done.
    - intros Hk. exists (k, true). split; [done|]. apply list_elem_of_filter. split; [done|].
      apply list_elem_of_lookup_2 with k. by rewrite list_lookup_imap, Hk. }
  unfold set_waiting. rewrite Hb. destruct b, w.
  - exists s. rewrite insert_same by done. split; [done|]. split; [done|]. split; [done|]. split; [|apply HD].
    by rewrite bool_decide_eq_true_2.
  - set (s1 := with_dests s (<[i:=false]> (dest_list s))).
    rewrite (bool_decide_eq_false_2 (Some true = Some false)) by congruence.
    destruct (foldl orb false (dest_list s1)) eqn:E.
    + exists s1. apply foldl_orb in E as [?|E]; [done|]. split; [done|]. split; [|split; [done|split; [|apply HD]]].
      * split; [done|]. intros _. apply Hs. by apply list_elem_of_lookup_2 with i.
      * change (running s1) with (running s). assert (running s = true) as ->; [|done].
        apply Hs. by apply list_elem_of_lookup_2 with i.
    + exists (set_running s1 false). split; [done|]. split; [|split; [done|split; [done|apply HD]]].
      split; [done|]. intros Ht. assert (foldl orb false (dest_list s1) = true); [|congruence].
      apply foldl_orb. by right.
  - rewrite (bool_decide_eq_false_2 (Some false = Some true)) by congruence.
    eexists. split; [done|]. split; [|split; [done|split; [done|apply HD]]].
    split; [|done]. intros _. by apply elem_insert_true.
  - exists s. rewrite insert_same by done. split; [done|]. split; [done|]. split; [done|]. split; [|apply HD].
    by rewrite bool_decide_eq_true_2.
Qed.

Lemma stream_runs_while_listened_witness :
  ∃ s', set_waiting (mkStream [] 1 [true; false] true 1) 0 false = Ok s' ∧ running s' = false ∧ stream_ok s'.
Proof.
  destruct (stream_runs_while_listened (mkStream [] 1 [true; false] true 1) 0 false) as (s' & H1 & H2 & _).
  - split; [intros _; simpl; apply elem_of_cons; left; reflexivity|reflexivity].
  - simpl. lia.
  - exists s'. split; [exact H1|]. split; [vm_compute in H1; injection H1 as <-; reflexivity|exact H2].
Defined.

End Stream.

(** ** Live sources *)

Inductive ep_trans :=
| TransNone
| TransUdp (sdp_addr : list Z) (sdp_port : Z)
| TransInter (conn : nat) (rtp_chan rtcp_chan : nat).

#[global] Instance ep_trans_eq_dec : EqDecision ep_trans.
Proof. solve_decision. Defined.

Record endpoint := mkEndpoint { e_payload : Z; e_max_data_size : Z; e_trans : ep_trans }.

(** A live session with its [struct session]; [ls_ctl] is [control_private], the
    RTSP session that controls it. *)
Record live_session := mkLs {
  ls_id : nat;
  ls_ep : list (option endpoint);
  ls_playing : bool;
  ls_ctl : option nat }.

(** A packetizer, as the live source uses it: the payload type it sends for a
    dynamic one (the same when [get_payload] is null) and its part of the SDP for
    a payload type and a port. *)
Record rtp_media := mkMedia { get_payload : Z → Z; get_sdp : Z → Z → list Z }.

Record live_track := mkTrack { rtp : option rtp_media; ready : bool; waiting : bool }.

Record live_source := mkSource {
  sess_list : list live_session;
  track : list live_track;
  i32MaxRTPTransSize : Z;
  u32MaxConnNum : Z;
  u32CurConn : Z;
  next_session : nat }.

Definition with_sess (s : live_source) (l : list live_session) : live_source :=
  mkSource l (track s) (i32MaxRTPTransSize s) (u32MaxConnNum s) (u32CurConn s) (next_session s).
Definition with_track (s : live_source) (l : list live_track) : live_source :=
  mkSource (sess_list s) l (i32MaxRTPTransSize s) (u32MaxConnNum s) (u32CurConn s) (next_session s).
Definition with_conn (s : live_source) (n : Z) : live_source :=
  mkSource (sess_list s) (track s) (i32MaxRTPTransSize s) (u32MaxConnNum s) n (next_session s).

(** [start_block]. *)
Definition start_block : live_source :=
  mkSource [] (replicate MAX_TRACKS (mkTrack None false false)) 1400 4294967295 0 0.

Definition set_mtu (s : live_source) (n : Z) : live_source :=
  mkSource (sess_list s) (track s) n (u32MaxConnNum s) (u32CurConn s) (next_session s).
Definition set_conn (s : live_source) (n : Z) : live_source :=
  mkSource (sess_list s) (track s) (i32MaxRTPTransSize s) (u32 n) (u32CurConn s) (next_session s).

(** [set_track] with the packetizer of the stream's format, [None] when this
    build has none for it. *)
Definition set_track (s : live_source) (media : option rtp_media) : option live_source :=
  match list_find (λ t, rtp t = None) (track s), media with
  | Some (i, _), Some md => Some (with_track s (<[i := mkTrack (Some md) false true]> (track s)))
  | _, _ => None
  end.

Definition end_block (s : live_source) : Z :=
  match track s with mkTrack (Some _) _ _ :: _ => 0 | _ => -1 end.

Definition find_sess (s : live_source) (sid : nat) : option live_session :=
  snd <$> list_find (λ ls, ls_id ls = sid) (sess_list s).

Definition update_sess (s : live_source) (sid : nat) (f : live_session → live_session) : live_source :=
  with_sess s ((λ ls, if decide (ls_id ls = sid) then f ls else ls) <$> sess_list s).

Definition set_ep (t : nat) (e : option endpoint) (ls : live_session) : live_session :=
  mkLs (ls_id ls) (<[t := e]> (ls_ep ls)) (ls_playing ls) (ls_ctl ls).
Definition set_playing (ls : live_session) : live_session := mkLs (ls_id ls) (ls_ep ls) true (ls_ctl ls).
Definition set_ctl (c : option nat) (ls : live_session) : live_session :=
  mkLs (ls_id ls) (ls_ep ls) (ls_playing ls) c.

Definition ep_of (ls : live_session) (t : nat) : option endpoint := mjoin (ls_ep ls !! t).
Definition has_rtp (s : live_source) (t : nat) : bool :=
  match track s !! t with Some (mkTrack (Some _) _ _) => true | _ => false end.

(** [live_open]: [None] for a null pointer. *)
Definition live_open (s : live_source) : option (live_source * nat) :=
  if decide (u32MaxConnNum s ≤ u32CurConn s) then None
  else
    let ls := mkLs (next_session s) (replicate MAX_TRACKS None) false None in
    Some (mkSource (ls :: sess_list s) (track s) (i32MaxRTPTransSize s) (u32MaxConnNum s) (u32CurConn s)
            (S (next_session s)), next_session s).

(** [live_setup]: [None] for -1. *)
Definition live_setup (s : live_source) (sid t : nat) : option live_source :=
  match track s !! t with
  | Some (mkTrack (Some md) _ _) =>
      Some (update_sess s sid (set_ep t (Some (mkEndpoint (get_payload md (96 + Z.of_nat t)) (i32MaxRTPTransSize s) TransNone))))
  | _ => None
  end.

(** [live_get_sdp]: the number of tracks, 0 when the description is not
    available yet, and the text; [len] is the room of the buffer, which a text
    of that length or more overruns. *)
Definition sdp_port (ls : live_session) (t : nat) : Z :=
  match ep_of ls t with Some (mkEndpoint _ _ (TransUdp _ port)) => port | _ => 0 end.
Definition sdp_track (ls : live_session) (t : nat) (md : rtp_media) : list Z :=
  get_sdp md (96 + Z.of_nat t) (sdp_port ls t)
  ++ (if decide (sdp_port ls t = 0) then $"a=control:track" ++ fmt_d (Z.of_nat t) ++ crlf else []).

Fixpoint sdp_tracks (l : list live_track) (ls : live_session) (t : nat) : option (Z * list Z) :=
  match l with
  | mkTrack (Some md) rd _ :: l =>
      if rd then
        match sdp_tracks l ls (S t) with
        | Some (n, text) => Some (n, sdp_track ls t md ++ text)
        | None => None
        end
      else None
  | _ => Some (Z.of_nat t, [])
  end.

Definition live_get_sdp (s : live_source) (ls : live_session) (len : Z) : res (Z * list Z) :=
  match track s with
  | mkTrack (Some _) true _ :: _ =>
      let addr := match ep_of ls 0 with Some (mkEndpoint _ _ (TransUdp a _)) => a | _ => $"IP4 0.0.0.0" end in
      match sdp_tracks (take MAX_TRACKS (track s)) ls 0 with
      | None => Ok (0, [])
      | Some (n, text) =>
          let text := $"v=0" ++ crlf ++ $"o=- 1 1 IN IP4 127.0.0.1" ++ crlf ++ $"s=Test" ++ crlf ++ $"a=type:broadcast" ++ crlf
            ++ $"t=0 0" ++ crlf ++ $"c=IN " ++ addr ++ crlf ++ text in
          if decide (len ≤ zlen text) then Fault OutOfBounds else Ok (n, text)
      end
  | _ => Ok (0, [])
  end.

Definition set_track_waiting (w : bool) (tr : live_track) : live_track := mkTrack (rtp tr) (ready tr) w.

(** The tracks before the first one without a packetizer. *)
Fixpoint count_rtp (l : list live_track) : nat :=
  match l with
  | mkTrack (Some _) _ _ :: l => S (count_rtp l)
  | _ => 0
  end.
Definition active_tracks (s : live_source) : list nat := seq 0 (count_rtp (track s) `min` MAX_TRACKS).

Definition live_play (s : live_source) (sid : nat) : live_source :=
  match find_sess s sid with
  | None => s
  | Some ls =>
      let s := with_conn (update_sess s sid set_playing) (u32 (u32CurConn s + 1)) in
      foldl (λ s t, match ep_of ls t with
                    | Some _ => with_track s (alter (set_track_waiting true) t (track s))
                    | None => s end) s (active_tracks s)
  end.

Definition playing_track (s : live_source) (t : nat) : bool :=
  existsb (λ ls, ls_playing ls && bool_decide (is_Some (ep_of ls t))) (sess_list s).

Definition track_check_running (s : live_source) (t : nat) : live_source :=
  if playing_track s t then s else with_track s (alter (set_track_waiting false) t (track s)).

(** One track of the loop of [live_teardown]: the source, the endpoints deleted
    so far and [remaining]. *)
Definition teardown_track (sid : nat) (ep : option nat) (acc : live_source * list endpoint * nat) (i : nat)
  : live_source * list endpoint * nat :=
  let '(s, dead, remaining) := acc in
  match find_sess s sid ≫= λ ls, ep_of ls i with
  | None => (s, dead, remaining)
  | Some e =>
      if decide (ep = None ∨ ep = Some i) then
        (track_check_running (update_sess s sid (set_ep i None)) i, dead ++ [e], remaining)
      else (s, dead, S remaining)
  end.

(** [live_teardown]: the source, the endpoints that were deleted, and the
    session when it was freed. *)
Definition live_teardown (s : live_source) (sid : nat) (ep : option nat)
  : live_source * list endpoint * option live_session :=
  let '(s, dead, remaining) := foldl (teardown_track sid ep) (s, [], 0%nat) (active_tracks s) in
  match find_sess s sid with
  | None => (s, dead, None)
  | Some ls =>
      if decide (remaining = 0%nat) then
        let s := if decide (0 < u32CurConn s ∧ ls_playing ls = true) then with_conn s (u32CurConn s - 1) else s in
        (with_sess s (filter (λ l, ls_id l ≠ sid) (sess_list s)), dead, Some ls)
      else (s, dead, None)
  end.

(** The sessions [next_live_frame] sends a frame of track [t] to; [accepted] is
    the answer of the packetizer's [frame]. *)
Definition next_live_frame (s : live_source) (t : nat) (accepted : bool) : live_source * list nat :=
  if negb accepted then (s, []) else
  let s := match track s !! t with
           | Some tr => if ready tr then s else with_track s (<[t := mkTrack (rtp tr) true false]> (track s))
           | None => s end in
  (s, ls_id <$> filter (λ ls, (ls_playing ls && bool_decide (is_Some (ep_of ls t))) = true) (sess_list s)).

(** ** Lemmas *)

Lemma list_find_fmap_id sid (f : live_session → live_session) l :
  (∀ ls, ls_id (f ls) = ls_id ls) →
  list_find (λ ls, ls_id ls = sid) (f <$> l) = prod_map id f <$> list_find (λ ls, ls_id ls = sid) l.
Proof.
  intros Hf. induction l as [|ls l IH]; [done|]. simpl. rewrite Hf.
  destruct (decide (ls_id ls = sid)); [done|]. fold_fmap. rewrite IH. by destruct (list_find _ l).
Qed.

Lemma find_update s sid sid' f :
  (∀ ls, ls_id (f ls) = ls_id ls) →
  find_sess (update_sess s sid f) sid' = (λ ls, if decide (sid' = sid) then f ls else ls) <$> find_sess s sid'.
Proof.
  intros Hf. unfold find_sess, update_sess, with_sess. cbn [sess_list].
  rewrite list_find_fmap_id by (intros ls; by case_decide).
  destruct (list_find _ (sess_list s)) as [[i ls]|] eqn:E; [|done]. simpl. f_equal.
  apply list_find_Some in E as (_ & <- & _). done.
Qed.

Lemma find_with_track s l sid : find_sess (with_track s l) sid = find_sess s sid.
Proof. done. Qed.
Lemma find_with_conn s n sid : find_sess (with_conn s n) sid = find_sess s sid.
Proof. done. Qed.

(** The part of the source that [live_play] and the track loops keep. *)
Lemma play_fold ls (ts : list nat) s :
  let s' := foldl (λ s t, match ep_of ls t with
                          | Some _ => with_track s (alter (set_track_waiting true) t (track s))
                          | None => s end) s ts in
  sess_list s' = sess_list s ∧ u32CurConn s' = u32CurConn s ∧ u32MaxConnNum s' = u32MaxConnNum s ∧
  next_session s' = next_session s.
Proof.
  revert s. induction ts as [|t ts IH]; intros s; [done|]. cbn [foldl].
  destruct (ep_of ls t); [|apply IH]. destruct (IH (with_track s (alter (set_track_waiting true) t (track s)))) as (?&?&?&?).
  done.
Qed.

Lemma live_play_spec s sid ls :
  find_sess s sid = Some ls →
  sess_list (live_play s sid) = sess_list (update_sess s sid set_playing) ∧
  u32CurConn (live_play s sid) = u32 (u32CurConn s + 1) ∧ u32MaxConnNum (live_play s sid) = u32MaxConnNum s ∧
  find_sess (live_play s sid) sid = Some (set_playing ls).
Proof.
  intros Hf. unfold live_play. rewrite Hf.
  destruct (play_fold ls (active_tracks (with_conn (update_sess s sid set_playing) (u32 (u32CurConn s + 1))))
    (with_conn (update_sess s sid set_playing) (u32 (u32CurConn s + 1)))) as (H1 & H2 & H3 & H4).
  split_and!; [done|done|done|]. unfold find_sess. rewrite H1.
  change (find_sess (update_sess s sid set_playing) sid = Some (set_playing ls)).
  rewrite find_update by done. rewrite Hf. simpl. by rewrite decide_True.
Qed.

Lemma check_running_keeps s t :
  sess_list (track_check_running s t) = sess_list s ∧ u32CurConn (track_check_running s t) = u32CurConn s ∧
  u32MaxConnNum (track_check_running s t) = u32MaxConnNum s ∧ next_session (track_check_running s t) = next_session s.
Proof. unfold track_check_running. by destruct (playing_track s t). Qed.

(** Tearing everything down leaves nothing remaining and touches no other
    session. *)
Lemma teardown_all_loop sid ts s dead ls :
  find_sess s sid = Some ls →
  ∃ s' dead' ls', foldl (teardown_track sid None) (s, dead, 0%nat) ts = (s', dead', 0%nat) ∧
    find_sess s' sid = Some ls' ∧ ls_playing ls' = ls_playing ls ∧ ls_ctl ls' = ls_ctl ls ∧
    u32CurConn s' = u32CurConn s ∧ u32MaxConnNum s' = u32MaxConnNum s ∧
    filter (λ l, ls_id l ≠ sid) (sess_list s') = filter (λ l, ls_id l ≠ sid) (sess_list s).
Proof.
  revert s dead ls. induction ts as [|t ts IH]; intros s dead ls Hf; [by exists s, dead, ls|].
  cbn [foldl]. unfold teardown_track at 2. rewrite Hf. cbn [mbind option_bind].
  destruct (ep_of ls t) as [e|]; [|by apply IH].
  rewrite decide_True by (by left).
  destruct (check_running_keeps (update_sess s sid (set_ep t None)) t) as (K1 & K2 & K3 & _).
  set (s1 := track_check_running _ t) in *.
  assert (find_sess s1 sid = Some (set_ep t None ls)) as Hf1.
  { unfold find_sess. rewrite K1. fold (find_sess (update_sess s sid (set_ep t None)) sid).
    rewrite find_update, Hf by done. simpl. by rewrite decide_True. }
  destruct (IH s1 (dead ++ [e]) _ Hf1) as (s' & d' & ls' & H1 & H2 & H3 & H4 & H5 & H6 & H7).
  exists s', d', ls'. split_and!; try done; [by rewrite H5|by rewrite H6|].
  rewrite H7, K1. unfold update_sess, with_sess. cbn [sess_list]. clear. induction (sess_list s) as [|x l IH]; [done|].
  rewrite fmap_cons, !filter_cons. destruct (decide (ls_id x = sid)) as [E|E].
  - rewrite !decide_False by (simpl; tauto). done.
  - rewrite !decide_True by done. by rewrite IH.
Qed.

Lemma live_teardown_all s sid ls :
  find_sess s sid = Some ls →
  ∃ s' dead ls', live_teardown s sid None = (s', dead, Some ls') ∧
    sess_list s' = filter (λ l, ls_id l ≠ sid) (sess_list s) ∧
    u32CurConn s' = (if decide (0 < u32CurConn s ∧ ls_playing ls = true) then u32CurConn s - 1 else u32CurConn s) ∧
    u32MaxConnNum s' = u32MaxConnNum s.
Proof.
  intros Hf. unfold live_teardown.
  destruct (teardown_all_loop sid (active_tracks s) s [] ls Hf) as (s1 & d1 & ls1 & -> & H2 & H3 & H4 & H5 & H6 & H7).
  rewrite H2, decide_True by done. rewrite H3, H5.
  eexists _, _, _. split; [reflexivity|]. by case_decide.
Qed.

Lemma teardown_skip_loop sid ep ts s dead r ls :
  find_sess s sid = Some ls → (∀ i, i ∈ ts → ep_of ls i = None) →
  foldl (teardown_track sid ep) (s, dead, r) ts = (s, dead, r).
Proof.
  intros Hf. induction ts as [|i ts IH]; intros Hn; [done|]. cbn [foldl]. unfold teardown_track at 2.
  rewrite Hf. cbn [mbind option_bind]. rewrite (Hn i) by set_solver. apply IH. set_solver.
Qed.

(** ** Well-formed sources *)

(** Session numbers are unique and never reused; a session has an endpoint only
    for a track before the first one without a packetizer; a packetizer's part
    of the SDP is at most 2048 bytes (the texts of the build have less than 200). *)
Record source_ok (s : live_source) : Prop := {
  so_ids : NoDup (ls_id <$> sess_list s);
  so_next : Forall (λ ls, (ls_id ls < next_session s)%nat) (sess_list s);
  so_eps : Forall (λ ls, length (ls_ep ls) = MAX_TRACKS ∧ ∀ t, is_Some (ep_of ls t) → t ∈ active_tracks s) (sess_list s);
  so_tracks : ∀ t, (t < MAX_TRACKS)%nat → has_rtp s t = true → t ∈ active_tracks s;
  so_sdp : Forall (λ m, ∀ md p port, m = Some md → zlen (get_sdp md p port) ≤ 2048) (rtp <$> track s) }.

(** What sessions and teardown leave of the source. *)
Record same_source (s s' : live_source) : Prop := {
  sm_rtp : rtp <$> track s' = rtp <$> track s;
  sm_next : next_session s' = next_session s;
  sm_ready : ready <$> track s' = ready <$> track s }.

#[global] Instance same_source_refl : Reflexive same_source.
Proof. by intros s. Qed.
#[global] Instance same_source_trans : Transitive same_source.
Proof. intros a b c [H1 H2 H3] [H4 H5 H6]. split; congruence. Qed.

Lemma count_rtp_rtp l l' : rtp <$> l' = rtp <$> l → count_rtp l' = count_rtp l.
Proof.
  revert l'. induction l as [|[m r w] l IH]; intros [|[m' r' w'] l']; simpl; intros E; try done.
  injection E as -> E. destruct m; [f_equal; by apply IH|done].
Qed.

Lemma same_active s s' : same_source s s' → active_tracks s' = active_tracks s.
Proof. intros [H _ _]. unfold active_tracks. by rewrite (count_rtp_rtp (track s) (track s')). Qed.

Lemma has_rtp_lookup s t : has_rtp s t = match (rtp <$> track s) !! t with Some (Some _) => true | _ => false end.
Proof. unfold has_rtp. rewrite list_lookup_fmap. by destruct (track s !! t) as [[[] ? ?]|]. Qed.

Lemma same_has_rtp s s' t : same_source s s' → has_rtp s' t = has_rtp s t.
Proof. intros [H _ _]. by rewrite !has_rtp_lookup, H. Qed.

Lemma alter_waiting_rtp w t (l : list live_track) : rtp <$> alter (set_track_waiting w) t l = rtp <$> l.
Proof. revert t. induction l as [|x l IH]; intros [|t]; simpl; [done..|f_equal; apply IH]. Qed.
Lemma alter_waiting_ready w t (l : list live_track) : ready <$> alter (set_track_waiting w) t l = ready <$> l.
Proof. revert t. induction l as [|x l IH]; intros [|t]; simpl; [done..|f_equal; apply IH]. Qed.

Lemma same_waiting s w t : same_source s (with_track s (alter (set_track_waiting w) t (track s))).
Proof. split; [apply alter_waiting_rtp|done|apply alter_waiting_ready]. Qed.

Lemma same_check_running s t : same_source s (track_check_running s t).
Proof. unfold track_check_running. destruct (playing_track s t); [done|apply same_waiting]. Qed.

Lemma find_sess_Some s sid ls : find_sess s sid = Some ls → ls ∈ sess_list s ∧ ls_id ls = sid.
Proof.
  unfold find_sess. intros ([i x] & (H1 & H2 & _)%list_find_Some & ->)%fmap_Some. simpl. split; [|done].
  by apply list_elem_of_lookup_2 in H1.
Qed.

Lemma find_sess_elem s ls : NoDup (ls_id <$> sess_list s) → ls ∈ sess_list s → find_sess s (ls_id ls) = Some ls.
Proof.
  unfold find_sess. induction (sess_list s) as [|x l IH]; [by intros _ ?%not_elem_of_nil|].
  simpl. intros [Hn Hd]%NoDup_cons [->|Hx]%elem_of_cons; [by rewrite decide_True|].
  rewrite decide_False by (intros E; apply Hn; rewrite E; by apply list_elem_of_fmap_2).
  specialize (IH Hd Hx). destruct (list_find _ l) as [[]|]; [done|done].
Qed.

Lemma update_sess_ids s sid f : (∀ ls, ls_id (f ls) = ls_id ls) → ls_id <$> sess_list (update_sess s sid f) = ls_id <$> sess_list s.
Proof.
  intros Hf. unfold update_sess, with_sess. cbn [sess_list]. rewrite <- list_fmap_compose. apply list_fmap_ext.
  intros i x _. simpl. by case_decide.
Qed.

(** The session [sid] replaced. *)
Definition repl (sid : nat) (ls' : live_session) (l : list live_session) : list live_session :=
  (λ x, if decide (ls_id x = sid) then ls' else x) <$> l.

Lemma repl_update s sid f ls :
  NoDup (ls_id <$> sess_list s) → find_sess s sid = Some ls → sess_list (update_sess s sid f) = repl sid (f ls) (sess_list s).
Proof.
  intros Hn Hf. unfold update_sess, with_sess, repl. cbn [sess_list]. apply list_fmap_ext. intros i x Hx.
  case_decide as E; [|done]. apply list_elem_of_lookup_2 in Hx. apply (find_sess_elem s) in Hx; [|done].
  rewrite E, Hf in Hx. by injection Hx as ->.
Qed.

Lemma repl_repl sid a b l : ls_id a = sid → repl sid b (repl sid a l) = repl sid b l.
Proof.
  intros Ha. unfold repl. rewrite <- list_fmap_compose. apply list_fmap_ext. intros i x _. simpl.
  destruct (decide (ls_id x = sid)) as [E|E]; [by rewrite decide_True|by rewrite decide_False].
Qed.

Lemma repl_id s sid ls : NoDup (ls_id <$> sess_list s) → find_sess s sid = Some ls → repl sid ls (sess_list s) = sess_list s.
Proof.
  intros Hn Hf. unfold repl. rewrite <- (list_fmap_id (sess_list s)) at 2. apply list_fmap_ext. intros i x Hx.
  case_decide as E; [|done]. apply list_elem_of_lookup_2 in Hx. apply (find_sess_elem s) in Hx; [|done].
  rewrite E, Hf in Hx. by injection Hx as ->.
Qed.

Lemma repl_ids sid a l : ls_id a = sid → ls_id <$> repl sid a l = ls_id <$> l.
Proof.
  intros Ha. unfold repl. rewrite <- list_fmap_compose. apply list_fmap_ext. intros i x _. simpl. case_decide; congruence.
Qed.

Lemma find_repl s s' sid a sid' :
  ls_id a = sid → sess_list s' = repl sid a (sess_list s) →
  find_sess s' sid' = if decide (sid' = sid) then (λ _, a) <$> find_sess s sid' else find_sess s sid'.
Proof.
  intros Ha E. unfold find_sess. rewrite E. unfold repl. generalize (sess_list s). intros l. clear E.
  induction l as [|x l IH]; [simpl; by case_decide|]. cbn [fmap list_fmap list_find].
  destruct (decide (ls_id x = sid)) as [E|E].
  - destruct (decide (sid' = sid)) as [->|N].
    + rewrite !decide_True by done. done.
    + rewrite !decide_False by congruence. fold_fmap. destruct (list_find _ (_ <$> l)) as [[]|], (list_find _ l) as [[]|]; done.
  - destruct (decide (ls_id x = sid')) as [E'|E'].
    + rewrite decide_False by congruence. done.
    + fold_fmap. destruct (decide (sid' = sid)); destruct (list_find _ (_ <$> l)) as [[]|], (list_find _ l) as [[]|]; done.
Qed.

Lemma source_ok_update s s' sid ls :
  source_ok s → same_source s s' → find_sess s sid = Some ls →
  ∀ ls', ls_id ls' = sid → length (ls_ep ls') = MAX_TRACKS → (∀ t, is_Some (ep_of ls' t) → t ∈ active_tracks s) →
  sess_list s' = repl sid ls' (sess_list s) → source_ok s'.
Proof.
  intros [H1 H2 H3 H4 H5] Hs Hf ls' Hid Hl He E. pose proof (same_active _ _ Hs) as Ha. split.
  - by rewrite E, repl_ids.
  - rewrite E, (sm_next _ _ Hs). apply Forall_fmap, (Forall_impl _ _ _ H2). intros x Hx. simpl. case_decide as Ed; [|done].
    by rewrite Hid, <- Ed.
  - rewrite E, Ha. apply Forall_fmap, (Forall_impl _ _ _ H3). intros x Hx. simpl. by case_decide.
  - intros t Ht Hr. rewrite Ha. apply H4; [done|]. by rewrite <- (same_has_rtp _ _ t Hs).
  - by rewrite (sm_rtp _ _ Hs).
Qed.

(** ** Teardown *)

Definition gone (ep : option nat) (i : nat) : Prop := ep = None ∨ ep = Some i.
#[global] Instance gone_dec ep i : Decision (gone ep i) := _.

Lemma ep_of_set_ep ls t e i :
  (t < length (ls_ep ls))%nat → ep_of (set_ep t e ls) i = if decide (i = t) then e else ep_of ls i.
Proof.
  intros Ht. unfold ep_of, set_ep. cbn [ls_ep]. case_decide; subst.
  - by rewrite list_lookup_insert_eq by done.
  - by rewrite list_lookup_insert_ne by done.
Qed.

Lemma omap_ext_in {A B} (f g : A → option B) (l : list A) : (∀ x, x ∈ l → f x = g x) → omap f l = omap g l.
Proof.
  induction l as [|x l IH]; intros H; [done|]. simpl. rewrite (H x) by set_solver. destruct (g x); [f_equal|]; apply IH; set_solver.
Qed.

Lemma filter_ext_in {A} (P Q : A → Prop) `{∀ x, Decision (P x), ∀ x, Decision (Q x)} (l : list A) :
  (∀ x, x ∈ l → P x ↔ Q x) → filter P l = filter Q l.
Proof.
  induction l as [|x l IH]; intros HPQ; [done|]. rewrite !filter_cons, IH by set_solver.
  pose proof (HPQ x ltac:(set_solver)). destruct (decide (P x)), (decide (Q x)); tauto.
Qed.

(** What the loop over the tracks [ts] leaves: the chosen endpoints are deleted,
    the others counted. *)
Record torn (sid : nat) (ep : option nat) (ts : list nat) (s : live_source) (ls : live_session) (s' : live_source)
    (ls' : live_session) : Prop := {
  tn_list : sess_list s' = repl sid ls' (sess_list s);
  tn_find : find_sess s' sid = Some ls';
  tn_same : same_source s s';
  tn_id : ls_id ls' = sid;
  tn_ctl : ls_ctl ls' = ls_ctl ls;
  tn_len : length (ls_ep ls') = MAX_TRACKS;
  tn_eps : ∀ i, ep_of ls' i = if decide (i ∈ ts ∧ gone ep i) then None else ep_of ls i }.

Definition dead_eps (ep : option nat) (ls : live_session) (ts : list nat) : list endpoint :=
  omap (λ i, if decide (gone ep i) then ep_of ls i else None) ts.
Definition kept_eps (ep : option nat) (ls : live_session) (ts : list nat) : list nat :=
  filter (λ i, is_Some (ep_of ls i) ∧ ¬ gone ep i) ts.

Lemma torn_step sid ep t ts s ls s' ls' (s1 := track_check_running (update_sess s sid (set_ep t None)) t) :
  NoDup (ls_id <$> sess_list s) → find_sess s sid = Some ls → length (ls_ep ls) = MAX_TRACKS → (t < MAX_TRACKS)%nat →
  gone ep t →
  NoDup (ls_id <$> sess_list s1) ∧ find_sess s1 sid = Some (set_ep t None ls) ∧
  (torn sid ep ts s1 (set_ep t None ls) s' ls' → torn sid ep (t :: ts) s ls s' ls').
Proof.
  intros Hn Hf Hl Ht Hg. pose proof (find_sess_Some _ _ _ Hf) as [_ Hid].
  assert (sess_list s1 = repl sid (set_ep t None ls) (sess_list s)) as E1.
  { unfold s1. rewrite (proj1 (check_running_keeps _ _)). by apply repl_update. }
  split; [by rewrite E1, repl_ids|]. split.
  { rewrite (find_repl s s1 sid (set_ep t None ls) sid Hid E1), decide_True, Hf by done. done. }
  intros [H1 H2 H3 H4 H5 H6 H7]. split; try done.
  - by rewrite H1, E1, repl_repl.
  - etrans; [|exact H3]. destruct (same_check_running (update_sess s sid (set_ep t None)) t). by split.
  - intros i. rewrite H7, ep_of_set_ep by lia. destruct (decide (i = t)) as [->|N].
    + rewrite (decide_True (P := t ∈ t :: ts ∧ gone ep t)) by (split; [by left|done]). by case_decide.
    + apply decide_ext. set_solver.
Qed.

Lemma torn_skip sid ep t ts s ls s' ls' :
  ep_of ls t = None ∨ ¬ gone ep t → torn sid ep ts s ls s' ls' → torn sid ep (t :: ts) s ls s' ls'.
Proof.
  intros Ht [H1 H2 H3 H4 H5 H6 H7]. split; try done. intros i. rewrite H7.
  destruct (decide (i = t)) as [->|N]; [|apply decide_ext; set_solver].
  destruct Ht as [Ht|Ht]; [rewrite Ht; by repeat case_decide|by rewrite !decide_False by tauto].
Qed.

Lemma dead_eps_set t ep ls ts e : t ∉ ts → length (ls_ep ls) = MAX_TRACKS → (t < MAX_TRACKS)%nat →
  dead_eps ep (set_ep t e ls) ts = dead_eps ep ls ts ∧ kept_eps ep (set_ep t e ls) ts = kept_eps ep ls ts.
Proof.
  intros Ht Hl Hlt. assert (∀ i, i ∈ ts → ep_of (set_ep t e ls) i = ep_of ls i) as E.
  { intros i Hi. rewrite ep_of_set_ep by lia. rewrite decide_False; [done|]. by intros ->. }
  split; [apply omap_ext_in|apply filter_ext_in]; intros i Hi; by rewrite E.
Qed.

(** The loop over the tracks. *)
Lemma teardown_loop sid ep ts s dead r ls :
  NoDup (ls_id <$> sess_list s) → find_sess s sid = Some ls → length (ls_ep ls) = MAX_TRACKS →
  NoDup ts → Forall (λ t, t < MAX_TRACKS)%nat ts →
  ∃ s' ls', foldl (teardown_track sid ep) (s, dead, r) ts =
      (s', dead ++ dead_eps ep ls ts, (r + length (kept_eps ep ls ts))%nat) ∧ torn sid ep ts s ls s' ls'.
Proof.
  intros Hn Hf Hl Hts Hlt. revert s dead r ls Hn Hf Hl Hlt.
  induction Hts as [|t ts Ht Hts IH]; intros s dead r ls Hn Hf Hl Hlt.
  - exists s, ls. rewrite app_nil_r, Nat.add_0_r. pose proof (find_sess_Some _ _ _ Hf) as [_ Hid]. split; [done|].
    split; try done. by rewrite repl_id.
  - apply Forall_cons in Hlt as [Ht2 Hlt]. cbn [foldl]. unfold dead_eps, kept_eps. cbn [omap list_omap].
    rewrite filter_cons. fold (dead_eps ep ls ts) (kept_eps ep ls ts). unfold teardown_track at 2. rewrite Hf.
    cbn [mbind option_bind]. destruct (ep_of ls t) as [e|] eqn:Et; [destruct (decide (gone ep t)) as [Hg|Hg]|].
    + rewrite (decide_True (P := ep = None ∨ ep = Some t)), decide_False by (done || by intros [_ ?]).
      destruct (torn_step sid ep t ts s ls s ls Hn Hf Hl Ht2 Hg) as (N1 & F1 & _).
      destruct (IH _ (dead ++ [e]) r _ N1 F1) as (s' & ls' & H1 & H2); [by cbn [set_ep ls_ep]; rewrite length_insert|done|].
      exists s', ls'. destruct (dead_eps_set t ep ls ts None Ht Hl Ht2) as [D1 D2]. rewrite H1, D1, D2, <- app_assoc.
      split; [done|]. by apply (torn_step sid ep t ts s ls s' ls').
    + rewrite (decide_False (P := ep = None ∨ ep = Some t)), decide_True by (done || (split; [by eexists|done])).
      destruct (IH s dead (S r) ls Hn Hf Hl Hlt) as (s' & ls' & H1 & H2). exists s', ls'. rewrite H1.
      split; [f_equal; simpl; lia|]. apply torn_skip; [by right|done].
    + rewrite (decide_False (P := is_Some None ∧ ¬ gone ep t)) by (intros [[? ?] _]; done).
      destruct (IH s dead r ls Hn Hf Hl Hlt) as (s' & ls' & H1 & H2). exists s', ls'. rewrite H1.
      split; [by destruct (decide (gone ep t))|]. apply torn_skip; [by left|done].
Qed.

(** One session changes, the others stay. *)
Definition only_changes (s s' : live_source) (sid : nat) (x : option live_session) : Prop :=
  ∀ sid', find_sess s' sid' = if decide (sid' = sid) then x else find_sess s sid'.

Lemma update_sess_spec s sid f ls :
  source_ok s → find_sess s sid = Some ls → (∀ x, ls_id (f x) = ls_id x) → length (ls_ep (f ls)) = MAX_TRACKS →
  (∀ t, is_Some (ep_of (f ls) t) → t ∈ active_tracks s) →
  source_ok (update_sess s sid f) ∧ only_changes s (update_sess s sid f) sid (Some (f ls)).
Proof.
  intros Hs Hf Hid Hl He. pose proof (find_sess_Some _ _ _ Hf) as [_ Hi]. pose proof (repl_update s sid f ls (so_ids _ Hs) Hf) as E. split.
  - eapply (source_ok_update s _ sid ls Hs); [done|done|by rewrite Hid|done|done|done].
  - intros sid'. rewrite (find_repl s _ sid (f ls) sid' ltac:(by rewrite Hid) E). case_decide; [subst; by rewrite Hf|done].
Qed.

Lemma session_eps s sid ls :
  source_ok s → find_sess s sid = Some ls →
  ls_id ls = sid ∧ length (ls_ep ls) = MAX_TRACKS ∧ ∀ t, is_Some (ep_of ls t) → t ∈ active_tracks s.
Proof.
  intros Hs Hf. pose proof (find_sess_Some _ _ _ Hf) as [Hin Hid]. split; [done|].
  by apply (proj1 (Forall_forall _ _) (so_eps _ Hs)).
Qed.

Lemma active_small s t : t ∈ active_tracks s → (t < MAX_TRACKS)%nat.
Proof. unfold active_tracks. intros H%elem_of_seq. lia. Qed.

Lemma find_filter s s' sid :
  sess_list s' = filter (λ l, ls_id l ≠ sid) (sess_list s) → only_changes s s' sid None.
Proof.
  intros E sid'. unfold find_sess. rewrite E. generalize (sess_list s). intros l. clear E.
  assert (∀ o : option (nat * live_session), snd <$> (prod_map S id <$> o) = snd <$> o) as K by (by intros [[]|]).
  induction l as [|x l IH]; [simpl; by case_decide|]. rewrite filter_cons. cbn [list_find].
  destruct (decide (ls_id x ≠ sid)) as [N|N]; cbn [list_find].
  - destruct (decide (ls_id x = sid')) as [E|E]; [by rewrite decide_False by congruence|]. by rewrite !K.
  - rewrite IH. apply dec_stable in N. destruct (decide (sid' = sid)) as [|N']; [done|].
    rewrite decide_False by congruence. by rewrite K.
Qed.

Lemma source_ok_filter s s' sid :
  source_ok s → same_source s s' → sess_list s' = filter (λ l, ls_id l ≠ sid) (sess_list s) → source_ok s'.
Proof.
  intros [H1 H2 H3 H4 H5] Hs E. pose proof (same_active _ _ Hs) as Ha.
  assert (∀ P : live_session → Prop, Forall P (sess_list s) → Forall P (sess_list s')) as HF.
  { intros P HP. rewrite E. apply Forall_forall. intros x [_ Hx]%list_elem_of_filter. by apply (proj1 (Forall_forall _ _) HP). }
  split.
  - rewrite E. clear -H1. induction (sess_list s) as [|x l IH]; [constructor|]. simpl in H1. apply NoDup_cons in H1 as [Hn Hd].
    rewrite filter_cons. case_decide; [|by apply IH]. simpl. apply NoDup_cons. split; [|by apply IH].
    intros (y & Ey & [_ Hy]%list_elem_of_filter)%list_elem_of_fmap_1. apply Hn. rewrite Ey. by apply list_elem_of_fmap_2.
  - rewrite (sm_next _ _ Hs). by apply HF.
  - rewrite Ha. by apply HF.
  - intros t Ht Hr. rewrite Ha. apply H4; [done|]. by rewrite <- (same_has_rtp _ _ t Hs).
  - by rewrite (sm_rtp _ _ Hs).
Qed.

(** [live_teardown]: the chosen endpoints are deleted; when none is left, the
    session is freed. *)
Lemma live_teardown_spec s sid ep ls :
  source_ok s → find_sess s sid = Some ls →
  ∃ s' freed, live_teardown s sid ep = (s', dead_eps ep ls (active_tracks s), freed) ∧ source_ok s' ∧ same_source s s' ∧
    match freed with
    | Some ls' => ls_ctl ls' = ls_ctl ls ∧ (∀ i, is_Some (ep_of ls i) → gone ep i) ∧ only_changes s s' sid None
    | None => ∃ ls', ls_ctl ls' = ls_ctl ls ∧ (∀ i, ep_of ls' i = if decide (gone ep i) then None else ep_of ls i) ∧
        only_changes s s' sid (Some ls')
    end.
Proof.
  intros Hs Hf. destruct (session_eps s sid ls Hs Hf) as (Hid & Hl & He).
  destruct (teardown_loop sid ep (active_tracks s) s [] 0 ls (so_ids _ Hs) Hf Hl) as (s1 & ls1 & H1 & [T1 T2 T3 T4 T5 T6 T7]).
  { apply NoDup_seq. } { apply Forall_forall. apply active_small. }
  unfold live_teardown. rewrite H1, T2. simpl app. rewrite Nat.add_0_l.
  assert (∀ i, ep_of ls1 i = if decide (gone ep i) then None else ep_of ls i) as He1.
  { intros i. rewrite T7. destruct (decide (gone ep i)) as [Hg|Hg]; [|by rewrite decide_False by tauto].
    case_decide as E; [done|]. destruct (ep_of ls i) eqn:Ei; [|done]. exfalso. apply E. split; [apply He; by rewrite Ei|done]. }
  destruct (decide (length (kept_eps ep ls (active_tracks s)) = 0%nat)) as [E0|E0].
  - eexists _, _. split; [reflexivity|].
    set (s2 := if decide _ then _ else _).
    assert (sess_list s2 = sess_list s1 ∧ track s2 = track s1 ∧ next_session s2 = next_session s1) as (L2 & K2 & N2)
      by (unfold s2; by case_decide).
    assert (filter (λ l, ls_id l ≠ sid) (sess_list s2) = filter (λ l, ls_id l ≠ sid) (sess_list s)) as EF.
    { rewrite L2, T1. unfold repl. clear -T4. induction (sess_list s) as [|x l IH]; [done|]. cbn [fmap list_fmap].
      rewrite !filter_cons, IH. destruct (decide (ls_id x = sid)); [by rewrite !decide_False by tauto|done]. }
    assert (same_source s (with_sess s2 (filter (λ l, ls_id l ≠ sid) (sess_list s2)))) as SS.
    { destruct T3 as [A1 A2 A3]. split; cbn [with_sess track next_session]; [by rewrite K2|by rewrite N2|by rewrite K2]. }
    split; [|split; [done|split; [done|split]]].
    + apply (source_ok_filter s _ sid Hs SS EF).
    + intros i Hi. destruct (decide (gone ep i)) as [|Hg]; [done|]. exfalso.
      apply nil_length_inv in E0. assert (i ∈ kept_eps ep ls (active_tracks s)) as Hk; [|rewrite E0 in Hk; by apply not_elem_of_nil in Hk].
      apply list_elem_of_filter. split; [done|]. by apply He.
    + by apply find_filter.
  - exists s1, None. split; [done|]. split; [|split; [done|]].
    + eapply (source_ok_update s s1 sid ls Hs T3 Hf ls1 T4 T6); [|done]. intros t. rewrite He1. case_decide; [by intros [? ?]|apply He].
    + exists ls1. split; [done|]. split; [done|]. intros sid'. rewrite (find_repl s s1 sid ls1 sid' T4 T1).
      case_decide; [subst; by rewrite Hf|done].
Qed.

Lemma live_open_spec s s' sid :
  source_ok s → live_open s = Some (s', sid) →
  source_ok s' ∧ track s' = track s ∧ find_sess s sid = None ∧
  only_changes s s' sid (Some (mkLs sid (replicate MAX_TRACKS None) false None)).
Proof.
  intros [H1 H2 H3 H4 H5]. unfold live_open. case_decide; [done|]. intros E. injection E as <- <-.
  set (ls := mkLs _ _ _ _). set (s' := mkSource _ _ _ _ _ _).
  assert (find_sess s (next_session s) = None) as Hn.
  { destruct (find_sess s (next_session s)) as [x|] eqn:E; [|done]. apply find_sess_Some in E as [Hx Hi].
    pose proof (proj1 (Forall_forall _ _) H2 x Hx) as Hlt. simpl in Hlt. lia. }
  assert (∀ t, ep_of ls t = None) as He.
  { intros t. unfold ep_of, ls, MAX_TRACKS. simpl. destruct t as [|[|[|]]]; done. }
  split; [|split; [done|split; [done|]]].
  - split.
    + simpl. apply NoDup_cons. split; [|done]. intros (x & Ex & Hx)%list_elem_of_fmap_1.
      pose proof (proj1 (Forall_forall _ _) H2 x Hx). simpl in *. lia.
    + apply Forall_cons_2; [simpl; lia|]. apply (Forall_impl _ _ _ H2). simpl. lia.
    + apply Forall_cons_2; [|done]. split; [done|]. intros t [e Ht]. by rewrite He in Ht.
    + done.
    + done.
  - intros sid'. unfold find_sess, s'. cbn [sess_list list_find ls_id ls]. destruct (decide (sid' = next_session s)) as [->|N].
    + by rewrite decide_True.
    + rewrite decide_False by congruence. by destruct (list_find _ (sess_list s)) as [[]|].
Qed.

Lemma live_setup_spec s s' sid t ls :
  source_ok s → find_sess s sid = Some ls → (t < MAX_TRACKS)%nat → live_setup s sid t = Some s' →
  source_ok s' ∧ track s' = track s ∧
  ∃ e, e_trans e = TransNone ∧ only_changes s s' sid (Some (set_ep t (Some e) ls)).
Proof.
  intros Hs Hf Ht. unfold live_setup. destruct (track s !! t) as [[[md|] r w]|] eqn:E; [|done|done].
  intros Es. injection Es as <-. set (e := mkEndpoint _ _ _).
  destruct (session_eps s sid ls Hs Hf) as (Hid & Hl & He).
  destruct (update_sess_spec s sid (set_ep t (Some e)) ls Hs Hf) as [U1 U2]; [done|by cbn; rewrite length_insert| |].
  - intros i. rewrite ep_of_set_ep by lia. case_decide; [|apply He]. subst. intros _. apply (so_tracks _ Hs); [done|].
    unfold has_rtp. by rewrite E.
  - split; [done|]. split; [done|]. by exists e.
Qed.

Lemma play_fold_same ls (ts : list nat) s :
  same_source s (foldl (λ s t, match ep_of ls t with
                               | Some _ => with_track s (alter (set_track_waiting true) t (track s))
                               | None => s end) s ts).
Proof.
  revert s. induction ts as [|t ts IH]; intros s; [done|]. cbn [foldl]. etrans; [|apply IH].
  destruct (ep_of ls t); [apply same_waiting|done].
Qed.

Lemma next_live_frame_ok s t acc :
  source_ok s → source_ok (next_live_frame s t acc).1 ∧ sess_list (next_live_frame s t acc).1 = sess_list s.
Proof.
  intros Hs. unfold next_live_frame. destruct acc; [|done]. cbn [negb fst].
  destruct (track s !! t) as [tr|] eqn:E; [|done]. destruct (ready tr); [done|]. split; [|done].
  set (s' := with_track _ _). assert (rtp <$> track s' = rtp <$> track s) as Er.
  { cbn [s' with_track track]. rewrite list_fmap_insert. apply list_insert_id. by rewrite list_lookup_fmap, E. }
  assert (active_tracks s' = active_tracks s) as Ea by (unfold active_tracks; by rewrite (count_rtp_rtp _ _ Er)).
  destruct Hs as [H1 H2 H3 H4 H5]. split; [done|done|by rewrite Ea| |by rewrite Er].
  intros k Hk. rewrite has_rtp_lookup, Er, <- has_rtp_lookup, Ea. by apply H4.
Qed.

Lemma live_play_ok s sid ls :
  source_ok s → find_sess s sid = Some ls →
  source_ok (live_play s sid) ∧ same_source s (live_play s sid) ∧ only_changes s (live_play s sid) sid (Some (set_playing ls)).
Proof.
  intros Hs Hf. destruct (session_eps s sid ls Hs Hf) as (Hid & Hl & He).
  destruct (live_play_spec s sid ls Hf) as (P1 & _). rewrite (repl_update s sid set_playing ls (so_ids _ Hs) Hf) in P1.
  assert (same_source s (live_play s sid)) as SS.
  { unfold live_play. rewrite Hf. set (s1 := with_conn _ _). transitivity s1; [by split|]. apply play_fold_same. }
  split; [|split; [done|]].
  - by eapply (source_ok_update s _ sid ls Hs SS Hf (set_playing ls)).
  - intros sid'. rewrite (find_repl s _ sid (set_playing ls) sid' Hid P1). case_decide; [subst; by rewrite Hf|done].
Qed.

Fixpoint plays (s : live_source) (sid : nat) (n : nat) : live_source :=
  match n with O => s | S n => plays (live_play s sid) sid n end.

Lemma plays_spec n s sid ls :
  find_sess s sid = Some ls → 0 ≤ u32CurConn s → u32CurConn s + Z.of_nat n < 4294967296 →
  let s' := plays s sid n in
  u32CurConn s' = u32CurConn s + Z.of_nat n ∧ u32MaxConnNum s' = u32MaxConnNum s ∧
  find_sess s' sid = Some (if decide (n = 0%nat) then ls else set_playing ls) ∧
  filter (λ l, ls_id l ≠ sid) (sess_list s') = filter (λ l, ls_id l ≠ sid) (sess_list s).
Proof.
  revert s ls. induction n as [|n IH]; intros s ls Hf H0 Hn; cbn [plays].
  - split_and!; try done. lia.
  - destruct (live_play_spec s sid ls Hf) as (P1 & P2 & P3 & P4).
    rewrite u32_small in P2 by lia.
    destruct (IH (live_play s sid) _ P4) as (I1 & I2 & I3 & I4); [lia|lia|].
    split_and!; [lia|congruence|rewrite I3; by case_decide|].
    rewrite I4, P1. unfold update_sess, with_sess. cbn [sess_list]. clear. induction (sess_list s) as [|x l IH]; [done|].
    rewrite fmap_cons, !filter_cons. destruct (decide (ls_id x = sid)) as [E|E].
    + rewrite !decide_False by (simpl; tauto). done.
    + rewrite !decide_True by done. by rewrite IH.
Qed.

(** C40. Every PLAY counts, one TEARDOWN uncounts once: a session that was asked
    to play [n] times (a client may repeat PLAY, for example after a pause it
    was refused) and is torn down leaves the connection count [n - 1] too high,
    while the session is gone; so a single client can use up any configured
    limit, after which [live_open] refuses everybody although no session
    exists. *)
Theorem repeated_play_exhausts s sid ls n :
  find_sess s sid = Some ls → ls_playing ls = false → (0 < n)%nat →
  0 ≤ u32CurConn s → u32CurConn s + Z.of_nat n < 4294967296 →
  ∃ s' dead ls', live_teardown (plays s sid n) sid None = (s', dead, Some ls') ∧
    sess_list s' = filter (λ l, ls_id l ≠ sid) (sess_list s) ∧
    u32CurConn s' = u32CurConn s + Z.of_nat n - 1 ∧
    (u32MaxConnNum s < u32CurConn s + Z.of_nat n → live_open s' = None).
Proof.
  intros Hf Hp Hn H0 Hlt. destruct (plays_spec n s sid ls Hf H0 Hlt) as (P1 & P2 & P3 & P4).
  rewrite decide_False in P3 by lia.
  destruct (live_teardown_all (plays s sid n) sid _ P3) as (s' & d & ls' & T1 & T2 & T3 & T4).
  rewrite decide_True in T3 by (split; [lia|done]).
  exists s', d, ls'. split; [done|]. split; [by rewrite T2|]. split; [lia|].
  intros Hm. unfold live_open. by rewrite decide_True by lia.
Qed.

(** A client can switch a stream off before it started: setting up a track
    and tearing it down again, without ever playing, stops the source of the
    track even when the first frame has not come yet, so the track never gets
    ready and its description stays unavailable. *)
Lemma setup_teardown_stops_source s s1 s2 sid md rd wt :
  sess_list s = [] → live_open s = Some (s1, sid) →
  track s !! 0%nat = Some (mkTrack (Some md) rd wt) → live_setup s1 sid 0 = Some s2 →
  ∃ s3 dead ls, live_teardown s2 sid (Some 0%nat) = (s3, dead, Some ls) ∧ sess_list s3 = [] ∧
    track s3 !! 0%nat = Some (mkTrack (Some md) rd false).
Proof.
  intros Hs Ho Ht Hset. unfold live_open in Ho. case_decide; [done|]. injection Ho as <- <-.
  unfold live_setup in Hset. cbn [track] in Hset. rewrite Ht in Hset. injection Hset as <-.
  set (e := mkEndpoint _ _ _).
  set (s0 := mkSource (mkLs (next_session s) (replicate MAX_TRACKS None) false None :: sess_list s) (track s)
    (i32MaxRTPTransSize s) (u32MaxConnNum s) (u32CurConn s) (S (next_session s))).
  set (s2 := update_sess s0 (next_session s) (set_ep 0 (Some e))). set (sid := next_session s) in *.
  set (ls0 := mkLs sid (replicate MAX_TRACKS None) false None).
  assert (find_sess s2 sid = Some (set_ep 0 (Some e) ls0)) as F.
  { unfold s2. rewrite find_update by done. unfold find_sess, s0. cbn [sess_list list_find].
    rewrite decide_True by done. simpl. by rewrite decide_True. }
  set (s3 := track_check_running (update_sess s2 sid (set_ep 0 None)) 0).
  assert (sess_list (update_sess s2 sid (set_ep 0 None)) = [ls0]) as HL.
  { assert (sess_list s2 = [set_ep 0 (Some e) ls0]) as H2.
    { unfold s2, s0, update_sess, with_sess. cbn [sess_list]. rewrite Hs. simpl. by rewrite decide_True. }
    unfold update_sess, with_sess. cbn [sess_list]. rewrite H2. simpl. by rewrite decide_True. }
  assert (sess_list s3 = [ls0]) as HL3 by (unfold s3; rewrite (proj1 (check_running_keeps _ _)); exact HL).
  assert (find_sess s3 sid = Some ls0) as F3.
  { unfold find_sess. rewrite HL3. simpl. by rewrite decide_True. }
  assert (foldl (teardown_track sid (Some 0%nat)) (s2, [], 0%nat) (active_tracks s2) = (s3, [e], 0%nat)) as HF.
  { unfold active_tracks. change (track s2) with (track s). destruct (track s) as [|t0 tl]; [done|]. injection Ht as ->.
    cbn [count_rtp]. rewrite Nat.min_comm. unfold MAX_TRACKS. cbn [Nat.min seq foldl].
    unfold teardown_track at 2. rewrite F. cbn [mbind option_bind]. change (ep_of (set_ep 0 (Some e) ls0) 0) with (Some e).
    cbv beta iota. rewrite decide_True by (by right). fold s3. apply (teardown_skip_loop sid (Some 0%nat) _ s3 [e] 0 ls0 F3).
    intros i Hi%elem_of_seq. unfold ep_of, ls0. simpl. destruct i as [|[|i]]; [lia|done|]. done. }
  change (∃ s3 dead ls, live_teardown s2 sid (Some 0%nat) = (s3, dead, Some ls) ∧ sess_list s3 = [] ∧
    track s3 !! 0%nat = Some (mkTrack (Some md) rd false)).
  unfold live_teardown. rewrite HF, F3, decide_True by done. eexists _, _, _. split; [reflexivity|]. split.
  - rewrite decide_False by (intros [_ ?]; done). unfold with_sess. cbn [sess_list]. rewrite HL3.
    rewrite filter_cons, decide_False by (intros Hn; by apply Hn). done.
  - rewrite decide_False by (intros [_ ?]; done). unfold with_sess. cbn [track]. unfold s3, track_check_running.
    unfold playing_track. rewrite HL. simpl existsb. cbn [with_track track]. rewrite list_lookup_alter_eq.
    change (track (update_sess s2 sid (set_ep 0 None))) with (track s). by rewrite Ht.
Qed.

(** A live source with one ready track and room for two connections, and the
    session [live_open] makes of it. *)
Definition demo_source : live_source :=
  mkSource [] [mkTrack (Some (mkMedia id (λ _ _, []))) true false; mkTrack None false false] 1400 2 0 0.
Definition demo_open : live_source := mkSource [mkLs 0 [None; None] false None] (track demo_source) 1400 2 0 1.

Lemma repeated_play_exhausts_witness :
  ∃ s' dead ls', live_teardown (plays demo_open 0 3) 0 None = (s', dead, Some ls') ∧
    sess_list s' = [] ∧ live_open s' = None.
Proof.
  destruct (repeated_play_exhausts demo_open 0 (mkLs 0 [None; None] false None) 3) as (s' & d & ls' & H1 & H2 & _ & H4).
  - reflexivity.
  - reflexivity.
  - lia.
  - vm_compute. discriminate.
  - vm_compute. reflexivity.
  - exists s', d, ls'. split; [exact H1|]. split; [exact H2|]. apply H4. vm_compute. reflexivity.
Defined.

Lemma setup_teardown_stops_source_witness :
  ∃ s1 s2 s3 dead ls, live_open demo_source = Some (s1, 0%nat) ∧ live_setup s1 0 0 = Some s2 ∧
    live_teardown s2 0 (Some 0%nat) = (s3, dead, Some ls) ∧ sess_list s3 = [].
Proof.
  destruct (live_open demo_source) as [[s1 sid]|] eqn:E1; [|discriminate].
  destruct (live_setup s1 sid 0) as [s2|] eqn:E2; [|vm_compute in E1; injection E1 as <- <-; discriminate].
  destruct (setup_teardown_stops_source demo_source s1 s2 sid (mkMedia id (λ _ _, [])) true false eq_refl E1 eq_refl E2)
    as (s3 & d & ls & H1 & H2 & _).
  assert (sid = 0%nat) as -> by (vm_compute in E1; injection E1 as _ <-; reflexivity).
  exists s1, s2, s3, d, ls. split; [reflexivity|]. split; [exact E2|]. split; [exact H1|exact H2].
Defined.
