(* ===== verification/Http.v ===== *)
(** * Http: JPEG images over HTTP

    Models http.c of src/sources/applications/RTSPServer/src: locations that
    hold the last frame of a JPEG stream, answering a GET with that frame or
    with a multipart stream that every new frame extends. A frame is its number
    in the heap, its buffer and its length; a location is its place in the list;
    a connection is its number. [proto_state] of the connections of this
    protocol is the map [h_proto]. *)

From stdpp Require Import prelude gmap strings pretty.
From S2P Require Import Prelude Pmsg SendBuf HttpAuth.

Local Open Scope c_scope.

(** ** Data *)

Record jpeg_frame := mkJf { jf_id : nat; jf_d : list Z; jf_length : Z }.

Record http_stream_session := mkHs { hs_id : nat; hs_conn : nat }.

Record http_location := mkHloc {
  h_path : list Z;
  h_input : bool;
  h_frame : option jpeg_frame;
  length_with_jfif : Z;
  h_sess_list : list http_stream_session;
  streaming : bool }.

(** [h_proto] gives the session of a connection, with the location in which it
    is listed. *)
Record http := mkHttp {
  http_loc_list : list http_location;
  h_proto : gmap nat (nat * nat);
  h_next : nat }.

Definition with_loc (h : http) (i : nat) (loc : http_location) : http :=
  mkHttp (<[i := loc]> (http_loc_list h)) (h_proto h) (h_next h).
Definition with_sess (loc : http_location) (l : list http_stream_session) : http_location :=
  mkHloc (h_path loc) (h_input loc) (h_frame loc) (length_with_jfif loc) l (streaming loc).

(** ** Configuration *)

(** [heap] is the memory of the path. *)
Definition start_block (heap : list Z) : http_location := mkHloc (blit heap 0 [0]) false None 0 [] false.

(** The return value; with 0 the code also calls [set_waiting] on the input,
    which is [set_waiting] of [Live]. *)
Definition end_block (loc : http_location) : res Z :=
  if h_input loc then c ← rd (h_path loc) 0; Ok (if decide (c = 0) then -1 else 0) else Ok (-1).

Definition set_path (loc : http_location) (s : list Z) : res http_location :=
  if decide (zlen s + 1 ≤ zlen (h_path loc)) then
    Ok (mkHloc (blit (h_path loc) 0 (s ++ [0])) (h_input loc) (h_frame loc) (length_with_jfif loc) (h_sess_list loc) (streaming loc))
  else Fault OutOfBounds.

Definition set_mode (loc : http_location) (s : list Z) : option http_location :=
  let put b := Some (mkHloc (h_path loc) (h_input loc) (h_frame loc) (length_with_jfif loc) (h_sess_list loc) b) in
  if strcaseeq s $"single" then put false else if strcaseeq s $"stream" then put true else None.

(** ** Finding a location *)

Fixpoint node_find_location (l : list http_location) (i : nat) (path : list Z) (len : Z) : res (option nat) :=
  match l with
  | [] => Ok None
  | loc :: l =>
      p ← cstr (h_path loc) 0;
      if bool_decide (take (length p) path = p) then
        x ← rd (h_path loc) len;
        if decide (x = 47 ∨ x = 0) then Ok (Some i) else node_find_location l (S i) path len
      else node_find_location l (S i) path len
  end.

(** The path is a string of the request: [path[len - 1]] of an empty one is the
    byte before it in the message. *)
Definition find_http_location (l : list http_location) (req : pmsg) : res (option nat) :=
  match sl req with
  | SlReq _ uri =>
      path ← cstr (msg req) uri;
      c ← rd (msg req) (uri + zlen path - 1);
      node_find_location l 0 path (if decide (c = 47) then zlen path - 1 else zlen path)
  | SlStat _ _ => Fault OutOfBounds
  end.

(** ** Replies *)

Definition http_create_reply (heap : list Z) (code : Z) (reply : list Z) : pmsg :=
  let '(m, p) := add_pmsg_string (new_pmsg heap) $"HTTP/1.0" in
  let '(m, r) := add_pmsg_string m reply in
  mkPmsg (msg m) (msg_len m) (default (-1) p) (SlStat code (default (-1) r)) (fields m).

Definition set_drop_after (b : send_state) : send_state :=
  mkSend (send_buf b) (send_buf_r b) (send_buf_w b) true (write_on b).

Definition http_send_error (b : send_state) (heap : list Z) (code : Z) (reply t : list Z) : res send_state :=
  let m := http_create_reply heap code reply in
  let m := fst (add_header m $"Connection" $"close") in
  let m := fst (add_header m $"Content-Type" $"text/html") in
  '(b, ret) ← tcp_send_pmsg (set_drop_after b) m (zlen t);
  Ok (if decide (0 ≤ ret) then fst (send_data b t) else b).

(** ** Frames *)

Definition add_jfif : list Z :=
  [255; 216; 255; 224; 0; 16; 74; 70; 73; 70; 0; 1; 2; 1; 0; 72; 0; 72; 0; 0].

Definition send_frame_with_jfif (f : jpeg_frame) (n : Z) (b : send_state) : send_state :=
  if decide (jf_length f < n) then
    let b := fst (send_data b add_jfif) in
    fst (send_data b (slice (jf_d f) 2 (jf_length f - 2)))
  else fst (send_data b (slice (jf_d f) 0 (jf_length f))).

Definition multipart_headers (n : Z) : list Z :=
  $"--boundary" ++ crlf ++ $"Content-Type: image/jpeg" ++ crlf ++ $"Content-Length: " ++ fmt_d n ++ crlf ++ crlf.

Definition send_multipart_frame (f : jpeg_frame) (n : Z) (b : send_state) : send_state :=
  let hdrs := multipart_headers n in
  if decide (Z.of_nat (avail_send_buf b) < n + zlen hdrs) then b
  else send_frame_with_jfif f n (fst (send_data b hdrs)).

(** ** Sessions of a stream *)

Definition add_http_stream_session (h : http) (i c : nat) : http :=
  match http_loc_list h !! i with
  | None => h
  | Some loc =>
      mkHttp (<[i := with_sess loc (mkHs (h_next h) c :: h_sess_list loc)]> (http_loc_list h))
        (<[c := (i, h_next h)]> (h_proto h)) (S (h_next h))
  end.

Definition http_conn_disconnect (h : http) (c : nat) : res http :=
  match h_proto h !! c with
  | None => Fault NullDeref
  | Some (i, sid) =>
      match http_loc_list h !! i with
      | None => Fault UseAfterFree
      | Some loc =>
          Ok (mkHttp (<[i := with_sess loc (filter (λ s, hs_id s ≠ sid) (h_sess_list loc))]> (http_loc_list h))
                (delete c (h_proto h)) (h_next h))
      end
  end.

(** ** Requests *)

Definition handle_GET (h : http) (c : nat) (b : send_state) (heap : list Z) (req : pmsg) : res (http * send_state) :=
  let error t := b ← http_send_error b heap 404 $"Not Found" t; Ok (h, b) in
  let not_found := error $"<html><body><p>File not found</p></body></html>" in
  let no_image := error $"<html><body><p>Image not available</p></body></html>" in
  r ← find_http_location (http_loc_list h) req;
  match r with
  | None => not_found
  | Some i =>
      match http_loc_list h !! i with
      | None => Fault UseAfterFree
      | Some loc =>
          uri ← req_uri req;
          p ← cstr (h_path loc) 0;
          if decide (zlen p < zlen uri) then not_found else
          match h_frame loc with
          | None => no_image
          | Some f =>
              if decide (Z.of_nat (avail_send_buf b) < jf_length f + 400) then no_image else
              let m := http_create_reply heap 200 $"OK" in
              let m := fst (add_header m $"Expires" $"0") in
              let m := fst (add_header m $"Pragma" $"no-cache") in
              let m := fst (add_header m $"Cache-Control" $"no-cache") in
              if streaming loc then
                let m := fst (add_header m $"Content-Type"
                  ($"multipart/x-mixed-replace;boundary=" ++ [34] ++ $"boundary" ++ [34])) in
                '(b, _) ← tcp_send_pmsg b m (-1);
                let h := add_http_stream_session h i c in
                Ok (h, send_multipart_frame f (length_with_jfif loc) b)
              else
                let m := fst (add_header m $"Connection" $"close") in
                let m := fst (add_header m $"Content-Type" $"image/jpeg") in
                '(b, ret) ← tcp_send_pmsg (set_drop_after b) m (length_with_jfif loc);
                Ok (h, if decide (0 ≤ ret) then send_frame_with_jfif f (length_with_jfif loc) b else b)
          end
      end
  end.

Definition handle_unknown (h : http) (b : send_state) (heap : list Z) : res (http * send_state) :=
  b ← http_send_error b heap 501 $"Not Implemented" $"<html><body><p>POST requests are unsupported here</p></body></html>";
  Ok (h, b).

Definition http_handle_msg (h : http) (c : nat) (b : send_state) (heap : list Z) (req : pmsg) : res (http * send_state) :=
  method ← req_method req;
  if strcaseeq method $"GET" then handle_GET h c b heap req else handle_unknown h b heap.

(** ** A new frame *)

(** The connections of the sessions get the frame, if they have the room. *)
Fixpoint send_to_sessions (l : list http_stream_session) (f : jpeg_frame) (n : Z) (bs : gmap nat send_state)
  : res (gmap nat send_state) :=
  match l with
  | [] => Ok bs
  | s :: l =>
      match bs !! hs_conn s with
      | None => Fault UseAfterFree
      | Some b => send_to_sessions l f n (<[hs_conn s := send_multipart_frame f n b]> bs)
      end
  end.

(** The result has the frames whose reference is dropped. *)
Definition jpeg_next_frame (h : http) (i : nat) (bs : gmap nat send_state) (f : jpeg_frame)
  : res (http * gmap nat send_state * list nat) :=
  match http_loc_list h !! i with
  | None => Fault UseAfterFree
  | Some loc =>
      d0 ← rd (jf_d f) 0; d1 ← rd (jf_d f) 1; d2 ← rd (jf_d f) 2;
      if decide (d0 ≠ 255 ∨ d1 ≠ 216 ∨ d2 ≠ 255) then Ok (h, bs, [jf_id f]) else
      let old := match h_frame loc with Some g => [jf_id g] | None => [] end in
      d3 ← rd (jf_d f) 3;
      plain ← (if decide (d3 ≠ 224) then Ok true else
               d10 ← rd (jf_d f) 10;
               if decide (d10 ≠ 0) then Ok true else
               t ← cstr (jf_d f) 6; Ok (bool_decide (t ≠ $"JFIF")));
      let n := if plain : bool then jf_length f + 18 else jf_length f in
      let loc := mkHloc (h_path loc) (h_input loc) (Some f) n (h_sess_list loc) (streaming loc) in
      bs ← send_to_sessions (h_sess_list loc) f n bs;
      Ok (with_loc h i loc, bs, old)
  end.

(** ** Building a reply *)

(** A reply of 512 bytes with its status line and headers, [n] bytes of it used. *)
Record built (m : pmsg) (code : Z) (reason : list Z) (hs : list (list Z * list Z)) (n : Z) : Prop := {
  bu_holds : pm_holds m hs;
  bu_max : max_len m = 512;
  bu_len : msg_len m = n;
  bu_stat : ∃ rp, sl m = SlStat code rp ∧ str_at (msg m) (msg_len m) rp reason;
  bu_proto : str_at (msg m) (msg_len m) (proto_id m) $"HTTP/1.0" }.

Lemma built_reply heap code reason :
  length heap = 512%nat → Forall (λ x, x ≠ 0) reason → zlen reason < 100 →
  built (http_create_reply heap code reason) code reason [] (10 + zlen reason).
Proof.
  intros Hw Hr Hl. unfold http_create_reply.
  assert (pm_holds (new_pmsg heap) []) as H0.
  { split; [|done|done|constructor]. unfold max_len, zlen. simpl. lia. }
  assert (max_len (new_pmsg heap) = 512) as L0 by (unfold max_len, zlen; simpl; lia).
  pose proof (add_pmsg_string_spec _ _ $"HTTP/1.0" H0 ltac:(closed_nonzero)) as S1.
  destruct (add_pmsg_string (new_pmsg heap) $"HTTP/1.0") as [m1 [p1|]]; [|destruct S1 as [_ S1]; rewrite L0 in S1; vm_compute in S1; done].
  destruct S1 as (M1 & _ & A1 & X1 & N1 & _). change (zlen $"HTTP/1.0") with 8 in N1. change (msg_len (new_pmsg heap)) with 0 in N1.
  pose proof (add_pmsg_string_spec m1 [] reason M1 Hr) as S2.
  assert (str_at (msg (add_pmsg_string m1 reason).1) (msg_len (add_pmsg_string m1 reason).1) p1 $"HTTP/1.0") as K1 by (by apply (add_string_keeps m1 [])).
  destruct (add_pmsg_string m1 reason) as [m2 [p2|]]; [|destruct S2 as [_ S2]; lia].
  destruct S2 as ([Q1 Q2 Q3 Q4] & _ & A2 & X2 & N2 & _). cbn [fst default] in *. split; cbn [msg msg_len sl proto_id].
  - by split.
  - unfold max_len in *. cbn [msg]. congruence.
  - lia.
  - by exists p2.
  - done.
Qed.

Lemma built_header m code reason hs n name value :
  built m code reason hs n → Forall (λ x, x ≠ 0) name → Forall (λ x, x ≠ 0) value → zlen hs < MAX_FIELDS →
  n + zlen name + zlen value + 2 ≤ 512 →
  built (add_header m name value).1 code reason (hs ++ [(name, value)]) (n + zlen name + zlen value + 2).
Proof.
  intros [Hm Hx Hl (rp & Hs & Hr) Hp] Hn Hv Hc Hroom. pose proof (add_header_spec m hs name value Hm Hn Hv) as HA.
  pose proof (add_header_keeps m hs name value Hm Hn) as HK.
  destruct (add_header m name value) as [m' ok]. cbn [fst] in *. destruct HA as (H1 & H2 & H3 & H4). destruct HK as (K1 & K2 & K3).
  assert (ok = true) as -> by (apply H2; lia). specialize (H4 eq_refl).
  split; [done|congruence|lia| |by rewrite K3; apply K1]. exists rp. rewrite K2. split; [done|by apply K1].
Qed.

(** The next header of a reply whose headers are constants. *)
Ltac with_header B name value B' :=
  pose proof (built_header _ _ _ _ _ name value B ltac:(closed_nonzero) ltac:(closed_nonzero)
    ltac:(vm_compute; reflexivity) ltac:(vm_compute; discriminate)) as B'.

(** A reply that is built and sent. *)
Lemma send_built b q m code reason hs n len :
  queue_of b q → built m code reason hs n → 100 ≤ code ≤ 999 → len < 2147483648 →
  let text := response_text $"HTTP/1.0" code reason hs len in
  zlen q + zlen text + Z.max 0 len < Z.of_nat (length (send_buf b)) →
  ∃ b', tcp_send_pmsg b m len = Ok (b', 0) ∧ queue_of b' (q ++ text) ∧
    length (send_buf b') = length (send_buf b) ∧ drop_after b' = drop_after b.
Proof.
  intros Hq [Hm Hx _ (rp & Hs & Hr) Hp] Hc Hl text Hroom.
  destruct (tcp_send_reply b q m hs _ code rp reason len Hq Hm ltac:(lia) Hs Hp Hr Hc Hl) as (b' & ret & E & _ & R1 & _ & R2).
  assert (ret = 0) as -> by (by apply R1). exists b'. split; [done|]. split; [by apply R2|]. by eapply tcp_send_keeps.
Qed.

(** ** Sending a frame *)

Lemma send_data_fits b q d :
  queue_of b q → zlen q + zlen d < Z.of_nat (length (send_buf b)) →
  queue_of (send_data b d).1 (q ++ d) ∧ length (send_buf (send_data b d).1) = length (send_buf b) ∧
  drop_after (send_data b d).1 = drop_after b.
Proof.
  intros Hq Hl. split; [|apply send_data_keeps]. pose proof (send_data_queue b q d Hq) as HS.
  destruct (send_data b d) as [b' ret]. destruct HS as [_ HS]. rewrite decide_True in HS by (unfold zlen in Hl; lia). apply HS.
Qed.

(** The image a client gets: the frame, or the frame with a JFIF segment behind
    its first marker. *)
Definition image (f : jpeg_frame) (n : Z) : list Z :=
  if decide (jf_length f < n) then add_jfif ++ slice (jf_d f) 2 (jf_length f - 2) else slice (jf_d f) 0 (jf_length f).

(** A frame and the length announced for it, as [jpeg_next_frame] sets them. *)
Record image_ok (f : jpeg_frame) (n : Z) : Prop := {
  io_len : 2 ≤ jf_length f ≤ zlen (jf_d f);
  io_n : n = jf_length f ∨ n = jf_length f + 18 }.

Lemma image_length f n : image_ok f n → zlen (image f n) = n.
Proof.
  intros [Hl Hn]. unfold image. case_decide; [rewrite zlen_app; change (zlen add_jfif) with 20|]; rewrite zlen_slice; lia.
Qed.

Lemma send_frame_queue f n b q :
  image_ok f n → queue_of b q → zlen q + n < Z.of_nat (length (send_buf b)) →
  queue_of (send_frame_with_jfif f n b) (q ++ image f n) ∧ length (send_buf (send_frame_with_jfif f n b)) = length (send_buf b) ∧
  drop_after (send_frame_with_jfif f n b) = drop_after b.
Proof.
  intros Hi Hq Hl. pose proof (image_length f n Hi) as Hz. unfold send_frame_with_jfif, image in *. case_decide.
  - rewrite zlen_app in Hz. change (zlen add_jfif) with 20 in Hz. pose proof (zlen_nonneg (slice (jf_d f) 2 (jf_length f - 2))).
    destruct (send_data_fits b q add_jfif Hq) as (H1 & H2 & H3); [change (zlen add_jfif) with 20; lia|].
    destruct (send_data_fits _ _ (slice (jf_d f) 2 (jf_length f - 2)) H1) as (K1 & K2 & K3).
    { rewrite zlen_app, H2. change (zlen add_jfif) with 20. lia. }
    rewrite app_assoc. split; [done|]. split; congruence.
  - apply send_data_fits; [done|lia].
Qed.

(** One part of the multipart stream. *)
Definition part (f : jpeg_frame) (n : Z) : list Z := multipart_headers n ++ image f n.

Lemma send_multipart_queue f n b q :
  image_ok f n → queue_of b q →
  length (send_buf (send_multipart_frame f n b)) = length (send_buf b) ∧
  queue_of (send_multipart_frame f n b)
    (if decide (zlen q + zlen (part f n) < Z.of_nat (length (send_buf b))) then q ++ part f n else q).
Proof.
  intros Hi Hq. unfold send_multipart_frame, part. rewrite (avail_queue b q Hq), zlen_app, (image_length f n Hi).
  pose proof (zlen_nonneg (multipart_headers n)). pose proof (qo_len _ _ Hq). set (hs := multipart_headers n) in *. assert (0 ≤ n) by (destruct Hi; lia).
  destruct (decide (zlen q + (zlen hs + n) < Z.of_nat (length (send_buf b)))) as [E|E].
  - rewrite decide_False by (unfold zlen in *; lia). destruct (send_data_fits b q hs Hq) as (J1 & J2 & _); [lia|].
    destruct (send_frame_queue f n _ _ Hi J1) as (K1 & K2 & _); [rewrite zlen_app, J2; lia|]. split; [congruence|]. by rewrite app_assoc.
  - rewrite decide_True by (unfold zlen in *; lia). done.
Qed.

(** ** A new frame *)

(** A file [jpeg_next_frame] accepts, and whether it has a JFIF segment. *)
Record jpeg_ok (f : jpeg_frame) : Prop := {
  jo_soi : take 3 (jf_d f) = [255; 216; 255];
  jo_len : 11 ≤ jf_length f ≤ zlen (jf_d f) }.

Definition has_jfif (f : jpeg_frame) : bool :=
  bool_decide (jf_d f !! 3%nat = Some 224 ∧ slice (jf_d f) 6 5 = $"JFIF" ++ [0]).

Definition announced (f : jpeg_frame) : Z := if has_jfif f then jf_length f else jf_length f + 18.

Lemma announced_ok f : jpeg_ok f → image_ok f (announced f).
Proof. intros [_ H]. split; [lia|]. unfold announced. destruct (has_jfif f); [by left|by right]. Qed.

(** The queues of a group of connections after a part. *)
Definition gets_part (f : jpeg_frame) (b b' : send_state) : Prop :=
  length (send_buf b') = length (send_buf b) ∧ ∀ q, queue_of b q →
  queue_of b' (if decide (zlen q + zlen (part f (announced f)) < Z.of_nat (length (send_buf b))) then q ++ part f (announced f) else q).

Lemma send_to_sessions_ok l f bs :
  jpeg_ok f → NoDup (hs_conn <$> l) → Forall (λ s, ∃ b q, bs !! hs_conn s = Some b ∧ queue_of b q) l →
  ∃ bs', send_to_sessions l f (announced f) bs = Ok bs' ∧
    (∀ s b, s ∈ l → bs !! hs_conn s = Some b → ∃ b', bs' !! hs_conn s = Some b' ∧ gets_part f b b') ∧
    ∀ c, c ∉ hs_conn <$> l → bs' !! c = bs !! c.
Proof.
  intros Hf. revert bs. induction l as [|s l IH]; intros bs Hnd Hl; cbn [send_to_sessions].
  { exists bs. split_and!; [done|intros s b H; by apply not_elem_of_nil in H|done]. }
  rewrite fmap_cons, NoDup_cons in Hnd. destruct Hnd as [Hs Hnd]. apply Forall_cons in Hl as [(b & q & Hb & Hq) Hl]. rewrite Hb.
  set (b1 := send_multipart_frame f (announced f) b).
  assert (∀ s', s' ∈ l → hs_conn s' ≠ hs_conn s) as HN.
  { intros s' Hin E. apply Hs. rewrite <- E. by apply list_elem_of_fmap_2. }
  destruct (IH (<[hs_conn s := b1]> bs)) as (bs' & E & H1 & H2); [done| |].
  { apply Forall_forall. intros s' Hin. rewrite lookup_insert_ne by (by apply not_eq_sym, HN). by apply (proj1 (Forall_forall _ _) Hl). }
  exists bs'. split; [done|]. split.
  - intros s' b' [->|Hin]%elem_of_cons Hb'.
    + rewrite Hb in Hb'. injection Hb' as <-. exists b1. split; [rewrite H2 by done; apply lookup_insert_eq|].
      split; [by eapply send_multipart_queue; [apply announced_ok|]|]. intros q' Hq'. by apply send_multipart_queue; [apply announced_ok|].
    + apply H1; [done|]. by rewrite lookup_insert_ne by (by apply not_eq_sym, HN).
  - intros c [Hc1 Hc2]%not_elem_of_cons. rewrite H2 by done. by rewrite lookup_insert_ne.
Qed.

Lemma soi_bytes f : jpeg_ok f → rd (jf_d f) 0 = Ok 255 ∧ rd (jf_d f) 1 = Ok 216 ∧ rd (jf_d f) 2 = Ok 255.
Proof. intros [H _]. unfold rd. destruct (jf_d f) as [|a [|b [|c d]]]; try done. injection H as -> -> ->. done. Qed.

(** The test of [jpeg_next_frame]. *)
Lemma jfif_test f :
  jpeg_ok f →
  ∃ d3, rd (jf_d f) 3 = Ok d3 ∧
  (if decide (d3 ≠ 224) then Ok true else
   d10 ← rd (jf_d f) 10;
   if decide (d10 ≠ 0) then Ok true else t ← cstr (jf_d f) 6; Ok (bool_decide (t ≠ $"JFIF"))) = Ok (negb (has_jfif f)).
Proof.
  intros [H0 Hl]. destruct (rd_ok (jf_d f) 3) as (d3 & E3 & L3); [lia|]. destruct (rd_ok (jf_d f) 10) as (d10 & E10 & L10); [lia|].
  exists d3. split; [done|]. change (Z.to_nat 3) with 3%nat in L3. change (Z.to_nat 10) with 10%nat in L10. unfold has_jfif.
  destruct (decide (d3 ≠ 224)) as [N3|N3].
  { rewrite bool_decide_eq_false_2; [done|]. intros [E _]. congruence. }
  apply dec_stable in N3 as ->. rewrite E10, res_bind_ok. change (slice (jf_d f) 6 5) with (take 5 (drop 6 (jf_d f))).
  assert (drop 6 (jf_d f) !! 4%nat = Some d10) as L4 by (by rewrite lookup_drop). unfold cstr. change (Z.to_nat 6) with 6%nat.
  destruct (drop 6 (jf_d f)) as [|a [|b [|c [|d [|e r]]]]]; try done. injection L4 as ->. cbn [take]. destruct (decide (d10 ≠ 0)) as [N|N].
  { rewrite bool_decide_eq_false_2; [done|]. intros [_ E]. injection E as -> -> -> ->. done. }
  apply dec_stable in N as ->. pose proof (zlen_nonneg r). rewrite !zlen_cons.
  rewrite L3. cbn [span_len]. destruct (Z.eqb_spec a 0), (Z.eqb_spec b 0), (Z.eqb_spec c 0), (Z.eqb_spec d 0); cbn [negb Z.eqb];
    rewrite decide_True by lia; rewrite res_bind_ok; f_equal;
    (destruct (decide ([a; b; c; d] = $"JFIF")) as [Ej|Ej];
     [injection Ej as -> -> -> ->; try done|
      rewrite (bool_decide_eq_false_2 (_ ∧ _)) by (intros [_ E]; apply Ej; injection E as -> -> -> ->; done);
      apply bool_decide_eq_true_2; cbn; intros E; try discriminate E; try (apply Ej; injection E as -> -> -> ->; done)]).
Qed.

Lemma next_frame_eq h i bs f loc :
  jpeg_ok f → http_loc_list h !! i = Some loc →
  jpeg_next_frame h i bs f =
    bs' ← send_to_sessions (h_sess_list loc) f (announced f) bs;
    Ok (with_loc h i (mkHloc (h_path loc) (h_input loc) (Some f) (announced f) (h_sess_list loc) (streaming loc)), bs',
        match h_frame loc with Some g => [jf_id g] | None => [] end).
Proof.
  intros Hf Hi. unfold jpeg_next_frame. rewrite Hi. destruct (soi_bytes f Hf) as (-> & -> & ->). do 3 rewrite res_bind_ok.
  rewrite decide_False by lia. destruct (jfif_test f Hf) as (d3 & -> & Ht). rewrite res_bind_ok, Ht, res_bind_ok.
  unfold announced. by destruct (has_jfif f).
Qed.

(** ** Answering a GET *)

(** The request names the path of location [i], and no location before it has a
    path that the request starts with. *)
Record names_location (l : list http_location) (i : nat) (loc : http_location) (p : list Z) (req : pmsg) : Prop := {
  nl_loc : l !! i = Some loc;
  nl_path : cstr (h_path loc) 0 = Ok p;
  nl_shape : ∃ c, last p = Some c ∧ c ≠ 47;
  nl_first : Forall (λ x, ∃ q, cstr (h_path x) 0 = Ok q ∧ take (length q) p ≠ q) (take i l);
  nl_method : ∃ method, req_method req = Ok method ∧ strcaseeq method $"GET" = true;
  nl_uri : req_uri req = Ok p }.

Lemma node_find_named l k i loc p :
  l !! i = Some loc → cstr (h_path loc) 0 = Ok p →
  Forall (λ x, ∃ q, cstr (h_path x) 0 = Ok q ∧ take (length q) p ≠ q) (take i l) →
  node_find_location l k p (zlen p) = Ok (Some (k + i)%nat).
Proof.
  intros Hi Hp. revert k i Hi. induction l as [|x l IH]; intros k i Hi HF; [done|]. cbn [node_find_location]. destruct i as [|i].
  - injection Hi as ->. rewrite Hp, res_bind_ok, firstn_all, bool_decide_eq_true_2 by done.
    destruct (cstr_end _ _ _ Hp) as (_ & _ & E & _). rewrite Z.add_0_l in E. rewrite E, res_bind_ok. rewrite decide_True by (by right). do 2 f_equal. lia.
  - cbn [take] in HF. apply Forall_cons in HF as [(q & Hq & N) HF]. rewrite Hq, res_bind_ok, bool_decide_eq_false_2 by done.
    rewrite (IH (S k) i) by done. do 2 f_equal. lia.
Qed.

Lemma find_named l i loc p req : names_location l i loc p req → find_http_location l req = Ok (Some i).
Proof.
  intros [Hi Hp (c & Hc & N) HF _ Hu]. unfold find_http_location, req_uri in *. destruct (sl req) as [mo uo|]; [|done].
  rewrite Hu, res_bind_ok. destruct (cstr_end _ _ _ Hu) as (_ & _ & _ & Hr). assert (0 < zlen p) by (destruct p; [done|rewrite zlen_cons; pose proof (zlen_nonneg p); lia]).
  replace (uo + zlen p - 1) with (uo + (zlen p - 1)) by lia. rewrite Hr by lia. pose proof (rd_last [] p c Hc) as E. simpl in E.
  rewrite E, res_bind_ok. rewrite decide_False by done. by apply (node_find_named l 0 i loc p).
Qed.

Definition image_headers : list (list Z * list Z) :=
  [($"Expires", $"0"); ($"Pragma", $"no-cache"); ($"Cache-Control", $"no-cache"); ($"Connection", $"close"); ($"Content-Type", $"image/jpeg")].
Definition stream_headers : list (list Z * list Z) :=
  [($"Expires", $"0"); ($"Pragma", $"no-cache"); ($"Cache-Control", $"no-cache");
   ($"Content-Type", $"multipart/x-mixed-replace;boundary=" ++ [34] ++ $"boundary" ++ [34])].

Lemma common_reply heap :
  length heap = 512%nat →
  built (add_header (add_header (add_header (http_create_reply heap 200 $"OK") $"Expires" $"0").1 $"Pragma" $"no-cache").1
    $"Cache-Control" $"no-cache").1 200 $"OK" (take 3 image_headers) 61.
Proof.
  intros Hh. pose proof (built_reply heap 200 $"OK" Hh ltac:(closed_nonzero) ltac:(vm_compute; reflexivity)) as H0.
  with_header H0 $"Expires" $"0" H1.
  with_header H1 $"Pragma" $"no-cache" H2.
  with_header H2 $"Cache-Control" $"no-cache" H3.
  exact H3.
Qed.

Lemma text_length hs len :
  0 ≤ len < 2147483648 → zlen (response_text $"HTTP/1.0" 200 $"OK" hs len) ≤ hdrs_size hs + 2 * zlen hs + 47.
Proof.
  intros Hl. unfold response_text. rewrite decide_True by lia. destruct (fmt_d_digits len) as (_ & _ & _ & Hk); [lia|].
  specialize (Hk 10%nat ltac:(lia) ltac:(simpl; lia)). rewrite !zlen_app, hdr_text_size.
  change (zlen (fmt_d 200)) with 3. unfold zlen. simpl. lia.
Qed.

(** A GET of a location that holds a frame is answered, when the send buffer
    has the room the code asks for, with one reply whose Content-Length is the
    length of its body, and the body is the frame as a JFIF file: the frame
    itself, or the frame with the segment put behind its first marker. The
    connection closes after it. *)
Lemma http_image_served h c b q heap req i loc p f n :
  names_location (http_loc_list h) i loc p req → streaming loc = false → length heap = 512%nat →
  h_frame loc = Some f → length_with_jfif loc = n → image_ok f n → n < 2147483648 →
  queue_of b q → zlen q + jf_length f + 400 < Z.of_nat (length (send_buf b)) →
  ∃ b', http_handle_msg h c b heap req = Ok (h, b') ∧ drop_after b' = true ∧
    queue_of b' (q ++ response_text $"HTTP/1.0" 200 $"OK" image_headers n ++ image f n) ∧ zlen (image f n) = n.
Proof.
  intros Hn Hs Hh Hf Ej Hi Hlt Hq Hroom. pose proof Hn as [Hloc Hp _ _ (method & Hm & Hg) Hu]. unfold http_handle_msg.
  rewrite Hm, res_bind_ok, Hg. unfold handle_GET. rewrite (find_named _ _ _ _ _ Hn), res_bind_ok, Hloc, Hu, res_bind_ok, Hp, res_bind_ok.
  rewrite (decide_False (P := zlen p < zlen p)) by lia. rewrite Hf. rewrite (avail_queue b q Hq).
  pose proof Hi as [Hi1 Hi2]. pose proof (zlen_nonneg q).
  rewrite (decide_False (P := Z.of_nat _ < _)) by (unfold zlen in *; lia). rewrite Hs, Ej.
  pose proof (common_reply heap Hh) as B0. with_header B0 $"Connection" $"close" B1.
  with_header B1 $"Content-Type" $"image/jpeg" B2.
  cbv zeta. match goal with |- context [tcp_send_pmsg _ ?m n] => set (m2 := m) in * end.
  assert (queue_of (set_drop_after b) q) as Hq' by (by destruct Hq).
  pose proof (text_length image_headers n ltac:(lia)) as Ht. change (hdrs_size image_headers + 2 * zlen image_headers + 47) with 147 in Ht.
  change ((take 3 image_headers ++ _) ++ _) with image_headers in B2.
  destruct (send_built (set_drop_after b) q m2 200 $"OK" image_headers _ n Hq' B2 ltac:(lia) Hlt) as (b1 & -> & Q1 & L1 & D1); [cbn [set_drop_after send_buf]; lia|].
  rewrite res_bind_ok. rewrite (decide_True (P := 0 ≤ 0)) by lia. cbn [set_drop_after send_buf] in L1.
  destruct (send_frame_queue f n b1 _ Hi Q1) as (Q2 & _ & D2); [rewrite zlen_app, L1; lia|].
  eexists. split; [reflexivity|]. split; [rewrite D2, D1; done|]. split; [by rewrite app_assoc|by apply image_length].
Qed.

(** A new JPEG frame goes to every client of a multipart stream as one part,
    headers, Content-Length and image, that is queued whole or, when the client
    is behind, not at all; nobody else's connection changes. The location holds
    the new frame, a GET can serve it, and the frame before it is released. *)
Lemma frame_reaches_listeners h i loc bs f :
  http_loc_list h !! i = Some loc → jpeg_ok f → NoDup (hs_conn <$> h_sess_list loc) →
  Forall (λ s, ∃ b q, bs !! hs_conn s = Some b ∧ queue_of b q) (h_sess_list loc) →
  ∃ h' bs' loc', jpeg_next_frame h i bs f = Ok (h', bs', match h_frame loc with Some g => [jf_id g] | None => [] end) ∧
    http_loc_list h' !! i = Some loc' ∧ h_frame loc' = Some f ∧ image_ok f (length_with_jfif loc') ∧ h_sess_list loc' = h_sess_list loc ∧
    (∀ s b q, s ∈ h_sess_list loc → bs !! hs_conn s = Some b → queue_of b q →
      let p := part f (length_with_jfif loc') in
      ∃ b', bs' !! hs_conn s = Some b' ∧
        queue_of b' (if decide (zlen q + zlen p < Z.of_nat (length (send_buf b))) then q ++ p else q)) ∧
    ∀ c, c ∉ hs_conn <$> h_sess_list loc → bs' !! c = bs !! c.
Proof.
  intros Hi Hf Hnd Hl. destruct (send_to_sessions_ok (h_sess_list loc) f bs Hf Hnd Hl) as (bs' & E & H1 & H2).
  eexists _, bs', _. split; [rewrite (next_frame_eq h i bs f loc Hf Hi), E, res_bind_ok; reflexivity|]. cbn [with_loc http_loc_list].
  split; [apply list_lookup_insert_eq; by eapply lookup_lt_Some|]. cbn [h_frame length_with_jfif h_sess_list].
  split; [done|]. split; [by apply announced_ok|]. split; [done|]. split; [|done].
  intros s b q Hs Hb Hq. destruct (H1 s b Hs Hb) as (b' & Hb' & _ & HQ). exists b'. split; [done|]. by apply HQ.
Qed.

(** A GET of a multipart stream. *)
Lemma stream_get h c b q heap req i loc p f :
  names_location (http_loc_list h) i loc p req → streaming loc = true → length heap = 512%nat → h_frame loc = Some f →
  queue_of b q → zlen q + jf_length f + 400 < Z.of_nat (length (send_buf b)) → 0 ≤ jf_length f →
  ∃ b', http_handle_msg h c b heap req = Ok (add_http_stream_session h i c, b').
Proof.
  intros Hn Hs Hh Hf Hq Hroom H0. pose proof Hn as [Hloc Hp _ _ (method & Hm & Hg) Hu]. unfold http_handle_msg.
  rewrite Hm, res_bind_ok, Hg. unfold handle_GET. rewrite (find_named _ _ _ _ _ Hn), res_bind_ok, Hloc, Hu, res_bind_ok, Hp, res_bind_ok.
  rewrite (decide_False (P := zlen p < zlen p)) by lia. rewrite Hf, (avail_queue b q Hq). pose proof (zlen_nonneg q).
  rewrite (decide_False (P := Z.of_nat _ < _)) by (unfold zlen in *; lia). rewrite Hs. cbv zeta.
  pose proof (common_reply heap Hh) as B0. with_header B0 $"Content-Type" ($"multipart/x-mixed-replace;boundary=" ++ [34] ++ $"boundary" ++ [34]) B1.
  match goal with |- context [tcp_send_pmsg _ ?m (-1)] => set (m2 := m) in * end. change (take 3 image_headers ++ _) with stream_headers in B1.
  destruct (send_built b q m2 200 $"OK" stream_headers _ (-1) Hq B1 ltac:(lia) ltac:(lia)) as (b1 & -> & _).
  { assert (zlen (response_text $"HTTP/1.0" 200 $"OK" stream_headers (-1)) < 300) by (vm_compute; reflexivity). lia. }
  rewrite res_bind_ok. by eexists.
Qed.

Lemma names_added l i loc p req x :
  names_location l i loc p req → names_location (<[i := with_sess loc x]> l) i (with_sess loc x) p req.
Proof.
  intros [H1 H2 H3 H4 H5 H6]. split; try done; [by apply list_lookup_insert_eq, (lookup_lt_Some _ _ loc)|]. by rewrite take_insert_ge by lia.
Qed.

(** A client that sends a second GET for a multipart stream on its
    connection gets a second session, and the connection forgets the first. When
    it then disconnects, the first session stays in the list of the location,
    and the next frame is sent to a connection that was freed. *)
Lemma second_get_dangles h c b1 q1 b2 q2 heap req i loc p f :
  names_location (http_loc_list h) i loc p req → streaming loc = true → length heap = 512%nat → h_frame loc = Some f → 0 ≤ jf_length f →
  queue_of b1 q1 → zlen q1 + jf_length f + 400 < Z.of_nat (length (send_buf b1)) →
  queue_of b2 q2 → zlen q2 + jf_length f + 400 < Z.of_nat (length (send_buf b2)) →
  ∃ h1 b1' h2 b2' h3, http_handle_msg h c b1 heap req = Ok (h1, b1') ∧ http_handle_msg h1 c b2 heap req = Ok (h2, b2') ∧
    http_conn_disconnect h2 c = Ok h3 ∧ h_proto h3 !! c = None ∧
    ∀ g bs, jpeg_ok g → bs !! c = None → jpeg_next_frame h3 i bs g = Fault UseAfterFree.
Proof.
  intros Hn Hs Hh Hf H0 Hq1 Hr1 Hq2 Hr2. pose proof (nl_loc _ _ _ _ _ Hn) as Hi.
  destruct (stream_get h c b1 q1 heap req i loc p f Hn Hs Hh Hf Hq1 Hr1 H0) as (b1' & E1).
  set (loc1 := with_sess loc (mkHs (h_next h) c :: h_sess_list loc)).
  assert (add_http_stream_session h i c = mkHttp (<[i := loc1]> (http_loc_list h)) (<[c := (i, h_next h)]> (h_proto h)) (S (h_next h))) as A1.
  { unfold add_http_stream_session. by rewrite Hi. }
  rewrite A1 in E1. set (h1 := mkHttp _ _ _) in E1. pose proof (names_added _ _ _ _ _ (mkHs (h_next h) c :: h_sess_list loc) Hn) as Hn1.
  destruct (stream_get h1 c b2 q2 heap req i loc1 p f Hn1 Hs Hh Hf Hq2 Hr2 H0) as (b2' & E2).
  exists h1, b1'. eexists _, b2', _. split; [done|]. split; [exact E2|]. unfold add_http_stream_session. rewrite (nl_loc _ _ _ _ _ Hn1 : http_loc_list h1 !! i = Some loc1).
  unfold http_conn_disconnect. cbn [h_proto http_loc_list]. rewrite lookup_insert_eq.
  assert (i < length (http_loc_list h1))%nat by (apply lookup_lt_Some in Hi; cbn; by rewrite length_insert).
  rewrite list_lookup_insert_eq by done. split; [reflexivity|]. split; [cbn; apply lookup_delete_eq|]. intros g bs Hg Hc.
  erewrite next_frame_eq; [|done|cbn [http_loc_list]; apply list_lookup_insert_eq; by rewrite length_insert].
  cbn [with_sess h_sess_list loc1 hs_id]. rewrite filter_cons_False by (cbn; lia). rewrite filter_cons_True by (cbn; lia).
  cbn [send_to_sessions hs_conn]. by rewrite Hc.
Qed.

(** ** A location with one picture *)

Definition demo_frame : jpeg_frame := mkJf 7 [255; 216; 255; 219; 1; 2; 3; 4; 5; 6; 7; 8] 12.
Definition demo_jfif : jpeg_frame := mkJf 8 [255; 216; 255; 224; 0; 16; 74; 70; 73; 70; 0; 8; 9] 13.
Definition demo_loc (mode : bool) (l : list http_stream_session) : http_location :=
  mkHloc (blit (replicate 256 1) 0 ($"/img" ++ [0])) true (Some demo_frame) 30 l mode.
Definition demo_http (mode : bool) : http := mkHttp [demo_loc mode []] ∅ 0.
Definition demo_get : pmsg := mkPmsg ($"GET" ++ [0] ++ $"/img" ++ [0]) 9 0 (SlReq 0 4) [].
Definition demo_send : send_state := mkSend (replicate 1000 0) 990 990 false false.

Lemma demo_send_queue : queue_of demo_send [].
Proof. split; [vm_compute; lia|vm_compute; reflexivity|vm_compute; lia|]. split; [vm_compute; lia|]. intros i x H. discriminate H. Defined.

Lemma demo_names mode : names_location (http_loc_list (demo_http mode)) 0 (demo_loc mode []) $"/img" demo_get.
Proof.
  split; [reflexivity|vm_compute; reflexivity|exists 103; split; [reflexivity|discriminate]|constructor| |vm_compute; reflexivity].
  exists $"GET". split; vm_compute; reflexivity.
Defined.

Lemma http_image_served_witness :
  ∃ b', http_handle_msg (demo_http false) 3 demo_send (replicate 512 0) demo_get = Ok (demo_http false, b') ∧ drop_after b' = true ∧
    queue_of b' (response_text $"HTTP/1.0" 200 $"OK" image_headers 30 ++ add_jfif ++ [255; 219; 1; 2; 3; 4; 5; 6; 7; 8]).
Proof.
  destruct (http_image_served (demo_http false) 3 demo_send [] (replicate 512 0) demo_get 0 (demo_loc false []) $"/img" demo_frame 30)
    as (b' & H1 & H2 & H3 & _).
  - apply demo_names.
  - reflexivity.
  - reflexivity.
  - reflexivity.
  - reflexivity.
  - split; [vm_compute; split; discriminate|right; reflexivity].
  - lia.
  - apply demo_send_queue.
  - vm_compute. reflexivity.
  - exists b'. split; [exact H1|]. split; [exact H2|]. exact H3.
Defined.

Lemma frame_reaches_listeners_witness :
  ∃ h' bs', jpeg_next_frame (mkHttp [demo_loc true [mkHs 1 5]] {[5%nat := (0%nat, 1%nat)]} 2) 0 {[5%nat := demo_send]} demo_jfif =
    Ok (h', bs', [7%nat]) ∧ ∃ b', bs' !! 5%nat = Some b' ∧ queue_of b' (multipart_headers 13 ++ jf_d demo_jfif).
Proof.
  destruct (frame_reaches_listeners (mkHttp [demo_loc true [mkHs 1 5]] {[5%nat := (0%nat, 1%nat)]} 2) 0 (demo_loc true [mkHs 1 5])
    {[5%nat := demo_send]} demo_jfif) as (h' & bs' & loc' & H1 & H2 & _ & _ & _ & H6 & _).
  - reflexivity.
  - split; [reflexivity|vm_compute; split; discriminate].
  - apply NoDup_singleton.
  - apply Forall_singleton. exists demo_send, []. split; [reflexivity|apply demo_send_queue].
  - exists h', bs'. split; [exact H1|]. destruct (H6 (mkHs 1 5) demo_send []) as (b' & E1 & E2).
    + apply list_elem_of_here.
    + reflexivity.
    + apply demo_send_queue.
    + exists b'. split; [exact E1|]. vm_compute in H1. injection H1 as <- _. injection H2 as <-. vm_compute in E2 |- *. exact E2.
Defined.

Lemma second_get_dangles_witness :
  ∃ h1 b1' h2 b2' h3, http_handle_msg (demo_http true) 5 demo_send (replicate 512 0) demo_get = Ok (h1, b1') ∧
    http_handle_msg h1 5 demo_send (replicate 512 0) demo_get = Ok (h2, b2') ∧ http_conn_disconnect h2 5 = Ok h3 ∧
    jpeg_next_frame h3 0 ∅ demo_jfif = Fault UseAfterFree.
Proof.
  destruct (second_get_dangles (demo_http true) 5 demo_send [] demo_send [] (replicate 512 0) demo_get 0 (demo_loc true []) $"/img" demo_frame)
    as (h1 & b1' & h2 & b2' & h3 & H1 & H2 & H3 & _ & H5).
  - apply demo_names.
  - reflexivity.
  - reflexivity.
  - reflexivity.
  - vm_compute. discriminate.
  - apply demo_send_queue.
  - vm_compute. reflexivity.
  - apply demo_send_queue.
  - vm_compute. reflexivity.
  - exists h1, b1', h2, b2', h3. split; [exact H1|]. split; [exact H2|]. split; [exact H3|]. apply H5; [|reflexivity].
    split; [reflexivity|vm_compute; split; discriminate].
Defined.
