(* ===== verification/Rtsp.v ===== *)
(** * Rtsp: locations, sessions, interleaved channels and the request handlers

    Models rtsp.c of src/sources/applications/RTSPServer/src, with the parts of
    rtp.c ([del_rtp_endpoint], [connect_interleaved_endpoint]) and tcp.c
    ([drop_conn]) that change the same state. The server is one record: the
    locations, the RTSP sessions, the live sources, the connections. A pointer
    to a live session is the number of its source and its number there; a
    pointer to an endpoint adds the track; a pointer that no longer points to an
    object faults when the code follows it. *)

From stdpp Require Import prelude gmap strings pretty.
From S2P Require Import Prelude Rtp Pmsg SendBuf HttpAuth Live.

Local Open Scope c_scope.

Definition MAX_INTERLEAVE_CHANNELS : nat := 8.

(** ** Data *)

Definition sptr : Type := nat * nat.
Definition eptr : Type := sptr * nat.

(** [ichan[i].ep] and [ichan[i].rtcp]. *)
Definition ichan : Type := option (eptr * bool).

Record conn := mkConn { c_send : send_state; proto_state : option (list ichan) }.

Record rtsp_session := mkRs { rs_ptr : nat; rs_id : list Z; rs_sess : sptr }.

(** The character arrays, [path] of 256 bytes and the others of 128; [l_private]
    is the live source behind the location. *)
Record rtsp_location := mkLoc {
  l_path : list Z;
  l_realm : list Z;
  l_username : list Z;
  l_password : list Z;
  l_private : nat }.

Record server := mkServer {
  rtsp_loc_list : list rtsp_location;
  rs_list : list rtsp_session;
  sources : list live_source;
  conns : gmap nat conn;
  digest_secret : option (list Z);
  next_rs : nat }.

Definition with_rs (s : server) (l : list rtsp_session) (n : nat) : server :=
  mkServer (rtsp_loc_list s) l (sources s) (conns s) (digest_secret s) n.
Definition with_source (s : server) (i : nat) (x : live_source) : server :=
  mkServer (rtsp_loc_list s) (rs_list s) (<[i := x]> (sources s)) (conns s) (digest_secret s) (next_rs s).
Definition with_conns (s : server) (m : gmap nat conn) : server :=
  mkServer (rtsp_loc_list s) (rs_list s) (sources s) m (digest_secret s) (next_rs s).
Definition with_secret (s : server) (x : option (list Z)) : server :=
  mkServer (rtsp_loc_list s) (rs_list s) (sources s) (conns s) x (next_rs s).

(** What a request finds of the world: the bytes malloc gives for the reply, the
    clock, the random numbers of a nonce, of the digest secret and of a session
    id, the network and the text of our own address. *)
Record world := mkWorld {
  w_heap : list Z;
  w_now : Z;
  w_nonce : list Z;
  w_secret : list Z;
  w_id : list Z;
  w_net : net_env;
  w_range : port_range;
  w_port : Z;
  w_addr : list Z }.

(** ** Strings *)

Definition isspace (c : Z) : bool := bool_decide (c = 32 ∨ 9 ≤ c ≤ 13).

Fixpoint digits_of (l : list Z) (acc : Z) : Z * list Z :=
  match l with
  | c :: r => if isdigit c then digits_of r (acc * 10 + (c - 48)) else (acc, l)
  | [] => (acc, [])
  end.

(** [strtol(l, &end, 10)]: the value, at the width of a long on the target, and
    [end]; without digits [end] is the start. *)
Definition strtol (l : list Z) : Z * list Z :=
  let r := drop (Z.to_nat (span_len isspace l)) l in
  let '(neg, r) := match r with
                   | c :: r' => if decide (c = 45) then (true, r') else if decide (c = 43) then (false, r') else (false, r)
                   | [] => (false, r) end in
  match r with
  | c :: _ =>
      if isdigit c then
        let '(v, rest) := digits_of r 0 in
        (Z.max (-2147483648) (Z.min 2147483647 (if neg then - v else v)), rest)
      else (0, l)
  | [] => (0, l)
  end.

Fixpoint strrchr (l : list Z) (c : Z) : option (list Z) :=
  match l with
  | [] => None
  | x :: r => match strrchr r c with
              | Some s => Some s
              | None => if decide (x = c) then Some l else None
              end
  end.

Definition prefix_of (p l : list Z) : bool := bool_decide (take (length p) l = p).

Fixpoint strstr (l p : list Z) : option (list Z) :=
  if prefix_of p l then Some l else
  match l with
  | [] => None
  | _ :: r => strstr r p
  end.

(** ** Locations *)

Definition get_local_path (uri : list Z) : option (list Z) :=
  if strcaseprefix uri $"rtsp://" then Some (default $"/" (strchr (drop 7 uri) 47)) else None.

Fixpoint node_find_location (l : list rtsp_location) (path : list Z) (len : Z) : res (option rtsp_location) :=
  match l with
  | [] => Ok None
  | loc :: l =>
      p ← cstr (l_path loc) 0;
      if prefix_of p path then
        x ← rd (l_path loc) len;
        if decide (x = 47 ∨ x = 0) then Ok (Some loc) else node_find_location l path len
      else node_find_location l path len
  end.

(** The track a path names, -1 when none, and the length without it. *)
Definition path_track (path : list Z) : Z * Z :=
  match strrchr path 47 with
  | Some c =>
      if prefix_of $"/track" c then
        let '(v, rest) := strtol (drop 6 c) in
        (v, match rest with [] => zlen path - zlen c | _ => zlen path end)
      else (-1, zlen path)
  | None => (-1, zlen path)
  end.

(** [base] and [track] say whether the caller passes these pointers; [base] has
    256 bytes. The result is the location, the path in [base], the track. *)
Definition find_rtsp_location (l : list rtsp_location) (uri : list Z) (base track : bool)
  : res (option (rtsp_location * list Z * Z)) :=
  match get_local_path uri with
  | None => Ok None
  | Some path =>
      let '(t, len) := if track then path_track path else (-1, zlen path) in
      c ← (if decide (1 < len) then rd path (len - 1) else Ok 0);
      let len := if decide (1 < len ∧ c = 47) then len - 1 else len in
      if base && bool_decide (256 ≤ len) then Fault OutOfBounds else
      r ← node_find_location l path len;
      Ok (match r with Some loc => Some (loc, take (Z.to_nat len) path, t) | None => None end)
  end.

(** [strcpy] into an array. *)
Definition strcpy_to (a s : list Z) : res (list Z) :=
  if decide (zlen s + 1 ≤ zlen a) then Ok (blit a 0 (s ++ [0])) else Fault OutOfBounds.

(** [heap] is the memory of the new location; a null pointer is the empty
    string. *)
Definition new_rtsp_location (s : server) (heap : rtsp_location) (path realm username password : list Z)
    (private : nat) : res server :=
  p ← strcpy_to (l_path heap) path;
  r ← strcpy_to (l_realm heap) realm;
  u ← strcpy_to (l_username heap) username;
  w ← strcpy_to (l_password heap) password;
  Ok (mkServer (mkLoc p r u w private :: rtsp_loc_list s) (rs_list s) (sources s) (conns s) (digest_secret s) (next_rs s)).

(** ** Sessions and channels *)

Definition rtsp_session_close (s : server) (p : nat) : res server :=
  if decide (p ∈ (rs_ptr <$> rs_list s)) then Ok (with_rs s (filter (λ r, rs_ptr r ≠ p) (rs_list s)) (next_rs s))
  else Fault UseAfterFree.

Definition get_session (s : server) (id : option (list Z)) : option rtsp_session :=
  match id with
  | None => None
  | Some id => snd <$> list_find (λ r, rs_id r = id) (rs_list s)
  end.

(** The live session behind a pointer. *)
Definition deref (s : server) (p : sptr) : option live_session := sources s !! p.1 ≫= λ src, find_sess src p.2.

Definition get_ep (s : server) (e : eptr) : option endpoint := deref s e.1 ≫= λ ls, ep_of ls e.2.

Definition interleave_disconnect (s : server) (c chan : nat) : res server :=
  match conns s !! c with
  | None => Fault UseAfterFree
  | Some cn =>
      match proto_state cn with
      | None => Fault NullDeref
      | Some ch =>
          if decide (chan < length ch)%nat
          then Ok (with_conns s (<[c := mkConn (c_send cn) (Some (<[chan := None]> ch))]> (conns s)))
          else Fault OutOfBounds
      end
  end.

(** Of [del_rtp_endpoint], what concerns the connections. *)
Definition del_rtp_endpoint (s : server) (e : endpoint) : res server :=
  match e_trans e with
  | TransInter c rtp_chan rtcp_chan =>
      s ← interleave_disconnect s c rtp_chan;
      interleave_disconnect s c rtcp_chan
  | _ => Ok s
  end.

Fixpoint del_rtp_endpoints (s : server) (l : list endpoint) : res server :=
  match l with
  | [] => Ok s
  | e :: l => s ← del_rtp_endpoint s e; del_rtp_endpoints s l
  end.

(** [s->teardown(s, ep)]: [live_teardown], which deletes endpoints and, with the
    session, closes its RTSP session through [control_close]. *)
Definition session_teardown (s : server) (p : sptr) (ep : option nat) : res server :=
  match sources s !! p.1 with
  | None => Fault UseAfterFree
  | Some src =>
      match find_sess src p.2 with
      | None => Fault UseAfterFree
      | Some _ =>
          let '(src, dead, freed) := live_teardown src p.2 ep in
          s ← del_rtp_endpoints (with_source s p.1 src) dead;
          match freed ≫= ls_ctl with
          | Some rs => rtsp_session_close s rs
          | None => Ok s
          end
      end
  end.

(** [ep->session->teardown(ep->session, ep)] through a pointer to an endpoint. *)
Definition endpoint_teardown (s : server) (e : eptr) : res server :=
  match get_ep s e with
  | None => Fault UseAfterFree
  | Some _ => session_teardown s e.1 (Some e.2)
  end.

Definition chan_of (s : server) (c k : nat) : ichan :=
  match conns s !! c with
  | Some (mkConn _ (Some ch)) => mjoin (ch !! k)
  | _ => None
  end.

Fixpoint disconnect_loop (s : server) (c : nat) (ks : list nat) : res server :=
  match ks with
  | [] => Ok s
  | k :: ks =>
      s ← match chan_of s c k with
          | Some (e, false) => endpoint_teardown s e
          | _ => Ok s
          end;
      disconnect_loop s c ks
  end.
Definition rtsp_conn_disconnect (s : server) (c : nat) : res server :=
  disconnect_loop s c (seq 0 MAX_INTERLEAVE_CHANNELS).

(** [drop_conn]: the connection's state is freed after its sessions. *)
Definition drop_conn (s : server) (c : nat) : res server :=
  match conns s !! c with
  | None => Fault UseAfterFree
  | Some cn =>
      s ← (if decide (proto_state cn = None) then Ok s else rtsp_conn_disconnect s c);
      Ok (with_conns s (delete c (conns s)))
  end.

(** [interleave_recv] up to the parser of the RTCP packet, which is in [Rtcp] and
    always returns: the return value. *)
Definition interleave_recv (s : server) (c : nat) (chan : Z) : res Z :=
  match conns s !! c with
  | None => Fault UseAfterFree
  | Some cn =>
      if decide (8 ≤ chan) then Ok (-1) else
      match proto_state cn with
      | None => Fault NullDeref
      | Some ch =>
          match ch !! Z.to_nat chan with
          | None => Fault OutOfBounds
          | Some None => Ok (-1)
          | Some (Some (e, rtcp)) =>
              if (rtcp : bool) then match get_ep s e with Some _ => Ok 0 | None => Fault UseAfterFree end else Ok 0
          end
      end
  end.

(** ** Replies *)

Definition rtsp_create_reply (w : world) (req : pmsg) (code : Z) (reason : list Z) : res pmsg :=
  let '(m, p) := add_pmsg_string (new_pmsg (w_heap w)) $"RTSP/1.0" in
  let '(m, r) := add_pmsg_string m reason in
  '(m, _) ← copy_headers (mkPmsg (msg m) (msg_len m) (default (-1) p) (SlStat code (default (-1) r)) (fields m)) req $"CSeq";
  Ok m.

(** [tcp_send_pmsg(req->conn, resp, len)] and, when it succeeds, the body. *)
Definition send_reply (s : server) (c : nat) (m : pmsg) (len : Z) (body : list Z) : res server :=
  match conns s !! c with
  | None => Fault UseAfterFree
  | Some cn =>
      '(b, ret) ← tcp_send_pmsg (c_send cn) m len;
      let b := if decide (0 ≤ ret) then fst (send_data b body) else b in
      Ok (with_conns s (<[c := mkConn b (proto_state cn)]> (conns s)))
  end.

Definition rtsp_send_error (s : server) (c : nat) (w : world) (req : pmsg) (code : Z) (reason : list Z) : res server :=
  m ← rtsp_create_reply w req code reason;
  send_reply s c m (-1) [].

(** The boolean is whether the request may go on. *)
Definition rtsp_verify_auth (s : server) (c : nat) (w : world) (req : pmsg) (loc : rtsp_location) : res (server * bool) :=
  realm ← cstr (l_realm loc) 0;
  if decide (realm = []) then Ok (s, true) else
  username ← cstr (l_username loc) 0;
  password ← cstr (l_password loc) 0;
  ret ← check_digest_response (digest_secret s) (w_now w) req realm username password;
  if decide (0 < ret) then Ok (s, true) else
  m ← rtsp_create_reply w req 401 $"Unauthorized";
  let '(secret, m) := add_digest_challenge (digest_secret s) (w_now w) (w_nonce w) (w_secret w) m realm (bool_decide (ret = 0)) in
  s ← send_reply (with_secret s secret) c m (-1) [];
  Ok (s, false).

(** ** Requests *)

Definition handle_OPTIONS (s : server) (c : nat) (w : world) (req : pmsg) : res server :=
  m ← rtsp_create_reply w req 200 $"OK";
  send_reply s c (fst (add_header m $"Public" $"DESCRIBE, SETUP, TEARDOWN, PLAY, PAUSE")) (-1) [].

(** [loc->open(path, loc->private)]. *)
Definition open_session (s : server) (loc : rtsp_location) : res (option (server * sptr)) :=
  match sources s !! l_private loc with
  | None => Fault NullDeref
  | Some src =>
      Ok (match live_open src with
          | None => None
          | Some (src, sid) => Some (with_source s (l_private loc) src, (l_private loc, sid))
          end)
  end.

(** [sdp] has 8192 bytes, [hdr] 512. *)
Definition handle_DESCRIBE (s : server) (c : nat) (w : world) (req : pmsg) : res server :=
  uri ← req_uri req;
  r ← find_rtsp_location (rtsp_loc_list s) uri true false;
  match r with
  | None => rtsp_send_error s c w req 404 $"Not Found"
  | Some (loc, _, _) =>
      r ← open_session s loc;
      match r with
      | None => rtsp_send_error s c w req 404 $"Not Found"
      | Some (s, p) =>
          '(s, ok) ← rtsp_verify_auth s c w req loc;
          if negb ok then Ok s else
          match sources s !! p.1, deref s p with
          | Some src, Some ls =>
              '(n, sdp) ← live_get_sdp src ls (8192 - 2);
              s ← (if decide (0 < n) then
                     m ← rtsp_create_reply w req 200 $"OK";
                     if decide (512 ≤ zlen uri + 1) then Fault OutOfBounds else
                     let m := fst (add_header m $"Content-Base" (uri ++ $"/")) in
                     let m := fst (add_header m $"Content-Type" $"application/sdp") in
                     send_reply s c m (zlen sdp) sdp
                   else rtsp_send_error s c w req 404 $"Not Found");
              session_teardown s p None
          | _, _ => Fault UseAfterFree
          end
      end
  end.

(** The number behind [name=] in a Transport header; [None] for the return of -1. *)
Definition transport_number (p : list Z) (n : nat) : option Z :=
  match p !! n with
  | Some 61 =>
      let '(v, rest) := strtol (drop (S n) p) in
      if decide (rest = drop (S n) p) then None else Some v
  | _ => None
  end.

Definition update_ep (s : server) (p : sptr) (t : nat) (tr : ep_trans) : server :=
  match sources s !! p.1 with
  | None => s
  | Some src =>
      with_source s p.1 (update_sess src p.2 (λ ls, match ep_of ls t with
        | Some e => set_ep t (Some (mkEndpoint (e_payload e) (e_max_data_size e) tr)) ls
        | None => ls end))
  end.

(** The server with the endpoint connected and the text of the Transport header
    of the reply, whose four numbers fit in its 128 bytes. *)
Definition rtsp_udp_setup (s : server) (p : sptr) (track : nat) (w : world) (t : list Z) : option (server * list Z) :=
  match strstr t $"client_port" with
  | None => None
  | Some q =>
      match transport_number q 11 with
      | None => None
      | Some cport =>
          match connect_udp_endpoint (w_net w) (w_range w) (w_port w) with
          | UdpFailed _ => None
          | UdpPort port =>
              Some (update_ep s p track (TransUdp (w_addr w) port),
                $"RTP/AVP;unicast;client_port=" ++ fmt_d cport ++ $"-" ++ fmt_d (s32 (cport + 1))
                ++ $";server_port=" ++ fmt_d port ++ $"-" ++ fmt_d (port + 1))
          end
      end
  end.

Definition is_free (ch : list ichan) (k : nat) : bool := match ch !! k with Some None => true | _ => false end.

(** The channels: those the client asks for, when both exist and are free, or the
    first free even pair. *)
Definition interleave_chans (rc : option (list ichan)) (t : list Z) : option nat :=
  match strstr t $"interleaved" with
  | Some q =>
      match transport_number q 11 with
      | None => None
      | Some n =>
          if decide (n < 0 ∨ Z.of_nat MAX_INTERLEAVE_CHANNELS ≤ n + 1) then None else
          match rc with
          | None => Some (Z.to_nat n)
          | Some ch => if is_free ch (Z.to_nat n) && is_free ch (S (Z.to_nat n)) then Some (Z.to_nat n) else None
          end
      end
  | None =>
      match rc with
      | None => Some 0%nat
      | Some ch => snd <$> list_find (λ i, (is_free ch i && is_free ch (S i)) = true) [0; 2; 4; 6]%nat
      end
  end.

Definition rtsp_interleave_setup (s : server) (c : nat) (p : sptr) (track : nat) (t : list Z)
  : res (option (server * list Z)) :=
  match conns s !! c with
  | None => Fault UseAfterFree
  | Some cn =>
      match interleave_chans (proto_state cn) t with
      | None => Ok None
      | Some k =>
          let ch := default (replicate MAX_INTERLEAVE_CHANNELS None) (proto_state cn) in
          let ch := <[S k := Some ((p, track), true)]> (<[k := Some ((p, track), false)]> ch) in
          let s := with_conns s (<[c := mkConn (c_send cn) (Some ch)]> (conns s)) in
          Ok (Some (update_ep s p track (TransInter c k (S k)),
            $"RTP/AVP/TCP;unicast;interleaved=" ++ fmt_d (Z.of_nat k) ++ $"-" ++ fmt_d (Z.of_nat (S k))))
      end
  end.

(** [rs] becomes the controller of the session. *)
Definition new_rtsp_session (s : server) (w : world) (p : sptr) : server * rtsp_session :=
  let rs := mkRs (next_rs s) (random_id (w_id w)) p in
  let s := match sources s !! p.1 with
           | Some src => with_source s p.1 (update_sess src p.2 (set_ctl (Some (next_rs s))))
           | None => s end in
  (with_rs s (rs :: rs_list s) (S (next_rs s)), rs).

Definition transport_setup (s : server) (c : nat) (w : world) (p : sptr) (track : nat) (t : list Z)
  : res (option (server * list Z)) :=
  if strcaseprefix t $"RTP/AVP/TCP" then rtsp_interleave_setup s c p track t
  else if (strcaseprefix t $"RTP/AVP" && negb (bool_decide (t !! 7%nat = Some 47))) || strcaseprefix t $"RTP/AVP/UDP"
  then Ok (rtsp_udp_setup s p track w t)
  else Ok None.

(** From the choice of the session on. *)
Definition setup_session (s : server) (c : nat) (w : world) (req : pmsg) (p : sptr) (rs : option rtsp_session)
    (track : nat) (t : list Z) : res server :=
  match sources s !! p.1, deref s p with
  | Some src, Some ls =>
      if decide (is_Some (ep_of ls track)) then rtsp_send_error s c w req 461 $"Unsupported Transport" else
      match live_setup src p.2 track with
      | None =>
          s ← rtsp_send_error s c w req 404 $"Not Found";
          if rs then Ok s else session_teardown s p None
      | Some src =>
          let s := with_source s p.1 src in
          m ← rtsp_create_reply w req 200 $"OK";
          r ← transport_setup s c w p track t;
          match r with
          | None =>
              s ← rtsp_send_error s c w req 461 $"Unsupported Transport";
              session_teardown s p (Some track)
          | Some (s, trans) =>
              let m := fst (add_header m $"Transport" trans) in
              let '(s, rs) := match rs with Some rs => (s, rs) | None => new_rtsp_session s w p end in
              send_reply s c (fst (add_header m $"Session" (rs_id rs))) (-1) []
          end
      end
  | _, _ => Fault UseAfterFree
  end.

Definition handle_SETUP (s : server) (c : nat) (w : world) (req : pmsg) : res server :=
  uri ← req_uri req;
  r ← find_rtsp_location (rtsp_loc_list s) uri true true;
  match r with
  | None => rtsp_send_error s c w req 404 $"Not Found"
  | Some (loc, _, track) =>
      if decide (track < 0 ∨ Z.of_nat MAX_TRACKS ≤ track) then rtsp_send_error s c w req 404 $"Not Found" else
      '(s, ok) ← rtsp_verify_auth s c w req loc;
      if negb ok then Ok s else
      t ← get_header req $"Transport";
      match t with
      | None => rtsp_send_error s c w req 461 $"Unspecified Transport"
      | Some t =>
          sh ← get_header req $"Session";
          match sh with
          | None =>
              r ← open_session s loc;
              match r with
              | None => rtsp_send_error s c w req 404 $"Not Found"
              | Some (s, p) => setup_session s c w req p None (Z.to_nat track) t
              end
          | Some id =>
              match get_session s (Some id) with
              | None => rtsp_send_error s c w req 454 $"Session Not Found"
              | Some rs => setup_session s c w req (rs_sess rs) (Some rs) (Z.to_nat track) t
              end
          end
      end
  end.

(** A live session answers a Range with the position -1, so the reply has no
    Range and no RTP-Info. *)
Definition handle_PLAY (s : server) (c : nat) (w : world) (req : pmsg) : res server :=
  sh ← get_header req $"Session";
  match get_session s sh with
  | None => rtsp_send_error s c w req 454 $"Session Not Found"
  | Some rs =>
      match sources s !! (rs_sess rs).1, deref s (rs_sess rs) with
      | Some src, Some _ =>
          let s := with_source s (rs_sess rs).1 (live_play src (rs_sess rs).2) in
          m ← rtsp_create_reply w req 200 $"OK";
          send_reply s c (fst (add_header m $"Session" (rs_id rs))) (-1) []
      | _, _ => Fault UseAfterFree
      end
  end.

(** Live sessions have no [pause]. *)
Definition handle_PAUSE (s : server) (c : nat) (w : world) (req : pmsg) : res server :=
  sh ← get_header req $"Session";
  match get_session s sh with
  | None => rtsp_send_error s c w req 454 $"Session Not Found"
  | Some _ => rtsp_send_error s c w req 501 $"Not Implemented"
  end.

Definition handle_TEARDOWN (s : server) (c : nat) (w : world) (req : pmsg) : res server :=
  uri ← req_uri req;
  r ← find_rtsp_location (rtsp_loc_list s) uri false true;
  match r with
  | None => rtsp_send_error s c w req 404 $"Not Found"
  | Some (_, _, track) =>
      if decide (Z.of_nat MAX_TRACKS ≤ track) then rtsp_send_error s c w req 404 $"Not Found" else
      sh ← get_header req $"Session";
      match get_session s sh with
      | None => rtsp_send_error s c w req 454 $"Session Not Found"
      | Some rs =>
          m ← rtsp_create_reply w req 200 $"OK";
          let m := fst (add_header m $"Session" (rs_id rs)) in
          match deref s (rs_sess rs) with
          | None => Fault UseAfterFree
          | Some ls =>
              let ep := if decide (track < 0) then None
                        else match ep_of ls (Z.to_nat track) with Some _ => Some (Z.to_nat track) | None => None end in
              s ← session_teardown s (rs_sess rs) ep;
              send_reply s c m (-1) []
          end
      end
  end.

Definition handle_unknown (s : server) (c : nat) (w : world) (req : pmsg) : res server :=
  rtsp_send_error s c w req 501 $"Not Implemented".

Definition rtsp_handle_msg (s : server) (c : nat) (w : world) (req : pmsg) : res server :=
  method ← req_method req;
  if strcaseeq method $"OPTIONS" then handle_OPTIONS s c w req
  else if strcaseeq method $"DESCRIBE" then handle_DESCRIBE s c w req
  else if strcaseeq method $"SETUP" then handle_SETUP s c w req
  else if strcaseeq method $"PLAY" then handle_PLAY s c w req
  else if strcaseeq method $"PAUSE" then handle_PAUSE s c w req
  else if strcaseeq method $"TEARDOWN" then handle_TEARDOWN s c w req
  else handle_unknown s c w req.
