(* ===== verification/RtspInv.v ===== *)
(** * RtspInv: the invariant of the RTSP server

    No request, disconnection, frame or failure makes the server of [Rtsp]
    follow a dangling pointer, and no session, channel or endpoint is left
    half connected: the invariant [inv] ties the RTSP sessions to the live
    sessions they control and the interleaved channels of the connections to
    the endpoints that send on them. *)

From stdpp Require Import prelude gmap strings pretty.
From S2P Require Import Prelude Rtp Pmsg SendBuf HttpAuth Live Rtsp.

Local Open Scope c_scope.

(** ** Requests *)

Definition nonzero (s : list Z) : Prop := Forall (λ x, x ≠ 0) s.

Lemma take_span_all (p : Z → bool) l : Forall (λ x, p x = true) (take (Z.to_nat (span_len p l)) l).
Proof.
  induction l as [|x l IH]; [constructor|]. simpl. destruct (p x) eqn:E; [|constructor].
  assert (0 ≤ span_len p l) by (clear; induction l as [|y l IH]; simpl; [lia|destruct (p y); lia]).
  replace (Z.to_nat (1 + span_len p l)) with (S (Z.to_nat (span_len p l))) by lia. simpl. by constructor.
Qed.

Lemma cstr_nonzero d p s : cstr d p = Ok s → nonzero s.
Proof.
  unfold cstr. intros H. destruct (decide _) as [_|]; [|discriminate H]. injection H as <-.
  eapply Forall_impl; [apply take_span_all|]. intros x Hx. simpl in Hx. b2p. done.
Qed.

(** The strings of the fields. *)
Definition field_strings (d : list Z) : list (Z * Z) → list (list Z * list Z) → Prop :=
  Forall2 (λ f h, cstr d f.1 = Ok h.1 ∧ cstr d f.2 = Ok h.2).

Lemma header_strings_fields m hs : header_strings m = Ok hs → field_strings (msg m) (fields m) hs.
Proof.
  unfold header_strings, field_strings. revert hs. induction (fields m) as [|[n v] fs IH]; intros hs; cbn [foldr].
  { intros H. injection H as <-. constructor. }
  destruct (cstr (msg m) n) as [a|] eqn:Ea; [|done]. rewrite res_bind_ok.
  destruct (cstr (msg m) v) as [b|] eqn:Eb; [|done]. rewrite res_bind_ok.
  match goal with |- context [foldr ?f ?z fs] => destruct (foldr f z fs) as [hs'|] end; [|done].
  intros H. injection H as <-. constructor; [done|by apply IH].
Qed.

Lemma get_header_strings m hs name :
  header_strings m = Ok hs → get_header m name = Ok (assoc_header hs name).
Proof.
  intros Hf%header_strings_fields. unfold get_header, assoc_header.
  assert (∀ k, find_header (msg m) (fields m) name k = Ok ((λ x, k + x.1)%nat <$> list_find (λ h, strcaseeq h.1 name = true) hs)) as ->.
  { induction Hf as [|[p q] [a b] fs hs [Ha _] _ IH]; intros k; [done|]. cbn [find_header list_find fst snd] in *.
    rewrite Ha, res_bind_ok. destruct (strcaseeq a name) eqn:E.
    - rewrite decide_True by done. simpl. do 2 f_equal. lia.
    - rewrite decide_False by done. rewrite IH. destruct (list_find _ hs) as [[i h]|]; simpl; [|done]. do 2 f_equal. lia. }
  rewrite res_bind_ok. destruct (list_find _ hs) as [[i h]|] eqn:E; [|done]. simpl.
  apply list_find_Some in E as (Ei & _). destruct (Forall2_lookup_r _ _ _ _ _ Hf Ei) as ([n v] & En & _ & Hv).
  cbn [fst snd] in Hv. by rewrite En, Hv.
Qed.

(** A request as the handlers read it. *)
Record req_ok (req : pmsg) (method uri : list Z) (hs : list (list Z * list Z)) : Prop := {
  rq_method : req_method req = Ok method;
  rq_uri : req_uri req = Ok uri;
  rq_headers : header_strings req = Ok hs }.

(** ** Replies *)

(** A reply under construction: 512 bytes, a status line, headers. *)
Record reply_ok (m : pmsg) : Prop := {
  rp_len : max_len m = 512;
  rp_stat : ∃ code rp reason, sl m = SlStat code rp ∧ 100 ≤ code ≤ 999 ∧
    str_at (msg m) (msg_len m) (proto_id m) $"RTSP/1.0" ∧ str_at (msg m) (msg_len m) rp reason;
  rp_headers : ∃ hs, pm_holds m hs }.

Lemma add_header_reply m name value :
  reply_ok m → nonzero name → nonzero value → reply_ok (add_header m name value).1.
Proof.
  intros [Hl (code & rp & reason & Hsl & Hc & Hp & Hr) [hs Hm]] Hn Hv.
  pose proof (add_header_spec m hs name value Hm Hn Hv) as HA.
  destruct (add_header_keeps m hs name value Hm Hn) as (HK & E1 & E2).
  destruct (add_header m name value) as [m' ok]. cbn [fst] in *. destruct HA as (H1 & _ & H3 & _). split.
  - congruence.
  - exists code, rp, reason. rewrite E1, E2. split_and!; try done; lia || by apply HK.
  - eauto.
Qed.

Lemma copy_fields_reply dest d fs hs name k :
  reply_ok dest → field_strings d fs hs → ∃ dest' n, copy_fields dest d fs name k = Ok (dest', n) ∧ reply_ok dest'.
Proof.
  intros Hd Hf. revert dest k Hd. induction Hf as [|[p q] [a b] fs hs [Ha Hb] _ IH]; intros dest k Hd; [eauto|].
  cbn [copy_fields fst snd] in *. rewrite Ha, res_bind_ok. destruct (strcaseeq a name); [|by apply IH].
  rewrite Hb, res_bind_ok. apply IH. apply add_header_reply; [done|by eapply cstr_nonzero|by eapply cstr_nonzero].
Qed.

Lemma create_reply_ok w req hs code reason :
  length (w_heap w) = 512%nat → header_strings req = Ok hs → 100 ≤ code ≤ 999 → nonzero reason → zlen reason < 100 →
  ∃ m, rtsp_create_reply w req code reason = Ok m ∧ reply_ok m.
Proof.
  intros Hw Hh Hc Hr Hl. unfold rtsp_create_reply.
  assert (pm_holds (new_pmsg (w_heap w)) []) as H0.
  { split; [|done|done|constructor]. unfold max_len. simpl. unfold zlen. lia. }
  assert (max_len (new_pmsg (w_heap w)) = 512) as L0 by (unfold max_len, zlen; simpl; lia).
  pose proof (add_pmsg_string_spec _ _ $"RTSP/1.0" H0 ltac:(repeat (apply Forall_cons_2; [done|]); apply Forall_nil_2)) as S1.
  destruct (add_pmsg_string (new_pmsg (w_heap w)) $"RTSP/1.0") as [m1 [p1|]]; [|destruct S1 as [_ S1]; rewrite L0 in S1; vm_compute in S1; done].
  destruct S1 as (M1 & _ & A1 & X1 & N1 & _). pose proof (add_pmsg_string_spec m1 [] reason M1 Hr) as S2.
  pose proof (add_string_keeps m1 [] reason _ _ M1 A1) as K1.
  change (zlen $"RTSP/1.0") with 8 in N1. change (msg_len (new_pmsg (w_heap w))) with 0 in N1.
  destruct (add_pmsg_string m1 reason) as [m2 [p2|]]; [|destruct S2 as [_ S2]; lia].
  destruct S2 as (M2 & _ & A2 & X2 & N2 & _). cbn [fst default] in *.
  destruct (copy_fields_reply (mkPmsg (msg m2) (msg_len m2) p1 (SlStat code p2) (fields m2)) (msg req) (fields req) hs $"CSeq" 0)
    as (m3 & n & E & R).
  - split; [unfold max_len in *; simpl; congruence|by exists code, p2, reason|].
    exists []. destruct M2 as [Q1 Q2 Q3 Q4]. by split.
  - by apply header_strings_fields.
  - exists m3. unfold copy_headers. simpl default. unfold id. rewrite E. done.
Qed.

(** The reply with its bytes and length changed behind the strings. *)
Lemma reply_grow m d n :
  reply_ok m → msg_len m ≤ n ≤ 512 → zlen d = 512 →
  (∀ p s, str_at (msg m) (msg_len m) p s → str_at d n p s) → reply_ok (set_msg m d n (fields m)).
Proof.
  intros [Hl (code & rp & reason & Hsl & Hc & Hp & Hr) [hs Hm]] Hn Hd HK. split.
  - done.
  - exists code, rp, reason. cbn [set_msg sl msg msg_len proto_id]. split_and!; try done; lia || by apply HK.
  - exists hs. destruct Hm as [Q1 Q2 Q3 Q4]. split; cbn [set_msg msg msg_len fields]; [unfold max_len; simpl; lia|done|lia|].
    eapply Forall2_impl; [exact Q4|]. intros f h [A B]. split; by apply HK.
Qed.

Lemma add_printf_reply m name text :
  reply_ok m → nonzero name → nonzero text → reply_ok (add_header_printf m name text).1.
Proof.
  intros Hm Hn Ht. pose proof Hm as [Hl _ [hs Hh]]. pose proof (ph_len _ _ Hh) as Hb. unfold add_header_printf.
  set (sp := max_len m - msg_len m). set (m0 := if decide _ then _ else m).
  pose proof (zlen_nonneg text) as Hz.
  assert (reply_ok m0 ∧ msg_len m0 = msg_len m ∧ fields m0 = fields m ∧
    (zlen text < sp → str_at (msg m0) (msg_len m + (zlen text + 1)) (msg_len m) text)) as (R0 & L0 & F0 & T0).
  { unfold m0. unfold max_len in *. destruct (decide (0 < sp)) as [Hsp|Hsp].
    - assert (msg_len m + zlen (take (Z.to_nat (sp - 1)) text ++ [0]) ≤ zlen (msg m)) as Hfit.
      { rewrite zlen_app. change (zlen [0]) with 1. unfold sp, max_len, zlen in *. rewrite length_take. lia. }
      split; [|split; [done|split; [done|]]].
      + apply reply_grow; [done|lia|by rewrite zlen_blit by lia|].
        intros p s Hs. eapply str_at_blit_old; [exact Hs|lia|lia|done].
      + intros Hlt. cbn [set_msg msg]. rewrite take_ge by (unfold zlen in *; lia). apply str_at_blit_new; [lia|unfold sp in *; lia|done].
    - split_and!; try done. lia. }
  assert (max_len m0 = 512) as M0 by apply (rp_len _ R0). clearbody m0.
  case_decide as Hc; [done|]. case_decide as Hfit; [done|]. rewrite L0 in *.
  set (m1 := set_msg m0 (msg m0) _ _).
  assert (reply_ok m1) as R1.
  { apply reply_grow; [done|rewrite L0; lia|done|]. intros p s Hs. eapply str_at_mono; [exact Hs|lia]. }
  destruct (rp_headers _ R0) as [hs1 H0].
  assert (pm_holds m1 hs1) as H1.
  { destruct H0 as [B1 B2 B3 B4]. split; cbn [m1 set_msg msg msg_len fields max_len] in *; unfold max_len in *; [simpl; lia|done|lia|].
    eapply Forall2_impl; [exact B4|]. intros f h [A B]. split; (eapply str_at_mono; [eassumption|lia]). }
  pose proof (add_pmsg_string_spec m1 hs1 name H1 Hn) as S1.
  assert (∀ p s, str_at (msg m1) (msg_len m1) p s → str_at (msg (add_pmsg_string m1 name).1) (msg_len (add_pmsg_string m1 name).1) p s) as HK
    by (intros p s; by apply add_string_keeps with hs1).
  assert (str_at (msg m1) (msg_len m1) (msg_len m) text) as TT by (apply T0; unfold sp; lia).
  assert (sl (add_pmsg_string m1 name).1 = sl m1 ∧ proto_id (add_pmsg_string m1 name).1 = proto_id m1) as [E1 E2]
    by (unfold add_pmsg_string; by case_decide).
  destruct (add_pmsg_string m1 name) as [m2 [p|]]; [|by destruct S1 as [-> _]]. cbn [fst] in *.
  destruct S1 as (P2 & -> & A2 & X2 & N2 & F2). destruct R1 as [RL (code & rp & reason & Hsl & Hcd & Hp & Hr) _]. split.
  - cbn. unfold max_len in *. simpl in *. lia.
  - exists code, rp, reason. cbn [set_msg sl msg msg_len proto_id]. rewrite E1, E2. split_and!; try done; lia || by apply HK.
  - exists (hs1 ++ [(name, text)]). destruct P2 as [Q1 Q2 Q3 Q4].
    assert (zlen (fields m1) = zlen hs1) as EL by (pose proof (ph_fields _ _ H1) as Q; unfold zlen; by rewrite (Forall2_length _ _ _ Q)).
    unfold header_count in Hc. split; cbn [set_msg msg msg_len fields] in *.
    + done.
    + rewrite zlen_app. change (zlen [(name, text)]) with 1. change (fields m1) with (fields m0) in EL. unfold MAX_FIELDS in *. lia.
    + rewrite hdrs_size_app. simpl. pose proof (ph_size _ _ H0). change (msg_len m1) with (msg_len m + (zlen text + 1)) in N2. lia.
    + rewrite F2 in *. apply Forall2_app; [done|]. apply Forall2_cons. split; [|apply Forall2_nil; done]. split; [done|by apply HK].
Qed.

(** ** The invariant *)

Record conn_ok (cn : conn) : Prop := {
  co_queue : ∃ q, queue_of (c_send cn) q;
  co_chans : ∀ ch, proto_state cn = Some ch → length ch = MAX_INTERLEAVE_CHANNELS }.

(** The arrays of a location hold strings and its source exists. *)
Record loc_ok (n : nat) (loc : rtsp_location) : Prop := {
  lo_path : zlen (l_path loc) = 256 ∧ ∃ x, cstr (l_path loc) 0 = Ok x;
  lo_realm : ∃ x, cstr (l_realm loc) 0 = Ok x;
  lo_username : ∃ x, cstr (l_username loc) 0 = Ok x;
  lo_password : ∃ x, cstr (l_password loc) 0 = Ok x;
  lo_source : (l_private loc < n)%nat }.

(** RTSP sessions and the live sessions they control point to each other. *)
Record linked (s : server) : Prop := {
  lk_rs : ∀ rs, rs ∈ rs_list s → ∃ ls, deref s (rs_sess rs) = Some ls ∧ ls_ctl ls = Some (rs_ptr rs);
  lk_ctl : ∀ p ls k, deref s p = Some ls → ls_ctl ls = Some k → ∃ rs, rs ∈ rs_list s ∧ rs_ptr rs = k ∧ rs_sess rs = p;
  lk_nodup : NoDup (rs_ptr <$> rs_list s);
  lk_ids : Forall (λ rs, (rs_ptr rs < next_rs s)%nat ∧ nonzero (rs_id rs)) (rs_list s) }.

(** The connection and channels of an interleaved endpoint. *)
Definition inter_of (x : option endpoint) : option (nat * nat * nat) :=
  match x with Some (mkEndpoint _ _ (TransInter c r q)) => Some (c, r, q) | _ => None end.
Definition inter_at (s : server) (e : eptr) : option (nat * nat * nat) := inter_of (get_ep s e).

(** Channel [k] of connection [c] carries the RTP ([b] false) or RTCP of the
    endpoint [e]. *)
Definition carries (s : server) (c k : nat) (e : eptr) (b : bool) : Prop :=
  ∃ r, inter_at s e = Some (c, r, S r) ∧ k = (if b then S r else r).

(** The channels of the connections and the endpoints that send on them point to
    each other. *)
Record wired (s : server) : Prop := {
  wd_chan : ∀ c k e b, chan_of s c k = Some (e, b) ↔ carries s c k e b;
  wd_pair : ∀ e c r q, inter_at s e = Some (c, r, q) → q = S r }.

Record inv (s : server) : Prop := {
  iv_sources : Forall source_ok (sources s);
  iv_conns : map_Forall (λ _, conn_ok) (conns s);
  iv_locs : Forall (loc_ok (length (sources s))) (rtsp_loc_list s);
  iv_linked : linked s;
  iv_wired : wired s }.

(** States that differ only in the send buffers and the digest secret. *)
Record same_graph (s s' : server) : Prop := {
  sg_locs : rtsp_loc_list s' = rtsp_loc_list s;
  sg_rs : rs_list s' = rs_list s;
  sg_sources : sources s' = sources s;
  sg_next : next_rs s' = next_rs s;
  sg_protos : ∀ c, proto_state <$> conns s' !! c = proto_state <$> conns s !! c }.

#[global] Instance same_graph_refl : Reflexive same_graph.
Proof. by intros s. Qed.
#[global] Instance same_graph_trans : Transitive same_graph.
Proof. intros a b c [H1 H2 H3 H4 H5] [K1 K2 K3 K4 K5]. split; congruence. Qed.

Lemma chan_of_proto s c k : chan_of s c k = match proto_state <$> conns s !! c with Some (Some ch) => mjoin (ch !! k) | _ => None end.
Proof. unfold chan_of. by destruct (conns s !! c) as [[? [|]]|]. Qed.

Lemma same_graph_chan s s' c k : same_graph s s' → chan_of s' c k = chan_of s c k.
Proof. intros H. by rewrite !chan_of_proto, (sg_protos _ _ H). Qed.

Lemma same_graph_deref s s' p : same_graph s s' → deref s' p = deref s p.
Proof. intros H. unfold deref. by rewrite (sg_sources _ _ H). Qed.

Lemma same_graph_ep s s' e : same_graph s s' → get_ep s' e = get_ep s e.
Proof. intros H. unfold get_ep. by rewrite (same_graph_deref _ _ _ H). Qed.

Lemma same_graph_inv s s' : inv s → same_graph s s' → map_Forall (λ _, conn_ok) (conns s') → inv s'.
Proof.
  intros [I1 I2 I3 [K1 K2 K3 K4] [W1 W2]] H HC.
  pose proof (λ p, same_graph_deref s s' p H) as HD. pose proof (λ e, same_graph_ep s s' e H) as HE.
  destruct H as [H1 H2 H3 H4 H5]. split; [by rewrite H3|done|by rewrite H1, H3| |].
  - split.
    + rewrite H2. intros rs Hrs. rewrite HD. by apply K1.
    + rewrite H2. intros p ls k. rewrite HD. apply K2.
    + by rewrite H2.
    + by rewrite H2, H4.
  - split.
    + intros c k e b. rewrite (same_graph_chan s s') by done. rewrite W1. unfold carries, inter_at. by rewrite HE.
    + intros e c r q. unfold inter_at. rewrite HE. apply W2.
Qed.

(** Replies change the buffer of their connection only. *)
Lemma send_reply_ok s c m len body :
  inv s → is_Some (conns s !! c) → reply_ok m → len < 2147483648 →
  ∃ s', send_reply s c m len body = Ok s' ∧ inv s' ∧ same_graph s s' ∧ is_Some (conns s' !! c).
Proof.
  intros Hs [cn Hc] [Hl (code & rp & reason & Hsl & Hcd & Hp & Hr) [hs Hh]] Hlen. unfold send_reply. rewrite Hc.
  destruct (iv_conns _ Hs c cn Hc) as [[q Hq] Hch].
  destruct (tcp_send_reply (c_send cn) q m hs _ code rp reason len Hq Hh ltac:(lia) Hsl Hp Hr Hcd Hlen) as (b & ret & -> & Hret & _ & R1 & R2).
  rewrite res_bind_ok. set (b' := if decide _ then _ else b).
  assert (∃ q', queue_of b' q') as Hb'.
  { unfold b'. destruct Hret as [->| ->].
    - rewrite decide_True by lia. pose proof (send_data_queue b (q ++ _) body (R2 eq_refl)) as HS.
      destruct (send_data b body) as [b2 r2]. destruct HS as [_ HS]. simpl. case_decide; [destruct HS as (_ & ? & _)|destruct HS as [_ ->]]; eauto.
    - rewrite decide_False by lia. rewrite R1 by done. eauto. }
  eexists. split; [reflexivity|].
  assert (same_graph s (with_conns s (<[c := mkConn b' (proto_state cn)]> (conns s)))) as HG.
  { split; try done. intros c'. cbn [with_conns conns]. destruct (decide (c = c')) as [<-|N].
    - by rewrite lookup_insert_eq, Hc.
    - by rewrite lookup_insert_ne. }
  split; [|split; [done|]].
  - apply (same_graph_inv s); [done|done|]. apply map_Forall_insert_2; [by split|apply (iv_conns _ Hs)].
  - exists (mkConn b' (proto_state cn)). cbn [with_conns conns]. apply lookup_insert_eq.
Qed.

Lemma send_error_ok s c w req hs code reason :
  inv s → is_Some (conns s !! c) → length (w_heap w) = 512%nat → header_strings req = Ok hs →
  100 ≤ code ≤ 999 → nonzero reason → zlen reason < 100 →
  ∃ s', rtsp_send_error s c w req code reason = Ok s' ∧ inv s' ∧ same_graph s s' ∧ is_Some (conns s' !! c).
Proof.
  intros Hs Hc Hw Hh Hcd Hr Hl. unfold rtsp_send_error.
  destruct (create_reply_ok w req hs code reason Hw Hh Hcd Hr Hl) as (m & -> & Hm). rewrite res_bind_ok. by apply send_reply_ok.
Qed.

(** ** Authentication always answers *)

Lemma strchr_length l c r : strchr l c = Some r → (length r ≤ length l)%nat ∧ r ≠ [].
Proof.
  revert r. induction l as [|x l IH]; intros r; simpl; [done|]. case_decide; [intros H1; injection H1 as <-; done|].
  intros [? ?]%IH. split; [lia|done].
Qed.

Lemma auth_directives_total fuel n a : (length n < fuel)%nat → ∃ r, auth_directives fuel n a = Ok r.
Proof.
  revert n a. induction fuel as [|fuel IH]; intros n a Hf; [lia|]. cbn [auth_directives].
  destruct n as [|x n]; [eauto|]. destruct (strchr (x :: n) 61) as [[|y v]|] eqn:E; [eauto| |eauto].
  apply strchr_length in E as [E _]. destruct (auth_value v) as [[v' len]|] eqn:Ev; [|eauto].
  destruct (auth_directive a (x :: n) v' len) as [a'|]; [|eauto]. apply IH.
  assert (length v' ≤ length v)%nat as Hv.
  { unfold auth_value in Ev. destruct v as [|z v0]; [done|]. destruct (decide (z = 34)).
    - destruct (strchr v0 34); [|done]. injection Ev as <- _. simpl. lia.
    - injection Ev as <- _. done. }
  unfold skip_seps. rewrite !length_drop. simpl in *. lia.
Qed.

Lemma check_digest_total secret now req method uri hs realm username password :
  req_ok req method uri hs → ∃ r, check_digest_response secret now req realm username password = Ok r.
Proof.
  intros [Hm Hu Hh]. unfold check_digest_response. rewrite (get_header_strings _ _ _ Hh), res_bind_ok.
  destruct (assoc_header hs _) as [hdr|]; [|eauto].
  assert (∃ r, parse_auth_header hdr no_auth = Ok r) as [r ->].
  { unfold parse_auth_header. destruct (strcaseprefix _ _); [|eauto]. apply auth_directives_total. rewrite length_drop. lia. }
  rewrite res_bind_ok. destruct r as [a|]; [|eauto]. destruct (decide (a_realm a ≠ realm)); [eauto|].
  destruct (_ && _); [eauto|]. destruct (decide (a_uri a = [])).
  - rewrite Hu, !res_bind_ok. destruct (decide (512 ≤ zlen uri)); [eauto|]. rewrite Hm, res_bind_ok. destruct (negb _); eauto.
  - rewrite !res_bind_ok, Hm, res_bind_ok. destruct (negb _); eauto.
Qed.

Lemma nonzero_app a b : nonzero a → nonzero b → nonzero (a ++ b).
Proof. apply Forall_app_2. Qed.

(** Closed text. *)

Lemma hex_nonzero l : Forall hex_char l → nonzero l.
Proof. intros H. apply (Forall_impl _ _ _ H). unfold hex_char. lia. Qed.

Lemma challenge_reply secret now rnd rs m realm stale :
  reply_ok m → nonzero realm → reply_ok (add_digest_challenge secret now rnd rs m realm stale).2.
Proof.
  intros Hm Hr. unfold add_digest_challenge. cbn [snd].
  assert (nonzero (create_nonce (default (random_id rs) secret) now rnd)) as Hn.
  { unfold create_nonce. fold (token now rnd). apply nonzero_app; apply hex_nonzero; [apply token_hex|apply md5_hash_hex]. }
  revert Hn. generalize (create_nonce (default (random_id rs) secret) now rnd). intros nonce Hn.
  apply add_printf_reply; [done|closed_nonzero|].
  repeat apply nonzero_app; try assumption; try closed_nonzero. destruct stale; closed_nonzero.
Qed.

Lemma verify_auth_ok s c w req method uri hs loc :
  inv s → is_Some (conns s !! c) → length (w_heap w) = 512%nat → req_ok req method uri hs →
  loc_ok (length (sources s)) loc →
  ∃ s' ok, rtsp_verify_auth s c w req loc = Ok (s', ok) ∧ inv s' ∧ same_graph s s' ∧ is_Some (conns s' !! c).
Proof.
  intros Hs Hc Hw Hrq [_ [realm Hre] [username Hu] [password Hp] _]. unfold rtsp_verify_auth. rewrite Hre, res_bind_ok.
  destruct (decide (realm = [])); [by exists s, true|]. rewrite Hu, res_bind_ok, Hp, res_bind_ok.
  destruct (check_digest_total (digest_secret s) (w_now w) req method uri hs realm username password Hrq) as [ret ->].
  rewrite res_bind_ok. destruct (decide (0 < ret)); [by exists s, true|].
  destruct (create_reply_ok w req hs 401 $"Unauthorized" Hw (rq_headers _ _ _ _ Hrq) ltac:(lia) ltac:(closed_nonzero) ltac:(vm_compute; done))
    as (m & -> & Hm). rewrite res_bind_ok.
  pose proof (challenge_reply (digest_secret s) (w_now w) (w_nonce w) (w_secret w) m realm (bool_decide (ret = 0)) Hm
    (cstr_nonzero _ _ _ Hre)) as Hm2.
  destruct (add_digest_challenge _ _ _ _ m realm _) as [secret m2]. cbn [snd] in Hm2.
  assert (same_graph s (with_secret s secret)) as G1 by (by split).
  destruct (send_reply_ok (with_secret s secret) c m2 (-1) []) as (s' & -> & I' & G' & C').
  - apply (same_graph_inv s); [done|done|apply (iv_conns _ Hs)].
  - done.
  - done.
  - lia.
  - rewrite res_bind_ok. exists s', false. split; [done|]. split; [done|]. split; [by etrans|done].
Qed.

(** ** Changes of one session *)

Lemma deref_with_source s i src src' sid x p :
  sources s !! i = Some src → only_changes src src' sid x →
  deref (with_source s i src') p = if decide (p = (i, sid)) then x else deref s p.
Proof.
  intros Hi Hx. unfold deref, with_source. cbn [sources]. destruct p as [j sid']. cbn [fst snd].
  destruct (decide (j = i)) as [->|N].
  - rewrite list_lookup_insert_eq by (by eapply lookup_lt_Some). cbn [mbind option_bind]. rewrite Hx, Hi. cbn [mbind option_bind].
    apply decide_ext. naive_solver.
  - rewrite list_lookup_insert_ne by done. by rewrite decide_False by naive_solver.
Qed.

Lemma inv_with_source s i src' :
  inv s → (i < length (sources s))%nat → source_ok src' → linked (with_source s i src') → wired (with_source s i src') →
  inv (with_source s i src').
Proof.
  intros [I1 I2 I3 _ _] Hi Hs HL HW. split; cbn [with_source sources conns rtsp_loc_list]; [|done| |done|done].
  - by apply Forall_insert.
  - by rewrite length_insert.
Qed.

(** The controller of the session stays. *)
Lemma linked_change s s' p x :
  linked s → rs_list s' = rs_list s → next_rs s' = next_rs s →
  (∀ q, deref s' q = if decide (q = p) then x else deref s q) → x ≫= ls_ctl = deref s p ≫= ls_ctl → linked s'.
Proof.
  intros [K1 K2 K3 K4] HR HN HD HX. split; rewrite ?HR, ?HN; try done.
  - intros rs Hrs. destruct (K1 rs Hrs) as (ls & H1 & H2). rewrite HD. case_decide as E; [|eauto].
    rewrite <- E, H1 in HX. cbn in HX. rewrite H2 in HX. destruct x as [ls'|]; [|done]. eauto.
  - intros q ls k. rewrite HD. case_decide as E; [|apply K2]. intros -> Hk. cbn in HX. rewrite Hk in HX.
    destruct (deref s p) as [ls0|] eqn:E0; [|done]. subst q. apply (K2 p ls0 k E0). done.
Qed.

(** The interleaved endpoints stay. *)
Lemma wired_same s s' :
  wired s → (∀ c k, chan_of s' c k = chan_of s c k) → (∀ e, inter_at s' e = inter_at s e) → wired s'.
Proof.
  intros [W1 W2] HC HI. split.
  - intros c k e b. rewrite HC, W1. unfold carries. by rewrite HI.
  - intros e c r q. rewrite HI. apply W2.
Qed.

Lemma inter_change s s' p x :
  (∀ q, deref s' q = if decide (q = p) then x else deref s q) →
  (∀ t, inter_of (x ≫= λ ls, ep_of ls t) = inter_of (deref s p ≫= λ ls, ep_of ls t)) →
  ∀ e, inter_at s' e = inter_at s e.
Proof.
  intros HD HX [q t]. unfold inter_at, get_ep. cbn [fst snd]. rewrite HD. case_decide; [subst; apply HX|done].
Qed.

(** [live_open], [live_setup] and [live_play] change one session in this way. *)
Lemma inv_change s i src src' sid x :
  inv s → sources s !! i = Some src → source_ok src' → only_changes src src' sid x →
  x ≫= ls_ctl = deref s (i, sid) ≫= ls_ctl →
  (∀ t, inter_of (x ≫= λ ls, ep_of ls t) = inter_of (deref s (i, sid) ≫= λ ls, ep_of ls t)) →
  inv (with_source s i src') ∧ (∀ q, deref (with_source s i src') q = if decide (q = (i, sid)) then x else deref s q).
Proof.
  intros Hs Hi Ho Hx H1 H2. pose proof (λ q, deref_with_source s i src src' sid x q Hi Hx) as HD. split; [|done].
  apply inv_with_source; [done|by eapply lookup_lt_Some|done| |].
  - eapply (linked_change s); [apply (iv_linked _ Hs)|done|done|exact HD|done].
  - apply (wired_same s); [apply (iv_wired _ Hs)|done|]. by eapply inter_change.
Qed.

(** ** Teardown *)

(** Only channels changed: those of [l] are free now. *)
Record cleared (s s' : server) (l : list (nat * nat)) : Prop := {
  cl_rest : s' = with_conns s (conns s');
  cl_conns : map_Forall (λ _, conn_ok) (conns s) → map_Forall (λ _, conn_ok) (conns s');
  cl_dom : ∀ c, is_Some (conns s' !! c) ↔ is_Some (conns s !! c);
  cl_chan : ∀ c k, chan_of s' c k = if decide ((c, k) ∈ l) then None else chan_of s c k;
  cl_shape : ∀ c ch, proto_state <$> conns s !! c = Some (Some ch) →
    ∃ ch', proto_state <$> conns s' !! c = Some (Some ch') ∧ length ch' = length ch }.

Lemma cleared_refl s : cleared s s [].
Proof. split; try done; [by destruct s|]. intros c ch H. by exists ch. Qed.

Lemma cleared_trans s1 s2 s3 l1 l2 : cleared s1 s2 l1 → cleared s2 s3 l2 → cleared s1 s3 (l1 ++ l2).
Proof.
  intros [A1 A2 A3 A4 A5] [B1 B2 B3 B4 B5]. split.
  - rewrite B1, A1. done.
  - auto.
  - intros c. by rewrite B3, A3.
  - intros c k. rewrite B4, A4. repeat case_decide; set_solver.
  - intros c ch H. destruct (A5 c ch H) as (ch' & H1 & H2). destruct (B5 c ch' H1) as (ch2 & H3 & H4). exists ch2. split; [done|congruence].
Qed.

Definition has_chan (s : server) (c k : nat) : Prop :=
  ∃ ch, proto_state <$> conns s !! c = Some (Some ch) ∧ (k < length ch)%nat.

Lemma cleared_has_chan s s' l c k : cleared s s' l → has_chan s c k → has_chan s' c k.
Proof. intros H (ch & H1 & H2). destruct (cl_shape _ _ _ H c ch H1) as (ch' & H3 & H4). exists ch'. split; [done|lia]. Qed.

Lemma disconnect_ok s c k : has_chan s c k → ∃ s', interleave_disconnect s c k = Ok s' ∧ cleared s s' [(c, k)].
Proof.
  intros (ch & H1 & H2). unfold interleave_disconnect. destruct (conns s !! c) as [cn|] eqn:Ec; [|done].
  cbn in H1. injection H1 as Hp. rewrite Hp, decide_True by done. eexists. split; [reflexivity|].
  split; cbn [with_conns conns].
  - done.
  - intros HF. apply map_Forall_insert_2; [|done]. destruct (HF c cn Ec) as [Q1 Q2]. split; [done|]. intros ch' E. injection E as <-.
    rewrite length_insert. by apply Q2.
  - intros c'. destruct (decide (c = c')) as [<-|N]; [rewrite lookup_insert_eq, Ec|rewrite lookup_insert_ne by done]; [|done].
    split; eauto.
  - intros c' k'. rewrite !chan_of_proto. cbn [with_conns conns]. destruct (decide (c = c')) as [<-|N].
    + rewrite lookup_insert_eq, Ec. cbn. rewrite Hp. destruct (decide (k = k')) as [<-|N'].
      * rewrite list_lookup_insert_eq by done. by rewrite decide_True by set_solver.
      * rewrite list_lookup_insert_ne by done. by rewrite decide_False by set_solver.
    + rewrite lookup_insert_ne by done. by rewrite decide_False by set_solver.
  - intros c' ch' E. destruct (decide (c = c')) as [<-|N].
    + rewrite lookup_insert_eq. rewrite Ec in E. cbn in E. rewrite Hp in E. injection E as <-.
      exists (<[k:=None]> ch). split; [done|apply length_insert].
    + rewrite lookup_insert_ne by done. by exists ch'.
Qed.

Definition chans_of (x : endpoint) : list (nat * nat) :=
  match e_trans x with TransInter c r q => [(c, r); (c, q)] | _ => [] end.

Lemma del_endpoints_ok l s :
  (∀ x c k, x ∈ l → (c, k) ∈ chans_of x → has_chan s c k) →
  ∃ s', del_rtp_endpoints s l = Ok s' ∧ cleared s s' (l ≫= chans_of).
Proof.
  revert s. induction l as [|x l IH]; intros s Hl; cbn [del_rtp_endpoints].
  { exists s. split; [done|apply cleared_refl]. }
  assert (∃ s1, del_rtp_endpoint s x = Ok s1 ∧ cleared s s1 (chans_of x)) as (s1 & -> & C1).
  { unfold del_rtp_endpoint. specialize (Hl x). unfold chans_of in *. destruct (e_trans x) as [| |c r q];
      [exists s; split; [done|apply cleared_refl]..|].
    destruct (disconnect_ok s c r) as (s1 & -> & C1); [apply Hl; set_solver|]. rewrite res_bind_ok.
    destruct (disconnect_ok s1 c q) as (s2 & -> & C2); [eapply cleared_has_chan; [exact C1|]; apply Hl; set_solver|].
    exists s2. split; [done|]. by apply (cleared_trans s s1 s2 [(c, r)] [(c, q)]). }
  rewrite res_bind_ok. destruct (IH s1) as (s2 & -> & C2).
  { intros y c k Hy Hk. eapply cleared_has_chan; [exact C1|]. eapply Hl; [|exact Hk]. set_solver. }
  exists s2. split; [done|]. by eapply cleared_trans.
Qed.

(** An endpoint's channels exist. *)
Lemma wired_has_chan s e c r q : wired s → inter_at s e = Some (c, r, q) → has_chan s c r ∧ has_chan s c q.
Proof.
  intros [W1 W2] He. pose proof (W2 _ _ _ _ He) as ->.
  assert (∀ k b, carries s c k e b → has_chan s c k) as H.
  { intros k b Hk%W1. rewrite chan_of_proto in Hk. destruct (proto_state <$> conns s !! c) as [[ch|]|] eqn:E; [|done|done].
    exists ch. split; [done|]. destruct (ch !! k) eqn:Ek; [by eapply lookup_lt_Some|done]. }
  split; [apply (H r false)|apply (H (S r) true)]; by exists r.
Qed.

Lemma cleared_deref s s' l q : cleared s s' l → deref s' q = deref s q.
Proof. intros H. rewrite (cl_rest _ _ _ H). done. Qed.
Lemma cleared_inter s s' l e : cleared s s' l → inter_at s' e = inter_at s e.
Proof. intros H. unfold inter_at, get_ep. by rewrite (cleared_deref _ _ _ _ H). Qed.

(** The channels of the deleted endpoints are those they carried. *)
Lemma dead_chans s p ls ep i c k :
  inv s → deref s p = Some ls → sources s !! p.1 = Some i →
  (c, k) ∈ (dead_eps ep ls (active_tracks i) ≫= chans_of) ↔ ∃ t b, gone ep t ∧ carries s c k (p, t) b.
Proof.
  intros Hs Hd Hi. assert (find_sess i p.2 = Some ls) as Hf by (unfold deref in Hd; by rewrite Hi in Hd).
  destruct (session_eps i p.2 ls) as (_ & _ & He); [by eapply Forall_lookup_1; [apply (iv_sources _ Hs)|]|done|].
  assert (∀ t, inter_at s (p, t) = inter_of (ep_of ls t)) as HI by (intros t; unfold inter_at, get_ep; cbn [fst snd]; by rewrite Hd).
  rewrite list_elem_of_bind. split.
  - intros (x & Hc & (t & Ht & Hx)%list_elem_of_omap). case_decide as Hg; [|done].
    unfold chans_of in Hc. destruct x as [pl mx [| |c' r q]]; cbn in Hc; [set_solver|set_solver|].
    assert (inter_at s (p, t) = Some (c', r, q)) as Hin by (rewrite HI, Hx; done).
    pose proof (wd_pair _ (iv_wired _ Hs) _ _ _ _ Hin) as ->.
    apply elem_of_cons in Hc as [Hc|Hc]; [|apply list_elem_of_singleton in Hc]; injection Hc as -> ->.
    + exists t, false. split; [done|]. by exists r.
    + exists t, true. split; [done|]. by exists r.
  - intros (t & b & Hg & r & Hin & ->). rewrite HI in Hin. destruct (ep_of ls t) as [x|] eqn:Ex; [|done].
    exists x. split.
    + unfold chans_of. destruct x as [pl mx [| |c' r' q]]; [done|done|]. injection Hin as -> -> ->. destruct b; set_solver.
    + apply list_elem_of_omap. exists t. split; [apply He; by rewrite Ex|]. by rewrite decide_True.
Qed.

(** The graph after the chosen endpoints are gone and their channels free. *)
Lemma wired_teardown s s' p ep (L : list (nat * nat)) :
  wired s → (∀ c k, (c, k) ∈ L ↔ ∃ t b, gone ep t ∧ carries s c k (p, t) b) →
  (∀ c k, chan_of s' c k = if decide ((c, k) ∈ L) then None else chan_of s c k) →
  (∀ q t, inter_at s' (q, t) = if decide (q = p ∧ gone ep t) then None else inter_at s (q, t)) → wired s'.
Proof.
  intros [W1 W2] HL HC HI. split.
  - intros c k [q t] b. rewrite HC. split.
    + case_decide as HcL; [done|]. intros Hk%W1. destruct Hk as (r & Hr & ->). exists r. split; [|done]. rewrite HI.
      rewrite decide_False; [done|]. intros [-> Hg]. apply HcL, HL. exists t, b. split; [done|]. by exists r.
    + intros (r & Hr & Hk). rewrite HI in Hr. case_decide as Hn; [done|].
      assert (chan_of s c k = Some (q, t, b)) as Hck by (apply W1; by exists r). case_decide as HcL; [|done].
      exfalso. apply HL in HcL as (t' & b' & Hg & Hc'%W1). rewrite Hck in Hc'. injection Hc' as -> -> ->. apply Hn. done.
  - intros [q t] c r x. rewrite HI. case_decide; [done|apply W2].
Qed.

Lemma linked_close s s' p ls k :
  linked s → deref s p = Some ls → ls_ctl ls = Some k →
  (∀ q, deref s' q = if decide (q = p) then None else deref s q) →
  rs_list s' = filter (λ r, rs_ptr r ≠ k) (rs_list s) → next_rs s' = next_rs s → linked s'.
Proof.
  intros [K1 K2 K3 K4] Hp Hk HD HR HN. split.
  - intros rs. rewrite HR. intros [Hr Hrs]%list_elem_of_filter. destruct (K1 rs Hrs) as (l & H1 & H2). rewrite HD.
    rewrite decide_False; [eauto|]. intros E. rewrite E, Hp in H1. injection H1 as <-. congruence.
  - intros q l k'. rewrite HD. case_decide as E; [done|]. intros Hq Hk'. destruct (K2 q l k' Hq Hk') as (rs & H1 & H2 & H3).
    exists rs. split_and!; [|done|done]. rewrite HR. apply list_elem_of_filter. split; [|done]. intros Ek.
    destruct (K2 p ls k Hp Hk) as (rs0 & H4 & H5 & H6). apply E. rewrite <- H3, <- H6.
    f_equal. apply list_elem_of_lookup_1 in H1 as [i Hi], H4 as [j Hj].
    assert (i = j) as <-; [|congruence]. eapply (NoDup_lookup (rs_ptr <$> rs_list s)); [done|by rewrite list_lookup_fmap, Hi|].
    rewrite list_lookup_fmap, Hj. simpl. congruence.
  - rewrite HR. clear -K3. induction (rs_list s) as [|x l IH]; [constructor|]. simpl in K3. apply NoDup_cons in K3 as [Hn Hd].
    rewrite filter_cons. case_decide; [|by apply IH]. simpl. apply NoDup_cons. split; [|by apply IH].
    intros (y & Ey & [_ Hy]%list_elem_of_filter)%list_elem_of_fmap_1. apply Hn. rewrite Ey. by apply list_elem_of_fmap_2.
  - rewrite HR, HN. apply Forall_forall. intros x [_ Hx]%list_elem_of_filter. by apply (proj1 (Forall_forall _ _) K4).
Qed.

(** What a teardown of [p] leaves: other sessions as they were, the chosen
    endpoints gone, no new channels, the same connections. *)
Record torn_down (s s' : server) (p : sptr) (ep : option nat) : Prop := {
  td_other : ∀ q, q ≠ p → deref s' q = deref s q;
  td_gone : ∀ t, gone ep t → get_ep s' (p, t) = None;
  td_chan : ∀ c k e b, chan_of s' c k = Some (e, b) → chan_of s c k = Some (e, b);
  td_dom : ∀ c, is_Some (conns s' !! c) ↔ is_Some (conns s !! c) }.

Lemma close_ok s p ls k :
  linked s → deref s p = Some ls → ls_ctl ls = Some k → k ∈ (rs_ptr <$> rs_list s).
Proof. intros HL Hp Hk. destruct (lk_ctl _ HL p ls k Hp Hk) as (rs & H1 & <- & _). by apply list_elem_of_fmap_2. Qed.

(** What [live_teardown] leaves at the place of the session: [x]. *)
Lemma teardown_outcome src sid ep ls :
  source_ok src → find_sess src sid = Some ls →
  ∃ src' freed x, live_teardown src sid ep = (src', dead_eps ep ls (active_tracks src), freed) ∧ source_ok src' ∧
    only_changes src src' sid x ∧ (∀ t, (x ≫= λ l, ep_of l t) = if decide (gone ep t) then None else ep_of ls t) ∧
    match freed with Some ls' => x = None ∧ ls_ctl ls' = ls_ctl ls | None => x ≫= ls_ctl = ls_ctl ls end.
Proof.
  intros Hso Hf. destruct (live_teardown_spec src sid ep ls Hso Hf) as (src' & freed & E & So & Ss & HF). exists src', freed. destruct freed as [ls'|].
  - destruct HF as (H1 & H2 & H3). exists None. split_and!; try done. intros t. case_decide as Hg; [done|].
    cbn. destruct (ep_of ls t) eqn:Et; [|done]. exfalso. apply Hg, H2. by rewrite Et.
  - destruct HF as (ls' & H1 & H2 & H3). by exists (Some ls').
Qed.

Lemma torn_down_intro s s2 s3 p ep x l :
  (∀ q, deref s2 q = if decide (q = p) then x else deref s q) → (∀ t, gone ep t → (x ≫= λ l, ep_of l t) = None) →
  (∀ c k, chan_of s2 c k = if decide ((c, k) ∈ (l : list (nat * nat))) then None else chan_of s c k) →
  (∀ c, is_Some (conns s2 !! c) ↔ is_Some (conns s !! c)) →
  sources s3 = sources s2 → conns s3 = conns s2 → torn_down s s3 p ep.
Proof.
  intros HD Hx HC HN E1 E2. assert (∀ q, deref s3 q = deref s2 q) as E3 by (intros q; unfold deref; by rewrite E1).
  assert (∀ c k, chan_of s3 c k = chan_of s2 c k) as E4 by (intros c k; unfold chan_of; by rewrite E2). split.
  - intros q Hq. by rewrite E3, HD, decide_False.
  - intros t Ht. unfold get_ep. cbn [fst snd]. rewrite E3, HD, decide_True by done. by apply Hx.
  - intros c k e b. rewrite E4, HC. by case_decide.
  - intros c. by rewrite E2.
Qed.

Lemma session_teardown_ok s p ls ep :
  inv s → deref s p = Some ls → ∃ s', session_teardown s p ep = Ok s' ∧ inv s' ∧ torn_down s s' p ep.
Proof.
  intros Hs Hd. unfold session_teardown. destruct (sources s !! p.1) as [src|] eqn:Hi; [|by unfold deref in Hd; rewrite Hi in Hd].
  assert (find_sess src p.2 = Some ls) as Hf by (unfold deref in Hd; by rewrite Hi in Hd). rewrite Hf.
  pose proof (Forall_lookup_1 _ _ _ _ (iv_sources _ Hs) Hi) as Hso.
  destruct (teardown_outcome src p.2 ep ls Hso Hf) as (src' & freed & x & -> & So & Hx & Hxe & HF').
  set (dead := dead_eps ep ls (active_tracks src)). set (s1 := with_source s p.1 src').
  pose proof (λ q, deref_with_source s p.1 src src' p.2 x q Hi Hx) as HD1. fold s1 in HD1.
  assert (∀ q, deref s1 q = if decide (q = p) then x else deref s q) as HD by (intros q; rewrite HD1; by destruct p).
  assert (∀ q t, get_ep s1 (q, t) = if decide (q = p ∧ gone ep t) then None else get_ep s (q, t)) as HE.
  { intros q t. unfold get_ep. cbn [fst snd]. rewrite HD. destruct (decide (q = p)) as [->|N]; [|by rewrite decide_False by tauto].
    rewrite Hd, Hxe. cbn. apply decide_ext. tauto. }
  assert (∀ q t, inter_at s1 (q, t) = if decide (q = p ∧ gone ep t) then None else inter_at s (q, t)) as HI.
  { intros q t. unfold inter_at. rewrite HE. by case_decide. }
  destruct (del_endpoints_ok dead s1) as (s2 & -> & C2).
  { intros y c k Hy Hk. assert ((c, k) ∈ (dead ≫= chans_of)) as H%(dead_chans s p ls ep src c k Hs Hd Hi)
      by (apply list_elem_of_bind; eauto). destruct H as (t & b & _ & r & Hr & ->).
    destruct (wired_has_chan _ _ _ _ _ (iv_wired _ Hs) Hr). by destruct b. }
  rewrite res_bind_ok.
  assert (∀ q, deref s2 q = if decide (q = p) then x else deref s q) as HD2 by (intros q; by rewrite (cleared_deref _ _ _ _ C2)).
  assert (∀ c k, chan_of s2 c k = if decide ((c, k) ∈ (dead ≫= chans_of)) then None else chan_of s c k) as HC2 by apply (cl_chan _ _ _ C2).
  assert (∀ s3, sources s3 = sources s2 → conns s3 = conns s2 → torn_down s s3 p ep) as HT.
  { intros s3. apply (torn_down_intro s s2 s3 p ep x (dead ≫= chans_of)); [exact HD2| |exact HC2|apply (cl_dom _ _ _ C2)].
    intros t Ht. by rewrite Hxe, decide_True. }
  assert (∀ s3, rtsp_loc_list s3 = rtsp_loc_list s2 → sources s3 = sources s2 → conns s3 = conns s2 → linked s3 → inv s3) as HV.
  { intros s3 E0 E1 E2 HL. rewrite (cl_rest _ _ _ C2) in E0, E1. cbn in E0, E1. split; [| | |done|].
    - rewrite E1. apply Forall_insert; [apply (iv_sources _ Hs)|done].
    - rewrite E2. apply (cl_conns _ _ _ C2), (iv_conns _ Hs).
    - rewrite E0, E1, length_insert. apply (iv_locs _ Hs).
    - apply (wired_teardown s _ p ep (dead ≫= chans_of)); [apply (iv_wired _ Hs)|intros; by apply dead_chans| |].
      + intros c k. rewrite <- HC2. unfold chan_of. by rewrite E2.
      + intros q t. rewrite <- HI, <- (cleared_inter _ _ _ _ C2). unfold inter_at, get_ep, deref. rewrite E1.
        by rewrite (cl_rest _ _ _ C2). }
  assert (rs_list s2 = rs_list s ∧ next_rs s2 = next_rs s) as [R2 N2] by (by rewrite (cl_rest _ _ _ C2)).
  pose proof (iv_linked _ Hs) as HL.
  destruct freed as [ls'|]; [destruct HF' as [-> Hctl]; cbn [mbind option_bind]; rewrite Hctl; destruct (ls_ctl ls) as [k|] eqn:Ek|].
  - unfold rtsp_session_close. rewrite decide_True by (rewrite R2; by eapply close_ok). eexists. split; [reflexivity|].
    split; [apply HV|apply HT]; try done.
    eapply (linked_close s _ p ls k HL Hd Ek); [exact HD2|cbn; by rewrite R2|done].
  - exists s2. split; [done|]. split; [apply HV|apply HT]; try done. eapply (linked_change s _ p None HL R2 N2 HD2). by rewrite Hd.
  - exists s2. split; [done|]. split; [apply HV|apply HT]; try done. eapply (linked_change s _ p x HL R2 N2 HD2). by rewrite Hd.
Qed.

Lemma endpoint_teardown_ok s e x :
  inv s → get_ep s e = Some x → ∃ s', endpoint_teardown s e = Ok s' ∧ inv s' ∧ torn_down s s' e.1 (Some e.2).
Proof.
  intros Hs He. unfold endpoint_teardown. rewrite He. unfold get_ep in He. destruct (deref s e.1) as [ls|] eqn:Hd; [|done].
  by apply (session_teardown_ok s e.1 ls).
Qed.

Lemma wired_ep s c k e b : wired s → chan_of s c k = Some (e, b) → is_Some (get_ep s e).
Proof. intros [W1 _] (r & Hr & _)%W1. unfold inter_at in Hr. destruct (get_ep s e); [eauto|done]. Qed.

(** Channels are only freed. *)
Record freeing (s s' : server) : Prop := {
  fr_chan : ∀ c k e b, chan_of s' c k = Some (e, b) → chan_of s c k = Some (e, b);
  fr_dom : ∀ c, is_Some (conns s' !! c) ↔ is_Some (conns s !! c) }.

Lemma disconnect_loop_ok s c ks :
  inv s → ∃ s', disconnect_loop s c ks = Ok s' ∧ inv s' ∧ freeing s s' ∧ ∀ k e, k ∈ ks → chan_of s' c k ≠ Some (e, false).
Proof.
  revert s. induction ks as [|k ks IH]; intros s Hs; cbn [disconnect_loop].
  { exists s. split; [done|]. split; [done|]. split; [done|]. intros k e H. by apply not_elem_of_nil in H. }
  assert (∃ s1, match chan_of s c k with Some (e, false) => endpoint_teardown s e | _ => Ok s end = Ok s1 ∧ inv s1 ∧
    freeing s s1 ∧ ∀ e, chan_of s1 c k ≠ Some (e, false)) as (s1 & -> & I1 & F1 & N1).
  { destruct (chan_of s c k) as [[e [|]]|] eqn:Ek; [exists s; split_and!; try done; congruence| |exists s; split_and!; try done; congruence].
    destruct (wired_ep _ _ _ _ _ (iv_wired _ Hs) Ek) as [x Hx].
    destruct (endpoint_teardown_ok s e x Hs Hx) as (s1 & H1 & I1 & [T1 T2 T3 T4]). exists s1. split_and!; [done|done|by split|].
    intros e' He'. pose proof (T3 _ _ _ _ He') as E. rewrite Ek in E. injection E as <-.
    destruct (wired_ep _ _ _ _ _ (iv_wired _ I1) He') as [y Hy]. destruct e as [p t]. cbn [fst snd] in T2.
    rewrite T2 in Hy by (by right). done. }
  rewrite res_bind_ok. destruct (IH s1 I1) as (s2 & H2 & I2 & F2 & N2). exists s2. split; [done|]. split; [done|]. split.
  - destruct F1 as [A1 A2], F2 as [B1 B2]. split; [eauto|]. intros c'. by rewrite B2, A2.
  - intros k' e [->|Hk]%elem_of_cons; [|by apply N2]. intros He. apply (N1 e). by apply (fr_chan _ _ F2).
Qed.

(** When a connection goes, nothing points to it any more. *)
Lemma drop_conn_ok s c :
  inv s → is_Some (conns s !! c) →
  ∃ s', drop_conn s c = Ok s' ∧ inv s' ∧ conns s' !! c = None ∧ (∀ c', c' ≠ c → is_Some (conns s' !! c') ↔ is_Some (conns s !! c')) ∧
    ∀ e r q, inter_at s' e ≠ Some (c, r, q).
Proof.
  intros Hs [cn Hc]. unfold drop_conn. rewrite Hc.
  assert (∃ s1, (if decide (proto_state cn = None) then Ok s else rtsp_conn_disconnect s c) = Ok s1 ∧ inv s1 ∧
    (∀ c', is_Some (conns s1 !! c') ↔ is_Some (conns s !! c')) ∧ ∀ k, chan_of s1 c k = None) as (s1 & -> & I1 & D1 & N1).
  { case_decide as Hp.
    - exists s. split_and!; try done. intros k. unfold chan_of. rewrite Hc. destruct cn as [? ps]. cbn in Hp. by rewrite Hp.
    - destruct (disconnect_loop_ok s c (seq 0 MAX_INTERLEAVE_CHANNELS) Hs) as (s1 & H1 & I1 & [A1 A2] & N1). exists s1.
      split_and!; try done. intros k. destruct (chan_of s1 c k) as [[e b]|] eqn:Ek; [|done]. exfalso.
      apply (wd_chan _ (iv_wired _ I1)) in Ek as (r & Hr & _).
      assert (chan_of s1 c r = Some (e, false)) as Hrtp by (apply (wd_chan _ (iv_wired _ I1)); by exists r).
      apply (N1 r e); [|done]. destruct (wired_has_chan _ _ _ _ _ (iv_wired _ I1) Hr) as [(ch & Hch & Hlt) _].
      destruct (conns s1 !! c) as [cn1|] eqn:Ec; [|done]. cbn in Hch. injection Hch as Hch.
      rewrite (co_chans _ (iv_conns _ I1 c cn1 Ec) ch Hch) in Hlt. apply elem_of_seq. lia. }
  rewrite res_bind_ok. eexists. split; [reflexivity|].
  assert (∀ c' k, chan_of (with_conns s1 (delete c (conns s1))) c' k = chan_of s1 c' k) as HC.
  { intros c' k. unfold chan_of at 1. cbn [with_conns conns]. destruct (decide (c = c')) as [<-|N].
    - by rewrite lookup_delete_eq, N1.
    - by rewrite lookup_delete_ne. }
  split; [|split; [apply lookup_delete_eq|split]].
  - destruct I1 as [J1 J2 J3 J4 J5]. split; cbn [with_conns conns sources rtsp_loc_list]; try done.
    + by apply map_Forall_delete.
    + by destruct J4.
    + by apply (wired_same s1).
  - intros c' N. cbn [with_conns conns]. by rewrite lookup_delete_ne, D1.
  - intros e r q He. change (inter_at s1 e = Some (c, r, q)) in He. pose proof (wd_pair _ (iv_wired _ I1) _ _ _ _ He) as ->.
    assert (chan_of s1 c r = Some (e, false)) as E by (apply (wd_chan _ (iv_wired _ I1)); by exists r). by rewrite N1 in E.
Qed.

(** ** Looking a location up *)

Lemma node_find_ok n l path len :
  Forall (loc_ok n) l → 0 ≤ len < 256 →
  ∃ r, node_find_location l path len = Ok r ∧ match r with Some loc => loc ∈ l | None => True end.
Proof.
  intros Hl Hlen. induction Hl as [|loc l Hloc _ IH]; cbn [node_find_location]; [by exists None|].
  destruct Hloc as [[Hz [p Hp]] _ _ _ _]. destruct IH as (r & IH & Hr). rewrite Hp, res_bind_ok. destruct (prefix_of p path).
  - destruct (rd_ok (l_path loc) len) as (x & -> & _); [lia|]. rewrite res_bind_ok. case_decide; [eexists; split; [done|set_solver]|].
    exists r. split; [done|]. destruct r; set_solver.
  - exists r. split; [done|]. destruct r; set_solver.
Qed.

Lemma strrchr_length l c r : strrchr l c = Some r → (length r ≤ length l)%nat.
Proof.
  revert r. induction l as [|x l IH]; intros r; simpl; [done|]. destruct (strrchr l c) as [r'|].
  - intros E. injection E as <-. specialize (IH r' eq_refl). lia.
  - case_decide; [intros E; by injection E as <-|done].
Qed.

Lemma path_track_len path : 0 ≤ (path_track path).2 ≤ zlen path.
Proof.
  unfold path_track. pose proof (zlen_nonneg path). destruct (strrchr path 47) as [c|] eqn:E; [|simpl; lia].
  apply strrchr_length in E. destruct (prefix_of _ c); [|simpl; lia]. destruct (strtol _) as [v [|? ?]]; simpl; unfold zlen in *; lia.
Qed.

Lemma local_path_len uri path : get_local_path uri = Some path → zlen path ≤ Z.max 1 (zlen uri).
Proof.
  unfold get_local_path. destruct (strcaseprefix _ _); [|done]. intros E. injection E as <-.
  destruct (strchr (drop 7 uri) 47) as [r|] eqn:E; simpl; [|unfold zlen; simpl; lia].
  apply strchr_length in E as [E _]. rewrite length_drop in E. unfold zlen, id. lia.
Qed.

(** Without a bound on the path, the array of [node_find_location] may be left. *)
Lemma node_find_elem l path len r :
  node_find_location l path len = Ok r → match r with Some loc => loc ∈ l | None => True end.
Proof.
  revert r. induction l as [|loc l IH]; intros r; cbn [node_find_location]; [by intros [= <-]|].
  destruct (cstr (l_path loc) 0) as [p|]; [|done]. rewrite res_bind_ok.
  assert (node_find_location l path len = Ok r → match r with Some loc' => loc' ∈ loc :: l | None => True end) as Hr.
  { intros E%IH. destruct r; set_solver. }
  destruct (prefix_of p path); [|done]. destruct (rd (l_path loc) len) as [x|]; [|done]. rewrite res_bind_ok.
  case_decide; [|done]. intros [= <-]. set_solver.
Qed.

Lemma find_location_elem l uri base track loc b t :
  find_rtsp_location l uri base track = Ok (Some (loc, b, t)) → loc ∈ l.
Proof.
  unfold find_rtsp_location. destruct (get_local_path uri) as [path|]; [|done].
  destruct (if track then path_track path else (-1, zlen path)) as [t' len].
  destruct (if decide (1 < len) then rd path (len - 1) else Ok 0) as [c|]; [|done]. rewrite res_bind_ok.
  destruct (base && _); [done|]. destruct (node_find_location l path _) as [r|] eqn:E; [|done]. rewrite res_bind_ok.
  apply node_find_elem in E. destruct r; [|done]. by intros [= <- _ _].
Qed.

Lemma find_location_ok n l uri base track :
  Forall (loc_ok n) l → zlen uri < 256 →
  ∃ r, find_rtsp_location l uri base track = Ok r ∧ match r with Some (loc, _, _) => loc ∈ l | None => True end.
Proof.
  intros Hl Hu. unfold find_rtsp_location. destruct (get_local_path uri) as [path|] eqn:Ep; [|by exists None].
  apply local_path_len in Ep. pose proof (zlen_nonneg path) as Hp0.
  assert (∃ t len, (if track then path_track path else (-1, zlen path)) = (t, len) ∧ 0 ≤ len ≤ zlen path) as (t & len & -> & Hlen).
  { destruct track; [|exists (-1), (zlen path); split; [done|lia]]. pose proof (path_track_len path).
    destruct (path_track path) as [t len]. by exists t, len. }
  assert (∃ c, (if decide (1 < len) then rd path (len - 1) else Ok 0) = Ok c) as [c ->].
  { case_decide; [|eauto]. destruct (rd_ok path (len - 1)) as (x & -> & _); [lia|eauto]. }
  rewrite res_bind_ok. set (len' := if decide _ then _ else len). assert (0 ≤ len' < 256) as Hl' by (unfold len'; case_decide; lia).
  rewrite bool_decide_eq_false_2, andb_false_r by lia.
  destruct (node_find_ok n l path len' Hl Hl') as (r & -> & Hr). rewrite res_bind_ok. eexists. split; [reflexivity|]. by destruct r.
Qed.

Lemma open_session_ok s loc :
  inv s → loc_ok (length (sources s)) loc →
  ∃ r, open_session s loc = Ok r ∧
    match r with
    | None => True
    | Some (s', p) => inv s' ∧ conns s' = conns s ∧ rs_list s' = rs_list s ∧ length (sources s') = length (sources s) ∧
        deref s p = None ∧ deref s' p = Some (mkLs p.2 (replicate MAX_TRACKS None) false None)
    end.
Proof.
  intros Hs [_ _ _ _ Hp]. unfold open_session. destruct (lookup_lt_is_Some_2 _ _ Hp) as [src Hi]. rewrite Hi.
  eexists. split; [reflexivity|]. destruct (live_open src) as [[src' sid]|] eqn:Eo; [|done].
  pose proof (Forall_lookup_1 _ _ _ _ (iv_sources _ Hs) Hi) as Hso.
  destruct (live_open_spec src src' sid Hso Eo) as (So & _ & Hn & Hx).
  assert (deref s (l_private loc, sid) = None) as Hd by (unfold deref; cbn [fst snd]; by rewrite Hi).
  destruct (inv_change s (l_private loc) src src' sid _ Hs Hi So Hx) as [I' D'].
  - by rewrite Hd.
  - intros t. rewrite Hd. cbn. unfold ep_of. simpl. by destruct t as [|[|[|]]].
  - split_and!; try done; [cbn; apply length_insert|]. rewrite D'. by rewrite decide_True.
Qed.

(** ** Connecting an endpoint *)

Definition set_trans (t : nat) (tr : ep_trans) (ls : live_session) : live_session :=
  match ep_of ls t with
  | Some e => set_ep t (Some (mkEndpoint (e_payload e) (e_max_data_size e) tr)) ls
  | None => ls
  end.

Lemma ep_of_set_trans t tr ls e i :
  ep_of ls t = Some e → (t < length (ls_ep ls))%nat →
  ep_of (set_trans t tr ls) i = if decide (i = t) then Some (mkEndpoint (e_payload e) (e_max_data_size e) tr) else ep_of ls i.
Proof. intros He Ht. unfold set_trans. rewrite He. by apply ep_of_set_ep. Qed.

Lemma update_ep_spec s p t tr src ls e :
  Forall source_ok (sources s) → sources s !! p.1 = Some src → deref s p = Some ls → ep_of ls t = Some e →
  ∃ src', update_ep s p t tr = with_source s p.1 src' ∧ source_ok src' ∧ only_changes src src' p.2 (Some (set_trans t tr ls)).
Proof.
  intros Hs Hi Hd He. unfold update_ep. rewrite Hi. eexists. split; [reflexivity|].
  pose proof (Forall_lookup_1 _ _ _ _ Hs Hi) as Hso.
  assert (find_sess src p.2 = Some ls) as Hf by (unfold deref in Hd; by rewrite Hi in Hd).
  destruct (session_eps src p.2 ls Hso Hf) as (Hid & Hl & Ha).
  assert (t ∈ active_tracks src) as Ht by (apply Ha; by rewrite He). pose proof (active_small _ _ Ht) as Ht2.
  apply (update_sess_spec src p.2 (set_trans t tr) ls Hso Hf).
  - intros x. unfold set_trans. by destruct (ep_of x t).
  - unfold set_trans. rewrite He. cbn. by rewrite length_insert.
  - intros i. rewrite (ep_of_set_trans t tr ls e) by (done || lia). case_decide; [by subst|apply Ha].
Qed.

(** Connected to nothing before, to a pair of sockets now. *)
Lemma udp_connect_ok s p t a port src ls e :
  inv s → sources s !! p.1 = Some src → deref s p = Some ls → ep_of ls t = Some e → e_trans e = TransNone →
  inv (update_ep s p t (TransUdp a port)) ∧
  ∃ ls', deref (update_ep s p t (TransUdp a port)) p = Some ls' ∧ ls_ctl ls' = ls_ctl ls.
Proof.
  intros Hs Hi Hd He Htr. destruct (update_ep_spec s p t (TransUdp a port) src ls e (iv_sources _ Hs) Hi Hd He) as (src' & -> & So & Hx).
  assert (t < length (ls_ep ls))%nat as Ht.
  { unfold ep_of in He. destruct (ls_ep ls !! t) eqn:E; [by eapply lookup_lt_Some|done]. }
  destruct p as [i sid]. cbn [fst snd] in *.
  assert (ls_ctl (set_trans t (TransUdp a port) ls) = ls_ctl ls) as Hc by (unfold set_trans; by rewrite He).
  destruct (inv_change s i src src' sid _ Hs Hi So Hx) as [I' D'].
  - rewrite Hd. done.
  - intros k. rewrite Hd. cbn. rewrite (ep_of_set_trans t _ ls e) by done. case_decide; [|done]. subst. rewrite He. by destruct e as [? ? []].
  - split; [done|]. eexists. split; [by rewrite D', decide_True|done].
Qed.

Lemma wired_connect s s' c k e :
  wired s → chan_of s c k = None → chan_of s c (S k) = None → inter_at s e = None →
  (∀ c' k', chan_of s' c' k' = if decide (c' = c ∧ k' = k) then Some (e, false)
                             else if decide (c' = c ∧ k' = S k) then Some (e, true) else chan_of s c' k') →
  (∀ e', inter_at s' e' = if decide (e' = e) then Some (c, k, S k) else inter_at s e') → wired s'.
Proof.
  intros [W1 W2] F1 F2 HN HC HI. split.
  - intros c' k' e' b. rewrite HC. split.
    + case_decide as E1; [destruct E1 as [-> ->]; intros E; injection E as <- <-; exists k; rewrite HI, decide_True by done; done|].
      case_decide as E2; [destruct E2 as [-> ->]; intros E; injection E as <- <-; exists k; rewrite HI, decide_True by done; done|].
      intros (r & Hr & ->)%W1. exists r. rewrite HI, decide_False; [done|]. intros ->. by rewrite HN in Hr.
    + intros (r & Hr & ->). rewrite HI in Hr. destruct (decide (e' = e)) as [->|N].
      * injection Hr as <- <-. destruct b; [rewrite decide_False by lia; by rewrite decide_True|by rewrite decide_True].
      * assert (chan_of s c' (if b then S r else r) = Some (e', b)) as E by (apply W1; by exists r).
        rewrite decide_False by (intros [-> E']; rewrite E' in E; congruence).
        rewrite decide_False by (intros [-> E']; rewrite E' in E; congruence). done.
  - intros e' c' r q. rewrite HI. case_decide; [intros E; by injection E as <- <- <-|apply W2].
Qed.

Lemma interleave_chans_free rc t k :
  (∀ ch, rc = Some ch → length ch = MAX_INTERLEAVE_CHANNELS) → interleave_chans rc t = Some k →
  (S k < MAX_INTERLEAVE_CHANNELS)%nat ∧ ∀ ch, rc = Some ch → ch !! k = Some None ∧ ch !! S k = Some None.
Proof.
  intros Hrc. assert (∀ ch i, is_free ch i = true → ch !! i = Some None) as HF.
  { intros ch i. unfold is_free. by destruct (ch !! i) as [[|]|]. }
  unfold interleave_chans, MAX_INTERLEAVE_CHANNELS in *. destruct (strstr t _) as [q|].
  - destruct (transport_number q 11) as [n|]; [|done]. case_decide as Hn; [done|]. destruct rc as [ch|].
    + destruct (is_free ch _ && is_free ch _) eqn:Ef; [|done]. intros E. injection E as <-. apply andb_prop in Ef as [F1 F2].
      split; [lia|]. intros ch' E. injection E as <-. auto.
    + intros E. injection E as <-. split; [lia|done].
  - destruct rc as [ch|]; [|intros E; injection E as <-; split; [lia|done]].
    intros ([i k'] & (Hi & Hk & _)%list_find_Some & ->)%fmap_Some. cbn [snd]. apply andb_prop in Hk as [F1 F2]. split.
    + apply list_elem_of_lookup_2 in Hi. set_unfold in Hi. lia.
    + intros ch' E. injection E as <-. auto.
Qed.

Lemma fmt_d_nonzero z : nonzero (fmt_d z).
Proof.
  destruct (decide (0 ≤ z)) as [Hz|Hz].
  - destruct (fmt_d_digits z Hz) as (_ & Hd & _). apply (Forall_impl _ _ _ Hd). unfold is_digit. lia.
  - destruct (fmt_d_digits (- z) ltac:(lia)) as (_ & Hd & _). destruct z as [|p|p]; [lia|lia|]. unfold fmt_d in *.
    change (pretty (Z.neg p)) with ("-" +:+ pretty (Z.pos p))%string.
    apply Forall_cons_2; [done|]. change (- Z.neg p) with (Z.pos p) in Hd. apply (Forall_impl _ _ _ Hd). unfold is_digit. lia.
Qed.

(** The channels of a connection, all free before the first SETUP. *)
Definition chans (cn : conn) : list ichan := default (replicate MAX_INTERLEAVE_CHANNELS None) (proto_state cn).

Lemma chan_of_chans s c cn k : conns s !! c = Some cn → chan_of s c k = mjoin (chans cn !! k).
Proof.
  intros Hc. rewrite chan_of_proto, Hc. cbn. unfold chans. destruct (proto_state cn); [done|]. cbn [default].
  match goal with |- context [mjoin ?l] => destruct l as [x|] eqn:E end; [|done].
  apply lookup_replicate in E as [-> _]. done.
Qed.

(** Two channels connected to an endpoint. *)
Lemma chan_of_connected s s' c cn k e :
  conns s !! c = Some cn → (S k < length (chans cn))%nat →
  conns s' = <[c := mkConn (c_send cn) (Some (<[S k := Some (e, true)]> (<[k := Some (e, false)]> (chans cn))))]> (conns s) →
  ∀ c' k', chan_of s' c' k' = if decide (c' = c ∧ k' = k) then Some (e, false) else
    if decide (c' = c ∧ k' = S k) then Some (e, true) else chan_of s c' k'.
Proof.
  intros Hc Hk E c' k'. rewrite chan_of_proto, E.
  destruct (decide (c = c')) as [<-|N]; [|rewrite lookup_insert_ne, <- chan_of_proto by done; by rewrite !decide_False by naive_solver].
  rewrite lookup_insert_eq. cbn. destruct (decide (k' = k)) as [->|N1].
  - rewrite list_lookup_insert_ne, list_lookup_insert_eq by (unfold ichan in *; lia). by rewrite decide_True.
  - rewrite (decide_False (P := c = c ∧ k' = k)) by tauto. destruct (decide (k' = S k)) as [->|N2].
    + rewrite list_lookup_insert_eq by (rewrite length_insert; unfold ichan in *; lia). by rewrite decide_True.
    + rewrite !list_lookup_insert_ne by done. by rewrite decide_False, (chan_of_chans s c cn) by tauto.
Qed.

Lemma interleave_setup_ok s c p t tr src ls e :
  inv s → is_Some (conns s !! c) → sources s !! p.1 = Some src → deref s p = Some ls → ep_of ls t = Some e → e_trans e = TransNone →
  ∃ r, rtsp_interleave_setup s c p t tr = Ok r ∧
    match r with
    | None => True
    | Some (s', text) => inv s' ∧ nonzero text ∧ (∀ c', is_Some (conns s' !! c') ↔ is_Some (conns s !! c')) ∧
        ∃ ls', deref s' p = Some ls' ∧ ls_ctl ls' = ls_ctl ls
    end.
Proof.
  intros Hs [cn Hc] Hi Hd He Htr. unfold rtsp_interleave_setup. rewrite Hc.
  destruct (interleave_chans (proto_state cn) tr) as [k|] eqn:Ek; [|by exists None].
  destruct (iv_conns _ Hs c cn Hc) as [Hq Hch]. destruct (interleave_chans_free _ _ _ Hch Ek) as [Hk Hfree].
  eexists. split; [reflexivity|].
  fold (chans cn).
  assert (length (chans cn) = MAX_INTERLEAVE_CHANNELS ∧ chans cn !! k = Some None ∧ chans cn !! S k = Some None) as (Lch & F1 & F2).
  { unfold chans. destruct (proto_state cn) as [ch0|]; cbn [default]; [split; [by apply Hch|by apply Hfree]|].
    split; [apply length_replicate|]. split; apply lookup_replicate_2; lia. }
  pose proof (λ k', chan_of_chans s c cn k' Hc) as Hcs.
  set (ch' := <[S k := _]> _). set (s0 := with_conns s _).
  destruct (update_ep_spec s0 p t (TransInter c k (S k)) src ls e (iv_sources _ Hs) Hi Hd He) as (src' & -> & So & Hx).
  assert (t < length (ls_ep ls))%nat as Ht by (unfold ep_of in He; destruct (ls_ep ls !! t) eqn:E; [by eapply lookup_lt_Some|done]).
  set (ls' := set_trans t _ ls) in *.
  assert (∀ q, deref (with_source s0 p.1 src') q = if decide (q = p) then Some ls' else deref s q) as HD.
  { intros q. rewrite (deref_with_source s0 p.1 src src' p.2 (Some ls') q Hi Hx). by destruct p. }
  assert (ls_ctl ls' = ls_ctl ls) as Hctl by (unfold ls', set_trans; by rewrite He).
  assert (∀ e', inter_at (with_source s0 p.1 src') e' = if decide (e' = (p, t)) then Some (c, k, S k) else inter_at s e') as HI.
  { intros [q i]. unfold inter_at, get_ep. cbn [fst snd]. rewrite HD. destruct (decide (q = p)) as [->|N].
    - rewrite Hd. cbn [mbind option_bind]. unfold ls'. rewrite (ep_of_set_trans t _ ls e) by done. destruct (decide (i = t)) as [->|N'].
      + by rewrite decide_True.
      + by rewrite decide_False by congruence.
    - by rewrite decide_False by congruence. }
  split; [|split; [|split]].
  - destruct Hs as [J1 J2 J3 J4 J5]. split; cbn [with_source with_conns sources conns rtsp_loc_list s0].
    + by apply Forall_insert.
    + apply map_Forall_insert_2; [|done]. split; [done|]. intros x E. injection E as <-. unfold ch'. by rewrite !length_insert.
    + by rewrite length_insert.
    + apply (linked_change s _ p (Some ls') J4); [done|done|exact HD|]. by rewrite Hd.
    + apply (wired_connect s _ c k (p, t) J5); [by rewrite Hcs, F1|by rewrite Hcs, F2| | |exact HI].
      * unfold inter_at, get_ep. cbn [fst snd]. rewrite Hd. cbn. rewrite He. by destruct e as [? ? []].
      * apply (chan_of_connected s _ c cn k (p, t) Hc); [lia|done].
  - repeat apply nonzero_app; first [apply fmt_d_nonzero | closed_nonzero].
  - intros c'. cbn [with_source with_conns conns s0]. destruct (decide (c = c')) as [<-|N]; [rewrite lookup_insert_eq, Hc; split; eauto|by rewrite lookup_insert_ne].
  - exists ls'. rewrite HD, decide_True by done. done.
Qed.

Lemma transport_setup_ok s c w p t tr src ls e :
  inv s → is_Some (conns s !! c) → sources s !! p.1 = Some src → deref s p = Some ls → ep_of ls t = Some e → e_trans e = TransNone →
  ∃ r, transport_setup s c w p t tr = Ok r ∧
    match r with
    | None => True
    | Some (s', text) => inv s' ∧ nonzero text ∧ is_Some (conns s' !! c) ∧ rs_list s' = rs_list s ∧
        ∃ ls', deref s' p = Some ls' ∧ ls_ctl ls' = ls_ctl ls
    end.
Proof.
  intros Hs Hc Hi Hd He Htr. unfold transport_setup. destruct (strcaseprefix tr $"RTP/AVP/TCP").
  - destruct (interleave_setup_ok s c p t tr src ls e Hs Hc Hi Hd He Htr) as (r & E & Hr). rewrite E. exists r. split; [done|].
    destruct r as [[s' text]|]; [|done]. destruct Hr as (H1 & H2 & H3 & H4). split_and!; try done; [by apply H3|].
    unfold rtsp_interleave_setup in E. destruct (conns s !! c) as [cn|]; [|done]. destruct (interleave_chans _ tr) as [k|]; [|done].
    injection E as <- _. unfold update_ep. by destruct (sources (with_conns s _) !! p.1).
  - destruct (_ || _); [|by exists None]. eexists. split; [reflexivity|]. unfold rtsp_udp_setup.
    destruct (strstr tr _) as [q|]; [|done]. destruct (transport_number q 11) as [cport|]; [|done].
    destruct (connect_udp_endpoint _ _ _) as [port|]; [|done].
    destruct (udp_connect_ok s p t (w_addr w) port src ls e Hs Hi Hd He Htr) as [I' L']. split_and!; try done.
    + repeat apply nonzero_app; first [apply fmt_d_nonzero | closed_nonzero].
    + unfold update_ep. rewrite Hi. done.
    + unfold update_ep. by rewrite Hi.
Qed.

Lemma random_id_nonzero rnd : nonzero (random_id rnd).
Proof.
  unfold random_id. pose proof (random_bytes_ok rnd) as Hb. induction Hb as [|b l Hb _ IH]; [constructor|].
  rewrite fmap_cons, concat_cons. apply nonzero_app; [|done]. unfold is_byte in Hb.
  assert (∀ n, 0 ≤ n → hex_digit true n ≠ 0) as H by (intros n Hn; unfold hex_digit; case_decide; lia).
  apply Forall_cons_2; [apply H, Z.div_pos; lia|]. apply Forall_cons_2; [apply H, Z.mod_pos_bound; lia|apply Forall_nil_2].
Qed.

Lemma new_rtsp_session_ok s w p ls :
  inv s → deref s p = Some ls → ls_ctl ls = None →
  inv (new_rtsp_session s w p).1 ∧ conns (new_rtsp_session s w p).1 = conns s ∧ nonzero (rs_id (new_rtsp_session s w p).2).
Proof.
  intros Hs Hd Hn. unfold new_rtsp_session. destruct (sources s !! p.1) as [src|] eqn:Hi; [|by unfold deref in Hd; rewrite Hi in Hd].
  cbn [fst snd]. split; [|split; [done|apply random_id_nonzero]].
  pose proof (Forall_lookup_1 _ _ _ _ (iv_sources _ Hs) Hi) as Hso.
  assert (find_sess src p.2 = Some ls) as Hf by (unfold deref in Hd; by rewrite Hi in Hd).
  destruct (session_eps src p.2 ls Hso Hf) as (_ & Hl & Ha).
  destruct (update_sess_spec src p.2 (set_ctl (Some (next_rs s))) ls Hso Hf) as [So Hx]; [done|done|done|].
  set (src' := update_sess src p.2 (set_ctl (Some (next_rs s)))) in *. set (s' := with_rs _ _ _).
  assert (∀ q, deref s' q = if decide (q = p) then Some (set_ctl (Some (next_rs s)) ls) else deref s q) as HD.
  { intros q. change (deref s' q) with (deref (with_source s p.1 src') q). rewrite (deref_with_source s p.1 src src' p.2 _ q Hi Hx). by destruct p. }
  destruct Hs as [J1 J2 J3 [K1 K2 K3 K4] J5]. split; cbn [s' with_rs with_source sources conns rtsp_loc_list].
  - by apply Forall_insert.
  - done.
  - by rewrite length_insert.
  - split; cbn [s' with_rs rs_list next_rs].
    + intros rs [->|Hrs]%elem_of_cons; rewrite HD.
      * cbn [rs_sess rs_ptr]. rewrite decide_True by done. eauto.
      * destruct (K1 rs Hrs) as (l & H1 & H2). rewrite decide_False; [eauto|]. intros E. rewrite E, Hd in H1. congruence.
    + intros q l k. rewrite HD. case_decide as E.
      * intros E1 E2. injection E1 as <-. cbn in E2. injection E2 as <-. subst q. eexists. split; [by left|done].
      * intros H1 H2. destruct (K2 q l k H1 H2) as (rs & R1 & R2). exists rs. split; [by right|done].
    + simpl. apply NoDup_cons. split; [|done]. intros (rs & Er & Hrs)%list_elem_of_fmap_1.
      pose proof (proj1 (Forall_forall _ _) K4 rs Hrs) as [Hlt _]. lia.
    + apply Forall_cons_2; [split; [simpl; lia|apply random_id_nonzero]|].
      apply (Forall_impl _ _ _ K4). intros rs [? ?]. split; [simpl in *; lia|done].
  - apply (wired_same s); [done|done|]. eapply inter_change; [exact HD|]. intros t. by rewrite Hd.
Qed.

(** ** The handlers *)

Section Handlers.
Context (c : nat) (w : world) (req : pmsg) (method uri : list Z) (hs : list (list Z * list Z)).
Hypothesis Hw : length (w_heap w) = 512%nat.
Hypothesis Hrq : req_ok req method uri hs.

(** The request is answered or dropped, and the state is good; only a long URI
    can end in a fault. *)
Definition served (r : res server) : Prop :=
  (∃ s', r = Ok s' ∧ inv s' ∧ is_Some (conns s' !! c)) ∨ (256 ≤ zlen uri ∧ ∃ f, r = Fault f).

Lemma served_ok r s' : r = Ok s' → inv s' → is_Some (conns s' !! c) → served r.
Proof. left. eauto. Qed.

(** Looking the URI up, then going on with a location of the list. *)
Lemma find_served l base track (k : option (rtsp_location * list Z * Z) → res server) n :
  Forall (loc_ok n) l →
  (∀ r, match r with Some (loc, _, _) => loc_ok n loc | None => True end → served (k r)) →
  served (find_rtsp_location l uri base track ≫= k).
Proof.
  intros Hl Hk. destruct (find_rtsp_location l uri base track) as [r|f] eqn:E.
  - rewrite res_bind_ok. apply Hk. destruct r as [[[loc b] t]|]; [|done].
    apply find_location_elem in E. by apply (proj1 (Forall_forall _ _) Hl).
  - right. split; [|by exists f]. destruct (decide (zlen uri < 256)) as [Hu|]; [|lia].
    destruct (find_location_ok n l uri base track Hl Hu) as (r & E' & _). congruence.
Qed.

Definition ready_for (s : server) : Prop := inv s ∧ is_Some (conns s !! c).

Lemma served_error s code reason :
  ready_for s → 100 ≤ code ≤ 999 → nonzero reason → zlen reason < 100 → served (rtsp_send_error s c w req code reason).
Proof.
  intros [Hs Hc] H1 H2 H3. destruct (send_error_ok s c w req hs code reason Hs Hc Hw (rq_headers _ _ _ _ Hrq) H1 H2 H3)
    as (s' & E & I' & _ & C'). by eapply served_ok.
Qed.

Lemma served_send s m len body : ready_for s → reply_ok m → len < 2147483648 → served (send_reply s c m len body).
Proof. intros [Hs Hc] Hm Hl. destruct (send_reply_ok s c m len body Hs Hc Hm Hl) as (s' & E & I' & _ & C'). by eapply served_ok. Qed.

Lemma reply_bind {B} code reason (k : pmsg → res B) :
  100 ≤ code ≤ 999 → nonzero reason → zlen reason < 100 →
  ∃ m, reply_ok m ∧ rtsp_create_reply w req code reason ≫= k = k m.
Proof.
  intros H1 H2 H3. destruct (create_reply_ok w req hs code reason Hw (rq_headers _ _ _ _ Hrq) H1 H2 H3) as (m & -> & Hm). by exists m.
Qed.

Lemma header_bind {B} name (k : option (list Z) → res B) : get_header req name ≫= k = k (assoc_header hs name).
Proof. by rewrite (get_header_strings _ _ _ (rq_headers _ _ _ _ Hrq)), res_bind_ok. Qed.

Lemma get_session_ok s id rs :
  inv s → get_session s id = Some rs →
  nonzero (rs_id rs) ∧ ∃ src ls, sources s !! (rs_sess rs).1 = Some src ∧ deref s (rs_sess rs) = Some ls ∧ find_sess src (rs_sess rs).2 = Some ls.
Proof.
  intros Hs. unfold get_session. destruct id as [id|]; [|done].
  intros ([i x] & (Hi & _)%list_find_Some & ->)%fmap_Some. cbn [snd]. apply list_elem_of_lookup_2 in Hi.
  split; [by apply (proj1 (Forall_forall _ _) (lk_ids _ (iv_linked _ Hs)))|].
  destruct (lk_rs _ (iv_linked _ Hs) x Hi) as (ls & Hd & _). unfold deref in Hd.
  destruct (sources s !! (rs_sess x).1) as [src|] eqn:E; [|done]. exists src, ls. split; [done|]. split; [|done]. unfold deref. by rewrite E.
Qed.

Ltac err := apply served_error; [assumption|lia|closed_nonzero|vm_compute; reflexivity].
Ltac reply m Hm := match goal with |- context [rtsp_create_reply w req ?code ?reason ≫= ?k] =>
    destruct (reply_bind code reason k) as (m & Hm & ->); [lia|closed_nonzero|vm_compute; reflexivity|] end.

Lemma options_ok s : ready_for s → served (handle_OPTIONS s c w req).
Proof.
  intros Hs. unfold handle_OPTIONS. reply m Hm. apply served_send; [done| |lia].
  apply add_header_reply; [done|closed_nonzero|closed_nonzero].
Qed.

Lemma sdp_tracks_bound l ls t :
  (∀ i, ep_of ls i = None) → (t + length l < 10)%nat →
  Forall (λ m, ∀ md p port, m = Some md → zlen (get_sdp md p port) ≤ 2048) (rtp <$> l) →
  match sdp_tracks l ls t with Some (_, text) => zlen text ≤ zlen l * 2100 | None => True end.
Proof.
  intros He. revert t. induction l as [|[[md|] rd wt] l IH]; intros t Ht HF; cbn [sdp_tracks]; [unfold zlen; simpl; lia| |].
  - cbn [length fmap list_fmap rtp] in *. apply Forall_cons in HF as [H1 HF]. destruct rd; [|done].
    specialize (IH (S t) ltac:(lia) HF). destruct (sdp_tracks l ls (S t)) as [[n text]|]; [|done].
    assert (sdp_port ls t = 0) as Ep by (unfold sdp_port; by rewrite He).
    destruct (fmt_d_digits (Z.of_nat t) ltac:(lia)) as (_ & _ & _ & Hk). specialize (Hk 1%nat ltac:(lia) ltac:(simpl; lia)).
    unfold sdp_track. rewrite Ep, decide_True by done. rewrite !zlen_app, zlen_cons.
    specialize (H1 md (96 + Z.of_nat t) 0 eq_refl). unfold zlen in *. simpl in *. lia.
  - unfold zlen. simpl. lia.
Qed.

Lemma sdp_bound src ls :
  source_ok src → (∀ t, ep_of ls t = None) → ∃ n text, live_get_sdp src ls (8192 - 2) = Ok (n, text) ∧ zlen text < 8190.
Proof.
  intros Hs He. unfold live_get_sdp. destruct (track src) as [|[[md|] [|] wt] l] eqn:Et;
    try (eexists _, _; split; [reflexivity|vm_compute; reflexivity]). rewrite <- Et. rewrite He.
  pose proof (so_sdp _ Hs) as HF.
  pose proof (sdp_tracks_bound (take MAX_TRACKS (track src)) ls 0 He) as HB.
  destruct (sdp_tracks (take MAX_TRACKS (track src)) ls 0) as [[n text]|]; [|by exists 0, []].
  assert (zlen text ≤ 4200) as Ht.
  { assert (zlen (take MAX_TRACKS (track src)) ≤ 2) by (unfold zlen, MAX_TRACKS; rewrite length_take; lia).
    assert (zlen text ≤ zlen (take MAX_TRACKS (track src)) * 2100) as H1; [|lia].
    apply HB; [unfold MAX_TRACKS; rewrite length_take; lia|]. rewrite fmap_take. by apply Forall_take. }
  set (T := _ ++ _). assert (zlen T ≤ zlen text + 200) as HT.
  { unfold T. rewrite !zlen_app. unfold zlen. simpl. lia. }
  rewrite decide_False by lia. exists n, T. split; [done|lia].
Qed.

(** A teardown after which the connection is still there. *)
Lemma teardown_ready s p ls ep :
  ready_for s → deref s p = Some ls → ∃ s', session_teardown s p ep = Ok s' ∧ ready_for s'.
Proof.
  intros [Hs Hc] Hd. destruct (session_teardown_ok s p ls ep Hs Hd) as (s' & E & I' & T'). exists s'. split; [done|].
  split; [done|]. by apply (td_dom _ _ _ _ T').
Qed.

(** The answer of DESCRIBE; its base URI is formatted in 512 bytes. *)
Lemma describe_reply_ok s n sdp :
  ready_for s → zlen sdp < 8190 →
  let answer :=
    if decide (0 < n) then
      m ← rtsp_create_reply w req 200 $"OK";
      if decide (512 ≤ zlen uri + 1) then Fault OutOfBounds else
      send_reply s c (fst (add_header (fst (add_header m $"Content-Base" (uri ++ $"/"))) $"Content-Type" $"application/sdp")) (zlen sdp) sdp
    else rtsp_send_error s c w req 404 $"Not Found" in
  (∃ s', answer = Ok s' ∧ inv s' ∧ same_graph s s' ∧ is_Some (conns s' !! c)) ∨ (256 ≤ zlen uri ∧ answer = Fault OutOfBounds).
Proof.
  intros [Hs Hc] Hn. cbv zeta. destruct (decide (0 < n)).
  - reply m Hm. case_decide; [right; split; [lia|done]|]. left. apply send_reply_ok; [done|done| |lia].
    apply add_header_reply; [apply add_header_reply; [done|closed_nonzero|]|closed_nonzero|closed_nonzero].
    apply nonzero_app; [|closed_nonzero]. pose proof (rq_uri _ _ _ _ Hrq) as Hu. unfold req_uri in Hu.
    destruct (sl req); [by eapply cstr_nonzero|done].
  - left. apply (send_error_ok s c w req hs); [done|done|done|apply (rq_headers _ _ _ _ Hrq)|lia|closed_nonzero|vm_compute; reflexivity].
Qed.

Lemma describe_ok s : ready_for s → served (handle_DESCRIBE s c w req).
Proof.
  intros Hr. pose proof Hr as [Hs Hc]. unfold handle_DESCRIBE. rewrite (rq_uri _ _ _ _ Hrq), res_bind_ok.
  apply (find_served _ _ _ _ _ (iv_locs _ Hs)). intros r Hlo. destruct r as [[[loc base] t]|]; [|err].
  destruct (open_session_ok s loc Hs Hlo) as (r & -> & Ho). rewrite res_bind_ok.
  destruct r as [[s1 p]|]; [|err]. destruct Ho as (I1 & C1 & _ & L1 & _ & D1).
  destruct (verify_auth_ok s1 c w req method uri hs loc I1) as (s2 & ok & -> & I2 & G2 & C2);
    [by rewrite C1|done|done|by rewrite L1|]. rewrite res_bind_ok.
  destruct ok; cbn [negb]; [|by eapply served_ok]. rewrite (same_graph_deref s1 s2 p G2), D1.
  assert (∃ src, sources s2 !! p.1 = Some src) as [src Hi].
  { rewrite (sg_sources _ _ G2). unfold deref in D1. destruct (sources s1 !! p.1); [eauto|done]. }
  rewrite Hi. set (ls := mkLs _ _ _ _).
  destruct (sdp_bound src ls) as (n & sdp & -> & Hn).
  { by eapply Forall_lookup_1; [apply (iv_sources _ I2)|]. } { by intros [|[|[|]]]. }
  rewrite res_bind_ok. cbv zeta.
  destruct (describe_reply_ok s2 n sdp) as [(s3 & -> & I3 & G3 & C3)|[Hu ->]]; [by split|done| |right; by eauto].
  rewrite res_bind_ok.
  destruct (teardown_ready s3 p ls None) as (s4 & E4 & I4 & C4); [by split| |by eapply served_ok].
  by rewrite (same_graph_deref s2 s3 p G3), (same_graph_deref s1 s2 p G2).
Qed.

Lemma play_ok s : ready_for s → served (handle_PLAY s c w req).
Proof.
  intros Hr. pose proof Hr as [Hs Hc]. unfold handle_PLAY. rewrite header_bind.
  destruct (get_session s _) as [rs|] eqn:E; [|err].
  destruct (get_session_ok s _ rs Hs E) as (Hid & src & ls & Hi & Hd & Hf). rewrite Hi, Hd. cbv zeta. reply m Hm.
  apply served_send; [|by apply add_header_reply; [done|closed_nonzero|]|lia]. split; [|done].
  pose proof (Forall_lookup_1 _ _ _ _ (iv_sources _ Hs) Hi) as Hso.
  destruct (live_play_ok src _ ls Hso Hf) as (So & _ & Hx). destruct (rs_sess rs) as [i sid]. cbn [fst snd] in *.
  eapply (inv_change s i src); [done|done|done|exact Hx| |]; by rewrite Hd.
Qed.

Lemma pause_ok s : ready_for s → served (handle_PAUSE s c w req).
Proof.
  intros Hr. unfold handle_PAUSE. rewrite header_bind. destruct (get_session s _); err.
Qed.

Lemma teardown_ok s : ready_for s → served (handle_TEARDOWN s c w req).
Proof.
  intros Hr. pose proof Hr as [Hs Hc]. unfold handle_TEARDOWN. rewrite (rq_uri _ _ _ _ Hrq), res_bind_ok.
  apply (find_served _ _ _ _ _ (iv_locs _ Hs)). intros r _. destruct r as [[[loc base] track]|]; [|err]. case_decide; [err|]. rewrite header_bind.
  destruct (get_session s _) as [rs|] eqn:E; [|err].
  destruct (get_session_ok s _ rs Hs E) as (Hid & src & ls & Hi & Hd & Hf). reply m Hm. rewrite Hd. cbv zeta.
  match goal with |- context [session_teardown s (rs_sess rs) ?ep] => destruct (teardown_ready s (rs_sess rs) ls ep Hr Hd) as (s' & -> & Hr') end.
  rewrite res_bind_ok. apply served_send; [done| |lia]. by apply add_header_reply; [done|closed_nonzero|].
Qed.

Lemma setup_session_ok s p rs track t src ls :
  ready_for s → sources s !! p.1 = Some src → deref s p = Some ls → (track < MAX_TRACKS)%nat →
  match rs with Some r => nonzero (rs_id r) | None => ls_ctl ls = None end →
  served (setup_session s c w req p rs track t).
Proof.
  intros Hr Hi Hd Ht Hrs. pose proof Hr as [Hs Hc]. unfold setup_session. rewrite Hi, Hd.
  case_decide as Hep; [err|]. pose proof (Forall_lookup_1 _ _ _ _ (iv_sources _ Hs) Hi) as Hso.
  assert (find_sess src p.2 = Some ls) as Hf by (unfold deref in Hd; by rewrite Hi in Hd).
  assert (ep_of ls track = None) as Hno by (destruct (ep_of ls track); [exfalso; apply Hep; eauto|done]).
  destruct (live_setup src p.2 track) as [src'|] eqn:Es.
  2: { destruct (send_error_ok s c w req hs 404 $"Not Found" Hs Hc Hw (rq_headers _ _ _ _ Hrq) ltac:(lia) ltac:(closed_nonzero) ltac:(vm_compute; reflexivity))
        as (s1 & -> & I1 & G1 & C1). rewrite res_bind_ok. destruct rs; [by eapply served_ok|].
      destruct (teardown_ready s1 p ls None) as (s2 & E2 & I2 & C2); [by split|by rewrite (same_graph_deref s s1)|by eapply served_ok]. }
  destruct (live_setup_spec src src' p.2 track ls Hso Hf Ht Es) as (So & _ & e & Hte & Hx).
  destruct (session_eps src p.2 ls Hso Hf) as (_ & Hlen & _).
  set (ls1 := set_ep track (Some e) ls) in *. set (s1 := with_source s p.1 src').
  assert (inv s1 ∧ deref s1 p = Some ls1) as [I1 D1].
  { destruct p as [i sid]. cbn [fst snd] in *. destruct (inv_change s i src src' sid (Some ls1) Hs Hi So Hx) as [I1 D1].
    - by rewrite Hd.
    - intros k. rewrite Hd. cbn [mbind option_bind]. unfold ls1. rewrite ep_of_set_ep by lia. case_decide; [|done].
      subst. rewrite Hno. by destruct e as [? ? []].
    - split; [done|]. unfold s1. by rewrite D1, decide_True. }
  assert (sources s1 !! p.1 = Some src') as Hi1 by (cbn; apply list_lookup_insert_eq; by eapply lookup_lt_Some).
  assert (ep_of ls1 track = Some e) as He1 by (unfold ls1; rewrite ep_of_set_ep, decide_True by (done || lia); done).
  reply m Hm. destruct (transport_setup_ok s1 c w p track t src' ls1 e I1 Hc Hi1 D1 He1 Hte) as (r & -> & HT). rewrite res_bind_ok.
  destruct r as [[s2 text]|].
  - destruct HT as (I2 & Ht2 & C2 & R2 & ls2 & D2 & K2).
    assert (∃ s3 r3, match rs with Some r => (s2, r) | None => new_rtsp_session s2 w p end = (s3, r3) ∧ ready_for s3 ∧ nonzero (rs_id r3))
      as (s3 & r3 & -> & Hr3 & Hid).
    { destruct rs as [r|]; [by exists s2, r|]. destruct (new_rtsp_session_ok s2 w p ls2 I2 D2) as (N1 & N2 & N3); [by rewrite K2|].
      eexists _, _. split; [apply surjective_pairing|]. split; [split; [done|by rewrite N2]|done]. }
    apply served_send; [done| |lia]. apply add_header_reply; [apply add_header_reply; [done|closed_nonzero|done]|closed_nonzero|done].
  - destruct (send_error_ok s1 c w req hs 461 $"Unsupported Transport" I1 Hc Hw (rq_headers _ _ _ _ Hrq) ltac:(lia) ltac:(closed_nonzero) ltac:(vm_compute; reflexivity))
      as (s2 & -> & I2 & G2 & C2). rewrite res_bind_ok.
    destruct (teardown_ready s2 p ls1 (Some track)) as (s3 & E3 & I3 & C3); [by split|by rewrite (same_graph_deref s1 s2)|by eapply served_ok].
Qed.

Lemma setup_ok s : ready_for s → served (handle_SETUP s c w req).
Proof.
  intros Hr. pose proof Hr as [Hs Hc]. unfold handle_SETUP. rewrite (rq_uri _ _ _ _ Hrq), res_bind_ok.
  apply (find_served _ _ _ _ _ (iv_locs _ Hs)). intros r Hlo.
  destruct r as [[[loc base] track]|]; [|err]. case_decide as Htr; [err|].
  destruct (verify_auth_ok s c w req method uri hs loc Hs Hc Hw Hrq Hlo) as (s1 & ok & -> & I1 & G1 & C1). rewrite res_bind_ok.
  destruct ok; cbn [negb]; [|by eapply served_ok]. assert (ready_for s1) as Hr1 by (by split). rewrite header_bind.
  destruct (assoc_header hs $"Transport") as [t|]; [|err]. rewrite header_bind.
  assert (Z.to_nat track < MAX_TRACKS)%nat as Ht by (unfold MAX_TRACKS in *; lia).
  destruct (assoc_header hs $"Session") as [id|].
  - destruct (get_session s1 (Some id)) as [rs|] eqn:E; [|err].
    destruct (get_session_ok s1 _ rs I1 E) as (Hid & src & ls & Hi & Hd & _).
    by apply (setup_session_ok s1 (rs_sess rs) (Some rs) (Z.to_nat track) t src ls).
  - destruct (open_session_ok s1 loc I1) as (r & -> & Ho); [by rewrite (sg_sources _ _ G1)|]. rewrite res_bind_ok.
    destruct r as [[s2 p]|]; [|err]. destruct Ho as (I2 & C2 & _ & _ & _ & D2).
    assert (∃ src, sources s2 !! p.1 = Some src) as [src Hi] by (unfold deref in D2; destruct (sources s2 !! p.1); [eauto|done]).
    eapply (setup_session_ok s2 p None (Z.to_nat track) t src); [split; [done|by rewrite C2]|done|exact D2|done|done].
Qed.

Lemma handle_msg_ok s : ready_for s → served (rtsp_handle_msg s c w req).
Proof.
  intros Hr. unfold rtsp_handle_msg. rewrite (rq_method _ _ _ _ Hrq), res_bind_ok.
  destruct (strcaseeq method $"OPTIONS"); [by apply options_ok|]. destruct (strcaseeq method $"DESCRIBE"); [by apply describe_ok|].
  destruct (strcaseeq method $"SETUP"); [by apply setup_ok|]. destruct (strcaseeq method $"PLAY"); [by apply play_ok|].
  destruct (strcaseeq method $"PAUSE"); [by apply pause_ok|]. destruct (strcaseeq method $"TEARDOWN"); [by apply teardown_ok|].
  unfold handle_unknown. err.
Qed.

End Handlers.
