(* ===== verification/RtspRun.v ===== *)
(** * RtspRun: runs of the RTSP server

    The events the server meets, each as one step on the state of [Rtsp]: the
    event loop handles one at a time. The theorems say what holds in every
    state a run can reach, how a URI finds its location and track, and what a
    request without authorization leaves behind. *)

From stdpp Require Import prelude gmap strings pretty.
From S2P Require Import Prelude Rtp Pmsg SendBuf HttpAuth Live Rtsp RtspInv.

Local Open Scope c_scope.

(** ** The server as a transition system *)

(** One RTP or RTCP packet of an endpoint and the kernel's answers: to the
    [sendmsg] of a UDP endpoint, to the writes of a flush of an interleaved one. *)
Record sending := mkSending {
  sn_rtcp : bool;
  sn_v : list (list Z);
  sn_udp : bool;
  sn_ws : list write_answer }.

(** What can happen: a connection is accepted, a client sends a request or an
    interleaved packet, an endpoint sends its RTCP packet, the kernel takes bytes
    of a connection, a connection goes, an endpoint fails or times out, a frame
    of a track arrives and is sent ([to sid] are the packets for session [sid]). *)
Inductive event :=
| EvAccept (c : nat) (heap : list Z)
| EvRequest (c : nat) (w : world) (req : pmsg)
| EvRecv (c : nat) (chan : Z)
| EvPacket (e : eptr) (x : sending)
| EvWrite (c : nat) (ws : list write_answer)
| EvDrop (c : nat)
| EvFail (e : eptr)
| EvFrame (i t : nat) (accepted : bool) (to : nat → list sending).

(** [do_accept]. *)
Definition accept_conn (s : server) (c : nat) (heap : list Z) : server :=
  with_conns s (<[c := mkConn (new_send heap) None]> (conns s)).

Definition write_conn (s : server) (c : nat) (ws : list write_answer) : res server :=
  match conns s !! c with
  | None => Fault UseAfterFree
  | Some cn =>
      match snd (conn_write (c_send cn) ws) with
      | None => drop_conn s c
      | Some b => Ok (with_conns s (<[c := mkConn b (proto_state cn)]> (conns s)))
      end
  end.

(** [send_rtp_packet] and [rtcp_send], from the transport on: a packet that UDP
    refuses, and an RTCP packet without a transport, tear the endpoint down; the
    flag is false then, for the return of -1. [interleave_send] never fails. *)
Definition send_packet (s : server) (e : eptr) (x : sending) : res (server * bool) :=
  match get_ep s e with
  | None => Fault UseAfterFree
  | Some ep =>
      match e_trans ep with
      | TransInter c r q =>
          match conns s !! c with
          | None => Fault UseAfterFree
          | Some cn =>
              let '(_, b, _) := interleave_send (c_send cn) (Z.of_nat (if sn_rtcp x then q else r)) (sn_v x) (sn_ws x) in
              Ok (with_conns s (<[c := mkConn b (proto_state cn)]> (conns s)), true)
          end
      | TransUdp _ _ => if sn_udp x then Ok (s, true) else s ← endpoint_teardown s e; Ok (s, false)
      | TransNone => if sn_rtcp x then s ← endpoint_teardown s e; Ok (s, false) else Ok (s, true)
      end
  end.

(** The packetizers of this build, rtp-jpeg.c and rtp-rawaudio.c, stop at a packet
    that fails. *)
Fixpoint send_packets (s : server) (e : eptr) (l : list sending) : res server :=
  match l with
  | [] => Ok s
  | x :: l =>
      '(s, ok) ← send_packet s e x;
      if (ok : bool) then send_packets s e l else Ok s
  end.

(** The loop of [next_live_frame] over the sessions that play. *)
Fixpoint send_frame (s : server) (i t : nat) (sids : list nat) (to : nat → list sending) : res server :=
  match sids with
  | [] => Ok s
  | sid :: sids =>
      match get_ep s ((i, sid), t) with
      | None => Fault UseAfterFree
      | Some _ =>
          s ← send_packets s ((i, sid), t) (to sid);
          send_frame s i t sids to
      end
  end.

Definition frame_arrives (s : server) (i t : nat) (accepted : bool) (to : nat → list sending) : res server :=
  match sources s !! i with
  | None => Fault UseAfterFree
  | Some src =>
      let '(src, sids) := next_live_frame src t accepted in
      send_frame (with_source s i src) i t sids to
  end.

Definition exec (s : server) (ev : event) : res server :=
  match ev with
  | EvAccept c heap => Ok (accept_conn s c heap)
  | EvRequest c w req => rtsp_handle_msg s c w req
  | EvRecv c chan => interleave_recv s c chan ≫= λ _, Ok s
  | EvPacket e x => send_packet s e x ≫= λ r, Ok r.1
  | EvWrite c ws => write_conn s c ws
  | EvDrop c => drop_conn s c
  | EvFail e => endpoint_teardown s e
  | EvFrame i t accepted to => frame_arrives s i t accepted to
  end.

(** When an event can happen: its connection, endpoint or source exists and a
    request has been parsed. *)
Definition enabled (s : server) (ev : event) : Prop :=
  match ev with
  | EvAccept c heap => conns s !! c = None ∧ (0 < length heap)%nat
  | EvRequest c w req => is_Some (conns s !! c) ∧ length (w_heap w) = 512%nat ∧
      ∃ method uri hs, req_ok req method uri hs
  | EvRecv c chan => 0 ≤ chan ∧ is_Some (conns s !! c)
  | EvPacket e _ | EvFail e => is_Some (get_ep s e)
  | EvWrite c _ | EvDrop c => is_Some (conns s !! c)
  | EvFrame i _ _ _ => is_Some (sources s !! i)
  end.

(** The two events the code is not safe against: an interleaved packet on a
    connection that has no channels yet, and a URI of 256 bytes or more. *)
Definition unsafe (s : server) (ev : event) : Prop :=
  match ev with
  | EvRecv c chan => chan < 8 ∧ ∃ cn, conns s !! c = Some cn ∧ proto_state cn = None
  | EvRequest _ _ req => ∃ uri, req_uri req = Ok uri ∧ 256 ≤ zlen uri
  | _ => False
  end.

Inductive reachable (s0 : server) : server → Prop :=
| reach_start : reachable s0 s0
| reach_step s ev s' : reachable s0 s → enabled s ev → exec s ev = Ok s' → reachable s0 s'.

Lemma new_buffer_ok s c cn b :
  inv s → conns s !! c = Some cn → (∃ q, queue_of b q) → inv (with_conns s (<[c := mkConn b (proto_state cn)]> (conns s))).
Proof.
  intros Hs Hc Hb. apply (same_graph_inv s); [done| |].
  - split; try done. intros c'. cbn [with_conns conns]. destruct (decide (c = c')) as [<-|N]; [by rewrite lookup_insert_eq, Hc|by rewrite lookup_insert_ne].
  - apply map_Forall_insert_2; [|apply (iv_conns _ Hs)]. split; [done|]. apply (iv_conns _ Hs c cn Hc).
Qed.

Lemma accept_ok s c heap : inv s → conns s !! c = None → (0 < length heap)%nat → inv (accept_conn s c heap).
Proof.
  intros [J1 J2 J3 [K1 K2 K3 K4] J5] Hc Hh. split; cbn [accept_conn with_conns sources conns rtsp_loc_list]; try done.
  - apply map_Forall_insert_2; [|done]. split; [|done]. exists []. split; cbn; try done; [|split; [cbn; lia|]; by intros i x ?].
    rewrite Nat.mod_small by lia. done.
  - apply (wired_same s); [done| |done]. intros c' k. unfold chan_of. cbn [accept_conn with_conns conns].
    destruct (decide (c = c')) as [<-|N]; [by rewrite lookup_insert_eq, Hc|by rewrite lookup_insert_ne].
Qed.

(** What sending to one endpoint leaves of the other sessions. *)
Record sent (s s' : server) (p : sptr) : Prop := {
  se_inv : inv s';
  se_other : ∀ q, q ≠ p → deref s' q = deref s q }.

Lemma sent_refl s p : inv s → sent s s p.
Proof. by split. Qed.

Lemma sent_trans s1 s2 s3 p : sent s1 s2 p → sent s2 s3 p → sent s1 s3 p.
Proof. intros [_ A] [I B]. split; [done|]. intros q Hq. by rewrite B, A. Qed.

Lemma teardown_sent s e : inv s → is_Some (get_ep s e) → ∃ s', endpoint_teardown s e = Ok s' ∧ sent s s' e.1.
Proof.
  intros Hs [x Hx]. destruct (endpoint_teardown_ok s e x Hs Hx) as (s' & E & I & T). exists s'. split; [done|].
  split; [done|]. apply (td_other _ _ _ _ T).
Qed.

Lemma packet_ok s e x :
  inv s → is_Some (get_ep s e) →
  ∃ s' ok, send_packet s e x = Ok (s', ok) ∧ sent s s' e.1 ∧ (ok = true → is_Some (get_ep s' e)).
Proof.
  intros Hs He. unfold send_packet. pose proof He as [ep Hx]. rewrite Hx.
  assert (∃ s', endpoint_teardown s e = Ok s' ∧ sent s s' e.1) as (sd & Ed & Sd) by (by apply teardown_sent).
  destruct (e_trans ep) as [|a port|c r q] eqn:Et.
  - destruct (sn_rtcp x); [rewrite Ed, res_bind_ok; by exists sd, false|]. exists s, true. split_and!; [done|by apply sent_refl|done].
  - destruct (sn_udp x); [|rewrite Ed, res_bind_ok; by exists sd, false]. exists s, true. split_and!; [done|by apply sent_refl|done].
  - assert (inter_at s e = Some (c, r, q)) as Hin by (unfold inter_at; rewrite Hx; destruct ep; cbn in *; by rewrite Et).
    destruct (wired_has_chan _ _ _ _ _ (iv_wired _ Hs) Hin) as [(ch & Hch & _) _]. destruct (conns s !! c) as [cn|] eqn:Ec; [|done].
    destruct (iv_conns _ Hs c cn Ec) as [[qu Hq] _].
    destruct (interleave_send (c_send cn) _ _ _) as [[out b] ret] eqn:Es. eexists _, _. split; [reflexivity|].
    split; [|done]. split; [|done]. apply new_buffer_ok; [done|done|].
    destruct (interleave_send_queue _ _ _ _ _ _ _ _ Hq Es) as (q' & _ & _ & [(_ & Hb & _)|(_ & Hb & _)]); eauto.
Qed.

Lemma packets_ok l : ∀ s e, inv s → is_Some (get_ep s e) → ∃ s', send_packets s e l = Ok s' ∧ sent s s' e.1.
Proof.
  induction l as [|x l IH]; intros s e Hs He; cbn [send_packets]; [exists s; split; [done|by apply sent_refl]|].
  destruct (packet_ok s e x Hs He) as (s1 & ok & -> & S1 & H1). rewrite res_bind_ok. destruct ok; [|by exists s1].
  destruct (IH s1 e (se_inv _ _ _ S1) (H1 eq_refl)) as (s2 & E2 & S2). exists s2. split; [done|]. by eapply sent_trans.
Qed.

Lemma send_frame_ok i t to sids : ∀ s,
  inv s → NoDup sids → (∀ sid, sid ∈ sids → is_Some (get_ep s ((i, sid), t))) →
  ∃ s', send_frame s i t sids to = Ok s' ∧ inv s'.
Proof.
  induction sids as [|sid sids IH]; intros s Hs Hn He; cbn [send_frame]; [by exists s|].
  apply NoDup_cons in Hn as [Hni Hn]. destruct (He sid ltac:(set_solver)) as [ep Hep].
  destruct (packets_ok (to sid) s ((i, sid), t) Hs ltac:(by eexists)) as (s1 & E1 & S1). rewrite Hep, E1, res_bind_ok.
  apply IH; [apply (se_inv _ _ _ S1)|done|]. intros sid' Hin.
  assert ((i, sid') ≠ (i, sid)) as Hne by (intros [= ->]; done).
  unfold get_ep. cbn [fst snd]. rewrite (se_other _ _ _ S1 _ Hne). apply He. set_solver.
Qed.

(** The sessions a frame goes to have an endpoint for its track. *)
Lemma frame_targets src t acc sid :
  source_ok src → sid ∈ (next_live_frame src t acc).2 →
  ∃ ls, find_sess (next_live_frame src t acc).1 sid = Some ls ∧ is_Some (ep_of ls t).
Proof.
  intros Hs. destruct (next_live_frame_ok src t acc Hs) as [_ El]. unfold find_sess. rewrite El. fold (find_sess src sid). clear El.
  unfold next_live_frame. destruct acc; cbn [negb snd]; [|by intros ?%not_elem_of_nil].
  intros (ls & -> & [Hp Hin]%list_elem_of_filter)%list_elem_of_fmap_1.
  assert (∀ src', sess_list src' = sess_list src → ls ∈ sess_list src' → ls ∈ sess_list src) as HI by (by intros src' ->).
  exists ls. split; [|by apply andb_prop in Hp as [_ ?%bool_decide_eq_true]].
  apply find_sess_elem; [apply (so_ids _ Hs)|]. destruct (track src !! t) as [tr|]; [destruct (ready tr)|]; exact Hin.
Qed.

Lemma frame_targets_nodup src t acc : source_ok src → NoDup (next_live_frame src t acc).2.
Proof.
  intros Hs. unfold next_live_frame. destruct acc; cbn [negb snd]; [|constructor].
  assert (∀ l, NoDup (ls_id <$> l) → NoDup (ls_id <$> filter (λ ls, (ls_playing ls && bool_decide (is_Some (ep_of ls t))) = true) l)) as H.
  { intros l Hl. eapply sublist_NoDup; [exact Hl|]. apply fmap_sublist, sublist_filter. }
  apply H. destruct (track src !! t) as [tr|]; [destruct (ready tr)|]; apply (so_ids _ Hs).
Qed.

Lemma frame_ok s i t acc to : inv s → is_Some (sources s !! i) → ∃ s', frame_arrives s i t acc to = Ok s' ∧ inv s'.
Proof.
  intros Hs [src Hi]. unfold frame_arrives. rewrite Hi.
  pose proof (Forall_lookup_1 _ _ _ _ (iv_sources _ Hs) Hi) as Hso. destruct (next_live_frame_ok src t acc Hso) as [So El].
  pose proof (frame_targets src t acc) as HT. pose proof (frame_targets_nodup src t acc Hso) as HN.
  destruct (next_live_frame src t acc) as [src' sids]. cbn [fst snd] in *.
  assert (∀ q, deref (with_source s i src') q = deref s q) as HD.
  { intros [j sid]. unfold deref. cbn [with_source sources fst snd]. destruct (decide (i = j)) as [<-|N].
    - rewrite list_lookup_insert_eq, Hi by (by eapply lookup_lt_Some). cbn. unfold find_sess. by rewrite El.
    - by rewrite list_lookup_insert_ne. }
  apply send_frame_ok; [|done|].
  - pose proof Hs as [J1 J2 J3 [K1 K2 K3 K4] J5]. apply inv_with_source; [done|by eapply lookup_lt_Some|done| |].
    + split; [|intros p ls k; rewrite HD; apply K2|done|done]. intros rs Hrs. rewrite HD. by apply K1.
    + apply (wired_same s); [done|done|]. intros e. unfold inter_at, get_ep. by rewrite HD.
  - intros sid Hin. destruct (HT sid Hso Hin) as (ls & Hf & He). unfold get_ep, deref. cbn [with_source sources fst snd].
    rewrite list_lookup_insert_eq by (by eapply lookup_lt_Some). cbn [mbind option_bind]. by rewrite Hf.
Qed.

Lemma write_ok s c ws : inv s → is_Some (conns s !! c) → ∃ s', write_conn s c ws = Ok s' ∧ inv s'.
Proof.
  intros Hs [cn Hc]. unfold write_conn. rewrite Hc. destruct (iv_conns _ Hs c cn Hc) as [[qu Hq] _].
  destruct (conn_write (c_send cn) ws) as [out [b|]] eqn:Ew; cbn [snd].
  - destruct (conn_write_queue _ _ _ _ _ Hq Ew) as (_ & q' & _ & Hb & _). eexists. split; [reflexivity|]. apply new_buffer_ok; eauto.
  - destruct (drop_conn_ok s c Hs ltac:(by eexists)) as (s' & E & Hs' & _). eauto.
Qed.

Lemma recv_ok s c chan :
  inv s → enabled s (EvRecv c chan) →
  (unsafe s (EvRecv c chan) ∧ interleave_recv s c chan = Fault NullDeref) ∨
  (¬ unsafe s (EvRecv c chan) ∧ ∃ r, interleave_recv s c chan = Ok r).
Proof.
  intros Hs [H0 (cn & Hc)]. cbn [unsafe]. unfold interleave_recv. rewrite Hc. case_decide; [right; split; [lia|by eexists]|].
  destruct (proto_state cn) as [ch|] eqn:Ep; [right|left; split; [split; [lia|eauto]|done]].
  split; [intros (_ & cn' & E & Hn); congruence|].
  pose proof (co_chans _ (iv_conns _ Hs c cn Hc) ch Ep) as Hl. unfold MAX_INTERLEAVE_CHANNELS in Hl.
  pose proof (lookup_lt_is_Some_2 ch (Z.to_nat chan) ltac:(lia)) as Hx0.
  match goal with |- context [match ?l with _ => _ end] => destruct l as [y|] eqn:Hx end; [|by destruct Hx0 as [z Hz]; pose proof (eq_trans (eq_sym Hz) Hx)].
  destruct y as [[e b]|]; [|by eexists].
  destruct b; [|by eexists].
  assert (chan_of s c (Z.to_nat chan) = Some (e, true)) as HC.
  { unfold chan_of. rewrite Hc. destruct cn. cbn in Ep. by rewrite Ep, Hx. }
  destruct (wired_ep _ _ _ _ _ (iv_wired _ Hs) HC) as [y ->]. by eexists.
Qed.

(** Every event leaves a good state or is an unsafe one that faults. *)
Lemma exec_cases s ev :
  inv s → enabled s ev → (∃ s', exec s ev = Ok s' ∧ inv s') ∨ (unsafe s ev ∧ ∃ f, exec s ev = Fault f).
Proof.
  intros Hs He. destruct ev as [c heap|c w req|c chan|e x|c ws|c|e|i t acc to]; cbn [exec] in *.
  - left. destruct He. eexists. split; [reflexivity|]. by apply accept_ok.
  - destruct He as (Hc & Hw & method & uri & hs & Hr).
    destruct (handle_msg_ok c w req method uri hs Hw Hr s) as [(s' & E & I & _)|[Hu Hf]]; [done|eauto|].
    right. split; [|done]. exists uri. split; [apply (rq_uri _ _ _ _ Hr)|done].
  - destruct (recv_ok s c chan Hs He) as [[Hu ->]|[_ [r ->]]]; [right; eauto|left; eauto].
  - left. destruct (packet_ok s e x Hs He) as (s' & ok & -> & S' & _). exists s'. split; [done|apply (se_inv _ _ _ S')].
  - left. by apply write_ok.
  - left. destruct (drop_conn_ok s c Hs He) as (s' & E & I & _). eauto.
  - left. destruct He as [x Hx]. destruct (endpoint_teardown_ok s e x Hs Hx) as (s' & E & I & _). eauto.
  - left. by apply frame_ok.
Qed.

(** Runs: the events that did not fault, long URIs included. *)
Lemma exec_inv s ev s' : inv s → enabled s ev → exec s ev = Ok s' → inv s'.
Proof. intros Hs He E. destruct (exec_cases s ev Hs He) as [(s2 & E2 & I)|(_ & f & Ef)]; congruence. Qed.

Lemma exec_ok s ev : inv s → enabled s ev → ¬ unsafe s ev → ∃ s', exec s ev = Ok s' ∧ inv s'.
Proof. intros Hs He Hk. by destruct (exec_cases s ev Hs He) as [?|[? _]]. Qed.

Lemma reachable_inv s0 s : inv s0 → reachable s0 s → inv s.
Proof. intros H0 Hr. induction Hr as [|s ev s' _ IH He Hx]; [done|]. by eapply exec_inv. Qed.

(** A DESCRIBE whose path does not fit the array [base] of its handler. *)
Lemma describe_overruns s c w req method uri hs path :
  req_ok req method uri hs → strcaseeq method $"OPTIONS" = false → strcaseeq method $"DESCRIBE" = true →
  get_local_path uri = Some path → 256 < zlen path → exec s (EvRequest c w req) = Fault OutOfBounds.
Proof.
  intros Hr H1 H2 Hp Hl. cbn [exec]. unfold rtsp_handle_msg. rewrite (rq_method _ _ _ _ Hr), res_bind_ok, H1, H2.
  unfold handle_DESCRIBE. rewrite (rq_uri _ _ _ _ Hr), res_bind_ok. unfold find_rtsp_location. rewrite Hp.
  rewrite decide_True by lia. destruct (rd_ok path (zlen path - 1)) as (x & -> & _); [lia|]. rewrite res_bind_ok.
  rewrite bool_decide_eq_true_2 by (case_decide; lia). done.
Qed.

(** ** Locations *)

Lemma strcpy_ok a x : zlen x + 1 ≤ zlen a → strcpy_to a x = Ok (blit a 0 (x ++ [0])).
Proof. intros H. unfold strcpy_to. by rewrite decide_True. Qed.

Lemma strcpy_cstr a x : nonzero x → cstr (blit a 0 (x ++ [0])) 0 = Ok x.
Proof.
  intros Hx. unfold blit. rewrite <- app_assoc. apply (cstr_mid [] x _ Hx).
Qed.

(** The memory of a location: [struct rtsp_location] has these sizes. *)
Record loc_memory (heap : rtsp_location) : Prop := {
  lm_path : zlen (l_path heap) = 256;
  lm_rest : Forall (λ a, zlen a = 128) [l_realm heap; l_username heap; l_password heap] }.

(** Configured strings that fit their arrays. *)
Record loc_strings (path realm username password : list Z) : Prop := {
  lg_path : nonzero path ∧ zlen path < 256;
  lg_rest : Forall (λ x, nonzero x ∧ zlen x < 128) [realm; username; password] }.

Lemma new_location_ok s heap path realm username password i :
  loc_memory heap → loc_strings path realm username password → (i < length (sources s))%nat →
  ∃ s' loc, new_rtsp_location s heap path realm username password i = Ok s' ∧
    s' = mkServer (loc :: rtsp_loc_list s) (rs_list s) (sources s) (conns s) (digest_secret s) (next_rs s) ∧
    l_path loc = blit (l_path heap) 0 (path ++ [0]) ∧ cstr (l_path loc) 0 = Ok path ∧ cstr (l_realm loc) 0 = Ok realm ∧
    l_private loc = i ∧ loc_ok (length (sources s)) loc.
Proof.
  intros [Hp H3] [[Np Lp] L3] Hi. rewrite !Forall_cons in H3, L3. destruct H3 as (A1 & A2 & A3 & _), L3 as ((N1 & L1) & (N2 & L2) & (N3 & L3) & _).
  unfold new_rtsp_location. rewrite !strcpy_ok by lia. do 4 rewrite res_bind_ok. eexists _, _. split; [reflexivity|]. split; [reflexivity|].
  cbn [l_path l_realm l_private]. rewrite !strcpy_cstr by done. split_and!; try done.
  split; cbn [l_path l_realm l_username l_password l_private]; try done; eauto using strcpy_cstr.
  split; [|eauto using strcpy_cstr]. rewrite zlen_blit; [done|lia|]. rewrite zlen_app. change (zlen [0]) with 1. lia.
Qed.

Lemma rd_blit_after d i x j : 0 ≤ i → i + zlen x ≤ zlen d → i + zlen x ≤ j → rd (blit d i x) j = rd d j.
Proof.
  intros Hi Hl Hj. pose proof (zlen_nonneg x). unfold rd. rewrite !decide_False by lia.
  pose proof (f_equal (λ l : list Z, l !! 0%nat) (drop_blit d i x j Hi Hj ltac:(lia))) as E. simpl in E.
  rewrite !lookup_drop, Nat.add_0_r in E. by rewrite E.
Qed.

(** *** Finding a location *)

Lemma strcase_refl a r : strcaseprefix (a ++ r) a = true.
Proof. unfold strcaseprefix. by rewrite take_app_length, bool_decide_eq_true_2. Qed.

Lemma prefix_of_app p r : prefix_of p (p ++ r) = true.
Proof. unfold prefix_of. by rewrite take_app_length, bool_decide_eq_true_2. Qed.

Lemma local_path host path :
  Forall (λ x, x ≠ 47) host → get_local_path ($"rtsp://" ++ host ++ 47 :: path) = Some (47 :: path).
Proof.
  intros Hh. unfold get_local_path. rewrite strcase_refl. change 7%nat with (length $"rtsp://"). rewrite drop_app_length.
  by rewrite strchr_app.
Qed.

Lemma strrchr_app l c r : Forall (λ x, x ≠ c) r → strrchr (l ++ c :: r) c = Some (c :: r).
Proof.
  intros Hr. induction l as [|x l IH]; cbn [app strrchr]; [|by rewrite IH].
  replace (strrchr r c) with (@None (list Z)); [by rewrite decide_True|].
  induction Hr as [|y r Hy _ IH]; [done|]. cbn [strrchr]. by rewrite <- IH, decide_False.
Qed.

Lemma digits_of_all ds acc : Forall is_digit ds → digits_of ds acc = (foldl (λ a c, a * 10 + (c - 48)) acc ds, []).
Proof.
  intros H. revert acc. induction H as [|c ds Hc _ IH]; intros acc; [done|]. cbn [digits_of foldl].
  replace (isdigit c) with true; [by rewrite IH|]. symmetry. unfold isdigit, is_digit in *. apply bool_decide_eq_true_2. lia.
Qed.

Lemma strtol_fmt n : 0 ≤ n < 2147483648 → strtol (fmt_d n) = (n, []).
Proof.
  intros Hn. destruct (fmt_d_digits n) as (Hne & Hd & Hv & _); [lia|]. unfold strtol.
  destruct (fmt_d n) as [|c ds] eqn:E; [done|]. pose proof Hd as [Hc _]%Forall_cons. unfold is_digit in Hc.
  cbn [span_len]. replace (isspace c) with false by (symmetry; apply bool_decide_eq_false_2; lia). change (drop (Z.to_nat 0) (c :: ds)) with (c :: ds). cbv iota.
  rewrite (decide_False (P := c = 45)), (decide_False (P := c = 43)) by lia.
  replace (isdigit c) with true by (symmetry; unfold isdigit; apply bool_decide_eq_true_2; lia).
  rewrite digits_of_all by done. change (foldl _ 0 (c :: ds)) with (dec_value (c :: ds)). rewrite Hv. f_equal. lia.
Qed.

Lemma path_track_fmt p n :
  0 ≤ n < 2147483648 → path_track (p ++ $"/track" ++ fmt_d n) = (n, zlen p).
Proof.
  intros Hn. unfold path_track. change ($"/track" ++ fmt_d n) with (47 :: $"track" ++ fmt_d n).
  rewrite strrchr_app.
  - change (47 :: $"track" ++ fmt_d n) with ($"/track" ++ fmt_d n). rewrite prefix_of_app.
    change 6%nat with (length $"/track"). rewrite drop_app_length, strtol_fmt by done. f_equal. rewrite zlen_app. lia.
  - apply Forall_app. split; [repeat (apply Forall_cons_2; [done|]); apply Forall_nil_2|].
    destruct (fmt_d_digits n) as (_ & Hd & _); [lia|]. eapply Forall_impl; [exact Hd|]. unfold is_digit. simpl. lia.
Qed.

(** Two paths that differ in a character. *)
Definition differ (q p : list Z) : Prop := ∃ i x y, q !! i = Some x ∧ p !! i = Some y ∧ x ≠ y.

Lemma differ_no_prefix q p r : differ q p → prefix_of q (p ++ r) = false.
Proof.
  intros (i & x & y & Hq & Hp & N). apply bool_decide_eq_false_2. intros E. apply N.
  pose proof (f_equal (λ l : list Z, l !! i) E) as Ei. simpl in Ei. rewrite lookup_take_lt, lookup_app_l, Hp, Hq in Ei
    by (by eapply lookup_lt_Some). congruence.
Qed.

(** The location is the first in the list whose path does not differ from [p]. *)
Record first_location (l : list rtsp_location) (loc : rtsp_location) (p : list Z) : Prop := {
  fl_list : ∃ l1 l2, l = l1 ++ loc :: l2 ∧ Forall (λ x, ∃ q, cstr (l_path x) 0 = Ok q ∧ differ q p) l1;
  fl_path : cstr (l_path loc) 0 = Ok p;
  fl_shape : ∃ p' c, p = 47 :: p' ++ [c] ∧ c ≠ 47 }.

Lemma node_find_first l loc p r :
  first_location l loc p → node_find_location l (p ++ r) (zlen p) = Ok (Some loc).
Proof.
  intros [(l1 & l2 & -> & Hd) Hp _]. induction Hd as [|x l1 (q & Hq & Hx) _ IH]; cbn [app node_find_location].
  - rewrite Hp, res_bind_ok, prefix_of_app. destruct (cstr_end _ _ _ Hp) as (_ & _ & E & _). rewrite Z.add_0_l in E. rewrite E. rewrite res_bind_ok.
    by rewrite decide_True by (by right).
  - by rewrite Hq, res_bind_ok, (differ_no_prefix _ _ _ Hx).
Qed.

Lemma find_location_at l loc p uri r base track t :
  first_location l loc p → get_local_path uri = Some (p ++ r) → zlen p < 256 →
  (if track : bool then path_track (p ++ r) else (-1, zlen (p ++ r))) = (t, zlen p) ∨
  ((if track then path_track (p ++ r) else (-1, zlen (p ++ r))) = (t, zlen p + 1) ∧ r = [47]) →
  find_rtsp_location l uri base track = Ok (Some (loc, p, t)).
Proof.
  intros Hf Hu Hb Ht. unfold find_rtsp_location. rewrite Hu. pose proof (fl_shape _ _ _ Hf) as (p' & c & Ep & Hc).
  pose proof (zlen_nonneg p') as Hp'. assert (zlen p = zlen p' + 2) as Lp by (rewrite Ep, zlen_cons, zlen_app; change (zlen [c]) with 1; lia).
  set (tl := if track then _ else _) in *.
  assert (∃ len x, tl = (t, len) ∧ 1 < len ∧ rd (p ++ r) (len - 1) = Ok x ∧ (if decide (1 < len ∧ x = 47) then len - 1 else len) = zlen p)
    as (len & x & -> & H1 & H2 & H3).
  { destruct Ht as [->|[-> ->]].
    - exists (zlen p), c. split_and!; [done|lia| |by rewrite decide_False by tauto]. unfold rd. rewrite decide_False by lia.
      rewrite lookup_app_l by (unfold zlen in *; lia). rewrite Lp, Ep, app_comm_cons, lookup_app_r by (simpl; unfold zlen; lia).
      simpl length. by replace (Z.to_nat (zlen p' + 2 - 1) - S (length p'))%nat with 0%nat by (unfold zlen; lia).
    - exists (zlen p + 1), 47. split_and!; [done|lia| |rewrite decide_True by (split; [lia|done]); lia]. unfold rd. rewrite decide_False by lia.
      rewrite lookup_app_r by (unfold zlen; lia). by replace (Z.to_nat (zlen p + 1 - 1) - length p)%nat with 0%nat by (unfold zlen; lia). }
  rewrite (decide_True (P := 1 < len)) by done. rewrite H2, res_bind_ok, H3. rewrite bool_decide_eq_false_2, andb_false_r by lia.
  rewrite (node_find_first l loc p r Hf), res_bind_ok. by rewrite to_nat_zlen, take_app_length.
Qed.

(** ** Theorems *)

(** The server before the event loop: no clients, no sessions. *)
Record start_ok (s : server) : Prop := {
  st_conns : conns s = ∅;
  st_rs : rs_list s = [];
  st_sess : Forall (λ src, sess_list src = []) (sources s);
  st_sources : Forall source_ok (sources s);
  st_locs : Forall (loc_ok (length (sources s))) (rtsp_loc_list s) }.

Lemma start_inv s : start_ok s → inv s.
Proof.
  intros [H1 H2 H3 H4 H5].
  assert (∀ p, deref s p = None) as HD.
  { intros [i sid]. unfold deref. simpl. destruct (sources s !! i) as [src|] eqn:E; [|done]. simpl.
    unfold find_sess. by rewrite (Forall_lookup_1 _ _ _ _ H3 E). }
  assert (∀ e, inter_at s e = None) as HI by (intros e; unfold inter_at, get_ep; by rewrite HD).
  split; [done|by rewrite H1|done| |].
  - split; rewrite ?H2; [by intros rs ?%not_elem_of_nil| |constructor|constructor]. intros p ls k. by rewrite HD.
  - split; [|intros e c r q; by rewrite HI]. intros c k e b. split.
    + unfold chan_of. by rewrite H1.
    + intros (r & Hr & _). by rewrite HI in Hr.
Qed.

(** C1. In every state the server reaches from its start, over connections
    accepted and dropped, requests, interleaved packets both ways, failed
    endpoints and frames with their packets to every playing session, in any
    order, the next event executes without a fault, with two exceptions: no
    handler follows a pointer to a freed session, endpoint or connection, leaves
    an array or misses a terminator. The exceptions are defects of the code. An
    interleaved packet on a channel below 8 of a connection without channels
    always follows a null pointer; a request with a URI of 256 bytes or more may
    overrun a buffer, and DESCRIBE with a path above 256 bytes always does. After
    every event that did not fault, these too, the graph of objects is whole: each
    RTSP session controls a live session that names it back; each interleaved
    endpoint has an open connection whose two channels carry it; each channel
    carries an endpoint that exists and sends on it. *)
Theorem server_safe s0 s ev :
  start_ok s0 → reachable s0 s → enabled s ev →
  (¬ unsafe s ev → ∃ s', exec s ev = Ok s') ∧
  (∀ c chan, ev = EvRecv c chan → unsafe s ev → exec s ev = Fault NullDeref) ∧
  (∀ c w req method uri hs path, ev = EvRequest c w req → req_ok req method uri hs →
    strcaseeq method $"OPTIONS" = false → strcaseeq method $"DESCRIBE" = true →
    get_local_path uri = Some path → 256 < zlen path → exec s ev = Fault OutOfBounds) ∧
  (∀ rs, rs ∈ rs_list s → ∃ ls, deref s (rs_sess rs) = Some ls ∧ ls_ctl ls = Some (rs_ptr rs)) ∧
  (∀ e c r q, inter_at s e = Some (c, r, q) →
    is_Some (conns s !! c) ∧ chan_of s c r = Some (e, false) ∧ chan_of s c q = Some (e, true)) ∧
  (∀ c k e b, chan_of s c k = Some (e, b) → ∃ r, inter_at s e = Some (c, r, S r) ∧ k = (if b then S r else r)).
Proof.
  intros H0 Hr He. pose proof (reachable_inv s0 s (start_inv _ H0) Hr) as Hs. pose proof (iv_wired _ Hs) as W. split_and!.
  - intros Hk. destruct (exec_ok s ev Hs He Hk) as (s' & E & _). by eexists.
  - intros c chan -> Hk. destruct (recv_ok s c chan Hs He) as [[_ E]|[N _]]; [|done]. cbn [exec]. by rewrite E.
  - intros c w req method uri hs path ->. apply describe_overruns.
  - apply (iv_linked _ Hs).
  - intros e c r q Hin. pose proof (wd_pair _ W _ _ _ _ Hin) as ->.
    assert (chan_of s c r = Some (e, false)) as Hc by (apply W; by exists r). split_and!; [|done|apply W; by exists r].
    unfold chan_of in Hc. destruct (conns s !! c); [by eexists|done].
  - apply W.
Qed.

(** C28. A URI [rtsp://host/path/trackN] finds the configured location of the
    path, the path without the track, and the number of the track; without a
    track, with or without a slash at the end, it finds the same location. *)
Theorem uri_finds_track l loc p host n :
  first_location l loc p → zlen p < 256 → Forall (λ x, x ≠ 47) host → 0 ≤ n < 2147483648 →
  find_rtsp_location l ($"rtsp://" ++ host ++ p ++ $"/track" ++ fmt_d n) true true = Ok (Some (loc, p, n)) ∧
  find_rtsp_location l ($"rtsp://" ++ host ++ p) true false = Ok (Some (loc, p, -1)) ∧
  find_rtsp_location l ($"rtsp://" ++ host ++ p ++ $"/") true false = Ok (Some (loc, p, -1)).
Proof.
  intros Hf Hp Hh Hn. pose proof (fl_shape _ _ _ Hf) as (p' & c & Ep & _).
  assert (∀ r, get_local_path ($"rtsp://" ++ host ++ p ++ r) = Some (p ++ r)) as HL by (intros r; rewrite Ep; by apply local_path).
  split_and!.
  - apply (find_location_at l loc p _ ($"/track" ++ fmt_d n)); [done|apply HL|done|]. left. by apply path_track_fmt.
  - apply (find_location_at l loc p _ []); [done|rewrite <- (HL []); by rewrite app_nil_r|done|]. left. by rewrite app_nil_r.
  - apply (find_location_at l loc p _ $"/"); [done|apply HL|done|]. right. split; [|done]. by rewrite zlen_app.
Qed.

(** [node_find_location] tests the character of the location's own array at
    the length of the requested path: a request for a longer path is answered
    with the location exactly when the byte malloc left behind the terminator
    at that place is a slash or zero. *)
Lemma lookup_reads_uninitialised s heap p x realm username password host i b :
  loc_memory heap → loc_strings p realm username password → (i < length (sources s))%nat → rtsp_loc_list s = [] →
  Forall (λ y, y ≠ 47) host → head p = Some 47 → x ≠ [] → last x ≠ Some 47 →
  zlen (p ++ x) < 256 → l_path heap !! length (p ++ x) = Some b →
  ∃ s' loc, new_rtsp_location s heap p realm username password i = Ok s' ∧
    find_rtsp_location (rtsp_loc_list s') ($"rtsp://" ++ host ++ p ++ x) true false =
      Ok (if decide (b = 47 ∨ b = 0) then Some (loc, p ++ x, -1) else None).
Proof.
  intros Hm Hg Hi Hl Hh Hp Hx Hlast Hlen Hb.
  destruct (new_location_ok s heap p realm username password i Hm Hg Hi) as (s' & loc & E & -> & Epath & Hc & _).
  eexists _, loc. split; [done|]. cbn [rtsp_loc_list]. rewrite Hl. unfold find_rtsp_location.
  destruct p as [|a p']; [done|]. injection Hp as ->. change ((47 :: p') ++ x) with (47 :: p' ++ x) in *. rewrite local_path by done. set (path := 47 :: p' ++ x) in *.
  apply last_is_Some in Hx as [z Hz].
  assert (rd path (zlen path - 1) = Ok z) as HR by (unfold path; rewrite app_comm_cons; by apply rd_last).
  assert (1 < zlen path) as H1.
  { unfold path. rewrite zlen_cons, zlen_app. destruct x; [done|]. rewrite zlen_cons. pose proof (zlen_nonneg p'). pose proof (zlen_nonneg x). lia. }
  rewrite (decide_True (P := 1 < zlen path)) by done. rewrite HR, res_bind_ok.
  rewrite (decide_False (P := 1 < zlen path ∧ z = 47)) by (intros [_ ->]; done).
  rewrite bool_decide_eq_false_2, andb_false_r by lia. cbn [node_find_location]. rewrite Hc, res_bind_ok.
  assert (prefix_of (47 :: p') path = true) as -> by (unfold path; rewrite app_comm_cons; apply prefix_of_app).
  assert (zlen (47 :: p') < zlen path) as H2.
  { unfold path. rewrite !zlen_cons, zlen_app. destruct x; [done|]. rewrite (zlen_cons z0 x). pose proof (zlen_nonneg x). lia. }
  rewrite Epath, rd_blit_after by (rewrite ?(lm_path _ Hm), ?zlen_app, ?(eq_refl : zlen [0] = 1); lia).
  assert (rd (l_path heap) (zlen path) = Ok b) as -> by (unfold rd; rewrite decide_False by lia; by rewrite to_nat_zlen, Hb).
  rewrite res_bind_ok. case_decide; rewrite res_bind_ok; [|done]. by rewrite to_nat_zlen, firstn_all.
Qed.

Lemma verify_refuses s s' c w req hs loc realm ok :
  header_strings req = Ok hs → cstr (l_realm loc) 0 = Ok realm → realm ≠ [] → assoc_header hs $"authorization" = None →
  rtsp_verify_auth s c w req loc = Ok (s', ok) → ok = false.
Proof.
  intros Hh Hre Hne Ha. unfold rtsp_verify_auth. rewrite Hre, res_bind_ok, decide_False by done.
  destruct (cstr (l_username loc) 0) as [u|]; [|done]. rewrite res_bind_ok. destruct (cstr (l_password loc) 0) as [p|]; [|done]. rewrite res_bind_ok.
  unfold check_digest_response. rewrite (get_header_strings _ _ _ Hh), res_bind_ok, Ha, res_bind_ok. rewrite decide_False by lia.
  destruct (rtsp_create_reply w req 401 _) as [m|]; [|done]. rewrite res_bind_ok. destruct (add_digest_challenge _ _ _ _ _ _ _) as [secret m2].
  destruct (send_reply _ c m2 (-1) []) as [s2|]; [|done]. rewrite res_bind_ok. congruence.
Qed.

(** DESCRIBE opens a session before it asks for credentials and returns
    without closing it: every DESCRIBE without an Authorization header on a
    protected location is answered, and leaves behind one more live session that
    has no endpoints and no RTSP session. *)
Lemma describe_leaks_session s0 s c w req method uri hs loc base t realm src :
  start_ok s0 → reachable s0 s → enabled s (EvRequest c w req) → req_ok req method uri hs → zlen uri < 256 →
  strcaseeq method $"OPTIONS" = false → strcaseeq method $"DESCRIBE" = true →
  find_rtsp_location (rtsp_loc_list s) uri true false = Ok (Some (loc, base, t)) →
  cstr (l_realm loc) 0 = Ok realm → realm ≠ [] → assoc_header hs $"authorization" = None →
  sources s !! l_private loc = Some src → u32CurConn src < u32MaxConnNum src →
  ∃ s' src', exec s (EvRequest c w req) = Ok s' ∧ rs_list s' = rs_list s ∧ sources s' !! l_private loc = Some src' ∧
    sess_list src' = mkLs (next_session src) (replicate MAX_TRACKS None) false None :: sess_list src.
Proof.
  intros H0 Hr (Hc & Hw & _) Hrq Hu HM1 HM2 Hf Hre Hne Hh Hi Hn.
  pose proof (reachable_inv s0 s (start_inv _ H0) Hr) as Hs.
  assert (loc_ok (length (sources s)) loc) as Hlo.
  { destruct (find_location_ok _ (rtsp_loc_list s) uri true false (iv_locs _ Hs) Hu) as (r & E & Hl).
    rewrite Hf in E. injection E as <-. by apply (proj1 (Forall_forall _ _) (iv_locs _ Hs)). }
  destruct (open_session_ok s loc Hs Hlo) as (r & Eo & Ho). pose proof Eo as Eo'. unfold open_session in Eo'. rewrite Hi in Eo'.
  unfold live_open in Eo'. rewrite decide_False in Eo' by lia. injection Eo' as <-. destruct Ho as (I1 & C1 & R1 & L1 & _).
  cbn [exec]. unfold rtsp_handle_msg. rewrite (rq_method _ _ _ _ Hrq), res_bind_ok, HM1, HM2. unfold handle_DESCRIBE.
  rewrite (rq_uri _ _ _ _ Hrq), res_bind_ok, Hf, res_bind_ok, Eo, res_bind_ok. set (s1 := with_source _ _ _) in *.
  destruct (verify_auth_ok s1 c w req method uri hs loc I1) as (s2 & ok & Ev & _ & G2 & _); [done|done|done|by rewrite L1|].
  assert (ok = false) as -> by (eapply (verify_refuses s1 s2 c w req hs loc realm); [apply (rq_headers _ _ _ _ Hrq)|done..]).
  rewrite Ev, res_bind_ok. cbn [negb]. eexists s2, _. split; [done|]. rewrite (sg_rs _ _ G2), (sg_sources _ _ G2). split; [done|].
  split; [unfold s1; cbn [with_source sources]; apply list_lookup_insert_eq; by eapply lookup_lt_Some|done].
Qed.

(** ** A camera with one client *)

Definition zeros (n : Z) : list Z := replicate (Z.to_nat n) 0.
Definition zero_loc : rtsp_location := mkLoc (zeros 256) (zeros 128) (zeros 128) (zeros 128) 0.
Definition dirty_loc : rtsp_location := mkLoc (replicate 256 65) (zeros 128) (zeros 128) (zeros 128) 0.

Definition demo_video : live_source :=
  default start_block (set_track start_block (Some (mkMedia (λ _, 26) (λ _ _, $"m=video 0 RTP/AVP 26" ++ crlf)))).

Definition empty_server : server := mkServer [] [] [demo_video] ∅ None 0.
Definition demo_loc (realm : list Z) : rtsp_location :=
  mkLoc (blit (zeros 256) 0 ($"/cam" ++ [0])) (blit (zeros 128) 0 (realm ++ [0])) (zeros 128) (zeros 128) 0.
Definition demo_server (realm : list Z) : server := mkServer [demo_loc realm] [] [demo_video] ∅ None 0.

Definition demo_world : world :=
  mkWorld (zeros 512) 0 (zeros 12) (zeros 12) [1; 2; 3] (mkEnv (λ _, true) (λ _, true) (λ _, BindOk) true true)
    default_range 0 $"IP4 10.0.0.1".

Definition demo_req (method uri : list Z) (name value : list Z) : pmsg :=
  let text := method ++ [0] ++ uri ++ [0] ++ name ++ [0] ++ value ++ [0] in
  mkPmsg text (zlen text) 0 (SlReq 0 (zlen method + 1))
    [(zlen method + zlen uri + 2, zlen method + zlen uri + zlen name + 3)].

Definition setup_req : pmsg := demo_req $"SETUP" $"rtsp://h/cam/track0" $"Transport" $"RTP/AVP/TCP;interleaved=2-3".
Definition describe_req : pmsg := demo_req $"DESCRIBE" $"rtsp://h/cam" $"CSeq" $"1".

Lemma setup_req_ok : req_ok setup_req $"SETUP" $"rtsp://h/cam/track0" [($"Transport", $"RTP/AVP/TCP;interleaved=2-3")].
Proof. split; vm_compute; reflexivity. Defined.
Lemma describe_req_ok : req_ok describe_req $"DESCRIBE" $"rtsp://h/cam" [($"CSeq", $"1")].
Proof. split; vm_compute; reflexivity. Defined.

Lemma demo_start realm : nonzero realm → zlen realm < 128 → start_ok (demo_server realm).
Proof.
  intros Hr Hl. split; [done|done|by repeat constructor| |].
  - apply Forall_singleton. split; [constructor|constructor|constructor| |].
    + intros t Ht. unfold MAX_TRACKS in Ht. destruct t as [|[|t]]; [|done|lia]. intros _. apply elem_of_seq. vm_compute. lia.
    + repeat constructor; intros md p port [= <-]; vm_compute; discriminate.
  - apply Forall_singleton. split; cbn [demo_loc l_path l_realm l_username l_password l_private].
    + split; [vm_compute; reflexivity|]. exists $"/cam". vm_compute. reflexivity.
    + exists realm. by apply strcpy_cstr.
    + exists []. vm_compute. reflexivity.
    + exists []. vm_compute. reflexivity.
    + simpl. lia.
Qed.

(** The server after an event that cannot fail. *)
Definition after (s : server) (ev : event) : server := match exec s ev with Ok s' => s' | Fault _ => s end.

Lemma reach_after s0 s ev : start_ok s0 → reachable s0 s → enabled s ev → ¬ unsafe s ev → reachable s0 (after s ev).
Proof.
  intros H0 Hr He Hk. destruct (exec_ok s ev (reachable_inv _ _ (start_inv _ H0) Hr) He Hk) as (s' & E & _).
  unfold after. rewrite E. by eapply reach_step.
Qed.

Definition demo_accepted (realm : list Z) : server := after (demo_server realm) (EvAccept 0 (zeros 1000)).
Definition demo_setup : server := after (demo_accepted []) (EvRequest 0 demo_world setup_req).

Lemma demo_reach_accepted realm : nonzero realm → zlen realm < 128 → reachable (demo_server realm) (demo_accepted realm).
Proof. intros H1 H2. eapply (reach_after _ (demo_server realm)); [by apply demo_start|constructor| |by intros []]. split; [done|vm_compute; lia]. Qed.

Lemma demo_request_enabled realm req method uri hs :
  req_ok req method uri hs → enabled (demo_accepted realm) (EvRequest 0 demo_world req).
Proof. intros Hr. split; [by eexists|]. split; [done|]. by exists method, uri, hs. Qed.

Lemma short_uri_safe s c w req method uri hs : req_ok req method uri hs → zlen uri < 256 → ¬ unsafe s (EvRequest c w req).
Proof. intros Hr Hu (uri' & E & Hl). rewrite (rq_uri _ _ _ _ Hr) in E. injection E as <-. lia. Qed.

Lemma demo_reach_setup : reachable (demo_server []) demo_setup.
Proof.
  eapply (reach_after _ (demo_accepted [])); [apply demo_start; [constructor|vm_compute; reflexivity]|apply demo_reach_accepted; [constructor|vm_compute; reflexivity]| |].
  - apply (demo_request_enabled _ _ _ _ _ setup_req_ok).
  - apply (short_uri_safe _ _ _ _ _ _ _ setup_req_ok). vm_compute. reflexivity.
Qed.

(** The client plays its session. *)
Definition demo_id : list Z := default [] (rs_id <$> head (rs_list demo_setup)).
Definition play_req : pmsg := Eval vm_compute in demo_req $"PLAY" $"rtsp://h/cam" $"Session" demo_id.
Definition demo_play : server := after demo_setup (EvRequest 0 demo_world play_req).

Lemma play_req_ok : req_ok play_req $"PLAY" $"rtsp://h/cam" [($"Session", demo_id)].
Proof. split; vm_compute; reflexivity. Qed.

Lemma demo_reach_play : reachable (demo_server []) demo_play.
Proof.
  eapply (reach_after _ demo_setup); [apply demo_start; [constructor|vm_compute; reflexivity]|apply demo_reach_setup| |].
  - split; [vm_compute; by eexists|]. split; [done|]. exists $"PLAY", $"rtsp://h/cam", [($"Session", demo_id)]. apply play_req_ok.
  - apply (short_uri_safe _ _ _ _ _ _ _ play_req_ok). vm_compute. reflexivity.
Qed.

Definition demo_frame : event := EvFrame 0 0 true (λ _, [mkSending false [[1; 2]; [3]] true []]).

(** After an interleaved SETUP on channels 2 and 3 and a PLAY, a frame is sent on
    channel 2; before the SETUP a packet of the client stops the server. *)
Lemma server_safe_witness :
  inter_at demo_play ((0, 0), 0)%nat = Some (0, 2, 3)%nat ∧
  (∃ s' cn, exec demo_play demo_frame = Ok s' ∧ conns s' !! 0%nat = Some cn ∧
    slice (send_buf (c_send cn)) (Z.of_nat (send_buf_w (c_send cn)) - 7) 7 = [36; 2; 0; 3; 1; 2; 3]) ∧
  chan_of demo_play 0 2 = Some (((0, 0), 0)%nat, false) ∧
  exec (demo_accepted []) (EvRecv 0 1) = Fault NullDeref.
Proof.
  assert (start_ok (demo_server [])) as S0 by (apply demo_start; [constructor|vm_compute; reflexivity]).
  assert (inter_at demo_play ((0, 0), 0)%nat = Some (0, 2, 3)%nat) as E by (vm_compute; reflexivity).
  destruct (server_safe (demo_server []) demo_play demo_frame S0 demo_reach_play) as (H1 & _ & _ & _ & H3 & _);
    [vm_compute; eexists; reflexivity|].
  destruct (server_safe (demo_server []) (demo_accepted []) (EvRecv 0 1) S0) as (_ & H2 & _);
    [apply demo_reach_accepted; [constructor|vm_compute; reflexivity]|split; [lia|vm_compute; eexists; reflexivity]|].
  split; [exact E|]. split; [|split].
  - destruct (H1 ltac:(intros [])) as [s' Hs']. pose proof Hs' as Hc. vm_compute in Hc.
    injection Hc as <-. eexists _, _. split; [exact Hs'|]. split; [reflexivity|]. vm_compute. reflexivity.
  - destruct (H3 _ _ _ _ E) as (_ & H & _). exact H.
  - apply (H2 0%nat 1 eq_refl). split; [lia|]. vm_compute. eexists. split; reflexivity.
Defined.

Lemma uri_finds_track_witness :
  find_rtsp_location [demo_loc []] $"rtsp://h/cam/track1" true true = Ok (Some (demo_loc [], $"/cam", 1)).
Proof.
  destruct (uri_finds_track [demo_loc []] (demo_loc []) $"/cam" $"h" 1) as (H & _).
  - split; [exists [], []; split; [reflexivity|constructor]|vm_compute; reflexivity|exists [99; 97], 109; split; [reflexivity|discriminate]].
  - vm_compute. reflexivity.
  - repeat constructor. discriminate.
  - lia.
  - exact H.
Defined.

(** The same request finds nothing or the location, by what malloc returns. *)
Lemma lookup_reads_uninitialised_witness :
  (∃ s' loc, new_rtsp_location empty_server zero_loc $"/cam" [] [] [] 0 = Ok s' ∧
    find_rtsp_location (rtsp_loc_list s') $"rtsp://h/cameras" true false = Ok (Some (loc, $"/cameras", -1))) ∧
  (∃ s', new_rtsp_location empty_server dirty_loc $"/cam" [] [] [] 0 = Ok s' ∧
    find_rtsp_location (rtsp_loc_list s') $"rtsp://h/cameras" true false = Ok None).
Proof.
  assert (loc_strings $"/cam" [] [] []) as Hg.
  { split; [split; [repeat constructor; discriminate|vm_compute; reflexivity]|repeat constructor]. }
  assert (Forall (λ y, y ≠ 47) $"h") as Hh by (repeat constructor; discriminate).
  split.
  - destruct (lookup_reads_uninitialised empty_server zero_loc $"/cam" $"eras" [] [] [] $"h" 0 0) as (s' & loc & H1 & H2);
      try assumption; try reflexivity; try discriminate; [split; [reflexivity|repeat constructor]|simpl; lia|].
    exists s', loc. split; [exact H1|]. exact H2.
  - destruct (lookup_reads_uninitialised empty_server dirty_loc $"/cam" $"eras" [] [] [] $"h" 0 65) as (s' & loc & H1 & H2);
      try assumption; try reflexivity; try discriminate; [split; [reflexivity|repeat constructor]|simpl; lia|].
    exists s'. split; [exact H1|]. exact H2.
Defined.

Lemma describe_leaks_session_witness :
  ∃ s' src, exec (demo_accepted $"cam") (EvRequest 0 demo_world describe_req) = Ok s' ∧ sources s' !! 0%nat = Some src ∧
    length (sess_list src) = 1%nat.
Proof.
  destruct (describe_leaks_session (demo_server $"cam") (demo_accepted $"cam") 0 demo_world describe_req $"DESCRIBE" $"rtsp://h/cam"
    [($"CSeq", $"1")] (demo_loc $"cam") $"/cam" (-1) $"cam" demo_video) as (s' & src & H1 & _ & H2 & H3).
  - apply demo_start; [repeat constructor; discriminate|vm_compute; reflexivity].
  - apply demo_reach_accepted; [repeat constructor; discriminate|vm_compute; reflexivity].
  - apply (demo_request_enabled _ _ _ _ _ describe_req_ok).
  - apply describe_req_ok.
  - vm_compute. reflexivity.
  - reflexivity.
  - reflexivity.
  - vm_compute. reflexivity.
  - vm_compute. reflexivity.
  - discriminate.
  - reflexivity.
  - reflexivity.
  - vm_compute. reflexivity.
  - exists s', src. split; [exact H1|]. split; [exact H2|]. rewrite H3. reflexivity.
Defined.
