(* ===== verification/Tcp.v ===== *)
(** * Tcp: reading and dispatching what clients send

    Models the input side of tcp.c of src/sources/applications/RTSPServer/src:
    [do_read] and the state machine of [parse_client_data], [handle_request],
    the tunnel of RTSP through HTTP, [do_accept] and [drop_conn] over both
    protocols. The state joins the RTSP server of [Rtsp] (which keeps the send
    side of all connections), the HTTP server of [Http] and the input side of
    each connection. *)

From stdpp Require Import prelude gmap strings pretty.
From S2P Require Import Prelude Pmsg SendBuf Base64 HttpAuth Http Rtsp RtspRun.

Local Open Scope c_scope.

(** ** State *)

Inductive cproto := CONN_PROTO_START | CONN_PROTO_RTSP | CONN_PROTO_HTTP.
#[global] Instance cproto_eq_dec : EqDecision cproto.
Proof. solve_decision. Defined.

(** The input side of a connection. [in_req] and [in_wait] are the [req_len]
    bytes of [req_buf]: what can be parsed, and in a tunnel ([in_b64], for a
    [base64_count] that is not -1) the characters of a group of four that is
    not complete yet, [base64_count] of them. *)
Record input := mkInput {
  in_proto : cproto;
  in_req : list Z;
  in_wait : list Z;
  in_b64 : bool;
  http_tunnel_cookie : list Z;
  in_fd : bool;
  in_second : bool }.

Record system := mkSystem {
  srv : server;
  web : http;
  inputs : gmap nat input;
  conn_list : list nat }.

Definition with_srv (y : system) (s : server) : system := mkSystem s (web y) (inputs y) (conn_list y).
Definition with_input (y : system) (c : nat) (i : input) : system :=
  mkSystem (srv y) (web y) (<[c := i]> (inputs y)) (conn_list y).

Definition set_proto (i : input) (p : cproto) : input :=
  mkInput p (in_req i) (in_wait i) (in_b64 i) (http_tunnel_cookie i) (in_fd i) (in_second i).
Definition set_req (i : input) (r w : list Z) : input :=
  mkInput (in_proto i) r w (in_b64 i) (http_tunnel_cookie i) (in_fd i) (in_second i).
Definition set_fds (i : input) (a b : bool) : input :=
  mkInput (in_proto i) (in_req i) (in_wait i) (in_b64 i) (http_tunnel_cookie i) a b.

Definition new_input : input := mkInput CONN_PROTO_START [] [] false [] true false.

Definition do_accept (y : system) (c : nat) (heap : list Z) : system :=
  mkSystem (accept_conn (srv y) c heap) (web y) (<[c := new_input]> (inputs y)) (c :: conn_list y).

(** [send_data(req->conn, ...)] with a text, and the mark to close. *)
Definition send_text (y : system) (c : nat) (drop : bool) (t : list Z) : res system :=
  match conns (srv y) !! c with
  | None => Fault UseAfterFree
  | Some cn =>
      let b := fst (send_data (c_send cn) t) in
      let b := if drop then set_drop_after b else b in
      Ok (with_srv y (with_conns (srv y) (<[c := mkConn b (proto_state cn)]> (conns (srv y)))))
  end.

(** ** Closing *)

(** [proto_state] is one pointer, of the RTSP channels or of an HTTP session;
    when it is not of the protocol of the connection the handler of the other
    one reads outside the object. *)
Definition drop_conn (y : system) (c : nat) : res system :=
  match inputs y !! c, conns (srv y) !! c with
  | Some i, Some cn =>
      '(s, h) ← match proto_state cn, h_proto (web y) !! c with
        | None, None => Ok (with_conns (srv y) (delete c (conns (srv y))), web y)
        | Some _, None =>
            if decide (in_proto i = CONN_PROTO_RTSP) then s ← Rtsp.drop_conn (srv y) c; Ok (s, web y) else Fault OutOfBounds
        | None, Some _ =>
            if decide (in_proto i = CONN_PROTO_HTTP) then
              h ← http_conn_disconnect (web y) c; Ok (with_conns (srv y) (delete c (conns (srv y))), h)
            else Fault OutOfBounds
        | Some _, Some _ => Fault OutOfBounds
        end;
      Ok (mkSystem s h (delete c (inputs y)) (filter (λ k, k ≠ c) (conn_list y)))
  | _, _ => Fault UseAfterFree
  end.

(** ** Requests *)

Definition tunnel_ok : list Z :=
  $"HTTP/1.0 200 OK" ++ crlf ++ $"Connection: close" ++ crlf ++ $"Cache-Control: no-cache" ++ crlf
  ++ $"Pragma: no-cache" ++ crlf ++ $"Content-Type: application/x-rtsp-tunnelled" ++ crlf ++ crlf.
Definition tunnel_error (what : list Z) : list Z :=
  $"HTTP/1.0 400 " ++ what ++ $" session cookie" ++ crlf ++ $"Connection: close" ++ crlf ++ $"Content-Type: text/html" ++ crlf ++ crlf
  ++ $"<html><body><p>Broken RTSP/HTTP tunnel request</p></body></html>" ++ [10].

(** The result and the return value. The array of a cookie has 128 bytes. *)
Definition handle_QT_tunnel (y : system) (c : nat) (req : pmsg) (post : bool) : res (system * Z) :=
  t ← get_header req $"x-sessioncookie";
  let missing := y ← send_text y c true (tunnel_error $"Missing"); Ok (y, 0) in
  match t, inputs y !! c with
  | _, None => Fault UseAfterFree
  | None, _ => missing
  | Some t, Some i =>
      if decide (128 < zlen t + 1) then missing else
      if negb post then
        y ← send_text y c false tunnel_ok;
        Ok (with_input y c (mkInput CONN_PROTO_RTSP (in_req i) [] true t (in_fd i) (in_second i)), 0)
      else
        match list_find (λ k, http_tunnel_cookie <$> inputs y !! k = Some t) (conn_list y) with
        | None => y ← send_text y c true (tunnel_error $"Unknown"); Ok (y, 0)
        | Some (_, g) =>
            match inputs y !! g with
            | None => Fault UseAfterFree
            | Some ig =>
                let y := with_input y g (set_fds ig (in_fd ig) true) in
                match inputs y !! c with
                | None => Fault UseAfterFree
                | Some i => Ok (with_input y c (set_fds i false (in_second i)), 1)
                end
            end
        end
  end.

Definition web_msg (y : system) (c : nat) (w : world) (req : pmsg) : res (system * Z) :=
  match conns (srv y) !! c with
  | None => Fault UseAfterFree
  | Some cn =>
      '(h, b) ← http_handle_msg (web y) c (c_send cn) (w_heap w) req;
      Ok (mkSystem (with_conns (srv y) (<[c := mkConn b (proto_state cn)]> (conns (srv y)))) h (inputs y) (conn_list y), 0)
  end.

(** [handle_GET] with "Accept" and [handle_POST] with "Content-Type". *)
Definition handle_tunnel_or_web (y : system) (c : nat) (w : world) (req : pmsg) (name : list Z) (post : bool) : res (system * Z) :=
  t ← get_header req name;
  match t with
  | Some t =>
      if strcaseeq t $"application/x-rtsp-tunnelled" then
        '(y, ret) ← handle_QT_tunnel y c req post;
        Ok (y, if decide (ret = 0) then 0 else -1)
      else web_msg y c w req
  | None => web_msg y c w req
  end.
Definition handle_GET (y : system) (c : nat) (w : world) (req : pmsg) : res (system * Z) :=
  handle_tunnel_or_web y c w req $"Accept" false.
Definition handle_POST (y : system) (c : nat) (w : world) (req : pmsg) : res (system * Z) :=
  handle_tunnel_or_web y c w req $"Content-Type" true.

(** The reply has 256 bytes. *)
Definition handle_unknown (y : system) (c : nat) (w : world) (req : pmsg) : res system :=
  match conns (srv y) !! c with
  | None => Fault UseAfterFree
  | Some cn =>
      p ← cstr (msg req) (proto_id req);
      let '(m, p) := add_pmsg_string (new_pmsg (take 256 (w_heap w))) p in
      let '(m, r) := add_pmsg_string m $"Not Implemented" in
      '(m, _) ← copy_headers (mkPmsg (msg m) (msg_len m) (default (-1) p) (SlStat 501 (default (-1) r)) (fields m)) req $"CSeq";
      '(b, _) ← tcp_send_pmsg (set_drop_after (c_send cn)) m (-1);
      Ok (with_srv y (with_conns (srv y) (<[c := mkConn b (proto_state cn)]> (conns (srv y)))))
  end.

(** The switch over the protocol. *)
Definition dispatch (y : system) (c : nat) (w : world) (p : cproto) (req : pmsg) : res (system * Z) :=
  method ← req_method req;
  match p with
  | CONN_PROTO_HTTP =>
      if strcaseeq method $"GET" then handle_GET y c w req
      else if strcaseeq method $"POST" then handle_POST y c w req
      else web_msg y c w req
  | CONN_PROTO_RTSP => s ← rtsp_handle_msg (srv y) c w req; Ok (with_srv y s, 0)
  | CONN_PROTO_START => y ← handle_unknown y c w req; Ok (y, 0)
  end.

Definition handle_request (y : system) (c : nat) (w : world) : res (system * Z) :=
  match inputs y !! c with
  | None => Fault UseAfterFree
  | Some i =>
      if decide (in_req i = [] ∨ head (in_req i) = Some 0) then Ok (y, -1) else
      r ← parse_pmsg (zlen (in_req i)) (in_req i);
      match r with
      | None => Ok (y, -1)
      | Some (req, _) => dispatch y c w (in_proto i) req
      end
  end.

(** ** Input *)

(** The C string at the start of the buffer. *)
Definition str_of (l : list Z) : list Z := take (Z.to_nat (span_len (λ x, negb (x =? 0)) l)) l.

Definition header_end : list Z := crlf ++ crlf.

(** The protocol of the first line: [None] before its end, [Some None] when it
    is neither. *)
Definition first_line_proto (l : list Z) : option (option cproto) :=
  match strchr (str_of l) 10 with
  | None => None
  | Some a =>
      let line := take (length (str_of l) - length a) (str_of l) in
      Some (match strrchr line 32 with
            | None => None
            | Some b =>
                if prefix_of $"HTTP/" (drop 1 b) then Some CONN_PROTO_HTTP
                else if prefix_of $"RTSP/" (drop 1 b) then Some CONN_PROTO_RTSP
                else None
            end)
  end.

(** [handle_request] and the reset of the buffer. *)
Definition take_request (y : system) (c : nat) (w : world) : res (system * Z) :=
  '(y, ret) ← handle_request y c w;
  if decide (ret < 0) then Ok (y, -1) else
  match inputs y !! c with
  | None => Fault UseAfterFree
  | Some i => Ok (with_input y c (set_req i [] []), 0)
  end.

Definition parse_client_data (y : system) (c : nat) (w : world) : res (system * Z) :=
  match inputs y !! c with
  | None => Fault UseAfterFree
  | Some i =>
      let d := in_req i in
      match in_proto i with
      | CONN_PROTO_START =>
          match first_line_proto d with
          | None => Ok (y, 0)
          | Some None => Ok (y, -1)
          | Some (Some p) => Ok (with_input y c (set_proto i p), 1)
          end
      | CONN_PROTO_RTSP =>
          if decide (zlen d < 4) then Ok (y, 0) else
          if decide (head d = Some 36) then
            match d with
            | _ :: chan :: hi :: lo :: _ =>
                if decide (zlen d < GET_16 hi lo + 4) then Ok (y, 0) else
                _ ← interleave_recv (srv y) c chan;
                Ok (with_input y c (set_req i [] []), 0)
            | _ => Fault OutOfBounds
            end
          else if strstr (str_of d) header_end then take_request y c w else Ok (y, 0)
      | CONN_PROTO_HTTP => if strstr (str_of d) header_end then take_request y c w else Ok (y, 0)
      end
  end.

(** [while ((ret = parse_client_data(c)) > 0);]: only the choice of the protocol
    returns 1, so three rounds are never used up. *)
Fixpoint parse_loop (fuel : nat) (y : system) (c : nat) (w : world) : res (system * Z) :=
  match fuel with
  | O => Fault OutOfFuel
  | S fuel =>
      '(y, ret) ← parse_client_data y c w;
      if decide (0 < ret) then parse_loop fuel y c w else Ok (y, ret)
  end.

(** The answers of [read]: data, with the world the requests in it find; EAGAIN;
    an error or the end of the stream. *)
Inductive read_answer := RData (d : list Z) (w : world) | RAgain | RFail.

(** The bytes of [req_buf] after [read] and, in a tunnel, [unbase64]. *)
Definition absorb (i : input) (d : list Z) : res input :=
  if in_b64 i then '(r, w) ← tunnel_read (in_req i, in_wait i) d; Ok (set_req i r w)
  else Ok (set_req i (in_req i ++ d) []).

Definition req_len (i : input) : Z := zlen (in_req i) + zlen (in_wait i).

Fixpoint do_read (y : system) (c : nat) (second : bool) (l : list read_answer) : res system :=
  match inputs y !! c with
  | None => Fault UseAfterFree
  | Some i =>
      match l with
      | [] | RAgain :: _ => Ok y
      | RFail :: _ => if second then Ok (with_input y c (set_fds i (in_fd i) false)) else drop_conn y c
      | RData d w :: l =>
          i ← absorb i (take (Z.to_nat (4096 - req_len i - 1)) d);
          let y := with_input y c i in
          if decide (req_len i = 4095) then drop_conn y c else
          if decide (in_wait i ≠ []) then do_read y c second l else
          '(y, ret) ← parse_loop 3 y c w;
          if decide (ret < 0) then drop_conn y c else do_read y c second l
      end
  end.

(** ** The end of a request *)

Lemma str_of_nonzero l : Forall (λ x, x ≠ 0) l → str_of l = l.
Proof.
  intros H. unfold str_of. assert (span_len (λ x, negb (x =? 0)) l = zlen l) as ->; [|by rewrite to_nat_zlen, firstn_all].
  induction H as [|x l Hx _ IH]; [done|]. cbn [span_len]. rewrite (proj2 (Z.eqb_neq x 0) Hx), IH. cbn [negb]. by rewrite zlen_cons.
Qed.

Lemma str_of_app l r : Forall (λ x, x ≠ 0) l → str_of (l ++ r) = l ++ str_of r.
Proof.
  intros H. induction H as [|x l Hx _ IH]; [done|]. unfold str_of in *. cbn [span_len app]. rewrite (proj2 (Z.eqb_neq x 0) Hx). cbn [negb].
  assert (∀ k, 0 ≤ span_len (λ x, negb (x =? 0)) k) as Hk by (intros k; induction k as [|z k IHk]; cbn [span_len]; [lia|destruct (negb _); lia]).
  specialize (Hk (l ++ r)). replace (Z.to_nat (1 + _)) with (S (Z.to_nat (span_len (λ x, negb (x =? 0)) (l ++ r)))) by lia. cbn [take]. by rewrite IH.
Qed.

Lemma strstr_line x r k :
  Forall (λ y, y ≠ 13) x → strstr (take k (x ++ r)) header_end = strstr (take (k - length x) r) header_end.
Proof.
  intros Hx. revert k. induction Hx as [|y x Hy _ IH]; intros k; [by rewrite Nat.sub_0_r|]. destruct k as [|k].
  - by destruct r.
  - cbn [app take strstr length Nat.sub]. unfold prefix_of. rewrite bool_decide_eq_false_2; [apply IH|].
    cbn [length header_end app crlf]. destruct (take k (x ++ r)); cbn [take]; intros E; injection E as E _; done.
Qed.

Lemma strstr_crlf y r k :
  y ≠ 13 → strstr (take k (crlf ++ y :: r)) header_end = strstr (take (k - 2) (y :: r)) header_end.
Proof.
  intros Hy. destruct k as [|[|k]]; [done|done|]. change (take (S (S k)) (crlf ++ y :: r)) with (13 :: 10 :: take k (y :: r)).
  replace (S (S k) - 2)%nat with k by lia. cbn [strstr]. unfold prefix_of.
  rewrite !bool_decide_eq_false_2; [done| |]; cbn [length header_end app crlf take]; destruct k; cbn [take]; intros E; try discriminate E.
  injection E as E. congruence.
Qed.

(** The request line and the rest of a request, line by line. *)
Definition request_line (meth uri proto : list Z) : list Z := meth ++ [32] ++ uri ++ [32] ++ proto.
Definition hdr_line (h : list Z * list Z) : list Z := h.1 ++ [58; 32] ++ h.2.

Lemma request_lines meth uri proto hs :
  request_text meth uri proto hs = request_line meth uri proto ++ concat ((λ h, crlf ++ hdr_line h) <$> hs) ++ header_end.
Proof.
  unfold request_text, request_line, header_end. rewrite <- !app_assoc. do 5 f_equal.
  induction hs as [|h hs IH]; [done|]. cbn [fmap list_fmap concat]. unfold hdr_text at 1, hdr_line at 1. rewrite <- !app_assoc, <- IH.
  done.
Qed.

Lemma plain_no_cr s : plain s → Forall (λ y, y ≠ 13) s.
Proof. intros H. eapply Forall_impl; [exact H|]. simpl. tauto. Qed.

Lemma hdr_line_shape h : header_ok h → Forall (λ y, y ≠ 13) (hdr_line h) ∧ ∃ x r, hdr_line h = x :: r ∧ x ≠ 13.
Proof.
  intros ([Hn1 Hn2] & Hv & _). destruct h as [[|x n] v]; [done|]. cbn [fst snd] in *. split.
  - unfold hdr_line. cbn [fst snd]. apply Forall_app. split; [eapply Forall_impl; [exact Hn2|]; simpl; tauto|].
    apply Forall_app. split; [closed_nonzero|by apply plain_no_cr].
  - apply Forall_cons in Hn2 as [Hx _]. exists x, (n ++ [58; 32] ++ v). split; [done|tauto].
Qed.

Lemma request_line_no_cr meth uri proto hs : request_ok meth uri proto hs → Forall (λ y, y ≠ 13) (request_line meth uri proto).
Proof.
  intros ([_ Hm] & [_ Hu] & [Hp _] & _). unfold request_line.
  repeat (apply Forall_app; split); try closed_nonzero; [eapply Forall_impl; [exact Hm|]; simpl; tauto| |by apply plain_no_cr].
  eapply Forall_impl; [exact Hu|]; simpl; tauto.
Qed.

(** The end of the headers is seen when, and only when, the request is there. *)
Lemma request_end meth uri proto hs k :
  request_ok meth uri proto hs →
  let text := request_text meth uri proto hs in
  (k < length text)%nat → strstr (take k text) header_end = None.
Proof.
  intros Hok text. pose proof (request_line_no_cr _ _ _ _ Hok) as HL. destruct Hok as (_ & _ & _ & Hhs).
  unfold text. rewrite request_lines. intros Hk. rewrite strstr_line by done. rewrite length_app in Hk.
  set (k' := (k - length (request_line meth uri proto))%nat).
  assert (k' < length (concat ((λ h, crlf ++ hdr_line h) <$> hs) ++ header_end))%nat as Hk'.
  { unfold k'. assert (0 < length (concat ((λ h, crlf ++ hdr_line h) <$> hs) ++ header_end))%nat by (rewrite length_app; simpl; lia). lia. }
  clearbody k'. clear Hk HL text. revert k' Hk'. induction Hhs as [|h hs Hh _ IH]; intros k' Hk'.
  { cbn in Hk'. destruct k' as [|[|[|[|k']]]]; try done. lia. }
  cbn [fmap list_fmap concat] in *. rewrite <- !app_assoc in *. destruct (hdr_line_shape h Hh) as [H13 (x & r & Ex & Hx)].
  rewrite !length_app in Hk'. change (length crlf) with 2%nat in Hk'.
  rewrite Ex, <- app_comm_cons, strstr_crlf, app_comm_cons, <- Ex, strstr_line by done. apply IH.
  rewrite length_app. assert (0 < length header_end)%nat by (simpl; lia). lia.
Qed.

Lemma strstr_found l r p : is_Some (strstr l p) → is_Some (strstr (l ++ r) p).
Proof.
  induction l as [|x l IH].
  - cbn [strstr]. unfold prefix_of. case_bool_decide as E; [|by intros [? ?]]. intros _. rewrite take_nil in E. subst p. by destruct r; eexists.
  - cbn [app strstr]. unfold prefix_of. case_bool_decide as E.
    + intros _. rewrite bool_decide_eq_true_2; [by eexists|]. rewrite app_comm_cons, take_app_le; [done|]. rewrite <- E, length_take. lia.
    + intros H. case_bool_decide; [by eexists|]. by apply IH.
Qed.

Lemma strstr_suffix l p : is_Some (strstr (l ++ p) p).
Proof.
  induction l as [|x l IH]; cbn [app].
  - assert (prefix_of p p = true) as E by (unfold prefix_of; rewrite firstn_all; by apply bool_decide_eq_true_2).
    destruct p; cbn [strstr]; rewrite E; by eexists.
  - cbn [strstr]. destruct (prefix_of p (x :: l ++ p)); [by eexists|done].
Qed.

Lemma request_complete meth uri proto hs rest :
  is_Some (strstr (request_text meth uri proto hs ++ rest) header_end).
Proof. apply strstr_found. rewrite request_lines, app_assoc. apply strstr_suffix. Qed.

Lemma request_nonzero meth uri proto hs : request_ok meth uri proto hs → Forall (λ x, x ≠ 0) (request_text meth uri proto hs).
Proof.
  intros ([_ Hm] & [_ Hu] & [Hp _] & Hhs). unfold request_text.
  repeat (apply Forall_app; split); try closed_nonzero.
  - eapply Forall_impl; [exact Hm|]. simpl. tauto.
  - eapply Forall_impl; [exact Hu|]. simpl. tauto.
  - eapply Forall_impl; [exact Hp|]. simpl. tauto.
  - apply Forall_concat, Forall_fmap. eapply Forall_impl; [exact Hhs|]. intros [n v] ([_ Hn] & Hv & _). cbn [fst snd] in *. unfold hdr_text. cbn [fst snd].
    repeat (apply Forall_app; split); try closed_nonzero; [eapply Forall_impl; [exact Hn|]; simpl; tauto|eapply Forall_impl; [exact Hv|]; simpl; tauto].
Qed.

(** ** The protocol of a request *)

Lemma strchr_none l c : Forall (λ x, x ≠ c) l → strchr l c = None.
Proof. induction 1 as [|x l Hx _ IH]; [done|]. cbn [strchr]. by rewrite decide_False. Qed.

Section Request.
Context (meth uri proto v : list Z) (hs : list (list Z * list Z)).
Hypothesis Hok : request_ok meth uri proto hs.
Hypothesis Hproto : proto = $"RTSP/" ++ v.
Hypothesis Hspace : Forall (λ x, x ≠ 32) v.
Hypothesis Hmeth : head meth ≠ Some 36.

Let text := request_text meth uri proto hs.

Lemma text_first_line : ∃ r, text = (request_line meth uri proto ++ [13]) ++ 10 :: r.
Proof. unfold text, request_text, request_line. eexists. by rewrite <- !app_assoc. Qed.

Lemma line_no_lf : Forall (λ x, x ≠ 10) (request_line meth uri proto ++ [13]).
Proof.
  destruct Hok as ([_ Hm] & [_ Hu] & [Hp _] & _). unfold request_line.
  repeat (apply Forall_app; split); try closed_nonzero.
  - eapply Forall_impl; [exact Hm|]. simpl. tauto.
  - eapply Forall_impl; [exact Hu|]. simpl. tauto.
  - eapply Forall_impl; [exact Hp|]. simpl. tauto.
Qed.

(** Every part of the text from its start, with anything behind it when it is
    whole, says RTSP or nothing yet. *)
Lemma first_line_of d :
  (∃ k, d = take k text) ∨ (∃ rest, d = text ++ rest) →
  first_line_proto d = Some (Some CONN_PROTO_RTSP) ∨ (first_line_proto d = None ∧ ∃ k, d = take k text ∧ (k < length text)%nat).
Proof.
  intros Hd. set (L := request_line meth uri proto ++ [13]). destruct text_first_line as [r Er]. fold L in Er.
  assert (∃ r', str_of d = L ++ 10 :: r' ∨ (str_of d = d ∧ Forall (λ x, x ≠ 10) d ∧ ∃ k, d = take k text ∧ (k < length text)%nat)) as [r' [E|(E & HF & Hk)]].
  { destruct Hd as [[k ->]|[rest ->]].
    - rewrite str_of_nonzero by (apply Forall_take, (request_nonzero _ _ _ _ Hok)). destruct (decide (k <= length L)%nat) as [N|N].
      + exists []. right. split; [done|]. split; [|exists k; split; [done|]; rewrite Er, length_app; simpl; lia].
        rewrite Er, take_app_le by done. apply Forall_take, line_no_lf.
      + exists (take (k - length L - 1) r). left. rewrite Er, take_app_ge by lia. f_equal. destruct (k - length L)%nat as [|m] eqn:E; [lia|]. simpl. by rewrite Nat.sub_0_r.
    - exists (r ++ str_of rest). left. rewrite str_of_app by apply (request_nonzero _ _ _ _ Hok). by rewrite Er, <- app_assoc. }
  - left. unfold first_line_proto. rewrite E, strchr_app by apply line_no_lf. f_equal. rewrite length_app, Nat.add_sub, take_app_length.
    assert (L = (meth ++ [32] ++ uri) ++ 32 :: (proto ++ [13])) as -> by (unfold L, request_line; by rewrite <- !app_assoc).
    rewrite strrchr_app.
    + cbn [drop]. rewrite Hproto, <- app_assoc. done.
    + apply Forall_app. split; [|closed_nonzero]. rewrite Hproto. apply Forall_app. split; [closed_nonzero|done].
  - right. split; [|done]. unfold first_line_proto. by rewrite E, strchr_none.
Qed.

(** ** One read *)

(** A connection that reads this request. *)
Definition reads_rtsp (i : input) : Prop := in_proto i = CONN_PROTO_START ∨ in_proto i = CONN_PROTO_RTSP.

Lemma with_input_id y c i : inputs y !! c = Some i → with_input y c i = y.
Proof. intros H. unfold with_input. rewrite insert_id by done. by destruct y. Qed.

Lemma set_proto_id i p : in_proto i = p → set_proto i p = i.
Proof. destruct i. cbn. by intros ->. Qed.

Lemma text_head : head text = head meth ∧ text ≠ [].
Proof. unfold text, request_text. destruct Hok as ([Hm _] & _). by destruct meth. Qed.

Lemma partial_rtsp y c i w k :
  inputs y !! c = Some i → in_proto i = CONN_PROTO_RTSP → in_req i = take k text → (k < length text)%nat →
  parse_client_data y c w = Ok (y, 0).
Proof.
  intros Hi Hp Hd Hk. unfold parse_client_data. rewrite Hi, Hp. case_decide as H4; [done|]. rewrite decide_False.
  - rewrite Hd, str_of_nonzero by (apply Forall_take, (request_nonzero _ _ _ _ Hok)). unfold text. by rewrite (request_end _ _ _ _ k Hok Hk).
  - rewrite Hd. destruct text_head as [Hh Hne]. destruct text as [|x r]; [done|]. destruct k as [|k]; [exfalso; apply H4; rewrite Hd; unfold zlen; simpl; lia|].
    cbn in *. congruence.
Qed.

Lemma parse_partial y c i w k :
  inputs y !! c = Some i → reads_rtsp i → in_req i = take k text → (k < length text)%nat →
  ∃ p, parse_loop 3 y c w = Ok (with_input y c (set_proto i p), 0) ∧ reads_rtsp (set_proto i p).
Proof.
  intros Hi [Hp|Hp] Hd Hk.
  - destruct (first_line_of (in_req i)) as [E|[E _]]; [left; by exists k| |].
    + exists CONN_PROTO_RTSP. split; [|by right]. cbn [parse_loop].
      assert (parse_client_data y c w = Ok (with_input y c (set_proto i CONN_PROTO_RTSP), 1)) as -> by (unfold parse_client_data; by rewrite Hi, Hp, E).
      rewrite res_bind_ok. rewrite decide_True by lia. erewrite (partial_rtsp (with_input y c (set_proto i CONN_PROTO_RTSP)) c (set_proto i CONN_PROTO_RTSP) w k);
        [by rewrite res_bind_ok, decide_False by lia|apply lookup_insert_eq|done|done|done].
    + exists CONN_PROTO_START. rewrite set_proto_id, with_input_id by done. split; [|by left]. cbn [parse_loop].
      assert (parse_client_data y c w = Ok (y, 0)) as -> by (unfold parse_client_data; by rewrite Hi, Hp, E).
      rewrite res_bind_ok. by rewrite decide_False by lia.
  - exists CONN_PROTO_RTSP. rewrite set_proto_id, with_input_id by done. split; [|by right]. cbn [parse_loop].
    rewrite (partial_rtsp y c i w k), res_bind_ok by done. by rewrite decide_False by lia.
Qed.

(** The connection when it waits for the next request. *)
Definition idle (i : input) : input := set_req (set_proto i CONN_PROTO_RTSP) [] [].

Definition handled (y : system) (c : nat) (i : input) (w : world) (m : pmsg) : res system :=
  s ← rtsp_handle_msg (srv y) c w m;
  Ok (mkSystem s (web y) (<[c := idle i]> (inputs y)) (conn_list y)).

Section Whole.
Context (rest : list Z) (m : pmsg) (n : Z).
Hypothesis Hm : parse_pmsg (zlen (text ++ rest)) (text ++ rest) = Ok (Some (m, n)).
Hypothesis Hmm : ∃ x, req_method m = Ok x.

Lemma complete_rtsp y c i w :
  inputs y !! c = Some i → in_proto i = CONN_PROTO_RTSP → in_req i = text ++ rest →
  parse_client_data y c w = y' ← handled y c i w m; Ok (y', 0).
Proof.
  intros Hi Hp Hd. destruct text_head as [Hh Hne]. unfold parse_client_data. rewrite Hi, Hp, Hd.
  assert (4 ≤ zlen (text ++ rest)) as H4.
  { rewrite zlen_app. unfold text. rewrite request_lines, !zlen_app. pose proof (zlen_nonneg rest). change (zlen header_end) with 4.
    pose proof (zlen_nonneg (request_line meth uri proto)). pose proof (zlen_nonneg (concat ((λ h, crlf ++ hdr_line h) <$> hs))). lia. }
  rewrite decide_False by lia. rewrite decide_False by (destruct text; [done|]; cbn in *; congruence).
  rewrite str_of_app by apply (request_nonzero _ _ _ _ Hok). destruct (request_complete meth uri proto hs (str_of rest)) as [z Ez].
  unfold text at 1. rewrite Ez. unfold take_request, handle_request. rewrite Hi, Hd.
  pose proof (request_nonzero _ _ _ _ Hok : Forall (λ x, x ≠ 0) text) as Hz.
  rewrite decide_False by (destruct text; [done|]; apply Forall_cons in Hz as [? _]; cbn in *; intros [E|E]; [done|congruence]).
  rewrite Hm, res_bind_ok. destruct Hmm as [me Eme]. unfold dispatch. rewrite Eme, res_bind_ok, Hp.
  unfold handled, idle. destruct (rtsp_handle_msg (srv y) c w m) as [s|]; [|done]. do 3 rewrite res_bind_ok. rewrite decide_False by lia.
  cbn [with_srv inputs]. rewrite Hi. by rewrite (set_proto_id i).
Qed.

Lemma parse_complete y c i w :
  inputs y !! c = Some i → reads_rtsp i → in_req i = text ++ rest →
  parse_loop 3 y c w = y' ← handled y c i w m; Ok (y', 0).
Proof.
  intros Hi Hp Hd.
  assert (∀ y1 i1, inputs y1 !! c = Some i1 → in_proto i1 = CONN_PROTO_RTSP → in_req i1 = text ++ rest → ∀ k,
    parse_loop (S k) y1 c w = y' ← handled y1 c i1 w m; Ok (y', 0)) as HR.
  { intros y1 i1 H1 H2 H3 k. cbn [parse_loop]. rewrite (complete_rtsp y1 c i1 w) by done. by destruct (handled y1 c i1 w m). }
  destruct Hp as [Hp|Hp]; [|by apply HR]. destruct (first_line_of (in_req i)) as [E|(_ & k & E & Hk)]; [right; by exists rest| |].
  - change (parse_loop 3 y c w) with ('(y, ret) ← parse_client_data y c w; if decide (0 < ret) then parse_loop 2 y c w else Ok (y, ret)).
    assert (parse_client_data y c w = Ok (with_input y c (set_proto i CONN_PROTO_RTSP), 1)) as -> by (unfold parse_client_data; by rewrite Hi, Hp, E).
    rewrite res_bind_ok. rewrite decide_True by lia. rewrite (HR _ (set_proto i CONN_PROTO_RTSP)) by (done || apply lookup_insert_eq).
    unfold handled, idle. cbn [with_input srv web inputs conn_list]. destruct (rtsp_handle_msg (srv y) c w m) as [s|]; [|done].
    do 3 rewrite res_bind_ok. by rewrite insert_insert_eq.
  - exfalso. rewrite Hd in E. apply (f_equal length) in E. rewrite length_app, length_take in E. lia.
Qed.

(** The read that brings the end of the request. *)
Lemma read_complete y c sec i i' d w :
  inputs y !! c = Some i → reads_rtsp i → zlen d ≤ 4095 - req_len i → absorb i d = Ok i' → in_proto i' = in_proto i →
  in_req i' = text ++ rest → in_wait i' = [] → zlen (text ++ rest) < 4095 →
  do_read y c sec [RData d w] = handled y c i' w m.
Proof.
  intros Hi Hp Hd Ha Hp' Hr Hw Hl. cbn [do_read]. rewrite Hi.
  rewrite firstn_all2 by (unfold zlen in Hd; lia). rewrite Ha, res_bind_ok.
  rewrite decide_False by (unfold req_len; rewrite Hr, Hw; unfold zlen in *; simpl; lia). rewrite (decide_False (P := in_wait i' ≠ [])) by tauto.
  rewrite (parse_complete (with_input y c i') c i' w); [|apply lookup_insert_eq|by destruct Hp; [left|right]; rewrite Hp'|done].
  unfold handled. cbn [with_input srv web inputs conn_list]. destruct (rtsp_handle_msg (srv y) c w m) as [s|]; [|done].
  do 3 rewrite res_bind_ok. rewrite decide_False by lia. cbn [inputs]. by rewrite insert_insert_eq, lookup_insert_eq.
Qed.
End Whole.

(** A read that brings a part. *)
Lemma read_partial y c sec i i' d w l k :
  inputs y !! c = Some i → reads_rtsp i → zlen d ≤ 4095 - req_len i → absorb i d = Ok i' → in_proto i' = in_proto i →
  in_req i' = take k text → (k < length text)%nat → req_len i' < 4095 →
  ∃ p, do_read y c sec (RData d w :: l) = do_read (with_input y c (set_proto i' p)) c sec l ∧ reads_rtsp (set_proto i' p).
Proof.
  intros Hi Hp Hd Ha Hp' Hr Hk Hl. cbn [do_read]. rewrite Hi. rewrite firstn_all2 by (unfold zlen in Hd; lia). rewrite Ha, res_bind_ok.
  rewrite decide_False by lia. assert (reads_rtsp i') as Hp1 by (by destruct Hp; [left|right]; rewrite Hp').
  destruct (decide (in_wait i' ≠ [])).
  { exists (in_proto i'). by rewrite set_proto_id. }
  destruct (parse_partial (with_input y c i') c i' w k) as (p & -> & Hq); [apply lookup_insert_eq|done|done|done|].
  exists p. split; [|done]. rewrite res_bind_ok. rewrite decide_False by lia. unfold with_input. cbn [srv web inputs conn_list]. by rewrite insert_insert_eq.
Qed.
End Request.

(** What reads leave of a connection. *)
Record same_conn (i i' : input) : Prop := {
  sc_b64 : in_b64 i' = in_b64 i;
  sc_cookie : http_tunnel_cookie i' = http_tunnel_cookie i;
  sc_fd : in_fd i' = in_fd i;
  sc_second : in_second i' = in_second i }.

Lemma same_idle i i' : same_conn i i' → idle i' = idle i.
Proof. intros [H1 H2 H3 H4]. unfold idle, set_req, set_proto. cbn. by rewrite H1, H2, H3, H4. Qed.

Lemma handled_same y c i i' j w m : same_conn i i' → handled (with_input y c j) c i' w m = handled y c i w m.
Proof. intros H. unfold handled. cbn [with_input srv web inputs conn_list]. by rewrite insert_insert_eq, (same_idle i i' H). Qed.

Definition answers (l : list (list Z * world)) : list read_answer := (λ x, RData x.1 x.2) <$> l.

(** ** Many reads *)

(** The buffer after the bytes [r] of a connection, in a tunnel or not. *)
Definition view (b : bool) (r : list Z) : list Z * list Z :=
  if b then (decode (filter valid r), leftover (filter valid r)) else (r, []).

Lemma Forall_filter_valid (l : list Z) : Forall valid (filter valid l).
Proof. apply Forall_forall. intros x Hx. by apply list_elem_of_filter in Hx as [? _]. Qed.

Lemma absorb_view i b r d :
  in_b64 i = b → (in_req i, in_wait i) = view b r → absorb i d = Ok (set_req i (view b (r ++ d)).1 (view b (r ++ d)).2).
Proof.
  intros Hb Hv. unfold absorb. rewrite Hb. destruct b; cbn [view] in *; injection Hv as E1 E2; rewrite E1.
  - rewrite E2. destruct (leftover_valid (filter valid r) (Forall_filter_valid r)) as [Hl _]. rewrite tunnel_read_spec, res_bind_ok by done.
    cbn [fst snd]. rewrite filter_app. destruct (decode_app (filter valid r) (filter valid d)) as [-> ->]. done.
  - done.
Qed.

Lemma decode_size n l : (length l <= n)%nat → zlen (decode l) + zlen (leftover l) ≤ zlen l.
Proof.
  revert l. induction n as [|n IH]; intros l Hn; [by destruct l; [|simpl in Hn; lia]|].
  destruct (decide (length l < 4)%nat) as [H4|H4]; [destruct (decode_short l H4) as [-> ->]; rewrite zlen_nil; lia|].
  rewrite <- (take_drop 4 l). destruct (decode_quad (take 4 l) (drop 4 l)) as [-> ->]; [rewrite length_take; lia|].
  specialize (IH (drop 4 l) ltac:(rewrite length_drop; lia)). rewrite !zlen_app.
  assert (zlen (take (Z.to_nat (quad_len (take 4 l))) (quad (take 4 l))) ≤ 3).
  { destruct (quad_len_bounds (take 4 l)) as [? Hq]; [rewrite length_take; lia|]. unfold zlen in *. rewrite length_take. lia. }
  assert (zlen (take 4 l) = 4) by (unfold zlen; rewrite length_take; lia). lia.
Qed.

Lemma view_size b r : zlen (view b r).1 + zlen (view b r).2 ≤ zlen r.
Proof.
  destruct b; cbn [view fst snd]; [|rewrite zlen_nil; lia]. pose proof (decode_size (length (filter valid r)) (filter valid r) (le_n _)).
  assert (zlen (filter valid r) ≤ zlen r) by (unfold zlen; pose proof (length_filter valid r); lia). lia.
Qed.

Section Reads.
Context (meth uri proto v : list Z) (hs : list (list Z * list Z)) (rest : list Z) (m : pmsg) (n : Z).
Hypothesis Hok : request_ok meth uri proto hs.
Hypothesis Hproto : proto = $"RTSP/" ++ v.
Hypothesis Hspace : Forall (λ x, x ≠ 32) v.
Hypothesis Hmeth : head meth ≠ Some 36.
Let text := request_text meth uri proto hs.
Hypothesis Hm : parse_pmsg (zlen (text ++ rest)) (text ++ rest) = Ok (Some (m, n)).
Hypothesis Hmm : ∃ x, req_method m = Ok x.

(** Reads of which all but the last one bring parts of the request. *)
Lemma reads_whole cs a w y c sec i r :
  inputs y !! c = Some i → reads_rtsp i → (in_req i, in_wait i) = view (in_b64 i) r →
  (∀ q, q `prefix_of` (concat cs.*1) → ∃ k, (view (in_b64 i) (r ++ q)).1 = take k text ∧ (k < length text)%nat) →
  view (in_b64 i) (r ++ concat cs.*1 ++ a) = (text ++ rest, []) → zlen (r ++ concat cs.*1 ++ a) < 4095 →
  do_read y c sec (answers (cs ++ [(a, w)])) = handled y c i w m.
Proof.
  revert y i r. induction cs as [|[d w1] cs IH]; intros y i r Hi Hp Hv Hpart Hwhole Hl.
  - cbn [app answers fmap list_fmap fst snd]. cbn [fmap list_fmap concat app] in Hwhole, Hl. rewrite zlen_app in Hl.
    pose proof (absorb_view i _ r a eq_refl Hv) as Ha. rewrite Hwhole in Ha. cbn [fst snd] in Ha.
    pose proof (view_size (in_b64 i) r) as Hs. rewrite <- Hv in Hs. cbn [fst snd] in Hs.
    pose proof (view_size (in_b64 i) (r ++ a)) as Hs2. rewrite Hwhole in Hs2. cbn [fst snd] in Hs2. rewrite !zlen_app, zlen_nil in Hs2.
    rewrite (read_complete meth uri proto v hs Hok Hproto Hspace Hmeth rest m n Hm Hmm y c sec i (set_req i (text ++ rest) []) a w);
      [|done|done|unfold req_len; lia|done|done|done|done|rewrite zlen_app; unfold text in Hs2; lia].
    unfold handled. by rewrite (same_idle i).
  - cbn [fmap list_fmap fst concat] in *. rewrite <- app_assoc in *.
    pose proof (absorb_view i _ r d eq_refl Hv) as Ha. destruct (Hpart d) as (k & Ek & Hk); [by apply prefix_app_r|].
    pose proof (view_size (in_b64 i) r) as Hs. rewrite <- Hv in Hs. cbn [fst snd] in Hs.
    pose proof (view_size (in_b64 i) (r ++ d)) as Hs2. rewrite !zlen_app in *. pose proof (zlen_nonneg (concat cs.*1)). pose proof (zlen_nonneg a).
    set (i' := set_req i _ _) in Ha.
    destruct (read_partial meth uri proto v hs Hok Hproto Hspace Hmeth y c sec i i' d w1 (answers (cs ++ [(a, w)])) k) as (p & E & Hq);
      [done|done|unfold req_len; lia|done|done|done|done|unfold req_len, i'; cbn; lia|].
    change (answers (((d, w1) :: cs) ++ [(a, w)])) with (RData d w1 :: answers (cs ++ [(a, w)])). rewrite E.
    rewrite (IH (with_input y c (set_proto i' p)) (set_proto i' p) (r ++ d)).
    + by apply handled_same.
    + apply lookup_insert_eq.
    + done.
    + change (in_b64 (set_proto i' p)) with (in_b64 i). cbn. by destruct (view (in_b64 i) (r ++ d)).
    + intros q Hq'. change (in_b64 (set_proto i' p)) with (in_b64 i). rewrite <- app_assoc. apply Hpart. by apply prefix_app.
    + change (in_b64 (set_proto i' p)) with (in_b64 i). by rewrite <- !app_assoc in *.
    + rewrite !zlen_app. lia.
Qed.
End Reads.

(** ** Theorems *)

(** How a client sends a request in reads [cs] and a last one [a]: as it is, with
    [rest] behind its end in the last read; or in a tunnel, in base64 with
    anything outside the alphabet mixed in. *)
Definition sent (b : bool) (text rest : list Z) (cs : list (list Z)) (a : list Z) : Prop :=
  if b then rest = [] ∧ Forall is_byte text ∧ filter valid (concat cs ++ a) = rfc_encode text ∧ filter valid a ≠ []
  else concat cs ++ a = text ++ rest ∧ (length rest < length a)%nat.

Lemma decode_nonempty l : leftover l = [] → l ≠ [] → decode l ≠ [].
Proof.
  intros H Hl. destruct (decide (length l < 4)%nat) as [H4|H4]; [destruct (decode_short l H4) as [_ E]; congruence|].
  rewrite <- (take_drop 4 l). destruct (decode_quad (take 4 l) (drop 4 l)) as [-> _]; [rewrite length_take; lia|].
  destruct (quad_len_bounds (take 4 l)) as [Hq1 Hq2]; [rewrite length_take; lia|]. intros [E _]%app_eq_nil.
  apply (f_equal length) in E. rewrite length_take in E. unfold zlen in Hq2. simpl in E. lia.
Qed.

Lemma proper_take (l1 l2 l : list Z) : l1 ++ l2 = l → l2 ≠ [] → ∃ k, l1 = take k l ∧ (k < length l)%nat.
Proof.
  intros <- H. exists (length l1). rewrite take_app_length, length_app. split; [done|]. destruct l2; [done|simpl; lia].
Qed.

Lemma sent_parts b text rest cs a :
  sent b text rest cs a →
  view b (concat cs ++ a) = (text ++ rest, []) ∧
  ∀ q, q `prefix_of` concat cs → ∃ k, (view b q).1 = take k text ∧ (k < length text)%nat.
Proof.
  destruct b; cbn [sent view].
  - intros (-> & Hb & Hf & Ha). destruct (decode_rfc (length text) text (le_n _) Hb) as [Hd Hl].
    rewrite app_nil_r, Hf, Hd, Hl. split; [done|]. intros q [q' Eq]. cbn [fst].
    rewrite Eq, <- app_assoc, filter_app in Hf. destruct (decode_app (filter valid q) (filter valid (q' ++ a))) as [D1 D2].
    rewrite Hf, Hd in D1. rewrite Hf, Hl in D2. eapply proper_take; [by symmetry|]. apply decode_nonempty; [done|].
    rewrite filter_app. intros [_ [_ E]%app_eq_nil]%app_eq_nil. done.
  - intros [E Hlt]. rewrite E. split; [done|]. intros q [q' Eq]. cbn [fst].
    assert (∃ z, text = concat cs ++ z ∧ z ≠ []) as (z & Ez & Hz).
    { exists (drop (length (concat cs)) text). assert (length (concat cs) < length text)%nat.
      { apply (f_equal length) in E. rewrite !length_app in E. lia. }
      split; [|intros Hn; apply (f_equal length) in Hn; rewrite length_drop in Hn; simpl in Hn; lia].
      rewrite <- (take_drop (length (concat cs)) text) at 1. f_equal.
      apply (f_equal (take (length (concat cs)))) in E. rewrite take_app_length, take_app_le in E by lia. done. }
    rewrite Eq, <- app_assoc in Ez. eapply proper_take; [by symmetry|]. intros [_ ?]%app_eq_nil. done.
Qed.

(** C2. However the network cuts an RTSP request into reads, and also when the
    client tunnels it in base64 through HTTP, the reads up to the last do
    nothing, and the last one calls the RTSP server once, with a message whose
    method, URI and headers are those of the client, and empties the buffer; the
    bytes of the last read behind the request are thrown away. *)
Theorem request_reassembled y c sec i meth uri v hs cs a w rest :
  let proto := $"RTSP/" ++ v in
  let text := request_text meth uri proto hs in
  inputs y !! c = Some i → in_proto i ≠ CONN_PROTO_HTTP → in_req i = [] → in_wait i = [] →
  request_ok meth uri proto hs → zlen hs ≤ MAX_FIELDS → Forall (λ x, x ≠ 32) v → head meth ≠ Some 36 →
  sent (in_b64 i) text rest cs.*1 a → zlen (concat cs.*1 ++ a) < 4095 →
  ∃ m u, sl m = SlReq 0 u ∧ req_method m = Ok meth ∧ req_uri m = Ok uri ∧ header_strings m = Ok hs ∧
    do_read y c sec (answers (cs ++ [(a, w)])) =
      s ← rtsp_handle_msg (srv y) c w m;
      Ok (mkSystem s (web y)
            (<[c := mkInput CONN_PROTO_RTSP [] [] (in_b64 i) (http_tunnel_cookie i) (in_fd i) (in_second i)]> (inputs y)) (conn_list y)).
Proof.
  intros proto text Hi Hp Hr Hw Hok Hn Hv Hh Hs Hl.
  destruct (parse_request meth uri proto hs rest Hok Hn) as (m & u & H1 & H2 & H3 & H4 & _ & H6).
  assert (req_method m = Ok meth) as Hme by (unfold req_method; by rewrite H2).
  exists m, u. split; [done|]. split; [done|]. split; [unfold req_uri; by rewrite H2|]. split; [done|].
  destruct (sent_parts _ _ _ _ _ Hs) as [Hwhole Hpart].
  apply (reads_whole meth uri proto v hs rest m _ Hok eq_refl Hv Hh H1 (ex_intro _ _ Hme) cs a w y c sec i []); try done.
  - unfold reads_rtsp. destruct (in_proto i); [by left|by right|done].
  - rewrite Hr, Hw. by destruct (in_b64 i).
Qed.

(** An interleaved packet of four bytes on a connection without interleaved
    channels stops the server: [interleave_recv] follows a null pointer. *)
Lemma interleaved_packet_crashes y c sec i cn chan w l :
  inputs y !! c = Some i → in_proto i = CONN_PROTO_RTSP → in_req i = [] → in_wait i = [] → in_b64 i = false →
  conns (srv y) !! c = Some cn → proto_state cn = None → 0 ≤ chan < 8 →
  do_read y c sec (RData [36; chan; 0; 0] w :: l) = Fault NullDeref.
Proof.
  intros Hi Hp Hr Hw Hb Hc Hn Hch. cbn [do_read]. rewrite Hi. unfold req_len. rewrite Hr, Hw. cbn [take Z.to_nat].
  change (take (Z.to_nat (4096 - (zlen [] + zlen []) - 1)) [36; chan; 0; 0]) with [36; chan; 0; 0]. unfold absorb. rewrite Hb, Hr, res_bind_ok.
  cbn [app in_req in_wait set_req]. rewrite decide_False by (unfold zlen; simpl; lia). rewrite (decide_False (P := [] ≠ [])) by tauto.
  set (y1 := with_input y c _). assert (parse_client_data y1 c w = Fault NullDeref) as E; [|cbn [parse_loop]; by rewrite E].
  unfold parse_client_data, y1. cbn [with_input inputs]. rewrite lookup_insert_eq. cbn [set_req in_proto in_req]. rewrite Hp.
  change (zlen [36; chan; 0; 0]) with 4. rewrite (decide_False (P := 4 < 4)) by lia. rewrite (decide_True (P := head _ = Some 36)) by done.
  change (GET_16 0 0 + 4) with 4. rewrite (decide_False (P := 4 < 4)) by lia. unfold interleave_recv. cbn [srv with_input].
  rewrite Hc, decide_False by lia. by rewrite Hn.
Qed.

(** A POST whose cookie is empty is taken for the other half of the newest
    connection that is not a tunnel, whoever opened it: what the sender writes
    from then on is read as requests of that connection. *)
Lemma empty_cookie_takes_connection y c g i ig req rest :
  get_header req $"x-sessioncookie" = Ok (Some []) → conn_list y = g :: rest → g ≠ c →
  inputs y !! c = Some i → inputs y !! g = Some ig → http_tunnel_cookie ig = [] →
  ∃ y', handle_QT_tunnel y c req true = Ok (y', 1) ∧ inputs y' !! g = Some (set_fds ig (in_fd ig) true).
Proof.
  intros Hg Hl N Hi Hig Hc. unfold handle_QT_tunnel. rewrite Hg, res_bind_ok, Hi. rewrite decide_False by (unfold zlen; simpl; lia). cbn [negb].
  rewrite Hl. cbn [list_find]. rewrite decide_True by (by rewrite Hig, <- Hc). rewrite Hig. cbn [with_input inputs].
  rewrite lookup_insert_ne, Hi by done. eexists. split; [reflexivity|]. cbn [with_input inputs].
  rewrite lookup_insert_ne by done. apply lookup_insert_eq.
Qed.

(** ** A client in two reads *)

Definition demo_system : system := mkSystem (demo_accepted []) (mkHttp [] ∅ 0) {[0%nat := new_input]} [0%nat].

Definition options_text : list Z := request_text $"OPTIONS" $"*" $"RTSP/1.0" [($"CSeq", $"1")].

Lemma request_reassembled_witness :
  ∃ m, req_method m = Ok $"OPTIONS" ∧ header_strings m = Ok [($"CSeq", $"1")] ∧
    do_read demo_system 0 false (answers [(take 9 options_text, demo_world); (drop 9 options_text ++ $"xy", demo_world)]) =
      s ← rtsp_handle_msg (demo_accepted []) 0 demo_world m;
      Ok (mkSystem s (mkHttp [] ∅ 0) {[0%nat := mkInput CONN_PROTO_RTSP [] [] false [] true false]} [0%nat]).
Proof.
  destruct (request_reassembled demo_system 0 false new_input $"OPTIONS" $"*" $"1.0" [($"CSeq", $"1")]
    [(take 9 options_text, demo_world)] (drop 9 options_text ++ $"xy") demo_world $"xy") as (m & u & _ & H2 & _ & H4 & H5).
  - reflexivity.
  - discriminate.
  - reflexivity.
  - reflexivity.
  - repeat split; try discriminate; repeat constructor; try discriminate; try exact I.
  - vm_compute. discriminate.
  - repeat constructor; discriminate.
  - discriminate.
  - split; [reflexivity|vm_compute; lia].
  - vm_compute. reflexivity.
  - exists m. split; [exact H2|]. split; [exact H4|]. exact H5.
Defined.

Lemma interleaved_packet_crashes_witness :
  do_read (with_input demo_system 0 (set_proto new_input CONN_PROTO_RTSP)) 0 false [RData [36; 0; 0; 0] demo_world] = Fault NullDeref.
Proof.
  apply (interleaved_packet_crashes (with_input demo_system 0 (set_proto new_input CONN_PROTO_RTSP)) 0 false (set_proto new_input CONN_PROTO_RTSP)
    (mkConn (new_send (zeros 1000)) None) 0 demo_world []); try reflexivity. lia.
Defined.
