(* ===== verification/Rtcp.v ===== *)
(** * Rtcp: the parser of receiver reports

    Models rtcp-parse.c and rtcp-parse.h of
    src/sources/applications/RTSPServer/src: the walk over a compound RTCP packet
    and the round-trip time of the receiver reports in it. A packet is its
    bytes, [pu8WritePtr] their end, [pu8ReadPtr] an offset. The clock, as the
    middle 32 bits of an NTP time, is an argument; a round-trip time is in units
    of 1/65536 s, in which the doubles of the code are exact. The quality
    analyser only looks at the block and is left out. *)

From stdpp Require Import prelude.
From S2P Require Import Prelude Rtp.

Definition eRTCP_RR : Z := 201.

(** ** The code *)

(** The offset itself, or [None] for a null pointer. *)
Definition RTCPGetCommonHeader (d : list Z) (r : Z) : option Z :=
  if decide (zlen d - r < 4) then None else Some r.

(** [RTCP_COMMON_HEADER_GET_LENGTH] and the other accessors. *)
Definition get_length (d : list Z) (h : Z) : res Z := a ← rd d (h + 2); b ← rd d (h + 3); Ok (GET_16 a b).
Definition get_packet_type (d : list Z) (h : Z) : res Z := rd d (h + 1).
Definition get_version (d : list Z) (h : Z) : res Z := b ← rd d h; Ok (Z.land (Z.shiftr b 6) 3).
Definition get_u32 (d : list Z) (p : Z) : res Z :=
  a ← rd d p; b ← rd d (p + 1); c ← rd d (p + 2); e ← rd d (p + 3); Ok (GET_32 a b c e).

Definition RTCPGetSize (d : list Z) (r : Z) : res Z :=
  match RTCPGetCommonHeader d r with
  | None => Ok (-1)
  | Some h => l ← get_length d h; Ok ((1 + l) * 4)
  end.

Definition RTCPNextPacket (d : list Z) (r : Z) : res (option Z) :=
  n ← RTCPGetSize d r;
  Ok (if decide (0 ≤ n) then if decide (r + n < zlen d) then Some (r + n) else None else None).

(** [sizeof(S_RTCP_RR)] is 32. *)
Definition RTCPisRR (d : list Z) (r : Z) : res bool :=
  match RTCPGetCommonHeader d r with
  | None => Ok false
  | Some h =>
      t ← get_packet_type d h;
      Ok (if decide (t = eRTCP_RR) then negb (bool_decide (zlen d - r < 32)) else false)
  end.

(** The offset of the block. *)
Definition RTCP_RR_GetReportBlock (d : list Z) (r idx : Z) : res (option Z) :=
  let rb := r + 8 + 24 * idx in
  n ← RTCPGetSize d r;
  Ok (if decide (rb + 24 ≤ r + n) then Some rb else None).

Definition ComputeRTT (rtt ntp : Z) (d : list Z) (rb : Z) : res Z :=
  last_sr ← get_u32 d (rb + 16);
  delay ← get_u32 d (rb + 20);
  Ok (if decide (last_sr ≠ 0 ∧ delay ≠ 0) then
        let frac := u32 (u32 (ntp - last_sr) - delay) in
        if decide (0 ≤ frac) then frac else rtt
      else rtt).

(** One round of the loop. *)
Definition proc_one (rtt ntp : Z) (d : list Z) (r : Z) : res Z :=
  rr ← RTCPisRR d r;
  if (rr : bool) then
    b ← RTCP_RR_GetReportBlock d r 0;
    match b with Some rb => ComputeRTT rtt ntp d rb | None => Ok rtt end
  else Ok rtt.

(** [ntp k] is the clock in round [k]. *)
Fixpoint proc_loop (fuel : nat) (k : nat) (rtt : Z) (ntp : nat → Z) (d : list Z) (r : Z) : res Z :=
  match fuel with
  | O => Fault OutOfFuel
  | S fuel =>
      rtt ← proc_one rtt (ntp k) d r;
      nx ← RTCPNextPacket d r;
      match nx with Some r => proc_loop fuel (S k) rtt ntp d r | None => Ok rtt end
  end.

(** The round-trip time of the endpoint after the packet; the code returns 0. *)
Definition ProcRTCPPacket (rtt : Z) (ntp : nat → Z) (d : list Z) : res Z :=
  if decide (zlen d < 4) then Ok rtt else
  v ← get_version d 0;
  if decide (v ≠ 2) then Ok rtt else proc_loop (length d) 0 rtt ntp d 0.

(** ** The walk stays inside and ends *)

Lemma get_u32_ok d p : 0 ≤ p → p + 4 ≤ zlen d → ∃ x, get_u32 d p = Ok x.
Proof.
  intros Hp Hl. unfold get_u32. destruct (rd_ok d p) as (a & -> & _); [lia|]. destruct (rd_ok d (p + 1)) as (b & -> & _); [lia|].
  destruct (rd_ok d (p + 2)) as (c & -> & _); [lia|]. destruct (rd_ok d (p + 3)) as (e & -> & _); [lia|]. by eexists.
Qed.

Lemma size_ok d r :
  Forall is_byte d → 0 ≤ r → ∃ n, RTCPGetSize d r = Ok n ∧ (n = -1 ∧ zlen d - r < 4 ∨ 4 ≤ n ∧ 4 ≤ zlen d - r).
Proof.
  intros Hb Hr. unfold RTCPGetSize, RTCPGetCommonHeader. case_decide; [exists (-1); split; [done|lia]|]. unfold get_length.
  destruct (rd_ok d (r + 2)) as (a & -> & La); [lia|]. destruct (rd_ok d (r + 3)) as (b & -> & Lb); [lia|]. do 3 rewrite res_bind_ok.
  eexists. split; [reflexivity|]. right. split; [|lia]. pose proof (Forall_lookup_1 _ _ _ _ Hb La) as Ha. pose proof (Forall_lookup_1 _ _ _ _ Hb Lb) as Hb'.
  rewrite GET_16_eq by done. unfold is_byte in *. lia.
Qed.

Lemma proc_one_ok d r rtt ntp : Forall is_byte d → 0 ≤ r < zlen d → ∃ x, proc_one rtt ntp d r = Ok x.
Proof.
  intros Hb Hr. unfold proc_one, RTCPisRR. destruct (size_ok d r Hb) as (n & En & Hn); [lia|].
  unfold RTCP_RR_GetReportBlock. rewrite En. unfold RTCPGetCommonHeader. case_decide; [by exists rtt|]. unfold get_packet_type.
  destruct (rd_ok d (r + 1)) as (t & -> & _); [lia|]. rewrite ?res_bind_ok. destruct (decide (t = eRTCP_RR)); [|by exists rtt].
  destruct (bool_decide (zlen d - r < 32)) eqn:E32; [by exists rtt|]. apply bool_decide_eq_false in E32. cbn [negb]. rewrite ?res_bind_ok.
  case_decide; [|by exists rtt]. unfold ComputeRTT. destruct (get_u32_ok d (r + 8 + 24 * 0 + 16)) as (x & ->); [lia|lia|].
  destruct (get_u32_ok d (r + 8 + 24 * 0 + 20)) as (z & ->); [lia|lia|]. rewrite ?res_bind_ok. by eexists.
Qed.

Lemma proc_loop_ok d fuel k rtt ntp r :
  Forall is_byte d → 0 ≤ r < zlen d → zlen d - r ≤ Z.of_nat fuel → ∃ x, proc_loop fuel k rtt ntp d r = Ok x.
Proof.
  intros Hb. revert k rtt r. induction fuel as [|fuel IH]; intros k rtt r Hr Hf; [lia|]. cbn [proc_loop].
  destruct (proc_one_ok d r rtt (ntp k) Hb Hr) as (x & ->). rewrite res_bind_ok. unfold RTCPNextPacket.
  destruct (size_ok d r Hb) as (n & -> & Hn); [lia|]. do 2 rewrite res_bind_ok. case_decide; [|by eexists]. case_decide; [|by eexists].
  apply IH; lia.
Qed.

(** ** Compound packets of RFC 3550 *)

(** A packet: five bits of count, its type, the words behind its header. *)
Record rtcp := mkRtcp { p_count : Z; p_type : Z; p_body : list Z }.

Definition rtcp_ok (p : rtcp) : Prop :=
  0 ≤ p_count p < 32 ∧ is_byte (p_type p) ∧ Forall is_byte (p_body p) ∧
  zlen (p_body p) `mod` 4 = 0 ∧ zlen (p_body p) < 4 * 65536.

Definition rtcp_bytes (p : rtcp) : list Z :=
  [128 + p_count p; p_type p] ++ PUT_16 (zlen (p_body p) `div` 4) ++ p_body p.

(** What a receiver report says about the round-trip time: its first block. *)
Definition word (l : list Z) (i : nat) : Z :=
  match take 4 (drop i l) with [a; b; c; e] => a * 16777216 + b * 65536 + c * 256 + e | _ => 0 end.

Definition report (rtt ntp : Z) (p : rtcp) : Z :=
  if decide (p_type p = eRTCP_RR ∧ 28 ≤ zlen (p_body p)) then
    let last_sr := word (p_body p) 20 in
    let delay := word (p_body p) 24 in
    if decide (last_sr ≠ 0 ∧ delay ≠ 0) then u32 (ntp - last_sr - delay) else rtt
  else rtt.

Fixpoint reports (k : nat) (rtt : Z) (ntp : nat → Z) (l : list rtcp) : Z :=
  match l with
  | [] => rtt
  | p :: l => reports (S k) (report rtt (ntp k) p) ntp l
  end.

Lemma get_u32_word d p body rest i :
  at_off d p (body ++ rest) → Forall is_byte body → (i + 4 <= length body)%nat → get_u32 d (p + Z.of_nat i) = Ok (word body i).
Proof.
  intros Ho Hb Hi. rewrite <- (take_drop i body), <- app_assoc in Ho. apply at_off_app in Ho.
  assert (zlen (take i body) = Z.of_nat i) as E by (unfold zlen; rewrite length_take; lia). rewrite E in Ho. unfold word.
  pose proof (Forall_drop _ i _ Hb) as Hd. assert (4 <= length (drop i body))%nat as Hl by (rewrite length_drop; lia).
  destruct (drop i body) as [|a [|b [|c [|e l]]]]; simpl in Hl; try lia. rewrite !Forall_cons in Hd. destruct Hd as (Ha & Hb1 & Hc & He & _).
  unfold get_u32. rewrite (at_off_rd0 _ _ _ Ho), (at_off_rd _ _ _ 1 Ho), (at_off_rd _ _ _ 2 Ho), (at_off_rd _ _ _ 3 Ho) by lia.
  unfold rd. simpl. by rewrite GET_32_eq.
Qed.

Section Packet.
Context (d : list Z) (r : Z) (p : rtcp) (rest : list Z).
Hypothesis Hp : rtcp_ok p.
Hypothesis Ho : at_off d r (rtcp_bytes p ++ rest).

Lemma packet_length : zlen (rtcp_bytes p) = 4 + zlen (p_body p).
Proof. unfold rtcp_bytes, PUT_16. rewrite !zlen_app. unfold zlen. simpl. lia. Qed.

Lemma packet_room : 4 + zlen (p_body p) + zlen rest = zlen d - r.
Proof. pose proof (at_off_len _ _ _ Ho) as H. rewrite zlen_app, packet_length in H. lia. Qed.

Lemma packet_header : RTCPGetCommonHeader d r = Some r.
Proof.
  pose proof packet_room. pose proof (zlen_nonneg (p_body p)). pose proof (zlen_nonneg rest). unfold RTCPGetCommonHeader. by rewrite decide_False by lia.
Qed.

Lemma packet_size : RTCPGetSize d r = Ok (4 + zlen (p_body p)).
Proof.
  unfold RTCPGetSize. rewrite packet_header. unfold get_length. rewrite (at_off_rd _ _ _ 2 Ho), (at_off_rd _ _ _ 3 Ho) by lia.
  destruct Hp as (_ & _ & _ & Hm & Hl). pose proof (zlen_nonneg (p_body p)). set (v := zlen (p_body p) `div` 4) in *.
  assert (rd (rtcp_bytes p ++ rest) 2 = Ok ((v `div` 256) `mod` 256) ∧ rd (rtcp_bytes p ++ rest) 3 = Ok (v `mod` 256)) as [-> ->]
    by (unfold rtcp_bytes; rewrite PUT_16_eq; fold v; by split).
  do 2 rewrite res_bind_ok. rewrite GET_16_eq by (apply u8_range). rewrite res_bind_ok. f_equal.
  assert (zlen (p_body p) = 4 * v) by (unfold v; zdm). assert (0 ≤ v < 65536) by (unfold v; zdm). zdm.
Qed.

Lemma packet_one rtt ntp : proc_one rtt ntp d r = Ok (report rtt ntp p).
Proof.
  pose proof packet_room as HR. pose proof (zlen_nonneg rest). unfold proc_one, RTCPisRR, RTCP_RR_GetReportBlock.
  rewrite packet_header, packet_size. unfold get_packet_type. rewrite (at_off_rd _ _ _ 1 Ho) by lia.
  change (rd (rtcp_bytes p ++ rest) 1) with (Ok (p_type p)). rewrite !res_bind_ok. unfold report.
  destruct (decide (p_type p = eRTCP_RR)) as [Et|Et]; [|by rewrite decide_False by tauto].
  destruct (decide (28 ≤ zlen (p_body p))) as [E28|E28].
  - rewrite bool_decide_eq_false_2 by lia. cbn [negb]. rewrite decide_True by lia. rewrite (decide_True (P := p_type p = eRTCP_RR ∧ _)) by done.
    destruct Hp as (_ & _ & Hb & _). unfold rtcp_bytes in Ho. rewrite app_assoc, <- app_assoc in Ho. apply at_off_app in Ho.
    assert (zlen ([128 + p_count p; p_type p] ++ PUT_16 (zlen (p_body p) `div` 4)) = 4) as E4 by done. rewrite E4 in Ho. unfold ComputeRTT.
    replace (r + 8 + 24 * 0 + 16) with (r + 4 + Z.of_nat 20) by lia. replace (r + 8 + 24 * 0 + 20) with (r + 4 + Z.of_nat 24) by lia.
    rewrite (get_u32_word _ _ _ _ 20 Ho Hb), (get_u32_word _ _ _ _ 24 Ho Hb) by (unfold zlen in E28; lia). do 2 rewrite res_bind_ok. f_equal.
    destruct (decide (word (p_body p) 20 ≠ 0 ∧ word (p_body p) 24 ≠ 0)); [|done].
    pose proof (u32_range (u32 (ntp - word (p_body p) 20) - word (p_body p) 24)). rewrite decide_True by lia.
    unfold Z.sub at 1 2. rewrite u32_add_l. f_equal. 
  - rewrite (decide_False (P := p_type p = eRTCP_RR ∧ _)) by tauto. destruct (bool_decide _); cbn [negb]; [done|]. by rewrite decide_False by lia.
Qed.
End Packet.

Lemma compound_loop l d fuel k rtt ntp r :
  l ≠ [] → Forall rtcp_ok l → at_off d r (concat (rtcp_bytes <$> l)) → (length l <= fuel)%nat →
  proc_loop fuel k rtt ntp d r = Ok (reports k rtt ntp l).
Proof.
  revert fuel k rtt r. induction l as [|p l IH]; intros fuel k rtt r Hne HF Ho Hf; [done|]. apply Forall_cons in HF as [Hp HF].
  destruct fuel as [|fuel]; [simpl in Hf; lia|]. cbn [proc_loop fmap list_fmap concat reports] in *.
  rewrite (packet_one d r p _ Hp Ho), res_bind_ok. unfold RTCPNextPacket. rewrite (packet_size d r p _ Hp Ho). do 2 rewrite res_bind_ok.
  pose proof (packet_room d r p _ Ho) as HR. pose proof (zlen_nonneg (p_body p)). rewrite decide_True by lia. destruct l as [|p' l].
  - change (zlen (concat (rtcp_bytes <$> []))) with 0 in HR. by rewrite decide_False by lia.
  - apply Forall_cons in HF as [Hp' HF]. assert (4 ≤ zlen (concat (rtcp_bytes <$> p' :: l))).
    { cbn [fmap list_fmap concat]. rewrite zlen_app, packet_length by done. pose proof (zlen_nonneg (p_body p')). pose proof (zlen_nonneg (concat (rtcp_bytes <$> l))). lia. }
    rewrite decide_True by lia. apply IH; [done|by constructor| |simpl in *; lia].
    apply at_off_app in Ho. by rewrite packet_length in Ho.
Qed.

(** ** Theorems *)

Lemma ProcRTCPPacket_total rtt ntp d : Forall is_byte d → ∃ x, ProcRTCPPacket rtt ntp d = Ok x.
Proof.
  intros Hb. unfold ProcRTCPPacket. case_decide; [by eexists|]. unfold get_version. destruct (rd_ok d 0) as (b & -> & _); [lia|].
  do 2 rewrite res_bind_ok. case_decide; [by eexists|]. apply proc_loop_ok; [done|lia|unfold zlen; lia].
Qed.

(** C27. Whatever bytes a client sends, [ProcRTCPPacket] ends, after at most as
    many rounds as there are bytes, and never reads outside them: the length a
    packet claims may be wrong. For a compound packet in the form of RFC 3550 it
    visits every packet and takes the first block of each receiver report. *)
Theorem rtcp_walk rtt ntp :
  (∀ d, Forall is_byte d → ∃ x, ProcRTCPPacket rtt ntp d = Ok x) ∧
  (∀ l, l ≠ [] → Forall rtcp_ok l → ProcRTCPPacket rtt ntp (concat (rtcp_bytes <$> l)) = Ok (reports 0 rtt ntp l)).
Proof.
  split.
  - intros d. apply ProcRTCPPacket_total.
  - intros l Hne HF. set (d := concat (rtcp_bytes <$> l)). unfold ProcRTCPPacket.
    assert (length l <= length d)%nat as Hlen.
    { unfold d. clear Hne d. induction HF as [|p l Hp _ IH]; [done|]. cbn [fmap list_fmap concat length]. rewrite length_app.
      pose proof (packet_length p). pose proof (zlen_nonneg (p_body p)). unfold zlen in *. lia. }
    destruct l as [|p l]; [done|]. apply Forall_cons in HF as [Hp HF].
    assert (at_off d 0 (rtcp_bytes p ++ concat (rtcp_bytes <$> l))) as Ho by apply at_off_start.
    pose proof (packet_room d 0 p _ Ho). pose proof (zlen_nonneg (p_body p)). pose proof (zlen_nonneg (concat (rtcp_bytes <$> l))).
    rewrite decide_False by lia. unfold get_version. change (rd d 0) with (Ok (128 + p_count p)). do 2 rewrite res_bind_ok.
    rewrite decide_False.
    + apply compound_loop; [done|by constructor|apply at_off_start|done].
    + destruct Hp as (Hc & _). intros N. apply N. rewrite shiftr_div by lia. change 3 with (Z.ones 2). rewrite Z.land_ones by lia. zdm.
Qed.

(** The code means to ignore a negative round-trip time, but the difference
    is unsigned: a report whose delay is longer than the time since its sender
    report, as after a step of the clock, is taken, and its round-trip time is
    the true difference and 65536 seconds. *)
Lemma negative_rtt_taken rtt ntp d rb last_sr delay :
  get_u32 d (rb + 16) = Ok last_sr → get_u32 d (rb + 20) = Ok delay → last_sr ≠ 0 → delay ≠ 0 →
  - 4294967296 ≤ ntp - last_sr - delay < 0 →
  ComputeRTT rtt ntp d rb = Ok (ntp - last_sr - delay + 65536 * 65536).
Proof.
  intros H1 H2 N1 N2 Hd. unfold ComputeRTT. rewrite H1, res_bind_ok, H2, res_bind_ok. rewrite decide_True by done.
  pose proof (u32_range (u32 (ntp - last_sr) - delay)). rewrite decide_True by lia. f_equal.
  unfold u32. rewrite Zminus_mod_idemp_l. symmetry. apply (Z.mod_unique_pos _ _ (-1)); lia.
Qed.

(** A receiver report after an empty one; the clock is 2 s after the sender
    report, the delay 0.5 s. *)
Definition demo_block : list Z := replicate 20 0 ++ [0; 10; 0; 0] ++ [0; 0; 128; 0].

Lemma rtcp_walk_witness :
  ProcRTCPPacket 0 (λ _, 786432) (concat (rtcp_bytes <$> [mkRtcp 0 201 [0; 0; 0; 1]; mkRtcp 1 201 demo_block])) = Ok 98304.
Proof.
  destruct (rtcp_walk 0 (λ _, 786432)) as [_ H]. rewrite H.
  - vm_compute. reflexivity.
  - discriminate.
  - repeat constructor; try (vm_compute; congruence); vm_compute; repeat constructor; congruence.
Defined.

Lemma negative_rtt_taken_witness : ComputeRTT 0 655400 (drop 4 demo_block) 0 = Ok (655400 - 655360 - 32768 + 65536 * 65536).
Proof. apply (negative_rtt_taken 0 655400 (drop 4 demo_block) 0 655360 32768); try reflexivity; lia. Defined.

(** ** What comes from a client (rtp.c) *)

(** A read of an endpoint's socket: the client was heard, with the round-trip
    time known then, or the endpoint is torn down. *)
Inductive heard (T : Type) := Heard (ep : rtp_endpoint T) (rtt : Z) | TornDown.
Arguments Heard {T} ep rtt.
Arguments TornDown {T}.

Section Sockets.
Context {T : Type}.
Implicit Types (ep : rtp_endpoint T) (now : timeval).

(** [ret] is what read returns. *)
Definition udp_rtp_read ep (rtt ret : Z) now : heard T :=
  if decide (ret > 0) then Heard (note_rtcp_recv ep now) rtt else TornDown.

Definition interleave_recv_rtcp ep (rtt : Z) now (ntp : nat → Z) (d : list Z) : res (heard T) :=
  rtt ← ProcRTCPPacket rtt ntp d;
  Ok (Heard (note_rtcp_recv ep now) rtt).

(** [d] are the bytes read, [None] for an error. *)
Definition udp_rtcp_read ep (rtt : Z) now (ntp : nat → Z) (d : option (list Z)) : res (heard T) :=
  match d with
  | None | Some [] => Ok TornDown
  | Some d => interleave_recv_rtcp ep rtt now ntp d
  end.

(** Whatever a client sends, the endpoint is kept and marked as heard, and
    nothing else of it changes; it is torn down only when the socket fails or is
    closed. *)
Lemma client_heard ep rtt now ntp d :
  Forall is_byte d → d ≠ [] →
  ∃ rtt', udp_rtcp_read ep rtt now ntp (Some d) = Ok (Heard (note_rtcp_recv ep now) rtt') ∧
    interleave_recv_rtcp ep rtt now ntp d = Ok (Heard (note_rtcp_recv ep now) rtt').
Proof.
  intros Hb Hne. destruct (ProcRTCPPacket_total rtt ntp d Hb) as (x & Hx).
  exists x. unfold udp_rtcp_read, interleave_recv_rtcp. rewrite Hx. by destruct d.
Qed.
End Sockets.
