(* ===== verification/Event.v ===== *)
(** * The event loop (event.c)

    Timers, file descriptors and "always" events live in three lists that the
    loop walks once per iteration, around one call of select. Callbacks run in
    the middle of these walks and change the lists and the events' flags: they
    add events, remove, reschedule and enable them, and end the loop. The models
    keep this sharing: an event is a number into the store of all events, lists
    are lists of numbers, and a callback is a list of operations on the state in
    which it is called. Events are never freed (strip_events only unlinks them),
    so the store only grows and a stale number is still a valid pointer.

    The flags are the bits of the C field. The clock, the answers of select and
    the callbacks are parameters. [log] records the calls and operations of a
    run, newest first; it is what the theorems about order speak of. *)

From stdpp Require Import prelude relations.
From S2P Require Import Prelude.

Definition EVENT_TIME : Z := 1.
Definition EVENT_FD : Z := 2.
Definition EVENT_ALWAYS : Z := 3.

Definition EVENT_F_ENABLED : Z := 1.
Definition EVENT_F_REMOVE : Z := 2.
Definition EVENT_F_ONESHOT : Z := 4.
Definition EVENT_F_RUNNING : Z := 8.

(** FD_SETSIZE of the C library: FD_SET beyond it writes outside the set. *)
Definition FD_SETSIZE : Z := 1024.

(** The union [ev] of struct event. *)
Inductive ev_union :=
| EvNone
| EvTime (fire : timeval) (ival : Z)
| EvFd (fd : Z) (write : bool).

Record event := mkEvent { func : Z; data : Z; etype : Z; flags : Z; ev : ev_union }.

(** The calls a callback can make. *)
Inductive op :=
| OpTimer (msec fl f d : Z)
| OpAlarm (junk : Z) (t : option timeval) (fl f d : Z)
| OpFd (fd : Z) (write : bool) (fl f d : Z)
| OpAlways (fl f d : Z)
| OpResched (e : nat) (tr : option timeval)
| OpRemove (e : nat)
| OpInterval (e : nat) (msec : Z)
| OpEnabled (e : nat) (enabled : bool)
| OpExit.

Inductive entry := Called (e : nat) | Did (o : op).

Record loop := mkLoop {
  events : list event;
  time_event_list : list nat;
  fd_event_list : list nat;
  always_event_list : list nat;
  end_loop : bool;
  clock_reads : nat;
  log : list entry
}.

Definition with_events (l : list event) (st : loop) : loop :=
  mkLoop l (time_event_list st) (fd_event_list st) (always_event_list st) (end_loop st)
    (clock_reads st) (log st).
Definition with_lists (t f a : list nat) (st : loop) : loop :=
  mkLoop (events st) t f a (end_loop st) (clock_reads st) (log st).
Definition with_end_loop (b : bool) (st : loop) : loop :=
  mkLoop (events st) (time_event_list st) (fd_event_list st) (always_event_list st) b
    (clock_reads st) (log st).
Definition with_log (en : entry) (st : loop) : loop :=
  mkLoop (events st) (time_event_list st) (fd_event_list st) (always_event_list st) (end_loop st)
    (clock_reads st) (en :: log st).
Definition clock_tick (st : loop) : loop :=
  mkLoop (events st) (time_event_list st) (fd_event_list st) (always_event_list st) (end_loop st)
    (S (clock_reads st)) (log st).

Definition with_flags (fl : Z) (x : event) : event :=
  mkEvent (func x) (data x) (etype x) fl (ev x).
Definition with_ev (v : ev_union) (x : event) : event :=
  mkEvent (func x) (data x) (etype x) (flags x) v.

(** [flags & bit], [flags |= bit] and [flags &= ~bit]. *)
Definition has (x : event) (bit : Z) : bool := negb (Z.land (flags x) bit =? 0).
Definition set_bit (bit : Z) (x : event) : event := with_flags (Z.lor (flags x) bit) x.
Definition clear_bit (bit : Z) (x : event) : event :=
  with_flags (Z.land (flags x) (Z.lnot bit)) x.

Definition get_event (st : loop) (e : nat) : res event :=
  match events st !! e with Some x => Ok x | None => Fault NullDeref end.
Definition put_event (e : nat) (x : event) (st : loop) : loop :=
  with_events (<[e := x]> (events st)) st.

(** A flag of an event of the store. *)
Definition flag (st : loop) (e : nat) (bit : Z) : bool :=
  match events st !! e with Some x => has x bit | None => false end.

(** ** Times

    [long] has 32 bits on the camera's processor. *)
Definition time_diff (tr_start tr_end : timeval) : Z :=
  s32 ((tv_sec tr_end - tv_sec tr_start) * 1000000
       + tv_usec tr_end - tv_usec tr_start + 500) `quot` 1000.

Definition time_add (tr : timeval) (msec : Z) : timeval :=
  let sec := s32 (tv_sec tr + msec `quot` 1000) in
  let usec := tv_usec tr + (msec `rem` 1000) * 1000 in
  if decide (1000000 ≤ usec) then mkTime (s32 (sec + 1)) (usec - 1000000) else mkTime sec usec.

(** What select is told to wait for. *)
Record fd_sets := mkSets { rfds : list Z; wfds : list Z; highfd : Z }.

(** What select answers: its result and the descriptors that are ready. *)
Record answer := mkAnswer { ret : Z; ready_r : Z → bool; ready_w : Z → bool }.

Section Loop.
Context (clock : nat → timeval) (action : Z → Z → loop → list op).

Definition time_now (st : loop) : timeval * loop := (clock (clock_reads st), clock_tick st).

Definition time_ago (tr : timeval) (st : loop) : Z * loop :=
  let '(now, st) := time_now st in (time_diff tr now, st).

Definition time_future (msec : Z) (st : loop) : timeval * loop :=
  let '(now, st) := time_now st in (time_add now msec, st).

(** ** Events *)

Definition new_event (x : event) (st : loop) : nat * loop :=
  (length (events st), with_events (events st ++ [x]) st).

(** On an event that is not a timer the code would overwrite the union's other
    member; that is a fault here. *)
Definition resched_event (e : nat) (tr : option timeval) (st : loop) : res loop :=
  x ← get_event st e;
  match ev x with
  | EvTime fire ival =>
      let '(fire', st') :=
        match tr with
        | Some t => (t, st)
        | None => if has x EVENT_F_ENABLED then (time_add fire ival, st) else time_future ival st
        end in
      Ok (put_event e (set_bit EVENT_F_ENABLED (clear_bit EVENT_F_REMOVE (with_ev (EvTime fire' ival) x))) st')
  | _ => Fault OutOfBounds
  end.

Definition add_timer_event (msec fl f d : Z) (st : loop) : res (nat * loop) :=
  let '(now, st) := time_now st in
  let '(e, st) := new_event (mkEvent f d EVENT_TIME fl (EvTime now msec)) st in
  let st := with_lists (e :: time_event_list st) (fd_event_list st) (always_event_list st) st in
  st ← resched_event e None st;
  Ok (e, st).

(** The interval of an alarm is not set: [junk] is what malloc left in it. *)
Definition add_alarm_event (junk : Z) (t : option timeval) (fl f d : Z) (st : loop) : res (nat * loop) :=
  let '(e, st) := new_event (mkEvent f d EVENT_TIME (Z.lor fl EVENT_F_ONESHOT) (EvTime (mkTime 0 0) junk)) st in
  let st := with_lists (e :: time_event_list st) (fd_event_list st) (always_event_list st) st in
  st ← resched_event e t st;
  Ok (e, st).

Definition add_fd_event (fd : Z) (write : bool) (fl f d : Z) (st : loop) : nat * loop :=
  let '(e, st) := new_event (mkEvent f d EVENT_FD (Z.lor fl EVENT_F_ENABLED) (EvFd fd write)) st in
  (e, with_lists (time_event_list st) (e :: fd_event_list st) (always_event_list st) st).

Definition add_always_event (fl f d : Z) (st : loop) : nat * loop :=
  let '(e, st) := new_event (mkEvent f d EVENT_ALWAYS (Z.lor fl EVENT_F_ENABLED) EvNone) st in
  (e, with_lists (time_event_list st) (fd_event_list st) (e :: always_event_list st) st).

Definition remove_event (e : nat) (st : loop) : res loop :=
  x ← get_event st e;
  Ok (put_event e (clear_bit (Z.lor EVENT_F_RUNNING EVENT_F_ENABLED) (set_bit EVENT_F_REMOVE x)) st).

Definition set_event_interval (e : nat) (msec : Z) (st : loop) : res loop :=
  x ← get_event st e;
  match ev x with
  | EvTime fire _ =>
      let st := put_event e (with_ev (EvTime fire msec) x) st in
      if has x EVENT_F_ENABLED then resched_event e None st else Ok st
  | _ => Fault OutOfBounds
  end.

Definition set_event_enabled (e : nat) (enabled : bool) (st : loop) : res loop :=
  x ← get_event st e;
  let x := clear_bit EVENT_F_ENABLED x in
  Ok (put_event e (if enabled then set_bit EVENT_F_ENABLED x else x) st).

Definition get_event_enabled (e : nat) (st : loop) : res Z :=
  x ← get_event st e;
  Ok (if has x EVENT_F_ENABLED then 1 else 0).

Definition exit_event_loop (st : loop) : loop := with_end_loop true st.

(** One operation of a callback. *)
Definition run_op (o : op) (st : loop) : res loop :=
  let st := with_log (Did o) st in
  match o with
  | OpTimer msec fl f d => snd <$> add_timer_event msec fl f d st
  | OpAlarm junk t fl f d => snd <$> add_alarm_event junk t fl f d st
  | OpFd fd w fl f d => Ok (add_fd_event fd w fl f d st).2
  | OpAlways fl f d => Ok (add_always_event fl f d st).2
  | OpResched e tr => resched_event e tr st
  | OpRemove e => remove_event e st
  | OpInterval e msec => set_event_interval e msec st
  | OpEnabled e b => set_event_enabled e b st
  | OpExit => Ok (exit_event_loop st)
  end.

Fixpoint run_ops (os : list op) (st : loop) : res loop :=
  match os with
  | [] => Ok st
  | o :: os' => st ← run_op o st; run_ops os' st
  end.

(** [( *e->func)(&ei, e->data)]. *)
Definition call (e : nat) (x : event) (st : loop) : res loop :=
  let st := with_log (Called e) st in
  run_ops (action (func x) (data x) st) st.

(** ** One iteration of the loop *)

(** The timers: the time until the first of them, [None] for no timer. *)
Fixpoint prep_time (l : list nat) (st : loop) (timeout : option Z) : res (loop * option Z) :=
  match l with
  | [] => Ok (st, timeout)
  | e :: l' =>
      x ← get_event st e;
      if has x EVENT_F_ENABLED then
        match ev x with
        | EvTime fire _ =>
            let '(ago, st) := time_ago fire st in
            let diff := if decide (- ago < 5) then 0 else - ago in
            let timeout := match timeout with
                           | None => diff
                           | Some n => if decide (diff < n) then diff else n
                           end in
            prep_time l' (put_event e (set_bit EVENT_F_RUNNING x) st) (Some timeout)
        | _ => Fault OutOfBounds
        end
      else prep_time l' (put_event e (clear_bit EVENT_F_RUNNING x) st) timeout
  end.

Fixpoint prep_always (l : list nat) (st : loop) (timeout : option Z) : res (loop * option Z) :=
  match l with
  | [] => Ok (st, timeout)
  | e :: l' =>
      x ← get_event st e;
      if has x EVENT_F_ENABLED then prep_always l' (put_event e (set_bit EVENT_F_RUNNING x) st) (Some 0)
      else prep_always l' (put_event e (clear_bit EVENT_F_RUNNING x) st) timeout
  end.

Definition FD_SET (fd : Z) (s : list Z) : res (list Z) :=
  if decide (0 ≤ fd < FD_SETSIZE) then Ok (fd :: s) else Fault OutOfBounds.

Fixpoint prep_fd (l : list nat) (st : loop) (s : fd_sets) : res (loop * fd_sets) :=
  match l with
  | [] => Ok (st, s)
  | e :: l' =>
      x ← get_event st e;
      if has x EVENT_F_ENABLED then
        match ev x with
        | EvFd fd w =>
            r ← FD_SET fd (if w then wfds s else rfds s);
            let high := if decide (highfd s < fd) then fd else highfd s in
            let s := if w then mkSets (rfds s) r high else mkSets r (wfds s) high in
            prep_fd l' (put_event e (set_bit EVENT_F_RUNNING x) st) s
        | _ => Fault OutOfBounds
        end
      else prep_fd l' (put_event e (clear_bit EVENT_F_RUNNING x) st) s
  end.

(** A walk over a list that calls what is still running; the list is that at
    the start of the walk, since callbacks only prepend to it. *)
Fixpoint pass (visit : nat → event → loop → res loop) (l : list nat) (st : loop) : res loop :=
  match l with
  | [] => Ok st
  | e :: l' =>
      x ← get_event st e;
      if negb (has x EVENT_F_RUNNING) then pass visit l' st
      else if end_loop st then Ok st
      else st ← visit e x st; pass visit l' st
  end.

Definition mark_oneshot (e : nat) (x : event) (st : loop) : loop :=
  if has x EVENT_F_ONESHOT then put_event e (set_bit EVENT_F_REMOVE x) st else st.

Definition visit_time (e : nat) (x : event) (st : loop) : res loop :=
  match ev x with
  | EvTime fire _ =>
      let '(ago, st) := time_ago fire st in
      if decide (- ago < 5) then
        st ← (if has x EVENT_F_ONESHOT then Ok (mark_oneshot e x st) else resched_event e None st);
        call e x st
      else Ok st
  | _ => Fault OutOfBounds
  end.

Definition visit_always (e : nat) (x : event) (st : loop) : res loop :=
  call e x (mark_oneshot e x st).

(** select leaves in a set the descriptors of it that are ready. *)
Definition FD_ISSET (s : fd_sets) (a : answer) (fd : Z) (w : bool) : bool :=
  if w then bool_decide (fd ∈ wfds s) && ready_w a fd else bool_decide (fd ∈ rfds s) && ready_r a fd.

Definition visit_fd (s : fd_sets) (a : answer) (e : nat) (x : event) (st : loop) : res loop :=
  match ev x with
  | EvFd fd w => if FD_ISSET s a fd w then call e x (mark_oneshot e x st) else Ok st
  | _ => Fault OutOfBounds
  end.

(** strip_events on one list. *)
Definition strip_events (st : loop) (l : list nat) : list nat :=
  filter (λ e, flag st e EVENT_F_REMOVE = false) l.

(** Up to select: the state, its timeout and its sets. *)
Definition loop_prepare (st : loop) : res (loop * option Z * fd_sets) :=
  '(st, t) ← prep_time (time_event_list st) st None;
  '(st, t) ← prep_always (always_event_list st) st t;
  '(st, s) ← prep_fd (fd_event_list st) st (mkSets [] [] (-1));
  Ok (st, t, s).

(** From select on. *)
Definition loop_dispatch (s : fd_sets) (a : answer) (st : loop) : res loop :=
  st ← pass visit_time (time_event_list st) st;
  st ← pass visit_always (always_event_list st) st;
  st ← (if decide (0 < ret a) then pass (visit_fd s a) (fd_event_list st) st else Ok st);
  Ok (with_lists (strip_events st (time_event_list st)) (strip_events st (fd_event_list st))
        (strip_events st (always_event_list st)) st).

Definition loop_once (a : answer) (st : loop) : res loop :=
  '(st, t, s) ← loop_prepare st;
  loop_dispatch s a st.

(** The loop for as many iterations as there are answers of select: whether it
    has returned, and the state. *)
Fixpoint iterate (single : bool) (answers : list answer) (st : loop) : res (bool * loop) :=
  match answers with
  | [] => Ok (false, st)
  | a :: answers' =>
      st ← loop_once a st;
      if negb (end_loop st) && negb single then iterate single answers' st else Ok (true, st)
  end.

Definition event_loop (single : bool) (answers : list answer) (st : loop) : res (bool * loop) :=
  iterate single answers (with_end_loop false st).
End Loop.

(** ** Flags *)

Lemma has_set_bit b c x : has (set_bit b x) c = has x c || negb (Z.land b c =? 0).
Proof.
  unfold has, set_bit. cbn [flags with_flags]. rewrite Z.land_lor_distr_l.
  destruct (Z.eqb_spec (Z.land (flags x) c) 0) as [->|H1]; [done|].
  destruct (Z.eqb_spec (Z.lor (Z.land (flags x) c) (Z.land b c)) 0) as [E|]; [|done].
  by apply Z.lor_eq_0_iff in E as [? _].
Qed.

Lemma has_clear_bit_other b c x : Z.land b c = 0 → has (clear_bit b x) c = has x c.
Proof.
  intros H. unfold has, clear_bit. cbn [flags with_flags]. do 2 f_equal.
  rewrite <- Z.land_assoc. f_equal. rewrite Z.land_comm, <- Z.ldiff_land.
  apply Z.bits_inj'. intros n Hn. rewrite Z.ldiff_spec.
  assert (Z.testbit (Z.land b c) n = false) as Hb by by rewrite H, Z.bits_0.
  rewrite Z.land_spec in Hb. by destruct (Z.testbit b n), (Z.testbit c n).
Qed.

Lemma has_clear_bit_same b c x : Z.land b c = c → has (clear_bit b x) c = false.
Proof.
  intros H. unfold has, clear_bit. cbn [flags with_flags]. apply negb_false_iff, Z.eqb_eq.
  rewrite <- H, <- Z.land_assoc, (Z.land_assoc (Z.lnot b)), (Z.land_comm (Z.lnot b)), Z.land_lnot_diag.
  by rewrite Z.land_0_l, Z.land_0_r.
Qed.

Lemma has_with_ev v x c : has (with_ev v x) c = has x c.
Proof. reflexivity. Qed.

(** Evaluates a flag after a change of flags. *)
Ltac bits :=
  repeat first [ rewrite has_with_ev | rewrite has_set_bit | rewrite has_clear_bit_same by reflexivity
               | rewrite has_clear_bit_other by reflexivity ];
  cbn -[has]; rewrite ?orb_true_r, ?orb_false_r.

(** The flags select sees: an event runs in an iteration if it is enabled when
    the iteration starts. *)
Definition mark_running (x : event) : event :=
  if has x EVENT_F_ENABLED then set_bit EVENT_F_RUNNING x else clear_bit EVENT_F_RUNNING x.

Lemma mark_running_spec x :
  ev (mark_running x) = ev x ∧ has (mark_running x) EVENT_F_RUNNING = has x EVENT_F_ENABLED ∧
  has (mark_running x) EVENT_F_ENABLED = has x EVENT_F_ENABLED ∧
  has (mark_running x) EVENT_F_ONESHOT = has x EVENT_F_ONESHOT ∧
  has (mark_running x) EVENT_F_REMOVE = has x EVENT_F_REMOVE.
Proof. unfold mark_running. destruct (has x EVENT_F_ENABLED) eqn:E; split_and!; try done; bits; done. Qed.

(** ** Well-formed states and well-behaved callbacks *)

Definition is_time (v : ev_union) : Prop := match v with EvTime _ _ => True | _ => False end.
Definition is_fd (v : ev_union) : Prop :=
  match v with EvFd fd _ => 0 ≤ fd < FD_SETSIZE | _ => False end.
Definition is_none (v : ev_union) : Prop := v = EvNone.

(** The member of the union that is in use never changes. *)
Definition same_kind (v v' : ev_union) : Prop :=
  match v with EvTime _ _ => is_time v' | _ => v' = v end.

Definition of_kind (K : ev_union → Prop) (st : loop) (e : nat) : Prop :=
  ∃ x, events st !! e = Some x ∧ K (ev x).

Record wf (st : loop) : Prop := {
  wf_time : Forall (of_kind is_time st) (time_event_list st);
  wf_fd : Forall (of_kind is_fd st) (fd_event_list st);
  wf_always : Forall (of_kind is_none st) (always_event_list st);
  wf_time_nodup : NoDup (time_event_list st);
  wf_fd_nodup : NoDup (fd_event_list st);
  wf_always_nodup : NoDup (always_event_list st)
}.

Definition op_ok (o : op) (st : loop) : Prop :=
  match o with
  | OpTimer _ fl _ _ | OpAlarm _ _ fl _ _ | OpAlways fl _ _ => Z.land fl EVENT_F_RUNNING = 0
  | OpFd fd _ fl _ _ => Z.land fl EVENT_F_RUNNING = 0 ∧ 0 ≤ fd < FD_SETSIZE
  | OpResched e _ | OpInterval e _ => of_kind is_time st e
  | OpRemove e | OpEnabled e _ => of_kind (λ _, True) st e
  | OpExit => True
  end.

Definition target (o : op) : option nat :=
  match o with
  | OpResched e _ | OpInterval e _ | OpRemove e | OpEnabled e _ => Some e
  | _ => None
  end.

(** What an operation does to the event it names. *)
Definition changed (o : op) (x x' : event) : Prop :=
  same_kind (ev x) (ev x') ∧ has x' EVENT_F_ONESHOT = has x EVENT_F_ONESHOT ∧
  match o with
  | OpRemove _ => has x' EVENT_F_RUNNING = false ∧ has x' EVENT_F_ENABLED = false
  | OpEnabled _ b => has x' EVENT_F_RUNNING = has x EVENT_F_RUNNING ∧ has x' EVENT_F_ENABLED = b
  | OpInterval _ _ => has x' EVENT_F_RUNNING = has x EVENT_F_RUNNING ∧ has x' EVENT_F_ENABLED = has x EVENT_F_ENABLED
  | _ => has x' EVENT_F_RUNNING = has x EVENT_F_RUNNING
  end.

(** What an operation does to the state: it changes the event it names, or adds
    one event at the head of one list, or ends the loop. *)
Inductive effect (o : op) (st : loop) : loop → Prop :=
| EffUpdate e x x' k :
    target o = Some e → events st !! e = Some x → changed o x x' → (clock_reads st <= k)%nat →
    effect o st (mkLoop (<[e := x']> (events st)) (time_event_list st) (fd_event_list st)
                   (always_event_list st) (end_loop st) k (Did o :: log st))
| EffAdd y K t f a k :
    target o = None → o ≠ OpExit → has y EVENT_F_RUNNING = false → K (ev y) → (clock_reads st <= k)%nat →
    (K = is_time ∧ t = [length (events st)] ∧ f = [] ∧ a = [] ∨
     K = is_fd ∧ t = [] ∧ f = [length (events st)] ∧ a = [] ∨
     K = is_none ∧ t = [] ∧ f = [] ∧ a = [length (events st)]) →
    effect o st (mkLoop (events st ++ [y]) (t ++ time_event_list st) (f ++ fd_event_list st)
                   (a ++ always_event_list st) (end_loop st) k (Did o :: log st))
| EffExit :
    o = OpExit →
    effect o st (mkLoop (events st) (time_event_list st) (fd_event_list st)
                   (always_event_list st) true (clock_reads st) (Did o :: log st)).

Section Steps.
Set Default Proof Using "Type".
Context (clock : nat → timeval) (action : Z → Z → loop → list op).
Notation run_op := (run_op clock).
Notation run_ops := (run_ops clock).

Lemma resched_event_spec e tr st x fire ival :
  events st !! e = Some x → ev x = EvTime fire ival →
  ∃ fire' k, resched_event clock e tr st =
    Ok (mkLoop (<[e := set_bit EVENT_F_ENABLED (clear_bit EVENT_F_REMOVE (with_ev (EvTime fire' ival) x))]> (events st))
          (time_event_list st) (fd_event_list st) (always_event_list st) (end_loop st) k (log st)) ∧
    (clock_reads st <= k)%nat ∧
    (tr = None → has x EVENT_F_ENABLED = true → fire' = time_add fire ival).
Proof.
  intros Hx Hv. unfold resched_event, get_event. rewrite Hx, res_bind_ok, Hv.
  destruct tr as [t|].
  - eexists t, _. split_and!; [reflexivity|done|done].
  - destruct (has x EVENT_F_ENABLED).
    + eexists _, _. split_and!; [reflexivity|done|done].
    + eexists _, _. split_and!; [reflexivity|cbn; lia|done].
Qed.

Lemma fl_ok_has f d ty fl v :
  Z.land fl EVENT_F_RUNNING = 0 → has (mkEvent f d ty fl v) EVENT_F_RUNNING = false.
Proof. unfold has. cbn [flags]. by intros ->. Qed.

Lemma fl_ok_lor fl c :
  Z.land c EVENT_F_RUNNING = 0 → Z.land fl EVENT_F_RUNNING = 0 → Z.land (Z.lor fl c) EVENT_F_RUNNING = 0.
Proof. intros Hc Hf. by rewrite Z.land_lor_distr_l, Hc, Hf. Qed.

(** A new timer or alarm, whose first rescheduling is part of adding it. *)
Lemma add_time_spec o st0 y tr st fire ival k :
  target o = None → o ≠ OpExit → has y EVENT_F_RUNNING = false → ev y = EvTime fire ival →
  st0 = mkLoop (events st ++ [y]) (length (events st) :: time_event_list st) (fd_event_list st)
          (always_event_list st) (end_loop st) k (Did o :: log st) → (clock_reads st <= k)%nat →
  ∃ st', resched_event clock (length (events st)) tr st0 = Ok st' ∧ effect o st st'.
Proof.
  intros Ho Hne Hy Hv -> Hk.
  destruct (resched_event_spec (length (events st)) tr
    (mkLoop (events st ++ [y]) (length (events st) :: time_event_list st) (fd_event_list st)
          (always_event_list st) (end_loop st) k (Did o :: log st)) y fire ival) as (fire' & k' & E & Hk' & _);
    [by apply list_lookup_middle|done|].
  eexists. split; [exact E|]. cbn. rewrite insert_app_r_alt, Nat.sub_diag by done.
  apply (EffAdd o st _ is_time [length (events st)] [] []); [done|done| | | |].
  - bits. done.
  - done.
  - cbn in Hk'. lia.
  - left. done.
Qed.

(** What the four ways of adding an event, and those of changing one, do. *)
Lemma add_op_effect o st : target o = None → op_ok o st → ∃ st', run_op o st = Ok st' ∧ effect o st st'.
Proof.
  destruct o as [ms fl f d|j t fl f d|fd w fl f d|fl f d|e tr|e|e ms|e b|]; intros Ht Hok; try discriminate; cbn [op_ok] in Hok.
  - destruct (add_time_spec (OpTimer ms fl f d) _ (mkEvent f d EVENT_TIME fl (EvTime (clock (clock_reads st)) ms)) None st
      _ _ (S (clock_reads st)) eq_refl ltac:(done) (fl_ok_has _ _ _ _ _ Hok) eq_refl eq_refl ltac:(lia)) as (st' & E & H).
    exists st'. split; [|done]. transitivity (snd <$> (s ← Ok st'; Ok (length (events st), s))); [by rewrite <- E|done].
  - destruct (add_time_spec (OpAlarm j t fl f d) _
      (mkEvent f d EVENT_TIME (Z.lor fl EVENT_F_ONESHOT) (EvTime (mkTime 0 0) j)) t st
      _ _ (clock_reads st) eq_refl ltac:(done) (fl_ok_has _ _ _ _ _ (fl_ok_lor fl EVENT_F_ONESHOT eq_refl Hok)) eq_refl eq_refl ltac:(lia)) as (st' & E & H).
    exists st'. split; [|done]. transitivity (snd <$> (s ← Ok st'; Ok (length (events st), s))); [by rewrite <- E|done].
  - destruct Hok as [Hfl Hfd]. eexists. split; [reflexivity|].
    apply (EffAdd _ st (mkEvent f d EVENT_FD (Z.lor fl EVENT_F_ENABLED) (EvFd fd w)) is_fd [] [length (events st)] []); try done.
    + by apply fl_ok_has, fl_ok_lor.
    + right. left. done.
  - eexists. split; [reflexivity|].
    apply (EffAdd _ st (mkEvent f d EVENT_ALWAYS (Z.lor fl EVENT_F_ENABLED) EvNone) is_none [] [] [length (events st)]); try done.
    + by apply fl_ok_has, fl_ok_lor.
    + right. right. done.
  - eexists. split; [reflexivity|]. by apply EffExit.
Qed.

Lemma interval_op_effect e ms st :
  of_kind is_time st e → ∃ st', run_op (OpInterval e ms) st = Ok st' ∧ effect (OpInterval e ms) st st'.
Proof.
  intros (x & Hx & Hk). destruct (ev x) as [|fire ival|] eqn:Hv; [done| |done].
  cbn. unfold set_event_interval, get_event. cbn. rewrite Hx, res_bind_ok, Hv.
  destruct (has x EVENT_F_ENABLED) eqn:HE.
  - destruct (resched_event_spec e None (put_event e (with_ev (EvTime fire ms) x) (with_log (Did (OpInterval e ms)) st))
      (with_ev (EvTime fire ms) x) fire ms) as (fire' & k & E & Hk' & _); [|done|].
    { cbn. apply list_lookup_insert_eq. by apply lookup_lt_Some in Hx. }
    eexists. split; [exact E|]. cbn. rewrite list_insert_insert_eq.
    apply (EffUpdate (OpInterval e ms) st e x); [done..| |done]. split_and!; [by rewrite Hv|by bits..|by bits; rewrite HE].
  - eexists. split; [reflexivity|]. apply (EffUpdate (OpInterval e ms) st e x); [done..| |done].
    split_and!; [by rewrite Hv|done..].
Qed.

Lemma run_op_effect o st : op_ok o st → ∃ st', run_op o st = Ok st' ∧ effect o st st'.
Proof.
  destruct (target o) eqn:Ht; [|by apply add_op_effect].
  destruct o as [| | | |e tr|e|e ms|e b|]; try discriminate; intros Hok; cbn [op_ok] in Hok.
  - destruct Hok as (x & Hx & Hk). destruct (ev x) as [|fire ival|] eqn:Hv; [done| |done].
    destruct (resched_event_spec e tr (with_log (Did (OpResched e tr)) st) x fire ival Hx Hv) as (fire' & k & E & Hk' & _).
    eexists. split; [exact E|]. apply (EffUpdate (OpResched e tr) st e x); [done..| |done].
    split_and!; [by rewrite Hv|by bits..].
  - destruct Hok as (x & Hx & _). eexists. split.
    { cbn. unfold remove_event, get_event. cbn. rewrite Hx. reflexivity. }
    apply (EffUpdate (OpRemove e) st e x); [done..| |done].
    split_and!; [by destruct x as [???? []]|by bits..].
  - by apply interval_op_effect.
  - destruct Hok as (x & Hx & _). eexists. split.
    { cbn. unfold set_event_enabled, get_event. cbn. rewrite Hx. reflexivity. }
    apply (EffUpdate (OpEnabled e b) st e x); [done..| |done].
    split_and!; [by destruct b; destruct x as [???? []]|by destruct b; bits..].
Qed.

(** ** Steps

    What happens between select and the end of an iteration, as steps labelled
    with what they log: reading the clock, an operation of a callback, serving a
    running event. *)

(** What serving does to an event: a timer that repeats is rescheduled. *)
Definition served (x x' : event) : Prop :=
  same_kind (ev x) (ev x') ∧ has x' EVENT_F_RUNNING = has x EVENT_F_RUNNING ∧
  has x' EVENT_F_ONESHOT = has x EVENT_F_ONESHOT ∧
  (has x EVENT_F_ENABLED = true → has x' EVENT_F_ENABLED = true ∧
   ∀ fire ival, ev x = EvTime fire ival → has x EVENT_F_ONESHOT = false →
     ev x' = EvTime (time_add fire ival) ival).

Inductive cstep : list entry → loop → loop → Prop :=
| CsTick st : cstep [] st (clock_tick st)
| CsOp o st st' : effect o st st' → cstep [Did o] st st'
| CsServe e x x' k st :
    events st !! e = Some x → has x EVENT_F_RUNNING = true → end_loop st = false → served x x' → (clock_reads st <= k)%nat →
    cstep [Called e] st
      (mkLoop (<[e := x']> (events st)) (time_event_list st) (fd_event_list st)
         (always_event_list st) (end_loop st) k (Called e :: log st)).

(** The whole loop also marks the events that run and unlinks removed ones. *)
Inductive lstep : list entry → loop → loop → Prop :=
| LsDispatch new st st' : cstep new st st' → lstep new st st'
| LsTick st : lstep [] st (clock_tick st)
| LsMark e x st : events st !! e = Some x → lstep [] st (put_event e (mark_running x) st)
| LsStrip st :
    lstep [] st (with_lists (strip_events st (time_event_list st)) (strip_events st (fd_event_list st))
                   (strip_events st (always_event_list st)) st).

Inductive steps (R : list entry → loop → loop → Prop) : list entry → loop → loop → Prop :=
| steps_refl st : steps R [] st st
| steps_cons n1 n2 st1 st2 st3 : R n1 st1 st2 → steps R n2 st2 st3 → steps R (n2 ++ n1) st1 st3.

Lemma steps_one R new st st' : R new st st' → steps R new st st'.
Proof. intros H. apply (steps_cons R new [] _ _ _ H), steps_refl. Qed.

Lemma steps_trans R n1 n2 st1 st2 st3 :
  steps R n1 st1 st2 → steps R n2 st2 st3 → steps R (n2 ++ n1) st1 st3.
Proof.
  induction 1 as [|m1 m2 s1 s2 s3 H1 _ IH]; intros H2; [by rewrite app_nil_r|].
  rewrite (assoc_L (++)). eapply steps_cons; [exact H1|by apply IH].
Qed.

Lemma steps_mono (R R' : list entry → loop → loop → Prop) new st st' :
  (∀ n s s', R n s s' → R' n s s') → steps R new st st' → steps R' new st st'.
Proof. intros HR. induction 1; [apply steps_refl|]. eapply steps_cons; eauto. Qed.

(** An invariant of steps; [P] may speak of the log. *)
Lemma steps_ind_inv R (P : loop → Prop) new st st' :
  (∀ n s s', R n s s' → P s → P s') → steps R new st st' → P st → P st'.
Proof. intros HR. induction 1; eauto. Qed.

Lemma effect_log o st st' : effect o st st' → log st' = Did o :: log st.
Proof. by destruct 1. Qed.

Lemma lstep_log new st st' : lstep new st st' → log st' = new ++ log st.
Proof. destruct 1 as [??? []| | |]; try done. by erewrite effect_log. Qed.

Lemma steps_log new st st' : steps lstep new st st' → log st' = new ++ log st.
Proof.
  induction 1 as [|n1 n2 s1 s2 s3 H1 _ IH]; [done|]. rewrite IH, (lstep_log _ _ _ H1). apply (assoc_L (++)).
Qed.

(** ** The kinds of events, and well-formedness *)

Lemma same_kind_refl v : same_kind v v.
Proof. by destruct v. Qed.

Definition stable (K : ev_union → Prop) : Prop := ∀ v v', same_kind v v' → K v → K v'.

Lemma is_time_stable : stable is_time.
Proof. by intros [] []. Qed.
Lemma is_fd_stable : stable is_fd.
Proof. intros [] v' H; cbn in H; by subst. Qed.
Lemma is_none_stable : stable is_none.
Proof. intros [] v' H Hk; cbn in H; by subst. Qed.

Lemma of_kind_insert K st st' e e' x x' :
  stable K → events st !! e' = Some x → same_kind (ev x) (ev x') →
  events st' = <[e' := x']> (events st) → of_kind K st e → of_kind K st' e.
Proof.
  intros HK Hx Hs E (y & Hy & Hk). unfold of_kind. rewrite E. destruct (decide (e = e')) as [->|Hne].
  - exists x'. simplify_eq. split; [apply list_lookup_insert_eq; by eapply lookup_lt_Some|]. by eapply HK.
  - exists y. by rewrite list_lookup_insert_ne.
Qed.

Lemma of_kind_app K st st' y e : events st' = events st ++ [y] → of_kind K st e → of_kind K st' e.
Proof. intros E (x & Hx & Hk). exists x. rewrite E. split; [by apply lookup_app_l_Some|done]. Qed.

Lemma effect_kind o st st' K e : stable K → effect o st st' → of_kind K st e → of_kind K st' e.
Proof.
  intros HK. destruct 1 as [e' x x' k _ Hx (Hs & _) _|y K' t f a k _ _ _ _ _ _|_].
  - by eapply of_kind_insert.
  - by eapply of_kind_app.
  - done.
Qed.

Lemma lstep_kind K n st st' e : stable K → lstep n st st' → of_kind K st e → of_kind K st' e.
Proof.
  intros HK. destruct 1 as [n s s' H|?|e' x s Hx|?]; [|done| |done].
  - destruct H as [?|o ? ? He|e' x x' k s Hx _ _ (Hs & _) _]; [done|by eapply effect_kind|by eapply of_kind_insert].
  - eapply of_kind_insert; [done|exact Hx| |reflexivity].
    destruct (mark_running_spec x) as [-> _]. apply same_kind_refl.
Qed.

Lemma of_kind_lt K st e : of_kind K st e → (e < length (events st))%nat.
Proof. intros (x & Hx & _). by eapply lookup_lt_Some. Qed.

(** Prepending a new event to the list of its kind. *)
Lemma wf_list_add (K : ev_union → Prop) st y (t l : list nat) st' :
  Forall (of_kind K st) l → NoDup l → events st' = events st ++ [y] →
  (t = [] ∨ t = [length (events st)] ∧ K (ev y)) →
  Forall (of_kind K st') (t ++ l) ∧ NoDup (t ++ l).
Proof.
  intros Hl Hd E Ht.
  assert (Forall (of_kind K st') l) as Hl' by (eapply Forall_impl; [exact Hl|]; intros; by eapply of_kind_app).
  destruct Ht as [->|[-> Hy]]; [done|]. split.
  - constructor; [|done]. exists y. rewrite E. split; [by apply list_lookup_middle|done].
  - constructor; [|done]. intros Hin. rewrite Forall_forall in Hl. apply Hl in Hin. apply of_kind_lt in Hin. lia.
Qed.

Lemma effect_wf o st st' : effect o st st' → wf st → wf st'.
Proof.
  clear clock action.
  intros He [H1 H2 H3 H4 H5 H6].
  assert (∀ K l, stable K → Forall (of_kind K st) l → Forall (of_kind K st') l) as Hk.
  { intros K l HK Hl. eapply Forall_impl; [exact Hl|]. intros; by eapply effect_kind. }
  destruct He as [e' x x' k _ Hx (Hs & _) _|y K t f a k _ _ _ Hy _ Hc|_];
    [split; cbn; eauto using is_time_stable, is_fd_stable, is_none_stable| |split; cbn; eauto using is_time_stable, is_fd_stable, is_none_stable].
  set (st' := mkLoop _ _ _ _ _ _ _) in *.
  destruct (wf_list_add is_time st y t (time_event_list st) st' H1 H4 eq_refl) as [T1 T2]; [naive_solver|].
  destruct (wf_list_add is_fd st y f (fd_event_list st) st' H2 H5 eq_refl) as [F1 F2]; [naive_solver|].
  destruct (wf_list_add is_none st y a (always_event_list st) st' H3 H6 eq_refl) as [A1 A2]; [naive_solver|].
  by split.
Qed.

Lemma strip_events_Forall P st l : Forall P l → Forall P (strip_events st l).
Proof.
  rewrite !Forall_forall. intros H e He. apply H. unfold strip_events in He. by apply list_elem_of_filter in He as [_ He].
Qed.

Lemma wf_same_lists st st' :
  time_event_list st' = time_event_list st → fd_event_list st' = fd_event_list st →
  always_event_list st' = always_event_list st →
  (∀ K e, stable K → of_kind K st e → of_kind K st' e) → wf st → wf st'.
Proof.
  intros E1 E2 E3 HK [H1 H2 H3 H4 H5 H6]. split; rewrite ?E1, ?E2, ?E3; try done;
    eapply Forall_impl; eauto using is_time_stable, is_fd_stable, is_none_stable.
Qed.

Lemma lstep_wf n st st' : lstep n st st' → wf st → wf st'.
Proof.
  intros H Hwf. pose proof (λ K e HK, lstep_kind K n st st' e HK H) as HK.
  destruct H as [n s s' Hc|s|e' x s Hx|s]; [|by apply (wf_same_lists s)|by apply (wf_same_lists s)|].
  - destruct Hc as [s|o ? ? He|? ? ? ? s]; [by apply (wf_same_lists s)|by eapply effect_wf|by apply (wf_same_lists s)].
  - destruct Hwf as [H1 H2 H3 H4 H5 H6]. split; cbn;
      [by apply strip_events_Forall..|by apply NoDup_filter|by apply NoDup_filter|by apply NoDup_filter].
Qed.

Lemma cstep_wf n st st' : cstep n st st' → wf st → wf st'.
Proof. intros H. by apply lstep_wf with n, LsDispatch. Qed.

Lemma steps_wf n st st' : steps lstep n st st' → wf st → wf st'.
Proof. apply steps_ind_inv. apply lstep_wf. Qed.

(** ** Walks *)

(** The events called, newest first. *)
Definition calls (l : list entry) : list nat :=
  omap (λ en, match en with Called e => Some e | Did _ => None end) l.

Lemma calls_app l1 l2 : calls (l1 ++ l2) = calls l1 ++ calls l2.
Proof. apply omap_app. Qed.

Lemma elem_of_calls_app e l1 l2 : e ∈ calls (l1 ++ l2) ↔ e ∈ calls l1 ∨ e ∈ calls l2.
Proof. by rewrite calls_app, elem_of_app. Qed.

Fixpoint ops_ok (os : list op) (st : loop) : Prop :=
  match os with
  | [] => True
  | o :: os' => op_ok o st ∧ ∀ st', run_op o st = Ok st' → ops_ok os' st'
  end.

(** Callbacks use events that exist, reschedule only timers, and watch only
    descriptors that fit in a set. *)
Definition callbacks_ok : Prop := ∀ f d st, wf st → ops_ok (action f d st) st.

Lemma run_ops_steps os st :
  ops_ok os st → ∃ st' new, run_ops os st = Ok st' ∧ steps cstep new st st' ∧ calls new = [].
Proof.
  revert st. induction os as [|o os IH]; intros st.
  - intros _. exists st, []. split_and!; [done|apply steps_refl|done].
  - intros [Ho Hos]. destruct (run_op_effect o st Ho) as (st1 & E1 & He).
    destruct (IH st1 (Hos _ E1)) as (st' & new & E & Hs & Hc).
    exists st', (new ++ [Did o]). split_and!.
    + cbn. by rewrite E1.
    + eapply steps_cons; [by apply CsOp|done].
    + by rewrite calls_app, Hc.
Qed.

Lemma running_kept n st st' e :
  steps cstep n st st' → flag st e EVENT_F_RUNNING = true →
  flag st' e EVENT_F_RUNNING = true ∨ Did (OpRemove e) ∈ n.
Proof.
  clear clock action.
  induction 1 as [|n1 n2 s1 s2 s3 H1 _ IH]; intros Hr; [by left|].
  cut (flag s2 e EVENT_F_RUNNING = true ∨ Did (OpRemove e) ∈ n1).
  { intros [H|H]; [destruct (IH H)|]; rewrite elem_of_app; auto. }
  unfold flag in *. destruct (events s1 !! e) as [y|] eqn:Hy; [|done].
  destruct H1 as [s|o s s' He|e' x x' k s Hx _ _ (_ & HR & _) _]; cbn.
  - left. by rewrite Hy.
  - destruct He as [e' x x' k Ht Hx (_ & _ & Hc) _|z K t f a k _ _ _ _ _ _|_]; cbn.
    + destruct (decide (e = e')) as [->|Hne]; [|left; by rewrite list_lookup_insert_ne, Hy].
      rewrite list_lookup_insert_eq by (by eapply lookup_lt_Some). simplify_eq.
      destruct o; simplify_eq; try (left; naive_solver congruence). right. set_solver.
    + left. by rewrite (lookup_app_l_Some _ _ _ _ Hy).
    + left. by rewrite Hy.
  - left. destruct (decide (e = e')) as [->|Hne]; [|by rewrite list_lookup_insert_ne, Hy].
    rewrite list_lookup_insert_eq by (by eapply lookup_lt_Some). simplify_eq. congruence.
Qed.

Lemma end_loop_kept n st st' : steps cstep n st st' → end_loop st = true → end_loop st' = true.
Proof. apply (steps_ind_inv cstep (λ s, end_loop s = true)). by intros ??? [|??? []|]. Qed.

Lemma end_loop_set n st st' :
  steps cstep n st st' → end_loop st' = true → end_loop st = true ∨ Did OpExit ∈ n.
Proof.
  induction 1 as [|n1 n2 s1 s2 s3 H1 _ IH]; intros Hr; [by left|]. rewrite elem_of_app.
  destruct (IH Hr) as [H|H]; [|by auto].
  destruct H1 as [s|o s s' []|]; cbn in H; auto. right. right. subst. set_solver.
Qed.

Lemma steps_kind K n st st' e :
  stable K → steps cstep n st st' → of_kind K st e → of_kind K st' e.
Proof. intros HK. apply (steps_ind_inv cstep (λ s, of_kind K s e)). intros ??? H. eapply lstep_kind; [done|by apply LsDispatch]. Qed.

(** Whether an entry names an event as what an operation acts on. *)
Definition names (e : nat) (en : entry) : Prop := ∃ o, en = Did o ∧ target o = Some e.
Definition removes (e : nat) (en : entry) : Prop := en = Did (OpRemove e).

Lemma cstep_frame n st st' e x :
  cstep n st st' → e ∉ calls n → (∀ en, en ∈ n → ¬ names e en) →
  events st !! e = Some x → events st' !! e = Some x.
Proof.
  clear clock action.
  intros [s|o s s' He|e' y y' k s Hy _ _ _ _] Hc Hn Hx; [done| |].
  - destruct He as [e' y y' k Ht Hy _ _|z K t f a k _ _ _ _ _ _|_]; cbn; [|by apply lookup_app_l_Some|done].
    rewrite list_lookup_insert_ne; [done|]. intros ->. apply (Hn (Did o)); [set_solver|]. by exists o.
  - cbn in *. rewrite list_lookup_insert_ne; [done|]. set_solver.
Qed.

Lemma steps_frame n st st' e x :
  steps cstep n st st' → e ∉ calls n → (∀ en, en ∈ n → ¬ names e en) →
  events st !! e = Some x → events st' !! e = Some x.
Proof.
  clear clock action.
  induction 1 as [|n1 n2 s1 s2 s3 H1 _ IH]; [done|]. rewrite calls_app. intros Hc Hn Hx.
  apply IH; [set_solver|set_solver|]. eapply cstep_frame; [exact H1|set_solver|set_solver|done].
Qed.

Lemma cstep_clock n st st' : cstep n st st' → (clock_reads st <= clock_reads st')%nat.
Proof. intros [|??? []|]; cbn; lia. Qed.

(** Well-formed, and after the reading [k0] of the clock. *)
Definition wf_from (k0 : nat) (st : loop) : Prop := wf st ∧ (k0 <= clock_reads st)%nat.

Lemma steps_wf_from k0 n st st' : steps cstep n st st' → wf_from k0 st → wf_from k0 st'.
Proof.
  apply (steps_ind_inv cstep (wf_from k0)). intros m s s' Hs [Hw Hk]. split; [by eapply cstep_wf|].
  apply cstep_clock in Hs. lia.
Qed.

#[local] Instance names_dec e en : Decision (names e en).
Proof.
  destruct en as [e'|o].
  - right. by intros (? & ? & _).
  - destruct (decide (target o = Some e)) as [H|H]; [left; by exists o|right]. by intros (? & [= <-] & ?).
Defined.

Lemma steps_cclock n st st' : steps cstep n st st' → (clock_reads st <= clock_reads st')%nat.
Proof. induction 1 as [|n1 n2 s1 s2 s3 H1%cstep_clock _ IH]; lia. Qed.

(** An event that was called in the steps from [st] to [st'] with the entries
    [new] was due before its call: [W] held of it when the clock had been read
    [clock_reads stv] times, and the clock was read up to [k'] before the call. *)
Definition called_due (W : nat → nat → ev_union → Prop) (e : nat) (st st' : loop) (new : list entry) : Prop :=
  ∃ n1 n2 stv x k', new = n2 ++ n1 ∧ steps cstep n1 st stv ∧ e ∉ calls n1 ∧ events stv !! e = Some x ∧
    (k' <= clock_reads st')%nat ∧ W (clock_reads stv) k' (ev x).

(** A walk over events of kind [K], from the reading [k0] on. [D] says that an
    event is sure to be due, [Q] which entries of the log can change that, [W]
    that it was due between two readings of the clock. *)
Section Walk.
Context (k0 : nat) (K D : ev_union → Prop) (W : nat → nat → ev_union → Prop) (Q : nat → entry → Prop)
  (visit : nat → event → loop → res loop).

(** What a walk needs of the visit of a running event: it calls the event at
    most once, does so if the event is sure to be due, and only if it is due. *)
Definition visit_ok : Prop :=
  ∀ e x st, wf_from k0 st → events st !! e = Some x → K (ev x) → has x EVENT_F_RUNNING = true →
    end_loop st = false →
    ∃ st' new, visit e x st = Ok st' ∧ steps cstep new st st' ∧
      (calls new = [e] ∧ W (clock_reads st) (clock_reads st') (ev x) ∨ calls new = [] ∧ ¬ D (ev x)).

Definition due_kept : Prop :=
  ∀ n st st' e, steps cstep n st st' → e ∉ calls n → flag st e EVENT_F_RUNNING = true → of_kind D st e →
    flag st' e EVENT_F_RUNNING = true ∧ of_kind D st' e ∨ ∃ en, en ∈ n ∧ Q e en.

(** A walk returns, calls events of the list in its order, at most once and
    only when due, and calls every due event unless a callback disturbs it or ends the loop. *)
Lemma pass_spec l st :
  stable K → visit_ok → due_kept → wf_from k0 st → Forall (of_kind K st) l → NoDup l →
  ∃ st' new, pass visit l st = Ok st' ∧ steps cstep new st st' ∧
    calls new `sublist_of` reverse l ∧
    (∀ e, e ∈ calls new → called_due W e st st' new) ∧
    (∀ e, e ∈ l → flag st e EVENT_F_RUNNING = true → of_kind D st e →
      e ∈ calls new ∨ (∃ en, en ∈ new ∧ Q e en) ∨ end_loop st' = true).
Proof.
  clear clock action.
  intros HK Hv HD. revert st. induction l as [|e l IH]; intros st Hwf Hl Hnd.
  { exists st, []. split_and!; [done|apply steps_refl|done|set_solver|set_solver]. }
  apply Forall_cons in Hl as [(x & Hx & Hk) Hl]. apply NoDup_cons in Hnd as [Hni Hnd]. rewrite reverse_cons.
  cbn [pass]. unfold get_event. rewrite Hx, res_bind_ok.
  destruct (has x EVENT_F_RUNNING) eqn:HR; cbn [negb].
  - destruct (end_loop st) eqn:HE.
    { exists st, []. split_and!; [done|apply steps_refl|apply sublist_nil_l|set_solver|auto]. }
    destruct (Hv e x st Hwf Hx Hk HR HE) as (st1 & n1 & -> & Hs1 & Hc1). rewrite res_bind_ok.
    destruct (IH st1) as (st' & n2 & -> & Hs2 & Hc2 & Hw2 & Hd2); [by eapply steps_wf_from| |done|].
    { eapply Forall_impl; [exact Hl|]. intros. by eapply steps_kind. }
    exists st', (n2 ++ n1). split_and!; [done|by eapply steps_trans| | |].
    + rewrite calls_app. apply sublist_app; [done|].
      destruct Hc1 as [[-> _]|[-> _]]; [done|apply sublist_nil_l].
    + intros e' [He'|He']%elem_of_calls_app.
      * destruct (Hw2 e' He') as (m1 & m2 & stv & y & k' & -> & Hm & Hni' & Hy & Hk' & HW).
        exists (m1 ++ n1), m2, stv, y, k'. rewrite (assoc_L (++)). split_and!; [done|by eapply steps_trans| |done..].
        assert (e' ∈ l) by (apply elem_of_reverse; by eapply elem_of_sublist).
        rewrite calls_app. destruct Hc1 as [[-> _]|[-> _]]; set_solver.
      * exists [], (n2 ++ n1), st, x, (clock_reads st1). rewrite app_nil_r.
        destruct Hc1 as [[Hc HW]|[Hc _]]; rewrite Hc in He'; [|set_solver].
        apply list_elem_of_singleton in He' as ->.
        split_and!; [done|apply steps_refl|apply not_elem_of_nil|done|by eapply steps_cclock|done].
    + intros e' He' Hf Hd. rewrite calls_app, elem_of_app. setoid_rewrite elem_of_app.
      apply elem_of_cons in He' as [->|He'].
      * destruct Hd as (x' & Hx' & Hd). simplify_eq. left. right. destruct Hc1 as [[-> _]|[_ ?]]; [set_solver|done].
      * destruct (HD _ _ _ e' Hs1) as [[Hf1 Hd1]|(en & ? & ?)]; [|done|done| |naive_solver].
        { destruct Hc1 as [[-> _]|[-> _]]; [|by apply not_elem_of_nil]. intros ->%list_elem_of_singleton. done. }
        destruct (Hd2 e' He' Hf1 Hd1) as [|[(en & ? & ?)|]]; naive_solver.
  - destruct (IH st Hwf Hl Hnd) as (st' & new & -> & Hs & Hc & Hw & Hd). exists st', new. split_and!; [done|done| |done|].
    + etrans; [exact Hc|]. by apply sublist_inserts_r.
    + intros e' He' Hf. apply elem_of_cons in He' as [->|He']; [|by auto].
      unfold flag in Hf. rewrite Hx in Hf. congruence.
Qed.
End Walk.

Lemma due_kept_stable D : stable D → due_kept D removes.
Proof.
  intros HD n st st' e Hs _ Hr Hd. destruct (running_kept _ _ _ e Hs Hr) as [H|H].
  - left. split; [done|]. by eapply steps_kind.
  - right. by eexists.
Qed.

Lemma due_kept_names D : due_kept D names.
Proof.
  intros n st st' e Hs Hc Hr (x & Hx & Hd).
  destruct (decide (Exists (names e) n)) as [Hex|Hex].
  - right. by apply Exists_exists in Hex.
  - left. assert (events st' !! e = Some x) as Hx'.
    { eapply steps_frame; [done|done| |done]. intros en Hi Hn. apply Hex, Exists_exists. eauto. }
    split; [|by exists x]. unfold flag in *. rewrite Hx in Hr. by rewrite Hx'.
Qed.

Lemma call_steps e x st st1 :
  callbacks_ok → wf st → cstep [Called e] st (with_log (Called e) st1) →
  ∃ st' new, call clock action e x st1 = Ok st' ∧ steps cstep new st st' ∧ calls new = [e].
Proof.
  intros Hcb Hwf Hs. destruct (run_ops_steps (action (func x) (data x) (with_log (Called e) st1)) (with_log (Called e) st1))
    as (st' & new & E & Hss & Hc).
  { apply Hcb. by eapply cstep_wf. }
  exists st', (new ++ [Called e]). split_and!; [exact E|by eapply steps_cons|by rewrite calls_app, Hc].
Qed.

Lemma serve_mark e x st :
  events st !! e = Some x → has x EVENT_F_RUNNING = true → end_loop st = false →
  (∀ fire ival, ev x = EvTime fire ival → has x EVENT_F_ONESHOT = true) →
  cstep [Called e] st (with_log (Called e) (mark_oneshot e x st)).
Proof.
  intros Hx HR HE Hv. unfold mark_oneshot. destruct (has x EVENT_F_ONESHOT) eqn:HO.
  - apply (CsServe e x (set_bit EVENT_F_REMOVE x) (clock_reads st) st); [done..| |done].
    split_and!; [apply same_kind_refl|by bits..|]. intros H. split; [by bits|]. intros. congruence.
  - assert (put_event e x st = st) as E.
    { unfold put_event, with_events. rewrite list_insert_id by done. by destruct st. }
    rewrite <- E at 2. apply (CsServe e x x (clock_reads st) st); [done..| |done].
    split_and!; [apply same_kind_refl|done..|]. intros H. split; [done|]. intros fire ival Hev. by apply Hv in Hev.
Qed.

Lemma visit_always_ok k0 :
  callbacks_ok → visit_ok k0 is_none (λ _, True) (λ _ _ _, True) (visit_always clock action).
Proof.
  intros Hcb e x st [Hwf _] Hx Hk HR HE. unfold visit_always.
  destruct (call_steps e x st (mark_oneshot e x st) Hcb Hwf) as (st' & new & E & Hs & Hc).
  - apply serve_mark; [done..|]. intros ?? Hv. by rewrite Hv in Hk.
  - exists st', new. auto.
Qed.

Definition fd_due (s : fd_sets) (a : answer) (v : ev_union) : Prop :=
  match v with EvFd fd w => FD_ISSET s a fd w = true | _ => False end.

Lemma fd_due_stable s a : stable (fd_due s a).
Proof. intros [] v' H Hk; cbn in H; by subst. Qed.

Lemma visit_fd_ok k0 s a :
  callbacks_ok → visit_ok k0 is_fd (fd_due s a) (λ _ _, fd_due s a) (visit_fd clock action s a).
Proof.
  intros Hcb e x st [Hwf _] Hx Hk HR HE. unfold visit_fd. destruct (ev x) as [| |fd w] eqn:Hv; [done..|].
  unfold fd_due. destruct (FD_ISSET s a fd w) eqn:Hd.
  - destruct (call_steps e x st (mark_oneshot e x st) Hcb Hwf) as (st' & new & E & Hs & Hc).
    + apply serve_mark; [done..|]. intros ?? Hv'. congruence.
    + exists st', new. auto.
  - exists st, []. split_and!; [done|apply steps_refl|auto].
Qed.

(** A timer is due if every reading of the clock from [k0] on is at most five
    milliseconds before its time. *)
Definition time_due (k0 : nat) (v : ev_union) : Prop :=
  match v with EvTime fire _ => ∀ k, (k0 <= k)%nat → - time_diff fire (clock k) < 5 | _ => False end.

(** It was due if one reading of the clock was. *)
Definition time_was_due (k k' : nat) (v : ev_union) : Prop :=
  match v with EvTime fire _ => (k < k')%nat ∧ - time_diff fire (clock k) < 5 | _ => False end.

Lemma visit_time_ok k0 :
  callbacks_ok → visit_ok k0 is_time (time_due k0) time_was_due (visit_time clock action).
Proof.
  intros Hcb e x st [Hwf Hk0] Hx Hk HR HE. unfold visit_time. destruct (ev x) as [|fire ival|] eqn:Hv; [done| |done].
  assert (steps cstep [] st (clock_tick st)) as Ht by apply steps_one, CsTick.
  cbn [time_ago time_now]. cbv zeta. case_decide as Hd; [|exists (clock_tick st), []; split_and!; [done|done|right; split; [done|intros Hdue; by apply Hd, Hdue]]].
  assert (∃ st1, (if has x EVENT_F_ONESHOT then Ok (mark_oneshot e x (clock_tick st))
     else resched_event clock e None (clock_tick st)) = Ok st1 ∧
     cstep [Called e] (clock_tick st) (with_log (Called e) st1)) as (st1 & -> & Hc1).
  { destruct (has x EVENT_F_ONESHOT) eqn:HO.
    - eexists. split; [done|]. by apply serve_mark.
    - destruct (resched_event_spec e None (clock_tick st) x fire ival Hx Hv) as (fire' & k & -> & Hk' & Hf).
      eexists. split; [done|]. eapply (CsServe e x _ k (clock_tick st)); [done..| |done].
      split_and!; [by rewrite Hv|by bits..|]. intros HEn. split; [by bits|].
      intros f' i' Hv' _. rewrite Hv in Hv'. injection Hv' as <- <-. cbn. by rewrite Hf. }
  rewrite res_bind_ok.
  destruct (call_steps e x (clock_tick st) st1 Hcb) as (st' & new & E & Hs & Hc); [|done|].
  { eapply cstep_wf; [apply CsTick|done]. }
  exists st', (new ++ []). split_and!; [done|by eapply steps_trans|]. left. rewrite app_nil_r.
  split; [done|]. split; [|done]. apply steps_cclock in Hs. cbn in Hs. lia.
Qed.

(** ** Preparing an iteration *)

(** What the walks before select do: nothing but marking the listed events. *)
Record prepared (l : list nat) (st st' : loop) : Prop := {
  prep_steps : steps lstep [] st st';
  prep_lists : time_event_list st' = time_event_list st ∧ fd_event_list st' = fd_event_list st ∧
               always_event_list st' = always_event_list st;
  prep_end : end_loop st' = end_loop st;
  prep_events : ∀ e x, events st !! e = Some x →
    events st' !! e = Some (if decide (e ∈ l) then mark_running x else x)
}.

Lemma prepared_nil st : prepared [] st st.
Proof. split; [apply steps_refl|done|done|]. intros e x Hx. by rewrite decide_False by set_solver. Qed.

Lemma mark_running_idem x : mark_running (mark_running x) = mark_running x.
Proof.
  unfold mark_running. destruct (has x EVENT_F_ENABLED) eqn:E; bits; rewrite E; cbn; unfold set_bit, clear_bit, with_flags; cbn.
  - f_equal. by rewrite <- Z.lor_assoc.
  - f_equal. by rewrite <- Z.land_assoc.
Qed.

Lemma prepared_app l1 l2 st1 st2 st3 :
  prepared l1 st1 st2 → prepared l2 st2 st3 → prepared (l1 ++ l2) st1 st3.
Proof.
  clear clock action.
  intros [H1 (L1 & L2 & L3) E1 P1] [H2 (M1 & M2 & M3) E2 P2]. split; [|split_and!; congruence|congruence|].
  - by apply (steps_trans lstep [] [] st1 st2 st3).
  - intros e x Hx. rewrite (P2 _ _ (P1 _ _ Hx)). f_equal.
    destruct (decide (e ∈ l1)) as [Hi|Hi], (decide (e ∈ l2)) as [Hj|Hj].
    + rewrite decide_True by set_solver. apply mark_running_idem.
    + by rewrite decide_True by set_solver.
    + by rewrite decide_True by set_solver.
    + by rewrite decide_False by set_solver.
Qed.

Lemma prepared_mark e x st : events st !! e = Some x → prepared [e] st (put_event e (mark_running x) st).
Proof.
  clear clock action.
  intros Hx. split; [by apply steps_one, LsMark|done|done|]. intros e' x' Hx'. cbn.
  destruct (decide (e' = e)) as [->|Hne].
  - rewrite decide_True by set_solver. rewrite list_lookup_insert_eq by (by eapply lookup_lt_Some). by simplify_eq.
  - rewrite decide_False by set_solver. by rewrite list_lookup_insert_ne.
Qed.

Lemma prepared_tick st : prepared [] st (clock_tick st).
Proof. split; [apply steps_one, LsTick|done|done|]. intros e x Hx. by rewrite decide_False by set_solver. Qed.

Lemma prepared_kind K l st st' e : stable K → prepared l st st' → of_kind K st e → of_kind K st' e.
Proof.
  intros HK [_ _ _ P] (x & Hx & Hk). eexists. split; [by apply P|]. case_decide; [|done].
  by destruct (mark_running_spec x) as [-> _].
Qed.

Lemma prepared_event l st st' e x' :
  prepared l st st' → (e < length (events st))%nat → events st' !! e = Some x' →
  ∃ x, events st !! e = Some x ∧ ev x' = ev x ∧
    has x' EVENT_F_ENABLED = has x EVENT_F_ENABLED ∧ has x' EVENT_F_ONESHOT = has x EVENT_F_ONESHOT.
Proof.
  intros [_ _ _ P] [x Hx]%lookup_lt_is_Some Hx'. exists x. rewrite (P _ _ Hx) in Hx'. simplify_eq.
  destruct (mark_running_spec x) as (? & _ & ? & ? & _). by case_decide.
Qed.

(** An enabled timer of the state. *)
Definition enabled_timer (st : loop) (e : nat) (fire : timeval) : Prop :=
  ∃ x ival, events st !! e = Some x ∧ has x EVENT_F_ENABLED = true ∧ ev x = EvTime fire ival.

Lemma prepared_timer l st st' e fire :
  prepared l st st' → (e < length (events st))%nat → enabled_timer st e fire ↔ enabled_timer st' e fire.
Proof.
  intros Hp Hlt. split.
  - intros (x & ival & Hx & HE & Hv). destruct Hp as [_ _ _ P]. eexists _, ival. split; [by apply P|].
    destruct (mark_running_spec x) as (? & _ & ? & _). case_decide; split; congruence.
  - intros (x' & ival & Hx' & HE & Hv). destruct (prepared_event _ _ _ _ _ Hp Hlt Hx') as (x & Hx & ? & ? & _).
    exists x, ival. split_and!; congruence.
Qed.

(** The milliseconds select may wait for a timer, at a reading of the clock. *)
Definition time_left (fire now : timeval) : Z :=
  if decide (- time_diff fire now < 5) then 0 else - time_diff fire now.

(** [t'] is the least of [t] and the times left of the timers of [l], each taken
    at a reading of the clock of this iteration. *)
Definition least_left (l : list nat) (st : loop) (t t' : option Z) : Prop :=
  (∀ n, t = Some n → ∃ n', t' = Some n' ∧ n' ≤ n) ∧
  (∀ e fire, e ∈ l → enabled_timer st e fire →
    ∃ n k, t' = Some n ∧ (clock_reads st <= k)%nat ∧ n ≤ time_left fire (clock k)) ∧
  (∀ n, t' = Some n → t = Some n ∨
    ∃ e fire k, e ∈ l ∧ enabled_timer st e fire ∧ (clock_reads st <= k)%nat ∧ n = time_left fire (clock k)).

Lemma least_left_none l st t :
  (∀ e fire, e ∈ l → ¬ enabled_timer st e fire) → least_left l st t t.
Proof.
  clear action.
  intros H. split_and!; [|naive_solver|naive_solver]. intros n Hn. exists n. split; [done|lia].
Qed.

Lemma least_left_cons e l st st1 t t1 t' :
  (e < length (events st))%nat → Forall (λ e, (e < length (events st))%nat) l → prepared [e] st st1 →
  (clock_reads st <= clock_reads st1)%nat →
  least_left [e] st t t1 → least_left l st1 t1 t' → least_left (e :: l) st t t'.
Proof.
  clear action.
  intros He Hl Hp Hk (A1 & A2 & A3) (B1 & B2 & B3). rewrite Forall_forall in Hl. split_and!.
  - intros n Hn. destruct (A1 n Hn) as (n1 & Hn1 & ?). destruct (B1 n1 Hn1) as (n' & ? & ?). exists n'. split; [done|lia].
  - intros e' fire Hi Ht. apply elem_of_cons in Hi as [->|Hi].
    + destruct (A2 e fire ltac:(set_solver) Ht) as (n1 & k & Hn1 & ? & ?). destruct (B1 n1 Hn1) as (n' & ? & ?).
      exists n', k. split_and!; [done|lia|lia].
    + destruct (B2 e' fire Hi) as (n & k & ? & ? & ?); [by apply (prepared_timer [e] st st1 e' fire Hp (Hl _ Hi))|]. exists n, k. split_and!; [done|lia|done].
  - intros n Hn. destruct (B3 n Hn) as [Hn1|(e' & fire & k & Hi & Ht & ? & ?)].
    + destruct (A3 n Hn1) as [|(e' & fire & k & Hi & ?)]; [by left|]. right. exists e', fire, k. set_solver.
    + right. exists e', fire, k. split_and!; [set_solver|by apply (prepared_timer [e] st st1 e' fire Hp (Hl _ Hi))|lia|done].
Qed.

Lemma prep_time_spec l st t :
  Forall (of_kind is_time st) l →
  ∃ st' t', prep_time clock l st t = Ok (st', t') ∧ prepared l st st' ∧ least_left l st t t'.
Proof.
  clear action.
  revert st t. induction l as [|e l IH]; intros st t Hl.
  { exists st, t. split_and!; [done|apply prepared_nil|]. apply least_left_none. set_solver. }
  pose proof Hl as Hlt. apply (Forall_impl _ _ _) with (2 := of_kind_lt is_time st) in Hlt.
  apply Forall_cons in Hl as [(x & Hx & Hk) Hl]. apply Forall_cons in Hlt as [He Hlt].
  cbn [prep_time]. unfold get_event. rewrite Hx, res_bind_ok.
  destruct (ev x) as [|fire ival|] eqn:Hv; [done| |done].
  destruct (has x EVENT_F_ENABLED) eqn:HE.
  - cbn [time_ago time_now]. cbv zeta.
    set (st1 := put_event e _ _). set (t1 := match t with None => _ | Some n => _ end).
    assert (prepared [e] st st1) as Hp.
    { apply (prepared_app [] [e] st (clock_tick st) st1); [apply prepared_tick|].
      replace st1 with (put_event e (mark_running x) (clock_tick st)) by (unfold mark_running; by rewrite HE).
      by apply prepared_mark. }
    destruct (IH st1 (Some t1)) as (st' & t' & -> & Hp' & Hl').
    { eapply Forall_impl; [exact Hl|]. intros e'. eapply prepared_kind; [apply is_time_stable|exact Hp]. }
    exists st', t'. split_and!; [done|by apply (prepared_app [e] l st st1)|].
    eapply (least_left_cons e l st st1 t (Some t1)); [done..|cbn; lia| |done].
    split_and!.
    + intros n ->. exists t1. split; [done|]. unfold t1. case_decide; lia.
    + intros e' fire' ->%list_elem_of_singleton (x' & ival' & Hx' & _ & Hv'). assert (x' = x) as -> by congruence. rewrite Hv in Hv'. injection Hv' as <- <-. exists t1, (clock_reads st).
      split_and!; [done|lia|]. unfold t1, time_left. destruct t; repeat case_decide; lia.
    + intros n [= <-]. unfold t1. destruct t as [n0|]; [case_decide; [|by left]|]; right; exists e, fire, (clock_reads st);
        (split_and!; [set_solver|by exists x, ival|lia|done]).
  - set (st1 := put_event e _ _). assert (prepared [e] st st1) as Hp.
    { replace st1 with (put_event e (mark_running x) st) by (unfold mark_running; by rewrite HE). by apply prepared_mark. }
    destruct (IH st1 t) as (st' & t' & -> & Hp' & Hl').
    { eapply Forall_impl; [exact Hl|]. intros e'. eapply prepared_kind; [apply is_time_stable|exact Hp]. }
    exists st', t'. split_and!; [done|by apply (prepared_app [e] l st st1)|].
    eapply (least_left_cons e l st st1 t t); [done..| |done]. apply least_left_none.
    intros e' fire' ->%list_elem_of_singleton (x' & ? & Hx' & ? & _). congruence.
Qed.

Definition enabled (st : loop) (e : nat) : Prop := flag st e EVENT_F_ENABLED = true.

Lemma prepared_enabled l st st' e :
  prepared l st st' → (e < length (events st))%nat → enabled st' e ↔ enabled st e.
Proof.
  intros [_ _ _ P] [x Hx]%lookup_lt_is_Some. unfold enabled, flag. rewrite (P _ _ Hx), Hx.
  destruct (mark_running_spec x) as (_ & _ & H & _). by case_decide; rewrite ?H.
Qed.

(** Marking one event, in either branch of the walks. *)
Lemma prepared_one (e : nat) x st b :
  events st !! e = Some x → has x EVENT_F_ENABLED = b →
  prepared [e] st (put_event e (if b then set_bit EVENT_F_RUNNING x else clear_bit EVENT_F_RUNNING x) st).
Proof. intros Hx <-. by apply (prepared_mark e x). Qed.

Lemma prep_always_spec l st t :
  Forall (of_kind is_none st) l →
  ∃ st' t', prep_always l st t = Ok (st', t') ∧ prepared l st st' ∧
    (t' = Some 0 ∧ (∃ e, e ∈ l ∧ enabled st e) ∨ t' = t ∧ ∀ e, e ∈ l → ¬ enabled st e).
Proof.
  clear clock action.
  revert st t. induction l as [|e l IH]; intros st t Hl.
  { exists st, t. split_and!; [done|apply prepared_nil|]. right. set_solver. }
  pose proof Hl as Hlt. apply (Forall_impl _ _ _) with (2 := of_kind_lt is_none st) in Hlt.
  apply Forall_cons in Hl as [(x & Hx & Hk) Hl]. apply Forall_cons in Hlt as [He Hlt]. rewrite Forall_forall in Hlt.
  cbn [prep_always]. unfold get_event. rewrite Hx, res_bind_ok.
  destruct (has x EVENT_F_ENABLED) eqn:HE; pose proof (prepared_one e x st _ Hx HE) as Hp; cbv iota in Hp;
    set (st1 := put_event e _ _) in *.
  - destruct (IH st1 (Some 0)) as (st' & t' & -> & Hp' & Ht).
    { eapply Forall_impl; [exact Hl|]. intros e'. eapply prepared_kind; [apply is_none_stable|exact Hp]. }
    exists st', t'. split_and!; [done|by apply (prepared_app [e] l st st1)|]. left. split; [naive_solver|].
    exists e. split; [set_solver|]. unfold enabled, flag. by rewrite Hx.
  - destruct (IH st1 t) as (st' & t' & -> & Hp' & Ht).
    { eapply Forall_impl; [exact Hl|]. intros e'. eapply prepared_kind; [apply is_none_stable|exact Hp]. }
    exists st', t'. split_and!; [done|by apply (prepared_app [e] l st st1)|].
    destruct Ht as [[-> (e' & Hi & Hen)]|[-> Hno]].
    + left. split; [done|]. exists e'. split; [set_solver|]. apply (prepared_enabled [e] st st1 e' Hp); [by apply Hlt|done].
    + right. split; [done|]. intros e' [->|Hi]%elem_of_cons.
      * unfold enabled, flag. rewrite Hx. congruence.
      * rewrite <- (prepared_enabled [e] st st1 e' Hp) by (by apply Hlt). by apply Hno.
Qed.

Definition in_sets (s : fd_sets) (v : ev_union) : Prop :=
  match v with EvFd fd w => fd ∈ (if w then wfds s else rfds s) ∧ fd ≤ highfd s | _ => False end.

Lemma in_sets_stable s : stable (in_sets s).
Proof. intros [] v' H Hk; cbn in H; by subst. Qed.

Lemma prepared_back K m st st1 e :
  prepared m st st1 → (e < length (events st))%nat →
  (enabled st1 e → of_kind K st1 e) → enabled st e → of_kind K st e.
Proof.
  intros Hp Hlt H Hen. apply (prepared_enabled m st st1 e Hp Hlt) in Hen.
  destruct (H Hen) as (x1 & Hx1 & Hin). destruct (prepared_event _ _ _ _ _ Hp Hlt Hx1) as (x0 & Hx0 & E & _).
  exists x0. split; [done|congruence].
Qed.

(** The sets contain the descriptors of all enabled events. *)
Lemma prep_fd_spec l st s :
  Forall (of_kind is_fd st) l →
  ∃ st' s', prep_fd l st s = Ok (st', s') ∧ prepared l st st' ∧
    (∀ v, in_sets s v → in_sets s' v) ∧ (∀ e, e ∈ l → enabled st e → of_kind (in_sets s') st e).
Proof.
  clear clock action.
  revert st s. induction l as [|e l IH]; intros st s Hl.
  { exists st, s. split_and!; [done|apply prepared_nil|done|]. set_solver. }
  pose proof Hl as Hlt. apply (Forall_impl _ _ _) with (2 := of_kind_lt is_fd st) in Hlt.
  apply Forall_cons in Hl as [(x & Hx & Hk) Hl]. apply Forall_cons in Hlt as [He Hlt]. rewrite Forall_forall in Hlt.
  cbn [prep_fd]. unfold get_event. rewrite Hx, res_bind_ok. destruct (ev x) as [| |fd w] eqn:Hv; [done..|].
  destruct (has x EVENT_F_ENABLED) eqn:HE; pose proof (prepared_one e x st _ Hx HE) as Hp; cbv iota in Hp;
    set (st1 := put_event e _ _) in *.
  - unfold FD_SET. rewrite (decide_True (P := 0 ≤ fd < FD_SETSIZE)) by exact Hk. rewrite res_bind_ok.
    set (s1 := if w then mkSets _ _ _ else _).
    destruct (IH st1 s1) as (st' & s' & -> & Hp' & Hm & Hs).
    { eapply Forall_impl; [exact Hl|]. intros e'. eapply prepared_kind; [apply is_fd_stable|exact Hp]. }
    exists st', s'. split_and!; [done|by apply (prepared_app [e] l st st1)| |].
    + intros v Hin. apply Hm. destruct v as [| |fd' w']; [done..|]. destruct Hin as [Hin Hle].
      unfold s1. destruct w, w'; cbn in *; (split; [set_solver|case_decide; lia]).
    + intros e' [->|Hi]%elem_of_cons Hen; [|by apply (prepared_back _ [e] st st1 e' Hp (Hlt _ Hi)); [apply Hs|]].
      exists x. split; [done|]. rewrite Hv. apply Hm. unfold s1. destruct w; cbn; (split; [set_solver|case_decide; lia]).
  - destruct (IH st1 s) as (st' & s' & -> & Hp' & Hm & Hs).
    { eapply Forall_impl; [exact Hl|]. intros e'. eapply prepared_kind; [apply is_fd_stable|exact Hp]. }
    exists st', s'. split_and!; [done|by apply (prepared_app [e] l st st1)|done|].
    intros e' [->|Hi]%elem_of_cons Hen; [|by apply (prepared_back _ [e] st st1 e' Hp (Hlt _ Hi)); [apply Hs|]].
    unfold enabled, flag in Hen. rewrite Hx in Hen. congruence.
Qed.

Lemma loop_prepare_spec st :
  wf st →
  ∃ st' t1 t s, loop_prepare clock st = Ok (st', t, s) ∧
    prepared ((time_event_list st ++ always_event_list st) ++ fd_event_list st) st st' ∧
    least_left (time_event_list st) st None t1 ∧
    (t = Some 0 ∧ (∃ e, e ∈ always_event_list st ∧ enabled st e) ∨
     t = t1 ∧ ∀ e, e ∈ always_event_list st → ¬ enabled st e) ∧
    (∀ e, e ∈ fd_event_list st → enabled st e → of_kind (in_sets s) st e).
Proof.
  intros Hwf. destruct (prep_time_spec (time_event_list st) st None (wf_time _ Hwf)) as (st1 & t1 & E1 & P1 & L1).
  pose proof (steps_wf _ _ _ (prep_steps _ _ _ P1) Hwf) as Hwf1.
  destruct (prep_always_spec (always_event_list st1) st1 t1 (wf_always _ Hwf1)) as (st2 & t & E2 & P2 & L2).
  pose proof (steps_wf _ _ _ (prep_steps _ _ _ P2) Hwf1) as Hwf2.
  destruct (prep_fd_spec (fd_event_list st2) st2 (mkSets [] [] (-1)) (wf_fd _ Hwf2)) as (st3 & s & E3 & P3 & _ & L3).
  pose proof (prep_lists _ _ _ P1) as (A1 & A2 & A3). pose proof (prep_lists _ _ _ P2) as (B1 & B2 & B3).
  rewrite A3 in E2, P2, L2. rewrite B2, A2 in E3, P3, L3.
  assert (∀ e, e ∈ always_event_list st → enabled st1 e ↔ enabled st e) as Hen.
  { intros e He. eapply prepared_enabled; [exact P1|]. eapply of_kind_lt, Forall_forall; [apply (wf_always _ Hwf)|done]. }
  exists st3, t1, t, s. split_and!.
  - unfold loop_prepare. rewrite E1, res_bind_ok. cbn beta iota. rewrite A3, E2, res_bind_ok. cbn beta iota.
    by rewrite B2, A2, E3.
  - eapply prepared_app; [by eapply prepared_app|done].
  - done.
  - destruct L2 as [[-> (e & Hi & He)]|[-> Hno]]; [left|right]; (split; [done|]).
    + exists e. split; [done|]. by apply Hen.
    + intros e Hi He. eapply Hno; [done|by apply Hen].
  - intros e Hi. apply (prepared_back _ (time_event_list st ++ always_event_list st) st st2); [by eapply prepared_app| |by apply L3].
    eapply of_kind_lt, Forall_forall; [apply (wf_fd _ Hwf)|done].
Qed.

(** ** Dispatching *)

Lemma running_only n st st' e :
  steps cstep n st st' → flag st' e EVENT_F_RUNNING = true → flag st e EVENT_F_RUNNING = true.
Proof.
  clear clock action.
  intros H. induction H as [|n1 n2 s1 s2 s3 H1 _ IH]; [done|]. intros Hr. apply IH in Hr. clear IH.
  assert (∀ (e' : nat) x x', events s1 !! e' = Some x → (has x' EVENT_F_RUNNING = true → has x EVENT_F_RUNNING = true) →
    events s2 = <[e' := x']> (events s1) → flag s1 e EVENT_F_RUNNING = true) as Hup.
  { intros e' x x' Hx Hh E. unfold flag in *. rewrite E in Hr. destruct (decide (e = e')) as [->|Hne].
    - rewrite list_lookup_insert_eq in Hr by (by eapply lookup_lt_Some). rewrite Hx. auto.
    - by rewrite list_lookup_insert_ne in Hr. }
  destruct H1 as [s|o s s' He|e' x x' k s Hx HR _ _ _]; [done| |by eapply Hup].
  destruct He as [e' x x' k Ht Hx (_ & _ & Hc) _|z K t f a k _ _ Hz _ _ _|_]; [|clear Hup|done].
  - eapply (Hup e' x x'); [done| |done]. destruct o; naive_solver congruence.
  - unfold flag in *. cbn in Hr. destruct (events s !! e) as [y|] eqn:Hy.
    + by rewrite (lookup_app_l_Some _ _ _ _ Hy) in Hr.
    + destruct ((events s ++ [z]) !! e) as [y|] eqn:Hz'; [|done].
      apply lookup_app_Some in Hz' as [?|[_ Hz']]; [congruence|]. apply list_lookup_singleton_Some in Hz' as [_ <-]. congruence.
Qed.

Lemma called_running n st st' e :
  steps cstep n st st' → e ∈ calls n → flag st e EVENT_F_RUNNING = true.
Proof.
  induction 1 as [|n1 n2 s1 s2 s3 H1 _ IH]; [by intros ?%elem_of_nil|].
  rewrite calls_app, elem_of_app. intros [Hc|Hc].
  - eapply running_only; [by apply steps_one|by apply IH].
  - destruct H1 as [s|o s s' He|e' x x' k s Hx HR _ _ _]; cbn in Hc; [by apply elem_of_nil in Hc..|].
    apply list_elem_of_singleton in Hc as ->. unfold flag. by rewrite Hx.
Qed.

Definition grows (n : nat) (l l' : list nat) : Prop := ∃ p, l' = p ++ l ∧ Forall (λ e, (n <= e)%nat) p.

Lemma grows_refl n l : grows n l l.
Proof. exists []. split; [done|constructor]. Qed.

Lemma grows_trans n m l1 l2 l3 : (n <= m)%nat → grows n l1 l2 → grows m l2 l3 → grows n l1 l3.
Proof.
  intros Hn (p & -> & Hp) (q & -> & Hq). exists (q ++ p). split; [apply (assoc_L (++))|].
  apply Forall_app. split; [|done]. eapply Forall_impl; [exact Hq|]. cbn. lia.
Qed.

Lemma grows_elem n l l' e : grows n l l' → (e < n)%nat → e ∈ l' ↔ e ∈ l.
Proof.
  intros (p & -> & Hp) Hlt. rewrite elem_of_app. split; [|by right]. intros [Hi|]; [|done].
  rewrite Forall_forall in Hp. apply Hp in Hi. lia.
Qed.

(** During the walks the lists only grow at their heads, by new events. *)
Lemma lists_grow n st st' :
  steps cstep n st st' → (length (events st) <= length (events st'))%nat ∧
  grows (length (events st)) (time_event_list st) (time_event_list st') ∧
  grows (length (events st)) (fd_event_list st) (fd_event_list st') ∧
  grows (length (events st)) (always_event_list st) (always_event_list st').
Proof.
  induction 1 as [s|n1 n2 s1 s2 s3 H1 _ (L2 & T2 & F2 & A2)]; [split_and!; [done|apply grows_refl..]|].
  cut ((length (events s1) <= length (events s2))%nat ∧
    grows (length (events s1)) (time_event_list s1) (time_event_list s2) ∧
    grows (length (events s1)) (fd_event_list s1) (fd_event_list s2) ∧
    grows (length (events s1)) (always_event_list s1) (always_event_list s2)).
  { intros (L1 & T1 & F1 & A1). split_and!; [lia|by eapply grows_trans..]. }
  destruct H1 as [s|o s s' He|e' x x' k s Hx HR _ _ _]; cbn; rewrite ?length_insert;
    [split_and!; [done|apply grows_refl..]| |split_and!; [done|apply grows_refl..]].
  destruct He as [e' x x' k Ht Hx _ _|z K t f a k _ _ Hz _ _ Hc|_]; cbn; rewrite ?length_insert, ?length_app;
    [split_and!; [done|apply grows_refl..]| |split_and!; [done|apply grows_refl..]].
  assert (∀ l, grows (length (events s)) l ([length (events s)] ++ l)) as Hg.
  { intros l. eexists [_]. split; [done|]. by apply Forall_singleton. }
  split; [lia|]. destruct Hc as [(_ & -> & -> & ->)|[(_ & -> & -> & ->)|(_ & -> & -> & ->)]];
    split_and!; first [apply Hg|apply grows_refl].
Qed.

(** An event is served in an iteration: called, unless a callback disturbs it
    or ends the loop. *)
Definition attended (Q : nat → entry → Prop) (e : nat) (new : list entry) : Prop :=
  e ∈ calls new ∨ (∃ en, en ∈ new ∧ Q e en) ∨ Did OpExit ∈ new.

Lemma attended_app_l Q e n1 n2 : attended Q e n2 → attended Q e (n2 ++ n1).
Proof. clear clock action. unfold attended. rewrite calls_app, !elem_of_app. setoid_rewrite elem_of_app. naive_solver. Qed.
Lemma attended_app_r Q e n1 n2 : attended Q e n1 → attended Q e (n2 ++ n1).
Proof. clear clock action. unfold attended. rewrite calls_app, !elem_of_app. setoid_rewrite elem_of_app. naive_solver. Qed.

(** One walk of the iteration, [l] being one of the lists of the state in which
    it starts, and [m] that list when select returned. *)
Lemma walk_spec K D W Q visit st0 n0 st l m :
  end_loop st0 = false → steps cstep n0 st0 st → wf st0 → stable K →
  visit_ok (clock_reads st0) K D W visit → due_kept D Q →
  Forall (of_kind K st) l → NoDup l → grows (length (events st0)) m l →
  ∃ st' n, pass visit l st = Ok st' ∧ steps cstep (n ++ n0) st0 st' ∧ steps cstep n st st' ∧
    NoDup (calls n) ∧ (∀ e, e ∈ calls n → of_kind K st' e ∧ e ∈ m ∧ called_due W e st st' n) ∧
    (∀ e, e ∈ m → flag st0 e EVENT_F_RUNNING = true → of_kind D st0 e → attended Q e (n ++ n0)).
Proof.
  clear clock action.
  intros HE Hs0 Hwf HK Hv HD Hl Hnd Hg.
  assert (wf_from (clock_reads st0) st) as Hwf0 by (by eapply steps_wf_from; [exact Hs0|split]).
  destruct (pass_spec _ K D W Q visit l st HK Hv HD Hwf0 Hl Hnd) as (st' & n & E & Hs & Hsub & Hwas & Hdue).
  pose proof (steps_trans _ _ _ _ _ _ Hs0 Hs) as Hs'.
  exists st', n. split_and!; [done|done|done| | |].
  - eapply sublist_NoDup; [|exact Hsub]. by rewrite reverse_Permutation.
  - intros e He. assert (e ∈ l) as Hel.
    { apply elem_of_reverse. by eapply elem_of_sublist. }
    split; [|split; [|by apply Hwas]].
    + rewrite Forall_forall in Hl. eapply steps_kind; [done|exact Hs|by apply Hl].
    + apply (grows_elem _ _ _ e Hg); [|done].
      assert (flag st0 e EVENT_F_RUNNING = true) as Hr.
      { eapply called_running; [exact Hs'|]. rewrite calls_app. set_solver. }
      unfold flag in Hr. destruct (events st0 !! e) eqn:Hx; [|done]. by eapply lookup_lt_Some.
  - intros e He Hr Hd. destruct (decide (e ∈ calls n0)) as [Hi|Hni]; [apply attended_app_r; by left|].
    destruct (HD _ _ _ e Hs0 Hni Hr Hd) as [[Hr1 Hd1]|H].
    + assert (e ∈ l) as Hel by (destruct Hg as (p & -> & _); set_solver).
      destruct (Hdue e Hel Hr1 Hd1) as [H|[H|H]].
      * apply attended_app_l. by left.
      * apply attended_app_l. by right; left.
      * destruct (end_loop_set _ _ _ Hs' H) as [|H']; [congruence|]. by right; right.
    + apply attended_app_r. by right; left.
Qed.

Lemma kinds_apart st e :
  (of_kind is_time st e → of_kind is_fd st e → False) ∧ (of_kind is_time st e → of_kind is_none st e → False) ∧
  (of_kind is_fd st e → of_kind is_none st e → False).
Proof.
  split_and!; intros (x & Hx & H1) (y & Hy & H2); rewrite Hx in Hy; injection Hy as <-; destruct (ev x); done.
Qed.

Lemma of_kind_any K st e : of_kind K st e → of_kind (λ _, True) st e.
Proof. intros (x & Hx & _). by exists x. Qed.

Lemma steps_cwf n st st' : steps cstep n st st' → wf st → wf st'.
Proof. apply steps_ind_inv. apply cstep_wf. Qed.

(** A descriptor event keeps its descriptor, so it was due from the start. *)
Lemma fd_called_due s a st0 n0 st st' n e :
  steps cstep n0 st0 st → of_kind is_fd st0 e →
  called_due (λ _ _, fd_due s a) e st st' n → of_kind (fd_due s a) st0 e.
Proof.
  clear clock action.
  intros H0 (x0 & Hx0 & Hk0) (n1 & n2 & stv & x & k' & _ & H1 & _ & Hx & _ & Hd). exists x0. split; [done|].
  assert (stable (λ v, v = ev x0)) as Hst.
  { intros v v' Hv ->. destruct (ev x0); [done..|]. by cbn in Hv. }
  destruct (steps_kind _ _ _ _ e Hst (steps_trans _ _ _ _ _ _ H0 H1)) as (y & Hy & <-); [by exists x0|].
  by simplify_eq.
Qed.

(** A timer that no operation of the iteration named was due as it stood. *)
Lemma time_called_due st st' n e :
  of_kind is_time st e → called_due time_was_due e st st' n →
  (∃ en, en ∈ n ∧ names e en) ∨
  ∃ x k, events st !! e = Some x ∧ (clock_reads st <= k)%nat ∧ time_was_due k (clock_reads st') (ev x).
Proof.
  clear action.
  intros (y & Hy & _) (n1 & n2 & stv & x & k' & -> & H1 & Hc & Hx & Hk' & Hd).
  destruct (decide (Exists (names e) n1)) as [Hex|Hex].
  { left. apply Exists_exists in Hex as (en & ? & ?). exists en. rewrite elem_of_app. auto. }
  right. exists x, (clock_reads stv). split; [|split; [by eapply steps_cclock|]].
  - rewrite (steps_frame _ _ _ e y H1 Hc) in Hx; [by rewrite Hy, Hx| |done].
    intros en Hi Hn. apply Hex, Exists_exists. eauto.
  - unfold time_was_due in *. destruct (ev x); [done| |done]. split; [lia|]. by destruct Hd.
Qed.

Lemma fd_walk s a st0 n0 st :
  callbacks_ok → wf st0 → end_loop st0 = false → steps cstep n0 st0 st →
  ∃ st' n, (if decide (0 < ret a) then pass (visit_fd clock action s a) (fd_event_list st) st else Ok st) = Ok st' ∧
    steps cstep (n ++ n0) st0 st' ∧ steps cstep n st st' ∧ NoDup (calls n) ∧
    (∀ e, e ∈ calls n → of_kind is_fd st' e ∧ e ∈ fd_event_list st0 ∧ 0 < ret a ∧ of_kind (fd_due s a) st0 e) ∧
    (0 < ret a → ∀ e, e ∈ fd_event_list st0 → flag st0 e EVENT_F_RUNNING = true →
      of_kind (fd_due s a) st0 e → attended removes e (n ++ n0)).
Proof.
  intros Hcb Hwf HE H0. pose proof (steps_cwf _ _ _ H0 Hwf) as Hwf1.
  destruct (lists_grow _ _ _ H0) as (_ & _ & G & _). case_decide as Hr.
  - destruct (walk_spec is_fd (fd_due s a) (λ _ _, fd_due s a) removes (visit_fd clock action s a) st0 n0 st
      (fd_event_list st) (fd_event_list st0)) as (st' & n & E & H & S & N & C & D);
      [done..|apply is_fd_stable|by apply visit_fd_ok|by apply due_kept_stable, fd_due_stable|by apply wf_fd
      |by apply wf_fd_nodup|done|].
    exists st', n. split_and!; [done..| |by auto]. intros e He. destruct (C e He) as (Hk & Hi & Hw).
    split_and!; [done..|]. eapply fd_called_due; [exact H0| |exact Hw].
    eapply Forall_forall; [by apply wf_fd|done].
  - exists st, []. split_and!; [done|done|apply steps_refl|constructor|set_solver|done].
Qed.

(** What the part of an iteration after select does. *)
Lemma loop_dispatch_spec s a st :
  callbacks_ok → wf st → end_loop st = false →
  ∃ st' new, loop_dispatch clock action s a st = Ok st' ∧ steps lstep new st st' ∧
    NoDup (calls new) ∧
    (∀ e, e ∈ calls new → flag st e EVENT_F_RUNNING = true ∧
      (e ∈ always_event_list st ∨
       e ∈ fd_event_list st ∧ 0 < ret a ∧ of_kind (fd_due s a) st e ∨
       e ∈ time_event_list st ∧
         ((∃ en, en ∈ new ∧ names e en) ∨
          ∃ x k, events st !! e = Some x ∧ (clock_reads st <= k)%nat ∧
            time_was_due k (clock_reads st') (ev x)))) ∧
    (∀ e, e ∈ time_event_list st → flag st e EVENT_F_RUNNING = true →
      of_kind (time_due (clock_reads st)) st e → attended names e new) ∧
    (∀ e, e ∈ always_event_list st → flag st e EVENT_F_RUNNING = true → attended removes e new) ∧
    (∀ e, e ∈ fd_event_list st → flag st e EVENT_F_RUNNING = true → 0 < ret a →
      of_kind (fd_due s a) st e → attended removes e new) ∧
    (∀ e, e ∈ time_event_list st' ++ fd_event_list st' ++ always_event_list st' →
      flag st' e EVENT_F_REMOVE = false).
Proof.
  intros Hcb Hwf HE.
  destruct (walk_spec is_time (time_due (clock_reads st)) time_was_due names (visit_time clock action) st [] st
    (time_event_list st) (time_event_list st)) as (st1 & n1 & E1 & H1 & _ & N1 & C1 & D1);
    [done|apply steps_refl|done|apply is_time_stable|by apply visit_time_ok|apply due_kept_names|by apply wf_time
    |by apply wf_time_nodup|apply grows_refl|].
  rewrite app_nil_r in *. pose proof (steps_cwf _ _ _ H1 Hwf) as Hwf1.
  destruct (lists_grow _ _ _ H1) as (_ & _ & _ & G1).
  destruct (walk_spec is_none (λ _, True) (λ _ _ _, True) removes (visit_always clock action) st n1 st1
    (always_event_list st1) (always_event_list st)) as (st2 & n2 & E2 & H2 & S2 & N2 & C2 & D2);
    [done..|apply is_none_stable|by apply visit_always_ok|by apply due_kept_stable|by apply wf_always
    |by apply wf_always_nodup|done|].
  destruct (fd_walk s a st (n2 ++ n1) st2 Hcb Hwf HE H2) as (st3 & n3 & E3 & H3 & S3 & N3 & C3 & D3).
  assert (∀ e, e ∈ calls n1 → of_kind is_time st3 e) as K1.
  { intros e [Hk _]%C1. eapply steps_kind; [apply is_time_stable|eapply steps_trans; [exact S2|exact S3]|done]. }
  assert (∀ e, e ∈ calls n2 → of_kind is_none st3 e) as K2.
  { intros e [Hk _]%C2. by eapply steps_kind; [apply is_none_stable|exact S3|]. }
  eexists _, (n3 ++ n2 ++ n1). split_and!.
  - unfold loop_dispatch. rewrite E1, res_bind_ok, E2, res_bind_ok, E3, res_bind_ok. reflexivity.
  - apply (steps_trans lstep _ [] st st3); [|apply steps_one, LsStrip].
    eapply steps_mono; [|exact H3]. apply LsDispatch.
  - rewrite !calls_app, !NoDup_app. split_and!; [done| |done| |done].
    + intros e [Hf _]%C3 [Hc|Hc]%elem_of_app; destruct (kinds_apart st3 e) as (X1 & _ & X3); eauto.
    + intros e Hc2 Hc1. destruct (kinds_apart st3 e) as (_ & X2 & _). eauto.
  - intros e He. split; [by eapply called_running|]. rewrite !calls_app, !elem_of_app in He.
    destruct He as [(_ & ? & ?)%C3|[(_ & ? & _)%C2|(_ & Hi & Hw)%C1]]; [by auto..|]. right. right. split; [done|].
    destruct (time_called_due st st1 n1 e) as [(en & ? & ?)|(x & k & Hx & Hk & Hd)]; [|done| |].
    + eapply Forall_forall; [by apply wf_time|done].
    + left. exists en. rewrite !elem_of_app. auto.
    + right. exists x, k. split_and!; [done..|]. pose proof (steps_cclock _ _ _ S2). pose proof (steps_cclock _ _ _ S3).
      unfold time_was_due in *. destruct (ev x); [done| |done]. cbn. split; [lia|by destruct Hd].
  - intros e He Hr Hd. by apply attended_app_r, attended_app_r, D1.
  - intros e He Hr. apply attended_app_r, D2; [done..|]. apply (of_kind_any is_none).
    eapply Forall_forall; [by apply wf_always|done].
  - intros e He Hr Ha Hd. by apply D3.
  - intros e He. cbn in He. rewrite !elem_of_app in He.
    destruct He as [He|[He|He]]; by apply list_elem_of_filter in He as [He _].
Qed.

Lemma lstep_clock n st st' : lstep n st st' → (clock_reads st <= clock_reads st')%nat.
Proof. intros [? ? ? H| | |]; [by eapply cstep_clock|cbn; lia..]. Qed.

Lemma steps_clock n st st' : steps lstep n st st' → (clock_reads st <= clock_reads st')%nat.
Proof. induction 1 as [|n1 n2 s1 s2 s3 H1%lstep_clock _ IH]; lia. Qed.

Lemma prepared_due l st st' e :
  prepared l st st' → of_kind (time_due (clock_reads st)) st e → of_kind (time_due (clock_reads st')) st' e.
Proof.
  intros Hp (x & Hx & Hd). eexists. split; [by apply (prep_events _ _ _ Hp)|].
  assert (ev (if decide (e ∈ l) then mark_running x else x) = ev x) as -> by (case_decide; [apply mark_running_spec|done]).
  destruct (ev x); [done| |done]. intros k Hk. apply Hd. pose proof (steps_clock _ _ _ (prep_steps _ _ _ Hp)). lia.
Qed.

Definition listed (st : loop) : list nat := (time_event_list st ++ always_event_list st) ++ fd_event_list st.

Lemma listed_lt st e : wf st → e ∈ listed st → (e < length (events st))%nat.
Proof.
  intros [H1 H2 H3 _ _ _]. rewrite Forall_forall in H1, H2, H3. unfold listed. rewrite !elem_of_app.
  intros [[He|He]|He]; [apply H1 in He|apply H3 in He|apply H2 in He]; by eapply of_kind_lt.
Qed.

(** After the preparation the running events are the enabled ones. *)
Lemma prepared_running st st' e :
  wf st → prepared (listed st) st st' → e ∈ listed st → flag st' e EVENT_F_RUNNING = flag st e EVENT_F_ENABLED.
Proof.
  intros Hwf Hp He. pose proof (listed_lt _ _ Hwf He) as [x Hx]%lookup_lt_is_Some.
  unfold flag. rewrite (prep_events _ _ _ Hp _ _ Hx), Hx, decide_True by done. apply mark_running_spec.
Qed.

(** The descriptors that select reports. *)
Definition reported (a : answer) (v : ev_union) : Prop :=
  match v with EvFd fd w => (if w then ready_w a fd else ready_r a fd) = true | _ => False end.

Lemma due_reported s a v : fd_due s a v → reported a v.
Proof.
  destruct v as [| |fd w]; [done..|]. cbn. unfold FD_ISSET. destruct w; intros [_ ?]%andb_true_iff; done.
Qed.

Lemma reported_due s a v : in_sets s v → reported a v → fd_due s a v.
Proof.
  destruct v as [| |fd w]; [done..|]. intros [Hi _] Hr. cbn in *. unfold FD_ISSET.
  destruct w; rewrite bool_decide_true by done; by rewrite Hr.
Qed.

(** What one iteration guarantees. *)
Lemma loop_once_spec a st :
  callbacks_ok → wf st → end_loop st = false →
  ∃ st' new, loop_once clock action a st = Ok st' ∧ steps lstep new st st' ∧ NoDup (calls new) ∧
    (∀ e, e ∈ calls new → enabled st e ∧
      (e ∈ always_event_list st ∨
       e ∈ fd_event_list st ∧ 0 < ret a ∧ of_kind (reported a) st e ∨
       e ∈ time_event_list st ∧
         ((∃ en, en ∈ new ∧ names e en) ∨
          ∃ fire k, enabled_timer st e fire ∧ (clock_reads st <= k < clock_reads st')%nat ∧
            - time_diff fire (clock k) < 5))) ∧
    (∀ e, e ∈ time_event_list st → enabled st e →
      of_kind (time_due (clock_reads st)) st e → attended names e new) ∧
    (∀ e, e ∈ always_event_list st → enabled st e → attended removes e new) ∧
    (∀ e, e ∈ fd_event_list st → enabled st e → 0 < ret a →
      of_kind (reported a) st e → attended removes e new) ∧
    (∀ e, e ∈ listed st' → flag st' e EVENT_F_REMOVE = false).
Proof.
  intros Hcb Hwf HE. destruct (loop_prepare_spec st Hwf) as (st1 & t1 & t & s & E1 & P & _ & _ & F).
  pose proof (prepared_running st st1 ) as PR. pose proof (prep_steps _ _ _ P) as S1.
  destruct (prep_lists _ _ _ P) as (L1 & L2 & L3).
  destruct (loop_dispatch_spec s a st1 Hcb (steps_wf _ _ _ S1 Hwf)) as (st' & new & E2 & S2 & N & C & T & A & D & R).
  { by rewrite (prep_end _ _ _ P). }
  rewrite L1, L2, L3 in *. exists st', new. split_and!.
  - unfold loop_once. by rewrite E1, res_bind_ok.
  - rewrite <- (app_nil_r new). by eapply steps_trans.
  - done.
  - intros e He. destruct (C e He) as [Hr Hi].
    assert (e ∈ listed st) as Hl by (unfold listed; set_solver).
    assert (enabled st e) as Hen by (unfold enabled; by rewrite <- PR). split; [done|].
    pose proof (listed_lt _ _ Hwf Hl) as Hlt.
    destruct Hi as [?|[(? & ? & x & Hx & Hd)|(? & [?|(x & k & Hx & Hk & Hd)])]]; [by left|right; left|by auto|right; right];
      destruct (prepared_event _ _ _ _ _ P Hlt Hx) as (x0 & Hx0 & Ev & _ & _); rewrite Ev in Hd.
    + split_and!; [done..|]. exists x0. split; [done|by eapply due_reported].
    + split; [done|]. right. unfold time_was_due in Hd. destruct (ev x0) as [|fire ival|] eqn:Hv; [done| |done].
      exists fire, k. pose proof (steps_clock _ _ _ S1). split_and!; [|lia|lia|by destruct Hd].
      exists x0, ival. split_and!; [done| |done]. unfold enabled, flag in Hen. by rewrite Hx0 in Hen.
  - intros e Hi Hen Hd. apply T; [done| |by eapply prepared_due]. rewrite PR by (unfold listed; set_solver). done.
  - intros e Hi Hen. apply A; [done|]. rewrite PR by (unfold listed; set_solver). done.
  - intros e Hi Hen Ha (x & Hx & Hd). apply D; [done| |done|].
    + rewrite PR by (unfold listed; set_solver). done.
    + eapply prepared_kind; [apply fd_due_stable|exact P|]. destruct (F e Hi Hen) as (x' & Hx' & Hin). assert (x' = x) as -> by congruence.
      exists x. split; [done|]. by apply reported_due.
  - intros e He. apply R. unfold listed in He. rewrite !elem_of_app in *. tauto.
Qed.

Lemma iterate_spec single answers st :
  callbacks_ok → wf st → end_loop st = false →
  ∃ fin st' new, iterate clock action single answers st = Ok (fin, st') ∧ steps lstep new st st' ∧
    (fin = false → end_loop st' = false).
Proof.
  intros Hcb. revert st. induction answers as [|a answers IH]; intros st Hwf HE.
  { exists false, st, []. split_and!; [done|apply steps_refl|done]. }
  destruct (loop_once_spec a st Hcb Hwf HE) as (st1 & n1 & E1 & S1 & _).
  cbn [iterate]. rewrite E1, res_bind_ok. destruct (negb (end_loop st1) && negb single) eqn:Ec.
  - b2p. destruct (IH st1) as (fin & st' & n2 & -> & S2 & Hf); [by eapply steps_wf|done|].
    exists fin, st', (n2 ++ n1). split_and!; [done|by eapply steps_trans|done].
  - by exists true, st1, n1.
Qed.

(** ** Runs *)

(** An event that is neither running nor enabled. *)
Definition quiet (st : loop) (e : nat) : Prop :=
  ∃ x, events st !! e = Some x ∧ has x EVENT_F_RUNNING = false ∧ has x EVENT_F_ENABLED = false.

Definition revives (e : nat) (en : entry) : Prop :=
  (∃ tr, en = Did (OpResched e tr)) ∨ en = Did (OpEnabled e true).

Lemma effect_quiet o st st' e :
  effect o st st' → ¬ revives e (Did o) → quiet st e → quiet st' e.
Proof.
  intros [e' x x' k Ht Hx (_ & _ & Hc) _|z K t f a k _ _ _ _ _ _|_] Hn (y & Hy & Hr & He).
  - destruct (decide (e' = e)) as [->|Hne].
    + simplify_eq. exists x'. cbn. rewrite list_lookup_insert_eq by (by eapply lookup_lt_Some). split; [done|].
      destruct o as [| | | |? tr|?|? ms|? []|]; cbn in Ht; simplify_eq;
        [exfalso; apply Hn; left; by eexists|done|by destruct Hc as [-> ->]|exfalso; apply Hn; by right|by destruct Hc as [-> ->]].
    + exists y. cbn. by rewrite list_lookup_insert_ne.
  - exists y. cbn. split; [by apply lookup_app_l_Some|done].
  - by exists y.
Qed.

Lemma lstep_quiet n st st' e :
  lstep n st st' → (∀ en, en ∈ n → ¬ revives e en) → quiet st e → quiet st' e ∧ e ∉ calls n.
Proof.
  clear clock action.
  intros [m s s' [s0|o s0 s0' He|e' x x' k s0 Hx Hr _ _ _]|s|e' x s Hx|s] Hn Hq.
  - split; [done|set_solver].
  - split; [|set_solver]. eapply effect_quiet; [done|apply Hn; set_solver|done].
  - destruct Hq as (y & Hy & HR & HE). assert (e ≠ e') as Hne by (intros ->; congruence). split; [|cbn; set_solver].
    exists y. cbn. by rewrite list_lookup_insert_ne.
  - split; [done|set_solver].
  - split; [|set_solver]. destruct Hq as (y & Hy & HR & HE). destruct (decide (e = e')) as [->|Hne].
    + simplify_eq. exists (mark_running x). cbn. rewrite list_lookup_insert_eq by (by eapply lookup_lt_Some).
      destruct (mark_running_spec x) as (_ & -> & -> & _). done.
    + exists y. cbn. by rewrite list_lookup_insert_ne.
  - split; [done|set_solver].
Qed.

Lemma steps_quiet n st st' e :
  steps lstep n st st' → (∀ en, en ∈ n → ¬ revives e en) → quiet st e → quiet st' e ∧ e ∉ calls n.
Proof.
  clear clock action.
  induction 1 as [|n1 n2 s1 s2 s3 H1 _ IH]; intros Hn Hq; [split; [done|set_solver]|].
  destruct (lstep_quiet _ _ _ e H1) as [Hq1 Hc1]; [set_solver|done|].
  destruct IH as [Hq2 Hc2]; [set_solver|done|]. rewrite calls_app. set_solver.
Qed.

Lemma lstep_short n st st' : lstep n st st' → (length n <= 1)%nat.
Proof. intros [? ? ? []| | |]; cbn; lia. Qed.

(** Where an entry is in the log of a run: the state right after it. *)
Lemma steps_split n st st' b en a :
  steps lstep n st st' → n = b ++ en :: a →
  ∃ s1 s2, lstep [en] s1 s2 ∧ steps lstep b s2 st'.
Proof.
  intros H. revert b a. induction H as [|n1 n2 s1 s2 s3 H1 H2 IH]; intros b a E; [by destruct b|].
  pose proof (lstep_short _ _ _ H1) as Hl. destruct n1 as [|e1 [|]]; [| |cbn in Hl; lia].
  - rewrite app_nil_r in E. by apply (IH b a).
  - destruct (decide (a = [])) as [->|Ha].
    + apply app_inj_tail in E as [-> ->]. by exists s1, s2.
    + destruct (exists_last Ha) as (a' & z & ->). rewrite app_comm_cons, (assoc_L (++)) in E.
      apply app_inj_tail in E as [E _]. by apply (IH b a').
Qed.

Lemma removed_quiet e st st' : lstep [Did (OpRemove e)] st st' → quiet st' e.
Proof.
  intros H. inversion H as [? ? ? Hc| | |]; subst. inversion Hc as [|? ? ? He|]; subst.
  inversion He as [e' x x' k Ht Hx (_ & _ & Hr) _| |]; subst; [|done|done]. injection Ht as ->.
  exists x'. cbn. by rewrite list_lookup_insert_eq by (by eapply lookup_lt_Some).
Qed.

Lemma exited_silent n st st' : steps lstep n st st' → end_loop st = true → end_loop st' = true ∧ calls n = [].
Proof.
  induction 1 as [|n1 n2 s1 s2 s3 H1 _ IH]; intros HE; [done|].
  assert (end_loop s2 = true ∧ calls n1 = []) as [H2 C1].
  { destruct H1 as [? ? ? [|? ? ? []|]| | |]; try done. cbn in *. congruence. }
  destruct (IH H2) as [? C2]. split; [done|]. by rewrite calls_app, C1, C2.
Qed.

Lemma exit_ends st st' : lstep [Did OpExit] st st' → end_loop st' = true.
Proof.
  intros H. inversion H as [? ? ? Hc| | |]; subst. inversion Hc as [|? ? ? He|]; subst.
  by inversion He.
Qed.
End Steps.

(** ** Times *)

Definition usecs (t : timeval) : Z := tv_sec t * 1000000 + tv_usec t.

(** A time as gettimeofday gives it, before the end of the 32-bit count. *)
Definition time_ok (t : timeval) : Prop :=
  0 ≤ tv_sec t ∧ 0 ≤ tv_usec t < 1000000 ∧ usecs t < 2147483648 * 1000000.

Lemma time_add_spec t msec :
  time_ok t → 0 ≤ msec → usecs t + msec * 1000 < 2147483648 * 1000000 →
  usecs (time_add t msec) = usecs t + msec * 1000 ∧ time_ok (time_add t msec).
Proof.
  unfold time_ok, usecs, time_add. intros (Hs & Hu & _) Hm Hb.
  rewrite Z.quot_div_nonneg, Z.rem_mod_nonneg by lia.
  pose proof (Z.div_mod msec 1000 ltac:(lia)). pose proof (Z.mod_pos_bound msec 1000 ltac:(lia)).
  pose proof (Z.div_pos msec 1000 Hm ltac:(lia)).
  rewrite (s32_small (tv_sec t + msec `div` 1000)) by (unfold int_range; lia).
  case_decide; cbn; rewrite ?(s32_small (tv_sec t + msec `div` 1000 + 1)) by (unfold int_range; lia); lia.
Qed.

(** Within the range of a 32-bit number of microseconds, time_diff is the
    difference rounded to milliseconds. *)
Lemma time_diff_spec s e :
  int_range (usecs e - usecs s + 500) → time_diff s e = (usecs e - usecs s + 500) `quot` 1000.
Proof. intros H. unfold time_diff. rewrite s32_small; unfold usecs in *; [|unfold int_range in *; lia]. f_equal. lia. Qed.

Lemma time_left_nonneg fire now : 0 ≤ time_left fire now.
Proof. unfold time_left. case_decide; lia. Qed.

(** What select is told never reaches past the timer. *)
Lemma time_left_spec fire now :
  int_range (usecs now - usecs fire + 500) →
  0 ≤ time_left fire now ∧
  (time_left fire now = 0 ∨ usecs now + time_left fire now * 1000 ≤ usecs fire) ∧
  (time_left fire now = 0 → usecs fire < usecs now + 5500).
Proof.
  intros H. unfold time_left. rewrite time_diff_spec by done.
  remember (usecs now - usecs fire + 500) as d eqn:Ed.
  assert (d `quot` 1000 * 1000 + d `rem` 1000 = d) as Hd by (pose proof (Z.quot_rem' d 1000); lia).
  assert (-1000 < d `rem` 1000 < 1000 ∧ (0 ≤ d → 0 ≤ d `rem` 1000) ∧ (d ≤ 0 → d `rem` 1000 ≤ 0)) as (Hr & H0 & H1).
  { pose proof (Z.rem_bound_abs d 1000 ltac:(lia)). split; [lia|]. split; intros; [by apply Z.rem_nonneg|by apply Z.rem_nonpos]. }
  case_decide; lia.
Qed.

(** Whether a periodic timer is where its count of calls puts it. *)
Definition on_schedule (e : nat) (fire0 : timeval) (ival : Z) (n : nat) (st : loop) : Prop :=
  ∃ x fire, events st !! e = Some x ∧ ev x = EvTime fire ival ∧ has x EVENT_F_ENABLED = true ∧
    has x EVENT_F_ONESHOT = false ∧ time_ok fire ∧ usecs fire = usecs fire0 + ival * 1000 * Z.of_nat n.

(** How often an event was called. *)
Definition count_calls (e : nat) (l : list entry) : nat := length (filter (λ e', e' = e) (calls l)).

Lemma count_calls_app e l1 l2 : count_calls e (l1 ++ l2) = (count_calls e l1 + count_calls e l2)%nat.
Proof. unfold count_calls. by rewrite calls_app, filter_app, length_app. Qed.

Lemma lstep_on_schedule n st st' e fire0 ival m :
  lstep n st st' → (∀ en, en ∈ n → ¬ names e en) → 0 ≤ ival →
  usecs fire0 + ival * 1000 * Z.of_nat (count_calls e n + m) < 2147483648 * 1000000 →
  on_schedule e fire0 ival m st → on_schedule e fire0 ival (count_calls e n + m) st'.
Proof.
  intros H Hn Hi Hb (x & fire & Hx & Hv & HE & HO & Hok & Hu).
  destruct H as [k s s' Hc|s|e' y s Hy|s].
  - destruct (decide (e ∈ calls k)) as [Hin|Hni].
    + destruct Hc as [s|o s s' He|e' y y' j s Hy HR _ (_ & _ & HO' & Hs) _]; [by apply elem_of_nil in Hin..|].
      cbn in Hin. apply list_elem_of_singleton in Hin as <-. assert (y = x) as -> by congruence.
      destruct (Hs HE) as [HE' Hf]. specialize (Hf fire ival Hv HO).
      assert (count_calls e [Called e] = 1%nat) as Hcc by (unfold count_calls; cbn; by rewrite decide_True).
      rewrite Hcc in *. destruct (time_add_spec fire ival Hok Hi) as [Hu' Hok']; [lia|].
      exists y', (time_add fire ival). cbn. rewrite list_lookup_insert_eq by (by eapply lookup_lt_Some).
      split_and!; [done|done|done|congruence|done|lia].
    + assert (count_calls e k = 0%nat) as ->.
      { unfold count_calls. destruct (filter _ (calls k)) as [|z r] eqn:Ef; [done|].
        assert (z ∈ filter (λ e', e' = e) (calls k)) as [-> ?]%list_elem_of_filter by (rewrite Ef; set_solver). done. }
      exists x, fire. split_and!; [|done..]. by eapply cstep_frame.
  - by exists x, fire.
  - destruct (decide (e = e')) as [->|Hne].
    + assert (y = x) as -> by congruence. exists (mark_running x), fire. cbn.
      rewrite list_lookup_insert_eq by (by eapply lookup_lt_Some).
      destruct (mark_running_spec x) as (-> & _ & -> & -> & _). done.
    + exists x, fire. cbn. by rewrite list_lookup_insert_ne.
  - by exists x, fire.
Qed.

Lemma steps_on_schedule n st st' e fire0 ival m :
  steps lstep n st st' → (∀ en, en ∈ n → ¬ names e en) → 0 ≤ ival →
  usecs fire0 + ival * 1000 * Z.of_nat (count_calls e n + m) < 2147483648 * 1000000 →
  on_schedule e fire0 ival m st → on_schedule e fire0 ival (count_calls e n + m) st'.
Proof.
  intros H. revert m. induction H as [|n1 n2 s1 s2 s3 H1 _ IH]; intros m Hn Hi Hb Hs; [done|].
  rewrite count_calls_app in *. rewrite <- Nat.add_assoc. apply IH; [set_solver|done|lia|].
  eapply lstep_on_schedule; [exact H1|set_solver|done|nia|done].
Qed.

(** A timer more than 2147 seconds away is taken for one that is due: the
    microseconds overflow the 32 bits of time_diff, and select does not wait. *)
Lemma long_timer_not_waited_for fire now :
  2147484148 < usecs fire - usecs now < 4294967296 → time_left fire now = 0.
Proof.
  intros H. unfold time_left, time_diff, usecs in *.
  remember (tv_sec now * 1000000 + tv_usec now - (tv_sec fire * 1000000 + tv_usec fire) + 500) as d eqn:Ed.
  replace ((tv_sec now - tv_sec fire) * 1000000 + tv_usec now - tv_usec fire + 500) with d by lia.
  assert (s32 d = d + 4294967296) as ->.
  { unfold s32. replace (d + 2147483648) with (d + 2147483648 + 4294967296 + (-1) * 4294967296) by lia.
    rewrite Z_mod_plus_full, Z.mod_small; lia. }
  rewrite decide_True; [done|]. pose proof (Z.quot_pos (d + 4294967296) 1000). lia.
Qed.

(** Disabling a timer does not stop it in the iteration in which it is due: only
    the flag ENABLED is cleared, so it is still served, and serving it enables it
    again. *)
Lemma disabled_timer_enabled_again clock e tr st x fire ival :
  events st !! e = Some x → ev x = EvTime fire ival →
  ∃ st1 st2 x2, set_event_enabled e false st = Ok st1 ∧ resched_event clock e tr st1 = Ok st2 ∧
    events st2 !! e = Some x2 ∧ has x2 EVENT_F_ENABLED = true ∧
    has x2 EVENT_F_RUNNING = has x EVENT_F_RUNNING.
Proof.
  intros Hx Hv. pose proof (lookup_lt_Some _ _ _ Hx) as Hlt.
  set (st1 := put_event e (clear_bit EVENT_F_ENABLED x) st).
  destruct (resched_event_spec clock e tr st1 (clear_bit EVENT_F_ENABLED x) fire ival) as (fire' & k & E & _ & _);
    [by cbn; apply list_lookup_insert_eq|done|].
  eexists st1, _, _. split_and!; [by unfold set_event_enabled, get_event; rewrite Hx|exact E| | |].
  - cbn. apply list_lookup_insert_eq. by rewrite length_insert.
  - by bits.
  - by bits.
Qed.

Lemma enabled_is_timer st e :
  wf st → e ∈ time_event_list st → enabled st e → ∃ fire, enabled_timer st e fire.
Proof.
  intros Hwf He Hen. destruct (proj1 (Forall_forall _ _) (wf_time _ Hwf) e He) as (x & Hx & Hk).
  unfold enabled, flag in Hen. rewrite Hx in Hen. destruct (ev x) as [|fire ival|] eqn:Hv; [done| |done].
  by exists fire, x, ival.
Qed.

(** ** The claims *)

(** The loop as it is when the program starts. *)
Definition start_loop : loop := mkLoop [] [] [] [] false 0 [].

Lemma start_loop_wf : wf start_loop.
Proof. split; constructor. Qed.

(** A concrete loop: a timer whose callback removes the event of descriptor 3,
    that event, and an always event. *)
Definition demo_clock (k : nat) : timeval := mkTime 1000 0.
Definition demo_action (f d : Z) (st : loop) : list op :=
  if decide (f = 7 ∧ (1 < length (events st))%nat) then [OpRemove 1] else [].
Definition demo_loop : loop :=
  match run_ops demo_clock [OpTimer 2 0 7 0; OpFd 3 false 0 5 0; OpAlways 0 5 0] start_loop with
  | Ok st => st | Fault _ => start_loop end.
Definition demo_answer : answer := mkAnswer 1 (λ fd, fd =? 3) (λ _, false).

Lemma demo_callbacks_ok : callbacks_ok demo_clock demo_action.
Proof.
  intros f d st _. unfold demo_action. case_decide as H; [|done]. split; [|done].
  destruct H as [_ [x Hx]%lookup_lt_is_Some]. by exists x.
Qed.

Lemma demo_loop_wf : wf demo_loop.
Proof.
  destruct (run_ops_steps demo_clock [OpTimer 2 0 7 0; OpFd 3 false 0 5 0; OpAlways 0 5 0] start_loop)
    as (st' & new & E & Hs & _).
  - cbn. split; [done|]. intros ? _. split; [by split|]. intros ? _. by split.
  - unfold demo_loop. rewrite E. by eapply steps_cwf, start_loop_wf.
Qed.

(** C4. One iteration of the event loop returns and keeps the lists well
    formed. It calls an event at most once, and only events that were in the
    lists and enabled when it started and that are due: always events,
    descriptor events that select reports, and timers whose time is less than
    five milliseconds away at a reading [k] of the clock in this iteration (or
    on which a callback of the iteration acted). It calls every such event that
    is due, a timer at every later reading of the clock, unless a callback of
    the iteration removes it (or, for a timer, acts on it) or ends the loop; and
    no event that is still in a list afterwards is marked for removal. *)
Theorem event_iteration clock action a st :
  callbacks_ok clock action → wf st → end_loop st = false →
  ∃ st' new, loop_once clock action a st = Ok st' ∧ log st' = new ++ log st ∧ wf st' ∧
    NoDup (calls new) ∧
    (∀ e, e ∈ calls new → enabled st e ∧
      (e ∈ always_event_list st ∨
       e ∈ fd_event_list st ∧ 0 < ret a ∧ of_kind (reported a) st e ∨
       e ∈ time_event_list st ∧
         ((∃ en, en ∈ new ∧ names e en) ∨
          ∃ fire k, enabled_timer st e fire ∧ (clock_reads st <= k < clock_reads st')%nat ∧
            - time_diff fire (clock k) < 5))) ∧
    (∀ e, e ∈ time_event_list st → enabled st e →
      of_kind (time_due clock (clock_reads st)) st e → attended names e new) ∧
    (∀ e, e ∈ always_event_list st → enabled st e → attended removes e new) ∧
    (∀ e, e ∈ fd_event_list st → enabled st e → 0 < ret a →
      of_kind (reported a) st e → attended removes e new) ∧
    (∀ e, e ∈ listed st' → flag st' e EVENT_F_REMOVE = false).
Proof.
  intros Hcb Hwf HE. destruct (loop_once_spec clock action a st Hcb Hwf HE) as (st' & new & E & S & H).
  exists st', new. split_and!; [done|by apply steps_log|by eapply steps_wf|apply H..].
Qed.

Lemma event_iteration_witness :
  ∃ st' new, loop_once demo_clock demo_action demo_answer demo_loop = Ok st' ∧ log st' = new ++ log demo_loop ∧
    attended removes 2%nat new ∧ attended removes 1%nat new ∧ attended names 0%nat new.
Proof.
  destruct (event_iteration demo_clock demo_action demo_answer demo_loop demo_callbacks_ok demo_loop_wf eq_refl)
    as (st' & new & E & El & _ & _ & _ & HT & HA & HF & _).
  exists st', new. split_and!; [exact E|exact El| | |].
  - apply HA; [apply (bool_decide_unpack _); vm_compute; exact I|vm_compute; reflexivity].
  - apply HF; [apply (bool_decide_unpack _); vm_compute; exact I|vm_compute; reflexivity|vm_compute; reflexivity|].
    eexists. split; [vm_compute; reflexivity|vm_compute; reflexivity].
  - apply HT; [apply (bool_decide_unpack _); vm_compute; exact I|vm_compute; reflexivity|].
    eexists. split; [vm_compute; reflexivity|]. intros k _. vm_compute. reflexivity.
Defined.

(** C13. In every run of the event loop, whatever the clock, select and the
    callbacks do: once a callback has removed one of the loop's own events, a
    timer, a descriptor or an always event, it is never called again unless a
    callback reschedules or enables it; once a callback has called
    exit_event_loop no other callback runs and the loop returns. The listeners
    of software queues are events of another kind, that a queue calls: of them
    this does not hold (SoftQueue, [removed_listener_called]). *)
Theorem removed_never_called clock action single answers st :
  callbacks_ok clock action → wf st →
  ∃ fin st' new, event_loop clock action single answers st = Ok (fin, st') ∧ log st' = new ++ log st ∧
    (∀ e b a, new = b ++ Did (OpRemove e) :: a → (∀ en, en ∈ b → ¬ revives e en) → e ∉ calls b) ∧
    (∀ b a, new = b ++ Did OpExit :: a → calls b = [] ∧ fin = true).
Proof.
  intros Hcb Hwf. destruct (iterate_spec clock action single answers (with_end_loop false st) Hcb)
    as (fin & st' & new & E & S & Hf); [by apply (wf_same_lists st)|done|].
  exists fin, st', new. split_and!; [done|by apply steps_log in S| |].
  - intros e b a -> Hn. destruct (steps_split _ _ _ b _ a S eq_refl) as (s1 & s2 & H1 & H2).
    by destruct (steps_quiet _ _ _ e H2 Hn (removed_quiet _ _ _ H1)).
  - intros b a ->. destruct (steps_split _ _ _ b _ a S eq_refl) as (s1 & s2 & H1 & H2).
    destruct (exited_silent _ _ _ H2 (exit_ends _ _ H1)) as [HE Hc]. split; [done|].
    destruct fin; [done|]. rewrite Hf in HE by done. done.
Qed.

Lemma removed_never_called_witness :
  ∃ fin st' new, event_loop demo_clock demo_action false [demo_answer; demo_answer] demo_loop = Ok (fin, st') ∧
    log st' = new ++ log demo_loop ∧ calls new = [2; 0; 2; 0]%nat ∧
    ∀ b a, new = b ++ Did (OpRemove 1) :: a → (∀ en, en ∈ b → ¬ revives 1 en) → 1%nat ∉ calls b.
Proof.
  destruct (removed_never_called demo_clock demo_action false [demo_answer; demo_answer] demo_loop
    demo_callbacks_ok demo_loop_wf) as (fin & st' & new & E & El & HR & _).
  exists fin, st', new. split_and!; [exact E|exact El| |intros b a; apply HR].
  vm_compute in E. injection E as <- <-. vm_compute (log _) in El.
  apply (app_inv_tail _ [_; _; _; _; _; _] new) in El. by subst new.
Defined.

(** C14. A periodic timer does not drift: over any run in which no callback acts
    on it, its next time is its first time plus its interval times the number of
    its calls, however late the calls were, and it stays enabled. *)
Theorem timer_no_drift clock action single answers st e fire ival :
  callbacks_ok clock action → wf st → 0 ≤ ival →
  (∃ x, events st !! e = Some x ∧ ev x = EvTime fire ival ∧ has x EVENT_F_ENABLED = true ∧
     has x EVENT_F_ONESHOT = false ∧ time_ok fire) →
  ∃ fin st' new, event_loop clock action single answers st = Ok (fin, st') ∧ log st' = new ++ log st ∧
    ((∀ en, en ∈ new → ¬ names e en) →
     usecs fire + ival * 1000 * Z.of_nat (count_calls e new) < 2147483648 * 1000000 →
     ∃ x' fire', events st' !! e = Some x' ∧ ev x' = EvTime fire' ival ∧ has x' EVENT_F_ENABLED = true ∧
       time_ok fire' ∧ usecs fire' = usecs fire + ival * 1000 * Z.of_nat (count_calls e new)).
Proof.
  intros Hcb Hwf Hi (x & Hx & Hv & HE & HO & Hok).
  destruct (iterate_spec clock action single answers (with_end_loop false st) Hcb)
    as (fin & st' & new & E & S & Hf); [by apply (wf_same_lists st)|done|].
  exists fin, st', new. split_and!; [done|by apply steps_log in S|]. intros Hn Hb.
  destruct (steps_on_schedule _ _ _ e fire ival 0 S Hn Hi) as (x' & fire' & H1 & H2 & H3 & _ & H5 & H6).
  - by rewrite Nat.add_0_r.
  - exists x, fire. split_and!; [done..|lia].
  - exists x', fire'. rewrite Nat.add_0_r in H6. done.
Qed.

Lemma timer_no_drift_witness :
  ∃ st' x' fire', event_loop demo_clock demo_action false [demo_answer; demo_answer] demo_loop = Ok (false, st') ∧
    events st' !! 0%nat = Some x' ∧ ev x' = EvTime fire' 2 ∧
    usecs fire' = usecs (mkTime 1000 2000) + 2 * 1000 * 2.
Proof.
  destruct (timer_no_drift demo_clock demo_action false [demo_answer; demo_answer] demo_loop 0 (mkTime 1000 2000) 2
    demo_callbacks_ok demo_loop_wf ltac:(lia)) as (fin & st' & new & E & El & HD).
  { eexists. split_and!; [vm_compute; reflexivity..|by vm_compute|by vm_compute|by vm_compute|by vm_compute]. }
  assert (new = [Called 2; Did (OpRemove 1); Called 0; Called 2; Did (OpRemove 1); Called 0]) as ->.
  { vm_compute in E. injection E as <- <-. vm_compute (log _) in El.
    by apply (app_inv_tail _ [_; _; _; _; _; _] new) in El. }
  destruct HD as (x' & fire' & H1 & H2 & _ & _ & H3); [|by vm_compute|].
  - intros en Hen (o & -> & Ho). rewrite !elem_of_cons, elem_of_nil in Hen. naive_solver.
  - exists st', x', fire'. split_and!; [|done|done|exact H3]. vm_compute in E. by injection E as <- <-.
Defined.

(** The timeout given to select: there is none exactly when no timer and no
    always event is enabled; it is zero when an always event is; and it never
    reaches past an enabled timer within 2147 seconds of the reading of the clock
    that it was computed from. The sets contain the descriptor of every enabled
    descriptor event, below the bound. *)
Lemma select_timeout clock st :
  wf st →
  ∃ st' t s, loop_prepare clock st = Ok (st', t, s) ∧
    (t = None ↔ (∀ e, e ∈ time_event_list st ++ always_event_list st → ¬ enabled st e)) ∧
    ((∃ e, e ∈ always_event_list st ∧ enabled st e) → t = Some 0) ∧
    (∀ n, t = Some n → 0 ≤ n) ∧
    (∀ e fire, e ∈ time_event_list st → enabled_timer st e fire →
      ∃ n k, t = Some n ∧ (clock_reads st <= k)%nat ∧
        (int_range (usecs (clock k) - usecs fire + 500) → n = 0 ∨ usecs (clock k) + n * 1000 ≤ usecs fire)) ∧
    (∀ e, e ∈ fd_event_list st → enabled st e → of_kind (in_sets s) st e).
Proof.
  intros Hwf. destruct (loop_prepare_spec clock st Hwf) as (st' & t1 & t & s & E & _ & (_ & L2 & L3) & Ht & F).
  exists st', t, s. split_and!; [done|split| | | |done].
  - intros -> e [He|He]%elem_of_app Hen.
    + destruct (enabled_is_timer st e Hwf He Hen) as [fire Hf]. destruct (L2 e fire He Hf) as (n & k & -> & _). by destruct Ht as [[]|[]].
    + destruct Ht as [[]|[_ Hno]]; [done|]. by eapply Hno.
  - intros Hno. destruct Ht as [[_ (e & He & Hen)]|[-> _]]; [exfalso; eapply Hno; [|exact Hen]; set_solver|].
    destruct t1 as [n|]; [|done]. destruct (L3 n eq_refl) as [|(e & fire & k & He & (x & ival & Hx & HE & _) & _)]; [done|].
    exfalso. apply (Hno e); [set_solver|]. unfold enabled, flag. by rewrite Hx.
  - intros (e & He & Hen). destruct Ht as [[-> _]|[_ Hno]]; [done|]. exfalso. by eapply Hno.
  - intros n ->. destruct Ht as [[[= ->] _]|[<- _]]; [done|].
    destruct (L3 n eq_refl) as [|(e & fire & k & _ & _ & _ & ->)]; [done|apply time_left_nonneg].
  - intros e fire He Hf. destruct (L2 e fire He Hf) as (n & k & Hn & Hk & Hle). destruct Ht as [[-> _]|[-> _]].
    + exists 0, k. auto.
    + exists n, k. split_and!; [done|done|]. intros Hr. destruct (time_left_spec _ _ Hr) as (H0 & [H1|H1] & _); [|right; lia].
      left. assert (0 ≤ n); [|lia]. destruct (L3 n Hn) as [|(e' & f' & k' & _ & _ & _ & ->)]; [done|apply time_left_nonneg].
Qed.

Lemma select_timeout_witness :
  ∃ st' s, loop_prepare demo_clock demo_loop = Ok (st', Some 0, s) ∧ of_kind (in_sets s) demo_loop 1.
Proof.
  destruct (select_timeout demo_clock demo_loop demo_loop_wf) as (st' & t & s & E & _ & HA & _ & _ & HF).
  exists st', s. rewrite HA in E.
  - split; [exact E|]. apply HF; [apply (bool_decide_unpack _); vm_compute; exact I|vm_compute; reflexivity].
  - exists 2%nat. split; [apply (bool_decide_unpack _); vm_compute; exact I|vm_compute; reflexivity].
Defined.
