(* ===== verification/RtpH264.v ===== *)
(** * The H.264 packetizer (rtp-h264.c)

    A frame is one NAL unit. It goes in one packet if it fits, and otherwise in
    fragmentation units (FU-A of RFC 6184): the NAL header is split into an
    indicator and a fragment header with start and end bits, and the rest of the
    unit is cut by the loop of [RtpMedia]. The first frame of an endpoint must be
    a key frame, and the parameter sets are sent before it. The parameter sets
    come from the encoder, of which the answers to the polling in h264_get_sdp are
    an argument, and go to the SDP in base64. *)

From stdpp Require Import prelude gmap strings pretty.
From S2P Require Import Prelude Rtp RtpMedia Base64.

Open Scope c_scope.

(** A parameter set is [None] until h264_get_sdp has run: the structure comes
    from malloc and its creation does not set these fields. A null pointer with
    length zero is [Some []]. *)
Record rtp_h264 := mkH264 {
  h264_d : list Z;
  key : Z;
  init_done : Z;
  ts_incr : Z;
  timestamp : Z;
  last_frame : Z;
  pu8SPS : option (list Z);
  pu8PPS : option (list Z) }.

(** What the encoder's configuration says of one pipe. *)
Record enc_pipe_info := mkInfo {
  enc_SPS : option (list Z);
  enc_PPS : list Z;
  u32Profile : Z;
  u32Level : Z }.

Definition new_rtp_media_h264_stream (fincr fbase : Z) : res rtp_h264 :=
  if decide (fbase = 0) then Fault DivByZero
  else Ok (mkH264 [] 0 1 (s32 (90000 * fincr) `quot` fbase) 0 0 None None).

(** [ms] is utils_get_ms_time(). *)
Definition h264_process_frame (out : rtp_h264) (d : list Z) (k ms : Z) : res (rtp_h264 * Z) :=
  if decide (u64 (ts_incr out) = 0) then Fault DivByZero else
  let frames := u64 (ms * 90) `quot` u64 (ts_incr out) in
  Ok (mkH264 d k (init_done out) (ts_incr out) (u32 (frames * ts_incr out)) frames (pu8SPS out) (pu8PPS out),
      init_done out).

(** ** The SDP *)

(** [%02x] of an unsigned int: at least two digits. *)
Fixpoint hex_digits (fuel : nat) (v : Z) (acc : list Z) : list Z :=
  match fuel with
  | O => acc
  | S fuel => if decide (v = 0) then acc
              else hex_digits fuel (v `div` 16) (hex_digit false (v `mod` 16) :: acc)
  end.
Definition fmt_02x_u32 (v : Z) : list Z := if decide (u32 v < 256) then fmt_02x (u32 v) else hex_digits 8 (u32 v) [].

(** The loop that waits for the parameter sets: the last configuration read,
    and whether it has them. [info k] is what the encoder answers the k-th time. *)
Fixpoint wait_sps (i32TryCnt : nat) (info : nat → enc_pipe_info) (k : nat) : enc_pipe_info * bool :=
  match i32TryCnt with
  | O => (info (pred k), false)
  | S n => match enc_SPS (info k) with Some _ => (info k, true) | None => wait_sps n info (S k) end
  end.

(** base64_encode into an array of 100 bytes: when the set does not fit nothing
    is written, and what is printed afterwards is uninitialised. *)
Definition b64_into_100 (set : list Z) : res (list Z) :=
  match base64_encode 100 set with Some text => Ok text | None => Fault OutOfBounds end.

Definition h264_get_sdp (out : rtp_h264) (info : nat → enc_pipe_info) (payload port : Z) : res (rtp_h264 * list Z) :=
  let '(c, found) := wait_sps 30 info 0 in
  let sps := if found then default [] (enc_SPS c) else [] in
  let pps := if found then enc_PPS c else [] in
  let out := mkH264 (h264_d out) (key out) (init_done out) (ts_incr out) (timestamp out) (last_frame out)
               (Some sps) (Some pps) in
  szProfileStr ← sprintf_into 30 ($"profile-level-id=" ++ fmt_02x_u32 (u32Profile c) ++ fmt_02x 0
                                   ++ fmt_02x_u32 (u32Level c));
  let head := $"m=video " ++ fmt_d port ++ $" RTP/AVP " ++ fmt_d payload ++ crlf
              ++ $"a=rtpmap:" ++ fmt_d payload ++ $" H264/90000" ++ crlf
              ++ $"a=fmtp:" ++ fmt_d payload ++ $" packetization-mode=1; " ++ szProfileStr in
  if decide (sps ≠ [] ∧ pps ≠ []) then
    szSPSBase64 ← b64_into_100 sps;
    szPPSBase64 ← b64_into_100 pps;
    szPrameterSet ← sprintf_into 200 ($"sprop-parameter-sets=" ++ szSPSBase64 ++ $"," ++ szPPSBase64);
    Ok (out, head ++ $"; " ++ szPrameterSet ++ crlf)
  else Ok (out, head ++ crlf).

(** ** Sending *)

(** The end of a loop body: [vhdr[1] &= ~(1 << 7)]. *)
Definition fu_next (vhdr1 : Z) : Z := Z.land vhdr1 (Z.lnot 128).

(** The sizes are unsigned here: [max_data_size - u32FULen]. *)
Definition fu_clip (mtu : Z) (_ : Z) (_ rest : Z) : Z :=
  if decide (u32 rest > u32 (mtu - 2)) then s32 (mtu - 2) else rest.

Definition fu_pkt (vhdr0 ts : Z) (frame : list Z) (vhdr1 i plen : Z) : packet :=
  mkPkt [[vhdr0; if decide (plen + i = zlen frame) then Z.lor vhdr1 64 else vhdr1]; slice frame i plen]
    ts (bool_decide (plen + i = zlen frame)).

(** A parameter set before the first key frame. The result of the call is not
    looked at: when it fails the endpoint is gone and the code goes on with it. *)
Definition send_set {E} `{RtpSink E} (set : option (list Z)) (ts : Z) (e : E) : res E :=
  match set with
  | None => Fault OutOfBounds
  | Some [] => Ok e
  | Some l => match sink_send e (mkPkt [l] ts true) with
              | Some e => Ok e
              | None => Fault UseAfterFree
              end
  end.

Definition h264_send {E} `{RtpSink E} (e : E) (out : rtp_h264) : res (option E) :=
  if decide (sink_count e = 0 ∧ key out = 0) then Ok (Some e) else
  u8NALHeader ← rd (h264_d out) 0;
  e ← (if decide (sink_count e = 0 ∧ u8NALHeader = 101)
       then e ← send_set (pu8SPS out) (timestamp out) e; send_set (pu8PPS out) (timestamp out) e
       else Ok e);
  if decide (zlen (h264_d out) ≤ sink_mtu e) then Ok (sink_send e (mkPkt [h264_d out] (timestamp out) true))
  else
    let pFrameData := drop 1 (h264_d out) in
    let u8NALType := Z.land u8NALHeader 31 in
    let u8NRI := Z.land u8NALHeader 96 in
    frag_loop fu_clip (fu_pkt (Z.lor 28 u8NRI) (timestamp out) pFrameData) fu_next
      (length pFrameData) (zlen pFrameData) e (Z.lor u8NALType 128) 0.

(** The packets of a frame, and those before the first frame. *)
Definition h264_packets (mtu : Z) (out : rtp_h264) : list packet :=
  if decide (zlen (h264_d out) ≤ mtu) then [mkPkt [h264_d out] (timestamp out) true]
  else
    let frame := drop 1 (h264_d out) in
    let hdr := default 0 (head (h264_d out)) in
    frags fu_clip (fu_pkt (Z.lor 28 (Z.land hdr 96)) (timestamp out) frame) fu_next
      (length frame) mtu (zlen frame) (Z.lor (Z.land hdr 31) 128) 0.

Definition set_packets (sets : list (list Z)) (ts : Z) : list packet :=
  (λ s, mkPkt [s] ts true) <$> filter (λ s, s ≠ []) sets.

(** ** An RFC 6184 receiver, for packetization mode 1

    Types 1 to 23 are NAL units by themselves, type 28 is a fragment: the unit's
    header comes from the indicator and the fragment header of the first one. *)
Fixpoint depay (part : list Z) (payloads : list (list Z)) : list (list Z) :=
  match payloads with
  | [] => []
  | pl :: rest =>
      match pl with
      | ind :: fu :: data =>
          if decide (Z.land ind 31 = 28) then
            let nal := (if decide (Z.land fu 128 ≠ 0) then [Z.lor (Z.land ind 224) (Z.land fu 31)] else part) ++ data in
            if decide (Z.land fu 64 ≠ 0) then nal :: depay [] rest else depay nal rest
          else pl :: depay [] rest
      | _ => pl :: depay [] rest
      end
  end.

Definition payloads (l : list packet) : list (list Z) := (λ p, concat (pk_v p)) <$> l.

(** A NAL unit: a header with the forbidden bit clear and a type that is not
    used up by the payload format. *)
Definition nal_ok (l : list Z) : Prop :=
  ∃ hdr body, l = hdr :: body ∧ 0 ≤ hdr < 128 ∧ Z.land hdr 31 ≠ 28.

(** The bits of a header byte: [ind] and [t] are the indicator and the type,
    [t] with bit 7 the header of the first fragment, with bit 6 of the last. *)
Definition fu_bits_of (t ind hdr : Z) : Prop :=
  Z.land ind 31 = 28 ∧ Z.lor (Z.land ind 224) t = hdr ∧
  (Z.land (Z.lor t 128) 128 ≠ 0 ∧ Z.land (Z.lor t 128) 64 = 0 ∧ Z.land (Z.lor t 128) 31 = t) ∧
  (Z.land (Z.lor (Z.lor t 128) 64) 128 ≠ 0 ∧ Z.land (Z.lor (Z.lor t 128) 64) 64 ≠ 0 ∧
   Z.land (Z.lor (Z.lor t 128) 64) 31 = t) ∧
  fu_next (Z.lor t 128) = t ∧ fu_next t = t ∧
  (Z.land t 128 = 0 ∧ Z.land t 64 = 0) ∧ (Z.land (Z.lor t 64) 128 = 0 ∧ Z.land (Z.lor t 64) 64 ≠ 0).
#[local] Instance fu_bits_of_dec t ind hdr : Decision (fu_bits_of t ind hdr).
Proof. unfold fu_bits_of. apply _. Defined.

Lemma fu_bits hdr : 0 ≤ hdr < 128 → fu_bits_of (Z.land hdr 31) (Z.lor 28 (Z.land hdr 96)) hdr.
Proof.
  intros Hh. assert (Forall (λ h, fu_bits_of (Z.land h 31) (Z.lor 28 (Z.land h 96)) h) (seqZ 0 128)) as H by closed_nonzero.
  rewrite Forall_forall in H. apply H, elem_of_seqZ. lia.
Qed.

Lemma fu_clip_ok mtu : 2 < mtu < 2147483648 → clip_ok fu_clip mtu.
Proof.
  intros Hm s i rest Hr. unfold fu_clip. case_decide as Hd; [|lia].
  rewrite (u32_small (mtu - 2)) in Hd by lia. rewrite s32_small by (unfold int_range; lia).
  assert (u32 rest ≤ rest) by (apply Z.mod_le; lia). lia.
Qed.

Section Reassembly.
Context (hdr ts mtu : Z) (frame : list Z) (Hhdr : 0 ≤ hdr < 128) (Hmtu : 2 < mtu < 2147483648).
Let t := Z.land hdr 31.
Let fus fuel s i := frags fu_clip (fu_pkt (Z.lor 28 (Z.land hdr 96)) ts frame) fu_next fuel mtu (zlen frame) s i.

(** From the fragment at [i] on, the receiver gets the rest of the unit; the
    first fragment, whose header has the start bit, begins a new one. *)
Lemma depay_fus fuel part i start rest :
  0 ≤ i < zlen frame → (Z.to_nat (zlen frame - i) <= fuel)%nat →
  depay part (payloads (fus fuel (if start : bool then Z.lor t 128 else t) i) ++ rest) =
  ((if start then [hdr] else part) ++ slice frame i (zlen frame - i)) :: depay [] rest.
Proof.
  destruct (fu_bits hdr Hhdr) as (B1 & B2 & (B3 & B4 & B5) & (B6 & B7 & B8) & B9 & B10 & (B11 & B12) & B13 & B14).
  fold t in B2, B3, B4, B5, B6, B7, B8, B9, B10, B11, B12, B13, B14.
  revert part i start. induction fuel as [|fuel IH]; intros part i start Hi Hf; [lia|].
  unfold fus. cbn [frags]. rewrite decide_True by lia. set (s := if start then _ else _).
  pose proof (fu_clip_ok mtu Hmtu s i (zlen frame - i) ltac:(lia)) as Hc. set (plen := fu_clip mtu s i _) in *.
  assert (fu_next s = t) as Hs by (unfold s; by destruct start).
  unfold payloads. cbn [fmap list_fmap app pk_v concat fu_pkt]. rewrite app_nil_r.
  cbn [app depay]. rewrite decide_True by done.
  destruct (decide (plen + i = zlen frame)) as [He|He].
  - assert (frags fu_clip (fu_pkt (Z.lor 28 (Z.land hdr 96)) ts frame) fu_next fuel mtu (zlen frame) (fu_next s) (i + plen) = []) as ->.
    { destruct fuel; cbn; by rewrite decide_False by lia. }
    replace (zlen frame - i) with plen by lia. cbn [fmap list_fmap app].
    unfold s. destruct start.
    + rewrite decide_True by done. rewrite decide_True by done. by rewrite B8, B2.
    + rewrite (decide_False (P := Z.land (Z.lor t 64) 128 ≠ 0)) by (intros H; by apply H).
      by rewrite decide_True by done.
  - rewrite Hs. specialize (IH ((if start then [hdr] else part) ++ slice frame i plen) (i + plen) false ltac:(lia) ltac:(lia)).
    cbn [app] in IH. unfold fus, payloads in IH. rewrite <- app_assoc, slice_app in IH by lia.
    replace (plen + (zlen frame - (i + plen))) with (zlen frame - i) in IH by lia. rewrite <- IH.
    unfold s. destruct start.
    + rewrite (decide_True (P := Z.land (Z.lor t 128) 128 ≠ 0)) by done. rewrite (decide_False (P := Z.land (Z.lor t 128) 64 ≠ 0)) by (intros H; by apply H).
      by rewrite B5, B2.
    + rewrite (decide_False (P := Z.land t 128 ≠ 0)) by (intros H; by apply H).
      by rewrite (decide_False (P := Z.land t 64 ≠ 0)) by (intros H; by apply H).
Qed.
End Reassembly.

Lemma depay_nal l part rest : nal_ok l → depay part (l :: rest) = l :: depay [] rest.
Proof.
  intros (hdr & body & -> & _ & Ht). cbn [depay]. destruct body as [|fu data]; [done|]. by rewrite decide_False.
Qed.

Lemma depay_sets sets ts rest :
  Forall (λ s, s = [] ∨ nal_ok s) sets →
  depay [] (payloads (set_packets sets ts) ++ rest) = filter (λ s, s ≠ []) sets ++ depay [] rest.
Proof.
  unfold set_packets. induction 1 as [|s sets Hs _ IH]; [done|]. rewrite filter_cons.
  destruct Hs as [->|Hs]; [by rewrite decide_False by (intros H; by apply H)|].
  rewrite decide_True by (by destruct Hs as (? & ? & -> & _)). unfold payloads in *. rewrite !fmap_cons.
  cbn [pk_v concat app]. rewrite app_nil_r, depay_nal by done. by rewrite IH.
Qed.

(** What a frame's packets are to the receiver. *)
Lemma depay_frame mtu out rest :
  nal_ok (h264_d out) → 2 < mtu < 2147483648 →
  depay [] (payloads (h264_packets mtu out) ++ rest) = h264_d out :: depay [] rest.
Proof.
  intros Hn Hm. unfold h264_packets. case_decide as Hl.
  - unfold payloads. cbn. rewrite app_nil_r. by apply depay_nal.
  - destruct Hn as (hdr & body & E & Hh & _). rewrite E in *.
    change (drop 1 (hdr :: body)) with body. change (default 0 (head (hdr :: body))) with hdr.
    rewrite zlen_cons in Hl. pose proof (depay_fus hdr (timestamp out) mtu body Hh Hm (length body) [] 0 true rest) as H.
    cbv beta iota in H. rewrite H by (unfold zlen in *; lia).
    by rewrite Z.sub_0_r, slice_all.
Qed.

Lemma h264_packet_sizes mtu out :
  2 < mtu < 2147483648 → zlen (h264_d out) < 2147483648 → Forall (λ p, pk_size p ≤ mtu) (h264_packets mtu out).
Proof.
  intros Hm Hl. unfold h264_packets. case_decide as Hc.
  - constructor; [|constructor]. unfold pk_size. cbn. by rewrite app_nil_r.
  - apply (frags_Forall _ _ _ (λ _, True)); [by apply fu_clip_ok|done|done|].
    intros s j _ Hj. unfold fu_clip. set (rest := zlen _ - j) in *.
    assert (0 < rest < 2147483648) as Hr.
    { unfold rest in *. unfold zlen in *. rewrite length_drop in *. lia. }
    rewrite !u32_small by lia. rewrite s32_small by (unfold int_range; lia).
    unfold pk_size, fu_pkt. cbn [pk_v concat]. rewrite app_nil_r. autorewrite with wc_len.
    case_decide; (etrans; [apply Z.add_le_mono_l, zlen_slice_le; lia|lia]).
Qed.

Lemma h264_marker mtu out k p :
  2 < mtu < 2147483648 → h264_packets mtu out !! k = Some p →
  pk_marker p = bool_decide (S k = length (h264_packets mtu out)).
Proof.
  intros Hm. unfold h264_packets. case_decide as Hc.
  - destruct k as [|k]; [|done]. by intros [= <-].
  - apply frags_marker; [by apply fu_clip_ok|done|]. unfold zlen. lia.
Qed.

(** The parameter sets are sent in order, before anything else. *)
Lemma send_sets {E} `{RtpSink E} (e : E) sps pps ts :
  (e1 ← send_set (Some sps) ts e; send_set (Some pps) ts e1) =
  match send_seq e (set_packets [sps; pps] ts) with Some e1 => Ok e1 | None => Fault UseAfterFree end.
Proof.
  assert (∀ (a : E) l, send_set (Some l) ts a =
    match send_seq a (set_packets [l] ts) with Some e1 => Ok e1 | None => Fault UseAfterFree end) as Hone.
  { intros a [|x l]; [done|]. unfold set_packets. rewrite filter_cons, decide_True by done. cbn. by destruct (sink_send a _). }
  change (set_packets [sps; pps] ts) with (set_packets ([sps] ++ [pps]) ts).
  unfold set_packets at 1. rewrite filter_app, fmap_app, send_seq_app, Hone. unfold set_packets.
  destruct (send_seq e _) as [e1|]; [|done]. rewrite res_bind_ok, Hone. done.
Qed.

(** Sending a frame once the sets, if any, are sent. *)
Lemma h264_send_frame {E} `{RtpSink E} (e : E) out hdr body :
  h264_d out = hdr :: body → 2 < sink_mtu e < 2147483648 →
  (if decide (zlen (h264_d out) ≤ sink_mtu e) then Ok (sink_send e (mkPkt [h264_d out] (timestamp out) true))
   else frag_loop fu_clip (fu_pkt (Z.lor 28 (Z.land hdr 96)) (timestamp out) (drop 1 (h264_d out))) fu_next
          (length (drop 1 (h264_d out))) (zlen (drop 1 (h264_d out))) e (Z.lor (Z.land hdr 31) 128) 0) =
  Ok (send_seq e (h264_packets (sink_mtu e) out)).
Proof.
  intros Hd Hm. unfold h264_packets. case_decide.
  - cbn. by destruct (sink_send e _).
  - assert (default 0 (head (h264_d out)) = hdr) as -> by by rewrite Hd. apply frag_loop_frags; [by apply fu_clip_ok|unfold zlen; lia].
Qed.

(** ** The SDP *)

Lemma wait_sps_found n info k j c :
  (∀ i, (j <= i < k)%nat → enc_SPS (info i) = None) → (j <= k < j + n)%nat → enc_SPS (info k) = Some c →
  wait_sps n info j = (info k, true).
Proof.
  revert j. induction n as [|n IH]; intros j Hno Hk Hc; [lia|]. cbn. destruct (decide (j = k)) as [->|Hne].
  - by rewrite Hc.
  - rewrite Hno by lia. apply IH; [|lia|done]. intros i Hi. apply Hno. lia.
Qed.

(** How much of the arrays of h264_get_sdp the sets take. *)
Definition sets_fit (sps pps : list Z) : Prop :=
  zlen (rfc_encode sps) < 100 ∧ zlen (rfc_encode pps) < 100 ∧
  zlen (rfc_encode sps) + zlen (rfc_encode pps) < 178.

Lemma b64_into_100_spec l :
  Forall is_byte l → b64_into_100 l = if decide (zlen (rfc_encode l) < 100) then Ok (rfc_encode l) else Fault OutOfBounds.
Proof. intros Hl. unfold b64_into_100. rewrite base64_encode_rfc by done. by case_decide. Qed.

(** The last part of h264_get_sdp. *)
Lemma h264_sets_text sps pps :
  Forall is_byte sps → Forall is_byte pps →
  (a ← b64_into_100 sps; b ← b64_into_100 pps;
   sprintf_into 200 ($"sprop-parameter-sets=" ++ a ++ $"," ++ b)) =
  if decide (zlen (rfc_encode sps) < 100 ∧ zlen (rfc_encode pps) < 100 ∧
             zlen (rfc_encode sps) + zlen (rfc_encode pps) < 178)
  then Ok ($"sprop-parameter-sets=" ++ rfc_encode sps ++ $"," ++ rfc_encode pps) else Fault OutOfBounds.
Proof.
  intros Hs Hp. rewrite !b64_into_100_spec by done. set (a := rfc_encode sps). set (b := rfc_encode pps).
  destruct (decide (zlen a < 100)); [|by rewrite (decide_False (P := zlen a < 100 ∧ zlen b < 100 ∧ _)) by lia]. rewrite res_bind_ok.
  destruct (decide (zlen b < 100)); [|by rewrite (decide_False (P := zlen a < 100 ∧ zlen b < 100 ∧ _)) by lia]. rewrite res_bind_ok.
  unfold sprintf_into. rewrite !zlen_app. change (zlen ($"sprop-parameter-sets=")) with 21. change (zlen ($",")) with 1.
  case_decide; [rewrite decide_True by lia; done|rewrite decide_False by lia; done].
Qed.

Lemma fmt_02x_u32_byte v : is_byte v → fmt_02x_u32 v = fmt_02x v.
Proof. unfold is_byte. intros Hv. unfold fmt_02x_u32. rewrite u32_small by lia. by rewrite decide_True by lia. Qed.

(** ** The claims *)

(** The parameter sets that go before a frame: with the first packet of an
    endpoint, if the frame is an IDR picture. *)
Definition sets_before {E} `{RtpSink E} (e : E) (d sps pps : list Z) : list (list Z) :=
  if decide (sink_count e = 0 ∧ head d = Some 101) then [sps; pps] else [].

(** C34. For every NAL unit and every endpoint that may send it, with packets
    of more than two bytes: once the parameter sets are sent, h264_send returns
    and hands over the packets of the unit, and a receiver of RFC 6184 gets from
    all these packets the parameter sets and the unit, byte for byte. The packets
    of the unit are within the maximum and the marker is on the last one only. *)
Theorem h264_roundtrip {E} `{RtpSink E} (e : E) out sps pps :
  nal_ok (h264_d out) → 2 < sink_mtu e < 2147483648 → zlen (h264_d out) < 2147483648 →
  (sink_count e = 0 → key out ≠ 0) →
  pu8SPS out = Some sps → pu8PPS out = Some pps → (sps = [] ∨ nal_ok sps) → (pps = [] ∨ nal_ok pps) →
  let before := set_packets (sets_before e (h264_d out) sps pps) (timestamp out) in
  let pkts := h264_packets (sink_mtu e) out in
  (∀ e1, send_seq e before = Some e1 → h264_send e out = Ok (send_seq e1 pkts)) ∧
  depay [] (payloads (before ++ pkts)) =
    filter (λ s, s ≠ []) (sets_before e (h264_d out) sps pps) ++ [h264_d out] ∧
  Forall (λ p, pk_size p ≤ sink_mtu e) pkts ∧
  (∀ k p, pkts !! k = Some p → pk_marker p = bool_decide (S k = length pkts)).
Proof.
  intros Hn Hm Hl Hk Hs Hp Hso Hpo before pkts. split_and!.
  - intros e1 He1. unfold before, sets_before in He1. pose proof (send_seq_mtu _ _ _ He1) as Em.
    destruct Hn as (hdr & body & Hd & _). unfold h264_send. rewrite decide_False by tauto.
    assert (rd (h264_d out) 0 = Ok hdr) as -> by by rewrite Hd. rewrite res_bind_ok.
    assert ((if decide (sink_count e = 0 ∧ hdr = 101)
       then e0 ← send_set (pu8SPS out) (timestamp out) e; send_set (pu8PPS out) (timestamp out) e0 else Ok e) = Ok e1) as ->.
    { rewrite Hs, Hp, send_sets. rewrite Hd in He1. cbn [head] in He1. destruct (decide (sink_count e = 0 ∧ hdr = 101)) as [[H1 ->]|Hne].
      - rewrite decide_True in He1 by done. by rewrite He1.
      - rewrite decide_False in He1 by naive_solver. cbn in He1. by injection He1 as ->. }
    rewrite res_bind_ok. unfold pkts. rewrite <- Em. by apply (h264_send_frame e1 out hdr body Hd); rewrite Em.
  - unfold payloads. rewrite fmap_app. unfold before. rewrite depay_sets.
    + f_equal. rewrite <- (app_nil_r (_ <$> pkts)). by apply (depay_frame (sink_mtu e) out []).
    + unfold sets_before. case_decide; [constructor; [done|constructor; [done|constructor]]|constructor].
  - by apply h264_packet_sizes.
  - intros k p. by apply h264_marker.
Qed.

(** The result of sending a parameter set is ignored: when the first
    packet of an endpoint is a set and sending it fails, which deletes the
    endpoint, h264_send goes on with the deleted endpoint. A key frame for an
    endpoint that was set up without a DESCRIBE reads sets that nobody wrote. *)
Lemma h264_lost_set_use_after_free {E} `{RtpSink E} (e : E) out body x sps :
  h264_d out = 101 :: body → sink_count e = 0 → key out ≠ 0 →
  (pu8SPS out = Some (x :: sps) → sink_send e (mkPkt [x :: sps] (timestamp out) true) = None →
     h264_send e out = Fault UseAfterFree) ∧
  (pu8SPS out = None → h264_send e out = Fault OutOfBounds).
Proof.
  intros Hd Hc Hk. assert (rd (h264_d out) 0 = Ok 101) as Hr by by rewrite Hd.
  unfold h264_send. rewrite decide_False by tauto. rewrite Hr, res_bind_ok, decide_True by done. split.
  - intros -> Hf. cbn [send_set]. by rewrite Hf.
  - by intros ->.
Qed.

(** Once the encoder has its parameter sets, within the thirty tries, the
    SDP of an H.264 track carries both in standard base64, from which a client
    decodes them, and the packetizer keeps them; this holds when each takes at
    most 72 bytes and their texts together less than 178 characters. Otherwise
    h264_get_sdp prints an array it has not written or writes past one of 200
    bytes. *)
Lemma h264_sdp_sets out info k c sps pps payload port :
  (k < 30)%nat → (∀ i, (i < k)%nat → enc_SPS (info i) = None) → info k = c →
  enc_SPS c = Some sps → enc_PPS c = pps → sps ≠ [] → pps ≠ [] →
  Forall is_byte sps → Forall is_byte pps → is_byte (u32Profile c) → is_byte (u32Level c) →
  (sets_fit sps pps → ∃ out' pre,
     h264_get_sdp out info payload port =
       Ok (out', pre ++ $"; sprop-parameter-sets=" ++ rfc_encode sps ++ $"," ++ rfc_encode pps ++ crlf) ∧
     pu8SPS out' = Some sps ∧ pu8PPS out' = Some pps ∧
     decode (rfc_encode sps) = sps ∧ decode (rfc_encode pps) = pps) ∧
  (¬ sets_fit sps pps → h264_get_sdp out info payload port = Fault OutOfBounds).
Proof.
  intros Hk Hno Hc Hs Hp Hsn Hpn Hsb Hpb Hpr Hlv. unfold h264_get_sdp.
  rewrite (wait_sps_found 30 info k 0 sps); [|intros; apply Hno; lia|lia|by rewrite Hc].
  rewrite Hc, Hs, Hp. change (default [] (Some sps)) with sps. cbv iota. rewrite !fmt_02x_u32_byte by done.
  set (prof := _ ++ fmt_02x (u32Profile c) ++ _). assert (sprintf_into 30 prof = Ok prof) as -> by by unfold sprintf_into; rewrite decide_True.
  rewrite res_bind_ok. rewrite decide_True by done. pose proof (h264_sets_text sps pps Hsb Hpb) as Ht.
  split; intros Hf; [rewrite decide_True in Ht by done|rewrite decide_False in Ht by done].
  - destruct (b64_into_100 sps) as [a|]; [|done]. destruct (b64_into_100 pps) as [b|]; [|done].
    rewrite !res_bind_ok in *. rewrite Ht, res_bind_ok.
    change ($"; sprop-parameter-sets=") with ($"; " ++ $"sprop-parameter-sets=").
    match goal with |- context [Ok (_, ?h ++ $"; " ++ _)] => eexists _, h end. split.
    + do 2 f_equal. by rewrite <- !(assoc_L (++) ($"; ")), <- !(assoc_L (++) ($"sprop-parameter-sets=")), <- !(assoc_L (++) (rfc_encode sps)).
    + split_and!; [done|done|by eapply decode_rfc..].
  - destruct (b64_into_100 sps) as [a|]; [|by injection Ht as ->]. destruct (b64_into_100 pps) as [b|]; [|by injection Ht as ->].
    rewrite !res_bind_ok in *. by rewrite Ht.
Qed.

(** ** Witnesses *)

Definition wit_h264 : rtp_h264 := mkH264 [101; 1; 2; 3; 4; 5; 6; 7] 1 1 3000 90 1 (Some [103; 9]) (Some [104; 8]).

Lemma wit_nal_ok : nal_ok (h264_d wit_h264).
Proof. by exists 101, [1; 2; 3; 4; 5; 6; 7]. Qed.

Lemma h264_roundtrip_witness :
  depay [] (payloads (rec_log (default (mkRec 0 [])
    (match h264_send (mkRec 5 []) wit_h264 with Ok o => o | Fault _ => None end)))) =
  [[103; 9]; [104; 8]; [101; 1; 2; 3; 4; 5; 6; 7]].
Proof.
  destruct (h264_roundtrip (mkRec 5 []) wit_h264 [103; 9] [104; 8] wit_nal_ok ltac:(done) ltac:(done) ltac:(done)
    eq_refl eq_refl) as (Hs & Hd & _).
  - right. by exists 103, [9].
  - right. by exists 104, [8].
  - rewrite (Hs _ eq_refl). vm_compute. reflexivity.
Defined.

(** An endpoint whose connection does not take packets any more. *)
#[local] Program Instance gone_sink : RtpSink unit := {|
  sink_mtu _ := 1400; sink_count _ := 0; sink_send _ _ := None |}.
Next Obligation. done. Qed.

Lemma h264_lost_set_use_after_free_witness : h264_send tt wit_h264 = Fault UseAfterFree.
Proof.
  destruct (@h264_lost_set_use_after_free unit gone_sink tt wit_h264 [1; 2; 3; 4; 5; 6; 7] 103 [9] eq_refl eq_refl ltac:(done)) as [H _].
  exact (H eq_refl eq_refl).
Defined.

Lemma h264_sdp_sets_witness :
  h264_get_sdp wit_h264 (λ _, mkInfo (Some (replicate 72 7)) (replicate 64 8) 66 30) 96 0 = Fault OutOfBounds ∧
  ∃ out' pre, h264_get_sdp wit_h264 (λ _, mkInfo (Some [103; 9]) [104; 8] 66 30) 96 0 =
    Ok (out', pre ++ $"; sprop-parameter-sets=" ++ $"Zwk=" ++ $"," ++ $"aAg=" ++ crlf).
Proof.
  split.
  - destruct (h264_sdp_sets wit_h264 (λ _, mkInfo (Some (replicate 72 7)) (replicate 64 8) 66 30) 0
      (mkInfo (Some (replicate 72 7)) (replicate 64 8) 66 30) (replicate 72 7) (replicate 64 8) 96 0) as [_ H];
      [lia|lia|reflexivity|reflexivity|reflexivity|discriminate|discriminate|closed_nonzero|closed_nonzero|by vm_compute|by vm_compute|].
    apply H. intros (_ & _ & Hf). vm_compute in Hf. discriminate.
  - destruct (h264_sdp_sets wit_h264 (λ _, mkInfo (Some [103; 9]) [104; 8] 66 30) 0
      (mkInfo (Some [103; 9]) [104; 8] 66 30) [103; 9] [104; 8] 96 0) as [H _];
      [lia|lia|reflexivity|reflexivity|reflexivity|discriminate|discriminate|closed_nonzero|closed_nonzero|by vm_compute|by vm_compute|].
    destruct H as (out' & pre & H & _); [by vm_compute|]. exists out', pre. exact H.
Defined.
