(* ===== verification/Bitstream.v ===== *)
(** * Start codes and bit fields (rtp-mpv.c, rtp-mpeg4.c)

    An MPEG video stream is a sequence of units that begin with the start code
    00 00 01 and a byte that says what the unit is; inside a unit fields have any
    number of bits. Both MPEG packetizers have the same two functions for this:
    find_next_code gives the length of a unit, get_field reads a number of bits.
    They are compared here with the unit as a list of bytes and with the list of
    the bits of the frame. Pointers into the frame are offsets into its buffer
    [fd]. *)

From stdpp Require Import prelude.
From S2P Require Import Prelude.

Section Functions.
Context (fd : list Z).

(** The loop of find_next_code, from [i] on. *)
Fixpoint find_code (fuel : nat) (d len i : Z) : res Z :=
  if decide (i < len - 2) then
    match fuel with
    | O => Fault OutOfFuel
    | S fuel =>
        a ← rd fd (d + i);
        hit ← (if decide (a = 0) then
                 b ← rd fd (d + i + 1);
                 if decide (b = 0) then c ← rd fd (d + i + 2); Ok (bool_decide (c = 1)) else Ok false
               else Ok false);
        if (hit : bool) then Ok i else find_code fuel d len (i + 1)
    end
  else Ok 0.

Definition find_next_code (d len : Z) : res Z := find_code (Z.to_nat len) d len 1.

(** What the callers make of it: the last unit goes to the end of the frame. *)
Definition unit_len (start length : Z) : res Z :=
  flen ← find_next_code start (length - start);
  Ok (if decide (flen = 0) then length - start else flen).

Definition start_code (d : Z) : res Z :=
  a ← rd fd d; b ← rd fd (d + 1); c ← rd fd (d + 2); e ← rd fd (d + 3); Ok (GET_32 a b c e).

(** The loop of get_field: whole bytes where it can, else single bits. *)
Fixpoint field_loop (fuel : nat) (d bits i v offset : Z) : res (Z * Z) :=
  if decide (i < bits) then
    match fuel with
    | O => Fault OutOfFuel
    | S fuel =>
        b ← rd fd (d + offset `quot` 8);
        if decide (bits - i >= 8 ∧ offset `rem` 8 = 0) then
          field_loop fuel d bits (i + 8) (Z.lor (u32 (Z.shiftl v 8)) b) (offset + 8)
        else
          field_loop fuel d bits (i + 1)
            (Z.lor (u32 (Z.shiftl v 1)) (Z.land (Z.shiftr b (7 - offset `rem` 8)) 1)) (offset + 1)
    end
  else Ok (v, offset).

(** The value, and where the next field begins. *)
Definition get_field (d bits offset : Z) : res (Z * Z) := field_loop (Z.to_nat bits) d bits 0 0 offset.

(** memcpy from the frame. *)
Definition copy_from (d len : Z) : res (list Z) :=
  if decide (0 ≤ d ∧ d + len ≤ zlen fd) then Ok (slice fd d len) else Fault OutOfBounds.

End Functions.

(** ** The reference: a frame as a list of bits *)

Definition byte_bits (b : Z) : list bool := (λ k, Z.testbit b k) <$> [7; 6; 5; 4; 3; 2; 1; 0].
Definition bits_of (l : list Z) : list bool := l ≫= byte_bits.
Definition num_from (v : Z) (l : list bool) : Z := foldl (λ v b, 2 * v + Z.b2z b) v l.
Notation num := (num_from 0).

(** [s] are the bits of the buffer from bit [off] of the unit at [d] on. *)
Definition bits_at (fd : list Z) (d off : Z) (s : list bool) : Prop :=
  0 ≤ d ∧ 0 ≤ off ∧ drop (Z.to_nat (8 * d + off)) (bits_of fd) = s.

Lemma bits_at_skip fd d off a s : bits_at fd d off (a ++ s) → bits_at fd d (off + zlen a) s.
Proof.
  intros (Hd & Ho & E). pose proof (zlen_nonneg a). split; [done|]. split; [lia|].
  replace (Z.to_nat (8 * d + (off + zlen a))) with (Z.to_nat (8 * d + off) + length a)%nat by (unfold zlen in *; lia).
  by rewrite <- drop_drop, E, drop_app_length.
Qed.

Lemma bits_of_drop fd k : drop (8 * k) (bits_of fd) = bits_of (drop k fd).
Proof.
  revert k. induction fd as [|b fd IH]; intros k; [by destruct k|].
  destruct k as [|k]; [done|]. replace (8 * S k)%nat with (8 + 8 * k)%nat by lia.
  rewrite <- drop_drop. cbn [drop]. apply IH.
Qed.

Lemma num_from_app v a b : num_from v (a ++ b) = num_from (num_from v a) b.
Proof. apply foldl_app. Qed.

Lemma num_from_byte v b : is_byte b → num_from v (byte_bits b) = 256 * v + b.
Proof.
  intros Hb. assert (Forall (λ b, num (byte_bits b) = b) (seqZ 0 256)) as H by closed_nonzero.
  rewrite Forall_forall in H. specialize (H b). rewrite elem_of_seqZ in H. unfold is_byte in Hb.
  specialize (H ltac:(lia)). unfold num_from, byte_bits in *. cbn in *. lia.
Qed.

Lemma num_from_range v k l : 0 ≤ k → 0 ≤ v < 2 ^ k → 0 ≤ num_from v l < 2 ^ (k + zlen l).
Proof.
  revert v k. induction l as [|b l IH]; intros v k Hk Hv; cbn [num_from foldl].
  - change (zlen (@nil bool)) with 0. by rewrite Z.add_0_r.
  - rewrite zlen_cons. replace (k + (1 + zlen l)) with ((k + 1) + zlen l) by lia. apply IH; [lia|].
    rewrite Z.pow_add_r by lia. destruct b; cbn; lia.
Qed.

(** A bit, and a whole byte, where the pointer is. *)
Lemma bits_at_byte fd d off b s :
  bits_at fd d off (b :: s) →
  ∃ x, rd fd (d + off `quot` 8) = Ok x ∧ x ∈ fd ∧ Z.land (Z.shiftr x (7 - off `rem` 8)) 1 = Z.b2z b ∧
    (off `rem` 8 = 0 → ∃ s', b :: s = byte_bits x ++ s').
Proof.
  intros (Hd & Ho & E). rewrite Z.quot_div_nonneg, Z.rem_mod_nonneg by lia.
  set (k := Z.to_nat (d + off `div` 8)). set (j := Z.to_nat (off `mod` 8)).
  assert (Z.to_nat (8 * d + off) = (8 * k + j)%nat) as Hkj by (unfold k, j; zdm).
  rewrite Hkj in E. rewrite <- drop_drop, bits_of_drop in E.
  assert (0 ≤ off `mod` 8 < 8) as Hm by (apply Z.mod_pos_bound; lia).
  destruct (drop k fd) as [|x r] eqn:Er; [change (bits_of []) with (@nil bool) in E; by rewrite drop_nil in E|].
  assert (fd !! k = Some x) as Hx by by rewrite <- (Nat.add_0_r k), <- lookup_drop, Er.
  exists x. split.
  { unfold rd. rewrite decide_False by zdm. fold k. by rewrite Hx. }
  split; [by eapply list_elem_of_lookup_2|]. split.
  - assert (off `mod` 8 = Z.of_nat j) as -> by (unfold j; lia).
    assert (j < 8)%nat as Hj by (unfold j; lia). clear Hkj Hm. clearbody j.
    change (bits_of (x :: r)) with (byte_bits x ++ bits_of r) in E.
    change 1 with (Z.ones 1). rewrite Z.land_ones, Z.shiftr_div_pow2 by lia.
    rewrite <- Z.testbit_spec' by lia.
    do 8 (destruct j as [|j]; [cbn in E; injection E as E _; subst b; reflexivity|]). lia.
  - intros H0. unfold j in E. rewrite H0 in E. exists (bits_of r). by rewrite <- E.
Qed.

(** Shifting a field into the value: nothing is lost within 32 bits. *)
Lemma shift_in v i k x :
  0 ≤ i → 0 ≤ k → i + k ≤ 32 → 0 ≤ v < 2 ^ i → 0 ≤ x < 2 ^ k →
  Z.lor (u32 (Z.shiftl v k)) x = 2 ^ k * v + x ∧ 0 ≤ 2 ^ k * v + x < 2 ^ (i + k).
Proof.
  intros Hi Hk Hik Hv Hx. assert (0 ≤ 2 ^ k * v + x < 2 ^ (i + k)) as Hr by (rewrite Z.pow_add_r by lia; nia).
  split; [|done]. assert (2 ^ (i + k) ≤ 2 ^ 32) by (apply Z.pow_le_mono_r; lia).
  rewrite u32_small; [rewrite lor_shiftl_add by lia; lia|]. rewrite Z.shiftl_mul_pow2 by lia.
  change 4294967296 with (2 ^ 32). lia.
Qed.

Lemma field_loop_spec fd d bits fuel fld : ∀ i v off s,
  Forall is_byte fd → bits_at fd d off (fld ++ s) → i + zlen fld = bits → bits ≤ 32 → 0 ≤ i →
  0 ≤ v < 2 ^ i → (length fld <= fuel)%nat →
  field_loop fd fuel d bits i v off = Ok (num_from v fld, off + zlen fld).
Proof.
  revert fld. induction fuel as [|fuel IH]; intros fld i v off s Hb Hat Hl Hm Hi Hv Hf.
  { destruct fld; [|simpl in Hf; lia]. cbn. rewrite zlen_nil in *. rewrite decide_False by lia. by rewrite Z.add_0_r. }
  destruct fld as [|b fld].
  { cbn. rewrite zlen_nil in *. rewrite decide_False by lia. by rewrite Z.add_0_r. }
  pose proof (zlen_nonneg fld). rewrite zlen_cons in Hl. cbn [field_loop]. rewrite decide_True by lia.
  destruct (bits_at_byte _ _ _ _ _ Hat) as (x & -> & Hin & Hx & H8). rewrite res_bind_ok.
  rewrite Forall_forall in Hb. pose proof (Hb _ Hin) as Hbx. rewrite <- Forall_forall in Hb.
  case_decide as Hc.
  - destruct (H8 ltac:(lia)) as (s' & Es). apply (f_equal (take 8)) in Es.
    assert (take 8 (b :: fld) = byte_bits x) as Ex.
    { rewrite <- (take_app_le _ s 8) by (unfold zlen in *; simpl; lia). exact Es. }
    assert (b :: fld = byte_bits x ++ drop 8 (b :: fld)) as Ef by by rewrite <- Ex, take_drop.
    set (f := drop 8 _) in Ef. clearbody f. clear Es Ex.
    assert (1 + zlen fld = 8 + zlen f) by (apply (f_equal zlen) in Ef; rewrite zlen_cons, zlen_app in Ef; exact Ef).
    destruct (shift_in v i 8 x) as [-> Hr]; [unfold is_byte in Hbx; lia..|].
    change (b :: fld ++ s) with ((b :: fld) ++ s) in Hat. apply (f_equal length) in Ef as Hfl. simpl in Hf, Hfl.
    rewrite Ef in Hat |- *. rewrite <- app_assoc in Hat. apply bits_at_skip in Hat.
    rewrite (IH f (i + 8) _ (off + 8) s); [|done|done|lia..].
    rewrite num_from_app, num_from_byte, zlen_app by done. do 2 f_equal. change (zlen (byte_bits x)) with 8. lia.
  - rewrite Hx. destruct (shift_in v i 1 (Z.b2z b)) as [-> Hr]; [lia..|destruct b; cbn; lia|].
    apply (bits_at_skip _ _ _ [b]) in Hat. simpl in Hf.
    rewrite (IH fld (i + 1) _ (off + 1) s); [|done|done|lia..]. rewrite zlen_cons. do 2 f_equal. lia.
Qed.

(** get_field is the number the next bits make. *)
Lemma get_field_spec fd d n off fld s :
  Forall is_byte fd → bits_at fd d off (fld ++ s) → zlen fld = n → n ≤ 32 →
  get_field fd d n off = Ok (num fld, off + n).
Proof.
  intros Hb Hat Hn Hm. unfold get_field. rewrite (field_loop_spec fd d n _ fld 0 0 off s); [by rewrite Hn|done|done|lia|done|lia|cbn; lia|].
  unfold zlen in Hn. lia.
Qed.

(** ** Units *)

(** Whether a start code begins somewhere in [l]. *)
Fixpoint has_code (l : list Z) : bool :=
  match l with
  | [] => false
  | x :: r => match r with
              | y :: z :: _ => bool_decide (x = 0 ∧ y = 0 ∧ z = 1) || has_code r
              | _ => false
              end
  end.

(** A unit with the code [c]: there is no other start code in it. *)
Definition unit_of (c : Z) (u : list Z) : Prop :=
  ∃ body, u = [0; 0; 1; c] ++ body ∧ Forall is_byte u ∧ has_code (c :: body) = false.

(** What is behind a unit: the end of the frame, which goes to [len], or the
    next unit. *)
Definition unit_end (stop len : Z) (t : list Z) : Prop :=
  stop = len ∨ ∃ t', t = [0; 0; 1] ++ t' ∧ stop + 3 ≤ len.

Lemma has_code_tail x l : has_code (x :: l) = false → has_code l = false.
Proof. destruct l as [|y [|z l]]; [done..|]. cbn. by intros [_ H]%orb_false_elim. Qed.

Lemma rd_drop {A} (fd : list A) i x r : drop (Z.to_nat i) fd = x :: r → 0 ≤ i → rd fd i = Ok x.
Proof.
  intros E Hi. unfold rd. rewrite decide_False by lia.
  assert (fd !! Z.to_nat i = Some x) as -> by by rewrite <- (Nat.add_0_r (Z.to_nat i)), <- lookup_drop, E. done.
Qed.

Lemma drop_next {A} (fd : list A) i x r : 0 ≤ i → drop (Z.to_nat i) fd = x :: r → drop (Z.to_nat (i + 1)) fd = r.
Proof.
  intros Hi E. replace (Z.to_nat (i + 1)) with (Z.to_nat i + 1)%nat by lia. by rewrite <- drop_drop, E.
Qed.

Lemma find_code_spec fd d len l t : ∀ fuel i,
  0 ≤ d → 0 < i → drop (Z.to_nat (d + i)) fd = l ++ t → has_code l = false → unit_end (i + zlen l) len t →
  (Z.to_nat (len - i) <= fuel)%nat →
  find_code fd fuel d len i = Ok (if decide (i + zlen l = len) then 0 else i + zlen l).
Proof.
  induction l as [|x l IH]; intros fuel i Hd Hi E Hno Hend Hf.
  - rewrite zlen_nil, Z.add_0_r in *. destruct Hend as [->|(t' & -> & Hl)].
    + rewrite decide_True by done. destruct fuel; cbn; by rewrite decide_False by lia.
    + rewrite (decide_False (P := i = len)) by lia. destruct fuel as [|fuel]; [lia|]. cbn [find_code].
      rewrite decide_True by lia. cbn [app] in E. rewrite (rd_drop _ _ _ _ E), res_bind_ok by lia.
      apply drop_next in E; [|lia]. rewrite decide_True by done.
      rewrite (rd_drop _ _ _ _ E), res_bind_ok by lia. apply drop_next in E; [|lia].
      rewrite decide_True by done. replace (d + i + 1 + 1) with (d + i + 2) in E by lia.
      by rewrite (rd_drop _ _ _ _ E) by lia.
  - rewrite zlen_cons in *. pose proof (zlen_nonneg l).
    destruct (decide (i < len - 2)) as [Hlt|Hlt].
    2:{ destruct Hend as [->|(t' & _ & Hl)]; [|lia]. rewrite (decide_True (P := len = len)) by done.
        destruct fuel; cbn; by rewrite decide_False by lia. }
    destruct fuel as [|fuel]; [lia|]. cbn [find_code]. rewrite decide_True by done.
    cbn [app] in E. rewrite (rd_drop _ _ _ _ E), res_bind_ok by lia. pose proof E as E1. apply drop_next in E1; [|lia].
    assert (find_code fd fuel d len (i + 1) = Ok (if decide (i + (1 + zlen l) = len) then 0 else i + (1 + zlen l))) as Hrec.
    { replace (i + (1 + zlen l)) with (i + 1 + zlen l) in * by lia. apply IH; try done; try lia.
      - by replace (d + (i + 1)) with (d + i + 1) by lia.
      - by eapply has_code_tail. }
    destruct (decide (x = 0)) as [->|Hx]; [|exact Hrec].
    assert (∃ y z r, l ++ t = y :: z :: r ∧ (y = 0 → z ≠ 1)) as (y & z & r & Er & Hyz).
    { destruct l as [|y [|z l]]; cbn in Hno |- *.
      - destruct Hend as [He|(t' & -> & _)]; [rewrite zlen_nil in He; lia|]. by exists 0, 0, (1 :: t').
      - destruct Hend as [He|(t' & -> & _)]; [unfold zlen in He; simpl in He; lia|]. by exists y, 0, (0 :: 1 :: t').
      - apply orb_false_elim in Hno as [Hno _]. b2p. exists y, z, (l ++ t). split; [done|]. intros ->. naive_solver. }
    rewrite Er in E1. rewrite (rd_drop _ _ _ _ E1), res_bind_ok by lia. apply drop_next in E1; [|lia].
    destruct (decide (y = 0)) as [Hy|Hy]; [|exact Hrec]. replace (d + i + 1 + 1) with (d + i + 2) in E1 by lia.
    rewrite (rd_drop _ _ _ _ E1), !res_bind_ok by lia. by rewrite bool_decide_eq_false_2 by auto.
Qed.

(** The walk over a frame finds the units it is made of. *)
Lemma unit_len_spec fd start length c u t :
  0 ≤ start → drop (Z.to_nat start) fd = u ++ t → unit_of c u → unit_end (start + zlen u) length t →
  unit_len fd start length = Ok (zlen u).
Proof.
  intros Hs E (body & -> & _ & Hno) Hend. unfold unit_len, find_next_code.
  set (l := [0; 1; c] ++ body). assert (zlen ([0; 0; 1; c] ++ body) = 1 + zlen l) as Hz by (unfold l; cbn [app]; by rewrite !zlen_cons). rewrite Hz in *.
  rewrite (find_code_spec fd start (length - start) l t); try done; try lia.
  - rewrite res_bind_ok. f_equal. pose proof (zlen_nonneg l). repeat case_decide; lia.
  - eapply drop_next; [done|]. rewrite E. done.
  - destruct body as [|b body]; [by cbn; destruct (decide (c = 0))|].
    cbn [app] in l. unfold l. cbn [has_code] in Hno |- *. destruct (c =? 1); done.
  - destruct Hend as [He|(t' & -> & He)]; [left; lia|right]. exists t'. split; [done|lia].
Qed.

Lemma start_code_spec fd d c u t :
  0 ≤ d → drop (Z.to_nat d) fd = u ++ t → unit_of c u → start_code fd d = Ok (256 + c).
Proof.
  intros Hd E (body & -> & Hb & _). cbn [app] in E, Hb. unfold start_code.
  repeat (rewrite (rd_drop _ _ _ _ E), res_bind_ok by lia; apply drop_next in E; [|lia];
    rewrite <- ?Z.add_assoc in E; change (1 + 1) with 2 in E; change (2 + 1) with 3 in E).
  rewrite !Forall_cons in Hb. rewrite GET_32_eq by naive_solver. done.
Qed.

(** The frame from [start] to [length] is these units, given with their codes. *)
Definition units_at (fd : list Z) (start length : Z) (us : list (Z * list Z)) : Prop :=
  0 ≤ start ∧ length = start + zlen (concat us.*2) ∧ Forall (λ x, unit_of x.1 x.2) us ∧
  ∃ slack, drop (Z.to_nat start) fd = concat us.*2 ++ slack.

Lemma unit_size c u : unit_of c u → 4 ≤ zlen u.
Proof. intros (body & -> & _). cbn [app]. rewrite !zlen_cons. pose proof (zlen_nonneg body). lia. Qed.

Lemma unit_bytes c u : unit_of c u → Forall is_byte u.
Proof. by intros (body & _ & ? & _). Qed.

(** One step of the walk: what the parsers see, and what is left. *)
Lemma units_step fd start length c u us :
  units_at fd start length ((c, u) :: us) →
  start < length ∧ unit_len fd start length = Ok (zlen u) ∧ start_code fd start = Ok (256 + c) ∧
  unit_of c u ∧ 4 ≤ zlen u ∧ slice fd start (zlen u) = u ∧ start + zlen u ≤ zlen fd ∧
  units_at fd (start + zlen u) length us.
Proof.
  intros (Hs & -> & Hus & slack & E). apply Forall_cons in Hus as (Hu & Hus). cbn [fst snd] in Hu.
  pose proof (unit_size _ _ Hu) as Hl. rewrite fmap_cons in *. cbn [concat snd] in *. rewrite <- (assoc (++)) in E.
  rewrite zlen_app. pose proof (zlen_nonneg (concat us.*2)).
  assert (drop (Z.to_nat (start + zlen u)) fd = concat us.*2 ++ slack) as E'.
  { rewrite Z2Nat.inj_add, <- drop_drop, E by lia. unfold zlen. by rewrite Nat2Z.id, drop_app_length. }
  split; [lia|]. split.
  { eapply (unit_len_spec fd start _ c u); [done|exact E|done|].
    destruct us as [|[c' u'] us]; [left; cbn; rewrite zlen_nil; lia|right].
    apply Forall_cons in Hus as (Hu' & _). pose proof (unit_size _ _ Hu') as Hl'. destruct Hu' as (b' & Eb & _). cbn [snd] in *.
    rewrite fmap_cons. cbn [concat snd]. rewrite zlen_app. pose proof (zlen_nonneg (concat us.*2)).
    exists (c' :: b' ++ concat us.*2 ++ slack). split; [by rewrite Eb, <- !(assoc (++))|]. lia. }
  split; [by eapply start_code_spec|]. split; [done|]. split; [done|]. split.
  { unfold slice, zlen. rewrite E, Nat2Z.id. by rewrite take_app_length. }
  split.
  { apply (f_equal List.length) in E. rewrite length_drop, length_app in E. unfold zlen in *. lia. }
  split; [lia|]. split; [lia|]. split; [done|]. by exists slack.
Qed.

(** The rest of a frame behind some of its units. *)
Lemma units_tail fd start length us ws :
  units_at fd start length (us ++ ws) → units_at fd (start + zlen (concat us.*2)) length ws.
Proof.
  revert start. induction us as [|[c u] us IH]; intros start Hat; [by rewrite Z.add_0_r|].
  rewrite <- app_comm_cons in Hat. apply units_step in Hat as (_ & _ & _ & _ & _ & _ & _ & Hat).
  rewrite fmap_cons. cbn [concat snd]. rewrite zlen_app, Z.add_assoc. by apply IH.
Qed.

(** Units as the packetizers note them: offset and length. *)
Section Blocks.
Context (fd : list Z).

Definition block_ok (d len : Z) : Prop := 0 ≤ d ∧ 4 ≤ len < 2147483648 ∧ d + len ≤ zlen fd.
Definition blocks_ok (bs : list (Z * Z)) : Prop := Forall (λ b, block_ok b.1 b.2) bs.
Definition blocks_data (bs : list (Z * Z)) : list Z := bs ≫= λ b, slice fd b.1 b.2.

Fixpoint unit_blocks (start : Z) (us : list (Z * list Z)) : list (Z * Z) :=
  match us with [] => [] | (_, u) :: us => (start, zlen u) :: unit_blocks (start + zlen u) us end.

Lemma unit_blocks_length start us : zlen (unit_blocks start us) = zlen us.
Proof. revert start. induction us as [|[c u] us IH]; intros start; [done|]. cbn. by rewrite !zlen_cons, IH. Qed.

Lemma unit_blocks_app start us ws :
  unit_blocks start (us ++ ws) = unit_blocks start us ++ unit_blocks (start + zlen (concat us.*2)) ws.
Proof.
  revert start. induction us as [|[c u] us IH]; intros start; [by rewrite Z.add_0_r|].
  rewrite <- app_comm_cons, fmap_cons. cbn [unit_blocks concat snd]. by rewrite IH, zlen_app, Z.add_assoc.
Qed.

Lemma unit_blocks_spec us : ∀ start length,
  units_at fd start length us → length < 2147483648 →
  blocks_ok (unit_blocks start us) ∧ blocks_data (unit_blocks start us) = concat us.*2.
Proof.
  induction us as [|[c u] us IH]; intros start length Hus Hl; [by split; [constructor|]|].
  pose proof Hus as (Hs & _). apply units_step in Hus as (Hlt & _ & _ & Hu & Hl4 & Hsl & Hin & Hus).
  destruct (IH _ _ Hus Hl) as (Hok & Hdata). destruct Hus as (_ & Hlen & _). pose proof (zlen_nonneg (concat us.*2)).
  split.
  - constructor; [|done]. cbn. split; [done|]. lia.
  - unfold blocks_data in *. cbn [unit_blocks mbind list_bind fst snd fmap list_fmap concat]. fold_fmap. by rewrite Hsl, Hdata.
Qed.
End Blocks.

(** A field of a unit, by its bits. *)
Definition field (u : list Z) (off n : nat) : Z := num (take n (drop off (bits_of u))).

Lemma length_bits_of u : length (bits_of u) = (8 * length u)%nat.
Proof.
  induction u as [|b u IH]; [done|]. change (bits_of (b :: u)) with (byte_bits b ++ bits_of u).
  rewrite length_app, IH. simpl length. change (length (byte_bits b)) with 8%nat. lia.
Qed.

Lemma slice_here fd d u : slice fd d (zlen u) = u → ∃ t, drop (Z.to_nat d) fd = u ++ t.
Proof.
  intros Hu. exists (drop (Z.to_nat (zlen u)) (drop (Z.to_nat d) fd)). rewrite <- Hu at 1. unfold slice. by rewrite take_drop.
Qed.

Lemma get_field_unit fd d u n off :
  Forall is_byte fd → 0 ≤ d → slice fd d (zlen u) = u → 0 ≤ off → 0 ≤ n ≤ 32 → off + n ≤ 8 * zlen u →
  get_field fd d n off = Ok (field u (Z.to_nat off) (Z.to_nat n), off + n).
Proof.
  intros Hb Hd Hu Ho Hn Hl. set (fld := take (Z.to_nat n) (drop (Z.to_nat off) (bits_of u))).
  assert (zlen fld = n) as Hz.
  { unfold fld, zlen in *. rewrite length_take, length_drop, length_bits_of. lia. }
  destruct (slice_here _ _ _ Hu) as (t & Et).
  apply (get_field_spec fd d n off fld (drop (Z.to_nat n) (drop (Z.to_nat off) (bits_of u)) ++ bits_of t)); [done| |done|lia].
  split; [done|]. split; [done|]. unfold fld. rewrite (assoc (++)), take_drop.
  replace (Z.to_nat (8 * d + off)) with (8 * Z.to_nat d + Z.to_nat off)%nat by lia.
  rewrite <- drop_drop, bits_of_drop, Et.
  assert (bits_of (u ++ t) = bits_of u ++ bits_of t) as -> by apply bind_app.
  by rewrite drop_app_le by (rewrite length_bits_of; unfold zlen in *; lia).
Qed.

Lemma num_from_add v l : num_from v l = 2 ^ zlen l * v + num l.
Proof.
  induction l as [|b l IH] using rev_ind; [cbn [num_from foldl]; change (2 ^ zlen (@nil bool)) with 1; lia|].
  rewrite !num_from_app, IH. cbn [num_from foldl]. rewrite zlen_app, Z.pow_add_r by (unfold zlen; lia).
  change (2 ^ zlen [b]) with 2. lia.
Qed.

Lemma field_range u off n : 0 ≤ field u off n < 2 ^ Z.of_nat n.
Proof.
  pose proof (num_from_range 0 0 (take n (drop off (bits_of u))) ltac:(lia) ltac:(cbn; lia)) as H. fold (field u off n) in H.
  split; [lia|]. eapply Z.lt_le_trans; [apply H|]. apply Z.pow_le_mono_r; [lia|]. unfold zlen. rewrite length_take. lia.
Qed.

(** Adjacent fields are one field. *)
Lemma field_split u off n m :
  (off + n + m <= 8 * length u)%nat → field u off (n + m) = 2 ^ Z.of_nat m * field u off n + field u (off + n) m.
Proof.
  intros Hl. unfold field. rewrite <- take_take_drop, num_from_app, num_from_add, drop_drop. f_equal. f_equal.
  unfold zlen. rewrite length_take, length_drop, length_bits_of. f_equal. lia.
Qed.
