(* ===== verification/RtpMpv.v ===== *)
(** * The MPEG-1 and MPEG-2 video packetizer (rtp-mpv.c)

    mpv_process_frame cuts a frame into its units, keeps the sequence header and
    what belongs to it for later key pictures, reads the header of the picture
    and notes the units from the first group or picture on. mpv_send packs these
    units into packets behind the header of RFC 2250; a slice that is larger than
    a packet is fragmented. The iovec array of 48 entries is a bound of the list
    of vectors; the frame buffer is [fd], and a unit is its offset and length. *)

From stdpp Require Import prelude gmap strings pretty.
From S2P Require Import Prelude Rtp RtpMedia Bitstream.

Local Open Scope c_scope.

Definition frame_rate_tab : list (Z * Z) :=
  [(0, 0); (1001, 24000); (1, 24); (1, 25); (1001, 30000); (1, 30); (1, 50); (1001, 60000); (1, 60);
   (0, 0); (0, 0); (0, 0); (0, 0); (0, 0); (0, 0); (0, 0)].

(** The arrays [blk] and [vsh] up to their counts [blk_count] and [vsh_len]. *)
Record rtp_mpv := mkMpv {
  blk : list (Z * Z);
  temporal_reference : Z;
  picture_type : Z;
  vectors : Z;
  vsh : list Z;
  init_done : Z;
  ts_incr : Z;
  timestamp : Z }.

Definition set_blk (o : rtp_mpv) (l : list (Z * Z)) : rtp_mpv :=
  mkMpv l (temporal_reference o) (picture_type o) (vectors o) (vsh o) (init_done o) (ts_incr o) (timestamp o).
Definition set_vsh (o : rtp_mpv) (l : list Z) : rtp_mpv :=
  mkMpv (blk o) (temporal_reference o) (picture_type o) (vectors o) l (init_done o) (ts_incr o) (timestamp o).

(** The fields malloc leaves unset are taken from [junk]. *)
Definition new_rtp_media_mpv (junk : rtp_mpv) : rtp_mpv :=
  mkMpv (blk junk) (temporal_reference junk) (picture_type junk) (vectors junk) (vsh junk) 0 (ts_incr junk) 0.

(** ** Parsing *)

Section Parse.
Context (fd : list Z).

Definition parse_video_sequence_header (out : rtp_mpv) (d : Z) : res rtp_mpv :=
  '(frc, _) ← get_field fd d 4 (32 + 12 + 12 + 4);
  '(num, den) ← rd frame_rate_tab frc;
  if decide (den = 0) then Fault DivByZero else
  Ok (mkMpv (blk out) (temporal_reference out) (picture_type out) (vectors out) (vsh out)
        1 ((90000 * num) `quot` den) (timestamp out)).

(** The motion vector fields of a picture header. *)
Definition parse_vectors (d len picture_type off : Z) : res Z :=
  if decide (picture_type = 2 ∨ picture_type = 3) then
    '(ffv, off) ← get_field fd d 1 off;
    '(ffc, off) ← (if decide (len > 8) then get_field fd d 3 off
                   else '(v, off) ← get_field fd d 2 off; Ok (u32 (Z.shiftl v 1), off));
    let v := Z.lor (Z.shiftl ffv 3) ffc in
    if decide (picture_type = 3 ∧ len > 8) then
      '(fbv, off) ← get_field fd d 1 off;
      '(bfc, _) ← get_field fd d 3 off;
      Ok (Z.lor (Z.lor v (Z.shiftl fbv 7)) (Z.shiftl bfc 4))
    else Ok v
  else Ok 0.

Definition parse_picture_header (out : rtp_mpv) (d len : Z) : res rtp_mpv :=
  if decide (init_done out = 0) then Ok out else
  '(tr, off) ← get_field fd d 10 32;
  '(pt, off) ← get_field fd d 3 off;
  v ← parse_vectors d len pt (off + 16);
  Ok (mkMpv (blk out) tr pt v (vsh out) (init_done out) (ts_incr out) (u32 (timestamp out + ts_incr out))).

(** A unit before the first group or picture: a sequence header starts the saved
    header, what follows it is added. *)
Definition save_header (out : rtp_mpv) (have_vsh : bool) (code start flen : Z) : res (rtp_mpv * bool) :=
  '(out, have_vsh) ← (if decide (code = 435)
                      then out ← parse_video_sequence_header (set_vsh out []) start; Ok (out, true)
                      else Ok (out, have_vsh));
  if (have_vsh : bool) then
    bytes ← copy_from fd start flen;
    if decide (zlen (vsh out) + flen ≤ 4096) then Ok (set_vsh out (vsh out ++ bytes), have_vsh)
    else Fault OutOfBounds
  else Ok (out, have_vsh).

Fixpoint mpv_loop (fuel : nat) (length start : Z) (in_picture have_vsh : bool) (out : rtp_mpv) : res rtp_mpv :=
  if decide (start < length) then
    match fuel with
    | O => Fault OutOfFuel
    | S fuel =>
        if decide (zlen (blk out) = 48) then Ok out else
        flen ← unit_len fd start length;
        code ← start_code fd start;
        let in_picture := in_picture || bool_decide (code ≤ 431 ∨ code = 440) in
        if in_picture then
          out ← (if decide (code = 256) then parse_picture_header out start flen else Ok out);
          mpv_loop fuel length (start + flen) in_picture have_vsh (set_blk out (blk out ++ [(start, flen)]))
        else
          '(out, have_vsh) ← save_header out have_vsh code start flen;
          mpv_loop fuel length (start + flen) in_picture have_vsh out
    end
  else Ok out.

Definition mpv_process_frame (length : Z) (out : rtp_mpv) : res (rtp_mpv * Z) :=
  out ← mpv_loop (Z.to_nat length) length 0 false false (set_blk out []);
  Ok (out, init_done out).

End Parse.

Definition mpv_get_sdp (port : Z) : list Z := $"m=video " ++ fmt_d port ++ $" RTP/AVP 32" ++ crlf.
Definition mpv_get_payload (payload : Z) : Z := 32.

(** ** Sending *)

Section Send.
Context (fd : list Z) (out : rtp_mpv).

(** A packet with the MPEG header, whose third byte is [h2], and the vectors
    from v[2] on. *)
Definition mpv_pkt (h2 : Z) (v : list (list Z)) (marker : bool) : packet :=
  mkPkt ((PUT_16 (temporal_reference out) ++ [h2; u8 (vectors out)]) :: v) (timestamp out) marker.

Definition is_slice (c : Z) : bool := bool_decide (0 < c ≤ 175).

(** The fragments after the first one. The sizes are unsigned; the end bit and
    the marker go with the fragment that is not clipped, which is the one that
    reaches the end of the unit. *)
Definition mpv_clip (mtu : Z) (_ : unit) (_ rest : Z) : Z :=
  if decide (u32 rest > u32 (mtu - 4)) then mtu - 4 else rest.
Definition mpv_frag (d len : Z) (last : bool) (_ : unit) (off plen : Z) : packet :=
  let h2 := if decide (plen + off = len) then Z.lor (u8 (picture_type out)) 8 else u8 (picture_type out) in
  mpv_pkt h2 [slice fd (d + off) plen] (bool_decide (Z.land h2 8 ≠ 0) && last).

(** The packet being built: the vectors from v[2] on, [vhdr[2]] and [space]. *)
Record pack := mkPack { pk_vs : list (list Z); pk_h2 : Z; pk_space : Z }.
Definition new_pack (mtu : Z) : pack := mkPack [] (u8 (picture_type out)) (mtu - 4).

(** Sending the previous units when the next one has not enough space. *)
Definition mpv_flush {E} `{RtpSink E} (len : Z) (e : E) (p : pack) : option (E * pack) :=
  let min_space := if decide (len > sink_mtu e - 4) then 4 else len in
  if decide (pk_space p < min_space)
  then e ← sink_send e (mpv_pkt (pk_h2 p) (pk_vs p) false); Some (e, new_pack (sink_mtu e))
  else Some (e, p).

(** Adding the unit, or sending it in fragments when it does not fit. *)
Definition mpv_place {E} `{RtpSink E} (d len : Z) (last : bool) (e : E) (p : pack) : res (option (E * pack)) :=
  if decide (2 + zlen (pk_vs p) < 48) then
    c ← rd fd (d + 3);
    let h2 := if is_slice c then Z.lor (pk_h2 p) 16 else pk_h2 p in
    if decide (u32 len ≤ u32 (pk_space p)) then
      Ok (Some (e, mkPack (pk_vs p ++ [slice fd d len]) (if is_slice c then Z.lor h2 8 else h2) (pk_space p - len)))
    else
      match sink_send e (mpv_pkt (Z.land h2 (Z.lnot 8)) (pk_vs p ++ [slice fd d (pk_space p)]) false) with
      | None => Ok None
      | Some e =>
          o ← frag_loop mpv_clip (mpv_frag d len last) id (Z.to_nat len) len e tt (pk_space p);
          match o with None => Ok None | Some e => Ok (Some (e, new_pack (sink_mtu e))) end
      end
  else Fault OutOfBounds.

Fixpoint mpv_blocks {E} `{RtpSink E} (bs : list (Z * Z)) (e : E) (p : pack) : res (option (E * pack)) :=
  match bs with
  | [] => Ok (Some (e, p))
  | (d, len) :: rest =>
      match mpv_flush len e p with
      | None => Ok None
      | Some (e, p) =>
          o ← mpv_place d len (bool_decide (rest = [])) e p;
          match o with None => Ok None | Some (e, p) => mpv_blocks rest e p end
      end
  end.

(** A key picture begins with the saved sequence header. *)
Definition first_pack (mtu : Z) : pack :=
  let p := new_pack mtu in
  if decide (picture_type out = 1) then mkPack [vsh out] (Z.lor (pk_h2 p) 32) (pk_space p - zlen (vsh out)) else p.

Definition mpv_send {E} `{RtpSink E} (e : E) : res (option E) :=
  o ← mpv_blocks (blk out) e (first_pack (sink_mtu e));
  match o with
  | None => Ok None
  | Some (e, p) =>
      if decide (pk_vs p ≠ []) then Ok (sink_send e (mpv_pkt (pk_h2 p) (pk_vs p) true)) else Ok (Some e)
  end.

(** ** The packets it sends *)

Definition flush_packets (mtu len : Z) (p : pack) : list packet * pack :=
  if decide (pk_space p < if decide (len > mtu - 4) then 4 else len)
  then ([mpv_pkt (pk_h2 p) (pk_vs p) false], new_pack mtu) else ([], p).

Definition place_packets (mtu d len : Z) (last : bool) (p : pack) : list packet * pack :=
  let s := is_slice (default 0 (fd !! Z.to_nat (d + 3))) in
  let h2 := if s then Z.lor (pk_h2 p) 16 else pk_h2 p in
  if decide (len ≤ pk_space p)
  then ([], mkPack (pk_vs p ++ [slice fd d len]) (if s then Z.lor h2 8 else h2) (pk_space p - len))
  else (mpv_pkt (Z.land h2 (Z.lnot 8)) (pk_vs p ++ [slice fd d (pk_space p)]) false
        :: frags mpv_clip (mpv_frag d len last) id (Z.to_nat len) mtu len tt (pk_space p), new_pack mtu).

Fixpoint mpv_packets (mtu : Z) (bs : list (Z * Z)) (p : pack) : list packet :=
  match bs with
  | [] => if decide (pk_vs p ≠ []) then [mpv_pkt (pk_h2 p) (pk_vs p) true] else []
  | (d, len) :: rest =>
      let '(l1, p) := flush_packets mtu len p in
      let '(l2, p) := place_packets mtu d len (bool_decide (rest = [])) p in
      l1 ++ l2 ++ mpv_packets mtu rest p
  end.

End Send.

Section Packets.
Context (fd : list Z) (out : rtp_mpv).

Lemma mpv_clip_ok mtu : 4 < mtu < 2147483648 → clip_ok mpv_clip mtu.
Proof.
  intros Hm s i rest Hr. unfold mpv_clip. case_decide as Hc; [|lia].
  rewrite (u32_small (mtu - 4)) in Hc by lia. assert (u32 rest ≤ rest) by (apply Z.mod_le; lia). lia.
Qed.

Lemma mpv_flush_packets {E} `{RtpSink E} len (e : E) p :
  mpv_flush out len e p =
  match send_seq e (flush_packets out (sink_mtu e) len p).1 with
  | Some e' => Some (e', (flush_packets out (sink_mtu e) len p).2)
  | None => None
  end.
Proof.
  unfold mpv_flush, flush_packets. case_decide; [|done]. cbn.
  destruct (sink_send e _) eqn:Es; [|done]. cbn. by rewrite (sink_mtu_stable _ _ _ Es).
Qed.

Lemma mpv_place_packets {E} `{RtpSink E} d len last (e : E) p :
  4 < sink_mtu e < 2147483648 → block_ok fd d len → 0 ≤ pk_space p < 2147483648 → zlen (pk_vs p) < 46 →
  mpv_place fd out d len last e p =
  Ok (match send_seq e (place_packets fd out (sink_mtu e) d len last p).1 with
      | Some e' => Some (e', (place_packets fd out (sink_mtu e) d len last p).2)
      | None => None
      end).
Proof.
  intros Hm (Hd & Hl & Hb) Hs Hv. unfold mpv_place, place_packets. rewrite decide_True by lia.
  destruct (rd_ok fd (d + 3)) as (c & -> & ->); [lia|]. rewrite res_bind_ok. cbn [default from_option id].
  rewrite !u32_small by lia. case_decide; [done|]. cbn [fst snd send_seq].
  destruct (sink_send e _) as [e1|] eqn:Es; [|done]. pose proof (sink_mtu_stable _ _ _ Es) as Em.
  rewrite frag_loop_frags; [|rewrite Em; by apply mpv_clip_ok|lia]. rewrite Em, res_bind_ok.
  destruct (send_seq e1 _) as [e2|] eqn:E2; [|done]. by rewrite (send_seq_mtu _ _ _ E2), Em.
Qed.

(** The space left, and the number of vectors. *)
Lemma flush_space mtu len p :
  8 ≤ mtu → 4 ≤ len → pk_space p ≤ mtu - 4 →
  4 ≤ pk_space (flush_packets out mtu len p).2 ≤ mtu - 4 ∧ zlen (pk_vs (flush_packets out mtu len p).2) ≤ zlen (pk_vs p).
Proof.
  intros Hm Hl Hs. pose proof (zlen_nonneg (pk_vs p)). unfold flush_packets.
  destruct (decide (len > mtu - 4)); case_decide; cbn; rewrite ?zlen_nil; lia.
Qed.

Lemma place_space mtu d len last p :
  0 ≤ len → pk_space p ≤ mtu - 4 →
  pk_space (place_packets fd out mtu d len last p).2 ≤ mtu - 4 ∧
  zlen (pk_vs (place_packets fd out mtu d len last p).2) ≤ zlen (pk_vs p) + 1.
Proof.
  intros Hl Hs. pose proof (zlen_nonneg (pk_vs p)). unfold place_packets.
  case_decide; cbn; autorewrite with wc_len; lia.
Qed.

(** mpv_send sends the packets, and stays within the array of vectors. *)
Lemma mpv_blocks_packets {E} `{RtpSink E} bs : ∀ (e : E) p,
  8 ≤ sink_mtu e < 2147483648 → blocks_ok fd bs → zlen (pk_vs p) + zlen bs ≤ 46 → pk_space p ≤ sink_mtu e - 4 →
  (o ← mpv_blocks fd out bs e p;
   match o with
   | None => Ok None
   | Some (e, p) => if decide (pk_vs p ≠ []) then Ok (sink_send e (mpv_pkt out (pk_h2 p) (pk_vs p) true)) else Ok (Some e)
   end) = Ok (send_seq e (mpv_packets fd out (sink_mtu e) bs p)).
Proof.
  induction bs as [|[d len] bs IH]; intros e p Hm Hbs Hn Hs.
  { cbn. case_decide; [|done]. cbn. by destruct (sink_send e _). }
  apply Forall_cons in Hbs as (Hb & Hbs). pose proof Hb as (? & ? & _). cbn [fst snd] in *. rewrite zlen_cons in Hn.
  pose proof (zlen_nonneg bs). destruct (flush_space (sink_mtu e) len p) as [Hs1 Hv1]; [lia..|].
  cbn [mpv_blocks mpv_packets]. rewrite mpv_flush_packets.
  destruct (flush_packets _ _ _ _) as [l1 p1]. cbn [fst snd] in *.
  destruct (place_space (sink_mtu e) d len (bool_decide (bs = [])) p1) as [Hs2 Hv2]; [lia..|].
  destruct (place_packets _ _ _ _ _ _ _) as [l2 p2] eqn:E2. cbn [fst snd] in *. rewrite send_seq_app.
  destruct (send_seq e l1) as [e1|] eqn:Es1; [|done]. pose proof (send_seq_mtu _ _ _ Es1) as Em1.
  rewrite mpv_place_packets, Em1, E2 by (rewrite ?Em1; done || lia). cbn [fst snd].
  rewrite res_bind_ok, send_seq_app.
  destruct (send_seq e1 l2) as [e2|] eqn:Es2; [|done]. pose proof (send_seq_mtu _ _ _ Es2) as Em2.
  rewrite IH by (rewrite ?Em2, ?Em1; done || lia). by rewrite Em2, Em1.
Qed.

(** ** What a receiver gets: the units, in order *)

Definition payload (p : packet) : list Z := concat (tail (pk_v p)).
Lemma place_payload mtu d len last p :
  4 < mtu < 2147483648 → block_ok fd d len → 0 ≤ pk_space p →
  concat (payload <$> (place_packets fd out mtu d len last p).1) ++ concat (pk_vs (place_packets fd out mtu d len last p).2)
  = concat (pk_vs p) ++ slice fd d len.
Proof.
  intros Hm (Hd & Hl & Hb) Hs. unfold place_packets. case_decide as Hc; cbn [fst snd pk_vs].
  { by rewrite concat_app; cbn; rewrite app_nil_r. }
  rewrite fmap_cons. cbn [concat new_pack pk_vs]. rewrite app_nil_r. unfold payload at 1. cbn [mpv_pkt pk_v tail].
  rewrite (frags_data _ _ _ payload (drop (Z.to_nat d) fd)); [|by apply mpv_clip_ok| |lia|lia].
  - rewrite concat_app. cbn. rewrite app_nil_r, <- app_assoc. f_equal.
    rewrite <- slice_drop by lia. rewrite slice_app by lia. f_equal. lia.
  - intros s i plen Hi. unfold payload. cbn. by rewrite app_nil_r, slice_drop.
Qed.

Lemma mpv_packets_payload mtu bs p :
  8 ≤ mtu < 2147483648 → blocks_ok fd bs → pk_space p ≤ mtu - 4 →
  concat (payload <$> mpv_packets fd out mtu bs p) = concat (pk_vs p) ++ blocks_data fd bs.
Proof.
  intros Hm. revert p. induction bs as [|[d len] bs IH]; intros p Hbs Hs.
  { cbn. unfold blocks_data. cbn. rewrite app_nil_r. case_decide as Hv; cbn; [by rewrite app_nil_r|].
    by rewrite Hv. }
  apply Forall_cons in Hbs as (Hb & Hbs). pose proof Hb as (? & ? & _). cbn [fst snd] in *.
  destruct (flush_space mtu len p) as [Hs1 _]; [lia..|]. cbn [mpv_packets].
  assert (concat (payload <$> (flush_packets out mtu len p).1) ++ concat (pk_vs (flush_packets out mtu len p).2) = concat (pk_vs p)) as Hf.
  { unfold flush_packets. case_decide; [|done]. cbn. by rewrite !app_nil_r. }
  destruct (flush_packets _ _ _ _) as [l1 p1]. cbn [fst snd] in *.
  destruct (place_space mtu d len (bool_decide (bs = [])) p1) as [Hs2 _]; [lia..|].
  pose proof (place_payload mtu d len (bool_decide (bs = [])) p1 ltac:(lia) Hb ltac:(lia)) as Hp.
  destruct (place_packets _ _ _ _ _ _ _) as [l2 p2]. cbn [fst snd] in *.
  rewrite !fmap_app, !concat_app, IH by done. rewrite <- Hf. unfold blocks_data. cbn [mbind list_bind fst snd].
  rewrite !(assoc (++)). f_equal. rewrite <- !(assoc (++)), Hp. done.
Qed.

(** ** Sizes, headers and markers of the packets *)

Definition pack_fits (mtu : Z) (p : pack) : Prop := 0 ≤ pk_space p ∧ 4 + zlen (concat (pk_vs p)) + pk_space p ≤ mtu.
Definition pkt_ok (mtu : Z) (p : packet) : Prop := pk_size p ≤ mtu ∧ pk_ts p = timestamp out.

Lemma mpv_pkt_size h2 v m : pk_size (mpv_pkt out h2 v m) = 4 + zlen (concat v).
Proof. unfold pk_size, mpv_pkt. cbn [pk_v concat]. by rewrite zlen_app. Qed.

Lemma mpv_pkt_ok mtu h2 v m : 4 + zlen (concat v) ≤ mtu → pkt_ok mtu (mpv_pkt out h2 v m).
Proof. intros Hs. split; [by rewrite mpv_pkt_size|done]. Qed.

Context (Hpt : 0 ≤ picture_type out < 8).

Lemma type_bits : u8 (picture_type out) = picture_type out ∧ Z.land (picture_type out) 7 = picture_type out ∧
  Z.land (picture_type out) 8 = 0 ∧ Z.land (Z.lor (picture_type out) 8) 8 ≠ 0.
Proof.
  assert (Forall (λ t, u8 t = t ∧ Z.land t 7 = t ∧ Z.land t 8 = 0 ∧ Z.land (Z.lor t 8) 8 ≠ 0) (seqZ 0 8)) as H by closed_nonzero.
  rewrite Forall_forall in H. apply H, elem_of_seqZ. lia.
Qed.

Lemma new_pack_ok mtu : 4 ≤ mtu → pack_fits mtu (new_pack out mtu).
Proof.
  intros Hm. unfold pack_fits, new_pack. cbn [pk_vs pk_space concat]. change (zlen (@nil Z)) with 0. lia.
Qed.

Lemma place_ok mtu d len last p :
  8 ≤ mtu < 2147483648 → block_ok fd d len → pack_fits mtu p →
  Forall (pkt_ok mtu) (place_packets fd out mtu d len last p).1 ∧
  pack_fits mtu (place_packets fd out mtu d len last p).2.
Proof.
  intros Hm (Hd & Hl & Hb) (Hs & Hf). unfold place_packets. case_decide as Hc; cbn [fst snd].
  - split; [constructor|]. unfold pack_fits. cbn [pk_vs pk_space]. rewrite concat_app, zlen_app. cbn [concat].
    rewrite app_nil_r, zlen_slice by lia. lia.
  - split; [|apply new_pack_ok; lia]. constructor.
    + apply mpv_pkt_ok. rewrite concat_app, zlen_app. cbn [concat]. rewrite app_nil_r, zlen_slice by lia. lia.
    + apply (frags_Forall _ _ _ (λ _, True)); [apply mpv_clip_ok; lia|done|done|]. intros u j _ Hj.
      apply mpv_pkt_ok. cbn [concat]. rewrite app_nil_r. unfold mpv_clip. rewrite !u32_small by lia.
      case_decide; (etrans; [apply Z.add_le_mono_l, zlen_slice_le; lia|lia]).
Qed.

Lemma mpv_packets_ok mtu bs p :
  8 ≤ mtu < 2147483648 → blocks_ok fd bs → pack_fits mtu p → Forall (pkt_ok mtu) (mpv_packets fd out mtu bs p).
Proof.
  intros Hm. revert p. induction bs as [|[d len] bs IH]; intros p Hbs Hf.
  { cbn. case_decide; constructor; [|constructor]. apply mpv_pkt_ok. destruct Hf. lia. }
  apply Forall_cons in Hbs as (Hb & Hbs). cbn [fst snd mpv_packets] in *.
  assert (Forall (pkt_ok mtu) (flush_packets out mtu len p).1 ∧ pack_fits mtu (flush_packets out mtu len p).2) as (Hl1 & Hf1).
  { unfold flush_packets. case_decide; cbn [fst snd]; [|done]. split; [|apply new_pack_ok; lia].
    constructor; [|constructor]. apply mpv_pkt_ok. destruct Hf. lia. }
  destruct (flush_packets _ _ _ _) as [l1 p1]. cbn [fst snd] in *.
  destruct (place_ok mtu d len (bool_decide (bs = [])) p1 Hm Hb Hf1) as (Hl2 & Hf2).
  destruct (place_packets _ _ _ _ _ _ _) as [l2 p2]. cbn [fst snd] in *.
  rewrite !Forall_app. auto.
Qed.

(** A packet that has no space left is sent before the next unit. *)
Lemma mpv_packets_full mtu b bs p :
  8 ≤ mtu → 4 ≤ b.2 → pk_space p < 4 →
  mpv_packets fd out mtu (b :: bs) p = mpv_pkt out (pk_h2 p) (pk_vs p) false :: mpv_packets fd out mtu (b :: bs) (new_pack out mtu).
Proof.
  intros Hm Hl Hs. destruct b as [d len]. cbn [mpv_packets fst snd] in *. unfold flush_packets at 1.
  rewrite decide_True by (case_decide; lia). unfold flush_packets. cbn [new_pack pk_space].
  rewrite decide_False by (case_decide; lia). by destruct (place_packets _ _ _ _ _ _ _).
Qed.

(** The marker is on the last packet of a frame. *)
Definition marked_last (l : list packet) : Prop := ∀ k p, l !! k = Some p → pk_marker p = bool_decide (S k = length l).

Lemma marked_last_app l1 l2 :
  Forall (λ p, pk_marker p = false) l1 → (l2 = [] → l1 = []) → marked_last l2 → marked_last (l1 ++ l2).
Proof.
  intros H1 H0 H2 k p. rewrite length_app, lookup_app_Some. intros [Hk|(Hk & Hp)].
  - apply lookup_lt_Some in Hk as Hlt. rewrite Forall_lookup in H1. rewrite (H1 _ _ Hk). symmetry.
    apply bool_decide_eq_false_2. destruct l2; [by rewrite (H0 eq_refl) in Hk|simpl; lia].
  - rewrite (H2 _ _ Hp). apply bool_decide_ext. lia.
Qed.

Lemma place_markers mtu d len last p :
  8 ≤ mtu < 2147483648 → block_ok fd d len → 0 ≤ pk_space p →
  let '(l, p') := place_packets fd out mtu d len last p in
  (pk_vs p' ≠ [] ∧ l = []) ∨
  (pk_vs p' = [] ∧ if last then marked_last l else Forall (λ p, pk_marker p = false) l).
Proof.
  intros Hm (Hd & Hl & Hb) Hs. destruct type_bits as (E & _ & E8 & E8'). unfold place_packets. case_decide as Hc.
  { left. split; [by destruct (pk_vs p)|done]. }
  right. split; [done|].
  assert (∀ s i plen, pk_marker (mpv_frag fd out d len last s i plen) = bool_decide (plen + i = len) && last) as Hmk.
  { intros s i plen. unfold mpv_frag. cbn [mpv_pkt pk_marker]. rewrite E. f_equal. case_decide.
    - by rewrite !bool_decide_eq_true_2.
    - rewrite bool_decide_eq_false_2 by (rewrite E8; auto). by rewrite bool_decide_eq_false_2. }
  destruct last.
  - set (h2 := Z.land _ _). change (?a :: ?l) with ([a] ++ l). apply marked_last_app.
    + by constructor.
    + destruct (Z.to_nat len) as [|n] eqn:En; [lia|]. cbn [frags]. by rewrite decide_True by lia.
    + intros k q Hk. eapply frags_marker; [apply mpv_clip_ok; lia| |lia|exact Hk].
      intros. by rewrite Hmk, andb_true_r.
  - constructor; [done|]. apply (frags_Forall _ _ _ (λ _, True)); [apply mpv_clip_ok; lia|done|done|].
    intros s j _ _. by rewrite Hmk, andb_false_r.
Qed.

Lemma mpv_packets_marked mtu bs p :
  8 ≤ mtu < 2147483648 → blocks_ok fd bs → pk_space p ≤ mtu - 4 →
  marked_last (mpv_packets fd out mtu bs p) ∧ ((bs ≠ [] ∨ pk_vs p ≠ []) → mpv_packets fd out mtu bs p ≠ []).
Proof.
  intros Hm. revert p. induction bs as [|[d len] bs IH]; intros p Hbs Hs.
  { cbn. case_decide; (split; [|naive_solver]); [|done]. intros [|k] q; [by intros [= <-]|done]. }
  apply Forall_cons in Hbs as (Hb & Hbs). pose proof Hb as (? & ? & _). cbn [fst snd mpv_packets] in *.
  destruct (flush_space mtu len p) as [Hs1 _]; [lia..|].
  assert (Forall (λ p, pk_marker p = false) (flush_packets out mtu len p).1) as Hf.
  { unfold flush_packets. case_decide; by repeat constructor. }
  destruct (flush_packets _ _ _ _) as [l1 p1]. cbn [fst snd] in *.
  destruct (place_space mtu d len (bool_decide (bs = [])) p1) as [Hs2 _]; [lia..|].
  pose proof (place_markers mtu d len (bool_decide (bs = [])) p1 Hm Hb ltac:(lia)) as Hp.
  pose proof (place_payload mtu d len (bool_decide (bs = [])) p1 ltac:(lia) Hb ltac:(lia)) as Hd.
  destruct (place_packets _ _ _ _ _ _ _) as [l2 p2]. cbn [fst snd] in *.
  destruct (IH p2 Hbs Hs2) as [Hrest Hne].
  assert (l2 ++ mpv_packets fd out mtu bs p2 ≠ []) as Hnn.
  { destruct Hp as [[Hv ->]|[Hv _]]; [by apply Hne; right|]. intros [-> _]%app_nil. rewrite Hv in Hd.
    cbn in Hd. symmetry in Hd. apply app_nil in Hd as [_ Hd]. apply (f_equal zlen) in Hd.
    rewrite zlen_slice, zlen_nil in Hd by (destruct Hb as (? & ? & ?); lia). lia. }
  split; [|intros _ [_ H']%app_nil; done].
  apply marked_last_app; [done|done|]. destruct Hp as [[Hv ->]|[Hv Hl2]]; [done|].
  case_bool_decide as Hlast; [subst bs|].
  - cbn. rewrite Hv, decide_False, app_nil_r by auto. done.
  - apply marked_last_app; [done| |done]. intros He. destruct Hne; auto.
Qed.
End Packets.

(** ** What the parser makes of a frame *)

(** The fields of a picture header: FFV and FFC are one field of four bits, and
    so are FBV and BFC. *)
Definition picture_vectors (u : list Z) : Z :=
  if decide (field u 42 3 = 2) then field u 61 4
  else if decide (field u 42 3 = 3) then 16 * field u 65 4 + field u 61 4 else 0.
Definition with_picture (out : rtp_mpv) (u : list Z) : rtp_mpv :=
  mkMpv (blk out) (field u 32 10) (field u 42 3) (picture_vectors u) (vsh out) (init_done out) (ts_incr out)
    (u32 (timestamp out + ts_incr out)).
Definition picture_unit (u : list Z) : Prop := 8 ≤ zlen u ∧ (field u 42 3 = 2 ∨ field u 42 3 = 3 → 9 ≤ zlen u).

(** The frame rate of a sequence header. *)
Definition unit_incr (u : list Z) : Z :=
  let r := default (0, 0) (frame_rate_tab !! Z.to_nat (field u 60 4)) in (90000 * r.1) `quot` r.2.
Definition sequence_unit (u : list Z) : Prop := 8 ≤ zlen u ∧ 1 ≤ field u 60 4 ≤ 8.

Definition pictures (out : rtp_mpv) (us : list (Z * list Z)) : rtp_mpv :=
  foldl (λ o x, if decide (x.1 = 0) then with_picture o x.2 else o) out us.

Section Parsing.
Context (fd : list Z) (Hfd : Forall is_byte fd).

Lemma parse_vectors_spec d u :
  0 ≤ d → slice fd d (zlen u) = u → picture_unit u →
  parse_vectors fd d (zlen u) (field u 42 3) 61 = Ok (picture_vectors u).
Proof.
  intros Hd Hu (H8 & H9). unfold parse_vectors, picture_vectors.
  destruct (decide (field u 42 3 = 2 ∨ field u 42 3 = 3)) as [Hp|Hp].
  2:{ by rewrite !decide_False by naive_solver. }
  specialize (H9 Hp). assert (length u >= 9)%nat by (unfold zlen in *; lia).
  rewrite (get_field_unit fd d u) by (done || lia). rewrite res_bind_ok. rewrite decide_True by lia.
  rewrite (get_field_unit fd d u) by (done || lia). rewrite res_bind_ok.
  change (Z.to_nat 61) with 61%nat. change (Z.to_nat 1) with 1%nat. change (Z.to_nat 3) with 3%nat.
  change (Z.to_nat (61 + 1)) with 62%nat.
  rewrite lor_shiftl_add by (lia || apply (field_range u 62 3)).
  assert (field u 61 1 * 2 ^ 3 + field u 62 3 = field u 61 4) as ->.
  { pose proof (field_split u 61 1 3 ltac:(lia)) as E. cbn [Nat.add] in E. rewrite E.
    change (2 ^ Z.of_nat 3) with 8. change (2 ^ 3) with 8. lia. }
  destruct (decide (field u 42 3 = 2)) as [H2|H2]; [by rewrite decide_False by lia|].
  rewrite decide_True by (destruct Hp; lia). rewrite decide_True by (destruct Hp; done).
  rewrite (get_field_unit fd d u) by (done || lia). rewrite res_bind_ok.
  rewrite (get_field_unit fd d u) by (done || lia). rewrite res_bind_ok. f_equal.
  change (Z.to_nat (61 + 1 + 3)) with 65%nat. change (Z.to_nat (61 + 1 + 3 + 1)) with 66%nat.
  change (Z.to_nat 1) with 1%nat. change (Z.to_nat 3) with 3%nat.
  pose proof (field_split u 65 1 3 ltac:(lia)) as E. cbn [Nat.add] in E. rewrite E.
  pose proof (field_range u 61 4). pose proof (field_range u 66 3).
  replace (Z.shiftl (field u 65 1) 7) with (Z.shiftl (Z.shiftl (field u 65 1) 3) 4) by by rewrite Z.shiftl_shiftl.
  rewrite <- Z.lor_assoc, <- Z.shiftl_lor, Z.lor_comm, !lor_shiftl_add by lia.
  change (2 ^ Z.of_nat 3) with 8. change (2 ^ 3) with 8. change (2 ^ 4) with 16. lia.
Qed.

Lemma parse_picture_header_spec out d u :
  0 ≤ d → slice fd d (zlen u) = u → picture_unit u → init_done out ≠ 0 →
  parse_picture_header fd out d (zlen u) = Ok (with_picture out u).
Proof.
  intros Hd Hu Hp Hi. pose proof Hp as [H8 _]. unfold parse_picture_header. rewrite decide_False by done.
  rewrite (get_field_unit fd d u) by (done || lia). rewrite res_bind_ok.
  rewrite (get_field_unit fd d u) by (done || lia). rewrite res_bind_ok.
  change (Z.to_nat 32) with 32%nat. change (Z.to_nat 10) with 10%nat. change (Z.to_nat (32 + 10)) with 42%nat.
  change (Z.to_nat 3) with 3%nat. change (32 + 10 + 3 + 16) with 61. by rewrite parse_vectors_spec.
Qed.

Lemma parse_sequence_spec out d u :
  0 ≤ d → slice fd d (zlen u) = u → sequence_unit u →
  parse_video_sequence_header fd out d =
  Ok (mkMpv (blk out) (temporal_reference out) (picture_type out) (vectors out) (vsh out) 1 (unit_incr u) (timestamp out)).
Proof.
  intros Hd Hu (H8 & Hr). unfold parse_video_sequence_header, unit_incr.
  rewrite (get_field_unit fd d u) by (done || lia). rewrite res_bind_ok.
  change (Z.to_nat (32 + 12 + 12 + 4)) with 60%nat. change (Z.to_nat 4) with 4%nat.
  assert (Forall (λ k, ∃ n m, rd frame_rate_tab k = Ok (n, m) ∧ frame_rate_tab !! Z.to_nat k = Some (n, m) ∧ m ≠ 0)
    [1; 2; 3; 4; 5; 6; 7; 8]) as Htab by (repeat constructor; eexists _, _; repeat split; done).
  rewrite Forall_forall in Htab. destruct (Htab (field u 60 4)) as (n & m & -> & -> & Hm).
  { assert (∀ k, 1 ≤ k ≤ 8 → k ∈ [1; 2; 3; 4; 5; 6; 7; 8]) as Hk; [|by apply Hk].
    intros k Hk. assert (k ∈ seqZ 1 8) as Hs by (apply elem_of_seqZ; lia). exact Hs. }
  rewrite res_bind_ok. by rewrite decide_False.
Qed.

(** From the first group or picture on. *)
Lemma mpv_loop_pictures length us : ∀ fuel start ip hv out,
  units_at fd start length us → (Z.to_nat (length - start) <= fuel)%nat →
  init_done out ≠ 0 → zlen (blk out) + zlen us ≤ 48 →
  Forall (λ x, x.1 = 0 → picture_unit x.2) us →
  (ip = true ∨ match us with [] => True | x :: _ => x.1 ≤ 175 ∨ x.1 = 184 end) →
  mpv_loop fd fuel length start ip hv out =
  Ok (set_blk (pictures out us) (blk out ++ unit_blocks start us)).
Proof.
  induction us as [|[c u] us IH]; intros fuel start ip hv out Hus Hf Hi Hn Hp Hip.
  { destruct Hus as (_ & Hl & _). cbn [fmap list_fmap concat] in Hl. rewrite zlen_nil in Hl.
    destruct fuel; cbn; rewrite decide_False by lia; rewrite app_nil_r; by destruct out. }
  pose proof Hus as (Hs & _). apply units_step in Hus as (Hlt & Hul & Hcode & Hu & Hl4 & Hsl & Hin & Hus).
  rewrite zlen_cons in Hn. pose proof (zlen_nonneg us). apply Forall_cons in Hp as (Hpu & Hp). cbn [fst snd] in *.
  destruct fuel as [|fuel]; [lia|]. cbn [mpv_loop]. rewrite (decide_True (P := start < length)) by done.
  rewrite decide_False by lia. rewrite Hul, res_bind_ok, Hcode, res_bind_ok.
  assert (ip || bool_decide (256 + c ≤ 431 ∨ 256 + c = 440) = true) as ->.
  { destruct Hip as [->|Hip]; [done|]. apply orb_true_intro. right. apply bool_decide_eq_true_2. lia. }
  set (out1 := if decide (c = 0) then with_picture out u else out).
  assert ((if decide (256 + c = 256) then parse_picture_header fd out start (zlen u) else Ok out) = Ok out1) as ->.
  { unfold out1. destruct (decide (c = 0)) as [->|Hc].
    - rewrite decide_True by done. by apply parse_picture_header_spec; auto.
    - by rewrite decide_False by lia. }
  rewrite res_bind_ok.
  assert (blk out1 = blk out ∧ init_done out1 ≠ 0) as (Hb1 & Hi1) by (unfold out1; case_decide; done).
  rewrite IH; [|done|lia|done|cbn; rewrite zlen_app, Hb1; unfold zlen in *; simpl; lia|done|by left].
  cbn [unit_blocks pictures foldl fst snd]. fold (pictures out1 us).
  assert (∀ l o, pictures (set_blk o l) us = set_blk (pictures o us) l) as Hcomm.
  { intros l. clear. induction us as [|x us IH]; intros o; [done|]. cbn. rewrite <- IH. f_equal. by case_decide. }
  rewrite Hcomm, Hb1. cbn. by rewrite <- (assoc (++)).
Qed.

(** Before it: the units after a sequence header are saved with it. *)
Lemma mpv_loop_headers length us rest fuel : ∀ start out r,
  units_at fd start length (us ++ rest) → (Z.to_nat (length - start) <= fuel)%nat →
  Forall (λ x, 175 < x.1 ∧ x.1 ≠ 184 ∧ x.1 ≠ 179) us → zlen (blk out) ≠ 48 →
  zlen (vsh out) + zlen (concat us.*2) ≤ 4096 →
  (∀ fuel' , (Z.to_nat (length - (start + zlen (concat us.*2))) <= fuel')%nat →
    units_at fd (start + zlen (concat us.*2)) length rest →
    mpv_loop fd fuel' length (start + zlen (concat us.*2)) false true (set_vsh out (vsh out ++ concat us.*2)) = r) →
  mpv_loop fd fuel length start false true out = r.
Proof.
  revert fuel. induction us as [|[c u] us IH]; intros fuel start out r Hus Hf Hc Hb Hv Hr.
  { cbn [fmap list_fmap concat] in Hr. rewrite zlen_nil, Z.add_0_r, app_nil_r in Hr. specialize (Hr fuel Hf Hus).
    by destruct out. }
  pose proof Hus as (Hs & _). rewrite <- app_comm_cons in Hus.
  apply units_step in Hus as (Hlt & Hul & Hcode & Hu & Hl4 & Hsl & Hin & Hus).
  apply Forall_cons in Hc as ((Hc1 & Hc2 & Hc3) & Hc). rewrite fmap_cons in *. cbn [fst snd concat] in *.
  rewrite zlen_app in *. pose proof (zlen_nonneg (concat us.*2)).
  destruct fuel as [|fuel]; [lia|]. cbn [mpv_loop]. rewrite (decide_True (P := start < length)) by done.
  rewrite decide_False by done. rewrite Hul, res_bind_ok, Hcode, res_bind_ok.
  rewrite bool_decide_eq_false_2 by lia. cbn [orb]. unfold save_header, copy_from.
  rewrite (decide_False (P := 256 + c = 435)), res_bind_ok by lia.
  rewrite (decide_True (P := 0 ≤ start ∧ _)), res_bind_ok, Hsl by lia. rewrite decide_True, res_bind_ok by lia.
  apply IH; [done|lia|done|done|cbn; rewrite zlen_app; lia|]. intros fuel' Hf' Hus'.
  cbn [set_vsh vsh] in *. rewrite <- (assoc (++)). rewrite <- Z.add_assoc in *. by apply Hr.
Qed.

(** The frames the camera's encoder would make: an optional sequence header with
    what belongs to it, then at most one group header, the picture and its slices. *)
Record mpv_frame (hs ps : list (Z * list Z)) (pic : list Z) (len : Z) : Prop := {
  mf_units : units_at fd 0 len (hs ++ ps);
  mf_len : len < 2147483648;
  mf_header : match hs with
              | [] => True
              | (c, u) :: others => c = 179 ∧ sequence_unit u ∧ Forall (λ x, 175 < x.1 ∧ x.1 ≠ 184 ∧ x.1 ≠ 179) others
              end;
  mf_header_len : zlen (concat hs.*2) ≤ 4096;
  mf_picture : ∃ gop slices, ps = gop ++ (0, pic) :: slices ∧ Forall (λ x, x.1 = 184) gop ∧ Forall (λ x, x.1 ≠ 0) slices;
  mf_picture_unit : picture_unit pic;
  mf_count : zlen ps ≤ 45 }.

(** The state the frame leaves: the header saved from this frame or before. *)
Definition after_header (out : rtp_mpv) (hs : list (Z * list Z)) : rtp_mpv :=
  match hs with
  | [] => out
  | (_, u) :: _ => mkMpv (blk out) (temporal_reference out) (picture_type out) (vectors out) (concat hs.*2)
                     1 (unit_incr u) (timestamp out)
  end.
Definition after_frame (out : rtp_mpv) (hs ps : list (Z * list Z)) (pic : list Z) : rtp_mpv :=
  set_blk (with_picture (after_header out hs) pic) (unit_blocks (zlen (concat hs.*2)) ps).

Lemma pictures_none out us : Forall (λ x, x.1 ≠ 0) us → pictures out us = out.
Proof. induction 1 as [|x us Hx _ IH]; [done|]. cbn. by rewrite decide_False. Qed.

Lemma mpv_process_frame_spec out hs ps pic len :
  mpv_frame hs ps pic len → (hs = [] → init_done out ≠ 0) →
  mpv_process_frame fd len out = Ok (after_frame out hs ps pic, init_done (after_header out hs)) ∧
  init_done (after_header out hs) ≠ 0.
Proof.
  intros [Hus Hl Hh Hhl (gop & slices & Eps & Hgop & Hsl) Hpic Hn] Hi.
  assert (Forall (λ x, x.1 = 0 → picture_unit x.2) ps) as Hpu.
  { rewrite Eps, Forall_app, Forall_cons. split; [|split; [done|]];
      (eapply Forall_impl; [eassumption|]; intros [c u]; cbn; lia). }
  assert (match ps with [] => True | x :: _ => x.1 ≤ 175 ∨ x.1 = 184 end) as Hfirst.
  { rewrite Eps. destruct gop as [|x gop]; [cbn; lia|]. apply Forall_cons in Hgop as (Hx & _). by right. }
  assert (∀ o, pictures o ps = with_picture o pic) as Hps.
  { intros o. rewrite Eps. unfold pictures. rewrite foldl_app. cbn. fold (pictures o gop).
    rewrite (pictures_none o gop); [by apply pictures_none|]. eapply Forall_impl; [eassumption|]. intros x Hx. cbn in *. lia. }
  assert (init_done (after_header out hs) ≠ 0) as Hid by (destruct hs as [|[c u] hs]; [by apply Hi|done]).
  split; [|done]. unfold mpv_process_frame. set (r := after_frame out hs ps pic).
  assert (mpv_loop fd (Z.to_nat len) len 0 false false (set_blk out []) = Ok r) as ->; [|done].
  assert (∀ fuel hv, (Z.to_nat (len - zlen (concat hs.*2)) <= fuel)%nat → units_at fd (zlen (concat hs.*2)) len ps →
    mpv_loop fd fuel len (zlen (concat hs.*2)) false hv (set_blk (after_header out hs) []) = Ok r) as Hpics.
  { intros fuel hv Hf Hat. rewrite mpv_loop_pictures with (us := ps); try done; [|cbn; rewrite zlen_nil; lia|by right].
    by rewrite Hps. }
  destruct hs as [|[c u] hs].
  { apply (Hpics (Z.to_nat len) false); [change (zlen (concat _)) with 0; lia|done]. }
  destruct Hh as (-> & Hsu & Hoth). rewrite <- app_comm_cons in Hus.
  apply units_step in Hus as (Hlt & Hul & Hcode & Hu & Hl4 & Hslu & Hin & Hus).
  rewrite fmap_cons in Hhl. cbn [concat snd] in Hhl. rewrite zlen_app in Hhl. pose proof (zlen_nonneg (concat hs.*2)).
  destruct (Z.to_nat len) as [|fuel] eqn:Ef; [lia|]. cbn [mpv_loop]. rewrite decide_True by done.
  rewrite decide_False by done. rewrite Hul, res_bind_ok, Hcode, res_bind_ok.
  rewrite bool_decide_eq_false_2 by lia. cbn [orb]. unfold save_header, copy_from.
  rewrite (decide_True (P := 256 + 179 = 435)) by done. rewrite (parse_sequence_spec _ _ u), res_bind_ok, res_bind_ok by done.
  rewrite (decide_True (P := 0 ≤ 0 ∧ _)), res_bind_ok, Hslu by lia. cbn [set_vsh vsh app].
  rewrite decide_True, res_bind_ok by (rewrite zlen_nil; lia).
  eapply mpv_loop_headers; [exact Hus|lia|done|done|cbn; lia|]. intros fuel' Hf' Hat'. cbn [set_vsh vsh].
  rewrite Z.add_0_l in *. rewrite <- zlen_app in *. by apply Hpics.
Qed.

End Parsing.

(** ** The headers of RFC 2250

    Where the units of a frame lie in what is sent: code, start and end of each,
    [at] being the length of the saved sequence header before them. *)
Fixpoint unit_spans (at_ : Z) (us : list (Z * list Z)) : list (Z * Z * Z) :=
  match us with
  | [] => []
  | (c, u) :: us => (c, at_, at_ + zlen u) :: unit_spans (at_ + zlen u) us
  end.

Definition slice_code (c : Z) : Prop := 0 < c ≤ 175.

(** A slice begins in the packet with the bytes from [a] up to [b]; a slice ends
    in it, and it ends with a unit. *)
Definition slice_begins (sp : list (Z * Z * Z)) (a b : Z) : Prop :=
  ∃ c s e, (c, s, e) ∈ sp ∧ slice_code c ∧ a ≤ s < b.
Definition slice_ended (sp : list (Z * Z * Z)) (a b : Z) : Prop :=
  ∃ c s e, (c, s, e) ∈ sp ∧ slice_code c ∧ a < e ≤ b.
Definition unit_ends (sp : list (Z * Z * Z)) (b : Z) : Prop := ∃ c s, (c, s, b) ∈ sp.

(** The third byte of the header: the picture type, and the bits S (a sequence
    header is in the packet), B and E. *)
Record h2_ok (sp : list (Z * Z * Z)) (t : Z) (seq : bool) (a b h2 : Z) : Prop := {
  h2_range : 0 ≤ h2 < 64;
  h2_type : Z.land h2 7 = t;
  h2_seq : Z.testbit h2 5 = seq;
  h2_begin : Z.testbit h2 4 = true ↔ slice_begins sp a b;
  h2_end : Z.testbit h2 3 = true ↔ slice_ended sp a b ∧ unit_ends sp b }.

(** The same of a packet that is being built. *)
Record pack_at (sp : list (Z * Z * Z)) (t : Z) (seq : bool) (a b : Z) (p : pack) : Prop := {
  pa_range : 0 ≤ pk_h2 p < 64;
  pa_type : Z.land (pk_h2 p) 7 = t;
  pa_seq : Z.testbit (pk_h2 p) 5 = seq;
  pa_begin : Z.testbit (pk_h2 p) 4 = true ↔ slice_begins sp a b;
  pa_end : Z.testbit (pk_h2 p) 3 = true ↔ slice_ended sp a b;
  pa_unit : (∃ c s e, (c, s, e) ∈ sp ∧ a < e ≤ b) → unit_ends sp b;
  pa_len : b = a + zlen (concat (pk_vs p)) }.

Lemma span_bounds at_ us c s e :
  Forall (λ x, 4 ≤ zlen x.2) us → (c, s, e) ∈ unit_spans at_ us → at_ ≤ s ∧ s + 4 ≤ e ≤ at_ + zlen (concat us.*2).
Proof.
  intros Hl. revert at_. induction Hl as [|[c' u] us Hu _ IH]; intros at_; [by intros ?%not_elem_of_nil|].
  cbn [unit_spans fmap list_fmap concat snd] in *. fold_fmap. rewrite zlen_app.
  assert (0 ≤ zlen (concat us.*2)) by apply zlen_nonneg.
  intros [[= -> -> ->]|Hin]%elem_of_cons; [lia|]. apply IH in Hin. lia.
Qed.

Lemma unit_spans_app at_ us ws :
  unit_spans at_ (us ++ ws) = unit_spans at_ us ++ unit_spans (at_ + zlen (concat us.*2)) ws.
Proof.
  revert at_. induction us as [|[c u] us IH]; intros at_; [by rewrite Z.add_0_r|].
  rewrite <- app_comm_cons, fmap_cons. cbn [unit_spans concat snd]. by rewrite IH, zlen_app, Z.add_assoc.
Qed.

(** The bits of the third byte, and what the flags do to it. *)
Lemma h2_flags h :
  0 ≤ h < 64 →
  (∀ f, f = 8 ∨ f = 16 → 0 ≤ Z.lor h f < 64 ∧ Z.land (Z.lor h f) 7 = Z.land h 7 ∧ Z.testbit (Z.lor h f) 5 = Z.testbit h 5) ∧
  Z.testbit (Z.lor h 16) 4 = true ∧ Z.testbit (Z.lor h 16) 3 = Z.testbit h 3 ∧
  Z.testbit (Z.lor h 8) 4 = Z.testbit h 4 ∧ Z.testbit (Z.lor h 8) 3 = true ∧
  0 ≤ Z.land h (Z.lnot 8) < 64 ∧ Z.land (Z.land h (Z.lnot 8)) 7 = Z.land h 7 ∧
  Z.testbit (Z.land h (Z.lnot 8)) 5 = Z.testbit h 5 ∧ Z.testbit (Z.land h (Z.lnot 8)) 4 = Z.testbit h 4 ∧
  Z.testbit (Z.land h (Z.lnot 8)) 3 = false.
Proof.
  intros Hh.
  assert (Forall (λ h,
    Forall (λ f, 0 ≤ Z.lor h f < 64 ∧ Z.land (Z.lor h f) 7 = Z.land h 7 ∧ Z.testbit (Z.lor h f) 5 = Z.testbit h 5) [8; 16] ∧
    Z.testbit (Z.lor h 16) 4 = true ∧ Z.testbit (Z.lor h 16) 3 = Z.testbit h 3 ∧
    Z.testbit (Z.lor h 8) 4 = Z.testbit h 4 ∧ Z.testbit (Z.lor h 8) 3 = true ∧
    0 ≤ Z.land h (Z.lnot 8) < 64 ∧ Z.land (Z.land h (Z.lnot 8)) 7 = Z.land h 7 ∧
    Z.testbit (Z.land h (Z.lnot 8)) 5 = Z.testbit h 5 ∧ Z.testbit (Z.land h (Z.lnot 8)) 4 = Z.testbit h 4 ∧
    Z.testbit (Z.land h (Z.lnot 8)) 3 = false) (seqZ 0 64)) as H by closed_nonzero.
  rewrite Forall_forall in H. destruct (H h) as [Hf Hrest]; [apply elem_of_seqZ; lia|].
  split; [|done]. rewrite Forall_forall in Hf. intros f Hfs. apply Hf. set_solver.
Qed.

Lemma type_flags t :
  0 ≤ t < 8 →
  u8 t = t ∧ 0 ≤ t < 64 ∧ Z.land t 7 = t ∧ Z.testbit t 5 = false ∧ Z.testbit t 4 = false ∧ Z.testbit t 3 = false ∧
  Z.testbit (Z.lor t 32) 5 = true ∧ Z.testbit (Z.lor t 32) 4 = false ∧ Z.testbit (Z.lor t 32) 3 = false ∧
  Z.land (Z.lor t 32) 7 = t ∧ 0 ≤ Z.lor t 32 < 64.
Proof.
  intros Ht.
  assert (Forall (λ t, u8 t = t ∧ 0 ≤ t < 64 ∧ Z.land t 7 = t ∧ Z.testbit t 5 = false ∧ Z.testbit t 4 = false ∧ Z.testbit t 3 = false ∧
    Z.testbit (Z.lor t 32) 5 = true ∧ Z.testbit (Z.lor t 32) 4 = false ∧ Z.testbit (Z.lor t 32) 3 = false ∧
    Z.land (Z.lor t 32) 7 = t ∧ 0 ≤ Z.lor t 32 < 64) (seqZ 0 8)) as H by closed_nonzero.
  rewrite Forall_forall in H. apply H, elem_of_seqZ. lia.
Qed.

Section Headers.
Context (fd : list Z) (out : rtp_mpv).
Notation t := (picture_type out).
Hypothesis Hpt : 0 ≤ t < 8.

(** The packets from the position [a] on have the right headers. *)
Definition hdr_ok (sp : list (Z * Z * Z)) (seq : bool) (a : Z) (q : packet) : Prop :=
  ∃ h2, head (pk_v q) = Some (PUT_16 (temporal_reference out) ++ [h2; u8 (vectors out)]) ∧
    h2_ok sp t seq a (a + zlen (payload q)) h2.
Fixpoint hdrs_ok (sp : list (Z * Z * Z)) (seq : bool) (a : Z) (qs : list packet) : Prop :=
  match qs with
  | [] => True
  | q :: qs => hdr_ok sp seq a q ∧ hdrs_ok sp false (a + zlen (payload q)) qs
  end.

Lemma hdrs_ok_app sp seq a l1 l2 :
  hdrs_ok sp seq a (l1 ++ l2) ↔
  hdrs_ok sp seq a l1 ∧
  hdrs_ok sp (match l1 with [] => seq | _ => false end) (a + zlen (concat (payload <$> l1))) l2.
Proof.
  revert seq a. induction l1 as [|q l1 IH]; intros seq a; cbn; [by rewrite Z.add_0_r, (left_id True and)|].
  fold_fmap. rewrite zlen_app, IH, (assoc and), Z.add_assoc. by destruct l1.
Qed.

Lemma hdrs_ok_lookup sp seq a qs i q :
  hdrs_ok sp seq a qs → qs !! i = Some q →
  hdr_ok sp (bool_decide (i = 0%nat) && seq) (a + zlen (concat (payload <$> take i qs))) q.
Proof.
  revert seq a i. induction qs as [|q' qs IH]; intros seq a i Hok; [done|]. destruct Hok as [Hq Hqs]. destruct i as [|i]; cbn.
  - intros [= <-]. by rewrite Z.add_0_r.
  - intros Hi. fold_fmap. rewrite zlen_app, Z.add_assoc. pose proof (IH false _ i Hqs Hi) as H.
    by rewrite andb_false_r in H.
Qed.

Lemma pack_hdr sp seq a b p m : pack_at sp t seq a b p → hdr_ok sp seq a (mpv_pkt out (pk_h2 p) (pk_vs p) m).
Proof.
  intros [Hr Ht Hs Hb He Hu Hl]. exists (pk_h2 p). split; [done|]. change (payload _) with (concat (pk_vs p)).
  rewrite <- Hl. split; [done..|]. rewrite He. split; [|naive_solver]. intros Hx. split; [done|]. apply Hu.
  destruct Hx as (c & s & e & ? & _ & ?). eauto.
Qed.

Lemma new_pack_at sp mtu b :
  pack_at sp t false b b (new_pack out mtu).
Proof.
  destruct (type_flags t Hpt) as (Hu & Hr & H7 & H5 & H4 & H3 & _). unfold new_pack. split; cbn [pk_h2 pk_vs concat]; rewrite ?Hu; try done.
  - rewrite H4. split; [done|]. intros (? & ? & ? & _ & _ & ?). lia.
  - rewrite H3. split; [done|]. intros (? & ? & ? & _ & _ & ?). lia.
  - intros (? & ? & ? & _ & ?). lia.
  - rewrite zlen_nil. lia.
Qed.

(** The position of a unit among the others. *)
Section Unit.
Context (at_ : Z) (us1 us2 : list (Z * list Z)) (c : Z) (u : list Z).
Hypothesis Hlen : Forall (λ x, 4 ≤ zlen x.2) (us1 ++ (c, u) :: us2).
Let b := at_ + zlen (concat us1.*2).
Let sp := unit_spans at_ (us1 ++ (c, u) :: us2).

Lemma span_cases c' s e :
  (c', s, e) ∈ sp →
  s + 4 ≤ e ∧ (e ≤ b ∨ c' = c ∧ s = b ∧ e = b + zlen u ∨ b + zlen u ≤ s).
Proof.
  unfold sp. rewrite unit_spans_app. cbn [unit_spans]. fold b.
  apply Forall_app in Hlen as (H1 & [H2 H3]%Forall_cons).
  intros [Hin|[[= -> -> ->]|Hin]%elem_of_cons]%elem_of_app.
  - apply span_bounds in Hin; [|done]. fold b in Hin. lia.
  - cbn in H2. lia.
  - apply span_bounds in Hin; [|done]. lia.
Qed.

Lemma span_self : (c, b, b + zlen u) ∈ sp.
Proof. unfold sp. rewrite unit_spans_app. cbn [unit_spans]. fold b. set_solver. Qed.

(** Adding the whole unit to the packet. *)
Lemma pack_add seq a p s0 :
  pack_at sp t seq a b p → zlen s0 = zlen u → a ≤ b →
  pack_at sp t seq a (b + zlen u)
    (mkPack (pk_vs p ++ [s0]) (if is_slice c then Z.lor (Z.lor (pk_h2 p) 16) 8 else pk_h2 p) (pk_space p - zlen u)).
Proof.
  intros [Hr Ht Hs Hb He Hun Hl] Hs0 Hab. pose proof (span_cases) as HC. pose proof span_self as Hself.
  assert (4 ≤ zlen u) as Hu4 by (apply Forall_app in Hlen as (_ & [? _]%Forall_cons); done).
  assert (unit_ends sp (b + zlen u)) as Hend by (eexists _, _; exact Hself).
  assert (slice_begins sp a (b + zlen u) ↔ slice_begins sp a b ∨ slice_code c) as HB.
  { split.
    - intros (c' & s & e & Hin & Hc' & Has). destruct (HC _ _ _ Hin) as (? & [?|[(-> & _)|?]]); [|by right|lia].
      left. exists c', s, e. split_and!; [done..|lia|lia].
    - intros [(c' & s & e & Hin & Hc' & ?)|Hc]; [exists c', s, e; split_and!; [done..|lia|lia]|].
      exists c, b, (b + zlen u). split_and!; [done..|lia|lia]. }
  assert (slice_ended sp a (b + zlen u) ↔ slice_ended sp a b ∨ slice_code c) as HE.
  { split.
    - intros (c' & s & e & Hin & Hc' & Has). destruct (HC _ _ _ Hin) as (? & [?|[(-> & _)|?]]); [|by right|lia].
      left. exists c', s, e. split_and!; [done..|lia|lia].
    - intros [(c' & s & e & Hin & Hc' & ?)|Hc]; [exists c', s, e; split_and!; [done..|lia|lia]|].
      exists c, b, (b + zlen u). split_and!; [done..|lia|lia]. }
  assert (zlen (concat (pk_vs p ++ [s0])) = zlen (concat (pk_vs p)) + zlen u) as Hz.
  { rewrite concat_app, zlen_app. cbn [concat]. by rewrite app_nil_r, Hs0. }
  destruct (h2_flags (pk_h2 p) Hr) as (Hf & F1 & F2 & _). destruct (Hf 16 ltac:(by right)) as (G1 & G2 & G3).
  destruct (h2_flags (Z.lor (pk_h2 p) 16) G1) as (Hg & _ & _ & K3 & K4 & _). destruct (Hg 8 ltac:(by left)) as (L1 & L2 & L3).
  unfold is_slice. case_bool_decide as Hc; split; cbn [pk_h2 pk_vs]; rewrite ?Hz; try done; try lia.
  - by rewrite L3, G3.
  - rewrite K3, F1, HB. split; [by right|done].
  - rewrite K4, HE. split; [by right|done].
  - rewrite Hb, HB. split; [by left|]. by intros [?|?].
  - rewrite He, HE. split; [by left|]. by intros [?|?].
Qed.

(** The first fragment of the unit at the end of a packet. *)
Lemma first_frag_hdr seq a p s0 :
  pack_at sp t seq a b p → 0 < zlen s0 < zlen u → a ≤ b →
  hdr_ok sp seq a (mpv_pkt out (Z.land (if is_slice c then Z.lor (pk_h2 p) 16 else pk_h2 p) (Z.lnot 8)) (pk_vs p ++ [s0]) false).
Proof.
  intros [Hr Ht Hs Hb He Hun Hl] Hs0 Hab. pose proof (span_cases) as HC. pose proof span_self as Hself.
  eexists. split; [reflexivity|]. change (payload _) with (concat (pk_vs p ++ [s0])).
  rewrite concat_app, zlen_app. cbn [concat]. rewrite app_nil_r. replace (a + _) with (b + zlen s0) by lia.
  assert (¬ unit_ends sp (b + zlen s0)) as Hne.
  { intros (c' & s & Hin). destruct (HC _ _ _ Hin) as (? & [?|[(_ & -> & ?)|?]]); lia. }
  assert (slice_begins sp a (b + zlen s0) ↔ slice_begins sp a b ∨ slice_code c) as HB.
  { split.
    - intros (c' & s & e & Hin & Hc' & Has). destruct (HC _ _ _ Hin) as (? & [?|[(-> & _)|?]]); [|by right|lia].
      left. exists c', s, e. split_and!; [done..|lia|lia].
    - intros [(c' & s & e & Hin & Hc' & ?)|Hc]; [exists c', s, e; split_and!; [done..|lia|lia]|].
      exists c, b, (b + zlen u). split_and!; [done..|lia|lia]. }
  destruct (h2_flags (pk_h2 p) Hr) as (Hf & F1 & F2 & _ & _ & M1 & M2 & M3 & M4 & M5).
  destruct (Hf 16 ltac:(by right)) as (G1 & G2 & G3).
  destruct (h2_flags (Z.lor (pk_h2 p) 16) G1) as (_ & _ & _ & _ & _ & N1 & N2 & N3 & N4 & N5).
  unfold is_slice. case_bool_decide as Hc; split; try done.
  - by rewrite N2, G2.
  - by rewrite N3, G3.
  - rewrite N4, F1, HB. split; [by right|done].
  - rewrite N5. split; [done|]. by intros [_ ?].
  - by rewrite M2.
  - by rewrite M3.
  - rewrite M4, Hb, HB. split; [by left|]. by intros [?|?].
  - rewrite M5. split; [done|]. by intros [_ ?].
Qed.

(** The other fragments of a slice. *)
Lemma frags_hdrs d last mtu fuel off :
  4 < mtu < 2147483648 → slice_code c → 0 ≤ d → 0 < off ≤ zlen u → d + zlen u ≤ zlen fd →
  hdrs_ok sp false (b + off) (frags mpv_clip (mpv_frag fd out d (zlen u) last) id fuel mtu (zlen u) tt off).
Proof.
  intros Hm Hc Hd. pose proof (span_cases) as HC. pose proof span_self as Hself.
  destruct (type_flags t Hpt) as (Hu8 & Hr & H7 & H5 & H4 & H3 & _).
  destruct (h2_flags t Hr) as (Hf & _ & _ & K3 & K4 & _). destruct (Hf 8 ltac:(by left)) as (L1 & L2 & L3).
  revert off. induction fuel as [|fuel IH]; intros off Hoff Hin; cbn [frags]; case_decide as Hlt; try done.
  pose proof (mpv_clip_ok mtu Hm tt off (zlen u - off) ltac:(lia)) as Hp. set (plen := mpv_clip _ _ _ _) in *. cbv zeta.
  cbn [hdrs_ok].
  assert (zlen (payload (mpv_frag fd out d (zlen u) last tt off plen)) = plen) as Hz.
  { unfold payload. cbn. rewrite app_nil_r. apply zlen_slice; lia. }
  rewrite Hz. split; [|replace (b + off + plen) with (b + (off + plen)) by lia; apply IH; lia].
  eexists. split; [reflexivity|]. rewrite Hz, Hu8.
  assert (¬ slice_begins sp (b + off) (b + off + plen)) as HB.
  { intros (c' & s & e & Hi & _ & ?). destruct (HC _ _ _ Hi) as (? & [?|[(_ & -> & ?)|?]]); lia. }
  assert (unit_ends sp (b + off + plen) ↔ plen + off = zlen u) as HU.
  { split; [|intros Heq; exists c, b; by replace (b + off + plen) with (b + zlen u) by lia].
    intros (c' & s & Hi). destruct (HC _ _ _ Hi) as (? & [?|[(_ & -> & ?)|?]]); lia. }
  case_decide as He; split; rewrite ?L2, ?L3, ?K3, ?K4, ?H4, ?H3, ?HU; try done.
  - split; [|done]. intros _. split; [|done]. exists c, b, (b + zlen u). split_and!; [done..|lia|lia].
  - split; [done|]. by intros [_ ?].
Qed.
End Unit.

(** The packets of the remaining units [us2], behind [us1]. *)
Lemma mpv_packets_hdrs len0 at_ mtu us2 : ∀ us1 d seq a p,
  8 ≤ mtu < 2147483648 → len0 < 2147483648 → units_at fd d len0 us2 →
  Forall (λ x, 4 ≤ zlen x.2) (us1 ++ us2) → Forall (λ x, ¬ slice_code x.1 → zlen x.2 ≤ mtu - 4) us2 →
  let sp := unit_spans at_ (us1 ++ us2) in let b := at_ + zlen (concat us1.*2) in
  pack_at sp t seq a b p → pk_space p ≤ mtu - 4 →
  hdrs_ok sp seq a (mpv_packets fd out mtu (unit_blocks d us2) p).
Proof.
  induction us2 as [|[c u] us2 IH]; intros us1 d seq a p Hm Hlen0 Hus H4 Hfit sp b Hp Hsp.
  { cbn. case_decide; [|done]. split; [by eapply pack_hdr|done]. }
  pose proof Hus as (Hd & _). apply units_step in Hus as (Hlt & _ & Hcode & Hu & Hl4 & Hsl & Hin & Hus).
  assert (us1 ++ (c, u) :: us2 = (us1 ++ [(c, u)]) ++ us2) as Eus by by rewrite <- app_assoc.
  assert (b + zlen u = at_ + zlen (concat (us1 ++ [(c, u)]).*2)) as Eb.
  { unfold b. rewrite fmap_app, concat_app, zlen_app. cbn. rewrite app_nil_r. lia. }
  apply Forall_cons in Hfit as (Hcf & Hfit). cbn [fst snd] in *. cbn [unit_blocks mpv_packets].
  assert (is_slice (default 0 (fd !! Z.to_nat (d + 3))) = is_slice c) as Ec.
  { destruct Hu as (body & Eu & _). assert (slice fd d (zlen u) !! 3%nat = Some c) as Hc by by rewrite Hsl, Eu.
    unfold slice in Hc. rewrite lookup_take_Some, lookup_drop in Hc. destruct Hc as [Hc _].
    replace (Z.to_nat (d + 3)) with (Z.to_nat d + 3)%nat by lia. by rewrite Hc. }
  assert (Hnext : ∀ seq' a' p', pack_at sp t seq' a' (b + zlen u) p' → pk_space p' ≤ mtu - 4 →
    hdrs_ok sp seq' a' (mpv_packets fd out mtu (unit_blocks (d + zlen u) us2) p')).
  { intros seq' a' p' Hp' Hsp'. unfold sp. rewrite Eus. apply (IH _ _ _ _ _ Hm Hlen0 Hus); [by rewrite <- Eus|done| |done].
    rewrite <- Eus, <- Eb. done. }
  assert (Hplace : ∀ last seq' a' p', pack_at sp t seq' a' b p' → pk_space p' ≤ mtu - 4 →
    4 ≤ pk_space p' → (zlen u ≤ mtu - 4 → zlen u ≤ pk_space p') →
    let '(l2, p2) := place_packets fd out mtu d (zlen u) last p' in
    hdrs_ok sp seq' a' (l2 ++ mpv_packets fd out mtu (unit_blocks (d + zlen u) us2) p2)).
  { intros last seq' a' p' Hp' Hsp' H4' Hroom. unfold place_packets. rewrite Ec.
    assert (a' ≤ b) as Hab by (destruct Hp' as [_ _ _ _ _ _ ->]; pose proof (zlen_nonneg (concat (pk_vs p'))); lia).
    case_decide as Hfit'.
    - cbn [app]. apply Hnext; [|cbn; lia]. rewrite Hsl.
      pose proof (pack_add at_ us1 us2 c u H4 seq' a' p' u Hp' eq_refl Hab) as Hadd. by destruct (is_slice c).
    - assert (slice_code c) as Hsc by (destruct (decide (slice_code c)) as [?|Hno]; [done|specialize (Hcf Hno); lia]).
      assert (zlen (slice fd d (pk_space p')) = pk_space p') as Hz by (apply zlen_slice; lia).
      rewrite <- app_comm_cons. cbn [hdrs_ok]. split; [by apply (first_frag_hdr at_ us1 us2 c u H4); [|lia|]|].
      match goal with |- hdrs_ok _ _ ?x _ => replace x with (b + pk_space p') end.
      2:{ change (payload _) with (concat (pk_vs p' ++ [slice fd d (pk_space p')])). rewrite concat_app, zlen_app. cbn [concat].
          rewrite app_nil_r, Hz. destruct Hp' as [_ _ _ _ _ _ ->]. lia. }
      rewrite hdrs_ok_app. split; [apply (frags_hdrs at_ us1 us2 c u H4); lia || done|].
      rewrite (frags_data _ _ _ payload (drop (Z.to_nat d) fd)); [|apply mpv_clip_ok; lia| |lia|lia].
      2:{ intros s i plen Hi. unfold payload. cbn. by rewrite app_nil_r, slice_drop. }
      rewrite <- slice_drop, zlen_slice by lia. replace (b + pk_space p' + _) with (b + zlen u) by lia.
      destruct (frags _ _ _ _ _ _ _ _); (apply Hnext; [apply new_pack_at|cbn; lia]). }
  unfold flush_packets. case_decide as Hfl.
  - specialize (Hplace (bool_decide (unit_blocks (d + zlen u) us2 = [])) false b (new_pack out mtu) (new_pack_at sp mtu b)).
    cbn [new_pack pk_space] in Hplace. specialize (Hplace ltac:(lia) ltac:(lia) ltac:(lia)).
    destruct (place_packets _ _ _ _ _ _ _) as [l2 p2]. cbn [app hdrs_ok]. split; [by eapply pack_hdr|].
    change (payload _) with (concat (pk_vs p)). destruct Hp as [_ _ _ _ _ _ <-]. done.
  - specialize (Hplace (bool_decide (unit_blocks (d + zlen u) us2 = [])) seq a p Hp Hsp).
    destruct (decide (zlen u > mtu - 4)); specialize (Hplace ltac:(lia) ltac:(lia));
      by destruct (place_packets _ _ _ _ _ _ _) as [l2 p2].
Qed.
End Headers.

(** When the slices are the last units, the bit E says what RFC 2250 has: the
    last byte of the packet is the last byte of a slice. *)
Lemma slice_ended_last at_ us ws a b :
  Forall (λ x, 4 ≤ zlen x.2) (us ++ ws) → Forall (λ x, ¬ slice_code x.1) us → Forall (λ x, slice_code x.1) ws →
  let sp := unit_spans at_ (us ++ ws) in
  slice_ended sp a b ∧ unit_ends sp b ↔ a < b ∧ ∃ c s, (c, s, b) ∈ sp ∧ slice_code c.
Proof.
  intros H4 Hus Hws sp.
  assert (∀ vs k p c s e, Forall (λ x, p x.1) vs → (c, s, e) ∈ unit_spans k vs → p c) as Hcode.
  { intros vs k p c s e Hvs. revert k. induction Hvs as [|[c' u] vs Hc' _ IH]; intros k; [by intros ?%not_elem_of_nil|].
    intros [[= -> -> ->]|Hin]%elem_of_cons; [done|by eapply IH]. }
  pose proof H4 as (H1 & H2)%Forall_app. unfold sp. rewrite unit_spans_app. set (m := at_ + zlen (concat us.*2)).
  split.
  - intros ((c & s & e & [Hin|Hin]%elem_of_app & Hc & He) & c' & s' & Hin').
    { by destruct (Hcode us at_ (λ c, ¬ slice_code c) c s e Hus Hin). }
    split; [lia|]. exists c', s'. split; [done|]. apply elem_of_app in Hin' as [Hin'|Hin'].
    + apply span_bounds in Hin' as (_ & _ & Hb); [|done]. fold m in Hb. apply span_bounds in Hin; [|done]. lia.
    + exact (Hcode ws m slice_code c' s' b Hws Hin').
  - intros (Hab & c & s & Hin & Hc). split; [|by exists c, s]. exists c, s, b. split_and!; [done..|lia].
Qed.

(** The packet a frame begins with. *)
Lemma first_pack_spec out mtu :
  let p := first_pack out mtu in
  let saved := if decide (picture_type out = 1) then vsh out else [] in
  pk_space p ≤ mtu - 4 ∧ zlen (pk_vs p) ≤ 1 ∧ concat (pk_vs p) = saved ∧ pk_space p = mtu - 4 - zlen saved ∧
  (4 ≤ mtu → zlen saved ≤ mtu - 4 → pack_fits mtu p) ∧
  (∀ us, 0 ≤ picture_type out < 8 → Forall (λ x, 4 ≤ zlen x.2) us →
    pack_at (unit_spans (zlen saved) us) (picture_type out) (bool_decide (picture_type out = 1)) 0 (zlen saved) p).
Proof.
  unfold first_pack. cbv zeta. pose proof (zlen_nonneg (vsh out)).
  assert (∀ p : pack, concat (pk_vs p) = (if decide (picture_type out = 1) then vsh out else []) →
    pk_space p = mtu - 4 - zlen (if decide (picture_type out = 1) then vsh out else []) →
    (4 ≤ mtu → zlen (if decide (picture_type out = 1) then vsh out else []) ≤ mtu - 4 → pack_fits mtu p)) as Hfits.
  { intros p Hc Hs Hm Hl. unfold pack_fits. rewrite Hc, Hs. lia. }
  destruct (decide (picture_type out = 1)) as [Hk|Hk].
  - split; [cbn; lia|]. split; [done|]. split; [cbn; by rewrite app_nil_r|]. split; [done|].
    split; [apply Hfits; [cbn; by rewrite app_nil_r|done]|]. intros us Hpt H4.
    rewrite bool_decide_eq_true_2 by done. cbn [new_pack pk_h2].
    destruct (type_flags _ Hpt) as (Hu & _ & _ & _ & _ & _ & F5 & F4 & F3 & F7 & Fr). rewrite Hu.
    split; cbn [pk_h2 pk_vs concat]; rewrite ?app_nil_r; try done.
    + rewrite F4. split; [done|]. intros (c & s & e & Hin%span_bounds & _ & ?); [lia|done].
    + rewrite F3. split; [done|]. intros (c & s & e & Hin%span_bounds & _ & ?); [lia|done].
    + intros (c & s & e & Hin%span_bounds & ?); [lia|done].
  - split; [cbn; lia|]. split; [done|]. split; [done|]. split; [cbn; rewrite zlen_nil; lia|].
    split; [apply Hfits; [done|cbn; rewrite zlen_nil; lia]|]. intros us Hpt H4.
    rewrite bool_decide_eq_false_2 by done. by apply new_pack_at.
Qed.

(** What the packets of a frame begin with fits, or is the saved header alone. *)
Lemma mpv_packets_sizes fd out mtu bs :
  8 ≤ mtu < 2147483648 → blocks_ok fd bs → bs ≠ [] →
  let saved := if decide (picture_type out = 1) then vsh out else [] in
  ∀ i q, mpv_packets fd out mtu bs (first_pack out mtu) !! i = Some q →
    pk_ts q = timestamp out ∧ (pk_size q ≤ mtu ∨ i = 0%nat ∧ payload q = saved).
Proof.
  intros Hm Hbs Hne saved i q Hi. destruct (first_pack_spec out mtu) as (_ & _ & Hc & Hsp & Hfit & _). fold saved in Hc, Hsp, Hfit.
  set (p0 := first_pack out mtu) in *. destruct (decide (zlen saved ≤ mtu - 4)) as [Hs|Hs].
  - pose proof (mpv_packets_ok fd out mtu bs p0 Hm Hbs (Hfit ltac:(lia) Hs)) as Hok. rewrite Forall_lookup in Hok.
    destruct (Hok i q Hi). auto.
  - destruct bs as [|b bs]; [done|]. pose proof Hbs as Hbs0. apply Forall_cons in Hbs as ((_ & Hb4 & _) & _).
    rewrite mpv_packets_full in Hi by lia.
    destruct i as [|i]; [injection Hi as <-; split; [done|]; right; split; [done|exact Hc]|].
    pose proof (mpv_packets_ok fd out mtu (b :: bs) _ Hm Hbs0 (new_pack_ok out mtu ltac:(lia))) as Hok.
    rewrite Forall_lookup in Hok. destruct (Hok i q Hi). auto.
Qed.

Lemma picture_vectors_byte u : 0 ≤ picture_vectors u < 256.
Proof.
  unfold picture_vectors. pose proof (field_range u 61 4) as H1. pose proof (field_range u 65 4) as H2.
  change (2 ^ Z.of_nat 4) with 16 in *. repeat case_decide; lia.
Qed.

(** C35. A frame of an MPEG video stream gets to the client whole. The frame is an
    optional sequence header with what belongs to it (at most 4096 bytes) and
    then at most 45 units: a group header, one picture header and the rest. It
    is parsed into these units, the picture header is read as the standard has
    it, and the time stamp advances by the frame period of the sequence header.
    The payloads of the packets, in order, are the units from the first group or
    picture header on, for a key picture after the sequence header of this frame
    or the last one saved; the last packet and only that one has the marker;
    every packet fits, but a first one that holds the saved header alone when
    that is larger than a packet. When only slices are larger than a packet,
    every packet begins with the header of RFC 2250: the picture's temporal
    reference, type and vectors, with S set in the first packet of a key picture,
    B in a packet in which a slice begins, and E in a packet in which a slice
    ends and which ends with a unit ([slice_ended_last]: when the slices are the
    last units, with a slice). *)
Theorem mpv_roundtrip {E} `{RtpSink E} (e : E) fd out hs ps pic len :
  Forall is_byte fd → mpv_frame fd hs ps pic len → (hs = [] → init_done out ≠ 0) → 8 ≤ sink_mtu e < 2147483648 →
  let out' := after_frame out hs ps pic in
  let saved := if decide (field pic 42 3 = 1) then vsh out' else [] in
  mpv_process_frame fd len out = Ok (out', init_done out') ∧ init_done out' ≠ 0 ∧
  timestamp out' = u32 (timestamp out + ts_incr out') ∧
  ∃ pkts, mpv_send fd out' e = Ok (send_seq e pkts) ∧
    concat (payload <$> pkts) = saved ++ concat ps.*2 ∧ pkts ≠ [] ∧ marked_last pkts ∧
    (∀ i q, pkts !! i = Some q →
      pk_ts q = timestamp out' ∧ (pk_size q ≤ sink_mtu e ∨ i = 0%nat ∧ payload q = saved)) ∧
    (Forall (λ x, ¬ slice_code x.1 → zlen x.2 ≤ sink_mtu e - 4) ps →
     ∀ i q, pkts !! i = Some q →
      let sp := unit_spans (zlen saved) ps in
      let a := zlen (concat (payload <$> take i pkts)) in
      let b := a + zlen (payload q) in
      ∃ h2, head (pk_v q) = Some [field pic 32 10 `div` 256; field pic 32 10 `mod` 256; h2; picture_vectors pic] ∧
        0 ≤ h2 < 64 ∧ Z.land h2 7 = field pic 42 3 ∧
        (Z.testbit h2 5 = true ↔ i = 0%nat ∧ field pic 42 3 = 1) ∧
        (Z.testbit h2 4 = true ↔ slice_begins sp a b) ∧
        (Z.testbit h2 3 = true ↔ slice_ended sp a b ∧ unit_ends sp b)).
Proof.
  intros Hfd Hf Hi Hm out' saved. destruct (mpv_process_frame_spec fd Hfd out hs ps pic len Hf Hi) as (Hproc & Hid).
  split; [done|]. split; [done|]. split; [by destruct hs as [|[c u] hs]|].
  destruct Hf as [Hus Hl _ _ (gop & slices & Eps & _ & _) _ Hn]. apply units_tail in Hus. rewrite Z.add_0_l in Hus.
  destruct (unit_blocks_spec fd ps _ _ Hus Hl) as (Hok & Hdata).
  assert (blk out' = unit_blocks (zlen (concat hs.*2)) ps) as Hb by done.
  pose proof (unit_blocks_length (zlen (concat hs.*2)) ps) as Hbl.
  pose proof (field_range pic 42 3 : 0 ≤ picture_type out' < 8) as Hpt.
  destruct (first_pack_spec out' (sink_mtu e)) as (Hsp & Hv1 & Hc0 & _ & _ & Hat). set (p0 := first_pack _ _) in *.
  destruct (mpv_packets_marked fd out' Hpt (sink_mtu e) _ p0 Hm Hok Hsp) as (Hmk & Hne).
  assert (unit_blocks (zlen (concat hs.*2)) ps ≠ []) as Hnil.
  { intros E0. rewrite E0, Eps, zlen_app, zlen_cons, zlen_nil in Hbl.
    pose proof (zlen_nonneg gop). pose proof (zlen_nonneg slices). lia. }
  exists (mpv_packets fd out' (sink_mtu e) (blk out') p0). rewrite Hb. split; [|split; [|split; [|split; [|split]]]].
  - unfold mpv_send. rewrite Hb. apply mpv_blocks_packets; rewrite ?Hbl; try done. lia.
  - by rewrite mpv_packets_payload, Hc0, Hdata by done.
  - apply Hne. by left.
  - done.
  - apply (mpv_packets_sizes fd out' (sink_mtu e) _ Hm Hok Hnil).
  - intros Hbig i q Hiq. assert (Forall (λ x, 4 ≤ zlen x.2) ps) as H4.
    { destruct Hus as (_ & _ & Hus & _). eapply Forall_impl; [exact Hus|]. intros x. apply unit_size. }
    pose proof (mpv_packets_hdrs fd out' Hpt len (zlen saved) (sink_mtu e) ps [] (zlen (concat hs.*2))
      (bool_decide (picture_type out' = 1)) 0 p0 Hm Hl Hus H4 Hbig) as Hh.
    cbv zeta in Hh. cbn [app fmap list_fmap concat] in Hh. change (zlen (@nil Z)) with 0 in Hh.
    rewrite Z.add_0_r in Hh. specialize (Hh (Hat ps Hpt H4) Hsp).
    destruct (hdrs_ok_lookup _ _ _ _ _ _ _ Hh Hiq) as (h2 & Hhd & [R1 R2 R3 R4 R5]). rewrite Z.add_0_l in R4, R5.
    exists h2. split_and!; [|apply R1|apply R1|done| |done|done].
    + rewrite Hhd. pose proof (field_range pic 32 10) as Hr. change (2 ^ Z.of_nat 10) with 1024 in Hr.
      change (vectors out') with (picture_vectors pic). change (temporal_reference out') with (field pic 32 10).
      pose proof (picture_vectors_byte pic). rewrite PUT_16_eq. unfold u8. rewrite (Z.mod_small (picture_vectors pic)) by lia.
      rewrite (Z.mod_small (field pic 32 10 `div` 256)); [done|]. zdm.
    + rewrite R3, andb_true_iff, !bool_decide_eq_true. done.
Qed.

(** A key picture with its sequence header, a group header and two slices, of
    which one has to be fragmented. *)
Definition ex_header : list (Z * list Z) := [(179, [0; 0; 1; 179; 20; 0; 240; 19; 255; 255; 224; 24]); (178, [0; 0; 1; 178; 77])].
Definition ex_picture : list Z := [0; 0; 1; 0; 0; 143; 255; 248].
Definition ex_units : list (Z * list Z) :=
  [(184, [0; 0; 1; 184; 0; 8; 0; 64]); (0, ex_picture); (1, [0; 0; 1; 1] ++ seqZ 5 40); (2, [0; 0; 1; 2; 9; 0])].
Definition ex_frame : list Z := concat (ex_header ++ ex_units).*2.
Definition ex_mpv : rtp_mpv := mkMpv [] 0 0 0 [] 0 0 1000.

Lemma ex_frame_ok : mpv_frame ex_frame ex_header ex_units ex_picture (zlen ex_frame).
Proof.
  split.
  - split; [lia|]. split; [done|]. split; [|by exists []].
    repeat constructor; eexists; (split; [reflexivity|]); (split; [by apply (bool_decide_unpack _); vm_compute|done]).
  - done.
  - cbn. split; [done|]. split; [done|]. repeat constructor; cbn; lia.
  - done.
  - exists [(184, [0; 0; 1; 184; 0; 8; 0; 64])], [(1, [0; 0; 1; 1] ++ seqZ 5 40); (2, [0; 0; 1; 2; 9; 0])].
    repeat constructor; done.
  - split; [done|]. vm_compute. naive_solver.
  - done.
Qed.

Lemma mpv_roundtrip_witness :
  mpv_process_frame ex_frame (zlen ex_frame) ex_mpv = Ok (after_frame ex_mpv ex_header ex_units ex_picture, 1) ∧
  ∃ pkts, mpv_send ex_frame (after_frame ex_mpv ex_header ex_units ex_picture) (mkRec 24 []) = Ok (send_seq (mkRec 24 []) pkts) ∧
    concat (payload <$> pkts) = ex_frame.
Proof.
  destruct (mpv_roundtrip (mkRec 24 []) ex_frame ex_mpv ex_header ex_units ex_picture (zlen ex_frame))
    as (Hp & _ & _ & pkts & Hs & Hd & _).
  - by apply (bool_decide_unpack _); vm_compute.
  - apply ex_frame_ok.
  - done.
  - cbn. lia.
  - split; [exact Hp|]. exists pkts. split; [exact Hs|]. rewrite Hd. reflexivity.
Defined.

(** ** Defects *)

(** The vectors of a packet overrun their array when more than 46 units, the
    saved header included, fit into one packet: the parser takes up to 48. *)
Lemma many_units_overrun {E} `{RtpSink E} fd out bs : ∀ (e : E) p,
  8 ≤ sink_mtu e < 2147483648 → blocks_ok fd bs → 46 < zlen (pk_vs p) + zlen bs → zlen (pk_vs p) ≤ 46 →
  foldr (λ b n, b.2 + n) 0 bs ≤ pk_space p ≤ sink_mtu e - 4 →
  mpv_blocks fd out bs e p = Fault OutOfBounds.
Proof.
  induction bs as [|[d len] bs IH]; intros e p Hm Hok Hn Hv Hs; [unfold zlen in *; simpl in Hn; lia|].
  apply Forall_cons in Hok as (Hb & Hok). pose proof Hb as (_ & Hl & Hin). rewrite zlen_cons in Hn.
  assert (0 ≤ foldr (λ b n, b.2 + n) 0 bs) as Hsum.
  { clear -Hok. induction Hok as [|b bs (_ & Hb & _) _ IH]; cbn; lia. }
  cbn [foldr fst snd mpv_blocks] in *. rewrite mpv_flush_packets. unfold flush_packets.
  rewrite (decide_False (P := len > _)), (decide_False (P := pk_space p < _)) by lia. cbn [fst snd send_seq].
  destruct (decide (zlen (pk_vs p) = 46)) as [Hf|Hf].
  { unfold mpv_place. by rewrite decide_False by lia. }
  rewrite mpv_place_packets by (done || lia). rewrite res_bind_ok. unfold place_packets.
  rewrite decide_True by lia. cbn [fst snd send_seq]. apply IH; [done|done|..]; cbn [pk_vs pk_space]; rewrite ?zlen_app, ?zlen_cons, ?zlen_nil; lia.
Qed.

(** A sequence header with a frame rate code the standard reserves makes the
    packetizer divide by zero. *)
Lemma reserved_rate_divides_by_zero fd out d u :
  Forall is_byte fd → 0 ≤ d → slice fd d (zlen u) = u → 8 ≤ zlen u → field u 60 4 = 0 ∨ 9 ≤ field u 60 4 →
  parse_video_sequence_header fd out d = Fault DivByZero.
Proof.
  intros Hfd Hd Hu Hl Hr. unfold parse_video_sequence_header. rewrite (get_field_unit fd d u) by (done || lia).
  rewrite res_bind_ok. change (Z.to_nat (32 + 12 + 12 + 4)) with 60%nat. change (Z.to_nat 4) with 4%nat.
  pose proof (field_range u 60 4) as H16. change (2 ^ Z.of_nat 4) with 16 in H16.
  assert (Forall (λ k, rd frame_rate_tab k = Ok (0, 0)) [0; 9; 10; 11; 12; 13; 14; 15]) as Htab by by repeat constructor.
  rewrite Forall_forall in Htab. rewrite Htab; [done|]. set (k := field u 60 4) in *. clearbody k.
  destruct Hr as [->|Hr]; [by left|]. right. assert (k ∈ seqZ 9 7) as Hs by (apply elem_of_seqZ; lia). exact Hs.
Qed.
