(* ===== verification/RtpMpeg4.v ===== *)
(** * The MPEG-4 video packetizer (rtp-mpeg4.c)

    mpeg4_process_frame walks over the units of a frame. The units that configure
    the decoder are collected and, with the first picture after them, printed to
    the fmtp line of the SDP; from the video object layer come the frame period
    and the width of time fields. All known units are noted, and mpeg4_send packs
    them into packets without regard to their borders. The frame buffer is [fd],
    a unit is its offset and length. *)

From stdpp Require Import prelude gmap strings pretty.
From S2P Require Import Prelude Rtp RtpMedia Bitstream.

Local Open Scope c_scope.

(** The arrays [iov] and [config] up to their counts [iov_count] and
    [config_len]; [fmtp] without its terminating zero. *)
Record rtp_mpeg4 := mkMpeg4 {
  iov : list (Z * Z);
  config : list Z;
  pali : Z;
  fmtp : list Z;
  init_done : Z;
  ts_incr : Z;
  vop_time_increment_resolution : Z;
  vop_time_increment : Z;
  vtir_bitlen : Z;
  timestamp : Z }.

Definition set_iov (o : rtp_mpeg4) (l : list (Z * Z)) : rtp_mpeg4 :=
  mkMpeg4 l (config o) (pali o) (fmtp o) (init_done o) (ts_incr o) (vop_time_increment_resolution o)
    (vop_time_increment o) (vtir_bitlen o) (timestamp o).
Definition set_config (o : rtp_mpeg4) (l : list Z) (p : Z) : rtp_mpeg4 :=
  mkMpeg4 (iov o) l p (fmtp o) (init_done o) (ts_incr o) (vop_time_increment_resolution o)
    (vop_time_increment o) (vtir_bitlen o) (timestamp o).
Definition set_fmtp (o : rtp_mpeg4) (t : list Z) : rtp_mpeg4 :=
  mkMpeg4 (iov o) [] (pali o) t 1 (ts_incr o) (vop_time_increment_resolution o)
    (vop_time_increment o) (vtir_bitlen o) (timestamp o).
Definition set_vol (o : rtp_mpeg4) (incr res inc bits : Z) : rtp_mpeg4 :=
  mkMpeg4 (iov o) (config o) (pali o) (fmtp o) (init_done o) incr res inc bits (timestamp o).
Definition set_timestamp (o : rtp_mpeg4) (t : Z) : rtp_mpeg4 :=
  mkMpeg4 (iov o) (config o) (pali o) (fmtp o) (init_done o) (ts_incr o) (vop_time_increment_resolution o)
    (vop_time_increment o) (vtir_bitlen o) t.

(** The fields malloc leaves unset are taken from [junk]. *)
Definition new_rtp_media_mpeg4 (junk : rtp_mpeg4) : rtp_mpeg4 :=
  mkMpeg4 [] [] 0 (fmtp junk) 0 (ts_incr junk) (vop_time_increment_resolution junk)
    (vop_time_increment junk) (vtir_bitlen junk) 0.

(** ** Parsing *)

(** A unit that does not fit in the 24 entries is dropped with a warning; the
    callers do not look at the result. *)
Definition add_to_rtp_buf (out : rtp_mpeg4) (d len : Z) : rtp_mpeg4 :=
  if decide (zlen (iov out) = 24) then out else set_iov out (iov out ++ [(d, len)]).

Section Parse.
Context (fd : list Z).

Definition add_to_config (out : rtp_mpeg4) (d len : Z) : res rtp_mpeg4 :=
  if decide (zlen (config out) + len > 512) then Ok out
  else bytes ← copy_from fd d len; Ok (set_config out (config out ++ bytes) (pali out)).

Definition fmtp_text (pali : Z) (config : list Z) : list Z :=
  $"profile-level-id=" ++ fmt_d pali ++ $";config=" ++ (config ≫= fmt_02X).

(** The text goes to an array of 600 bytes. *)
Definition finish_config (out : rtp_mpeg4) : res rtp_mpeg4 :=
  text ← sprintf_into 600 (fmtp_text (pali out) (config out)); Ok (set_fmtp out text).

Definition parse_visual_object_sequence (out : rtp_mpeg4) (d len : Z) : res rtp_mpeg4 :=
  p ← rd fd (d + 4);
  out ← add_to_config (set_config out (config out) p) d len;
  Ok (add_to_rtp_buf out d len).

(** [if (out->config_len > 0) add_to_config(...)] *)
Definition extend_config (out : rtp_mpeg4) (d len : Z) : res rtp_mpeg4 :=
  if decide (zlen (config out) > 0) then add_to_config out d len else Ok out.

Definition parse_visual_object (out : rtp_mpeg4) (d len : Z) : res rtp_mpeg4 :=
  '(ident, off) ← get_field fd d 1 32;
  let off := if decide (ident ≠ 0) then off + 7 else off in
  '(visual_object_type, _) ← get_field fd d 4 off;
  out ← extend_config out d len;
  Ok (add_to_rtp_buf out d len).

Definition parse_video_object (out : rtp_mpeg4) (d len : Z) : res rtp_mpeg4 :=
  out ← add_to_config out d len; Ok (add_to_rtp_buf out d len).

Definition parse_1b2 (out : rtp_mpeg4) (d len : Z) : res rtp_mpeg4 :=
  out ← extend_config out d len; Ok (add_to_rtp_buf out d len).

(** [for (vtir_bitlen = 0; i != 0; i >>= 1) ++vtir_bitlen] *)
Fixpoint bitlen (fuel : nat) (i n : Z) : Z :=
  match fuel with
  | O => n
  | S fuel => if decide (i ≠ 0) then bitlen fuel (Z.shiftr i 1) (n + 1) else n
  end.

(** The head of a video object layer has parts that may be missing: where the
    identifier, the aspect ratio and the control parameters end. *)
Definition ident_end (d off : Z) : res Z :=
  '(b, off) ← get_field fd d 1 off; Ok (if decide (b ≠ 0) then off + 7 else off).
Definition aspect_end (d off : Z) : res Z :=
  '(aspect, off) ← get_field fd d 4 off; Ok (if decide (aspect = 15) then off + 16 else off).
Definition control_end (d off : Z) : res Z :=
  '(b, off) ← get_field fd d 1 off;
  if decide (b ≠ 0) then
    '(vbv, off) ← get_field fd d 1 (off + 3);
    Ok (if decide (vbv ≠ 0) then off + 79 else off)
  else Ok off.

(** The offset behind the shape. *)
Definition vol_offset (d : Z) : res Z :=
  off ← ident_end d 41;
  off ← aspect_end d off;
  off ← control_end d off;
  Ok (off + 2).

(** The fields of the video object layer; the [bool] is false where the code
    returns early, with a missing marker or a period of zero. *)
Definition vol_fields (out : rtp_mpeg4) (d off : Z) : res (rtp_mpeg4 * bool) :=
  '(marker, off) ← get_field fd d 1 off;
  if decide (marker = 0) then Ok (out, false) else
  '(res, off) ← get_field fd d 16 off;
  let out := set_vol out (ts_incr out) res (vop_time_increment out) (vtir_bitlen out) in
  '(marker, off) ← get_field fd d 1 off;
  if decide (marker = 0) then Ok (out, false) else
  let bits := bitlen 16 res 0 in
  let out := set_vol out (ts_incr out) res (vop_time_increment out) bits in
  '(fixed, off) ← get_field fd d 1 off;
  if decide (fixed ≠ 0) then
    '(inc, _) ← get_field fd d bits off;
    let out := set_vol out (ts_incr out) res inc bits in
    if decide (inc = 0) then Ok (out, false) else
    if decide (res = 0) then Fault DivByZero else
    Ok (set_vol out (s32 (90000 * inc) `quot` res) res inc bits, true)
  else Ok (set_vol out (ts_incr out) res 0 bits, true).

Definition parse_video_object_layer (out : rtp_mpeg4) (d len : Z) : res rtp_mpeg4 :=
  off ← vol_offset d;
  '(out, go_on) ← vol_fields out d off;
  if (go_on : bool) then out ← extend_config out d len; Ok (add_to_rtp_buf out d len)
  else Ok out.

(** The loop over the modulo time base: ones up to the first zero. *)
Fixpoint modulo_time (fuel : nat) (d len off : Z) : res Z :=
  if decide (off `quot` 8 < len) then
    match fuel with
    | O => Fault OutOfFuel
    | S fuel =>
        '(b, off) ← get_field fd d 1 off;
        if decide (b = 0) then Ok off else modulo_time fuel d len off
    end
  else Ok off.

Definition parse_video_object_plane (out : rtp_mpeg4) (d len : Z) : res rtp_mpeg4 :=
  out ← (if decide (zlen (config out) > 0) then finish_config out else Ok out);
  if decide (init_done out = 0) then Ok out else
  '(vop_coding_type, off) ← get_field fd d 2 32;
  off ← modulo_time (Z.to_nat (8 * len)) d len off;
  '(marker, off) ← get_field fd d 1 off;
  if decide (marker = 0) then Ok out else
  '(var_time_increment, _) ← get_field fd d (vtir_bitlen out) off;
  Ok (add_to_rtp_buf (set_timestamp out (u32 (timestamp out + ts_incr out))) d len).

Definition parse_mpeg4_frame (out : rtp_mpeg4) (d len : Z) : res rtp_mpeg4 :=
  code ← start_code fd d;
  if decide (code = 432) then parse_visual_object_sequence out d len
  else if decide (code = 434) then parse_1b2 out d len
  else if decide (code = 437) then parse_visual_object out d len
  else if decide (256 ≤ code ≤ 287) then parse_video_object out d len
  else if decide (288 ≤ code ≤ 303) then parse_video_object_layer out d len
  else if decide (code = 438) then parse_video_object_plane out d len
  else Ok out.

Fixpoint mpeg4_loop (fuel : nat) (length start : Z) (out : rtp_mpeg4) : res rtp_mpeg4 :=
  if decide (start < length) then
    match fuel with
    | O => Fault OutOfFuel
    | S fuel =>
        flen ← unit_len fd start length;
        out ← parse_mpeg4_frame out start flen;
        mpeg4_loop fuel length (start + flen) out
    end
  else Ok out.

Definition mpeg4_process_frame (length : Z) (out : rtp_mpeg4) : res (rtp_mpeg4 * Z) :=
  out ← mpeg4_loop (Z.to_nat length) length 0 (set_iov out []);
  Ok (out, init_done out).

End Parse.

(** -1 before the first picture. *)
Definition mpeg4_get_sdp (out : rtp_mpeg4) (payload port : Z) : option (list Z) :=
  if decide (init_done out = 0) then None else
  Some ($"m=video " ++ fmt_d port ++ $" RTP/AVP " ++ fmt_d payload ++ crlf
        ++ $"a=rtpmap:" ++ fmt_d payload ++ $" MP4V-ES/90000" ++ crlf
        ++ $"a=fmtp:" ++ fmt_d payload ++ $" " ++ fmtp out ++ crlf).

(** ** Sending *)

Section Send.
Context (fd : list Z) (ts : Z).

(** [v] are the vectors from v[1] on; [off] is into the first unit. *)
Fixpoint mpeg4_pack {E} `{RtpSink E} (fuel : nat) (bs : list (Z * Z)) (off : Z) (e : E) (v : list (list Z)) (space : Z)
    : res (option (E * list (list Z))) :=
  match bs with
  | [] => Ok (Some (e, v))
  | (d, len) :: rest =>
      match fuel with
      | O => Fault OutOfFuel
      | S fuel =>
          if decide (1 + zlen v < 32) then
            let n := len - off in
            if decide (u32 space < u32 n) then
              match sink_send e (mkPkt (v ++ [slice fd (d + off) space]) ts false) with
              | None => Ok None
              | Some e => mpeg4_pack fuel bs (off + space) e [] (sink_mtu e)
              end
            else mpeg4_pack fuel rest 0 e (v ++ [slice fd (d + off) n]) (space - n)
          else Fault OutOfBounds
      end
  end.

(** Every turn finishes a unit, fills a packet or sends a full one. *)
Definition pack_fuel (bs : list (Z * Z)) : nat := foldr (λ b n, 2 + Z.to_nat b.2 + n)%nat 1%nat bs.

End Send.

Definition mpeg4_send {E} `{RtpSink E} (fd : list Z) (out : rtp_mpeg4) (e : E) : res (option E) :=
  o ← mpeg4_pack fd (timestamp out) (pack_fuel (iov out)) (iov out) 0 e [] (sink_mtu e);
  match o with
  | None => Ok None
  | Some (e, v) => Ok (sink_send e (mkPkt v (timestamp out) true))
  end.

(** ** Sending: the units are cut like one piece *)

(** [cs] is [l] cut every [n] bytes: all pieces but the last are full. *)
Inductive chunked (n : Z) : list Z → list (list Z) → Prop :=
| chunked_last l : zlen l ≤ n → chunked n l [l]
| chunked_more a l cs : zlen a = n → l ≠ [] → chunked n l cs → chunked n (a ++ l) (a :: cs).

Definition payload (p : packet) : list Z := concat (pk_v p).

(** Full packets without the marker, and a last one with it. *)
Inductive mpeg4_packets (mtu ts : Z) : list Z → list packet → Prop :=
| packets_last v : zlen (concat v) ≤ mtu → mpeg4_packets mtu ts (concat v) [mkPkt v ts true]
| packets_more v l pkts : zlen (concat v) = mtu → l ≠ [] → mpeg4_packets mtu ts l pkts →
    mpeg4_packets mtu ts (concat v ++ l) (mkPkt v ts false :: pkts).

Lemma mpeg4_packets_chunked mtu ts l pkts :
  mpeg4_packets mtu ts l pkts →
  chunked mtu l (payload <$> pkts) ∧ Forall (λ p, pk_ts p = ts ∧ pk_size p ≤ mtu) pkts ∧
  (∃ init p, pkts = init ++ [p] ∧ pk_marker p = true ∧ Forall (λ p, pk_marker p = false) init).
Proof.
  induction 1 as [v Hv|v l pkts Hv Hl _ (IHc & IHf & init & p & -> & Hp & Hi)].
  - split; [by constructor|]. split; [by repeat constructor|]. by exists [], (mkPkt v ts true).
  - rewrite fmap_cons. split; [by constructor|]. split; [constructor; [|done]; cbn; unfold pk_size; cbn; lia|].
    exists (mkPkt v ts false :: init), p. split; [done|]. split; [done|]. by constructor.
Qed.

Lemma chunked_concat n l cs : chunked n l cs → concat cs = l.
Proof. induction 1 as [l _|a l cs _ _ _ IH]; cbn; [apply app_nil_r|by rewrite IH]. Qed.

Section Packing.
Context (fd : list Z) (ts : Z).

Definition rest_data (bs : list (Z * Z)) (off : Z) : list Z :=
  match bs with [] => [] | b :: rest => slice fd (b.1 + off) (b.2 - off) ++ blocks_data fd rest end.

Fixpoint pack_packets (mtu : Z) (fuel : nat) (bs : list (Z * Z)) (off : Z) (v : list (list Z)) (space : Z) : list packet :=
  match bs, fuel with
  | (d, len) :: rest, S fuel =>
      if decide (space < len - off)
      then mkPkt (v ++ [slice fd (d + off) space]) ts false :: pack_packets mtu fuel bs (off + space) [] mtu
      else pack_packets mtu fuel rest 0 (v ++ [slice fd (d + off) (len - off)]) (space - (len - off))
  | _, _ => [mkPkt v ts true]
  end.

(** What the loop keeps, and that its fuel is enough. *)
Record pack_inv (mtu : Z) (fuel : nat) (bs : list (Z * Z)) (off : Z) (v : list (list Z)) (space : Z) : Prop := {
  pi_blocks : blocks_ok fd bs;
  pi_off : match bs with [] => off = 0 | b :: _ => 0 ≤ off < b.2 end;
  pi_count : zlen v + zlen bs ≤ 24;
  pi_space : 0 ≤ space;
  pi_fill : zlen (concat v) + space = mtu;
  pi_fuel : Z.of_nat (pack_fuel bs) - off + (if decide (space = 0) then 1 else 0) ≤ Z.of_nat fuel + 1 }.

Lemma pack_inv_fuel mtu fuel d len bs off v space :
  pack_inv mtu fuel ((d, len) :: bs) off v space → ∃ fuel', fuel = S fuel'.
Proof.
  intros [Hbs Hoff _ _ _ Hf]. apply Forall_cons in Hbs as ((_ & Hl & _) & _). cbn [fst snd] in *.
  cbn [pack_fuel foldr fst snd] in Hf. fold (pack_fuel bs) in Hf.
  assert (1 <= pack_fuel bs)%nat by (clear; induction bs; cbn; lia).
  destruct fuel as [|fuel]; [case_decide; lia|by exists fuel].
Qed.

Lemma pack_inv_more mtu fuel d len bs off v space :
  0 < mtu → pack_inv mtu (S fuel) ((d, len) :: bs) off v space → space < len - off →
  pack_inv mtu fuel ((d, len) :: bs) (off + space) [] mtu.
Proof.
  intros Hm [Hbs Hoff Hn Hs Hsum Hf] Hc. pose proof (zlen_nonneg v). cbn [fst snd] in *. split; try done.
  - cbn. lia.
  - rewrite zlen_nil. lia.
  - lia.
  - rewrite (decide_False (P := mtu = 0)) by lia. destruct (decide (space = 0)); lia.
Qed.

Lemma pack_inv_next mtu fuel d len bs off v space :
  pack_inv mtu (S fuel) ((d, len) :: bs) off v space → len - off ≤ space →
  pack_inv mtu fuel bs 0 (v ++ [slice fd (d + off) (len - off)]) (space - (len - off)).
Proof.
  intros [Hbs Hoff Hn Hs Hsum Hf] Hc. apply Forall_cons in Hbs as ((Hd & Hl & Hin) & Hbs). cbn [fst snd] in *.
  cbn [pack_fuel foldr fst snd] in Hf. fold (pack_fuel bs) in Hf. rewrite zlen_cons in Hn. split; try done.
  - destruct bs as [|b bs]; [done|]. apply Forall_cons in Hbs as ((_ & ? & _) & _). lia.
  - rewrite zlen_app, zlen_cons, zlen_nil. lia.
  - lia.
  - rewrite concat_app, zlen_app. cbn [concat]. rewrite app_nil_r, zlen_slice by lia. lia.
  - repeat case_decide; lia.
Qed.

Lemma mpeg4_pack_packets {E} `{RtpSink E} : ∀ fuel bs off (e : E) v space,
  0 < sink_mtu e < 2147483648 → pack_inv (sink_mtu e) fuel bs off v space →
  (o ← mpeg4_pack fd ts fuel bs off e v space;
   match o with None => Ok None | Some (e, v) => Ok (sink_send e (mkPkt v ts true)) end)
  = Ok (send_seq e (pack_packets (sink_mtu e) fuel bs off v space)).
Proof.
  induction fuel as [|fuel IH]; intros bs off e v space Hm Hi.
  { destruct bs as [|[d len] bs]; [cbn; by destruct (sink_send e _)|]. by destruct (pack_inv_fuel _ _ _ _ _ _ _ _ Hi). }
  destruct bs as [|[d len] bs]; [cbn; by destruct (sink_send e _)|].
  pose proof Hi as [Hbs Hoff Hn Hs Hsum _]. apply Forall_cons in Hbs as ((_ & Hl & _) & _).
  rewrite zlen_cons in Hn. cbn [fst snd] in *. pose proof (zlen_nonneg bs). pose proof (zlen_nonneg (concat v)).
  cbn [mpeg4_pack pack_packets]. rewrite decide_True by lia. rewrite !u32_small by lia. case_decide as Hc.
  - cbn [send_seq]. destruct (sink_send e _) as [e1|] eqn:Es; [|done]. rewrite <- (sink_mtu_stable _ _ _ Es) in *.
    apply IH; [done|]. by eapply pack_inv_more; [lia|..].
  - apply IH; [done|]. apply pack_inv_next; [done|lia].
Qed.

Lemma pack_packets_spec mtu : ∀ fuel bs off v space,
  0 < mtu → pack_inv mtu fuel bs off v space →
  mpeg4_packets mtu ts (concat v ++ rest_data bs off) (pack_packets mtu fuel bs off v space).
Proof.
  induction fuel as [|fuel IH]; intros bs off v space Hm Hi.
  { destruct bs as [|[d len] bs]; [|by destruct (pack_inv_fuel _ _ _ _ _ _ _ _ Hi)].
    cbn. rewrite app_nil_r. constructor. destruct Hi. lia. }
  destruct bs as [|[d len] bs].
  { cbn. rewrite app_nil_r. constructor. destruct Hi. lia. }
  pose proof Hi as [Hbs Hoff _ Hs Hsum _]. apply Forall_cons in Hbs as ((Hd & Hl & Hin) & _). cbn [fst snd] in *.
  cbn [pack_packets]. case_decide as Hc.
  - assert (concat v ++ rest_data ((d, len) :: bs) off =
      concat (v ++ [slice fd (d + off) space]) ++ rest_data ((d, len) :: bs) (off + space)) as ->.
    { rewrite concat_app. cbn [concat rest_data fst snd]. rewrite app_nil_r, <- !(assoc (++)). f_equal.
      rewrite (assoc (++)). f_equal. rewrite Z.add_assoc, slice_app by lia. f_equal. lia. }
    constructor.
    + rewrite concat_app, zlen_app. cbn [concat]. rewrite app_nil_r, zlen_slice by lia. lia.
    + intros H0. apply app_nil in H0 as [H0 _]. apply (f_equal zlen) in H0. cbn [fst snd] in H0.
      rewrite zlen_slice, zlen_nil in H0 by lia. lia.
    + apply (IH ((d, len) :: bs) (off + space) [] mtu); [done|]. by eapply pack_inv_more.
  - specialize (IH bs 0 (v ++ [slice fd (d + off) (len - off)]) (space - (len - off)) Hm).
    assert (concat v ++ rest_data ((d, len) :: bs) off = concat (v ++ [slice fd (d + off) (len - off)]) ++ rest_data bs 0) as ->.
    { rewrite concat_app. cbn [concat rest_data fst snd]. rewrite app_nil_r, <- !(assoc (++)). do 2 f_equal.
      destruct bs as [|b bs]; [done|]. cbn. by rewrite Z.add_0_r, Z.sub_0_r. }
    apply IH, pack_inv_next; [done|lia].
Qed.
End Packing.

Lemma mpeg4_send_packets {E} `{RtpSink E} fd out (e : E) :
  0 < sink_mtu e < 2147483648 → blocks_ok fd (iov out) → zlen (iov out) ≤ 24 →
  ∃ pkts, mpeg4_send fd out e = Ok (send_seq e pkts) ∧
    mpeg4_packets (sink_mtu e) (timestamp out) (blocks_data fd (iov out)) pkts.
Proof.
  intros Hm Hbs Hn. assert (pack_inv fd (sink_mtu e) (pack_fuel (iov out)) (iov out) 0 [] (sink_mtu e)) as Hi.
  { split; try done; try lia.
    - destruct (iov out) as [|b bs]; [done|]. apply Forall_cons in Hbs as ((_ & ? & _) & _). lia.
    - rewrite decide_False by lia. lia. }
  eexists. split; [by apply mpeg4_pack_packets|].
  pose proof (pack_packets_spec fd (timestamp out) _ _ _ _ _ _ (proj1 Hm) Hi) as Hp.
  assert (concat [] ++ rest_data fd (iov out) 0 = blocks_data fd (iov out)) as <-; [|done].
  destruct (iov out) as [|b bs]; [done|]. cbn. by rewrite Z.add_0_r, Z.sub_0_r.
Qed.

(** ** The video object layer and plane: printing and parsing *)

(** The fields of a video object layer up to its frame period: identifier,
    aspect ratio with the extended one, control parameters with those of the
    buffer verifier, shape, resolution and fixed period. The period and the time
    of a picture have as many bits as the resolution ([time_width]); the
    standard has the bits of the largest number below the resolution, one less
    when the resolution is a power of two ([power_of_two_width]). *)
Definition time_width (res : Z) : Z := if decide (res = 0) then 0 else Z.log2 res + 1.

Record vol := mkVol {
  vol_ident : option (list bool);
  vol_aspect : list bool;
  vol_par : list bool;
  vol_control : option (list bool * option (list bool));
  vol_shape : list bool;
  vol_res : list bool;
  vol_inc : option (list bool) }.

Definition vol_wf (v : vol) : Prop :=
  (match vol_ident v with None => True | Some i => zlen i = 7 end) ∧ zlen (vol_aspect v) = 4 ∧
  zlen (vol_par v) = (if decide (num (vol_aspect v) = 15) then 16 else 0) ∧
  (match vol_control v with
   | None => True
   | Some (c, None) => zlen c = 3
   | Some (c, Some vbv) => zlen c = 3 ∧ zlen vbv = 79
   end) ∧ zlen (vol_shape v) = 2 ∧ zlen (vol_res v) = 16 ∧
  (match vol_inc v with None => True | Some i => zlen i = time_width (num (vol_res v)) ∧ num i ≠ 0 end).

Definition print_ident (v : vol) : list bool := match vol_ident v with None => [false] | Some i => [true] ++ i end.
Definition print_control (v : vol) : list bool :=
  match vol_control v with
  | None => [false]
  | Some (c, None) => [true] ++ c ++ [false]
  | Some (c, Some vbv) => [true] ++ c ++ [true] ++ vbv
  end.
Definition print_head (v : vol) : list bool :=
  print_ident v ++ (vol_aspect v ++ vol_par v) ++ print_control v ++ vol_shape v.
Definition print_tail (v : vol) : list bool :=
  [true] ++ vol_res v ++ [true] ++ (match vol_inc v with None => [false] | Some i => [true] ++ i end).

(** What the layer says of time. *)
Definition vol_period (v : vol) : Z := match vol_inc v with None => 0 | Some i => num i end.
Definition vol_ts (out : rtp_mpeg4) (v : vol) : Z :=
  match vol_inc v with None => ts_incr out | Some i => s32 (90000 * num i) `quot` num (vol_res v) end.
Definition vol_time (out : rtp_mpeg4) (v : vol) : rtp_mpeg4 :=
  set_vol out (vol_ts out v) (num (vol_res v)) (vol_period v) (time_width (num (vol_res v))).

(** The loop counts the bits of the resolution. *)
Lemma bitlen_width fuel : ∀ i n, 0 ≤ i < 2 ^ Z.of_nat fuel → bitlen fuel i n = n + time_width i.
Proof.
  induction fuel as [|fuel IH]; intros i n Hi; cbn [bitlen].
  { assert (i = 0) as -> by (change (2 ^ Z.of_nat 0) with 1 in Hi; lia). change (time_width 0) with 0. lia. }
  destruct (decide (i = 0)) as [->|H0]; [rewrite decide_False by lia; change (time_width 0) with 0; lia|].
  rewrite decide_True by done. unfold time_width at 1. rewrite decide_False by exact H0.
  rewrite Nat2Z.inj_succ, Z.pow_succ_r in Hi by lia. rewrite IH; rewrite Z.shiftr_div_pow2, Z.pow_1_r by lia; [|zdm].
  unfold time_width. destruct (decide (i = 1)) as [->|H1].
  { change (1 `div` 2) with 0. rewrite decide_True by done. change (Z.log2 1) with 0. lia. }
  rewrite decide_False by zdm.
  assert (Z.log2 (i `div` 2) = Z.log2 i - 1) as ->; [|lia].
  rewrite <- (Z.pow_1_r 2) at 1. rewrite <- Z.shiftr_div_pow2, Z.log2_shiftr by lia.
  assert (1 ≤ Z.log2 i) by (apply (Z.log2_le_mono 2 i); lia). lia.
Qed.

Lemma time_width_range res : 0 ≤ res < 65536 → 0 ≤ time_width res ≤ 16.
Proof.
  intros Hr. unfold time_width. case_decide; [lia|]. pose proof (Z.log2_nonneg res).
  assert (Z.log2 res < 16) by (apply Z.log2_lt_pow2; lia). lia.
Qed.

Lemma vol_res_width v : vol_wf v → bitlen 16 (num (vol_res v)) 0 = time_width (num (vol_res v)) ∧
  0 ≤ time_width (num (vol_res v)) ≤ 16.
Proof.
  intros (_ & _ & _ & _ & _ & Hr & _). pose proof (num_from_range 0 0 (vol_res v) ltac:(lia) ltac:(lia)) as H.
  rewrite Hr in H. change (2 ^ (0 + 16)) with 65536 in H. fold (num (vol_res v)) in H.
  split; [by apply (bitlen_width 16)|by apply time_width_range].
Qed.

Section Fields.
Context (fd : list Z) (Hfd : Forall is_byte fd) (d : Z).

(** Reading the field that is next, and skipping bits. *)
Lemma next_field n off fld s :
  bits_at fd d off (fld ++ s) → zlen fld = n → n ≤ 32 →
  get_field fd d n off = Ok (num fld, off + n) ∧ bits_at fd d (off + n) s.
Proof. intros Hat Hn Hm. split; [by eapply get_field_spec|]. rewrite <- Hn. by eapply bits_at_skip. Qed.

Lemma skip_bits n off a s : bits_at fd d off (a ++ s) → zlen a = n → bits_at fd d (off + n) s.
Proof. intros Hat <-. by apply bits_at_skip. Qed.

Lemma ident_end_spec v off s :
  vol_wf v → bits_at fd d off (print_ident v ++ s) → ident_end fd d off = Ok (off + zlen (print_ident v)).
Proof.
  intros (Hid & _) Hat. unfold print_ident, ident_end in *. destruct (vol_ident v) as [i|]; rewrite <- ?(assoc (++)) in Hat;
    destruct (next_field 1 _ _ _ Hat eq_refl) as (-> & _); try lia; rewrite res_bind_ok; [|done].
  rewrite decide_True by done. f_equal. rewrite zlen_app, Hid. change (zlen [true]) with 1. lia.
Qed.

Lemma aspect_end_spec v off s :
  vol_wf v → bits_at fd d off ((vol_aspect v ++ vol_par v) ++ s) →
  aspect_end fd d off = Ok (off + zlen (vol_aspect v ++ vol_par v)).
Proof.
  intros (_ & Has & Hpar & _) Hat. unfold aspect_end. rewrite <- (assoc (++)) in Hat.
  destruct (next_field 4 _ _ _ Hat Has) as (-> & _); [lia|]. rewrite res_bind_ok, zlen_app, Has, Hpar. f_equal. case_decide; lia.
Qed.

Lemma control_end_spec v off s :
  vol_wf v → bits_at fd d off (print_control v ++ s) → control_end fd d off = Ok (off + zlen (print_control v)).
Proof.
  intros (_ & _ & _ & Hc & _) Hat. unfold print_control, control_end in *.
  destruct (vol_control v) as [[c [vbv|]]|]; rewrite <- ?(assoc (++)) in Hat;
    destruct (next_field 1 _ _ _ Hat eq_refl) as (-> & Hat1); try lia; rewrite res_bind_ok; [| |done].
  - destruct Hc as (Hc & Hv). rewrite decide_True by done. apply (skip_bits 3) in Hat1; [|done].
    destruct (next_field 1 _ _ _ Hat1 eq_refl) as (-> & _); [lia|]. rewrite res_bind_ok, decide_True by done.
    f_equal. rewrite !zlen_app, Hc, Hv. change (zlen [true]) with 1. lia.
  - rewrite decide_True by done. apply (skip_bits 3) in Hat1; [|done].
    destruct (next_field 1 _ _ _ Hat1 eq_refl) as (-> & _); [lia|]. rewrite res_bind_ok, decide_False by (intros Hn; by apply Hn).
    f_equal. rewrite !zlen_app, Hc. change (zlen [true]) with 1. change (zlen [false]) with 1. lia.
Qed.

Lemma vol_offset_spec v s :
  vol_wf v → bits_at fd d 41 (print_head v ++ s) → vol_offset fd d = Ok (41 + zlen (print_head v)).
Proof.
  intros Hwf Hat. unfold vol_offset, print_head in *. rewrite <- !(assoc (++)), (assoc (++) (vol_aspect v)) in Hat.
  rewrite (ident_end_spec v 41 _ Hwf Hat), res_bind_ok. apply bits_at_skip in Hat.
  rewrite (aspect_end_spec v _ _ Hwf Hat), res_bind_ok. apply bits_at_skip in Hat.
  rewrite (control_end_spec v _ _ Hwf Hat), res_bind_ok. f_equal. destruct Hwf as (_ & _ & _ & _ & Hs & _).
  rewrite !zlen_app, Hs. lia.
Qed.

Lemma vol_fields_spec out v off s :
  vol_wf v → bits_at fd d off (print_tail v ++ s) → vol_fields fd out d off = Ok (vol_time out v, true).
Proof.
  intros Hwf Hat. destruct (vol_res_width v Hwf) as (Ew & Hw). destruct Hwf as (_ & _ & _ & _ & _ & Hr & Hi).
  unfold vol_fields, print_tail, vol_time, vol_ts, vol_period in *. rewrite <- !(assoc (++)) in Hat.
  destruct (next_field 1 _ _ _ Hat eq_refl) as (-> & Hat1); [lia|]. clear Hat. rewrite res_bind_ok, decide_False by done.
  destruct (next_field 16 _ _ _ Hat1 Hr) as (-> & Hat2); [lia|]. clear Hat1. rewrite res_bind_ok.
  destruct (next_field 1 _ _ _ Hat2 eq_refl) as (-> & Hat3); [lia|]. clear Hat2. rewrite res_bind_ok, decide_False by done.
  rewrite Ew. destruct (vol_inc v) as [i|]; rewrite <- ?(assoc (++)) in Hat3;
    destruct (next_field 1 _ _ _ Hat3 eq_refl) as (-> & Hat4); try lia; rewrite res_bind_ok; [|done].
  rewrite decide_True by done. destruct Hi as (Hl & Hn0).
  destruct (next_field _ _ _ _ Hat4 Hl) as (-> & _); [lia|]. rewrite res_bind_ok. rewrite decide_False by done.
  rewrite decide_False; [done|]. intros H0. rewrite H0 in Hl. change (time_width 0) with 0 in Hl.
  apply Hn0. by destruct i; [|rewrite zlen_cons in Hl; pose proof (zlen_nonneg i); lia].
Qed.

(** A video object plane: its type, the modulo time base and the marker. *)
Definition print_vop (ty : list bool) (modulo : nat) (time : list bool) : list bool :=
  ty ++ replicate modulo true ++ [false] ++ [true] ++ time.

Lemma modulo_time_spec len k : ∀ fuel off s,
  bits_at fd d off (replicate k true ++ [false] ++ s) → 0 ≤ off → off + Z.of_nat k < 8 * len → (k < fuel)%nat →
  modulo_time fd fuel d len off = Ok (off + Z.of_nat k + 1).
Proof.
  induction k as [|k IH]; intros fuel off s Hat Ho Hl Hf; (destruct fuel as [|fuel]; [lia|]); cbn [modulo_time];
    rewrite decide_True by (rewrite Z.quot_div_nonneg by lia; zdm).
  - change (replicate 0 true ++ [false] ++ s) with ([false] ++ s) in Hat.
    destruct (next_field 1 _ _ _ Hat eq_refl) as (-> & _); [lia|]. rewrite res_bind_ok, decide_True by done. f_equal. lia.
  - change (replicate (S k) true ++ [false] ++ s) with ([true] ++ replicate k true ++ [false] ++ s) in Hat.
    destruct (next_field 1 _ _ _ Hat eq_refl) as (-> & Hat1); [lia|]. rewrite res_bind_ok, decide_False by done.
    rewrite (IH fuel _ s Hat1) by lia. f_equal. lia.
Qed.
End Fields.

(** ** What the parser makes of a frame *)

(** A unit that is added to the configuration and to the packets. *)
Definition add_unit (out : rtp_mpeg4) (start : Z) (u : list Z) : rtp_mpeg4 :=
  set_iov (set_config out (config out ++ u) (pali out)) (iov out ++ [(start, zlen u)]).

(** Units of the configuration without parameters that matter here. *)
Definition plain_unit (x : Z * list Z) : Prop := x.1 = 178 ∨ (x.1 = 181 ∧ 6 ≤ zlen x.2) ∨ 0 ≤ x.1 ≤ 31.
Definition vol_unit (v : vol) (u : list Z) : Prop :=
  vol_wf v ∧ ∃ pre s, bits_of u = pre ++ print_head v ++ print_tail v ++ s ∧ zlen pre = 41.
Definition vop_unit (time_bits : Z) (u : list Z) : Prop :=
  ∃ pre ty k time s, bits_of u = pre ++ print_vop ty k time ++ s ∧ zlen pre = 32 ∧ zlen ty = 2 ∧ zlen time = time_bits.

Section Frames.
Context (fd : list Z) (Hfd : Forall is_byte fd).

(** The bits of a unit, where the unit is in the frame. *)
Lemma unit_bits_at d u pre w :
  0 ≤ d → slice fd d (zlen u) = u → bits_of u = pre ++ w → ∃ t, bits_at fd d (zlen pre) (w ++ t).
Proof.
  intros Hd Hu Hb. destruct (slice_here _ _ _ Hu) as (t & Et).
  exists (bits_of t). split; [done|]. split; [apply zlen_nonneg|].
  replace (Z.to_nat (8 * d + zlen pre)) with (8 * Z.to_nat d + length pre)%nat by (unfold zlen; lia).
  rewrite <- drop_drop, bits_of_drop, Et. assert (bits_of (u ++ t) = bits_of u ++ bits_of t) as -> by apply bind_app.
  by rewrite Hb, <- (assoc (++)), drop_app_length.
Qed.

(** What the walk knows of the unit it is at. *)
Record unit_here (start c : Z) (u : list Z) : Prop := {
  uh_start : 0 ≤ start;
  uh_code : start_code fd start = Ok (256 + c);
  uh_slice : slice fd start (zlen u) = u;
  uh_in : start + zlen u ≤ zlen fd;
  uh_len : 4 ≤ zlen u }.

Lemma add_to_config_unit out start c u :
  unit_here start c u → zlen (config out) + zlen u ≤ 512 →
  add_to_config fd out start (zlen u) = Ok (set_config out (config out ++ u) (pali out)).
Proof.
  intros [Hs _ Hsl Hin _] Hl. unfold add_to_config, copy_from. rewrite decide_False by lia.
  by rewrite decide_True, Hsl by lia.
Qed.

Lemma extend_config_unit out start c u :
  unit_here start c u → config out ≠ [] → zlen (config out) + zlen u ≤ 512 →
  extend_config fd out start (zlen u) = Ok (set_config out (config out ++ u) (pali out)).
Proof.
  intros Hu Hc Hl. unfold extend_config. rewrite decide_True; [by eapply add_to_config_unit|].
  destruct (config out) as [|x l]; [done|]. rewrite zlen_cons. pose proof (zlen_nonneg l). lia.
Qed.

Lemma add_to_rtp_buf_room out d len : zlen (iov out) < 24 → add_to_rtp_buf out d len = set_iov out (iov out ++ [(d, len)]).
Proof. intros. unfold add_to_rtp_buf. by rewrite decide_False by lia. Qed.

Lemma plain_step out start c u :
  unit_here start c u → plain_unit (c, u) → config out ≠ [] → zlen (config out) + zlen u ≤ 512 → zlen (iov out) < 24 →
  parse_mpeg4_frame fd out start (zlen u) = Ok (add_unit out start u).
Proof.
  intros Hu Hp Hc Hl Hi. unfold parse_mpeg4_frame. rewrite (uh_code _ _ _ Hu), res_bind_ok.
  destruct Hp as [E|[(E & H6)|E]]; cbn [fst snd] in *; try subst c.
  - rewrite decide_False, decide_True by lia. unfold parse_1b2. erewrite extend_config_unit, res_bind_ok by done.
    by rewrite add_to_rtp_buf_room.
  - rewrite !decide_False, decide_True by lia. unfold parse_visual_object.
    rewrite (get_field_unit fd start u), res_bind_ok; [|done|apply Hu|apply Hu|lia..].
    rewrite (get_field_unit fd start u), res_bind_ok; [|done|apply Hu|apply Hu|(try case_decide); lia..].
    erewrite extend_config_unit, res_bind_ok by done. by rewrite add_to_rtp_buf_room.
  - rewrite !(decide_False (P := 256 + c = _)) by lia. rewrite decide_True by lia. unfold parse_video_object.
    erewrite add_to_config_unit, res_bind_ok by done. by rewrite add_to_rtp_buf_room.
Qed.

Lemma sequence_step out start u p :
  unit_here start 176 u → u !! 4%nat = Some p → config out = [] → zlen u ≤ 512 → zlen (iov out) < 24 →
  parse_mpeg4_frame fd out start (zlen u) = Ok (add_unit (set_config out [] p) start u).
Proof.
  intros Hu Hp Hc Hl Hi. unfold parse_mpeg4_frame. rewrite (uh_code _ _ _ Hu), res_bind_ok.
  rewrite decide_True by done. unfold parse_visual_object_sequence. pose proof (uh_start _ _ _ Hu).
  assert (rd fd (start + 4) = Ok p) as ->.
  { unfold rd. rewrite decide_False by lia. pose proof (uh_slice _ _ _ Hu) as Hs. rewrite <- Hs in Hp. unfold slice in Hp.
    rewrite lookup_take_Some, lookup_drop in Hp. destruct Hp as (Hp & _).
    replace (Z.to_nat (start + 4)) with (Z.to_nat start + 4)%nat by lia. by rewrite Hp. }
  rewrite res_bind_ok. erewrite add_to_config_unit, res_bind_ok; [|done|cbn; rewrite Hc, zlen_nil; lia].
  rewrite add_to_rtp_buf_room by done. unfold add_unit. cbn. by rewrite Hc.
Qed.

Lemma layer_step out start c u v :
  unit_here start c u → 32 ≤ c ≤ 47 → vol_unit v u → config out ≠ [] → zlen (config out) + zlen u ≤ 512 → zlen (iov out) < 24 →
  parse_mpeg4_frame fd out start (zlen u) = Ok (add_unit (vol_time out v) start u).
Proof.
  intros Hu Hc (Hwf & pre & s & Hb & Hpre) Hcf Hl Hi. unfold parse_mpeg4_frame. rewrite (uh_code _ _ _ Hu), res_bind_ok.
  rewrite !(decide_False (P := 256 + c = _)), decide_False, decide_True by lia. unfold parse_video_object_layer.
  destruct (unit_bits_at start u pre _ (uh_start _ _ _ Hu) (uh_slice _ _ _ Hu) Hb) as (t & Hat).
  rewrite Hpre, <- !(assoc (++)) in Hat.
  rewrite (vol_offset_spec fd Hfd start v _ Hwf Hat), res_bind_ok. apply bits_at_skip in Hat.
  rewrite (vol_fields_spec fd Hfd start out v _ _ Hwf Hat), res_bind_ok.
  erewrite extend_config_unit, res_bind_ok by done. by rewrite add_to_rtp_buf_room.
Qed.

(** The state a picture leaves. *)
Definition picture_state (out : rtp_mpeg4) (start : Z) (u : list Z) : rtp_mpeg4 :=
  let out := if decide (config out = []) then out else set_fmtp out (fmtp_text (pali out) (config out)) in
  set_iov (set_timestamp out (u32 (timestamp out + ts_incr out))) (iov out ++ [(start, zlen u)]).

Lemma plane_step out start u :
  unit_here start 182 u → vop_unit (vtir_bitlen out) u → vtir_bitlen out ≤ 32 → zlen (iov out) < 24 →
  (if decide (config out = []) then init_done out ≠ 0 else zlen (fmtp_text (pali out) (config out)) < 600) →
  parse_mpeg4_frame fd out start (zlen u) = Ok (picture_state out start u).
Proof.
  intros Hu (pre & ty & k & time & s & Hb & Hpre & Hty & Ht) Hv Hi Hc. unfold parse_mpeg4_frame. rewrite (uh_code _ _ _ Hu), res_bind_ok.
  rewrite !decide_False, decide_True by lia. unfold parse_video_object_plane, picture_state.
  set (out1 := if decide (config out = []) then out else _).
  assert ((if decide (zlen (config out) > 0) then finish_config out else Ok out) = Ok out1) as ->.
  { unfold out1, finish_config, sprintf_into. destruct (decide (config out = [])) as [E|E].
    - by rewrite E.
    - rewrite (decide_True (P := zlen (config out) > 0)); [by rewrite decide_True|].
      destruct (config out) as [|x l]; [done|]. rewrite zlen_cons. pose proof (zlen_nonneg l). lia. }
  assert (init_done out1 ≠ 0 ∧ vtir_bitlen out1 = vtir_bitlen out ∧ iov out1 = iov out) as (H0 & H1 & H2)
    by (unfold out1; by case_decide).
  rewrite res_bind_ok. rewrite decide_False by done.
  destruct (unit_bits_at start u pre _ (uh_start _ _ _ Hu) (uh_slice _ _ _ Hu) Hb) as (t & Hat).
  unfold print_vop in *. rewrite Hpre, <- !(assoc (++)) in Hat.
  destruct (next_field fd Hfd start 2 _ _ _ Hat Hty) as (-> & Hat1); [lia|]. rewrite res_bind_ok.
  apply (f_equal length) in Hb. rewrite length_bits_of, !length_app, length_replicate in Hb. unfold zlen in Hpre, Hty.
  change (length [false]) with 1%nat in Hb. change (length [true]) with 1%nat in Hb.
  rewrite (modulo_time_spec fd Hfd start (zlen u) k _ _ _ Hat1) by (unfold zlen; lia). rewrite res_bind_ok.
  apply (skip_bits fd start (Z.of_nat k)) in Hat1; [|unfold zlen; by rewrite length_replicate].
  apply (skip_bits fd start 1) in Hat1; [|done].
  destruct (next_field fd Hfd start 1 _ _ _ Hat1 eq_refl) as (-> & Hat2); [lia|]. rewrite res_bind_ok, decide_False by done.
  destruct (next_field fd Hfd start (vtir_bitlen out1) _ _ _ Hat2) as (-> & _); [by rewrite H1|lia|]. rewrite res_bind_ok.
  rewrite add_to_rtp_buf_room by (cbn; by rewrite H2). done.
Qed.

(** The units that are sent; the others, such as the group header, are dropped. *)
Definition sent_code (c : Z) : bool := bool_decide (c = 176 ∨ c = 178 ∨ c = 181 ∨ c = 182 ∨ 0 ≤ c ≤ 47).
Definition sent (us : list (Z * list Z)) : list (Z * list Z) := filter (λ x, sent_code x.1 = true) us.
Fixpoint sent_blocks (start : Z) (us : list (Z * list Z)) : list (Z * Z) :=
  match us with
  | [] => []
  | (c, u) :: us =>
      if sent_code c then (start, zlen u) :: sent_blocks (start + zlen u) us else sent_blocks (start + zlen u) us
  end.

Lemma sent_cons c u us : sent ((c, u) :: us) = if sent_code c then (c, u) :: sent us else sent us.
Proof. unfold sent. destruct (sent_code c) eqn:E; [by rewrite filter_cons_True|]. rewrite filter_cons_False; [done|cbn; by rewrite E]. Qed.

Lemma sent_blocks_length start us : zlen (sent_blocks start us) = zlen (sent us).
Proof.
  revert start. induction us as [|[c u] us IH]; intros start; [done|]. rewrite sent_cons. cbn [sent_blocks].
  destruct (sent_code c); [by rewrite !zlen_cons, IH|done].
Qed.

Lemma sent_blocks_spec us : ∀ start length,
  units_at fd start length us → length < 2147483648 →
  blocks_ok fd (sent_blocks start us) ∧ blocks_data fd (sent_blocks start us) = concat (sent us).*2.
Proof.
  induction us as [|[c u] us IH]; intros start length Hus Hl; [by split; [constructor|]|].
  pose proof Hus as (Hs & _). apply units_step in Hus as (Hlt & _ & _ & Hu & Hl4 & Hsl & Hin & Hus).
  destruct (IH _ _ Hus Hl) as (Hok & Hdata). destruct Hus as (_ & Hlen & _). pose proof (zlen_nonneg (concat us.*2)).
  rewrite sent_cons. cbn [sent_blocks]. destruct (sent_code c); [|done]. split.
  - constructor; [|done]. cbn. split; [done|]. lia.
  - unfold blocks_data in *. rewrite bind_cons, fmap_cons. cbn [fst snd concat]. by rewrite Hsl, Hdata.
Qed.

Lemma dropped_step out start c u :
  unit_here start c u → sent_code c = false → parse_mpeg4_frame fd out start (zlen u) = Ok out.
Proof.
  intros Hu Hc. apply bool_decide_eq_false in Hc. unfold parse_mpeg4_frame. rewrite (uh_code _ _ _ Hu), res_bind_ok.
  by rewrite !decide_False by lia.
Qed.

Lemma units_here start length c u us :
  units_at fd start length ((c, u) :: us) →
  start < length ∧ unit_len fd start length = Ok (zlen u) ∧ unit_here start c u ∧ units_at fd (start + zlen u) length us.
Proof.
  intros Hus. pose proof Hus as (Hs & _). apply units_step in Hus as (? & ? & ? & _ & ? & ? & ? & Hus).
  split; [done|]. split; [done|]. split; [by split|exact Hus].
Qed.

(** The walk up to the next unit that is sent. *)
Lemma mpeg4_loop_next length out c u ks out1 r us : ∀ fuel start,
  units_at fd start length us → (Z.to_nat (length - start) <= fuel)%nat → sent us = (c, u) :: ks →
  (∀ p us', unit_here p c u → units_at fd (p + zlen u) length us' → sent us' = ks →
     sent_blocks start us = (p, zlen u) :: sent_blocks (p + zlen u) us' →
     parse_mpeg4_frame fd out p (zlen u) = Ok (out1 p) ∧
     ∀ fuel', (Z.to_nat (length - (p + zlen u)) <= fuel')%nat → mpeg4_loop fd fuel' length (p + zlen u) (out1 p) = r) →
  mpeg4_loop fd fuel length start out = r.
Proof.
  induction us as [|[c' u'] us IH]; intros fuel start Hus Hf Hsent Hr; [done|].
  apply units_here in Hus as (Hlt & Hul & Hu & Hus). pose proof (uh_len _ _ _ Hu).
  destruct fuel as [|fuel]; [lia|]. cbn [mpeg4_loop]. rewrite decide_True by done. rewrite Hul, res_bind_ok.
  rewrite sent_cons in Hsent. cbn [sent_blocks] in Hr. destruct (sent_code c') eqn:Ec.
  - injection Hsent as -> -> Hks. destruct (Hr start us Hu Hus Hks eq_refl) as (-> & Hgo). rewrite res_bind_ok. apply Hgo. lia.
  - rewrite (dropped_step _ _ _ _ Hu Ec), res_bind_ok. apply IH; [done|lia|done|done].
Qed.

Lemma mpeg4_loop_end length out us : ∀ fuel start,
  units_at fd start length us → (Z.to_nat (length - start) <= fuel)%nat → sent us = [] →
  mpeg4_loop fd fuel length start out = Ok out ∧ sent_blocks start us = [].
Proof.
  induction us as [|[c u] us IH]; intros fuel start Hus Hf Hsent.
  { destruct Hus as (_ & Hl & _). cbn [fmap list_fmap concat] in Hl. rewrite zlen_nil in Hl.
    destruct fuel; cbn; by rewrite decide_False by lia. }
  apply units_here in Hus as (Hlt & Hul & Hu & Hus). pose proof (uh_len _ _ _ Hu).
  rewrite sent_cons in Hsent. cbn [sent_blocks]. destruct (sent_code c) eqn:Ec; [done|].
  destruct fuel as [|fuel]; [lia|]. cbn [mpeg4_loop]. rewrite decide_True by done.
  rewrite Hul, res_bind_ok, (dropped_step _ _ _ _ Hu Ec), res_bind_ok. apply IH; [done|lia|done].
Qed.

(** The units of the configuration that are only added. *)
Definition with_units (out : rtp_mpeg4) (bl : list (Z * Z)) (us : list (Z * list Z)) : rtp_mpeg4 :=
  set_iov (set_config out (config out ++ concat us.*2) (pali out)) (iov out ++ bl).

Lemma mpeg4_loop_plain length xs ks : ∀ us fuel start out r,
  units_at fd start length us → (Z.to_nat (length - start) <= fuel)%nat → sent us = xs ++ ks → Forall plain_unit xs →
  config out ≠ [] → zlen (config out) + zlen (concat xs.*2) ≤ 512 → zlen (iov out) + zlen xs ≤ 24 →
  (∀ fuel' start' us' bl, (Z.to_nat (length - start') <= fuel')%nat → units_at fd start' length us' → sent us' = ks →
     sent_blocks start us = bl ++ sent_blocks start' us' → zlen bl = zlen xs →
     mpeg4_loop fd fuel' length start' (with_units out bl xs) = r) →
  mpeg4_loop fd fuel length start out = r.
Proof.
  induction xs as [|[c u] xs IH]; intros us fuel start out r Hus Hf Hsent Hp Hc Hl Hn Hr.
  { specialize (Hr fuel start us [] Hf Hus Hsent eq_refl eq_refl).
    unfold with_units in Hr. cbn in Hr. rewrite !app_nil_r in Hr. by destruct out. }
  apply Forall_cons in Hp as (Hpu & Hp). rewrite <- app_comm_cons in Hsent. rewrite fmap_cons in *. cbn [concat snd] in *.
  rewrite zlen_app, zlen_cons in *. pose proof (zlen_nonneg (concat xs.*2)). pose proof (zlen_nonneg xs).
  eapply mpeg4_loop_next; [exact Hus|exact Hf|exact Hsent|]. intros p us' Hu Hus' Hs' Hb.
  split; [apply (plain_step out p c u); [done..|lia|lia]|]. intros fuel' Hf'.
  eapply IH; [exact Hus'|exact Hf'|exact Hs'|done|by cbn; destruct (config out)|cbn; rewrite zlen_app; lia
    |cbn; rewrite zlen_app, zlen_cons, zlen_nil; lia|].
  intros f2 start2 us2 bl Hf2 Hus2 Hs2 Hb2 Hbl. specialize (Hr f2 start2 us2 ((p, zlen u) :: bl) Hf2 Hus2 Hs2).
  rewrite Hb, Hb2, zlen_cons in Hr. specialize (Hr eq_refl ltac:(lia)).
  unfold with_units, add_unit in *. cbn in *. by rewrite <- !(assoc (++)).
Qed.

(** Frames. A key frame has the configuration before its picture: the visual
    object sequence with the profile [p], units that are only copied, the video
    object layer [v], and more units that are copied. Other frames are the
    picture. The configuration is [None] for these. *)
Inductive mpeg4_frame (out : rtp_mpeg4) : list (Z * list Z) → option (Z * vol * list (Z * list Z)) → Prop :=
| key_frame vos p xs cv lay v ys vop :
    let cfg := (176, vos) :: xs ++ (cv, lay) :: ys in
    vos !! 4%nat = Some p → Forall plain_unit xs → Forall plain_unit ys → 32 ≤ cv ≤ 47 → vol_unit v lay →
    vop_unit (time_width (num (vol_res v))) vop → zlen (concat cfg.*2) ≤ 285 →
    mpeg4_frame out (cfg ++ [(182, vop)]) (Some (p, v, cfg))
| inter_frame vop :
    init_done out ≠ 0 → vtir_bitlen out ≤ 32 → vop_unit (vtir_bitlen out) vop →
    mpeg4_frame out [(182, vop)] None.

(** What a frame leaves. *)
Definition frame_state (out : rtp_mpeg4) (bl : list (Z * Z)) (k : option (Z * vol * list (Z * list Z))) : rtp_mpeg4 :=
  match k with
  | Some (p, v, cfg) =>
      let o := vol_time out v in
      mkMpeg4 bl [] p (fmtp_text p (concat cfg.*2)) 1 (ts_incr o)
        (vop_time_increment_resolution o) (vop_time_increment o) (vtir_bitlen o) (u32 (timestamp out + ts_incr o))
  | None => set_iov (set_timestamp out (u32 (timestamp out + ts_incr out))) bl
  end.

Lemma fmtp_text_length p config : zlen (fmtp_text p config) = 25 + zlen (fmt_d p) + 2 * zlen config.
Proof.
  unfold fmtp_text. rewrite !zlen_app. change (zlen ($"profile-level-id=")) with 17. change (zlen ($";config=")) with 8.
  assert (zlen (config ≫= fmt_02X) = 2 * zlen config) as ->; [|lia].
  induction config as [|b l IH]; [done|]. rewrite bind_cons, zlen_app, IH, zlen_cons. unfold zlen at 1. simpl. lia.
Qed.

Lemma fmt_d_byte p : is_byte p → zlen (fmt_d p) ≤ 3.
Proof.
  intros Hp. assert (Forall (λ p, zlen (fmt_d p) ≤ 3) (seqZ 0 256)) as H by closed_nonzero.
  rewrite Forall_forall in H. apply H, elem_of_seqZ. unfold is_byte in Hp. lia.
Qed.

Lemma mpeg4_process_frame_spec len out us k :
  units_at fd 0 len us → zlen (sent us) ≤ 24 → config out = [] → mpeg4_frame out (sent us) k →
  mpeg4_process_frame fd len out =
    Ok (frame_state out (sent_blocks 0 us) k, init_done (frame_state out (sent_blocks 0 us) k)) ∧
  init_done (frame_state out (sent_blocks 0 us) k) ≠ 0.
Proof.
  intros Hus Hn Hc0 Hfr. inversion Hfr as [vos p xs cv lay v ys vop cfg Hvos Hxs Hys Hcv Hlay Hvop Hcl Es|vop Hi Hb Hvop Es];
    subst k; symmetry in Es.
  2:{ split; [|done]. unfold mpeg4_process_frame.
      assert (mpeg4_loop fd (Z.to_nat len) len 0 (set_iov out []) = Ok (frame_state out (sent_blocks 0 us) None)) as ->; [|done].
      eapply mpeg4_loop_next; [exact Hus|lia|exact Es|]. intros q us' Hu Hus' Hs' Hbl.
      split; [apply (plane_step _ q); [done..|cbn; by rewrite decide_True]|]. intros fuel Hf.
      destruct (mpeg4_loop_end len (picture_state (set_iov out []) q vop) us' fuel _ Hus' Hf Hs') as (-> & Eb).
      rewrite Hbl, Eb. unfold picture_state. cbn. by rewrite decide_True. }
  split; [|done]. unfold mpeg4_process_frame.
  assert (mpeg4_loop fd (Z.to_nat len) len 0 (set_iov out []) = Ok (frame_state out (sent_blocks 0 us) (Some (p, v, cfg)))) as ->; [|done].
  assert (is_byte p) as Hp.
  { assert (Forall (λ x, Forall is_byte x.2) us) as Hbytes.
    { destruct Hus as (_ & _ & Hu & _). eapply Forall_impl; [exact Hu|]. intros x. apply unit_bytes. }
    rewrite Forall_forall in Hbytes. assert ((176, vos) ∈ us) as Hin.
    { assert ((176, vos) ∈ sent us) as H by (rewrite Es; left). by apply list_elem_of_filter in H as [_ H]. }
    specialize (Hbytes _ Hin). rewrite Forall_lookup in Hbytes. by eapply Hbytes. }
  rewrite Es in Hn. unfold cfg in Hn, Hcl, Es. rewrite <- (assoc (++)) in Es. rewrite <- app_comm_cons in Es.
  assert (concat cfg.*2 = ((vos ++ concat xs.*2) ++ lay) ++ concat ys.*2) as Ecat.
  { unfold cfg. rewrite fmap_cons, fmap_app, fmap_cons. cbn [concat snd]. rewrite concat_app. cbn [concat]. by rewrite !(assoc (++)). }
  unfold cfg in Ecat. rewrite Ecat in Hcl. pose proof (fmt_d_byte p Hp) as Hpd.
  assert (zlen (fmtp_text p (concat cfg.*2)) < 600) as Hfl.
  { rewrite fmtp_text_length. unfold cfg. rewrite Ecat. lia. }
  rewrite !zlen_app in Hcl. rewrite !zlen_cons, !zlen_app, !zlen_cons, zlen_nil in Hn.
  pose proof (zlen_nonneg (concat xs.*2)). pose proof (zlen_nonneg (concat ys.*2)). pose proof (zlen_nonneg xs). pose proof (zlen_nonneg ys).
  pose proof (zlen_nonneg vos). pose proof (zlen_nonneg lay).
  eapply mpeg4_loop_next; [exact Hus|lia|exact Es|]. intros q1 us1 Hu1 Hus1 Hs1 Hb1.
  split; [apply (sequence_step _ q1); done || lia|]. intros f1 Hf1.
  eapply mpeg4_loop_plain; [exact Hus1|exact Hf1|exact Hs1|done|cbn; by destruct vos|cbn; lia|cbn; rewrite zlen_cons, zlen_nil; lia|].
  intros f2 st2 us2 bl2 Hf2 Hus2 Hs2 Hb2 Hl2.
  eapply mpeg4_loop_next; [exact Hus2|exact Hf2|exact Hs2|]. intros q3 us3 Hu3 Hus3 Hs3 Hb3.
  split; [apply (layer_step _ q3 cv _ v); [done|done|done|cbn; by destruct vos|cbn; rewrite zlen_app; lia|cbn; rewrite zlen_cons; lia]|].
  intros f3 Hf3.
  eapply mpeg4_loop_plain; [exact Hus3|exact Hf3|exact Hs3|done|cbn; by destruct vos|cbn; rewrite !zlen_app; lia
    |cbn; rewrite zlen_cons, zlen_app, zlen_cons, zlen_nil; lia|].
  intros f4 st4 us4 bl4 Hf4 Hus4 Hs4 Hb4 Hl4.
  eapply mpeg4_loop_next; [exact Hus4|exact Hf4|exact Hs4|]. intros q5 us5 Hu5 Hus5 Hs5 Hb5. split.
  { apply (plane_step _ q5); [done|done| | |].
    - pose proof (proj2 (vol_res_width v (proj1 Hlay))). cbn. lia.
    - cbn. rewrite zlen_cons, !zlen_app, zlen_cons, zlen_nil. lia.
    - cbn. rewrite decide_False by by destruct vos. unfold cfg in Hfl. by rewrite Ecat in Hfl. }
  intros f5 Hf5. match goal with |- mpeg4_loop _ _ _ _ ?o = _ => destruct (mpeg4_loop_end len o us5 f5 _ Hus5 Hf5 Hs5) as (-> & Eb) end.
  rewrite Hb1, Hb2, Hb3, Hb4, Hb5, Eb. unfold frame_state, picture_state.
  rewrite decide_False by (cbn; by destruct vos). unfold cfg. rewrite Ecat. unfold set_iov, set_timestamp. cbn.
  do 2 f_equal. by rewrite <- !(assoc (++)).
Qed.
End Frames.

(** C36. An MPEG-4 frame gets to the client. The units of the frame that are sent
    (all but group headers, end codes and other units the code does not know,
    which it drops), at most 24, are those of a key frame or the picture of
    another frame. A
    key frame has a visual object sequence, units that are only copied, one video
    object layer, and more copied units before its picture, together at most
    285 bytes; from then on the SDP has the profile and all these units in
    hexadecimal, the clock has the period of the layer, when it has one and
    90000 times its increment fits 32 bits, and the time fields have the width
    of its resolution. Every frame advances the time stamp by the period. The
    payloads of the packets are the bytes of the units that are sent, cut at the
    maximum size: all packets but the last are full, and the last one and only
    that has the marker. *)
Theorem mpeg4_roundtrip {E} `{RtpSink E} (e : E) fd len out us k :
  Forall is_byte fd → units_at fd 0 len us → len < 2147483648 → zlen (sent us) ≤ 24 → config out = [] →
  mpeg4_frame out (sent us) k → 0 < sink_mtu e < 2147483648 →
  ∃ out', mpeg4_process_frame fd len out = Ok (out', init_done out') ∧ init_done out' ≠ 0 ∧ config out' = [] ∧
  timestamp out' = u32 (timestamp out + ts_incr out') ∧
  match k with
  | None => fmtp out' = fmtp out ∧ ts_incr out' = ts_incr out ∧ vtir_bitlen out' = vtir_bitlen out
  | Some (p, v, cfg) =>
      (∀ payload port, mpeg4_get_sdp out' payload port =
        Some ($"m=video " ++ fmt_d port ++ $" RTP/AVP " ++ fmt_d payload ++ [13; 10]
              ++ $"a=rtpmap:" ++ fmt_d payload ++ $" MP4V-ES/90000" ++ [13; 10]
              ++ $"a=fmtp:" ++ fmt_d payload ++ $" profile-level-id=" ++ fmt_d p
              ++ $";config=" ++ (concat cfg.*2 ≫= fmt_02X) ++ [13; 10])) ∧
      vtir_bitlen out' = time_width (num (vol_res v)) ∧
      match vol_inc v with
      | None => ts_incr out' = ts_incr out
      | Some i => 90000 * num i < 2147483648 → ts_incr out' = (90000 * num i) `div` num (vol_res v)
      end
  end ∧
  ∃ pkts, mpeg4_send fd out' e = Ok (send_seq e pkts) ∧
    chunked (sink_mtu e) (concat (sent us).*2) (payload <$> pkts) ∧
    Forall (λ p, pk_ts p = timestamp out' ∧ pk_size p ≤ sink_mtu e) pkts ∧
    (∃ init p, pkts = init ++ [p] ∧ pk_marker p = true ∧ Forall (λ p, pk_marker p = false) init).
Proof.
  intros Hfd Hus Hl Hn Hc Hfr Hm. destruct (mpeg4_process_frame_spec fd Hfd len out us k Hus Hn Hc Hfr) as (Hp & Hi).
  destruct (sent_blocks_spec fd us 0 len Hus Hl) as (Hok & Hdata). set (out' := frame_state out (sent_blocks 0 us) k) in *.
  assert (iov out' = sent_blocks 0 us) as Hiov by by destruct k as [[[p v] cfg]|].
  destruct (mpeg4_send_packets fd out' e Hm) as (pkts & Hs & Hpk); [by rewrite Hiov|by rewrite Hiov, sent_blocks_length|].
  exists out'. split; [done|]. split; [done|]. split; [by destruct k as [[[p v] cfg]|]|]. split; [by destruct k as [[[p v] cfg]|]|].
  split; [|exists pkts; split; [done|]; rewrite Hiov, Hdata in Hpk; by apply mpeg4_packets_chunked].
  destruct k as [[[p v] cfg]|]; [|done]. split; [|split; [done|]].
  - intros payload port. unfold mpeg4_get_sdp. rewrite decide_False by done. unfold out'. cbn [frame_state fmtp]. unfold fmtp_text.
    change ($" profile-level-id=") with ($" " ++ $"profile-level-id="). unfold crlf. by rewrite <- !(assoc (++)).
  - assert (vol_wf v) as Hwf by (inversion Hfr; simplify_eq; match goal with H : vol_unit v _ |- _ => apply H end).
    unfold out', frame_state, vol_time, vol_ts. cbn [set_vol ts_incr]. destruct (vol_inc v) as [i|] eqn:Ei; [|done]. intros Hsm.
    destruct Hwf as (_ & _ & _ & _ & _ & Hr & Hw). rewrite Ei in Hw. destruct Hw as (Hw & Hn0).
    pose proof (num_from_range 0 0 i ltac:(lia) ltac:(lia)) as Hi0. fold (num i) in Hi0.
    pose proof (num_from_range 0 0 (vol_res v) ltac:(lia) ltac:(lia)) as Hr0. fold (num (vol_res v)) in Hr0.
    assert (s32 (90000 * num i) = 90000 * num i) as -> by (unfold s32; zdm). apply Z.quot_div_nonneg; [lia|].
    destruct (decide (num (vol_res v) = 0)) as [E0|]; [|lia]. rewrite E0 in Hw. change (time_width 0) with 0 in Hw.
    destruct Hn0. by destruct i; [|rewrite zlen_cons in Hw; pose proof (zlen_nonneg i); lia].
Qed.

(** A key frame at 25 pictures a second: sequence, object, video object, a layer
    with an identifier and control parameters, user data, a group header, which
    is dropped, and the picture. *)
Definition ex_layer : vol :=
  mkVol (Some [false; false; true; false; false; false; true]) [false; false; false; true] []
    (Some ([false; true; true], None)) [false; false]
    (byte_bits 0 ++ byte_bits 25) (Some [false; false; false; false; true]).
Definition ex_bytes (l : list bool) : list Z := (λ n, num (take 8 (drop (8 * n) l))) <$> seq 0 (Nat.div (length l) 8).
Definition ex_layer_unit : list Z :=
  [0; 0; 1; 32] ++ ex_bytes (replicate 9 false ++ print_head ex_layer ++ print_tail ex_layer ++ replicate 7 true).
Definition ex_config : list (Z * list Z) :=
  [(176, [0; 0; 1; 176; 3]); (181, [0; 0; 1; 181; 9; 8]); (0, [0; 0; 1; 0]); (32, ex_layer_unit); (178, [0; 0; 1; 178; 65])].
Definition ex_vop : list Z := [0; 0; 1; 182; 40; 33; 7; 9; 11].
Definition ex_units : list (Z * list Z) := ex_config ++ [(179, [0; 0; 1; 179; 0; 16; 7]); (182, ex_vop)].
Definition ex_frame : list Z := concat ex_units.*2.
Definition ex_mpeg4 : rtp_mpeg4 := new_rtp_media_mpeg4 (mkMpeg4 [] [] 7 [] 7 7 7 7 7 7).

Lemma ex_layer_ok : vol_unit ex_layer ex_layer_unit.
Proof.
  split; [by vm_compute; naive_solver|]. exists (take 41 (bits_of ex_layer_unit)), [true; true; true; true].
  by split; vm_compute.
Qed.

Lemma ex_vop_ok : vop_unit 5 ex_vop.
Proof.
  exists (take 32 (bits_of ex_vop)), [false; false], 1%nat, [false; false; false; false; false], (drop 42 (bits_of ex_vop)).
  by split_and!; vm_compute.
Qed.

Lemma ex_frame_units : units_at ex_frame 0 (zlen ex_frame) ex_units.
Proof.
  split; [lia|]. split; [done|]. split; [|by exists []].
  repeat constructor; eexists; (split; [vm_compute; reflexivity|]); (split; [by apply (bool_decide_unpack _); vm_compute|done]).
Qed.

Lemma ex_key_frame : mpeg4_frame ex_mpeg4 (sent ex_units) (Some (3, ex_layer, ex_config)).
Proof.
  apply (key_frame ex_mpeg4 [0; 0; 1; 176; 3] 3 [(181, [0; 0; 1; 181; 9; 8]); (0, [0; 0; 1; 0])] 32 ex_layer_unit ex_layer
           [(178, [0; 0; 1; 178; 65])] ex_vop).
  - done.
  - constructor; [by right; left|]. constructor; [right; right; cbn; lia|constructor].
  - constructor; [by left|constructor].
  - lia.
  - apply ex_layer_ok.
  - apply ex_vop_ok.
  - done.
Qed.

Lemma mpeg4_roundtrip_witness :
  ∃ out', mpeg4_process_frame ex_frame (zlen ex_frame) ex_mpeg4 = Ok (out', init_done out') ∧ ts_incr out' = 3600 ∧
  mpeg4_get_sdp out' 96 5000 = Some ($"m=video 5000 RTP/AVP 96" ++ [13; 10] ++ $"a=rtpmap:96 MP4V-ES/90000" ++ [13; 10]
    ++ $"a=fmtp:96 profile-level-id=3;config=000001B003000001B50908000001000000012000488D8800CE1F000001B241" ++ [13; 10]) ∧
  ∃ pkts, mpeg4_send ex_frame out' (mkRec 16 []) = Ok (send_seq (mkRec 16 []) pkts) ∧
    chunked 16 (concat (ex_config ++ [(182, ex_vop)]).*2) (payload <$> pkts).
Proof.
  destruct (mpeg4_roundtrip (mkRec 16 []) ex_frame (zlen ex_frame) ex_mpeg4 ex_units (Some (3, ex_layer, ex_config)))
    as (out' & Hp & _ & _ & _ & (Hsdp & _ & Hinc) & pkts & Hs & Hc & _).
  - by apply (bool_decide_unpack _); vm_compute.
  - apply ex_frame_units.
  - done.
  - done.
  - done.
  - apply ex_key_frame.
  - cbn. lia.
  - exists out'. split; [exact Hp|]. split; [apply Hinc; done|]. split; [rewrite Hsdp; by vm_compute|]. exists pkts. split; [exact Hs|exact Hc].
Defined.

(** ** Defects *)

(** The configuration may have 512 bytes, but the text of more than 286 overruns
    the array it is printed to. *)
Lemma long_config_overruns out : 0 ≤ pali out → 287 ≤ zlen (config out) → finish_config out = Fault OutOfBounds.
Proof.
  intros Hp Hl. unfold finish_config, sprintf_into. rewrite decide_False; [done|]. rewrite fmtp_text_length.
  destruct (fmt_d_digits (pali out) Hp) as (Hne & _). destruct (fmt_d (pali out)) as [|x l]; [done|].
  rewrite zlen_cons. pose proof (zlen_nonneg l). lia.
Qed.

(** A stream of one picture a second whose clock has more than 23860 ticks: the
    product that makes the period overflows and time goes backwards. *)
Lemma slow_rate_overflows out v i :
  vol_inc v = Some i → num i = num (vol_res v) → 23861 ≤ num i < 47721 → vol_ts out v < 0.
Proof.
  intros Hi Hr Hn. unfold vol_ts. rewrite Hi, <- Hr. set (n := num i) in *.
  assert (s32 (90000 * n) = - (4294967296 - 90000 * n)) as -> by (unfold s32; zdm).
  rewrite Z.quot_opp_l by lia. assert (1 ≤ (4294967296 - 90000 * n) `quot` n); [|lia].
  rewrite Z.quot_div_nonneg by lia. apply Z.div_le_lower_bound; lia.
Qed.

(** The width of time fields is that of the numbers below the resolution; the
    code takes one bit more when the resolution is a power of two. *)
Lemma power_of_two_width : Forall (λ k, bitlen 16 (2 ^ k) 0 = k + 1 ∧ bitlen 16 (2 ^ k - 1) 0 = k) (seqZ 0 16).
Proof. closed_nonzero. Qed.
