(* ===== verification/Conf.v ===== *)
(** * Configuration contexts and directives (conf_parse.c)

    Modules register a context: a type and a name, a function that starts a
    block and one that ends it, and a table of directives with the number and the
    types of their arguments. The directives are run from a configuration file,
    whose scanner (generated by flex) is here the list of tokens it returns, or
    by the program itself, through find_context and the run_context functions.

    The functions of the modules are values of the tables, over a state [S] of
    the program and pointers [D] to the data of blocks; [Spook] instantiates
    them. *)

From stdpp Require Import prelude gmap strings.
From S2P Require Import Prelude Pmsg.

Open Scope c_scope.

Definition TOKEN_NUM : Z := 1.
Definition TOKEN_STR : Z := 2.

(** A token: a number, a string, or a character of the file's punctuation. *)
Inductive token :=
| TNum (num : Z)
| TStr (str : list Z)
| TChar (c : Z).

Definition token_type (t : token) : Z :=
  match t with TNum _ => TOKEN_NUM | TStr _ => TOKEN_STR | TChar c => c end.

(** A line of a table of directives; [process] is null only in the terminator,
    which is the end of the list here. *)
Record statement (S D : Type) := mkStatement {
  directive : list Z;
  process : list token → option D → S → res (S * Z);
  min_args : Z;
  max_args : Z;
  types : list Z }.
Arguments mkStatement {S D}. Arguments directive {S D}. Arguments process {S D}.
Arguments min_args {S D}. Arguments max_args {S D}. Arguments types {S D}.

Record config_context (S D : Type) := mkContext {
  ctype : list Z;
  cname : list Z;
  start_block : option (S → res (S * option D));
  end_block : option (option D → S → res (S * Z));
  statements : list (statement S D) }.
Arguments mkContext {S D}. Arguments ctype {S D}. Arguments cname {S D}.
Arguments start_block {S D}. Arguments end_block {S D}. Arguments statements {S D}.

Section Conf.
Context {S D : Type}.
Implicit Types (cs : list (config_context S D)) (st : S).

(** strcpy into an array of 256 bytes. *)
Definition strcpy_256 (s : list Z) : res (list Z) :=
  if decide (zlen s < 256) then Ok s else Fault OutOfBounds.

(** The list starts with the global context; a new context goes to its end. *)
Definition register_config_context cs (type name : list Z)
    (start : option (S → res (S * option D))) (fin : option (option D → S → res (S * Z)))
    (s : list (statement S D)) : res (list (config_context S D)) :=
  type ← strcpy_256 type;
  name ← strcpy_256 name;
  Ok (cs ++ [mkContext type name start fin s]).

(** ** Directives *)

(** Whether the arguments have the types of the table. *)
Fixpoint types_match (tys : list Z) (args : list token) : bool :=
  match args, tys with
  | [], _ => true
  | a :: args, ty :: tys => (ty =? token_type a) && types_match tys args
  | _ :: _, [] => false
  end.

(** The loop over the table; [seen] is only for the message. The result of the
    directive's function is not looked at. *)
Fixpoint find_statement (l : list (statement S D)) (name : list Z) (t : list token) (d : option D) st
    : res (S * Z) :=
  match l with
  | [] => Ok (st, -1)
  | s :: l' =>
      let num_args := zlen t - 1 in
      if strcaseeq (directive s) name then
        if decide (num_args < min_args s ∨ num_args > max_args s) then find_statement l' name t d st
        else if negb (types_match (types s) (drop 1 t)) then find_statement l' name t d st
        else '(st, _) ← process s t d st; Ok (st, 0)
      else find_statement l' name t d st
  end.

Definition process_statement (cc : config_context S D) (d : option D) (t : list token) st : res (S * Z) :=
  match t with
  | TStr name :: _ => find_statement (statements cc) name t d st
  | _ => Ok (st, -1)
  end.

(** ** The configuration file *)

(** [t] are the tokens collected, at most nine; [cc] the context, [None] for
    the global one; [d] is context_data. *)
Record reader := mkReader { rd_tokens : list token; rd_cc : option (config_context S D); rd_data : option D }.

Definition find_module (cs : list (config_context S D)) (type name : list Z) : option (config_context S D) :=
  snd <$> list_find (λ c, strcaseeq (ctype c) type && strcaseeq (cname c) name = true) cs.

(** One token: [None] is the return of -1. [global] is the global context, [cs]
    the registered ones. *)
Definition read_token (global : config_context S D) cs (tok : token) (r : reader) st : res (option reader * S) :=
  match tok with
  | TNum _ | TStr _ =>
      let t := rd_tokens r ++ [tok] in
      if decide (zlen t = 10) then Ok (None, st) else Ok (Some (mkReader t (rd_cc r) (rd_data r)), st)
  | TChar c =>
      if decide (c = 59) then
        (* ';': with no token before it, t[0] is the semicolon itself *)
        let t := if decide (rd_tokens r = []) then [tok] else rd_tokens r in
        '(st, ret) ← process_statement (default global (rd_cc r)) (rd_data r) t st;
        if decide (ret < 0) then Ok (None, st) else Ok (Some (mkReader [] (rd_cc r) (rd_data r)), st)
      else if decide (c = 123) then
        match rd_tokens r, rd_cc r with
        | [TStr type; TStr name], None =>
            match find_module cs type name with
            | None => Ok (None, st)
            | Some cc =>
                match start_block cc with
                | None => Ok (Some (mkReader [] (Some cc) (rd_data r)), st)
                | Some f =>
                    '(st, d) ← f st;
                    match d with
                    | None => Ok (None, st)
                    | Some d => Ok (Some (mkReader [] (Some cc) (Some d)), st)
                    end
                end
            end
        | _, _ => Ok (None, st)
        end
      else if decide (c = 125) then
        match rd_tokens r, rd_cc r with
        | [], Some cc =>
            match end_block cc with
            | None => Ok (Some (mkReader [] None None), st)
            | Some f =>
                '(st, ret) ← f (rd_data r) st;
                if decide (ret < 0) then Ok (None, st) else Ok (Some (mkReader [] None None), st)
            end
        | _, _ => Ok (None, st)
        end
      else Ok (None, st)
  end.

Fixpoint read_tokens (global : config_context S D) cs (l : list token) (r : reader) st : res (S * Z) :=
  match l with
  | [] => Ok (st, 0)
  | tok :: l' =>
      '(r', st) ← read_token global cs tok r st;
      match r' with
      | None => Ok (st, -1)
      | Some r' => read_tokens global cs l' r' st
      end
  end.

(** [file] is what the scanner returns for the file, [None] when it cannot be
    opened. *)
Definition read_config_file (global : config_context S D) cs (file : option (list token)) st : res (S * Z) :=
  match file with
  | None => Ok (st, -1)
  | Some l => read_tokens global cs l (mkReader [] None None) st
  end.

(** ** Running a context from the program *)

Definition find_context (global : config_context S D) cs (type name : list Z) : option (config_context S D) :=
  find_module (global :: cs) type name.

Definition run_context_start_block (cc : option (config_context S D)) st : res (S * option D) :=
  match cc with
  | None => Ok (st, None)
  | Some cc => match start_block cc with Some f => f st | None => Ok (st, None) end
  end.

Definition run_context_end_block (cc : option (config_context S D)) (d : option D) st : res (S * Z) :=
  match cc, d with
  | Some cc, Some d => match end_block cc with Some f => f (Some d) st | None => Ok (st, -1) end
  | _, _ => Ok (st, -1)
  end.

Definition run_context_statement (cc : option (config_context S D)) (d : option D) (t : list token) st : res (S * Z) :=
  match cc, d with
  | Some cc, Some d => process_statement cc (Some d) t st
  | _, _ => Ok (st, -1)
  end.

(** ** What directives are called with *)

(** A line of a table fits a statement: the name, ignoring case, the number of
    arguments and their types. *)
Definition fits (t : list token) (s : statement S D) : Prop :=
  match t with
  | TStr name :: args =>
      tolower <$> directive s = tolower <$> name ∧ min_args s ≤ zlen args ≤ max_args s ∧
      take (length args) (types s) = token_type <$> args
  | _ => False
  end.
#[global] Instance fits_dec t s : Decision (fits t s).
Proof. unfold fits. destruct t as [|[] ?]; apply _. Defined.

Lemma types_match_spec tys args : types_match tys args = true ↔ take (length args) tys = token_type <$> args.
Proof.
  revert tys. induction args as [|a args IH]; intros tys; [by destruct tys|].
  destruct tys as [|ty tys]; cbn; [done|]. rewrite andb_true_iff, Z.eqb_eq, IH. split.
  - by intros [-> ->].
  - by intros [= -> ->].
Qed.

Lemma find_statement_spec l name args d st :
  find_statement l name (TStr name :: args) d st =
  match list_find (fits (TStr name :: args)) l with
  | Some (_, s) => '(st, _) ← process s (TStr name :: args) d st; Ok (st, 0)
  | None => Ok (st, -1)
  end.
Proof.
  induction l as [|s l IH]; [done|]. cbn [find_statement list_find].
  replace (zlen (TStr name :: args) - 1) with (zlen args) by (rewrite zlen_cons; lia). rewrite IH. clear IH.
  assert (∀ (X : res (S * Z)), X = match list_find (fits (TStr name :: args)) l with
      | Some (_, s0) => '(st, _) ← process s0 (TStr name :: args) d st; Ok (st, 0) | None => Ok (st, -1) end →
    ¬ fits (TStr name :: args) s →
    X = match (if decide (fits (TStr name :: args) s) then Some (0%nat, s) else prod_map Datatypes.S id <$> list_find (fits (TStr name :: args)) l) with
      | Some (_, s0) => '(st, _) ← process s0 (TStr name :: args) d st; Ok (st, 0) | None => Ok (st, -1) end) as Hskip.
  { intros X -> Hn. rewrite decide_False by done. by destruct (list_find _ l) as [[? ?]|]. }
  unfold strcaseeq. case_bool_decide as Hd; [|apply Hskip; [done|]; by intros [? _]].
  destruct (decide (zlen args < min_args s ∨ zlen args > max_args s)) as [Hn|Hn]; [apply Hskip; [done|]; intros (_ & ? & _); lia|].
  destruct (types_match (types s) (drop 1 (TStr name :: args))) eqn:Ht; cbn [negb].
  - rewrite decide_True; [done|]. split_and!; [done|lia|lia|]. by apply types_match_spec in Ht.
  - apply Hskip; [done|]. intros (_ & _ & Hty). apply types_match_spec in Hty. change (drop 1 (TStr name :: args)) with args in Ht. congruence.
Qed.

(** ** Configuration files as blocks and statements *)

Inductive item :=
| IStmt (t : list token)
| IBlock (type name : list Z) (body : list (list token)).

Definition is_word (t : token) : Prop := match t with TChar _ => False | _ => True end.
Definition stmt_ok (t : list token) : Prop := t ≠ [] ∧ zlen t < 10 ∧ Forall is_word t.
Definition item_ok (it : item) : Prop :=
  match it with IStmt t => stmt_ok t | IBlock _ _ body => Forall stmt_ok body end.

Definition print_stmt (t : list token) : list token := t ++ [TChar 59].
Definition print_item (it : item) : list token :=
  match it with
  | IStmt t => print_stmt t
  | IBlock type name body => [TStr type; TStr name; TChar 123] ++ concat (print_stmt <$> body) ++ [TChar 125]
  end.

(** Statements of one context, up to the first that is not accepted. *)
Fixpoint run_stmts (cc : config_context S D) (d : option D) (l : list (list token)) st : res (S * Z) :=
  match l with
  | [] => Ok (st, 0)
  | t :: l =>
      '(st, ret) ← process_statement cc d t st;
      if decide (ret < 0) then Ok (st, -1) else run_stmts cc d l st
  end.

Definition run_block (cc : config_context S D) (body : list (list token)) st : res (S * Z) :=
  '(st, d) ← (match start_block cc with Some f => f st | None => Ok (st, None) end);
  if decide (is_Some (start_block cc) ∧ d = None) then Ok (st, -1) else
  '(st, ret) ← run_stmts cc d body st;
  if decide (ret < 0) then Ok (st, -1) else
  match end_block cc with
  | None => Ok (st, 0)
  | Some f => '(st, ret) ← f d st; Ok (st, if decide (ret < 0) then -1 else 0)
  end.

Definition run_item (global : config_context S D) cs (it : item) st : res (S * Z) :=
  match it with
  | IStmt t => '(st, ret) ← process_statement global None t st; Ok (st, if decide (ret < 0) then -1 else 0)
  | IBlock type name body =>
      match find_module cs type name with None => Ok (st, -1) | Some cc => run_block cc body st end
  end.

Fixpoint run_items (global : config_context S D) cs (l : list item) st : res (S * Z) :=
  match l with
  | [] => Ok (st, 0)
  | it :: l => '(st, ret) ← run_item global cs it st; if decide (ret < 0) then Ok (st, -1) else run_items global cs l st
  end.

Section Reading.
Context (global : config_context S D) (cs : list (config_context S D)).

Lemma read_words t t0 rest cc d st :
  Forall is_word t → zlen (t0 ++ t) < 10 →
  read_tokens global cs (t ++ rest) (mkReader t0 cc d) st = read_tokens global cs rest (mkReader (t0 ++ t) cc d) st.
Proof.
  intros Ht. revert t0. induction Ht as [|x t Hx _ IH]; intros t0 Hl; [by rewrite app_nil_r|].
  assert (read_token global cs x (mkReader t0 cc d) st = Ok (Some (mkReader (t0 ++ [x]) cc d), st)) as E.
  { destruct x; [| |done]; cbn [read_token rd_tokens rd_cc rd_data]; rewrite decide_False; try done;
      rewrite zlen_app, ?zlen_cons, ?zlen_nil in *; pose proof (zlen_nonneg t); lia. }
  cbn [app read_tokens]. rewrite E, res_bind_ok. cbv beta iota.
  rewrite IH by (by rewrite <- (assoc_L (++))). by rewrite <- (assoc_L (++)).
Qed.

Lemma read_stmt t rest cc d st :
  stmt_ok t →
  read_tokens global cs (print_stmt t ++ rest) (mkReader [] cc d) st =
  ('(st, ret) ← process_statement (default global cc) d t st;
   if decide (ret < 0) then Ok (st, -1) else read_tokens global cs rest (mkReader [] cc d) st).
Proof.
  intros (Hne & Hl & Hw). unfold print_stmt. rewrite <- (assoc_L (++)), read_words by done.
  cbn [app read_tokens read_token rd_tokens rd_cc rd_data]. rewrite (decide_True (P := 59 = 59)) by done.
  rewrite (decide_False (P := t = [])) by done.
  destruct (process_statement _ d t st) as [[st' ret]|]; [|done]. rewrite !res_bind_ok. by case_decide.
Qed.

Lemma read_stmts body rest cc d st :
  Forall stmt_ok body →
  read_tokens global cs (concat (print_stmt <$> body) ++ rest) (mkReader [] cc d) st =
  ('(st, ret) ← run_stmts (default global cc) d body st;
   if decide (ret < 0) then Ok (st, -1) else read_tokens global cs rest (mkReader [] cc d) st).
Proof.
  intros Hb. revert st. induction Hb as [|t body Ht _ IH]; intros st.
  - cbn [fmap list_fmap concat app run_stmts]. rewrite res_bind_ok. cbv beta iota. by rewrite decide_False by lia.
  - cbn [fmap list_fmap concat run_stmts]. fold_fmap. rewrite <- (assoc_L (++)), read_stmt by done.
    destruct (process_statement _ d t st) as [[st' ret]|]; [|done]. rewrite !res_bind_ok.
    case_decide; [|apply IH]. rewrite res_bind_ok. cbv beta iota. by rewrite decide_True by lia.
Qed.

(** The start of a block. *)
Lemma read_open type name rest st :
  read_tokens global cs ([TStr type; TStr name; TChar 123] ++ rest) (mkReader [] None None) st =
  match find_module cs type name with
  | None => Ok (st, -1)
  | Some cc =>
      '(st, d) ← (match start_block cc with Some f => f st | None => Ok (st, None) end);
      if decide (is_Some (start_block cc) ∧ d = None) then Ok (st, -1)
      else read_tokens global cs rest (mkReader [] (Some cc) d) st
  end.
Proof.
  change ([TStr type; TStr name; TChar 123] ++ rest) with ([TStr type; TStr name] ++ TChar 123 :: rest).
  rewrite read_words by (by repeat constructor). cbn [app read_tokens read_token rd_tokens rd_cc rd_data].
  rewrite (decide_False (P := 123 = 59)), (decide_True (P := 123 = 123)) by done.
  destruct (find_module cs type name) as [cc|]; [|done]. destruct (start_block cc) as [f|] eqn:Es.
  - destruct (f st) as [[st' [d|]]|]; [| |done]; rewrite !res_bind_ok; cbv beta iota.
    + by rewrite decide_False by (by intros [_ ?]).
    + by rewrite decide_True by (split; [by eexists|done]).
  - rewrite !res_bind_ok. cbv beta iota. by rewrite decide_False by (by intros [[? ?] _]).
Qed.

Lemma read_item it rest st :
  item_ok it →
  read_tokens global cs (print_item it ++ rest) (mkReader [] None None) st =
  ('(st, ret) ← run_item global cs it st;
   if decide (ret < 0) then Ok (st, -1) else read_tokens global cs rest (mkReader [] None None) st).
Proof.
  destruct it as [t|type name body]; intros Hok; cbn [print_item run_item].
  - rewrite read_stmt by done. change (default global None) with global.
    destruct (process_statement global None t st) as [[st' ret]|]; [|done]. rewrite !res_bind_ok. cbv beta iota.
    by destruct (decide (ret < 0)).
  - rewrite <- (assoc_L (++) [_; _; _]), <- (assoc_L (++)), read_open.
    destruct (find_module cs type name) as [cc|]; [|done]. unfold run_block.
    destruct (match start_block cc with Some f => f st | None => Ok (st, None) end) as [[st1 d]|]; [|done].
    rewrite !res_bind_ok. case_decide; [done|]. rewrite read_stmts by done. change (default global (Some cc)) with cc.
    destruct (run_stmts cc d body st1) as [[st2 ret]|]; [|done]. rewrite !res_bind_ok. case_decide; [done|].
    cbn [app read_tokens read_token rd_tokens rd_cc rd_data].
    rewrite (decide_False (P := 125 = 59)), (decide_False (P := 125 = 123)), (decide_True (P := 125 = 125)) by done.
    destruct (end_block cc) as [f|]; [|done]. destruct (f d st2) as [[st3 ret3]|]; [|done].
    rewrite !res_bind_ok. by destruct (decide (ret3 < 0)).
Qed.
End Reading.
End Conf.

(** ** The claims *)

(** C37. A directive's function is called exactly for the first line of the
    context's table that has the name of the statement, ignoring case, and room
    for the number and the types of its arguments; then the statement is
    accepted, whatever the function returns. Without such a line nothing is
    called and the statement is refused. So a function that takes its arguments
    as declared never sees others. *)
Theorem directive_well_typed {S D} (cc : config_context S D) (d : option D) (t : list token) (st : S) :
  process_statement cc d t st =
  match list_find (fits t) (statements cc) with
  | Some (_, s) => '(st, _) ← process s t d st; Ok (st, 0)
  | None => Ok (st, -1)
  end.
Proof.
  assert (∀ l : list (statement S D), (∀ s : statement S D, ¬ fits t s) → list_find (fits t) l = None) as Hno.
  { intros l Hn. apply list_find_None, Forall_forall. intros s _. apply Hn. }
  destruct t as [|[n|name|c] args]; [by rewrite Hno by (by intros ? [])..| |by rewrite Hno by (by intros ? [])].
  cbn [process_statement]. apply find_statement_spec.
Qed.

(** C16. A configuration file of statements and blocks is run as written: the
    statements and the start, the body and the end of every block, in their
    order, each in its context and with the data of its block, up to the first one
    that fails; reading the tokens of the file is running its structure. *)
Theorem config_file_executed {S D} (global : config_context S D) cs (items : list item) (st : S) :
  Forall item_ok items →
  read_config_file global cs (Some (concat (print_item <$> items))) st = run_items global cs items st.
Proof.
  intros Hi. unfold read_config_file. revert st. induction Hi as [|it items Hit _ IH]; intros st; [done|].
  cbn [fmap list_fmap concat run_items]. fold_fmap. rewrite read_item by done.
  destruct (run_item global cs it st) as [[st' ret]|]; [|done]. rewrite !res_bind_ok. by case_decide.
Qed.

(** A block that is not closed is accepted: the file ends, and what was
    configured stays without its end_block having run, so the module is never
    started nor are its missing settings found; words without a semicolon behind
    the last statement are dropped. *)
Lemma unclosed_block_accepted {S D} (global : config_context S D) cs type name cc f d body words (st st1 st2 : S) :
  find_module cs type name = Some cc → start_block cc = Some f → f st = Ok (st1, Some d) →
  Forall stmt_ok body → run_stmts cc (Some d) body st1 = Ok (st2, 0) →
  Forall is_word words → zlen words < 10 →
  read_config_file global cs
    (Some ([TStr type; TStr name; TChar 123] ++ concat (print_stmt <$> body) ++ words)) st = Ok (st2, 0).
Proof.
  intros Hm Hs Hf Hb Hr Hw Hl. unfold read_config_file. rewrite read_open, Hm, Hs, Hf, res_bind_ok. cbv beta iota.
  rewrite decide_False by (by intros [_ ?]). rewrite read_stmts by done.
  change (default global (Some cc)) with cc. rewrite Hr, res_bind_ok. cbv beta iota. rewrite decide_False by lia.
  rewrite <- (app_nil_r words), read_words by done. done.
Qed.

(** ** Witnesses *)

(** A module with one directive, whose state counts what happens. *)
Definition demo_context : config_context (list Z) nat :=
  mkContext ($"output") ($"demo") (Some (λ st, Ok (st ++ [1], Some 0%nat))) (Some (λ _ st, Ok (st ++ [9], 0)))
    [mkStatement ($"size") (λ t _ st, Ok (st ++ [5], -1)) 1 2 [TOKEN_NUM; TOKEN_NUM]].
Definition demo_global : config_context (list Z) nat := mkContext [] [] None None [].
Definition demo_body : list (list token) := [[TStr ($"SIZE"); TNum 3]; [TStr ($"size"); TNum 3; TNum 4]].

Lemma demo_body_ok : Forall stmt_ok demo_body.
Proof. repeat constructor; done. Qed.

Lemma config_file_executed_witness :
  read_config_file demo_global [demo_context]
    (Some (concat (print_item <$> [IBlock ($"Output") ($"Demo") demo_body]))) [] = Ok ([1; 5; 5; 9], 0).
Proof.
  rewrite (config_file_executed demo_global [demo_context] [IBlock ($"Output") ($"Demo") demo_body] []).
  - vm_compute. reflexivity.
  - constructor; [exact demo_body_ok|constructor].
Defined.

Lemma unclosed_block_accepted_witness :
  read_config_file demo_global [demo_context]
    (Some ([TStr ($"output"); TStr ($"demo"); TChar 123] ++ concat (print_stmt <$> demo_body) ++ [TStr ($"x")])) [] =
  Ok ([1; 5; 5], 0).
Proof.
  apply (unclosed_block_accepted demo_global [demo_context] ($"output") ($"demo") demo_context
    (λ st, Ok (st ++ [1], Some 0%nat)) 0%nat demo_body [TStr ($"x")] [] [1] [1; 5; 5]);
    [vm_compute; reflexivity|reflexivity|reflexivity|exact demo_body_ok|vm_compute; reflexivity|by repeat constructor|done].
Defined.
