(* ===== verification/Spook.v ===== *)
(** * Starting the program (RTSPServer.c, spook.c)

    main takes the options of the command line, registers the modules of the
    build (the JPEG and A-law encoders and the live sources), and configures them
    by running the directives of their contexts ([Conf]): the encoders make
    streams, the live source makes tracks from them and a location for them.
    This file models the directives of these modules, the configuration that
    spook_config builds from them and the options of main, over the models of
    the streams and sources ([Live]), the server ([Rtsp]), the frame heap
    ([Frame]) and the packetizers. Starting an encoder thread is a mark of the
    encoder. *)

From stdpp Require Import prelude gmap strings pretty.
From S2P Require Import Prelude Frame Rtp RtpMedia RtpPlain RtpJpeg Pmsg SendBuf HttpAuth Live Rtsp RtspInv RtspRun Conf.

Local Open Scope c_scope.

(** ** The state of the program before the event loop *)

(** What the directives set of an encoder; [je_thread] says that its exchanger
    and its thread were created. *)
Record jpeg_encoder := mkJe {
  je_output : option nat;
  bitrate : Z;
  u32VinPlannerWidth : Z;
  u32VinPlannerHeight : Z;
  u32VinPacketWidth : Z;
  u32VinPacketHeight : Z;
  u32JpegWidth : Z;
  u32JpegHeight : Z;
  u32JpegPacketPipe : Z;
  u32Overlapping : Z;
  je_thread : option frame_exchanger }.

Record alaw_encoder := mkAe {
  ae_output : option nat;
  u32ChannelNum : Z;
  u32SampleRate : Z;
  ae_thread : option frame_exchanger }.

(** [streams] are in the order of their creation, so that a pointer to a stream
    is its place; [stream_list] of stream.c is the reverse. *)
Record spook := mkSpook {
  frame_heap : option heap;
  listening : option Z;
  streams : list Stream.stream;
  jpegs : list jpeg_encoder;
  alaws : list alaw_encoder;
  srv : server }.

(** The data of a block. *)
Inductive block := BJpeg (i : nat) | BAlaw (i : nat) | BLive (i : nat).

Definition with_streams (l : list Stream.stream) (sp : spook) : spook :=
  mkSpook (frame_heap sp) (listening sp) l (jpegs sp) (alaws sp) (srv sp).
Definition with_jpegs (l : list jpeg_encoder) (sp : spook) : spook :=
  mkSpook (frame_heap sp) (listening sp) (streams sp) l (alaws sp) (srv sp).
Definition with_alaws (l : list alaw_encoder) (sp : spook) : spook :=
  mkSpook (frame_heap sp) (listening sp) (streams sp) (jpegs sp) l (srv sp).
Definition with_srv (s : server) (sp : spook) : spook :=
  mkSpook (frame_heap sp) (listening sp) (streams sp) (jpegs sp) (alaws sp) s.
Definition with_heap (h : heap) (sp : spook) : spook :=
  mkSpook (Some h) (listening sp) (streams sp) (jpegs sp) (alaws sp) (srv sp).
Definition with_listening (p : Z) (sp : spook) : spook :=
  mkSpook (frame_heap sp) (Some p) (streams sp) (jpegs sp) (alaws sp) (srv sp).

Definition with_sources (l : list live_source) (s : server) : server :=
  mkServer (rtsp_loc_list s) (rs_list s) l (conns s) (digest_secret s) (next_rs s).

(** A pointer to an encoder or a source of the wrong block does not occur: the
    contexts give their directives what their start_block returned. *)
Definition get {A} (l : list A) (i : nat) : res A := match l !! i with Some x => Ok x | None => Fault NullDeref end.

Definition str_arg (t : list token) (i : nat) : list Z := match t !! i with Some (TStr s) => s | _ => [] end.
Definition num_arg (t : list token) (i : nat) : Z := match t !! i with Some (TNum n) => n | _ => 0 end.

(** ** The JPEG encoder's directives (encoder-jpeg.c) *)
Module Jpeg.

Definition start_block (sp : spook) : res (spook * option block) :=
  Ok (with_jpegs (jpegs sp ++ [mkJe None 0 0 0 0 0 0 0 0 0 None]) sp, Some (BJpeg (length (jpegs sp)))).

Definition upd (d : option block) (f : jpeg_encoder → jpeg_encoder) (sp : spook) : res (spook * Z) :=
  match d with
  | Some (BJpeg i) => en ← get (jpegs sp) i; Ok (with_jpegs (<[i := f en]> (jpegs sp)) sp, 0)
  | _ => Fault NullDeref
  end.

(** new_exchanger and pthread_create. *)
Definition end_block (d : option block) (sp : spook) : res (spook * Z) :=
  match d with
  | Some (BJpeg i) =>
      en ← get (jpegs sp) i;
      match je_output en with
      | None => Ok (sp, -1)
      | Some _ =>
          ex ← new_exchanger 8;
          upd d (λ en, mkJe (je_output en) (bitrate en) (u32VinPlannerWidth en) (u32VinPlannerHeight en)
            (u32VinPacketWidth en) (u32VinPacketHeight en) (u32JpegWidth en) (u32JpegHeight en)
            (u32JpegPacketPipe en) (u32Overlapping en) (Some ex)) sp
      end
  | _ => Fault NullDeref
  end.

Definition set_output (t : list token) (d : option block) (sp : spook) : res (spook * Z) :=
  name ← strcpy_256 (str_arg t 1);
  let i := length (streams sp) in
  upd d (λ en, mkJe (Some i) (bitrate en) (u32VinPlannerWidth en) (u32VinPlannerHeight en)
    (u32VinPacketWidth en) (u32VinPacketHeight en) (u32JpegWidth en) (u32JpegHeight en)
    (u32JpegPacketPipe en) (u32Overlapping en) (je_thread en))
    (with_streams (streams sp ++ [Stream.new_stream name FORMAT_JPEG]) sp).

(** The setters of the numbers. *)
Definition set_bitrate_num (t : list token) (d : option block) (sp : spook) : res (spook * Z) :=
  upd d (λ en, mkJe (je_output en) (num_arg t 1) (u32VinPlannerWidth en) (u32VinPlannerHeight en)
    (u32VinPacketWidth en) (u32VinPacketHeight en) (u32JpegWidth en) (u32JpegHeight en)
    (u32JpegPacketPipe en) (u32Overlapping en) (je_thread en)) sp.
Definition set_pipe_num (t : list token) (d : option block) (sp : spook) : res (spook * Z) := Ok (sp, 0).
Definition set_vin_planner_width (t : list token) (d : option block) (sp : spook) : res (spook * Z) :=
  upd d (λ en, mkJe (je_output en) (bitrate en) (u32 (num_arg t 1)) (u32VinPlannerHeight en)
    (u32VinPacketWidth en) (u32VinPacketHeight en) (u32JpegWidth en) (u32JpegHeight en)
    (u32JpegPacketPipe en) (u32Overlapping en) (je_thread en)) sp.
Definition set_vin_planner_height (t : list token) (d : option block) (sp : spook) : res (spook * Z) :=
  upd d (λ en, mkJe (je_output en) (bitrate en) (u32VinPlannerWidth en) (u32 (num_arg t 1))
    (u32VinPacketWidth en) (u32VinPacketHeight en) (u32JpegWidth en) (u32JpegHeight en)
    (u32JpegPacketPipe en) (u32Overlapping en) (je_thread en)) sp.
Definition set_vin_packet_width (t : list token) (d : option block) (sp : spook) : res (spook * Z) :=
  upd d (λ en, mkJe (je_output en) (bitrate en) (u32VinPlannerWidth en) (u32VinPlannerHeight en)
    (u32 (num_arg t 1)) (u32VinPacketHeight en) (u32JpegWidth en) (u32JpegHeight en)
    (u32JpegPacketPipe en) (u32Overlapping en) (je_thread en)) sp.
Definition set_vin_packet_height (t : list token) (d : option block) (sp : spook) : res (spook * Z) :=
  upd d (λ en, mkJe (je_output en) (bitrate en) (u32VinPlannerWidth en) (u32VinPlannerHeight en)
    (u32VinPacketWidth en) (u32 (num_arg t 1)) (u32JpegWidth en) (u32JpegHeight en)
    (u32JpegPacketPipe en) (u32Overlapping en) (je_thread en)) sp.
Definition set_jpeg_width (t : list token) (d : option block) (sp : spook) : res (spook * Z) :=
  upd d (λ en, mkJe (je_output en) (bitrate en) (u32VinPlannerWidth en) (u32VinPlannerHeight en)
    (u32VinPacketWidth en) (u32VinPacketHeight en) (u32 (num_arg t 1)) (u32JpegHeight en)
    (u32JpegPacketPipe en) (u32Overlapping en) (je_thread en)) sp.
Definition set_jpeg_height (t : list token) (d : option block) (sp : spook) : res (spook * Z) :=
  upd d (λ en, mkJe (je_output en) (bitrate en) (u32VinPlannerWidth en) (u32VinPlannerHeight en)
    (u32VinPacketWidth en) (u32VinPacketHeight en) (u32JpegWidth en) (u32 (num_arg t 1))
    (u32JpegPacketPipe en) (u32Overlapping en) (je_thread en)) sp.
Definition set_jpeg_packet (t : list token) (d : option block) (sp : spook) : res (spook * Z) :=
  upd d (λ en, mkJe (je_output en) (bitrate en) (u32VinPlannerWidth en) (u32VinPlannerHeight en)
    (u32VinPacketWidth en) (u32VinPacketHeight en) (u32JpegWidth en) (u32JpegHeight en)
    (u32 (num_arg t 1)) (u32Overlapping en) (je_thread en)) sp.
Definition set_overlapping (t : list token) (d : option block) (sp : spook) : res (spook * Z) :=
  upd d (λ en, mkJe (je_output en) (bitrate en) (u32VinPlannerWidth en) (u32VinPlannerHeight en)
    (u32VinPacketWidth en) (u32VinPacketHeight en) (u32JpegWidth en) (u32JpegHeight en)
    (u32JpegPacketPipe en) (u32 (num_arg t 1)) (je_thread en)) sp.

Definition config_statements : list (statement spook block) :=
  [ mkStatement ($"output") set_output 1 1 [TOKEN_STR];
    mkStatement ($"bitrate") set_bitrate_num 1 1 [TOKEN_NUM];
    mkStatement ($"pipe") set_pipe_num 1 1 [TOKEN_NUM];
    mkStatement ($"vin_planner_width") set_vin_planner_width 1 1 [TOKEN_NUM];
    mkStatement ($"vin_planner_height") set_vin_planner_height 1 1 [TOKEN_NUM];
    mkStatement ($"vin_packet_width") set_vin_packet_width 1 1 [TOKEN_NUM];
    mkStatement ($"vin_packet_height") set_vin_packet_height 1 1 [TOKEN_NUM];
    mkStatement ($"jpeg_width") set_jpeg_width 1 1 [TOKEN_NUM];
    mkStatement ($"jpeg_height") set_jpeg_height 1 1 [TOKEN_NUM];
    mkStatement ($"jpeg_packet") set_jpeg_packet 1 1 [TOKEN_NUM];
    mkStatement ($"overlapping") set_overlapping 1 1 [TOKEN_NUM] ].

Definition get_framerate : Z * Z := (1, 30).
End Jpeg.

(** ** The A-law encoder's directives (encoder-alaw.c) *)
Module Alaw.

Definition start_block (sp : spook) : res (spook * option block) :=
  Ok (with_alaws (alaws sp ++ [mkAe None 0 0 None]) sp, Some (BAlaw (length (alaws sp)))).

Definition end_block (d : option block) (sp : spook) : res (spook * Z) :=
  match d with
  | Some (BAlaw i) =>
      en ← get (alaws sp) i;
      match ae_output en with
      | None => Ok (sp, -1)
      | Some _ =>
          ex ← new_exchanger 4;
          Ok (with_alaws (<[i := mkAe (ae_output en) 1 8000 (Some ex)]> (alaws sp)) sp, 0)
      end
  | _ => Fault NullDeref
  end.

Definition set_output (t : list token) (d : option block) (sp : spook) : res (spook * Z) :=
  match d with
  | Some (BAlaw i) =>
      name ← strcpy_256 (str_arg t 1);
      en ← get (alaws sp) i;
      Ok (with_alaws (<[i := mkAe (Some (length (streams sp))) (u32ChannelNum en) (u32SampleRate en) (ae_thread en)]> (alaws sp))
            (with_streams (streams sp ++ [Stream.new_stream name FORMAT_ALAW]) sp), 0)
  | _ => Fault NullDeref
  end.

Definition config_statements : list (statement spook block) :=
  [mkStatement ($"output") set_output 1 1 [TOKEN_STR]].

Definition get_framerate (en : alaw_encoder) : Z * Z := (u32ChannelNum en, u32ChannelNum en * u32SampleRate en).
End Alaw.

(** ** The directives of live sources (live.c) *)
Section Program.
(** The memory malloc gives: for frames, and for the n-th location. *)
Context (fresh_frame : nat → frame) (fresh_location : nat → rtsp_location).

(** The packetizer of a stream's format, [None] when the build has none. The
    arguments of its text are int. *)
Definition media_of (sp : spook) (si : nat) (fmt : Z) : res (option rtp_media) :=
  if decide (fmt = FORMAT_JPEG) then
    Ok (Some (mkMedia jpeg_get_payload (λ _ port, jpeg_get_sdp (s32 port))))
  else if decide (fmt = FORMAT_PCM ∨ fmt = FORMAT_ALAW ∨ fmt = FORMAT_ULAW) then
    match list_find (λ en, ae_output en = Some si) (alaws sp) with
    | None => Fault NullDeref
    | Some (_, en) =>
        let '(ch, fbase) := Alaw.get_framerate en in
        out ← RawAudio.new_rtp_media_rawaudio_stream fmt ch fbase;
        Ok (Some (mkMedia (RawAudio.rawaudio_get_payload out)
              (λ pl port, default [] (RawAudio.rawaudio_get_sdp out (s32 pl) (s32 port)))))
    end
  else Ok None.

Definition live_formats : list Z :=
  [FORMAT_MPEG4; FORMAT_MPV; FORMAT_H263; FORMAT_JPEG; FORMAT_PCM; FORMAT_ALAW; FORMAT_MPA; FORMAT_H264;
   FORMAT_ADPCM; FORMAT_ULAW; FORMAT_AAC; FORMAT_G726].

Definition live_start_block (sp : spook) : res (spook * option block) :=
  Ok (with_srv (with_sources (sources (srv sp) ++ [Live.start_block]) (srv sp)) sp,
      Some (BLive (length (sources (srv sp))))).

Definition live_end_block (d : option block) (sp : spook) : res (spook * Z) :=
  match d with
  | Some (BLive i) => src ← get (sources (srv sp)) i; Ok (sp, Live.end_block src)
  | _ => Fault NullDeref
  end.

(** The new destination stays with the stream when the build has no packetizer
    for it. *)
Definition live_set_track (t : list token) (d : option block) (sp : spook) : res (spook * Z) :=
  match d with
  | Some (BLive i) =>
      src ← get (sources (srv sp)) i;
      if decide (list_find (λ tr, rtp tr = None) (track src) = None) then Ok (sp, -1) else
      match Stream.connect_to_stream (reverse (streams sp)) (str_arg t 1) live_formats 0 with
      | None => Ok (sp, -1)
      | Some (k, dest, s) =>
          let si := (length (streams sp) - 1 - k)%nat in
          let sp := with_streams (<[si := s]> (streams sp)) sp in
          media ← media_of sp si (Stream.format s);
          match media, Live.set_track src media with
          | Some _, Some src =>
              s ← Stream.set_waiting s dest true;
              Ok (with_srv (with_source (srv sp) i src) (with_streams (<[si := s]> (streams sp)) sp), 0)
          | _, _ => Ok (sp, -1)
          end
      end
  | _ => Fault NullDeref
  end.

Definition live_set_path (t : list token) (d : option block) (sp : spook) : res (spook * Z) :=
  match d with
  | Some (BLive i) =>
      let heap := fresh_location (length (rtsp_loc_list (srv sp))) in
      if decide (zlen t = 2) then
        s ← new_rtsp_location (srv sp) heap (str_arg t 1) [] [] [] i; Ok (with_srv s sp, 0)
      else if decide (zlen t = 5) then
        s ← new_rtsp_location (srv sp) heap (str_arg t 1) (str_arg t 2) (str_arg t 3) (str_arg t 4) i;
        Ok (with_srv s sp, 0)
      else Ok (sp, -1)
  | _ => Fault NullDeref
  end.

Definition live_upd (d : option block) (f : live_source → live_source) (sp : spook) : res (spook * Z) :=
  match d with
  | Some (BLive i) => src ← get (sources (srv sp)) i; Ok (with_srv (with_source (srv sp) i (f src)) sp, 0)
  | _ => Fault NullDeref
  end.
Definition live_set_mtu (t : list token) (d : option block) (sp : spook) : res (spook * Z) :=
  live_upd d (λ src, Live.set_mtu src (num_arg t 1)) sp.
Definition live_set_conn (t : list token) (d : option block) (sp : spook) : res (spook * Z) :=
  live_upd d (λ src, Live.set_conn src (num_arg t 1)) sp.

Definition live_statements : list (statement spook block) :=
  [ mkStatement ($"track") live_set_track 1 1 [TOKEN_STR];
    mkStatement ($"path") live_set_path 1 4 [TOKEN_STR; TOKEN_STR; TOKEN_STR; TOKEN_STR];
    mkStatement ($"mtu") live_set_mtu 1 1 [TOKEN_NUM];
    mkStatement ($"conn") live_set_conn 1 1 [TOKEN_NUM] ].

(** ** Global directives *)

Definition config_frameheap (t : list token) (sp : spook) : res (spook * Z) :=
  let count := num_arg t 1 in
  let size := if decide (zlen t = 3) then num_arg t 2 else 352 * 288 * 3 in
  h ← init_frame_heap fresh_frame size count;
  Ok (with_heap h sp, 0).

(** [ok] says whether socket, bind and listen succeed. *)
Definition tcp_listen (ok : bool) (port : Z) (sp : spook) : spook * Z :=
  if ok then (with_listening port sp, 0) else (sp, -1).

Definition config_port (ok : bool) (t : list token) (sp : spook) : spook * Z :=
  let port := num_arg t 1 in
  if decide (port ≤ 0 ∨ port > 65535) then (sp, -1) else tcp_listen ok port sp.

(** ** spook_init *)

(** The global context; its table is not used by the program. *)
Definition global_context : config_context spook block := mkContext [] [] None None [].

(** jpeg_init, alaw_init and live_init. *)
Definition spook_init : res (list (config_context spook block)) :=
  cs ← register_config_context [] ($"encoder") ($"jpeg") (Some Jpeg.start_block) (Some Jpeg.end_block) Jpeg.config_statements;
  cs ← register_config_context cs ($"encoder") ($"alaw") (Some Alaw.start_block) (Some Alaw.end_block) Alaw.config_statements;
  register_config_context cs ($"rtsp-handler") ($"live") (Some live_start_block) (Some live_end_block) live_statements.

(** ** spook_config *)

(** A null pointer is [None]. *)
Record S_RTSP_CONFIG := mkCfg {
  m_uiFrameSize : Z;
  m_uiFrameCnt : Z;
  m_uiMJPGCamBitRate : Z;
  m_szMJPGCamPath : option (list Z);
  m_eMJPGCamAudio : Z;
  m_eH264CamAudio : Z;
  m_uiNumMJPEGCams : Z;
  m_uiRTPDataTransSize : Z;
  m_szAuthRealm : option (list Z);
  m_szAuthUserName : option (list Z);
  m_szAuthPassword : option (list Z);
  m_szAudioStreamPath : option (list Z);
  m_eAudioStreamAudio : Z;
  m_auiMJPGMaxConnNum : list Z;
  m_uiVinPlannerWidth : Z;
  m_uiVinPlannerHeight : Z;
  m_uiVinPacketWidth : Z;
  m_uiVinPacketHeight : Z;
  m_uiJpegWidth : Z;
  m_uiJpegHeight : Z;
  m_uiJpegPacketPipe : Z;
  m_uiOverlapping : Z }.

Definition eRTSP_AUDIOMASK_NONE : Z := 0.
Definition audio_masks : list (Z * list Z) :=
  [(1, $"alaw"); (2, $"ulaw"); (4, $"adpcm"); (8, $"aac"); (16, $"g726"); (32, $"mp3")].

(** A string copied into a token: 256 bytes with its terminator; following a
    null pointer is a fault. *)
Definition token_str (s : option (list Z)) : res token :=
  match s with
  | Some s => s ← strcpy_256 s; Ok (TStr s)
  | None => Fault NullDeref
  end.

Definition quoted (s : list Z) : list Z := [34] ++ s ++ [34].

(** Statements whose results nobody looks at. *)
Fixpoint run_all (cc : option (config_context spook block)) (d : option block) (l : list (list token)) (sp : spook)
    : res spook :=
  match l with
  | [] => Ok sp
  | t :: l => '(sp, _) ← run_context_statement cc d t sp; run_all cc d l sp
  end.

Definition num_stmt (name : list Z) (n : Z) : list token := [TStr name; TNum (s32 n)].

Definition compressed (i : Z) : list Z := quoted ($"compressed" ++ fmt_d i).

Definition jpeg_statements (c : S_RTSP_CONFIG) (i : Z) : list (list token) :=
  [ [TStr ($"output"); TStr (compressed i)];
    num_stmt ($"bitrate") (m_uiMJPGCamBitRate c);
    num_stmt ($"pipe") i;
    num_stmt ($"vin_planner_width") (m_uiVinPlannerWidth c);
    num_stmt ($"vin_planner_height") (m_uiVinPlannerHeight c);
    num_stmt ($"vin_packet_width") (m_uiVinPacketWidth c);
    num_stmt ($"vin_packet_height") (m_uiVinPacketHeight c);
    num_stmt ($"jpeg_width") (m_uiJpegWidth c);
    num_stmt ($"jpeg_height") (m_uiJpegHeight c);
    num_stmt ($"jpeg_packet") (m_uiJpegPacketPipe c);
    num_stmt ($"overlapping") (m_uiOverlapping c) ].

(** The loops over the cameras, [n] of them from [i] on. *)
Fixpoint jpeg_loop (cc : option (config_context spook block)) (c : S_RTSP_CONFIG) (n : nat) (i : Z) (sp : spook)
    : res (spook * Z) :=
  match n with
  | O => Ok (sp, 0)
  | S n =>
      '(sp, d) ← run_context_start_block cc sp;
      match d with
      | None => Ok (sp, -1)
      | Some _ =>
          sp ← run_all cc d (jpeg_statements c i) sp;
          '(sp, ret) ← run_context_end_block cc d sp;
          if decide (ret < 0 ∨ n = O) then Ok (sp, ret) else jpeg_loop cc c n (i + 1) sp
      end
  end.

Definition jpeg_config (cs : list (config_context spook block)) (c : S_RTSP_CONFIG) (sp : spook) : res (spook * Z) :=
  let cc := find_context global_context cs ($"encoder") ($"jpeg") in
  match cc with
  | None => Ok (sp, -1)
  | Some _ => jpeg_loop cc c (Z.to_nat (m_uiNumMJPEGCams c)) 0 sp
  end.

(** alaw_config, ulaw_config, adpcm_config, aac_config, g726_config and
    mp3_config differ only in the name. *)
Definition audio_config (cs : list (config_context spook block)) (name : list Z) (sp : spook) : res (spook * Z) :=
  let cc := find_context global_context cs ($"encoder") name in
  match cc with
  | None => Ok (sp, -1)
  | Some _ =>
      '(sp, d) ← run_context_start_block cc sp;
      match d with
      | None => Ok (sp, -1)
      | Some _ =>
          sp ← run_all cc d [[TStr ($"output"); TStr (quoted name)]] sp;
          run_context_end_block cc d sp
      end
  end.

(** The audio encoders that are needed: which were configured. *)
Fixpoint audio_configs (cs : list (config_context spook block)) (needed : Z) (l : list (Z * list Z)) (sp : spook)
    : res (spook * Z) :=
  match l with
  | [] => Ok (sp, 0)
  | (mask, name) :: l =>
      if decide (Z.land needed mask = 0) then audio_configs cs needed l sp
      else
        '(sp, ret) ← audio_config cs name sp;
        '(sp, done) ← audio_configs cs needed l sp;
        Ok (sp, if decide (ret < 0) then done else Z.lor mask done)
  end.

(** The statement of the path, with the realm if there is one. *)
Definition path_stmt (c : S_RTSP_CONFIG) (path : option (list Z)) : res (list token) :=
  p ← token_str path;
  match m_szAuthRealm c with
  | None => Ok [TStr ($"Path"); p]
  | Some _ =>
      r ← token_str (m_szAuthRealm c);
      u ← token_str (m_szAuthUserName c);
      w ← token_str (m_szAuthPassword c);
      Ok [TStr ($"Path"); p; r; u; w]
  end.

Definition track_stmt (name : list Z) : list token := [TStr ($"Track"); TStr name].

(** The track of the first audio format of the mask; for a mask with no known
    format the token still has the name of the track before. *)
Definition audio_track (mask : Z) (before : list Z) : list token :=
  track_stmt (match list_find (λ x, Z.land mask x.1 ≠ 0) audio_masks with
              | Some (_, (_, name)) => quoted name
              | None => before
              end).

Definition cam_path (c : S_RTSP_CONFIG) (i : Z) : list Z :=
  default ($"/webcam") (m_szMJPGCamPath c) ++ (if decide (i = 0) then [] else $"-" ++ fmt_d i).

Fixpoint live_loop (cc : option (config_context spook block)) (c : S_RTSP_CONFIG) (n : nat) (i : Z) (sp : spook)
    : res (spook * Z) :=
  match n with
  | O => Ok (sp, 0)
  | S n =>
      '(sp, d) ← run_context_start_block cc sp;
      match d with
      | None => Ok (sp, -1)
      | Some _ =>
          p ← path_stmt c (Some (cam_path c i));
          conn ← rd (m_auiMJPGMaxConnNum c) i;
          sp ← run_all cc d
            ([p; track_stmt (compressed i)]
             ++ (if decide (m_eMJPGCamAudio c = eRTSP_AUDIOMASK_NONE) then [] else [audio_track (m_eMJPGCamAudio c) (compressed i)])
             ++ [num_stmt ($"mtu") (m_uiRTPDataTransSize c); num_stmt ($"conn") conn]) sp;
          '(sp, _) ← run_context_end_block cc d sp;
          live_loop cc c n (i + 1) sp
      end
  end.

Definition mjpg_live_config (cs : list (config_context spook block)) (c : S_RTSP_CONFIG) (sp : spook) : res (spook * Z) :=
  let cc := find_context global_context cs ($"rtsp-handler") ($"live") in
  match cc with
  | None => Ok (sp, -1)
  | Some _ => live_loop cc c (Z.to_nat (m_uiNumMJPEGCams c)) 0 sp
  end.

Definition audio_live_config (cs : list (config_context spook block)) (c : S_RTSP_CONFIG) (sp : spook) : res (spook * Z) :=
  let cc := find_context global_context cs ($"rtsp-handler") ($"live") in
  match cc with
  | None => Ok (sp, -1)
  | Some _ =>
      '(sp, d) ← run_context_start_block cc sp;
      match d with
      | None => Ok (sp, -1)
      | Some _ =>
          let path := default ($"/audio") (m_szAudioStreamPath c) in
          p ← path_stmt c (Some path);
          sp ← run_all cc d [p; audio_track (m_eAudioStreamAudio c) path;
                             num_stmt ($"mtu") (m_uiRTPDataTransSize c)] sp;
          '(sp, _) ← run_context_end_block cc d sp;
          Ok (sp, 0)
      end
  end.

Definition spook_config (ok : bool) (cs : list (config_context spook block)) (c : S_RTSP_CONFIG) (sp : spook) : res (spook * Z) :=
  '(sp, ret) ← config_frameheap [TChar 0; TNum (s32 (m_uiFrameCnt c)); TNum (s32 (m_uiFrameSize c))] sp;
  if decide (ret < 0) then Ok (sp, -1) else
  let '(sp, ret) := config_port ok [TChar 0; TNum 554] sp in
  if decide (ret < 0) then Ok (sp, -1) else
  '(sp, jpeg_ret) ← jpeg_config cs c sp;
  let needed := Z.lor (Z.lor (m_eMJPGCamAudio c) (m_eH264CamAudio c)) (m_eAudioStreamAudio c) in
  '(sp, configed) ← audio_configs cs needed audio_masks sp;
  '(sp, _) ← (if decide (jpeg_ret = 0 ∧ (m_eMJPGCamAudio c = eRTSP_AUDIOMASK_NONE ∨ Z.land (m_eMJPGCamAudio c) configed ≠ 0))
              then mjpg_live_config cs c sp else Ok (sp, 0));
  '(sp, _) ← (if decide (Z.land (m_eAudioStreamAudio c) configed ≠ 0) then audio_live_config cs c sp else Ok (sp, 0));
  Ok (sp, 0).

(** ** main (RTSPServer.c) *)

Definition default_config : S_RTSP_CONFIG :=
  mkCfg 80000 8 4000000 None 1 eRTSP_AUDIOMASK_NONE 1 1400 None None None None eRTSP_AUDIOMASK_NONE
    [] 640 480 8 8 640 480 0 0.

(** A width or height of the command line: [None] is exit(-1). *)
Definition dimension (optarg : list Z) : option Z :=
  let v := u32 (s32 (strtol optarg).1) in
  if decide (v = 0) then None
  else Some (if decide (v `mod` 8 = 0) then v else Z.land v (u32 (Z.lnot 7))).

Definition with_dims (c : S_RTSP_CONFIG) (pw ph kw kh jw jh br pp ov : Z) : S_RTSP_CONFIG :=
  mkCfg (m_uiFrameSize c) (m_uiFrameCnt c) br (m_szMJPGCamPath c) (m_eMJPGCamAudio c) (m_eH264CamAudio c)
    (m_uiNumMJPEGCams c) (m_uiRTPDataTransSize c) (m_szAuthRealm c) (m_szAuthUserName c) (m_szAuthPassword c)
    (m_szAudioStreamPath c) (m_eAudioStreamAudio c) (m_auiMJPGMaxConnNum c) pw ph kw kh jw jh pp ov.

(** One option of getopt: [None] when main returns or exits. *)
Definition option_step (o : Z * list Z) (c : S_RTSP_CONFIG) : option S_RTSP_CONFIG :=
  let '(opt, optarg) := o in
  let pw := m_uiVinPlannerWidth c in let ph := m_uiVinPlannerHeight c in
  let kw := m_uiVinPacketWidth c in let kh := m_uiVinPacketHeight c in
  let jw := m_uiJpegWidth c in let jh := m_uiJpegHeight c in
  let br := m_uiMJPGCamBitRate c in let pp := m_uiJpegPacketPipe c in let ov := m_uiOverlapping c in
  if decide (opt = 119) then (λ v, with_dims c v ph kw kh jw jh br pp ov) <$> dimension optarg
  else if decide (opt = 100) then (λ v, with_dims c pw v kw kh jw jh br pp ov) <$> dimension optarg
  else if decide (opt = 120) then (λ v, with_dims c pw ph v kh jw jh br pp ov) <$> dimension optarg
  else if decide (opt = 121) then (λ v, with_dims c pw ph kw v jw jh br pp ov) <$> dimension optarg
  else if decide (opt = 105) then (λ v, with_dims c pw ph kw kh v jh br pp ov) <$> dimension optarg
  else if decide (opt = 101) then (λ v, with_dims c pw ph kw kh jw v br pp ov) <$> dimension optarg
  else if decide (opt = 98) then
    let v := u32 (s32 (strtol optarg).1) in
    Some (with_dims c pw ph kw kh jw jh (if decide (v = 0) then br else v) pp ov)
  else if decide (opt = 112) then Some (with_dims c pw ph kw kh jw jh br 1 ov)
  else if decide (opt = 111) then Some (with_dims c pw ph kw kh jw jh br pp 1)
  else None.

Fixpoint parse_options (opts : list (Z * list Z)) (c : S_RTSP_CONFIG) : option S_RTSP_CONFIG :=
  match opts with
  | [] => Some c
  | o :: opts => c ← option_step o c; parse_options opts c
  end.

(** What main sets after the options. *)
Definition finish_options (c : S_RTSP_CONFIG) : S_RTSP_CONFIG :=
  mkCfg (m_uiFrameSize c) (m_uiFrameCnt c) (m_uiMJPGCamBitRate c)
    (Some (default ($"/cam1/mpeg4") (m_szMJPGCamPath c))) (m_eMJPGCamAudio c) (m_eH264CamAudio c)
    (m_uiNumMJPEGCams c) (m_uiRTPDataTransSize c) (m_szAuthRealm c)
    (Some (default [] (m_szAuthUserName c))) (Some (default [] (m_szAuthPassword c)))
    (Some (default ($"/audio") (m_szAudioStreamPath c))) (m_eAudioStreamAudio c) (replicate 4 2)
    (m_uiVinPlannerWidth c) (m_uiVinPlannerHeight c) (m_uiVinPacketWidth c) (m_uiVinPacketHeight c)
    (m_uiJpegWidth c) (m_uiJpegHeight c) (m_uiJpegPacketPipe c) (m_uiOverlapping c).

Definition empty_spook : spook := mkSpook None None [] [] [] (mkServer [] [] [] ∅ None 0).

(** Up to spook_run: the state in which the event loop starts, [None] when main
    returns before. [random_ok] and [listen_ok] are the answers of the kernel. *)
Definition main (random_ok listen_ok : bool) (opts : list (Z * list Z)) : res (option spook) :=
  match parse_options opts default_config with
  | None => Ok None
  | Some c =>
      if random_ok then
        cs ← spook_init;
        '(sp, ret) ← spook_config listen_ok cs (finish_options c) empty_spook;
        Ok (if decide (ret < 0) then None else Some sp)
      else Ok None
  end.
End Program.

(** ** Options *)

(** A width or height that main accepts: a multiple of eight. *)
Definition dim_ok (v : Z) : Prop := 0 ≤ v < 4294967296 ∧ v `mod` 8 = 0.

Lemma dimension_ok arg v : dimension arg = Some v → dim_ok v.
Proof.
  unfold dimension, dim_ok. set (n := u32 _). pose proof (u32_range (s32 (strtol arg).1)) as Hn. fold n in Hn.
  case_decide; [done|]. intros [= <-]. case_decide as Hm; [done|].
  assert (Z.land n (u32 (Z.lnot 7)) = n - n `mod` 8) as ->; [|zdm].
  replace (Z.land n (u32 (Z.lnot 7))) with (Z.ldiff n 7).
  - change 7 with (Z.ones 3). rewrite Z.ldiff_ones_r, Z.shiftl_mul_pow2, Z.shiftr_div_pow2 by lia.
    change (2 ^ 3) with 8. pose proof (Z.div_mod n 8 ltac:(lia)). lia.
  - rewrite Z.ldiff_land. replace (u32 (Z.lnot 7)) with (Z.land (Z.lnot 7) (Z.ones 32)) by reflexivity.
    rewrite Z.land_assoc. symmetry. rewrite <- Z.land_assoc, (Z.land_comm (Z.lnot 7)), Z.land_assoc.
    rewrite (Z.land_ones n 32) by lia. rewrite Z.mod_small by (change (2 ^ 32) with 4294967296; lia). done.
Qed.

(** What the options make of the configuration of the program. *)
Record options_ok (c : S_RTSP_CONFIG) : Prop := {
  oo_dims : c = with_dims default_config (m_uiVinPlannerWidth c) (m_uiVinPlannerHeight c) (m_uiVinPacketWidth c)
    (m_uiVinPacketHeight c) (m_uiJpegWidth c) (m_uiJpegHeight c) (m_uiMJPGCamBitRate c) (m_uiJpegPacketPipe c) (m_uiOverlapping c);
  oo_ok : Forall dim_ok [m_uiVinPlannerWidth c; m_uiVinPlannerHeight c; m_uiVinPacketWidth c;
    m_uiVinPacketHeight c; m_uiJpegWidth c; m_uiJpegHeight c] }.

Lemma option_step_ok o c c' : options_ok c → option_step o c = Some c' → options_ok c'.
Proof.
  intros [E H]. destruct c. unfold with_dims in E. cbn in E, H. injection E as -> -> -> -> -> -> -> -> -> -> -> -> ->.
  rewrite !Forall_cons in H. destruct H as (H1 & H2 & H3 & H4 & H5 & H6 & _), o as [opt arg].
  unfold option_step. cbv zeta. cbn [m_uiVinPlannerWidth m_uiVinPlannerHeight m_uiVinPacketWidth m_uiVinPacketHeight
    m_uiJpegWidth m_uiJpegHeight m_uiMJPGCamBitRate m_uiJpegPacketPipe m_uiOverlapping].
  repeat case_decide; try done; intros Hc;
    try (apply fmap_Some in Hc as (v & Hv%dimension_ok & ->); split; [done|cbn; by rewrite !Forall_cons]);
    injection Hc as <-; (split; [done|cbn; by rewrite !Forall_cons]).
Qed.

Lemma parse_options_ok opts c c' : options_ok c → parse_options opts c = Some c' → options_ok c'.
Proof.
  revert c. induction opts as [|o opts IH]; intros c Hc; cbn; [by intros [= <-]|].
  destruct (option_step o c) as [c1|] eqn:E; [|done]. cbn. apply IH. by eapply option_step_ok.
Qed.

Lemma default_options_ok : options_ok default_config.
Proof. split; [done|]. repeat constructor; done. Qed.

(** ** The configured program *)

Section Start.
Context (fresh_frame : nat → frame) (fresh_location : nat → rtsp_location).
Context (pw ph kw kh jw jh br pp ov : Z).

Definition camera_contexts : list (config_context spook block) :=
  [ mkContext ($"encoder") ($"jpeg") (Some Jpeg.start_block) (Some Jpeg.end_block) Jpeg.config_statements;
    mkContext ($"encoder") ($"alaw") (Some Alaw.start_block) (Some Alaw.end_block) Alaw.config_statements;
    mkContext ($"rtsp-handler") ($"live") (Some live_start_block) (Some live_end_block) (live_statements fresh_location) ].

Lemma spook_init_ok : spook_init fresh_location = Ok camera_contexts.
Proof. reflexivity. Qed.

Definition cfg : S_RTSP_CONFIG := finish_options (with_dims default_config pw ph kw kh jw jh br pp ov).

(** An exchanger with [n] empty slots. *)
Definition empty_ex (n : nat) : frame_exchanger := mkEx (replicate n (mkSlot 0 None)) 0 0 0 0.

Definition camera_jpeg : jpeg_encoder :=
  mkJe (Some 0%nat) (s32 br) (u32 (s32 pw)) (u32 (s32 ph)) (u32 (s32 kw)) (u32 (s32 kh)) (u32 (s32 jw)) (u32 (s32 jh))
    (u32 (s32 pp)) (u32 (s32 ov)) (Some (empty_ex 8)).
Definition camera_alaw : alaw_encoder := mkAe (Some 1%nat) 1 8000 (Some (empty_ex 4)).

Lemma jpeg_configured h s :
  jpeg_config camera_contexts cfg (mkSpook h (Some 554) [] [] [] s) =
  Ok (mkSpook h (Some 554) [Stream.new_stream (compressed 0) FORMAT_JPEG] [camera_jpeg] [] s, 0).
Proof. reflexivity. Qed.

Lemma audio_configured h s j st :
  audio_configs camera_contexts 1 audio_masks (mkSpook h (Some 554) [st] [j] [] s) =
  Ok (mkSpook h (Some 554) [st; Stream.new_stream (quoted ($"alaw")) FORMAT_ALAW] [j] [camera_alaw] s, 1).
Proof. reflexivity. Qed.

Definition jpeg_media : rtp_media := mkMedia jpeg_get_payload (λ _ port, jpeg_get_sdp (s32 port)).
Definition alaw_out : RawAudio.rtp_rawaudio := RawAudio.mkRaw [] FORMAT_ALAW 1 1 8000 0.
Definition alaw_media : rtp_media :=
  mkMedia (RawAudio.rawaudio_get_payload alaw_out)
    (λ pl port, default [] (RawAudio.rawaudio_get_sdp alaw_out (s32 pl) (s32 port))).

Definition camera_source : live_source :=
  mkSource [] [mkTrack (Some jpeg_media) false true; mkTrack (Some alaw_media) false true] 1400 2 0 0.

(** A stream with one listener. *)
Definition listened (name : list Z) (fmt : Z) : Stream.stream := Stream.mkStream name fmt [true] true 1.

Definition camera_path : list Z := $"/cam1/mpeg4".

Definition with_live_block (h : option heap) (j : jpeg_encoder) (l : list rtsp_location) : spook :=
  mkSpook h (Some 554) [Stream.new_stream (compressed 0) FORMAT_JPEG; Stream.new_stream (quoted ($"alaw")) FORMAT_ALAW]
    [j] [camera_alaw] (mkServer l [] [Live.start_block] ∅ None 0).

Definition live_cc : option (config_context spook block) :=
  find_context global_context camera_contexts ($"rtsp-handler") ($"live").

(** The statement of the path makes the location. *)
Lemma live_path_stmt h j s' :
  new_rtsp_location (mkServer [] [] [Live.start_block] ∅ None 0) (fresh_location 0) camera_path [] [] [] 0 = Ok s' →
  run_context_statement live_cc (Some (BLive 0)) [TStr ($"Path"); TStr camera_path] (with_live_block h j []) =
  Ok (with_srv s' (with_live_block h j []), 0).
Proof.
  intros E. transitivity ('(st, _) ← live_set_path fresh_location [TStr ($"Path"); TStr camera_path] (Some (BLive 0)) (with_live_block h j []); Ok (st, 0)).
  - reflexivity.
  - unfold live_set_path. rewrite decide_True by done. change (srv (with_live_block h j [])) with (mkServer [] [] [Live.start_block] ∅ None 0).
    change (str_arg [TStr ($"Path"); TStr camera_path] 1) with camera_path. change (length (rtsp_loc_list _)) with 0%nat. by rewrite E.
Qed.

(** All statements of the block. *)
Lemma live_run h j loc :
  new_rtsp_location (mkServer [] [] [Live.start_block] ∅ None 0) (fresh_location 0) camera_path [] [] [] 0 =
    Ok (mkServer [loc] [] [Live.start_block] ∅ None 0) →
  run_all live_cc (Some (BLive 0))
    ([[TStr ($"Path"); TStr camera_path]; track_stmt (compressed 0)]
     ++ (if decide (m_eMJPGCamAudio cfg = eRTSP_AUDIOMASK_NONE) then [] else [audio_track (m_eMJPGCamAudio cfg) (compressed 0)])
     ++ [num_stmt ($"mtu") (m_uiRTPDataTransSize cfg); num_stmt ($"conn") 2]) (with_live_block h j []) =
  Ok (mkSpook h (Some 554) [listened (compressed 0) FORMAT_JPEG; listened (quoted ($"alaw")) FORMAT_ALAW]
        [j] [camera_alaw] (mkServer [loc] [] [camera_source] ∅ None 0)).
Proof.
  intros E. cbn [app run_all]. rewrite (live_path_stmt h j _ E), res_bind_ok. reflexivity.
Qed.

Lemma live_loop_one cc c n i sp sp1 d p conn sp2 sp3 r :
  run_context_start_block cc sp = Ok (sp1, Some d) → path_stmt c (Some (cam_path c i)) = Ok p →
  rd (m_auiMJPGMaxConnNum c) i = Ok conn →
  run_all cc (Some d) ([p; track_stmt (compressed i)]
     ++ (if decide (m_eMJPGCamAudio c = eRTSP_AUDIOMASK_NONE) then [] else [audio_track (m_eMJPGCamAudio c) (compressed i)])
     ++ [num_stmt ($"mtu") (m_uiRTPDataTransSize c); num_stmt ($"conn") conn]) sp1 = Ok sp2 →
  run_context_end_block cc (Some d) sp2 = Ok (sp3, r) →
  live_loop cc c (S n) i sp = live_loop cc c n (i + 1) sp3.
Proof.
  intros E1 E2 E3 E4 E5. cbn [live_loop]. rewrite E1, res_bind_ok. cbv beta iota.
  rewrite E2, res_bind_ok, E3, res_bind_ok, E4, res_bind_ok, E5, res_bind_ok. done.
Qed.

Lemma live_configured h j :
  loc_memory (fresh_location 0) →
  ∃ loc, mjpg_live_config camera_contexts cfg
      (mkSpook h (Some 554) [Stream.new_stream (compressed 0) FORMAT_JPEG; Stream.new_stream (quoted ($"alaw")) FORMAT_ALAW]
         [j] [camera_alaw] (mkServer [] [] [] ∅ None 0)) =
    Ok (mkSpook h (Some 554) [listened (compressed 0) FORMAT_JPEG; listened (quoted ($"alaw")) FORMAT_ALAW]
          [j] [camera_alaw] (mkServer [loc] [] [camera_source] ∅ None 0), 0) ∧
    cstr (l_path loc) 0 = Ok camera_path ∧ l_private loc = 0%nat ∧ loc_ok 1 loc.
Proof.
  intros Hm. destruct (new_location_ok (mkServer [] [] [Live.start_block] ∅ None 0) (fresh_location 0) camera_path [] [] [] 0 Hm)
    as (s' & loc & E & -> & _ & Hp & _ & Hi & Hl).
  { split; [split; [closed_nonzero|reflexivity]|]. by repeat constructor. }
  { cbn. lia. }
  exists loc. split_and!; [|done|done|done].
  unfold mjpg_live_config. fold live_cc. change (Z.to_nat (m_uiNumMJPEGCams cfg)) with 1%nat.
  destruct live_cc as [cc|] eqn:Ecc; [|done]. rewrite <- Ecc.
  match goal with |- live_loop _ _ _ _ ?sp = _ =>
    rewrite (live_loop_one live_cc cfg 0 0 sp (with_live_block h j []) (BLive 0) [TStr ($"Path"); TStr camera_path] 2
      _ _ 0 eq_refl eq_refl eq_refl (live_run h j _ E) eq_refl) end. reflexivity.
Qed.

Lemma fmt_d_int z : int_range z → zlen (fmt_d z) ≤ 11.
Proof.
  unfold int_range. intros Hz. destruct z as [|p|p]; [done| |].
  - destruct (fmt_d_digits (Zpos p)) as (_ & _ & _ & H); [lia|]. specialize (H 10%nat ltac:(lia) ltac:(lia)). unfold zlen. lia.
  - change (fmt_d (Zneg p)) with (45 :: fmt_d (Zpos p)). rewrite zlen_cons.
    destruct (fmt_d_digits (Zpos p)) as (_ & _ & _ & H); [lia|]. specialize (H 10%nat ltac:(lia) ltac:(lia)). unfold zlen. lia.
Qed.

Lemma camera_source_ok : source_ok camera_source.
Proof.
  split; cbn [sess_list camera_source fmap list_fmap]; [constructor|constructor|constructor| |].
  - intros t Ht _. assert (t = 0 ∨ t = 1)%nat as [-> | ->] by (unfold MAX_TRACKS in Ht; lia); closed_nonzero.
  - repeat constructor; intros md pl port [= <-]; cbn [get_sdp jpeg_media alaw_media].
    + unfold jpeg_get_sdp. autorewrite with wc_len. pose proof (fmt_d_int (s32 port) (s32_range port)).
      unfold zlen in *. cbn -[fmt_d]. change (length (fmt_d 26)) with 2%nat. lia.
    + change (RawAudio.rawaudio_get_sdp alaw_out (s32 pl) (s32 port)) with (Some (RawAudio.m_line (s32 port) 8)).
      cbn [default from_option]. unfold RawAudio.m_line, id. autorewrite with wc_len. pose proof (fmt_d_int (s32 port) (s32_range port)).
      unfold zlen in *. cbn -[fmt_d]. change (length (fmt_d 8)) with 1%nat. lia.
Qed.

Definition started (h : heap) (loc : rtsp_location) : spook :=
  mkSpook (Some h) (Some 554) [listened (compressed 0) FORMAT_JPEG; listened (quoted ($"alaw")) FORMAT_ALAW]
    [camera_jpeg] [camera_alaw] (mkServer [loc] [] [camera_source] ∅ None 0).

Lemma spook_configured h loc :
  init_frame_heap fresh_frame 80000 8 = Ok h →
  mjpg_live_config camera_contexts cfg
    (mkSpook (Some h) (Some 554) [Stream.new_stream (compressed 0) FORMAT_JPEG; Stream.new_stream (quoted ($"alaw")) FORMAT_ALAW]
       [camera_jpeg] [camera_alaw] (mkServer [] [] [] ∅ None 0)) = Ok (started h loc, 0) →
  spook_config fresh_frame true camera_contexts cfg empty_spook = Ok (started h loc, 0).
Proof.
  intros Eh El. unfold spook_config.
  assert (config_frameheap fresh_frame [TChar 0; TNum (s32 (m_uiFrameCnt cfg)); TNum (s32 (m_uiFrameSize cfg))] empty_spook =
    Ok (with_heap h empty_spook, 0)) as ->.
  { unfold config_frameheap. cbn [decide]. change (num_arg _ 1) with 8. change (if decide _ then _ else _) with 80000. by rewrite Eh. }
  rewrite res_bind_ok. cbv beta iota. rewrite decide_False by lia.
  change (config_port true [TChar 0; TNum 554] (with_heap h empty_spook)) with (mkSpook (Some h) (Some 554) [] [] [] (mkServer [] [] [] ∅ None 0), 0).
  cbv beta iota. rewrite decide_False by lia. rewrite jpeg_configured, res_bind_ok. cbv beta iota zeta.
  change (Z.lor (Z.lor (m_eMJPGCamAudio cfg) (m_eH264CamAudio cfg)) (m_eAudioStreamAudio cfg)) with 1.
  rewrite audio_configured, res_bind_ok. cbv beta iota.
  rewrite decide_True by (split; [done|right; done]). rewrite El, res_bind_ok. cbv beta iota.
  rewrite decide_False by (intros H; by apply H). done.
Qed.
End Start.

Lemma u32_s32 n : 0 ≤ n < 4294967296 → u32 (s32 n) = n.
Proof. intros Hn. unfold u32, s32. rewrite Zminus_mod_idemp_l, Z.add_simpl_r. by apply Z.mod_small. Qed.

(** The configuration leaves a server without clients, as [server_safe] asks of
    its start. *)
Lemma camera_start_ok loc : loc_ok 1 loc → start_ok (mkServer [loc] [] [camera_source] ∅ None 0).
Proof.
  intros Hl. split; cbn; [done|done| | |].
  - by constructor.
  - constructor; [apply camera_source_ok|constructor].
  - by constructor.
Qed.

(** An option with a width or height from 1 to 7 is not refused, as 0 is: it is
    rounded down to 0. *)
Lemma small_dimension_zero arg n : u32 (s32 (strtol arg).1) = n → 0 < n < 8 → dimension arg = Some 0.
Proof.
  intros E Hn. unfold dimension. rewrite E. rewrite !decide_False by (rewrite ?Z.mod_small; lia). f_equal.
  assert (n ∈ seqZ 1 7) as Hin by (apply elem_of_seqZ; lia). revert n Hin E Hn.
  assert (Forall (λ n, Z.land n (u32 (Z.lnot 7)) = 0) (seqZ 1 7)) as Hf by closed_nonzero.
  rewrite Forall_forall in Hf. intros n Hin _ _. by apply Hf.
Qed.

(** ** The claims *)

(** C8. For every command line that main accepts, when the kernel gives random
    numbers and the port, the event loop starts with: the heap of eight frames
    all free; the JPEG and the A-law stream, each running with one listener; an
    encoder with the requested sizes, which are multiples of eight; and one
    location, /cam1/mpeg4, of a source with two tracks that send payload types 26
    and 8 in packets of at most 1400 bytes to at most two clients. This server
    state satisfies what the safety of the server assumes of its start. *)
Theorem camera_starts fresh_frame fresh_location opts c :
  loc_memory (fresh_location 0%nat) → parse_options opts default_config = Some c →
  ∃ sp h en loc, main fresh_frame fresh_location true true opts = Ok (Some sp) ∧
    frame_heap sp = Some h ∧ heap_inv h (seq 0 8) ∧ listening sp = Some 554 ∧
    streams sp = [listened (compressed 0) FORMAT_JPEG; listened (quoted ($"alaw")) FORMAT_ALAW] ∧
    jpegs sp = [en] ∧ Forall dim_ok [u32VinPlannerWidth en; u32VinPlannerHeight en; u32JpegWidth en; u32JpegHeight en] ∧
    u32JpegWidth en = m_uiJpegWidth c ∧ u32JpegHeight en = m_uiJpegHeight c ∧
    rtsp_loc_list (srv sp) = [loc] ∧ cstr (l_path loc) 0 = Ok camera_path ∧ l_private loc = 0%nat ∧
    sources (srv sp) = [camera_source] ∧ start_ok (srv sp).
Proof.
  intros Hm Hc. pose proof (parse_options_ok _ _ _ default_options_ok Hc) as [Ec Hd].
  destruct (init_frame_heap_inv fresh_frame 80000 8 ltac:(lia)) as (h & Eh & Hh).
  set (en := camera_jpeg (m_uiVinPlannerWidth c) (m_uiVinPlannerHeight c) (m_uiVinPacketWidth c)
    (m_uiVinPacketHeight c) (m_uiJpegWidth c) (m_uiJpegHeight c) (m_uiMJPGCamBitRate c) (m_uiJpegPacketPipe c) (m_uiOverlapping c)).
  destruct (live_configured fresh_location (m_uiVinPlannerWidth c) (m_uiVinPlannerHeight c) (m_uiVinPacketWidth c)
    (m_uiVinPacketHeight c) (m_uiJpegWidth c) (m_uiJpegHeight c) (m_uiMJPGCamBitRate c) (m_uiJpegPacketPipe c)
    (m_uiOverlapping c) (Some h) en Hm) as (loc & El & Hp & Hi & Hl).
  rewrite !Forall_cons in Hd. destruct Hd as (D1 & D2 & _ & _ & D5 & D6 & _).
  eexists _, h, en, loc. split.
  { unfold main. rewrite Hc, spook_init_ok, res_bind_ok. unfold cfg in El. rewrite <- Ec in El.
    pose proof (spook_configured fresh_frame fresh_location (m_uiVinPlannerWidth c) (m_uiVinPlannerHeight c) (m_uiVinPacketWidth c)
      (m_uiVinPacketHeight c) (m_uiJpegWidth c) (m_uiJpegHeight c) (m_uiMJPGCamBitRate c) (m_uiJpegPacketPipe c) (m_uiOverlapping c) h loc Eh) as Es.
    unfold cfg in Es. rewrite <- Ec in Es. rewrite (Es El).
    rewrite res_bind_ok. cbv beta iota. by rewrite decide_False by lia. }
  cbn [frame_heap listening streams jpegs srv started rtsp_loc_list sources].
  unfold en. cbn [camera_jpeg u32VinPlannerWidth u32VinPlannerHeight u32JpegWidth u32JpegHeight].
  rewrite !u32_s32 by (apply D1 || apply D2 || apply D5 || apply D6).
  split_and!; try done; [by rewrite !Forall_cons|by apply camera_start_ok].
Qed.

Lemma camera_starts_witness :
  ∃ sp, main (λ _, Frame.mkFrame 0 0 None 0 0 0 0 0 0 0%nat 0) (λ _, zero_loc) true true [(119, $"333"); (112, [])] = Ok (Some sp) ∧
    start_ok (srv sp).
Proof.
  destruct (camera_starts (λ _, Frame.mkFrame 0 0 None 0 0 0 0 0 0 0%nat 0) (λ _, zero_loc) [(119, $"333"); (112, [])]
    (with_dims default_config 328 480 8 8 640 480 4000000 1 0)) as (sp & h & en & loc & E & H);
    [split; [reflexivity|by repeat constructor]|reflexivity|].
  exists sp. split; [exact E|]. apply H.
Defined.
