(* ===== verification/Encoder.v ===== *)
(** * Encoder threads

    Both encoders of the build, for video (encoder-jpeg.c) and for audio
    (encoder-alaw.c), run a thread of the same form: it gets something from its
    device, decides whether there is a picture or a recording to send, gets a
    frame from the heap, fills it, gives it to its exchanger and notes what it
    sent. [Producer] is the interface of what differs, [enc_fill] and
    [enc_deliver] are the two halves of an iteration over the frame heap and the
    exchanger of [Frame], and [enc_run] are the runs of such a thread beside the
    event loop and other threads. The theorem of this file, proved once against
    the interface, is used by [Alaw] and [Video]. *)

From stdpp Require Import prelude gmap strings.
From S2P Require Import Prelude Frame.

(** ** What an encoder is

    [P] is the private state of the thread, [R] what an iteration finds outside
    (its device, the clock, the running flag), [V] what a reader of a frame looks
    at in its header. [offer max p r] is the part of the iteration before
    [new_frame]: the new state and, unless the loop continues with the next
    iteration, the data and the header of the frame. [sent] is the part after
    [deliver_frame]. *)
Class Producer (P R V : Type) := {
  view : frame → V;
  offer : Z → P → R → res (P * option (list Z * (frame → frame)));
  sent : P → R → P;
  good : P → Prop }.

(** A header keeps what [new_frame] set up, has the length of the data, and
    depends on nothing left in the frame that a reader can see. *)
Record header_ok {P R V} `{Producer P R V} (data : list Z) (hdr : frame → frame) : Prop := {
  ho_ref : ∀ f, ref_count (hdr f) = ref_count f;
  ho_size : ∀ f, size (hdr f) = size f;
  ho_destr : ∀ f, destructor (hdr f) = destructor f;
  ho_d : ∀ f, d (hdr f) = d f;
  ho_len : ∀ f, flength (hdr f) = zlen data;
  ho_view : ∀ f f', view (hdr f) = view (hdr f') }.

(** What an encoder promises: from good states its code does not fault and the
    frame it offers fits. *)
Class ProducerLaws (P R V : Type) `{Producer P R V} := {
  view_ref : ∀ r f, view (set_ref_count r f) = view f;
  offer_ok : ∀ max p r, good p →
    ∃ p' o, offer max p r = Ok (p', o) ∧ good p' ∧
      match o with Some (data, hdr) => zlen data ≤ max ∧ header_ok data hdr | None => True end;
  sent_ok : ∀ p r, good p → good (sent p r) }.

(** The state of a thread and of what it shares: the frame heap, the exchanger
    and the buffers of the frames. *)
Record enc (P : Type) := mkEnc {
  priv : P;
  e_heap : heap;
  e_ex : frame_exchanger;
  e_buf : gmap nat (list Z) }.
Arguments mkEnc {P} _ _ _ _.
Arguments priv {P} _.
Arguments e_heap {P} _.
Arguments e_ex {P} _.
Arguments e_buf {P} _.

Section Thread.
Context {P R V : Type} `{Prod : Producer P R V}.

(** From the start of an iteration to the filled frame; a [None] result is one of
    the [continue]s of the loop. *)
Definition enc_fill (m : enc P) (r : R) : res (enc P * option nat) :=
  '(p, o) ← offer (get_max_frame_size (e_heap m)) (priv m) r;
  match o with
  | None => Ok (mkEnc p (e_heap m) (e_ex m) (e_buf m), None)
  | Some (data, hdr) =>
      '(h, o) ← new_frame (e_heap m);
      match o with
      | None => Ok (mkEnc p h (e_ex m) (e_buf m), None)
      | Some id =>
          match frames h !! id with
          | None => Fault UseAfterFree
          | Some f =>
              match e_buf m !! d f with
              | None => Fault UseAfterFree
              | Some old =>
                  if decide (size f < zlen data) then Fault OutOfBounds else
                  Ok (mkEnc p (set_frames h (<[id := hdr f]> (frames h))) (e_ex m)
                        (<[d f := data ++ drop (length data) old]> (e_buf m)), Some id)
              end
          end
      end
  end.

(** [deliver_frame] with the [unref_frame] of a refused frame, and the rest of the
    iteration; [None] is [exit(0)]. *)
Definition enc_deliver (m : enc P) (id : nat) (r : R) (write_ok : bool) : res (option (enc P)) :=
  match deliver_frame (e_ex m) id write_ok with
  | Delivered ex => Ok (Some (mkEnc (sent (priv m) r) (e_heap m) ex (e_buf m)))
  | Dropped => h ← unref_frame 1 (e_heap m) id; Ok (Some (mkEnc (sent (priv m) r) h (e_ex m) (e_buf m)))
  | Exited => Ok None
  end.

(** The loop of the thread over what its iterations find, each with whether the
    pipe of the exchanger can be written. *)
Fixpoint enc_loop (m : enc P) (rs : list (R * bool)) : res (option (enc P)) :=
  match rs with
  | [] => Ok (Some m)
  | (r, write_ok) :: rs =>
      '(m, o) ← enc_fill m r;
      match o with
      | None => enc_loop m rs
      | Some id =>
          m ← enc_deliver m id r write_ok;
          match m with
          | None => Ok None
          | Some m => enc_loop m rs
          end
      end
  end.

(** ** The stream of an encoder up to the event loop

    The thread runs beside the event loop, which takes frames from the exchanger,
    holds references to them and drops these again, and beside the threads of
    other encoders, which use frames of the same heap. The two halves of an
    iteration are separate steps. *)

(** What a reader finds in a frame. *)
Definition item : Type := V * list Z.

Definition frame_item (m : enc P) (id : nat) : option item :=
  f ← frames (e_heap m) !! id;
  b ← e_buf m !! d f;
  Some (view f, take (Z.to_nat (flength f)) b).

(** [a_hand] is the frame the thread is about to deliver, with what its iteration
    found, [a_out] the frames the event loop took with what it found in them then,
    [a_oth] the frames of the other encoders. *)
Record sys := mkAud {
  a_enc : enc P;
  a_reading : bool;
  a_hand : option (nat * R);
  a_out : list (nat * item);
  a_oth : list nat }.

Inductive enc_event :=
| ERead (r : R) (got : bool)
| ESend (kept : bool)
| EByte
| EPlay (it : item)
| EUse.

Definition with_heap (m : enc P) (h : heap) : enc P := mkEnc (priv m) h (e_ex m) (e_buf m).
Definition with_ex (m : enc P) (ex : frame_exchanger) : enc P := mkEnc (priv m) (e_heap m) ex (e_buf m).

(** Whether an [unref_frame] of the frame gives it back to the heap. *)
Definition last_ref (m : enc P) (id : nat) : bool :=
  match frames (e_heap m) !! id with Some f => bool_decide (ref_count f ≤ 1) | None => true end.

Inductive enc_step : sys → enc_event → sys → Prop :=
| enc_read m rd out oth r m' o :
    enc_fill m r = Ok (m', o) →
    enc_step (mkAud m rd None out oth) (ERead r (bool_decide (is_Some o)))
      (mkAud m' rd ((λ id, (id, r)) <$> o) out oth)
| enc_send m rd id r out oth m' :
    enc_deliver m id r true = Ok (Some m') →
    enc_step (mkAud m rd (Some (id, r)) out oth)
      (ESend (bool_decide (pipe (e_ex m') ≠ pipe (e_ex m)))) (mkAud m' rd None out oth)
| enc_byte m hand out oth ex :
    exchanger_read_byte (e_ex m) = Some ex →
    enc_step (mkAud m false hand out oth) EByte (mkAud (with_ex m ex) true hand out oth)
| enc_play m hand out oth ex id it :
    exchanger_take (e_ex m) = Ok (ex, Some id) → frame_item m id = Some it →
    enc_step (mkAud m true hand out oth) (EPlay it) (mkAud (with_ex m ex) false hand (out ++ [(id, it)]) oth)
| enc_ref m rd hand out oth h id it :
    (id, it) ∈ out → ref_frame (e_heap m) id = Ok h →
    enc_step (mkAud m rd hand out oth) EUse (mkAud (with_heap m h) rd hand out oth)
| enc_unref m rd hand out1 out2 oth h id it :
    unref_frame 1 (e_heap m) id = Ok h →
    enc_step (mkAud m rd hand (out1 ++ (id, it) :: out2) oth) EUse
      (mkAud (with_heap m h) rd hand (out1 ++ (if last_ref m id then [] else [(id, it)]) ++ out2) oth)
| enc_other_new m rd hand out oth h id :
    new_frame (e_heap m) = Ok (h, Some id) →
    enc_step (mkAud m rd hand out oth) EUse (mkAud (with_heap m h) rd hand out (id :: oth))
| enc_other_write m rd hand out oth id f f' b :
    id ∈ oth → frames (e_heap m) !! id = Some f →
    size f' = size f → d f' = d f → destructor f' = None → 0 < ref_count f' →
    enc_step (mkAud m rd hand out oth) EUse
      (mkAud (mkEnc (priv m) (set_frames (e_heap m) (<[id := f']> (frames (e_heap m)))) (e_ex m)
                (<[id := b]> (e_buf m))) rd hand out oth)
| enc_other_unref m rd hand out oth1 oth2 h id :
    unref_frame 1 (e_heap m) id = Ok h →
    enc_step (mkAud m rd hand out (oth1 ++ id :: oth2)) EUse
      (mkAud (with_heap m h) rd hand out (oth1 ++ (if last_ref m id then [] else [id]) ++ oth2)).

Inductive enc_run : sys → list enc_event → sys → Prop :=
| enc_run_nil s : enc_run s [] s
| enc_run_snoc s s' s'' tr e : enc_run s tr s' → enc_step s' e s'' → enc_run s (tr ++ [e]) s''.

(** What the trace should have sent, for a heap with frames of [max] bytes: the
    private state, the item in hand and the items accepted so far. *)
Definition expected : Type := P * option (item * R) * list item.

Definition offered (o : option (list Z * (frame → frame))) (r : R) : option (item * R) :=
  (λ x : list Z * (frame → frame), ((view (x.2 (blank_frame 0)), x.1), r)) <$> o.

Definition expect (max : Z) (g : expected) (e : enc_event) : expected :=
  let '(p, hand, acc) := g in
  match e with
  | ERead r got =>
      match offer max p r with
      | Ok (p', o) => (p', if got then offered o r else None, acc)
      | Fault _ => g
      end
  | ESend kept =>
      match hand with
      | Some (it, r) => (sent p r, None, acc ++ if kept then [it] else [])
      | None => g
      end
  | _ => g
  end.

Definition played (tr : list enc_event) : list item :=
  tr ≫= λ e, match e with EPlay it => [it] | _ => [] end.

Context `{!ProducerLaws P R V}.

(** *** Invariant of the shared memory

    The frames of the heap are free, hold an item of the stream or belong
    to another encoder, and never two of these. *)

Record mem_inv (m : enc P) (free : list nat) (its : list (nat * item)) (oth : list nat) : Prop := {
  mi_heap : heap_inv (e_heap m) free;
  mi_own : NoDup (free ++ its.*1 ++ oth);
  mi_dom : ∀ id, id ∈ its.*1 ++ oth → is_Some (frames (e_heap m) !! id);
  mi_frames : ∀ id f, frames (e_heap m) !! id = Some f →
    size f = max_frame_size (e_heap m) ∧ is_Some (e_buf m !! id) ∧
    (id ∉ free → d f = id ∧ destructor f = None ∧ 0 < ref_count f);
  mi_items : ∀ id it, (id, it) ∈ its → frame_item m id = Some it }.

Lemma mem_eq m m' free its oth :
  e_heap m' = e_heap m → e_buf m' = e_buf m →
  mem_inv m free its oth → mem_inv m' free its oth.
Proof.
  intros Hh Hb []. split; rewrite ?Hh, ?Hb; auto.
  intros id it Hit. rewrite <- (mi_items0 _ _ Hit). unfold frame_item. by rewrite Hh, Hb.
Qed.

Lemma mem_perm m free its its' oth oth' :
  its ≡ₚ its' → oth ≡ₚ oth' → mem_inv m free its oth → mem_inv m free its' oth'.
Proof.
  intros Hi Ho []. split; auto.
  - by rewrite <- Hi, <- Ho.
  - intros id. rewrite <- Hi, <- Ho. auto.
  - intros id it. rewrite <- Hi. auto.
Qed.

Lemma mem_adopt m free its oth id it :
  mem_inv m free its (id :: oth) → frame_item m id = Some it → mem_inv m free ((id, it) :: its) oth.
Proof.
  intros [] Hit. split; auto.
  - revert mi_own0. apply NoDup_Permutation_proper. csimpl. solve_Permutation.
  - intros x Hx. apply mi_dom0. revert Hx. csimpl. set_solver.
  - intros x y [[= -> ->]|?]%elem_of_cons; auto.
Qed.

Lemma mem_forget m free its oth id it :
  mem_inv m free ((id, it) :: its) oth → mem_inv m free its (id :: oth).
Proof.
  intros []. split; auto.
  - revert mi_own0. apply NoDup_Permutation_proper. csimpl. solve_Permutation.
  - intros x Hx. apply mi_dom0. csimpl. set_solver.
  - intros x y ?. apply mi_items0. set_solver.
Qed.

(** An owned frame: it is what [new_frame] made it, up to the header fields of
    its owner. *)
Lemma mem_owned m free its oth id :
  mem_inv m free its oth → id ∈ its.*1 ++ oth →
  ∃ f, frames (e_heap m) !! id = Some f ∧ id ∉ free ∧ d f = id ∧ destructor f = None ∧
    0 < ref_count f ∧ size f = max_frame_size (e_heap m) ∧ is_Some (e_buf m !! id).
Proof.
  intros [] Hid. destruct (mi_dom0 id Hid) as [f Hf].
  destruct (mi_frames0 _ _ Hf) as (? & ? & Hd).
  assert (id ∉ free) as Hn by (apply NoDup_app in mi_own0 as (_ & Hdj & _); intros ?; by apply (Hdj id)).
  destruct (Hd Hn) as (? & ? & ?). exists f. by split_and!.
Qed.

(** A write to an owned frame leaves the other frames' items alone. *)
Lemma frame_item_ne m ts ex h' buf' free its oth id x :
  mem_inv m free its oth → x ∈ its.*1 ++ oth → x ≠ id →
  frames h' !! x = frames (e_heap m) !! x → buf' !! x = e_buf m !! x →
  frame_item (mkEnc ts h' ex buf') x = frame_item m x.
Proof.
  intros Hm Hx Hne Hf Hb. destruct (mem_owned _ _ _ _ _ Hm Hx) as (f & E & _ & Hd & _).
  unfold frame_item. simpl. rewrite Hf, E. simpl. by rewrite Hd, Hb.
Qed.

Lemma mem_write m free its oth id f f' b :
  mem_inv m free its oth → id ∈ oth → frames (e_heap m) !! id = Some f →
  size f' = size f → d f' = d f → destructor f' = None → 0 < ref_count f' →
  mem_inv (mkEnc (priv m) (set_frames (e_heap m) (<[id := f']> (frames (e_heap m)))) (e_ex m)
            (<[id := b]> (e_buf m))) free its oth.
Proof.
  intros Hm Hid Hf Hs Hd Hde Hr. pose proof Hm as [].
  assert (∀ x it, (x, it) ∈ its → x ≠ id) as Hne.
  { intros x it Hit ->. apply NoDup_app in mi_own0 as (_ & _ & Hn). apply NoDup_app in Hn as (_ & Hn & _).
    apply (Hn id); [|done]. apply list_elem_of_fmap. by exists (id, it). }
  split; simpl; auto.
  - apply heap_inv_update; [done|]. by eexists.
  - intros x Hx. rewrite lookup_insert_is_Some. destruct (decide (id = x)); auto.
  - intros x g. rewrite lookup_insert_Some, lookup_insert_is_Some.
    intros [[-> <-]|[Hx Hg]]; destruct (mi_frames0 _ _ ltac:(done)) as (? & ? & Hfr).
    + split; [by rewrite Hs|]. split; [auto|]. intros Hn. destruct (Hfr Hn). rewrite Hd. auto.
    + auto.
  - intros x it Hit. rewrite <- (mi_items0 _ _ Hit).
    apply (frame_item_ne m _ _ _ _ free its oth id);
      [done| |by eauto|simpl; by rewrite lookup_insert_ne by (by eauto using not_eq_sym)..].
    apply elem_of_app. left. apply list_elem_of_fmap. by exists (x, it).
Qed.

Lemma mem_new m free its oth id h :
  mem_inv m free its oth → new_frame (e_heap m) = Ok (h, Some id) →
  ∃ free', free = id :: free' ∧ mem_inv (with_heap m h) free' its (id :: oth) ∧
    max_frame_size h = max_frame_size (e_heap m) ∧
    ∃ f, ref_count f = 1 ∧ frames h = <[id := f]> (frames (e_heap m)).
Proof.
  intros Hm Hnew. pose proof Hm as []. destruct free as [|x free]; [by rewrite new_frame_empty in Hnew|].
  destruct (new_frame_take _ _ _ mi_heap0) as (h' & f & E & Hh & Hf & Hfr & _).
  rewrite Hnew in E. injection E as <- <-. exists free. split; [done|].
  assert (max_frame_size h = max_frame_size (e_heap m)) as Hmax.
  { clear -Hnew. unfold new_frame in Hnew. repeat case_match; by simplify_eq. }
  split; [|split; [done|by exists (reset_frame id f)]]. split; simpl.
  - done.
  - revert mi_own0. apply NoDup_Permutation_proper. solve_Permutation.
  - intros y. rewrite Hfr, lookup_insert_is_Some. intros Hy.
    destruct (decide (id = y)); [by left|right]. split; [done|]. apply mi_dom0. set_solver.
  - intros y g. rewrite Hfr, Hmax, lookup_insert_Some. intros [[-> <-]|[Hy Hg]].
    + destruct (mi_frames0 _ _ Hf) as (? & ? & _). split; [done|]. split; [done|]. intros _.
      simpl. auto with lia.
    + destruct (mi_frames0 _ _ Hg) as (? & ? & Hd). split; [done|]. split; [done|].
      intros Hn. apply Hd. set_solver.
  - intros y it Hit. rewrite <- (mi_items0 _ _ Hit).
    assert (y ∈ its.*1) as Hy by (apply list_elem_of_fmap; by exists (y, it)).
    apply (frame_item_ne m _ _ _ _ _ _ _ id _ Hm); [set_solver| |rewrite Hfr|done].
    + intros ->. inversion mi_own0 as [|?? Hnin]. set_solver.
    + rewrite lookup_insert_ne; [done|]. intros ->. inversion mi_own0 as [|?? Hnin]. set_solver.
Qed.

Lemma put_frame_max h id h' : put_frame h id = Ok h' → max_frame_size h' = max_frame_size h.
Proof. unfold put_frame. intros. repeat case_match; by simplify_eq. Qed.

(** Dropping a reference changes the count only, and frees the frame with the
    last one. *)
Lemma unref_one m free its oth id :
  mem_inv m free its (id :: oth) →
  ∃ h, unref_frame 1 (e_heap m) id = Ok h ∧ (∀ x, frame_item (with_heap m h) x = frame_item m x) ∧
    max_frame_size h = max_frame_size (e_heap m) ∧
    (∃ f, frames h = <[id := f]> (frames (e_heap m))) ∧
    mem_inv (with_heap m h) (free ++ if last_ref m id then [id] else []) its
      (if last_ref m id then oth else id :: oth).
Proof.
  intros Hm. pose proof Hm as [].
  destruct (mem_owned _ _ _ _ id Hm) as (f & Hf & Hnf & Hd & Hde & Hr & Hs & Hb); [set_solver|].
  assert (∀ h r, frames h = <[id := set_ref_count r f]> (frames (e_heap m)) →
    ∀ x, frame_item (with_heap m h) x = frame_item m x) as Hitem.
  { intros h r E x. unfold frame_item. simpl. rewrite E. destruct (decide (id = x)) as [<-|].
    - rewrite lookup_insert_eq, Hf. simpl. by rewrite view_ref.
    - by rewrite lookup_insert_ne by done. }
  assert (∀ h r, frames h = <[id := set_ref_count r f]> (frames (e_heap m)) →
    ∀ y, is_Some (frames (e_heap m) !! y) → is_Some (frames h !! y)) as Hdom.
  { intros h r E y Hy. rewrite E, lookup_insert_is_Some. destruct (decide (id = y)); auto. }
  simpl. rewrite Hf, Hde. unfold last_ref. rewrite Hf.
  assert (∀ r, heap_inv (set_frames (e_heap m) (<[id := set_ref_count r f]> (frames (e_heap m)))) free) as Hi
    by (intros r; apply heap_inv_update; [done|by eexists]).
  case_bool_decide.
  - rewrite decide_False by lia.
    destruct (put_frame_spec _ free id (Hi (ref_count f - 1))) as (h & Hp & Hh & Hfr).
    { split; [simpl; rewrite lookup_insert_eq; by eexists|done]. }
    rewrite Hp. pose proof (put_frame_max _ _ _ Hp) as Hmax. simpl in Hmax, Hfr.
    exists h. split; [done|]. split; [by eapply Hitem|]. split; [done|]. split; [by eexists|]. split; simpl.
    + done.
    + revert mi_own0. apply NoDup_Permutation_proper. solve_Permutation.
    + intros y Hy. eapply Hdom; [done|]. apply mi_dom0. set_solver.
    + intros y g. rewrite Hmax, Hfr, lookup_insert_Some. intros [[-> <-]|[Hy Hg]].
      * split; [done|]. split; [done|]. intros []. set_solver.
      * destruct (mi_frames0 _ _ Hg) as (? & ? & Hfd). split; [done|]. split; [done|].
        intros Hn. apply Hfd. set_solver.
    + intros y it Hit. rewrite (Hitem h _ Hfr). auto.
  - rewrite decide_True by lia. eexists. split; [done|]. split; [by eapply Hitem|]. rewrite app_nil_r.
    split; [done|]. split; [by eexists|]. split; simpl.
    + apply Hi.
    + done.
    + intros y Hy. apply (Hdom (set_frames (e_heap m) _) _ eq_refl). apply mi_dom0. set_solver.
    + intros y g. rewrite lookup_insert_Some. intros [[-> <-]|[Hy Hg]]; [|by auto].
      split; [done|]. split; [done|]. intros _. simpl. auto with lia.
    + intros y it Hit. rewrite (Hitem _ (ref_count f - 1)) by done. auto.
Qed.

(** *** The two halves of an iteration *)

Lemma enc_fill_spec m r free its oth :
  mem_inv m free its oth → good (priv m) →
  ∃ p' off m' o, offer (max_frame_size (e_heap m)) (priv m) r = Ok (p', off) ∧ good p' ∧
    enc_fill m r = Ok (m', o) ∧ priv m' = p' ∧ e_ex m' = e_ex m ∧
    max_frame_size (e_heap m') = max_frame_size (e_heap m) ∧
    match off, o with
    | None, None => mem_inv m' free its oth
    | Some _, None => mem_inv m' free its oth ∧ free = []
    | Some (data, hdr), Some id =>
        (∃ f, frames (e_heap m') !! id = Some f ∧ ref_count f = 1) ∧
        ∃ free', free = id :: free' ∧ mem_inv m' free' ((id, (view (hdr (blank_frame 0)), data)) :: its) oth
    | None, Some _ => False
    end.
Proof.
  intros Hm Hg. destruct (offer_ok (max_frame_size (e_heap m)) (priv m) r Hg) as (p' & off & E & Hg' & Hoff).
  exists p', off. unfold enc_fill, get_max_frame_size. rewrite E. simpl.
  destruct off as [[data hdr]|].
  2:{ eexists _, None. split_and!; try done. by revert Hm; apply mem_eq. }
  destruct Hoff as [Hlen Hh]. destruct free as [|id free].
  { rewrite new_frame_empty by apply Hm. eexists _, None. split_and!; try done. by revert Hm; apply mem_eq. }
  destruct (new_frame_take _ _ _ (mi_heap _ _ _ _ Hm)) as (h & f0 & En & _).
  destruct (mem_new _ _ _ _ _ _ Hm En) as (free' & [= <-] & Hm' & Hmax & g & Hgr & Hfr). rewrite En. simpl.
  destruct (mem_owned _ _ _ _ id Hm') as (f & Hf & _ & Hd & Hde & Hr & Hs & [b Hb]); [set_solver|].
  simpl in *. rewrite Hf, Hd, Hb, decide_False by lia.
  eexists _, (Some id). split_and!; [done..| |].
  { eexists. simpl. rewrite lookup_insert_eq. split; [done|]. rewrite (ho_ref _ _ Hh).
    rewrite Hfr, lookup_insert_eq in Hf. by injection Hf as <-. }
  exists free. split; [done|]. apply mem_adopt.
  - apply (mem_eq (mkEnc (priv m) (set_frames h (<[id := hdr f]> (frames h))) (e_ex m)
      (<[id := data ++ drop (length data) b]> (e_buf m)))); [done|done|].
    apply (mem_write (with_heap m h) _ _ _ _ f); rewrite ?(ho_size _ _ Hh), ?(ho_d _ _ Hh), ?(ho_destr _ _ Hh), ?(ho_ref _ _ Hh);
      [done|set_solver|done..].
  - unfold frame_item. simpl. rewrite lookup_insert_eq. simpl. rewrite (ho_d _ _ Hh), Hd, lookup_insert_eq. simpl.
    rewrite (ho_view _ _ Hh f (blank_frame 0)), (ho_len _ _ Hh). f_equal. f_equal.
    apply take_app_length'. unfold zlen. by rewrite Nat2Z.id.
Qed.

(** Delivering the item in hand: it goes to the exchanger, or its frame back to
    the heap when the exchanger is full. *)
Lemma enc_deliver_spec m rd id r it free its oth fl :
  mem_inv m free ((id, it) :: its) oth → ex_inv (mkSys (e_ex m) rd) fl →
  (∃ f, frames (e_heap m) !! id = Some f ∧ ref_count f = 1) →
  ∃ m', enc_deliver m id r true = Ok (Some m') ∧ priv m' = sent (priv m) r ∧
    max_frame_size (e_heap m') = max_frame_size (e_heap m) ∧
    length (ex_slots (e_ex m')) = length (ex_slots (e_ex m)) ∧
    if decide (S (length fl) = length (ex_slots (e_ex m))) then
      e_ex m' = e_ex m ∧ mem_inv m' (free ++ [id]) its oth
    else
      pipe (e_ex m') = S (pipe (e_ex m)) ∧
      mem_inv m' free ((id, it) :: its) oth ∧ ex_inv (mkSys (e_ex m') rd) (fl ++ [id]).
Proof.
  intros Hm Hex Hone. unfold enc_deliver. pose proof (deliver_spec _ _ id Hex) as Hdel. simpl in Hdel.
  case_decide.
  - rewrite Hdel. apply mem_forget in Hm.
    destruct (unref_one _ _ _ _ _ Hm) as (h & -> & _ & Hmax & _ & Hm').
    assert (last_ref m id = true) as Hl.
    { destruct Hone as (f & Hf & Hr). unfold last_ref. by rewrite Hf, Hr. }
    rewrite Hl in Hm'. eexists. split_and!; try done. by revert Hm'; apply mem_eq.
  - destruct Hdel as (ex & Ed & Hi & Hl). rewrite Ed. eexists. split; [done|]. simpl.
    split; [done|]. split; [done|]. split; [done|]. split; [|split; [by revert Hm; apply mem_eq|done]].
    unfold deliver_frame in Ed. repeat case_match; by simplify_eq.
Qed.

(** *** Invariant of the stream

    [fl] are the items in the exchanger, [hd] the item in hand, [pl] the items
    taken so far. *)

Record enc_inv (n : nat) (max : Z) (s : sys) (g : expected) (pl : list item)
    (free : list nat) (fl : list (nat * item)) (hd : option ((nat * item) * R)) : Prop := {
  au_mem : mem_inv (a_enc s) free (option_list (fst <$> hd) ++ fl ++ a_out s) (a_oth s);
  au_good : good (priv (a_enc s));
  au_max : max_frame_size (e_heap (a_enc s)) = max;
  au_ex : ex_inv (mkSys (e_ex (a_enc s)) (a_reading s)) fl.*1;
  au_slots : length (ex_slots (e_ex (a_enc s))) = n;
  au_hand : a_hand s = (λ x, (x.1.1, x.2)) <$> hd;
  au_one : ∀ id r, a_hand s = Some (id, r) →
    ∃ f, frames (e_heap (a_enc s)) !! id = Some f ∧ ref_count f = 1;
  au_expect : g = (priv (a_enc s), (λ x, (x.1.2, x.2)) <$> hd, pl ++ fl.*2) }.

Lemma enc_read_inv n max m rd out oth r g pl free fl hd m' o :
  enc_inv n max (mkAud m rd None out oth) g pl free fl hd → enc_fill m r = Ok (m', o) →
  ∃ free' hd', enc_inv n max (mkAud m' rd ((λ id, (id, r)) <$> o) out oth)
    (expect max g (ERead r (bool_decide (is_Some o)))) pl free' fl hd'.
Proof.
  intros [Hm Hg Hmx Hex Hn Hh _ ->] E. simpl in *. destruct hd; [done|]. simpl in *.
  destruct (enc_fill_spec m r _ _ _ Hm Hg) as (p' & off & m1 & o1 & Eo & Hg' & E1 & Hp & Ex & Hmx' & Hc).
  rewrite E in E1. injection E1 as <- <-. rewrite Hmx in Eo. rewrite Eo.
  destruct off as [[data hdr]|], o as [id|]; try done; simpl.
  - destruct Hc as (Hone & free' & -> & Hm').
    exists free', (Some ((id, (view (hdr (blank_frame 0)), data)), r)).
    split; simpl; rewrite ?Ex, ?Hp, ?Hmx'; try done. intros ?? [= <- <-]. done.
  - destruct Hc as [Hm' _]. exists free, None. split; simpl; rewrite ?Ex, ?Hp, ?Hmx'; done.
  - exists free, None. split; simpl; rewrite ?Ex, ?Hp, ?Hmx'; done.
Qed.

Lemma enc_send_inv n max m rd id r out oth g pl free fl hd m' :
  enc_inv n max (mkAud m rd (Some (id, r)) out oth) g pl free fl hd → enc_deliver m id r true = Ok (Some m') →
  ∃ free' fl', enc_inv n max (mkAud m' rd None out oth)
    (expect max g (ESend (bool_decide (pipe (e_ex m') ≠ pipe (e_ex m))))) pl free' fl' None.
Proof.
  intros [Hm Hg Hmx Hex Hn Hh Hone ->] E. simpl in *. destruct hd as [[[? it] ?]|]; [|done].
  simpl in Hh. injection Hh as <- <-. simpl in *.
  destruct (enc_deliver_spec m rd id r it _ _ _ _ Hm Hex (Hone _ _ eq_refl)) as (m1 & E1 & Hts & Hmx' & Hsl & Hc).
  rewrite E in E1. injection E1 as <-. case_decide.
  - destruct Hc as [Hx Hm']. rewrite bool_decide_false by (rewrite Hx; congruence). exists (free ++ [id]), fl.
    split; simpl; rewrite ?Hx, ?Hts, ?Hmx', ?app_nil_r; try done. by apply sent_ok.
  - destruct Hc as (Hp & Hm' & Hi). rewrite bool_decide_true by lia. exists free, (fl ++ [(id, it)]).
    split; simpl; rewrite ?fmap_app, ?Hts, ?Hsl, ?Hmx', ?(assoc_L (++)); try done; [|by apply sent_ok].
    revert Hm'. apply mem_perm; [solve_Permutation|done].
Qed.
Lemma mem_disjoint m free its oth x :
  mem_inv m free its oth → x ∈ free ∨ x ∈ oth → x ∉ its.*1.
Proof.
  intros [_ Hown _ _ _] Hx Hi. apply NoDup_app in Hown as (_ & H1 & H2).
  apply NoDup_app in H2 as (_ & H2 & _). set_solver.
Qed.

(** Whatever another party does to a frame that is not in hand. *)
Lemma enc_mem_inv n max m rd hand out oth g pl free fl hd m' out' oth' free' x fx :
  enc_inv n max (mkAud m rd hand out oth) g pl free fl hd →
  priv m' = priv m → e_ex m' = e_ex m →
  max_frame_size (e_heap m') = max_frame_size (e_heap m) →
  frames (e_heap m') = <[x := fx]> (frames (e_heap m)) → x ∉ (option_list (fst <$> hd)).*1 →
  mem_inv m' free' (option_list (fst <$> hd) ++ fl ++ out') oth' →
  enc_inv n max (mkAud m' rd hand out' oth') g pl free' fl hd.
Proof.
  intros [Hm Hg Hmx Hex Hn Hh Hone ->] Hts Ex Hmx' Hfr Hx Hm'.
  split; simpl in *; rewrite ?Ex, ?Hts, ?Hmx'; try done.
  intros id r Hid. rewrite Hfr. rewrite lookup_insert_ne; [eauto|].
  destruct hd as [[[y it] r']|]; simpl in *; [|congruence]. set_solver.
Qed.

(** Taking the frame of an item out of the path and putting it back. *)
Lemma mem_split m free hd fl out1 id it out2 oth :
  mem_inv m free (hd ++ fl ++ out1 ++ (id, it) :: out2) oth →
  mem_inv m free (hd ++ fl ++ out1 ++ out2) (id :: oth) ∧ frame_item m id = Some it ∧ id ∉ hd.*1.
Proof.
  intros Hm. assert (mem_inv m free ((id, it) :: hd ++ fl ++ out1 ++ out2) oth) as Hm'.
  { revert Hm. apply mem_perm; [solve_Permutation|done]. }
  split; [by eapply mem_forget|]. split; [eapply mi_items; [exact Hm'|set_solver]|].
  apply mem_forget in Hm'. intros Hid.
  apply (mem_disjoint _ _ _ _ id Hm'); [set_solver|]. rewrite fmap_app. set_solver.
Qed.

Lemma mem_unsplit m free hd fl out1 id it out2 oth :
  mem_inv m free (hd ++ fl ++ out1 ++ out2) (id :: oth) → frame_item m id = Some it →
  mem_inv m free (hd ++ fl ++ out1 ++ (id, it) :: out2) oth.
Proof.
  intros Hm Hit. pose proof (mem_adopt _ _ _ _ _ _ Hm Hit) as Hm'.
  revert Hm'. apply mem_perm; [solve_Permutation|done].
Qed.

Lemma enc_ref_inv n max m rd hand out oth g pl free fl hd h id it :
  enc_inv n max (mkAud m rd hand out oth) g pl free fl hd →
  (id, it) ∈ out → ref_frame (e_heap m) id = Ok h →
  enc_inv n max (mkAud (with_heap m h) rd hand out oth) g pl free fl hd.
Proof.
  intros Hinv (out1 & out2 & ->)%list_elem_of_split E. pose proof (au_mem _ _ _ _ _ _ _ _ Hinv) as Hm.
  simpl in Hm. destruct (mem_split _ _ _ _ _ _ _ _ _ Hm) as (Hm' & Hit & Hnh).
  destruct (mem_owned _ _ _ _ id Hm') as (f & Hf & _ & Hd & Hde & Hr & Hs & [b Hb]); [set_solver|].
  unfold ref_frame in E. rewrite Hf in E. injection E as <-.
  eapply (enc_mem_inv _ _ m); [done|done|done|done|done|done|].
  apply mem_unsplit.
  - pose proof (mem_write m _ _ _ id f (set_ref_count (ref_count f + 1) f) b Hm') as Hw.
    rewrite (insert_id (e_buf m)) in Hw by done. apply Hw; try done; [set_solver|simpl; lia].
  - rewrite <- Hit. unfold frame_item. simpl. rewrite lookup_insert_eq, Hf. simpl. by rewrite view_ref.
Qed.

Lemma enc_unref_inv n max m rd hand out1 out2 oth g pl free fl hd h id it :
  enc_inv n max (mkAud m rd hand (out1 ++ (id, it) :: out2) oth) g pl free fl hd →
  unref_frame 1 (e_heap m) id = Ok h →
  ∃ free', enc_inv n max (mkAud (with_heap m h) rd hand
    (out1 ++ (if last_ref m id then [] else [(id, it)]) ++ out2) oth) g pl free' fl hd.
Proof.
  intros Hinv E. pose proof (au_mem _ _ _ _ _ _ _ _ Hinv) as Hm. simpl in Hm.
  destruct (mem_split _ _ _ _ _ _ _ _ _ Hm) as (Hm' & Hit & Hnh).
  destruct (unref_one _ _ _ _ _ Hm') as (h' & E' & Hitem & Hmx & [f Hfr] & Hu).
  rewrite E in E'. injection E' as <-.
  exists (free ++ if last_ref m id then [id] else []).
  eapply (enc_mem_inv _ _ m); [done|done|done|exact Hmx|exact Hfr|done|].
  destruct (last_ref m id); [exact Hu|]. apply mem_unsplit; [exact Hu|]. by rewrite Hitem.
Qed.

Lemma enc_other_inv n max m rd hand out oth1 oth2 g pl free fl hd h id :
  enc_inv n max (mkAud m rd hand out (oth1 ++ id :: oth2)) g pl free fl hd →
  unref_frame 1 (e_heap m) id = Ok h →
  ∃ free', enc_inv n max (mkAud (with_heap m h) rd hand out
    (oth1 ++ (if last_ref m id then [] else [id]) ++ oth2)) g pl free' fl hd.
Proof.
  intros Hinv E. pose proof (au_mem _ _ _ _ _ _ _ _ Hinv) as Hm. simpl in Hm.
  assert (mem_inv m free (option_list (fst <$> hd) ++ fl ++ out) (id :: oth1 ++ oth2)) as Hm'.
  { revert Hm. apply mem_perm; [done|solve_Permutation]. }
  destruct (unref_one _ _ _ _ _ Hm') as (h' & E' & _ & Hmx & [f Hfr] & Hu).
  rewrite E in E'. injection E' as <-.
  exists (free ++ if last_ref m id then [id] else []).
  eapply (enc_mem_inv _ _ m); [done|done|done|exact Hmx|exact Hfr| |].
  - intros Hid. apply (mem_disjoint _ _ _ _ id Hm'); [set_solver|]. rewrite fmap_app. set_solver.
  - revert Hu. apply mem_perm; [done|]. destruct (last_ref m id); simpl; solve_Permutation.
Qed.

Lemma enc_step_inv n max s e s' g pl free fl hd :
  enc_inv n max s g pl free fl hd → enc_step s e s' →
  ∃ free' fl' hd', enc_inv n max s' (expect max g e) (pl ++ played [e]) free' fl' hd'.
Proof.
  intros Hinv Hst. destruct g as [[ts hand'] sent].
  assert (∀ e', (∀ it, e' ≠ EPlay it) → pl ++ played [e'] = pl) as Hpl.
  { intros e' He. destruct e'; try (by unfold played; simpl; rewrite app_nil_r). by edestruct He. }
  destruct Hst; try (rewrite Hpl by done).
  - edestruct enc_read_inv as (? & ? & ?); [exact Hinv|exact H|]. eauto.
  - edestruct enc_send_inv as (? & ? & ?); [exact Hinv|exact H|]. eauto.
  - destruct Hinv as [Hm Hgd Hmx Hex Hn Hh Hone Hg]. exists free, fl, hd. unfold exchanger_read_byte in H.
    destruct (pipe (e_ex m)) eqn:Hp; [done|]. injection H as <-. split; simpl in *; try done.
    + by revert Hm; apply mem_eq.
    + destruct Hex. split; simpl in *; try done. lia.
  - destruct Hinv as [Hm Hgd Hmx Hex Hn Hh Hone Hg]. simpl in *.
    destruct fl as [|[x it'] fl]; [destruct Hex; simpl in *; lia|].
    destruct (take_spec _ _ _ Hex) as (ex' & E & Hi & Hl). rewrite H in E. injection E as <- <-.
    assert (it' = it) as ->.
    { assert (frame_item m id = Some it') as E; [|congruence]. eapply mi_items; [exact Hm|set_solver]. }
    exists free, fl, hd. split; simpl; try done; [|by lia|by rewrite Hg, <- (assoc_L (++))].
    apply (mem_eq m); [done|done|]. revert Hm. apply mem_perm; [solve_Permutation|done].
  - exists free, fl, hd. by eapply enc_ref_inv.
  - edestruct enc_unref_inv as [? ?]; [exact Hinv|exact H|]. eauto.
  - pose proof (au_mem _ _ _ _ _ _ _ _ Hinv) as Hm. simpl in Hm.
    destruct (mem_new _ _ _ _ _ _ Hm H) as (free' & -> & Hm' & Hmx & f & _ & Hfr).
    exists free', fl, hd. eapply (enc_mem_inv _ _ m); [done|done|done|exact Hmx|exact Hfr| |exact Hm'].
    intros Hid. apply (mem_disjoint _ _ _ _ id Hm); [set_solver|]. rewrite fmap_app. set_solver.
  - pose proof (au_mem _ _ _ _ _ _ _ _ Hinv) as Hm. simpl in Hm.
    exists free, fl, hd. eapply (enc_mem_inv _ _ m); [done|done|done|done|done| |by eapply mem_write].
    intros Hid. apply (mem_disjoint _ _ _ _ id Hm); [set_solver|]. rewrite fmap_app. set_solver.
  - edestruct enc_other_inv as [? ?]; [exact Hinv|exact H|]. eauto.
Qed.

Lemma enc_run_inv n max s0 p0 tr s free :
  enc_inv n max s0 (p0, None, []) [] free [] None → enc_run s0 tr s →
  ∃ free fl hd, enc_inv n max s (foldl (expect max) (p0, None, []) tr) (played tr) free fl hd.
Proof.
  intros H0. induction 1 as [s|s s' s'' tr e Hr IH Hs]; [by eauto|].
  destruct (IH H0) as (free' & fl & hd & Hi).
  destruct (enc_step_inv _ _ _ _ _ _ _ _ _ _ Hi Hs) as (free2 & fl2 & hd2 & Hi2).
  exists free2, fl2, hd2. rewrite foldl_app. unfold played in *. rewrite bind_app. exact Hi2.
Qed.

(** The state in which [end_block] starts the thread. *)
Definition enc_start (p : P) (h : heap) (ex : frame_exchanger) (buf : gmap nat (list Z)) : sys :=
  mkAud (mkEnc p h ex buf) false None [] [].

Lemma enc_start_inv p0 g sz count h n ex buf :
  good p0 → init_frame_heap g sz count = Ok h → new_exchanger n = Ok ex →
  (∀ id, (id < Z.to_nat count)%nat → is_Some (buf !! id)) →
  enc_inv (Z.to_nat n) sz (enc_start p0 h ex buf) (p0, None, []) [] (seq 0 (Z.to_nat count)) [] None.
Proof.
  intros Hg Hh Hex Hbuf. destruct (ex_inv_init _ _ Hex) as [Hi Hl].
  assert (0 < count) as Hc by (unfold init_frame_heap in Hh; case_decide; [done|lia]).
  destruct (init_frame_heap_inv g sz count Hc) as (h' & Hh' & Hinv). rewrite Hh in Hh'. injection Hh' as <-.
  unfold init_frame_heap in Hh. rewrite decide_False in Hh by lia. injection Hh as <-.
  split; simpl; try done. split; simpl; try done.
  - rewrite app_nil_r. apply NoDup_seq.
  - set_solver.
  - intros id f Hf. apply elem_of_list_to_map_2, list_elem_of_fmap in Hf as (i & [= -> ->] & Hin).
    split; [done|]. split; [apply Hbuf; rewrite elem_of_seq in Hin; lia|]. done.
  - set_solver.
Qed.

(** Running the loop of the thread alone is one of the runs. *)
Lemma enc_loop_runs n max rs s0 : ∀ m rd out oth g pl free fl hd tr0,
  enc_inv n max (mkAud m rd None out oth) g pl free fl hd → Forall (λ r, r.2 = true) rs →
  enc_run s0 tr0 (mkAud m rd None out oth) →
  ∃ m' tr, enc_loop m rs = Ok (Some m') ∧ enc_run s0 (tr0 ++ tr) (mkAud m' rd None out oth).
Proof.
  induction rs as [|[r ok] rs IH]; intros m rd out oth g pl free fl hd tr0 Hi Hok Hr.
  { exists m, []. by rewrite app_nil_r. }
  apply Forall_cons in Hok as [Ew Hok]. simpl in Ew. subst ok. simpl.
  destruct (enc_fill_spec m r _ _ _ (au_mem _ _ _ _ _ _ _ _ Hi) (au_good _ _ _ _ _ _ _ _ Hi))
    as (_ & _ & m1 & o & _ & _ & E & _). rewrite E. simpl.
  edestruct enc_read_inv as (free1 & hd1 & Hi1); [exact Hi|exact E|].
  pose proof (enc_run_snoc _ _ _ _ _ Hr (enc_read _ rd out oth _ _ _ E)) as Hr1.
  destruct o as [id|]; [|edestruct IH as (m' & tr & E' & R'); [exact Hi1|done|exact Hr1|];
    exists m'; eexists; split; [done|]; rewrite <- (assoc_L (++)) in R'; exact R'].
  pose proof Hi1 as [Hm1 _ _ Hex1 _ Hh Hone _]. simpl in *. destruct hd1 as [[[? it] ?]|]; [|done].
  injection Hh as <- <-.
  destruct (enc_deliver_spec m1 rd id r it _ _ _ _ Hm1 Hex1 (Hone _ _ eq_refl)) as (m2 & E2 & _). rewrite E2. simpl.
  edestruct enc_send_inv as (free2 & fl2 & Hi2); [exact Hi1|exact E2|].
  pose proof (enc_run_snoc _ _ _ _ _ Hr1 (enc_send _ rd _ _ out oth _ E2)) as Hr2.
  edestruct IH as (m' & tr & E' & R'); [exact Hi2|done|exact Hr2|].
  exists m'. eexists. split; [done|]. rewrite <- !(assoc_L (++)) in R'. exact R'.
Qed.

(** ** The stream of an encoder

    What every encoder of the program gets from the interface: see
    [Alaw.audio_path] and [Video.video_path]. *)
Definition stream_ok (n max : Z) (tr : list enc_event) (s : sys) (p : P) (acc : list item) : Prop :=
  priv (a_enc s) = p ∧ good p ∧
  (∀ id it, (id, it) ∈ a_out s → frame_item (a_enc s) id = Some it) ∧
  ∃ q, acc = played tr ++ q ∧ Z.of_nat (length q) < n ∧
    (∀ r, ∃ p' off m o, offer max p r = Ok (p', off) ∧ enc_fill (a_enc s) r = Ok (m, o) ∧
      (is_Some off → o = None → ∃ h, new_frame (e_heap (a_enc s)) = Ok (h, None))) ∧
    (∀ id r, a_hand s = Some (id, r) → ∃ m, enc_deliver (a_enc s) id r true = Ok (Some m) ∧
      (pipe (e_ex m) = pipe (e_ex (a_enc s)) ↔ Z.of_nat (length q) = n - 1)) ∧
    (∀ rs, a_hand s = None → Forall (λ r, r.2 = true) rs →
      ∃ m tr', enc_loop (a_enc s) rs = Ok (Some m) ∧
        enc_run s tr' (mkAud m (a_reading s) None (a_out s) (a_oth s))).

Lemma encoder_stream p0 g sz count h n ex buf tr s p hand acc :
  good p0 → init_frame_heap g sz count = Ok h → new_exchanger n = Ok ex →
  (∀ id, (id < Z.to_nat count)%nat → is_Some (buf !! id)) →
  enc_run (enc_start p0 h ex buf) tr s → foldl (expect sz) (p0, None, []) tr = (p, hand, acc) →
  stream_ok n sz tr s p acc.
Proof.
  intros Hg0 Hh Hex Hbuf Hrun Hexp.
  assert (0 < n) as Hn0 by (unfold new_exchanger in Hex; case_decide; [done|lia]).
  destruct (enc_run_inv _ _ _ _ _ _ _ (enc_start_inv _ _ _ _ _ _ _ _ Hg0 Hh Hex Hbuf) Hrun) as (free & fl & hd & Hinv).
  pose proof Hinv as [Hm Hg Hmx Hi Hn Hhd Hone Hexp']. rewrite Hexp in Hexp'. injection Hexp' as -> -> ->.
  split; [done|]. split; [done|]. split; [intros id it Hit; eapply mi_items; [exact Hm|set_solver]|].
  exists fl.*2. split; [done|]. rewrite length_fmap.
  pose proof (xi_len _ _ Hi) as Hlen. simpl in Hlen. rewrite Hn, length_fmap in Hlen.
  split; [lia|]. split; [|split].
  - intros r. destruct (enc_fill_spec _ r _ _ _ Hm Hg) as (p' & off & m & o & Eo & _ & E & _ & _ & _ & Hc).
    rewrite Hmx in Eo. exists p', off, m, o. split; [done|]. split; [done|].
    intros [[data hdr] ->] ->. destruct Hc as [_ ->]. exists (e_heap (a_enc s)). apply new_frame_empty, Hm.
  - intros id r Hid. rewrite Hid in Hhd. destruct hd as [[[? it] ?]|]; [|done]. injection Hhd as <- <-.
    destruct (enc_deliver_spec _ _ _ r _ _ _ _ _ Hm Hi (Hone _ _ Hid)) as (m & E & _ & _ & _ & Hc).
    exists m. split; [done|]. rewrite length_fmap, Hn in Hc. case_decide.
    + destruct Hc as [-> _]. split; [intros _; lia|done].
    + destruct Hc as [-> _]. split; lia.
  - intros rs Hno Hok. destruct s as [m rd hnd out oth]. simpl in *. subst hnd. destruct hd; [done|].
    eapply (enc_loop_runs _ _ _ _ _ _ _ _ _ _ _ _ _ []); [exact Hinv|done|constructor].
Qed.
End Thread.
