(* ===== verification/Alaw.v ===== *)
(** * The audio encoder (encoder-alaw.c)

    The thread of the encoder reads 16-bit samples from the microphone, encodes
    each as an A-law byte in a frame of the heap and delivers the frame: an
    instance of [Encoder]. The read of the device and whether the stream runs are
    arguments of an iteration. The sample encoder is compared with the decoder of
    G.711, and the frames are followed through the packetizer of [RtpPlain]. *)

From stdpp Require Import prelude gmap strings.
From S2P Require Import Prelude Frame Rtp RtpMedia RtpPlain Encoder.

(** ** Encoding one sample *)

Definition QUANT_MASK : Z := 15.
Definition SEG_SHIFT : Z := 4.
Definition seg_aend : list Z := [31; 63; 127; 255; 511; 1023; 2047; 4095].

(** The index of the first entry that is not below [val], the size of the table
    when there is none. *)
Fixpoint search (val : Z) (table : list Z) (i : Z) : Z :=
  match table with
  | [] => i
  | x :: table => if decide (val ≤ x) then i else search val table (i + 1)
  end.

Definition AlawEncode (pcm_val : Z) : Z :=
  let pcm_val := Z.shiftr pcm_val 3 in
  let '(mask, pcm_val) := if decide (0 ≤ pcm_val) then (213, pcm_val) else (85, s16 (- pcm_val - 1)) in
  let seg := search pcm_val seg_aend 0 in
  if decide (8 ≤ seg) then u8 (Z.lxor 127 mask)
  else
    let aval := u8 (Z.shiftl seg SEG_SHIFT) in
    let aval :=
      if decide (seg < 2) then Z.lor aval (Z.land (Z.shiftr pcm_val 1) QUANT_MASK)
      else Z.lor aval (Z.land (Z.shiftr pcm_val seg) QUANT_MASK) in
    u8 (Z.lxor aval mask).

(** The decoder of ITU-T G.711, at 16 bits: the middle of the interval a code
    stands for. *)
Definition alaw_decode (code : Z) : Z :=
  let a := Z.lxor code 85 in
  let q := Z.shiftl (Z.land a 15) 4 in
  let seg := Z.shiftr (Z.land a 112) 4 in
  let t := if decide (seg = 0) then q + 8
           else Z.shiftl (q + 264) (seg - 1) in
  if decide (Z.land a 128 = 0) then - t else t.

(** A code with segment [seg], interval [q] and sign mask [mask], as the encoder
    puts it together, and the magnitude the decoder gives it. *)
Definition alaw_code (mask seg q : Z) : Z := u8 (Z.lxor (Z.lor (u8 (Z.shiftl seg SEG_SHIFT)) q) mask).
Definition alaw_level (seg q : Z) : Z :=
  if decide (seg = 0) then 16 * q + 8 else (8 * q + 132) * 2 ^ seg.

Lemma decode_code seg q :
  0 ≤ seg < 8 → 0 ≤ q < 16 →
  alaw_decode (alaw_code 213 seg q) = alaw_level seg q ∧
  alaw_decode (alaw_code 85 seg q) = - alaw_level seg q.
Proof.
  intros Hs Hq.
  assert (Forall (λ s, Forall (λ q, alaw_decode (alaw_code 213 s q) = alaw_level s q ∧
    alaw_decode (alaw_code 85 s q) = - alaw_level s q) (seqZ 0 16)) (seqZ 0 8)) as H
    by (apply (bool_decide_unpack _); vm_compute; exact I).
  rewrite Forall_forall in H. specialize (H seg). rewrite elem_of_seqZ in H. specialize (H ltac:(lia)).
  rewrite Forall_forall in H. specialize (H q). rewrite elem_of_seqZ in H. apply H. lia.
Qed.

(** The segment of a magnitude below 4096, and its bounds. *)
Lemma search_bounds v :
  0 ≤ v < 4096 →
  let seg := search v seg_aend 0 in
  0 ≤ seg < 8 ∧ v < 32 * 2 ^ seg ∧ (0 < seg → 16 * 2 ^ seg ≤ v).
Proof.
  intros Hv. unfold seg_aend, search. repeat case_decide; vm_compute (2 ^ _); try lia.
Qed.

(** The interval of a magnitude in its segment. *)
Definition alaw_step (seg : Z) : Z := 2 ^ Z.max 1 seg.
Definition alaw_index (seg v : Z) : Z := (v `div` alaw_step seg) `mod` 16.

Lemma encode_code x :
  -32768 ≤ x < 32768 →
  let v := x `div` 8 in
  let w := if decide (0 ≤ v) then v else - v - 1 in
  let seg := search w seg_aend 0 in
  AlawEncode x = alaw_code (if decide (0 ≤ v) then 213 else 85) seg (alaw_index seg w) ∧ 0 ≤ w < 4096.
Proof.
  intros Hx v w seg.
  assert (0 ≤ w < 4096) as Hw.
  { pose proof (Z.div_mod x 8). pose proof (Z.mod_pos_bound x 8). subst w v. case_decide; lia. }
  split; [|done]. pose proof (search_bounds w Hw) as (Hs & _). fold seg in Hs.
  unfold AlawEncode. rewrite Z.shiftr_div_pow2 by lia. change (2 ^ 3) with 8. fold v.
  assert ((if decide (0 ≤ v) then (213, v) else (85, s16 (- v - 1))) =
    (if decide (0 ≤ v) then 213 else 85, w)) as ->.
  { subst w. case_decide; [done|]. f_equal. unfold s16. rewrite Z.mod_small; lia. }
  cbv iota beta. fold seg. rewrite (decide_False (P := 8 ≤ seg)) by lia.
  unfold alaw_code, alaw_index, alaw_step, QUANT_MASK. f_equal. f_equal.
  change 15 with (Z.ones 4). rewrite !Z.land_ones, !Z.shiftr_div_pow2 by lia. change (2 ^ 4) with 16.
  case_decide; [by rewrite Z.max_l by lia|by rewrite Z.max_r by lia].
Qed.

(** The level of a magnitude: within half an interval of every sample of it. *)
Lemma level_near w :
  0 ≤ w < 4096 →
  let seg := search w seg_aend 0 in
  let L := alaw_level seg (alaw_index seg w) in
  let half := 4 * alaw_step seg in
  0 ≤ alaw_index seg w < 16 ∧ L - half ≤ 8 * w ∧ 8 * w + 8 ≤ L + half ∧
  half ≤ Z.max 8 ((8 * w) `div` 32).
Proof.
  intros Hw seg. destruct (search_bounds w Hw) as (Hs & Hlt & Hge). fold seg in Hs, Hlt, Hge.
  cbv zeta. unfold alaw_index, alaw_level, alaw_step.
  split; [apply Z.mod_pos_bound; lia|].
  assert (seg = 0 ∨ seg = 1 ∨ seg = 2 ∨ seg = 3 ∨ seg = 4 ∨ seg = 5 ∨ seg = 6 ∨ seg = 7) as Hc by lia.
  clearbody seg.
  destruct Hc as [->|[->|[->|[->|[->|[->|[->| ->]]]]]]];
    [rewrite decide_True by done|rewrite decide_False by done..];
    vm_compute (Z.max 1 _); vm_compute (2 ^ _) in *; Z.to_euclidean_division_equations; lia.
Qed.

(** Companding, sample by sample. *)
Lemma companding x :
  -32768 ≤ x < 32768 →
  0 ≤ AlawEncode x < 256 ∧ Z.abs (alaw_decode (AlawEncode x) - x) ≤ Z.max 8 (Z.abs x `div` 32).
Proof.
  intros Hx. destruct (encode_code x Hx) as (E & Hw).
  set (v := x `div` 8) in *. set (w := if decide (0 ≤ v) then v else - v - 1) in *.
  destruct (level_near w Hw) as (Hq & Hlo & Hhi & Hhalf).
  destruct (search_bounds w Hw) as (Hs & _ & _).
  rewrite E. split; [apply Z.mod_pos_bound; lia|].
  destruct (decode_code _ _ Hs Hq) as [Hp Hn]. clear E.
  pose proof (Z.div_mod x 8). pose proof (Z.mod_pos_bound x 8).
  subst w. case_decide; rewrite ?Hp, ?Hn; subst v.
  + pose proof (Z.div_le_mono (8 * (x `div` 8)) (Z.abs x) 32). lia.
  + pose proof (Z.div_le_mono (8 * (- (x `div` 8) - 1)) (Z.abs x) 32). lia.
Qed.

(** C38. A-law companding at the encoder: for every 16-bit sample the code is a
    byte, and the decoder of G.711 turns it back into a value that differs from
    the sample by at most one part in 32 of its magnitude (or by 8 for small
    samples, half the finest interval); every code is the encoding of what it
    decodes to, so a decoded signal encodes without further loss. *)
Theorem alaw_companding :
  (∀ x, -32768 ≤ x < 32768 →
    0 ≤ AlawEncode x < 256 ∧
    Z.abs (alaw_decode (AlawEncode x) - x) ≤ Z.max 8 (Z.abs x `div` 32)) ∧
  (∀ c, 0 ≤ c < 256 → -32768 ≤ alaw_decode c < 32768 ∧ AlawEncode (alaw_decode c) = c).
Proof.
  split.
  - apply companding.
  - intros c Hc.
    assert (Forall (λ c, (-32768 ≤ alaw_decode c ∧ alaw_decode c < 32768) ∧ AlawEncode (alaw_decode c) = c)
      (seqZ 0 256)) as H by (apply (bool_decide_unpack _); vm_compute; exact I).
    rewrite Forall_forall in H. apply H. apply elem_of_seqZ. lia.
Qed.

(** ** The thread of the encoder *)

(** The 16-bit little-endian samples of the recording buffer; the odd byte at
    the end, if any, is not a sample. *)
Fixpoint pcm_samples (b : list Z) : list Z :=
  match b with
  | lo :: hi :: b => s16 (lo + 256 * hi) :: pcm_samples b
  | _ => []
  end.

(** The header the thread gives the frame it got from [new_frame]. *)
Definition alaw_header (len ts : Z) (f : frame) : frame :=
  mkFrame (ref_count f) (size f) (destructor f) FORMAT_ALAW 0 0 len 1 (step f) (d f) ts.

(** From [OSS_RecRead] to the frame: the state of the thread is its [timestamp];
    an iteration finds the [running] flag and the recording, [None] when the
    device reported an error. *)
Definition alaw_offer (max : Z) (timestamp : Z) (r : bool * option (list Z))
    : res (Z * option (list Z * (frame → frame))) :=
  let '(running, read) := r in
  match read with
  | None => Ok (timestamp, None)
  | Some pcm =>
      if negb running then Ok (timestamp, None) else
      let u32ALawDataSize := zlen pcm `quot` 2 in
      let timestamp := u32 (timestamp + u32ALawDataSize) in
      if decide (u32ALawDataSize > max) then Ok (timestamp, None) else
      Ok (timestamp, Some (AlawEncode <$> pcm_samples pcm, alaw_header u32ALawDataSize timestamp))
  end.

(** A reader looks at the format and the timestamp. *)
#[global] Instance alaw_producer : Producer Z (bool * option (list Z)) (Z * Z) := {
  view f := (format f, timestamp f);
  offer := alaw_offer;
  sent p _ := p;
  good _ := True }.

Lemma pcm_samples_length pcm : zlen pcm `quot` 2 = zlen (pcm_samples pcm).
Proof.
  rewrite Z.quot_div_nonneg by (unfold zlen; lia). unfold zlen.
  revert pcm. fix IH 1. intros [|x [|y pcm]]; [done|done|]. simpl.
  rewrite !Nat2Z.inj_succ, <- IH.
  replace (Z.succ (Z.succ (Z.of_nat (length pcm)))) with (Z.of_nat (length pcm) + 1 * 2) by lia.
  by rewrite Z.div_add by lia.
Qed.

Lemma alaw_codes_length pcm : zlen (AlawEncode <$> pcm_samples pcm) = zlen (pcm_samples pcm).
Proof. unfold zlen. by rewrite length_fmap. Qed.

#[global] Instance alaw_laws : ProducerLaws Z (bool * option (list Z)) (Z * Z).
Proof.
  split; [done| |done]. intros max ts [running [pcm|]] _; simpl; [|by eexists _, None].
  destruct running; simpl; [|by eexists _, None]. case_decide; [by eexists _, None|].
  eexists _, (Some (_, _)). split; [done|]. split; [done|]. rewrite alaw_codes_length.
  rewrite pcm_samples_length in *. split; [lia|]. split; try done.
  intros f. simpl. by rewrite alaw_codes_length.
Qed.

(** What a recording becomes: its position in the signal and its codes. *)
Definition recording (ts : Z) (pcm : list Z) : Z * list Z :=
  let codes := AlawEncode <$> pcm_samples pcm in (u32 (ts + zlen codes), codes).

Definition as_item (x : Z * list Z) : Z * Z * list Z := (FORMAT_ALAW, x.1, x.2).

(** The signal of a trace on a heap with frames of [max] bytes: the position, the
    recording in hand, and the recordings the exchanger accepted. *)
Definition signal : Type := Z * option (Z * list Z) * list (Z * list Z).
Definition mic_event : Type := @enc_event (bool * option (list Z)) (Z * Z).

Definition heard (max : Z) (g : signal) (e : mic_event) : signal :=
  let '(ts, hand, acc) := g in
  match e with
  | ERead (true, Some pcm) got =>
      let it := recording ts pcm in
      (it.1, if got && bool_decide (zlen (pcm_samples pcm) ≤ max) then Some it else None, acc)
  | ERead _ _ => (ts, None, acc)
  | ESend kept => (ts, None, acc ++ if kept then option_list hand else [])
  | _ => g
  end.

Definition same_signal (g : signal) (g' : Z * option (Z * Z * list Z * (bool * option (list Z))) * list (Z * Z * list Z)) : Prop :=
  g'.1.1 = g.1.1 ∧ fst <$> g'.1.2 = as_item <$> g.1.2 ∧ g'.2 = as_item <$> g.2.

Lemma heard_expect max tr g g' : same_signal g g' → same_signal (foldl (heard max) g tr) (foldl (expect max) g' tr).
Proof.
  revert g g'. induction tr as [|e tr IH]; intros g g' Hs; [done|]. simpl. apply IH. clear IH.
  destruct g as [[ts hand] acc], g' as [[ts' hand'] acc'], Hs as (Ets & Eh & Ea). simpl in *. subst ts' acc'.
  destruct e as [[[] [pcm|]] got|kept| | |]; simpl; try done; try (by destruct got).
  - unfold alaw_offer. simpl. rewrite pcm_samples_length. unfold recording. rewrite alaw_codes_length.
    case_decide; simpl.
    + rewrite bool_decide_false, andb_false_r by lia. by destruct got.
    + rewrite bool_decide_true, andb_true_r by lia. by destruct got.
  - destruct hand' as [[it r]|], hand as [x|]; try done; simpl in *.
    + injection Eh as ->. unfold same_signal. simpl. rewrite fmap_app. by destruct kept.
    + destruct kept; by rewrite app_nil_r.
Qed.

(** C5. The audio path from the microphone to the event loop, under every
    interleaving of the thread of the encoder, the event loop and the threads of
    other encoders on the same frame heap: the items the event loop finds in the
    frames it takes are, in order, the recordings the exchanger accepted, each
    with the A-law codes of all its samples and the position of its end in the
    signal as timestamp, and at most three wait in the exchanger; a frame the
    event loop holds keeps its item until the last reference is dropped; the
    loop of the thread never faults or blocks while the pipe can be written; and a
    recording is lost only when it does not fit a frame, the heap has no free
    frame or three items are waiting. *)
Theorem audio_path g sz count h ex buf tr s ts hand acc :
  init_frame_heap g sz count = Ok h → new_exchanger 4 = Ok ex →
  (∀ id, (id < Z.to_nat count)%nat → is_Some (buf !! id)) →
  enc_run (enc_start 0 h ex buf) tr s → foldl (heard sz) (0, None, []) tr = (ts, hand, acc) →
  priv (a_enc s) = ts ∧
  (∀ id it, (id, it) ∈ a_out s → frame_item (a_enc s) id = Some it) ∧
  ∃ q, as_item <$> acc = played tr ++ q ∧ (length q ≤ 3)%nat ∧
    (∀ running read, ∃ m o, enc_fill (a_enc s) (running, read) = Ok (m, o) ∧
      (∀ pcm, running = true → read = Some pcm → o = None →
        (∃ h', new_frame (e_heap (a_enc s)) = Ok (h', None)) ∨ sz < zlen (pcm_samples pcm))) ∧
    (∀ id r, a_hand s = Some (id, r) → ∃ m, enc_deliver (a_enc s) id r true = Ok (Some m) ∧
      (pipe (e_ex m) = pipe (e_ex (a_enc s)) ↔ length q = 3%nat)) ∧
    (∀ rs, a_hand s = None → Forall (λ r, r.2 = true) rs →
      ∃ m tr', enc_loop (a_enc s) rs = Ok (Some m) ∧
        enc_run s tr' (mkAud m (a_reading s) None (a_out s) (a_oth s))).
Proof.
  intros Hh Hex Hbuf Hrun Hs.
  destruct (foldl (expect sz) (0, None, []) tr) as [[p hand'] acc'] eqn:E.
  assert (same_signal (ts, hand, acc) (p, hand', acc')) as (Ep & _ & Ea).
  { rewrite <- Hs, <- E. by apply heard_expect. }
  simpl in Ep, Ea. subst p acc'.
  destruct (encoder_stream (Prod := alaw_producer) 0 g sz count h 4 ex buf tr s _ _ _ I Hh Hex Hbuf Hrun E)
    as (Hp & _ & Hout & q & Hq & Hl & Hfill & Hdel & Hloop).
  split; [done|]. split; [done|]. exists q. split; [done|]. split; [lia|]. split; [|split; [|done]].
  - intros running read. destruct (Hfill (running, read)) as (p' & off & m & o & Eo & Ef & Hlost).
    exists m, o. split; [done|]. intros pcm -> -> ->. simpl in Eo. rewrite pcm_samples_length in Eo.
    case_decide; [right; lia|]. injection Eo as <- <-. left. by apply Hlost.
  - intros id r Hid. destruct (Hdel id r Hid) as (m & Em & Hm). exists m. split; [done|]. rewrite Hm. lia.
Qed.

(** ** From the microphone to the packets *)

Lemma pcm_samples_range pcm : Forall (λ x, -32768 ≤ x < 32768) (pcm_samples pcm).
Proof.
  revert pcm. fix IH 1. intros [|x [|y pcm]]; simpl; [constructor|constructor|].
  constructor; [|apply IH]. unfold s16. pose proof (Z.mod_pos_bound (x + 256 * y + 32768) 65536). lia.
Qed.

(** C15. The audio path from a recording to the receiver: the packetizer of an
    A-law stream sends the frame of a recording to any endpoint whose packets
    have room for a byte; the payloads, decoded as G.711 and joined, give back
    every sample, in order, to within one part in 32 (or 8 for small samples),
    under the static payload type 8; and each packet's timestamp is the
    recording's plus the number of samples sent before it. *)
Theorem audio_received {E} `{RtpSink E} (e : E) pcm ts0 out0 pl :
  RawAudio.new_rtp_media_rawaudio_stream FORMAT_ALAW 1 8000 = Ok out0 → 1 ≤ sink_mtu e →
  let it := recording ts0 pcm in
  let out := (RawAudio.rawaudio_process_frame out0 it.2 it.1).1 in
  let pkts := RawAudio.rawaudio_packets (sink_mtu e) out in
  let bytes := λ p, concat (pk_v p) in
  RawAudio.rawaudio_send e out = Ok (send_seq e pkts) ∧ RawAudio.rawaudio_get_payload out pl = 8 ∧
  Forall2 (λ x y, Z.abs (y - x) ≤ Z.max 8 (Z.abs x `div` 32))
    (pcm_samples pcm) (alaw_decode <$> concat (bytes <$> pkts)) ∧
  ∀ k p, pkts !! k = Some p →
    pk_ts p = u32 (ts0 + zlen (pcm_samples pcm) + zlen (concat (bytes <$> take k pkts))).
Proof.
  intros [= <-] Hmtu it out pkts bytes.
  destruct (rawaudio_send_packets e out) as (Hs & Hb & _ & Hk); [done|done|done|].
  split; [exact Hs|]. split; [done|]. split.
  - fold pkts bytes in Hb. rewrite Hb. simpl. rewrite <- list_fmap_compose.
    rewrite Forall2_fmap_r. apply Forall_Forall2_diag.
    eapply Forall_impl; [apply pcm_samples_range|]. intros x Hx. by apply companding.
  - intros k p Hp. destruct (Hk _ _ Hp) as [_ ->]. fold pkts bytes. simpl.
    rewrite Z.div_1_r. unfold u32. rewrite Zplus_mod_idemp_l. unfold zlen. by rewrite length_fmap.
Qed.

(** *** Concrete instances *)

Definition demo_mic : enc Z :=
  mkEnc 0 (mkHeap (list_to_map [(0%nat, mkFrame 0 16 None 0 0 0 0 0 0 0 0); (1%nat, mkFrame 0 16 None 0 0 0 0 0 0 0 0)])
             [Some 0%nat; Some 1%nat] 0 0 false 16 2)
    (mkEx (replicate 4 (mkSlot 0 None)) 0 0 0 0) (list_to_map [(0%nat, []); (1%nat, [])]).

(** One recording of two samples, 1000 and -1000, delivered. *)
Definition demo_pcm : list Z := [232; 3; 24; 252].
Definition demo_read : bool * option (list Z) := (true, Some demo_pcm).
Definition demo_aud : option (@sys Z (bool * option (list Z)) (Z * Z)) :=
  match enc_fill demo_mic demo_read with
  | Ok (m, Some id) =>
      match enc_deliver m id demo_read true with
      | Ok (Some m) => Some (mkAud m false None [] [])
      | _ => None
      end
  | _ => None
  end.

Lemma audio_path_witness :
  ∃ s, demo_aud = Some s ∧ priv (a_enc s) = 2 ∧
    ∃ q, [(FORMAT_ALAW, 2, [250; 122])] = @played (bool * option (list Z)) (Z * Z) [] ++ q ∧ (length q ≤ 3)%nat.
Proof.
  destruct (enc_fill demo_mic demo_read) as [[m [id|]]|] eqn:E1; [|by vm_compute in E1..].
  destruct (enc_deliver m id demo_read true) as [[m'|]|] eqn:E2;
    [|by vm_compute in E1; simplify_eq; vm_compute in E2..].
  exists (mkAud m' false None [] []). split; [unfold demo_aud; by rewrite E1, E2|].
  destruct (audio_path blank_frame 16 2 (e_heap demo_mic) (e_ex demo_mic) (e_buf demo_mic)
    [ERead demo_read true; ESend true] (mkAud m' false None [] []) 2 None [(2, [250; 122])])
    as (Hts & _ & q & Hq & Hl & _).
  - vm_compute. reflexivity.
  - vm_compute. reflexivity.
  - intros [|[|id']]; [by eexists..|]. intros Hlt. vm_compute in Hlt. lia.
  - pose proof (enc_run_snoc _ _ _ [] _ (enc_run_nil _) (enc_read demo_mic false [] [] _ _ _ E1)) as R1.
    pose proof (enc_run_snoc _ _ _ _ _ R1 (enc_send m false id demo_read [] [] m' E2)) as R2.
    vm_compute in E1. injection E1 as <- <-. vm_compute in E2. injection E2 as <-. exact R2.
  - vm_compute. reflexivity.
  - split; [done|]. by exists q.
Defined.

Lemma audio_received_witness :
  let out := RawAudio.mkRaw [250; 122] FORMAT_ALAW 1 1 8000 2 in
  RawAudio.rawaudio_send (mkRec 1 []) out =
    Ok (send_seq (mkRec 1 []) (RawAudio.rawaudio_packets 1 out)).
Proof.
  refine (proj1 (audio_received (mkRec 1 []) demo_pcm 0 (RawAudio.mkRaw [] FORMAT_ALAW 1 1 8000 0) 96 _ _));
    vm_compute; [reflexivity|congruence].
Defined.
