(* ===== verification/Video.v ===== *)
(** * The video encoder (encoder-jpeg.c, JpegEnc.c)

    The thread of the encoder captures a picture, has the hardware encode it,
    copies the result to a frame and delivers it, no faster than the configured
    bit rate allows: an instance of [Encoder]. JpegEnc.c chooses the quality of
    the next picture from a table of the sizes it got before. The capture device,
    the hardware encoder and the clock are arguments of an iteration. *)

From stdpp Require Import prelude gmap strings.
From S2P Require Import Prelude Frame Conf Encoder Spook.

Local Open Scope c_scope.

(** ** Bit rate control (JpegEnc.c) *)

Definition MAX_Q_SCALE : Z := 15.
Definition INVALID_FRAME_SIZE : Z := 4294967295.
Definition DEF_FRAME_RATE : Z := 30.

(** [s_au32BRCTable] is a list of [MAX_Q_SCALE + 1] numbers of 32 bits. *)
Definition BRCInitTable (table : list Z) (u32QScale u32FrameSize : Z) : res (list Z * bool) :=
  if decide (u32QScale > MAX_Q_SCALE) then Ok (table, false)
  else table ← wr table u32QScale u32FrameSize; Ok (table, true).

(** The statement [table[dst] = (table[src] + size) / 2]. *)
Definition brc_average (table : list Z) (dst src size : Z) : res (list Z) :=
  x ← rd table src; wr table dst (u32 (x + size) `div` 2).

Definition BRCUpdateTable (table : list Z) (u32QScale u32FrameSize : Z) : res (list Z * bool) :=
  if decide (u32QScale > MAX_Q_SCALE) then Ok (table, false) else
  table ← wr table u32QScale u32FrameSize;
  table ←
    (if decide (u32QScale = MAX_Q_SCALE) then
       brc_average table (MAX_Q_SCALE - 1) (MAX_Q_SCALE - 2) u32FrameSize
     else if decide (u32QScale = MAX_Q_SCALE - 1) then
       table ← brc_average table MAX_Q_SCALE MAX_Q_SCALE u32FrameSize;
       brc_average table (u32QScale - 1) (u32QScale - 2) u32FrameSize
     else if decide (u32QScale = 1) then brc_average table 2 3 u32FrameSize
     else if decide (u32QScale = 2) then
       table ← brc_average table 1 1 u32FrameSize;
       brc_average table 3 4 u32FrameSize
     else
       table ← brc_average table (u32QScale + 1) (u32QScale + 2) u32FrameSize;
       brc_average table (u32 (u32QScale - 1)) (u32 (u32QScale - 2)) u32FrameSize);
  Ok (table, true).

(** The loop of BRCGetQScale from [i] down: the first entry above the size. *)
Fixpoint brc_search (table : list Z) (size : Z) (i : nat) : res Z :=
  match i with
  | O => Ok 0
  | S i' => x ← rd table (Z.of_nat i); if decide (x > size) then Ok (Z.of_nat i) else brc_search table size i'
  end.

Definition BRCGetQScale (table : list Z) (u32BitRate u32FrameRate : Z) : res (list Z * Z) :=
  if decide (u32FrameRate = 0) then Fault DivByZero else
  let u32FrameSize := (u32BitRate `div` 8) `div` u32FrameRate in
  i ← brc_search table u32FrameSize (Z.to_nat MAX_Q_SCALE);
  table ←
    (if decide (i > 1) then
       x ← rd table (i - 1);
       if decide (x = INVALID_FRAME_SIZE) then wr table (i - 1) u32FrameSize else Ok table
     else Ok table);
  Ok (table, if decide (i < MAX_Q_SCALE) then i + 1 else i).

(** ** The hardware encoder (JpegEnc.c) *)

(** The static variables of JpegEnc.c that outlive a call. *)
Record jpeg_dev := mkDev {
  s_au32BRCTable : list Z;
  s_u32QScale : Z;
  s_u32JpegBufSize : Z }.

(** The end of InitJpegDevice; [s_au32BRCTable[0]] and [s_u32QScale] have the 0 of
    static variables. *)
Fixpoint init_table (table : list Z) (i : Z) (n : nat) : res (list Z) :=
  match n with
  | O => Ok table
  | S n => '(table, _) ← BRCInitTable table i INVALID_FRAME_SIZE; init_table table (i + 1) n
  end.

Definition InitJpegDevice (bufsize : Z) : res jpeg_dev :=
  table ← init_table (replicate (Z.to_nat (MAX_Q_SCALE + 1)) 0) 1 (Z.to_nat MAX_Q_SCALE);
  Ok (mkDev table 0 bufsize).

(** The choice of JpegEnc; [paddr] says that the picture has a physical address,
    [srcsize] is the size of the source, which the program leaves 0. The
    parameters are handed to the driver. *)
Definition JpegEnc (dev : jpeg_dev) (paddr : bool) (srcsize bitrate framerate : Z) : res (jpeg_dev * Z) :=
  if negb paddr && bool_decide (u32 (srcsize + 300000) > s_u32JpegBufSize dev) then Ok (dev, -1) else
  '(table, q) ← BRCGetQScale (s_au32BRCTable dev) bitrate framerate;
  Ok (mkDev table q (s_u32JpegBufSize dev), 0).

(** The size the driver reports for a picture has 32 bits. *)
Definition image_size (data : list Z) : Z := u32 (zlen data).

(** [done] is the picture the driver made, [None] when its read failed. *)
Definition WaitJpegEncDone (dev : jpeg_dev) (done : option (list Z)) : res (jpeg_dev * Z) :=
  match done with
  | None => Ok (dev, -1)
  | Some data =>
      '(table, _) ← BRCUpdateTable (s_au32BRCTable dev) (s_u32QScale dev) (image_size data);
      Ok (mkDev table (s_u32QScale dev) (s_u32JpegBufSize dev), s32 (image_size data))
  end.

(** ** The date on the picture (encoder-jpeg.c) *)

(** [%02d] and [%04d]. *)
Definition pad0 (w : nat) (z : Z) : list Z := replicate (w - length (fmt_d z)) 48 ++ fmt_d z.

Fixpoint copy_to (dst : list Z) (i : Z) (src : list Z) : res (list Z) :=
  match src with
  | [] => Ok dst
  | x :: src => dst ← wr dst i x; copy_to dst (i + 1) src
  end.

Fixpoint copies (dst : list Z) (l : list (Z * list Z)) : res (list Z) :=
  match l with
  | [] => Ok dst
  | (i, src) :: l => dst ← copy_to dst i src; copies dst l
  end.

(** The text for OverlapText, [junk] is the array before. [handle] says that
    TextOverlap_Init succeeded and the picture has an address; without it
    DateOverlap returns at once. *)
Definition DateOverlap (handle : bool) (junk : list Z) (year mon mday hour min sec : Z) : res (option (list Z)) :=
  if negb handle then Ok None else
  let achCurDateTime :=
    take 15 (pad0 4 year ++ pad0 2 (mon + 1) ++ pad0 2 mday ++ pad0 2 hour ++ pad0 2 min ++ pad0 2 sec ++ $"00") in
  let part i n := slice achCurDateTime i n in
  achDateTime ← copies junk
    [(0, part 0 4); (4, [47]); (5, part 4 2); (7, [47]); (8, part 6 2); (10, [32]);
     (11, part 8 2); (13, [58]); (14, part 10 2); (16, [58]); (17, part 12 2); (19, [32]); (20, [0])];
  Ok (Some achDateTime).

(** ** The thread of the encoder (encoder-jpeg.c) *)

(** The local variables of jpeg_loop that outlive an iteration, with the state of
    JpegEnc.c. *)
Record jpeg_state := mkJs {
  u64StartBitRateTime : Z;
  u32SendDataBytes : Z;
  u32UpdateFrameTime : Z;
  u32SendFrame : Z;
  u64NextFrameTime : Z;
  dev : jpeg_dev }.

(** What an iteration finds: the running flag, the clock at the test of the pace,
    whether the capture succeeded, the date, whether the picture has a physical
    address, the clock before encoding, the encoded picture and the clock when the
    statistics are reset. *)
Record jpeg_read := mkJr {
  jr_running : bool;
  jr_now : Z;
  jr_vin : bool;
  jr_date : list Z;
  jr_paddr : bool;
  jr_cur : Z;
  jr_done : option (list Z);
  jr_later : Z }.

(** The pace: the time to the next frame after one of [size] bytes. *)
Definition frame_time (u32DesireBitRate size old : Z) : Z :=
  if decide (u32DesireBitRate = 0) then old else
  let dMaybeFR := (u32DesireBitRate `div` 8) `div` size in
  let dMaybeFR := if decide (dMaybeFR = 0) then 1 else dMaybeFR in
  let dMaybeFR := if decide (dMaybeFR > DEF_FRAME_RATE) then DEF_FRAME_RATE else dMaybeFR in
  let t := 1000 `div` dMaybeFR in
  let t := (t `div` 10) * 10 in
  if decide (t > 10) then t - 10 else t.

Section Thread.
(** The configuration of the encoder, and whether TextOverlap_Init succeeded. *)
Context (en : jpeg_encoder) (text_ok : bool).

(** The size of the encoded picture. *)
Definition dst_width : Z := if decide (u32JpegPacketPipe en = 0) then u32JpegWidth en else u32VinPacketWidth en.
Definition dst_height : Z := if decide (u32JpegPacketPipe en = 0) then u32JpegHeight en else u32VinPacketHeight en.

Definition jpeg_header (len : Z) (f : frame) : frame :=
  mkFrame (ref_count f) (size f) (destructor f) FORMAT_JPEG (s32 dst_width) (s32 dst_height) len 1 (step f) (d f)
    (timestamp f).

Definition with_dev (dv : jpeg_dev) (p : jpeg_state) : jpeg_state :=
  mkJs (u64StartBitRateTime p) (u32SendDataBytes p) (u32UpdateFrameTime p) (u32SendFrame p) (u64NextFrameTime p) dv.

(** An iteration up to [new_frame]. *)
Definition jpeg_offer (max : Z) (p : jpeg_state) (r : jpeg_read)
    : res (jpeg_state * option (list Z * (frame → frame))) :=
  if negb (jr_running r) then Ok (p, None) else
  if decide (u64NextFrameTime p > u64 (jr_now r + 10)) then Ok (p, None) else
  if negb (jr_vin r) then Ok (p, None) else
  _ ← (if decide (u32Overlapping en = 0) then Ok None
       else match jr_date r with
            | [year; mon; mday; hour; min; sec] =>
                DateOverlap text_ok (replicate 20 0) year mon mday hour min sec
            | _ => Ok None
            end);
  '(dv, _) ← JpegEnc (dev p) (jr_paddr r) 0 (u32 (bitrate en)) DEF_FRAME_RATE;
  '(dv, i32JpegRet) ← WaitJpegEncDone dv (jr_done r);
  let p := with_dev dv p in
  if decide (i32JpegRet ≤ 0) then Ok (p, None) else
  match jr_done r with
  | None => Ok (p, None)
  | Some data =>
      let u32FrameSize := image_size data in
      if decide (u32FrameSize > max) then Ok (p, None)
      else Ok (p, Some (take (Z.to_nat u32FrameSize) data, jpeg_header u32FrameSize))
  end.

(** An iteration from [deliver_frame] on. *)
Definition jpeg_sent (p : jpeg_state) (r : jpeg_read) : jpeg_state :=
  let u32FrameSize := match jr_done r with Some data => image_size data | None => 0 end in
  let frames := u32 (u32SendFrame p + 1) in
  let bytes := u32 (u32SendDataBytes p + u32FrameSize) in
  let update := frame_time (u32 (bitrate en)) u32FrameSize (u32UpdateFrameTime p) in
  let next := u64 (jr_cur r + update) in
  if decide (u64 (jr_cur r - u64StartBitRateTime p) > 1000)
  then mkJs (jr_later r) 0 update 0 next (dev p)
  else mkJs (u64StartBitRateTime p) bytes update frames next (dev p).

(** A reader looks at the format, the size of the picture and the key flag; the
    timestamp of the frame is never set. *)
#[export] Instance jpeg_producer : Producer jpeg_state jpeg_read (Z * Z * Z * Z) := {
  view f := (format f, width f, height f, key f);
  offer := jpeg_offer;
  sent := jpeg_sent;
  good p := length (s_au32BRCTable (dev p)) = 16%nat ∧
    Forall (λ x, 0 ≤ x < 4294967296) (s_au32BRCTable (dev p)) ∧ 300000 ≤ s_u32JpegBufSize (dev p) }.
End Thread.

(** ** Bit rate control is sound *)

(** The table has its size and holds numbers of 32 bits. *)
Definition brc_ok (table : list Z) : Prop :=
  length table = 16%nat ∧ Forall (λ x, 0 ≤ x < 4294967296) table.

Lemma brc_rd table i : brc_ok table → 0 ≤ i < 16 → ∃ x, rd table i = Ok x ∧ table !! Z.to_nat i = Some x ∧ 0 ≤ x < 4294967296.
Proof.
  intros [Hl Hf] Hi. unfold rd. rewrite decide_False by lia.
  destruct (lookup_lt_is_Some_2 table (Z.to_nat i)) as [x Hx]; [lia|]. rewrite Hx.
  exists x. split; [done|]. split; [done|]. rewrite Forall_lookup in Hf. by eapply Hf.
Qed.

Lemma brc_wr table i x : brc_ok table → 0 ≤ i < 16 → 0 ≤ x < 4294967296 →
  wr table i x = Ok (<[Z.to_nat i := x]> table) ∧ brc_ok (<[Z.to_nat i := x]> table).
Proof.
  intros [Hl Hf] Hi Hx. unfold wr. rewrite decide_True by lia. split; [done|].
  split; [by rewrite length_insert|]. by apply Forall_insert.
Qed.

(** An average keeps the table in order and changes one entry. *)
Lemma brc_average_ok table dst src size :
  brc_ok table → 0 ≤ dst < 16 → 0 ≤ src < 16 →
  ∃ x, 0 ≤ x < 4294967296 ∧ brc_average table dst src size = Ok (<[Z.to_nat dst := x]> table) ∧
    brc_ok (<[Z.to_nat dst := x]> table).
Proof.
  intros Ht Hd Hs. unfold brc_average. destruct (brc_rd table src Ht Hs) as (x & -> & _ & _). simpl.
  assert (0 ≤ u32 (x + size) `div` 2 < 4294967296) as Hv.
  { unfold u32. pose proof (Z.mod_pos_bound (x + size) 4294967296).
    split; [apply Z.div_pos; lia|apply Z.div_lt_upper_bound; lia]. }
  destruct (brc_wr table dst _ Ht Hd Hv) as [-> Hok]. eauto.
Qed.

Lemma brc_update_ok table q size :
  brc_ok table → 1 ≤ q ≤ 15 → 0 ≤ size < 4294967296 →
  ∃ table', BRCUpdateTable table q size = Ok (table', true) ∧ brc_ok table' ∧ table' !! Z.to_nat q = Some size.
Proof.
  intros Ht Hq Hs. unfold BRCUpdateTable, MAX_Q_SCALE. rewrite decide_False by lia.
  destruct (brc_wr table q size Ht) as [-> Ht1]; [lia|done|]. simpl.
  assert (<[Z.to_nat q := size]> table !! Z.to_nat q = Some size) as Hq1.
  { apply list_lookup_insert_eq. destruct Ht. lia. }
  set (t1 := <[Z.to_nat q := size]> table) in *. clearbody t1.
  assert (∀ dst src t, brc_ok t → t !! Z.to_nat q = Some size → 0 ≤ dst < 16 → 0 ≤ src < 16 → dst ≠ q →
    ∃ t', brc_average t dst src size = Ok t' ∧ brc_ok t' ∧ t' !! Z.to_nat q = Some size) as Havg.
  { intros dst src t Ht' Hl Hd Hsr Hne. destruct (brc_average_ok t dst src size Ht' Hd Hsr) as (x & _ & -> & Hok).
    eexists. split; [done|]. split; [done|]. by rewrite list_lookup_insert_ne by lia. }
  assert (∀ d1 s1 d2 s2, 0 ≤ d1 < 16 → 0 ≤ s1 < 16 → 0 ≤ d2 < 16 → 0 ≤ s2 < 16 → d1 ≠ q → d2 ≠ q →
    ∃ t', (t ← brc_average t1 d1 s1 size; brc_average t d2 s2 size) = Ok t' ∧ brc_ok t' ∧ t' !! Z.to_nat q = Some size)
    as Havg2.
  { intros d1 s1 d2 s2 ??????. destruct (Havg d1 s1 t1) as (t2 & -> & ? & ?); [done..|]. simpl. by apply Havg. }
  assert (∃ t', (if decide (q = 15) then brc_average t1 (15 - 1) (15 - 2) size
     else if decide (q = 15 - 1) then t ← brc_average t1 15 15 size; brc_average t (q - 1) (q - 2) size
     else if decide (q = 1) then brc_average t1 2 3 size
     else if decide (q = 2) then t ← brc_average t1 1 1 size; brc_average t 3 4 size
     else t ← brc_average t1 (q + 1) (q + 2) size; brc_average t (u32 (q - 1)) (u32 (q - 2)) size) = Ok t' ∧
     brc_ok t' ∧ t' !! Z.to_nat q = Some size) as (t' & -> & ? & ?); [|simpl; by eauto].
  repeat case_decide; [apply Havg|apply Havg2|apply Havg|apply Havg2|apply Havg2]; auto; try lia;
    unfold u32; rewrite Z.mod_small by lia; lia.
Qed.

(** The search stops at the largest entry that is too big. *)
Lemma brc_search_ok table size n :
  brc_ok table → (n < 16)%nat →
  ∃ i, brc_search table size n = Ok i ∧ 0 ≤ i ≤ Z.of_nat n ∧
    (∀ j x, i < j ≤ Z.of_nat n → table !! Z.to_nat j = Some x → x ≤ size) ∧
    (0 < i → ∃ x, table !! Z.to_nat i = Some x ∧ size < x).
Proof.
  intros Ht. induction n as [|n IH]; intros Hn; [exists 0; simpl; split_and!; auto with lia|].
  unfold brc_search. fold brc_search.
  destruct (brc_rd table (Z.of_nat (S n)) Ht) as (x & -> & Hx & _); [lia|]. simpl.
  case_decide.
  - exists (Z.of_nat (S n)). split; [done|]. split; [lia|]. split; [lia|]. intros _. exists x. split; [done|lia].
  - destruct IH as (i & Ei & Hi & Hle & Hgt); [lia|]. exists i. split; [done|]. split; [lia|]. split; [|done].
    intros j y Hj Hy. destruct (decide (j = Z.of_nat (S n))) as [->|]; [|by apply (Hle j); [lia|]].
    rewrite Hx in Hy. injection Hy as <-. lia.
Qed.

Lemma brc_get_ok table bitrate framerate :
  brc_ok table → 0 < framerate → 0 ≤ bitrate < 4294967296 →
  let target := (bitrate `div` 8) `div` framerate in
  ∃ table1 q, BRCGetQScale table bitrate framerate = Ok (table1, q) ∧ brc_ok table1 ∧ 1 ≤ q ≤ MAX_Q_SCALE ∧
    (∀ j x, q ≤ j ≤ MAX_Q_SCALE → table !! Z.to_nat j = Some x → x ≤ target ∨ q = MAX_Q_SCALE) ∧
    (1 < q < MAX_Q_SCALE → ∃ x, table !! Z.to_nat (q - 1) = Some x ∧ target < x).
Proof.
  intros Ht Hf Hb target. unfold BRCGetQScale, MAX_Q_SCALE. rewrite decide_False by lia. fold target.
  destruct (brc_search_ok table target (Z.to_nat 15) Ht) as (i & -> & Hi & Hle & Hgt); [lia|]. simpl.
  assert (0 ≤ target < 4294967296) as Htg.
  { subst target. split; [apply Z.div_pos; [apply Z.div_pos|]; lia|].
    apply Z.div_lt_upper_bound; [lia|]. apply Z.div_lt_upper_bound; nia. }
  assert (∃ table1, (if decide (i > 1) then
       x ← rd table (i - 1);
       if decide (x = INVALID_FRAME_SIZE) then wr table (i - 1) target else Ok table
     else Ok table) = Ok table1 ∧ brc_ok table1) as (table1 & -> & Ht1).
  { case_decide; [|by eauto]. destruct (brc_rd table (i - 1) Ht) as (x & -> & _); [lia|]. simpl.
    case_decide; [|by eauto]. destruct (brc_wr table (i - 1) target Ht) as [-> ?]; [lia|done|]. by eauto. }
  simpl. eexists table1, _. split; [done|]. split; [done|]. split; [case_decide; lia|]. split.
  - intros j x Hj Hx. case_decide; [|right; lia]. left. by apply (Hle j); [lia|].
  - intros Hq'. case_decide; [|lia]. replace (i + 1 - 1) with i by lia. apply Hgt. lia.
Qed.

(** C17. Bit rate control: from any table the choice is a quality the table has an
    entry for; every stronger compression is estimated to fit the size a frame may
    have, unless even the strongest is not, and the next weaker one is not; and
    noting the size of the picture made at that quality stays inside the table. *)
Theorem brc_qscale table bitrate framerate size :
  brc_ok table → 0 < framerate → 0 ≤ bitrate < 4294967296 → 0 ≤ size < 4294967296 →
  let target := (bitrate `div` 8) `div` framerate in
  ∃ table1 table2 q, BRCGetQScale table bitrate framerate = Ok (table1, q) ∧ 1 ≤ q ≤ MAX_Q_SCALE ∧
    (∀ j x, q ≤ j ≤ MAX_Q_SCALE → table !! Z.to_nat j = Some x → x ≤ target ∨ q = MAX_Q_SCALE) ∧
    (1 < q < MAX_Q_SCALE → ∃ x, table !! Z.to_nat (q - 1) = Some x ∧ target < x) ∧
    BRCUpdateTable table1 q size = Ok (table2, true) ∧ brc_ok table2 ∧ table2 !! Z.to_nat q = Some size.
Proof.
  intros Ht Hf Hb Hs target. destruct (brc_get_ok table bitrate framerate Ht Hf Hb) as (table1 & q & E & Ht1 & Hq & ? & ?).
  destruct (brc_update_ok table1 q size Ht1 Hq Hs) as (table2 & Eu & ? & ?).
  exists table1, table2, q. do 6 (split; [done|]). done.
Qed.

(** The average with an entry that is not known yet, [INVALID_FRAME_SIZE], wraps
    around and makes it half the size of the picture. *)
Lemma brc_average_wraps table dst src size :
  rd table src = Ok INVALID_FRAME_SIZE → 1 ≤ size < 4294967296 → 0 ≤ dst < zlen table →
  brc_average table dst src size = Ok (<[Z.to_nat dst := (size - 1) `div` 2]> table).
Proof.
  intros Hr Hs Hd. unfold brc_average. rewrite Hr. simpl. unfold wr. rewrite decide_True by (unfold zlen in *; lia).
  do 3 f_equal. unfold u32, INVALID_FRAME_SIZE. replace (4294967295 + size) with (size - 1 + 1 * 4294967296) by lia.
  rewrite Z.mod_add, Z.mod_small by lia. done.
Qed.

(** The date is written past the end of its array of 20: whenever it is put on
    the picture, whatever the date. *)
Lemma copies_overrun l : ∀ t, length t = 20%nat → ∃ e, copies t (l ++ [(20, [0])]) = Fault e.
Proof.
  assert (∀ src t i t', length t = 20%nat → copy_to t i src = Ok t' → length t' = 20%nat) as Hc.
  { induction src as [|x src IH]; intros t i t' Ht; simpl; [by intros [= <-]|].
    unfold wr. case_decide; [|done]. simpl. apply IH. by rewrite length_insert. }
  induction l as [|[i src] l IH]; intros t Ht; simpl.
  - unfold wr. rewrite decide_False by lia. by eexists.
  - destruct (copy_to t i src) eqn:E; simpl; [|by eexists]. apply IH. by eapply Hc.
Qed.

Lemma date_overlap_overruns junk year mon mday hour min sec :
  length junk = 20%nat → ∃ e, DateOverlap true junk year mon mday hour min sec = Fault e.
Proof.
  intros Hl. unfold DateOverlap. simpl negb. cbv iota zeta.
  match goal with |- context [copies _ ?l] => set (L := l) end.
  assert (L = take 12 L ++ [(20, [0])]) as -> by done.
  destruct (copies_overrun (take 12 L) junk Hl) as [e ->]. by exists e.
Qed.

(** ** The thread keeps its promises *)

Lemma jpeg_enc_ok dv paddr bitrate :
  brc_ok (s_au32BRCTable dv) → 300000 ≤ s_u32JpegBufSize dv → 0 ≤ bitrate < 4294967296 →
  ∃ table q, JpegEnc dv paddr 0 bitrate DEF_FRAME_RATE = Ok (mkDev table q (s_u32JpegBufSize dv), 0) ∧
    brc_ok table ∧ 1 ≤ q ≤ 15.
Proof.
  intros Ht Hb Hr. unfold JpegEnc. change (u32 (0 + 300000)) with 300000.
  rewrite bool_decide_false, andb_false_r by lia.
  destruct (brc_get_ok (s_au32BRCTable dv) bitrate DEF_FRAME_RATE Ht) as (table & q & -> & ? & ? & _); [done|done|].
  by exists table, q.
Qed.

Lemma image_size_range data : 0 ≤ image_size data < 4294967296 ∧ image_size data ≤ zlen data.
Proof.
  unfold image_size, u32. split; [apply Z.mod_pos_bound; lia|]. apply Z.mod_le; [apply zlen_nonneg|lia].
Qed.

Lemma wait_done_ok dv done :
  brc_ok (s_au32BRCTable dv) → 1 ≤ s_u32QScale dv ≤ 15 →
  ∃ dv' n, WaitJpegEncDone dv done = Ok (dv', n) ∧ brc_ok (s_au32BRCTable dv') ∧
    s_u32JpegBufSize dv' = s_u32JpegBufSize dv ∧ (n ≤ 0 ∨ ∃ data, done = Some data ∧ 0 < image_size data).
Proof.
  intros Ht Hq. destruct done as [data|]; [|exists dv, (-1); simpl; auto with lia]. simpl.
  destruct (image_size_range data) as [Hi _].
  destruct (brc_update_ok _ _ _ Ht Hq Hi) as (table & -> & Ht' & _). simpl.
  eexists _, _. split; [done|]. split; [done|]. split; [done|].
  destruct (decide (0 < image_size data)); [right; eauto|left]. assert (image_size data = 0) as -> by lia. done.
Qed.

Section Laws.
Context (en : jpeg_encoder) (text_ok : bool) (no_date : u32Overlapping en = 0 ∨ text_ok = false).
#[local] Existing Instance jpeg_producer.

#[export] Instance jpeg_laws : ProducerLaws jpeg_state jpeg_read (Z * Z * Z * Z) (H := jpeg_producer en text_ok).
Proof using no_date.
  split; [done| |].
  - intros max p r (Hl & Hf & Hb). simpl. unfold jpeg_offer.
    assert (∃ x, (if decide (u32Overlapping en = 0) then Ok None
       else match jr_date r with
            | [year; mon; mday; hour; min; sec] => DateOverlap text_ok (replicate 20 0) year mon mday hour min sec
            | _ => Ok None
            end) = Ok x) as [x ->].
    { case_decide; [by eexists|]. destruct no_date as [| ->]; [done|].
      repeat case_match; by eexists. }
    destruct (jr_running r); simpl; [|by exists p, None].
    case_decide; [by exists p, None|]. destruct (jr_vin r); simpl; [|by exists p, None].
    destruct (jpeg_enc_ok (dev p) (jr_paddr r) (u32 (bitrate en))) as (table & q & -> & Ht & Hq);
      [done|done|apply Z.mod_pos_bound; lia|]. simpl.
    destruct (wait_done_ok (mkDev table q (s_u32JpegBufSize (dev p))) (jr_done r) Ht Hq)
      as (dv & n & -> & Ht' & Hbs & Hn). simpl. simpl in Hbs.
    assert (length (s_au32BRCTable dv) = 16%nat ∧ Forall (λ x, 0 ≤ x < 4294967296) (s_au32BRCTable dv) ∧
      300000 ≤ s_u32JpegBufSize dv) as Hg by (destruct Ht'; rewrite Hbs; done).
    case_decide; [by eexists _, None|]. destruct Hn as [?|(data & -> & Hpos)]; [done|].
    case_decide; [by eexists _, None|]. eexists _, (Some (_, _)). split; [done|]. split; [done|].
    destruct (image_size_range data) as [Hi Hle].
    assert (zlen (take (Z.to_nat (image_size data)) data) = image_size data) as Hz.
    { unfold zlen in *. rewrite length_take. lia. }
    rewrite Hz. split; [lia|]. split; done.
  - intros p r (Hl & Hf & Hb). simpl. unfold jpeg_sent. by case_decide.
Qed.
End Laws.

(** An item of the stream: a picture the hardware made while the stream was
    running, as the configuration describes it. *)
Definition jpeg_item (en : jpeg_encoder) (max : Z) (tr : list (@enc_event jpeg_read (Z * Z * Z * Z)))
    (it : Z * Z * Z * Z * list Z) : Prop :=
  it.1 = (FORMAT_JPEG, s32 (dst_width en), s32 (dst_height en), 1) ∧ zlen it.2 ≤ max ∧
  ∃ r got data, ERead r got ∈ tr ∧ jr_running r = true ∧ jr_vin r = true ∧ jr_done r = Some data ∧
    it.2 = take (Z.to_nat (image_size data)) data.

Lemma jpeg_offer_item en text_ok max p r p' data hdr got tr :
  jpeg_offer en text_ok max p r = Ok (p', Some (data, hdr)) → ERead r got ∈ tr →
  jpeg_item en max tr ((format (hdr (blank_frame 0)), width (hdr (blank_frame 0)), height (hdr (blank_frame 0)),
    key (hdr (blank_frame 0))), data).
Proof.
  unfold jpeg_offer. intros E Hr. destruct (jr_running r) eqn:Er; simpl in E; [|done]. case_decide; [done|].
  destruct (jr_vin r) eqn:Ev; simpl in E; [|done].
  match type of E with context [if decide (u32Overlapping en = 0) then ?a else ?b] => destruct (if decide (u32Overlapping en = 0) then a else b) end;
    [|done]. simpl in E.
  destruct (JpegEnc _ _ _ _ _) as [[dv n]|]; [|done]. simpl in E.
  destruct (WaitJpegEncDone dv (jr_done r)) as [[dv' n']|]; [|done]. simpl in E. case_decide; [done|].
  destruct (jr_done r) as [data'|] eqn:Ed; [|done]. case_decide; [done|]. injection E as _ <- <-. simpl.
  destruct (image_size_range data') as [Hi Hle].
  split; [done|]. split; [unfold zlen in *; simpl; rewrite length_take; lia|]. by exists r, got, data'.
Qed.

Lemma jpeg_items en text_ok max p0 tr :
  let g := foldl (expect (Prod := jpeg_producer en text_ok) max) (p0, None, []) tr in
  Forall (jpeg_item en max tr) g.2 ∧ ∀ it r, g.1.2 = Some (it, r) → jpeg_item en max tr it.
Proof.
  assert (∀ tr e it, jpeg_item en max tr it → jpeg_item en max (tr ++ [e]) it) as Hmono.
  { intros t e it (? & ? & r & got & data & Hin & ?). split; [done|]. split; [done|].
    exists r, got, data. split; [set_solver|done]. }
  induction tr as [|e tr IH] using rev_ind; [by split|]. cbv zeta in *. rewrite foldl_app. simpl.
  destruct (foldl _ _ tr) as [[p hand] acc]. simpl in IH. destruct IH as [Hacc Hhand].
  assert (Forall (jpeg_item en max (tr ++ [e])) acc) as Hacc' by (eapply Forall_impl; eauto).
  assert (∀ it r, hand = Some (it, r) → jpeg_item en max (tr ++ [e]) it) as Hhand' by eauto.
  destruct e as [r got|kept| | |]; simpl; [|destruct hand as [[it r]|]|done..].
  - destruct (jpeg_offer en text_ok max p r) as [[p' o]|] eqn:E; [|done]. simpl. split; [done|].
    intros it r'. destruct got; [|done]. destruct o as [[data hdr]|]; [|done]. simpl. intros [= <- <-].
    eapply (jpeg_offer_item _ _ _ _ _ _ _ _ true); [exact E|set_solver].
  - simpl. split; [|done]. apply Forall_app. split; [done|]. destruct kept; [|done].
    constructor; [by eapply Hhand'|done].
  - done.
Qed.

(** The state in which the loop starts. *)
Definition jpeg_start (dv : jpeg_dev) (t0 t1 : Z) : jpeg_state := mkJs t0 0 0 0 t1 dv.

Lemma init_dev_good bufsize :
  ∃ dv, InitJpegDevice bufsize = Ok dv ∧ brc_ok (s_au32BRCTable dv) ∧ s_u32JpegBufSize dv = bufsize.
Proof.
  eexists. split; [done|]. split; [|done]. split; [done|]. repeat (constructor; [done|]). constructor.
Qed.

(** C6. The video path from the encoder to the event loop, under every
    interleaving of the thread with the event loop and other encoders on the same
    frame heap, as long as the date is not put on the picture: the items the
    event loop finds are, in order, the pictures the exchanger accepted, at most
    seven wait, held frames keep their picture, the thread never faults or blocks
    and loses a picture only when no frame is free or seven wait; every picture
    was made by the hardware while the stream was running, fits a frame and has
    the configured size; and the table of bit rate control stays in order. *)
Theorem video_path en text_ok bufsize dv t0 t1 g sz count h ex buf tr s p hand acc :
  u32Overlapping en = 0 ∨ text_ok = false → 300000 ≤ bufsize → InitJpegDevice bufsize = Ok dv →
  init_frame_heap g sz count = Ok h → new_exchanger 8 = Ok ex →
  (∀ id, (id < Z.to_nat count)%nat → is_Some (buf !! id)) →
  enc_run (Prod := jpeg_producer en text_ok) (enc_start (jpeg_start dv t0 t1) h ex buf) tr s →
  foldl (expect (Prod := jpeg_producer en text_ok) sz) (jpeg_start dv t0 t1, None, []) tr = (p, hand, acc) →
  stream_ok (Prod := jpeg_producer en text_ok) 8 sz tr s p acc ∧ Forall (jpeg_item en sz tr) acc ∧
  brc_ok (s_au32BRCTable (dev p)).
Proof.
  intros Hdate Hb Hdv Hh Hex Hbuf Hrun He.
  assert (good (Producer := jpeg_producer en text_ok) (jpeg_start dv t0 t1)) as Hg.
  { destruct (init_dev_good bufsize) as (dv' & E & [? ?] & Hs). rewrite Hdv in E. injection E as <-.
    simpl. rewrite Hs. done. }
  pose proof (encoder_stream (Prod := jpeg_producer en text_ok) (ProducerLaws0 := jpeg_laws en text_ok Hdate)
    _ _ _ _ _ _ _ _ _ _ _ _ _ Hg Hh Hex Hbuf Hrun He) as Hs.
  split; [done|]. destruct (jpeg_items en text_ok sz (jpeg_start dv t0 t1) tr) as [Hacc _].
  rewrite He in Hacc. split; [done|]. destruct Hs as (_ & (? & ? & _) & _). done.
Qed.

(** The pace of the video: with a bit rate configured, the time to the next
    frame is that of the frame rate the bit rate allows for the size of the last
    picture, at least 1 and at most 30 a second, rounded down to ten milliseconds
    and less ten; the next picture is not taken earlier than ten milliseconds
    before that time. *)
Lemma video_pace en text_ok max p r r' data :
  jr_done r = Some data → 0 < image_size data → u32 (bitrate en) ≠ 0 →
  0 ≤ jr_cur r < 2 ^ 63 → 0 ≤ jr_now r' < 2 ^ 63 →
  let fr := Z.max 1 (Z.min 30 ((u32 (bitrate en) `div` 8) `div` image_size data)) in
  let p' := jpeg_sent en p r in
  let t := u64NextFrameTime p' - jr_cur r in
  20 ≤ t ≤ 990 ∧ t + 10 ≤ 1000 `div` fr < t + 20 ∧
  (jr_now r' + 10 < jr_cur r + t → jpeg_offer en text_ok max p' r' = Ok (p', None)).
Proof.
  intros Hd Hi Hb Hc Hn fr p' t.
  assert (u64NextFrameTime p' = u64 (jr_cur r + frame_time (u32 (bitrate en)) (image_size data) (u32UpdateFrameTime p))) as Hnext.
  { subst p'. unfold jpeg_sent. rewrite Hd. by case_decide. }
  set (q := (u32 (bitrate en) `div` 8) `div` image_size data) in *.
  assert (0 ≤ q) as Hq by (apply Z.div_pos; [apply Z.div_pos; [apply Z.mod_pos_bound|]|]; lia).
  assert (frame_time (u32 (bitrate en)) (image_size data) (u32UpdateFrameTime p) = (1000 `div` fr) `div` 10 * 10 - 10 ∧
    33 ≤ 1000 `div` fr ≤ 1000) as [Hft Hr].
  { unfold frame_time. rewrite (decide_False (P := u32 (bitrate en) = 0)) by done. fold q. unfold DEF_FRAME_RATE.
    assert (1 ≤ fr ≤ 30) as Hfr by lia.
    assert (33 ≤ 1000 `div` fr ≤ 1000) as Hr.
    { split; [apply Z.div_le_lower_bound; nia|apply Z.div_le_upper_bound; nia]. }
    split; [|done]. cbv zeta.
    assert ((if decide ((if decide (q = 0) then 1 else q) > 30) then 30 else if decide (q = 0) then 1 else q) = fr) as ->
      by (subst fr; repeat case_decide; lia).
    rewrite decide_True; [done|]. pose proof (Z.div_mod (1000 `div` fr) 10). pose proof (Z.mod_pos_bound (1000 `div` fr) 10). lia. }
  assert (t = (1000 `div` fr) `div` 10 * 10 - 10) as Ht.
  { subst t. rewrite Hnext, Hft. unfold u64. rewrite Z.mod_small; [lia|].
    pose proof (Z.div_mod (1000 `div` fr) 10). pose proof (Z.mod_pos_bound (1000 `div` fr) 10). lia. }
  pose proof (Z.div_mod (1000 `div` fr) 10). pose proof (Z.mod_pos_bound (1000 `div` fr) 10).
  split; [lia|]. split; [lia|]. intros Hlt. unfold jpeg_offer. destruct (jr_running r'); simpl; [|done].
  rewrite decide_True; [done|]. unfold u64. rewrite Z.mod_small by lia. subst t. lia.
Qed.

(** *** Concrete instances *)

Definition demo_jpeg : jpeg_encoder := mkJe (Some 0%nat) 4000000 640 480 8 8 640 480 0 0 None.
Definition demo_picture : list Z := [255; 216; 255; 217].
Definition demo_shot : jpeg_read := mkJr true 5 true [] true 5 (Some demo_picture) 5.

Lemma brc_qscale_witness :
  ∃ table1 table2 q, BRCGetQScale (replicate 16 20000) 4000000 30 = Ok (table1, q) ∧ 1 ≤ q ≤ 15 ∧
    BRCUpdateTable table1 q 30000 = Ok (table2, true).
Proof.
  destruct (brc_qscale (replicate 16 20000) 4000000 30 30000) as (t1 & t2 & q & E & Hq & _ & _ & E2 & _);
    [split; [done|by apply Forall_replicate]|lia|lia|lia|].
  exists t1, t2, q. split; [exact E|]. split; [exact Hq|exact E2].
Defined.

Lemma video_pace_witness :
  let p' := jpeg_sent demo_jpeg (jpeg_start (mkDev [] 0 0) 0 0) demo_shot in
  u64NextFrameTime p' = 25 ∧ 20 ≤ u64NextFrameTime p' - 5 ≤ 990.
Proof.
  split; [vm_compute; reflexivity|].
  refine (proj1 (video_pace demo_jpeg false 16 (jpeg_start (mkDev [] 0 0) 0 0) demo_shot demo_shot demo_picture
    eq_refl _ _ _ _)); vm_compute; repeat split; congruence.
Defined.

Definition demo_enc : enc jpeg_state :=
  mkEnc (jpeg_start (mkDev (0 :: replicate 15 4294967295) 0 400000) 0 0)
    (mkHeap (list_to_map [(0%nat, mkFrame 0 16 None 0 0 0 0 0 0 0 0); (1%nat, mkFrame 0 16 None 0 0 0 0 0 0 0 0)])
       [Some 0%nat; Some 1%nat] 0 0 false 16 2)
    (mkEx (replicate 8 (mkSlot 0 None)) 0 0 0 0) (list_to_map [(0%nat, []); (1%nat, [])]).

Lemma video_path_witness :
  let P := jpeg_producer demo_jpeg true in
  ∃ m m' id p acc,
    enc_fill (Prod := P) demo_enc demo_shot = Ok (m, Some id) ∧
    enc_deliver (Prod := P) m id demo_shot true = Ok (Some m') ∧
    acc = [(FORMAT_JPEG, 640, 480, 1, demo_picture)] ∧
    stream_ok (Prod := P) 8 16 [ERead demo_shot true; ESend true] (mkAud m' false None [] []) p acc.
Proof.
  intros P.
  destruct (enc_fill (Prod := P) demo_enc demo_shot) as [[m [id|]]|] eqn:E1; [|by vm_compute in E1..].
  destruct (enc_deliver (Prod := P) m id demo_shot true) as [[m'|]|] eqn:E2;
    [|by vm_compute in E1; simplify_eq; vm_compute in E2..].
  exists m, m', id, (priv m'), [(FORMAT_JPEG, 640, 480, 1, demo_picture)].
  split; [done|]. split; [exact E2|]. split; [done|].
  refine (proj1 (video_path demo_jpeg true 400000 (dev (priv demo_enc)) 0 0 blank_frame 16 2 (e_heap demo_enc)
    (e_ex demo_enc) (e_buf demo_enc) [ERead demo_shot true; ESend true] (mkAud m' false None [] []) (priv m') None
    [(FORMAT_JPEG, 640, 480, 1, demo_picture)] _ _ _ _ _ _ _ _)).
  - by left.
  - lia.
  - vm_compute. reflexivity.
  - vm_compute. reflexivity.
  - vm_compute. reflexivity.
  - intros [|[|id']]; [by eexists..|]. intros Hlt. vm_compute in Hlt. lia.
  - pose proof (enc_run_snoc _ _ _ [] _ (enc_run_nil _) (enc_read (Prod := P) demo_enc false [] [] _ _ _ E1)) as R1.
    pose proof (enc_run_snoc _ _ _ _ _ R1 (enc_send (Prod := P) m false id demo_shot [] [] m' E2)) as R2.
    vm_compute in E1. injection E1 as <- <-. vm_compute in E2. injection E2 as <-. exact R2.
  - vm_compute in E1. injection E1 as <- <-. vm_compute in E2. injection E2 as <-. vm_compute. reflexivity.
Defined.
