(* ===== verification/Log.v ===== *)
(** * The log (log.c)

    spook_log prints a line and keeps it in a ring of 4096 bytes, which
    send_log_buffer writes out. The ring is compared with the sequence of all
    lines: what is written out are always the last lines, whole ones. The text of
    a line, which vsnprintf makes from the format and the arguments, and the time
    are arguments. *)

From stdpp Require Import prelude gmap strings.
From S2P Require Import Prelude.

Local Open Scope c_scope.

Definition LOG_BUFFER_SIZE : Z := 4096.

Record log := mkLog {
  minlevel : Z;
  rb_data : list Z;
  rb_in : nat;
  rb_out : nat }.

(** [rb_size]. *)
Definition rb_size (l : log) : nat := length (rb_data l).

(** [junk] is what malloc returns, [LOG_BUFFER_SIZE] bytes. *)
Definition spook_log_init (min : Z) (junk : list Z) : log := mkLog min junk 0 0.

(** The loop of spook_log over the bytes of the line: [overwrite] is set when the
    ring has become full. *)
Fixpoint log_bytes (l : log) (bytes : list Z) (overwrite : bool) : log * bool :=
  match bytes with
  | [] => (l, overwrite)
  | c :: bytes =>
      let i := ring_next (rb_size l) (rb_in l) in
      log_bytes (mkLog (minlevel l) (<[rb_in l := c]> (rb_data l)) i (rb_out l)) bytes
        (overwrite || bool_decide (i = rb_out l))
  end.

(** The search for the end of the oldest line, from [i] on. *)
Fixpoint skip_line (fuel : nat) (data : list Z) (i : nat) : res nat :=
  match fuel with
  | O => Fault OutOfFuel
  | S fuel =>
      match data !! i with
      | None => Fault OutOfBounds
      | Some c => if decide (c = 10) then Ok (ring_next (length data) i)
                  else skip_line fuel data (ring_next (length data) i)
      end
  end.

(** [line] is an array of 1024 bytes, and [vsnprintf] returns the length the text
    would have: the loop reads past the array when the text is longer. [fmtlen] is
    the length of the format with its prefix, for an array of 512. *)
Definition spook_log (l : log) (level fmtlen : Z) (text : list Z) : res log :=
  if decide (level < minlevel l) then Ok l else
  if decide (fmtlen + 1 > 512) then Fault OutOfBounds else
  if decide (zlen text > 1024) then Fault OutOfBounds else
  let line := take 1023 text ++ (if decide (zlen text = 1024) then [0] else []) in
  let '(l, overwrite) := log_bytes l line false in
  if overwrite then
    out ← skip_line (rb_size l) (rb_data l) (rb_in l);
    Ok (mkLog (minlevel l) (rb_data l) (rb_in l) out)
  else Ok l.

Definition send_log_buffer (l : log) : list Z :=
  if decide (rb_in l < rb_out l)%nat then drop (rb_out l) (rb_data l) ++ take (rb_in l) (rb_data l)
  else if decide (rb_out l < rb_in l)%nat then drop (rb_out l) (take (rb_in l) (rb_data l))
  else [].

(** Several lines. *)
Fixpoint log_all (l : log) (lines : list (Z * Z * list Z)) : res log :=
  match lines with
  | [] => Ok l
  | (level, fmtlen, text) :: lines => l ← spook_log l level fmtlen text; log_all l lines
  end.

(** ** The ring holds the last lines *)

(** [T] are the bytes between [rb_out] and [rb_in]. *)
Record log_inv (l : log) (T : list Z) : Prop := {
  li_out : (rb_out l < rb_size l)%nat;
  li_len : (length T < rb_size l)%nat;
  li_in : rb_in l = ((rb_out l + length T) `mod` rb_size l)%nat;
  li_ring : ring_holds (rb_data l) (rb_out l) T }.

(** Every place is near the end of a line: at most 1023 bytes from it. *)
Definition ends_near (S : list Z) : Prop :=
  ∀ i, (i < length S)%nat → ∃ j, (i <= j < i + 1023)%nat ∧ S !! j = Some 10.

Lemma ends_near_app S1 S2 : ends_near S1 → ends_near S2 → ends_near (S1 ++ S2).
Proof.
  intros H1 H2 i Hi. rewrite length_app in Hi. destruct (decide (i < length S1)%nat).
  - destruct (H1 i) as (j & Hj & E); [done|]. exists j. split; [done|]. by apply lookup_app_l_Some.
  - destruct (H2 (i - length S1)%nat) as (j & Hj & E); [lia|]. exists (length S1 + j)%nat. split; [lia|].
    rewrite lookup_app_r by lia. by replace (length S1 + j - length S1)%nat with j by lia.
Qed.

Lemma ends_near_drop S n : ends_near S → ends_near (drop n S).
Proof.
  intros H i Hi. rewrite length_drop in Hi. destruct (H (n + i)%nat) as (j & Hj & E); [lia|].
  exists (j - n)%nat. split; [lia|]. rewrite lookup_drop. by replace (n + (j - n))%nat with j by lia.
Qed.

Lemma ends_near_line t : zlen (t ++ [10]) ≤ 1023 → ends_near (t ++ [10]).
Proof.
  unfold zlen. rewrite length_app. simpl. intros Hl i Hi. rewrite length_app in Hi. simpl in Hi.
  exists (length t). split; [lia|]. by rewrite lookup_app_r, Nat.sub_diag by lia.
Qed.

(** The loop over the bytes: until the ring is full it appends, afterwards the
    ring holds the last bytes and starts at [rb_in]. *)
Lemma log_bytes_more l W bytes :
  (rb_in l < rb_size l)%nat → ring_holds (rb_data l) (rb_in l) W → length W = rb_size l →
  ∃ l', log_bytes l bytes true = (l', true) ∧ (rb_in l' < rb_size l')%nat ∧ rb_size l' = rb_size l ∧
    minlevel l' = minlevel l ∧ ring_holds (rb_data l') (rb_in l') (drop (length bytes) (W ++ bytes)).
Proof.
  revert l W. induction bytes as [|c bytes IH]; intros l W Hin Hr HW; simpl.
  - exists l. rewrite app_nil_r, drop_0. done.
  - destruct W as [|w W]; [simpl in HW; lia|].
    pose proof (ring_holds_rotate _ _ _ _ c Hin Hr HW) as Hrot.
    edestruct (IH (mkLog (minlevel l) (<[rb_in l := c]> (rb_data l)) (ring_next (rb_size l) (rb_in l)) (rb_out l)) (W ++ [c]))
      as (l' & E & Hin' & Hs & Hm & Hr'); unfold rb_size in *; simpl in *; rewrite ?length_insert in *;
      [by apply ring_next_lt|exact Hrot|rewrite length_app; simpl; lia|].
    exists l'. split; [done|]. split; [done|]. split; [done|]. split; [done|].
    by rewrite <- (assoc_L (++)) in Hr'.
Qed.

Lemma log_bytes_spec l T bytes :
  log_inv l T →
  ∃ l' o, log_bytes l bytes false = (l', o) ∧ rb_size l' = rb_size l ∧ minlevel l' = minlevel l ∧
    if decide (length T + length bytes < rb_size l)%nat then o = false ∧ log_inv l' (T ++ bytes)
    else o = true ∧ (rb_in l' < rb_size l')%nat ∧
      ring_holds (rb_data l') (rb_in l') (drop (length T + length bytes - rb_size l) (T ++ bytes)).
Proof.
  revert l T. induction bytes as [|c bytes IH]; intros l T []; simpl.
  - exists l, false. split; [done|]. split; [done|]. split; [done|]. rewrite app_nil_r, decide_True by lia. by split.
  - set (l1 := mkLog (minlevel l) (<[rb_in l := c]> (rb_data l)) (ring_next (rb_size l) (rb_in l)) (rb_out l)).
    assert (rb_size l1 = rb_size l) as Hs1 by (unfold rb_size; simpl; by rewrite length_insert).
    assert (rb_in l1 = ((rb_out l + S (length T)) `mod` rb_size l)%nat) as Hi1.
    { simpl. rewrite li_in0. by apply ring_next_end. }
    assert (ring_holds (rb_data l1) (rb_out l) (T ++ [c])) as Hr1.
    { simpl. rewrite li_in0. by apply ring_holds_snoc. }
    case_bool_decide as Hfull.
    + assert (S (length T) = rb_size l) as HS.
      { destruct (decide (S (length T) = rb_size l)); [done|exfalso].
        assert (S (length T) = 0)%nat; [|lia]. apply (ring_offset_inj (rb_size l) (rb_out l)); [lia|lia|].
        change (ring_next (rb_size l) (rb_in l)) with (rb_in l1) in Hfull. rewrite <- Hi1, Hfull.
        rewrite Nat.add_0_r, Nat.mod_small; lia. }
      simpl. destruct (log_bytes_more l1 (T ++ [c]) bytes) as (l' & E & Hin & Hs & Hm & Hr).
      * change (rb_in l1) with (ring_next (rb_size l) (rb_in l)). rewrite Hfull, Hs1. done.
      * change (rb_in l1) with (ring_next (rb_size l) (rb_in l)). by rewrite Hfull.
      * rewrite length_app, Hs1. simpl. lia.
      * exists l', true. split; [done|]. split; [congruence|]. split; [done|]. rewrite decide_False by lia.
        split; [done|]. split; [done|]. rewrite <- (assoc_L (++)) in Hr.
        by replace (length T + S (length bytes) - rb_size l)%nat with (length bytes) by lia.
    + simpl. assert (log_inv l1 (T ++ [c])) as Hinv1.
      { assert (S (length T) ≠ rb_size l) as HS.
        { intros HS. apply Hfull. change (ring_next (rb_size l) (rb_in l)) with (rb_in l1). rewrite Hi1, HS.
          replace (rb_out l + rb_size l)%nat with (rb_out l + 1 * rb_size l)%nat by lia.
          rewrite Nat.Div0.mod_add, Nat.mod_small; lia. }
        split; rewrite ?Hs1, ?length_app; simpl length; [done|lia| |done].
        rewrite Nat.add_1_r. exact Hi1. }
      destruct (IH l1 (T ++ [c]) Hinv1) as (l' & o & E & Hs & Hm & Hc). exists l', o.
      split; [exact E|]. split; [congruence|]. split; [done|].
      rewrite Hs1, length_app in Hc. simpl in Hc. rewrite <- (assoc_L (++)) in Hc.
      replace (length T + 1 + length bytes)%nat with (length T + S (length bytes))%nat in Hc by lia. done.
Qed.

(** The search stops behind the first end of a line. *)
Lemma skip_line_spec data fuel : ∀ i W j,
  (i < length data)%nat → ring_holds data i W → W !! j = Some 10 → (j < fuel)%nat →
  ∃ k i', (k <= j)%nat ∧ W !! k = Some 10 ∧ skip_line fuel data i = Ok i' ∧ (i' < length data)%nat ∧
    i' = ((i + S k) `mod` length data)%nat ∧ ring_holds data i' (drop (S k) W).
Proof.
  induction fuel as [|fuel IH]; intros i W j Hi Hr Hj Hf; [lia|]. destruct W as [|w W]; [done|].
  pose proof (ring_holds_head _ _ _ _ Hi Hr) as Hw. pose proof (ring_holds_tail _ _ _ _ Hi Hr) as Ht.
  pose proof (ring_next_lt _ _ Hi) as Hn. unfold skip_line. fold skip_line. rewrite Hw. case_decide as Hc.
  - exists 0%nat, (ring_next (length data) i). subst w. split; [lia|]. split; [done|]. split; [done|].
    split; [done|]. split; [by rewrite ring_next_mod, Nat.add_1_r|]. by rewrite skipn_cons, drop_0.
  - destruct j as [|j]; [simpl in Hj; congruence|].
    destruct (IH _ W j Hn Ht Hj) as (k & i' & Hk & Hkl & E & Hi' & Hmod & Hr'); [lia|].
    exists (S k), i'. split; [lia|]. split; [done|]. split; [done|]. split; [done|]. split; [|done].
    by rewrite Hmod, ring_next_add.
Qed.

Lemma send_log_spec l T : log_inv l T → send_log_buffer l = T.
Proof.
  intros [Ho Hl Hi [_ Hr]]. unfold send_log_buffer, rb_size in *. set (n := length (rb_data l)) in *.
  destruct (decide (rb_out l + length T < n)%nat) as [Hlt|Hge].
  - rewrite Nat.mod_small in Hi by done. rewrite decide_False by lia. case_decide.
    + apply list_eq_same_length with (length T); [done|rewrite length_drop, length_take; lia|].
      intros i x y Hil Hx Hy. rewrite lookup_drop, lookup_take_lt in Hx by lia.
      specialize (Hr i y Hy). rewrite Nat.mod_small in Hr by lia. congruence.
    + destruct T; [done|simpl in *; lia].
  - assert (rb_in l = (rb_out l + length T - n)%nat) as Hin.
    { rewrite Hi. replace (rb_out l + length T)%nat with (rb_out l + length T - n + 1 * n)%nat by lia.
      rewrite Nat.Div0.mod_add, Nat.mod_small; lia. }
    rewrite decide_True by lia.
    apply list_eq_same_length with (length T); [done|rewrite length_app, length_drop, length_take; lia|].
    intros i x y Hil Hx Hy. specialize (Hr i y Hy). destruct (decide (i < n - rb_out l)%nat).
    + rewrite lookup_app_l, lookup_drop in Hx by (rewrite length_drop; lia).
      rewrite Nat.mod_small in Hr by lia. congruence.
    + rewrite lookup_app_r, length_drop, lookup_take_lt in Hx by (rewrite ?length_drop; lia).
      replace (rb_out l + i)%nat with (i - (n - rb_out l) + 1 * n)%nat in Hr by lia.
      rewrite Nat.Div0.mod_add, Nat.mod_small in Hr by lia. fold n in Hx. congruence.
Qed.

(** A line that spook_log can hold: it ends with a newline and fits the arrays. *)
Definition line_ok (x : Z * Z * list Z) : Prop :=
  x.1.2 ≤ 511 ∧ zlen x.2 ≤ 1023 ∧ last x.2 = Some 10.

Lemma spook_log_spec l T level fmtlen text :
  log_inv l T → ends_near T → rb_size l = Z.to_nat LOG_BUFFER_SIZE → line_ok (level, fmtlen, text) →
  minlevel l ≤ level →
  ∃ l' pre T', spook_log l level fmtlen text = Ok l' ∧ T ++ text = pre ++ T' ∧ log_inv l' T' ∧ ends_near T' ∧
    rb_size l' = rb_size l ∧ minlevel l' = minlevel l ∧
    (pre = [] ∨ (last pre = Some 10 ∧ (3073 <= length T')%nat)).
Proof.
  intros Hinv Hn Hsz (Hf & Hl & Hlast) Hlev. simpl in *. unfold spook_log.
  apply last_Some in Hlast as [t ->].
  rewrite !decide_False by lia. unfold zlen in Hl. rewrite take_ge, app_nil_r by lia.
  pose proof (ends_near_app T (t ++ [10]) Hn (ends_near_line t Hl)) as HN.
  set (text := t ++ [10]) in *.
  destruct (log_bytes_spec l T text Hinv) as (l1 & o & -> & Hs & Hm & Hc). case_decide.
  { destruct Hc as [-> Hi]. exists l1, [], (T ++ text). do 4 (split; [done|]). auto. }
  destruct Hc as (-> & Hin & Hr). set (W := drop (length T + length text - rb_size l) (T ++ text)) in *.
  assert (length W = rb_size l) as HW by (subst W; rewrite length_drop, length_app; lia).
  destruct (ends_near_drop (T ++ text) (length T + length text - rb_size l) HN 0%nat) as (j & Hj & Ej).
  { fold W. rewrite HW, Hsz. vm_compute. lia. }
  fold W in Ej.
  destruct (skip_line_spec (rb_data l1) (rb_size l1) (rb_in l1) W j Hin Hr Ej) as (k & i' & Hk & Ek & E & Hi' & Hmod & Hr').
  { rewrite Hs, <- HW. by eapply lookup_lt_Some. }
  rewrite E. simpl. set (n := (length T + length text - rb_size l)%nat) in *.
  eexists _, (take (n + S k) (T ++ text)), (drop (S k) W). split; [done|].
  assert (k < length W)%nat as Hkl by (by eapply lookup_lt_Some).
  split; [subst W; rewrite drop_drop; by rewrite take_drop|].
  split; [|split; [by apply ends_near_drop, ends_near_drop|split; [done|split; [done|]]]].
  - split; simpl; unfold rb_size in *; simpl; rewrite ?length_drop.
    + done.
    + lia.
    + rewrite Hmod, Nat.Div0.add_mod_idemp_l.
      replace (rb_in l1 + S k + (length W - S k))%nat with (rb_in l1 + 1 * length (rb_data l1))%nat by lia.
      rewrite Nat.Div0.mod_add, Nat.mod_small; done.
    + exact Hr'.
  - right. split.
    + replace (n + S k)%nat with (S (n + k)) by lia.
      rewrite (take_S_r _ _ 10); [by rewrite last_snoc|]. subst W. by rewrite lookup_drop in Ek.
    + rewrite length_drop, HW, Hsz. change (Z.to_nat LOG_BUFFER_SIZE) with (Z.to_nat 4096). lia.
Qed.

(** What is logged at level [min] and above. *)
Definition logged (min : Z) (lines : list (Z * Z * list Z)) : list Z :=
  lines ≫= λ x, if decide (x.1.1 < min) then [] else x.2.

(** C18. The log keeps the last lines: after any sequence of lines that fit the
    arrays of spook_log, none of which faults or hangs, send_log_buffer writes out
    what was logged except for some whole lines at the beginning, and if anything
    is missing it writes at least 3073 bytes. *)
Theorem log_keeps_last_lines min junk lines :
  zlen junk = LOG_BUFFER_SIZE → Forall line_ok lines →
  ∃ l pre, log_all (spook_log_init min junk) lines = Ok l ∧ logged min lines = pre ++ send_log_buffer l ∧
    (pre = [] ∨ (last pre = Some 10 ∧ 3073 ≤ zlen (send_log_buffer l))).
Proof.
  intros Hj Hok.
  assert (∀ lines l pre T, Forall line_ok lines → log_inv l T → ends_near T →
    rb_size l = Z.to_nat LOG_BUFFER_SIZE → minlevel l = min →
    (pre = [] ∨ (last pre = Some 10 ∧ (3073 <= length T)%nat)) →
    ∃ l' pre' T', log_all l lines = Ok l' ∧ pre ++ T ++ logged min lines = pre' ++ T' ∧ log_inv l' T' ∧
      (pre' = [] ∨ (last pre' = Some 10 ∧ (3073 <= length T')%nat))) as Hall.
  { clear. induction lines as [|[[level fmtlen] text] lines IH]; intros l pre T Hok Hi Hn Hsz Hm Hp.
    { exists l, pre, T. simpl. by rewrite app_nil_r. }
    apply Forall_cons in Hok as [Hx Hok]. simpl. destruct (decide (level < min)) as [Hlt|Hge].
    { unfold spook_log. rewrite decide_True by (by rewrite Hm). simpl. by apply IH. }
    destruct (spook_log_spec l T level fmtlen text Hi Hn Hsz Hx) as (l1 & p1 & T1 & -> & ET & Hi1 & Hn1 & Hs1 & Hm1 & Hp1);
      [lia|]. simpl.
    destruct (IH l1 (pre ++ p1) T1) as (l' & pre' & T' & E & EE & Hi' & Hp'); [done|done|done|congruence|congruence| |].
    { destruct Hp1 as [->|[Hl1 Hg1]].
      - rewrite app_nil_r. simpl in ET. destruct Hp as [?|[? ?]]; [by left|right]. split; [done|].
        apply (f_equal length) in ET. rewrite length_app in ET. lia.
      - right. split; [|done]. by rewrite last_app, Hl1. }
    exists l', pre', T'. split; [done|]. split; [|done]. rewrite <- EE, (assoc_L (++) T), ET. by rewrite <- !(assoc_L (++)). }
  assert (length junk = Z.to_nat LOG_BUFFER_SIZE) as Hlj by (unfold zlen in Hj; lia).
  destruct (Hall lines (spook_log_init min junk) [] []) as (l & pre & T & E & EE & Hi & Hp); try done.
  - split; unfold rb_size; simpl; rewrite ?Hlj; try lia; [vm_compute; lia..|apply ring_holds_nil].
  - intros i Hi. simpl in Hi. lia.
  - by left.
  - exists l, pre. rewrite (send_log_spec _ _ Hi). split; [done|]. split; [exact EE|].
    destruct Hp as [?|[? ?]]; [by left|right]. split; [done|]. unfold zlen. lia.
Qed.

(** A text longer than the array is read past its end. *)
Lemma long_line_overruns l level fmtlen text :
  minlevel l ≤ level → 1024 < zlen text → spook_log l level fmtlen text = Fault OutOfBounds.
Proof. intros. unfold spook_log. rewrite decide_False by lia. case_decide; [done|]. by rewrite decide_True by lia. Qed.

Lemma log_keeps_last_lines_witness :
  ∃ l pre, log_all (spook_log_init 2 (replicate 4096 0)) [(3, 20, [104; 105; 10]); (1, 20, [120; 10])] = Ok l ∧
    [104; 105; 10] = pre ++ send_log_buffer l.
Proof.
  destruct (log_keeps_last_lines 2 (replicate 4096 0) [(3, 20, [104; 105; 10]); (1, 20, [120; 10])])
    as (l & pre & E & EL & _).
  - reflexivity.
  - repeat (constructor; [split; [|split]; vm_compute; congruence|]). constructor.
  - exists l, pre. split; [exact E|exact EL].
Defined.
