(* ===== verification/Conversions.v ===== *)
(** * Colour conversions (conversions.c, and convert_uyvy_to_rgb24 of stream.c)

    Each function of conversions.c goes over its source in groups of bytes and
    writes a group for each. [convert] is that loop over a source and the capacity
    of the destination, with reads and writes outside them as faults; the
    functions are instances with their groups, and the shifts of the macros are
    kept. *)

From stdpp Require Import prelude gmap strings.
From S2P Require Import Prelude Frame.

(** ** The macros *)

Definition clamp (x : Z) : Z := let x := if decide (x < 0) then 0 else x in if decide (x > 255) then 255 else x.

Definition YUV2RGB (y u v : Z) : list Z :=
  let r := y + Z.shiftr (Z.shiftl v 10 + Z.shiftl v 8 + Z.shiftl v 7 + Z.shiftl v 4 + Z.shiftl v 3 + Z.shiftl v 1) 11 in
  let g := y - Z.shiftr (Z.shiftl u 8 + Z.shiftl u 7 + Z.shiftl u 4 + Z.shiftl u 2 + Z.shiftl u 1) 11
             - Z.shiftr (Z.shiftl v 9 + Z.shiftl v 6 + Z.shiftl v 4 + Z.shiftl v 1 + v) 11 in
  let b := y + Z.shiftr (Z.shiftl u 11 + Z.shiftl u 5 - Z.shiftl u 1) 11 in
  [clamp r; clamp g; clamp b].

Definition RGB2YUV (r g b : Z) : Z * Z * Z :=
  let y := Z.shiftr (9798 * r + 19235 * g + 3736 * b) 15 in
  let u := Z.shiftr (-4784 * r - 9437 * g + 14221 * b) 15 + 128 in
  let v := Z.shiftr (20218 * r - 16941 * g - 3277 * b) 15 + 128 in
  (clamp y, clamp u, clamp v).

(** ** The loops *)

(** From [i] on, with [out] already written: [n] bytes of the source a group,
    while [i < limit]; the fuel is the number of groups left. *)
Fixpoint convert_loop (n : Z) (group : list Z → list Z) (limit cap : Z) (fuel : nat) (src : list Z) (i : Z)
    (out : list Z) : res (list Z) :=
  if decide (i < limit) then
    match fuel with
    | O => Fault OutOfFuel
    | S fuel =>
        if decide (zlen src < i + n) then Fault OutOfBounds else
        let o := group (slice src i n) in
        if decide (cap < zlen out + zlen o) then Fault OutOfBounds
        else convert_loop n group limit cap fuel src (i + n) (out ++ o)
    end
  else Ok out.

(** A positive step needs no more iterations than [limit]. *)
Definition convert (n : Z) (group : list Z → list Z) (limit cap : Z) (src : list Z) : res (list Z) :=
  convert_loop n group limit cap (Z.to_nat limit) src 0 [].

Definition uyvy_yuy2_group (g : list Z) : list Z := match g with [a; b] => [b; a] | _ => [] end.
Definition y41p_group (g : list Z) : list Z :=
  match g with
  | [u0; y0; v0; y1; u4; y2; v4; y3; y4; y5; y6; y7] =>
      [y0; u0; y1; v0; y2; u0; y3; v0; y4; u4; y5; v4; y6; u4; y7; v4]
  | _ => []
  end.
Definition iyu1_yuy2_group (g : list Z) : list Z :=
  match g with [u; y0; y1; v; y2; y3] => [y0; u; y1; v; y2; u; y3; v] | _ => [] end.
Definition iyu2_yuy2_group (g : list Z) : list Z :=
  match g with [u0; y0; v0; u1; y1; v1] => [y0; (u0 + u1) `quot` 2; y1; (v0 + v1) `quot` 2] | _ => [] end.
Definition y_yuy2_group (g : list Z) : list Z := match g with [y0; y1] => [y0; 128; y1; 128] | _ => [] end.
Definition rgb_yuy2_group (g : list Z) : list Z :=
  match g with
  | [r0; g0; b0; r1; g1; b1] =>
      let '(y0, u0, v0) := RGB2YUV r0 g0 b0 in
      let '(y1, u1, v1) := RGB2YUV r1 g1 b1 in
      [y0; Z.shiftr (u0 + u1) 1; y1; Z.shiftr (v0 + v1) 1]
  | _ => []
  end.
Definition uyvy_rgb_group (g : list Z) : list Z :=
  match g with [u; y0; v; y1] => YUV2RGB y0 (u - 128) (v - 128) ++ YUV2RGB y1 (u - 128) (v - 128) | _ => [] end.
Definition yuy2_rgb_group (g : list Z) : list Z :=
  match g with [y0; u; y1; v] => YUV2RGB y0 (u - 128) (v - 128) ++ YUV2RGB y1 (u - 128) (v - 128) | _ => [] end.
Definition iyu1_rgb_group (g : list Z) : list Z :=
  match g with
  | [u; y0; y1; v; y2; y3] =>
      YUV2RGB y0 (u - 128) (v - 128) ++ YUV2RGB y1 (u - 128) (v - 128)
      ++ YUV2RGB y2 (u - 128) (v - 128) ++ YUV2RGB y3 (u - 128) (v - 128)
  | _ => []
  end.
Definition iyu2_rgb_group (g : list Z) : list Z :=
  match g with
  | [u0; y0; v0; u1; y1; v1] => YUV2RGB y0 (u0 - 128) (v0 - 128) ++ YUV2RGB y1 (u1 - 128) (v1 - 128)
  | _ => []
  end.
Definition y_rgb_group (g : list Z) : list Z := match g with [y] => YUV2RGB y 0 0 | _ => [] end.

Section Functions.
(** The capacity of the destination and the number of pixels. *)
Context (cap NumPixels : Z).

(** [swab] exchanges the bytes of pairs. *)
Definition uyvy2yuy2 := convert 2 uyvy_yuy2_group (Z.shiftl NumPixels 1) cap.
Definition yuv2yuy2 := convert 2 uyvy_yuy2_group (Z.shiftl NumPixels 1) cap.
Definition y41p2yuyv := convert 12 y41p_group (Z.shiftl NumPixels 1) cap.
Definition iyu12yuy2 := convert 6 iyu1_yuy2_group (NumPixels + Z.shiftr NumPixels 1) cap.
Definition iyu22yuy2 := convert 6 iyu2_yuy2_group (NumPixels + Z.shiftl NumPixels 1) cap.
Definition y2yuy2 := convert 2 y_yuy2_group NumPixels cap.
Definition rgb2yuy2 := convert 6 rgb_yuy2_group (NumPixels + Z.shiftl NumPixels 1) cap.
Definition uyvy2rgb := convert 4 uyvy_rgb_group (Z.shiftl NumPixels 1) cap.
Definition yuy22rgb := convert 4 yuy2_rgb_group (Z.shiftl NumPixels 1) cap.
Definition iyu12rgb := convert 6 iyu1_rgb_group (NumPixels + Z.shiftr NumPixels 1) cap.
Definition iyu22rgb := convert 6 iyu2_rgb_group (NumPixels + Z.shiftl NumPixels 1) cap.
Definition y2rgb := convert 1 y_rgb_group NumPixels cap.
End Functions.

(** ** Whole images *)

(** The groups of a list: [k] groups of [n]. *)
Fixpoint groups (n k : nat) (l : list Z) : list (list Z) :=
  match k with
  | O => []
  | S k => take n l :: groups n k (drop n l)
  end.

(** A group function that makes [m] bytes of [n]. *)
Definition shape (n m : nat) (group : list Z → list Z) : Prop :=
  ∀ g, length g = n → length (group g) = m.

Lemma groups_length n k l : (n * k <= length l)%nat → Forall (λ g, length g = n) (groups n k l).
Proof.
  revert l. induction k as [|k IH]; intros l Hl; simpl; constructor.
  - rewrite length_take. lia.
  - apply IH. rewrite length_drop. lia.
Qed.

Lemma shape_length n m group gs :
  shape n m group → Forall (λ g, length g = n) gs → length (gs ≫= group) = (m * length gs)%nat.
Proof.
  intros Hs. induction 1 as [|g gs Hg Hgs IH]; [simpl; lia|]. rewrite bind_cons, length_app, IH, (Hs g Hg). simpl. lia.
Qed.

(** On [k] whole groups and with room for the result, the loop makes the groups'
    images. *)
Lemma convert_groups n m group limit cap src k :
  (0 < n)%nat → shape n m group → limit = Z.of_nat (n * k) → (n * k <= length src)%nat → Z.of_nat (m * k) ≤ cap →
  convert (Z.of_nat n) group limit cap src = Ok (groups n k src ≫= group).
Proof.
  intros Hn Hs -> Hsrc Hcap. unfold convert.
  assert (∀ j i out fuel, (j + i = k)%nat → zlen out = Z.of_nat (m * i) → (n * j <= fuel)%nat →
    convert_loop (Z.of_nat n) group (Z.of_nat (n * k)) cap fuel src (Z.of_nat (n * i)) out =
      Ok (out ++ (groups n j (drop (n * i) src) ≫= group))) as Hloop.
  { induction j as [|j IH]; intros i out fuel Hji Hout Hf.
    - simpl. rewrite app_nil_r. destruct fuel; simpl; by rewrite decide_False by (assert (i = k) as -> by lia; lia).
    - destruct fuel as [|fuel]; [nia|]. unfold convert_loop. fold convert_loop. rewrite decide_True by nia.
      cbn [groups]. rewrite bind_cons.
      rewrite decide_False by (unfold zlen; nia).
      assert (slice src (Z.of_nat (n * i)) (Z.of_nat n) = take n (drop (n * i) src)) as ->
        by (unfold slice; by rewrite !Nat2Z.id).
      assert (length (group (take n (drop (n * i) src))) = m) as Hg by (apply Hs; rewrite length_take, length_drop; nia).
      rewrite decide_False by (unfold zlen in *; rewrite Hg; nia).
      replace (Z.of_nat (n * i) + Z.of_nat n) with (Z.of_nat (n * S i)) by lia.
      rewrite (IH (S i)); [|lia|unfold zlen in *; rewrite length_app, Hg; lia|nia].
      rewrite <- (assoc_L (++)), drop_drop. by replace (n * i + n)%nat with (n * S i)%nat by lia. }
  pose proof (Hloop k 0%nat [] (Z.to_nat (Z.of_nat (n * k)))) as H0.
  rewrite !Nat.mul_0_r, drop_0 in H0. apply H0; [lia|done|lia].
Qed.

(** ** The macros compute what their comments say *)

Lemma clamp_byte x : 0 ≤ clamp x < 256.
Proof. unfold clamp. repeat case_decide; lia. Qed.

Lemma clamp_id x : 0 ≤ x ≤ 255 → clamp x = x.
Proof. intros Hx. unfold clamp. rewrite (decide_False (P := x < 0)), decide_False by lia. done. Qed.

(** The shifts of YUV2RGB are the products of its comment. *)
Lemma YUV2RGB_products y u v :
  YUV2RGB y u v =
    [clamp (y + (1434 * v) `div` 2048); clamp (y - (406 * u) `div` 2048 - (595 * v) `div` 2048);
     clamp (y + (2078 * u) `div` 2048)].
Proof.
  unfold YUV2RGB. rewrite !Z.shiftl_mul_pow2, !Z.shiftr_div_pow2 by lia. repeat f_equal; lia.
Qed.

Lemma YUV2RGB_grey y : 0 ≤ y < 256 → YUV2RGB y 0 0 = [y; y; y].
Proof. intros Hy. rewrite YUV2RGB_products. change (1434 * 0) with 0. change (406 * 0) with 0. change (595 * 0) with 0.
  change (2078 * 0) with 0. rewrite Z.div_0_l, !Z.sub_0_r, !Z.add_0_r by lia. by rewrite clamp_id by lia. Qed.

Lemma RGB2YUV_grey x : 0 ≤ x < 256 → RGB2YUV x x x = (x, 128, 128).
Proof.
  intros Hx. unfold RGB2YUV. rewrite !Z.shiftr_div_pow2 by lia. change (2 ^ 15) with 32768.
  replace (-4784 * x - 9437 * x + 14221 * x) with 0 by lia. replace (20218 * x - 16941 * x - 3277 * x) with 0 by lia.
  replace ((9798 * x + 19235 * x + 3736 * x) `div` 32768) with x.
  - rewrite clamp_id by lia. done.
  - apply (Z.div_unique_pos _ _ _ x); lia.
Qed.

(** *** The groups of one conversion after another *)

Definition bytes (l : list Z) : Prop := Forall (λ x, 0 ≤ x < 256) l.

Lemma len2 (g : list Z) : length g = 2%nat → ∃ a b, g = [a; b].
Proof. destruct g as [|? [|? []]]; naive_solver. Qed.
Lemma len4 (g : list Z) : length g = 4%nat → ∃ a b c d, g = [a; b; c; d].
Proof. destruct g as [|? [|? [|? [|? []]]]]; naive_solver. Qed.
Lemma len6 (g : list Z) : length g = 6%nat → ∃ a b c d e f, g = [a; b; c; d; e; f].
Proof. destruct g as [|? [|? [|? [|? [|? [|? []]]]]]]; naive_solver. Qed.

Lemma shape_uyvy_yuy2 : shape 2 2 uyvy_yuy2_group.
Proof. intros g (a & b & ->)%len2. done. Qed.
Lemma shape_iyu1_yuy2 : shape 6 8 iyu1_yuy2_group.
Proof. intros g (a & b & c & d & e & f & ->)%len6. done. Qed.
Lemma shape_iyu2_yuy2 : shape 6 4 iyu2_yuy2_group.
Proof. intros g (a & b & c & d & e & f & ->)%len6. done. Qed.
Lemma shape_y_yuy2 : shape 2 4 y_yuy2_group.
Proof. intros g (a & b & ->)%len2. done. Qed.
Lemma shape_rgb_yuy2 : shape 6 4 rgb_yuy2_group.
Proof.
  intros g (a & b & c & d & e & f & ->)%len6. unfold rgb_yuy2_group.
  destruct (RGB2YUV a b c) as [[? ?] ?], (RGB2YUV d e f) as [[? ?] ?]. done.
Qed.
Lemma shape_uyvy_rgb : shape 4 6 uyvy_rgb_group.
Proof. intros g (a & b & c & d & ->)%len4. done. Qed.
Lemma shape_yuy2_rgb : shape 4 6 yuy2_rgb_group.
Proof. intros g (a & b & c & d & ->)%len4. done. Qed.
Lemma shape_iyu1_rgb : shape 6 12 iyu1_rgb_group.
Proof. intros g (a & b & c & d & e & f & ->)%len6. done. Qed.
Lemma shape_iyu2_rgb : shape 6 6 iyu2_rgb_group.
Proof. intros g (a & b & c & d & e & f & ->)%len6. done. Qed.
Lemma shape_y_rgb : shape 1 3 y_rgb_group.
Proof. intros [|y []]; naive_solver. Qed.

(** Groups of groups. *)
Lemma groups_app n j k l : groups n (j + k) l = groups n j l ++ groups n k (drop (n * j) l).
Proof.
  revert l. induction j as [|j IH]; intros l; simpl.
  - by rewrite Nat.mul_0_r, drop_0.
  - rewrite IH, drop_drop. by replace (n + n * j)%nat with (n * S j)%nat by lia.
Qed.

Lemma groups_take n k l m : (n * k <= m)%nat → groups n k (take m l) = groups n k l.
Proof.
  revert l m. induction k as [|k IH]; intros l m Hm; simpl; [done|]. rewrite take_take, Nat.min_l by nia.
  f_equal. rewrite skipn_firstn_comm. apply IH. nia.
Qed.

Lemma groups_mul n c k l : groups n (k * c) l = groups (n * c) k l ≫= groups n c.
Proof.
  revert l. induction k as [|k IH]; intros l; [done|]. cbn [groups Nat.mul]. rewrite bind_cons, groups_app, IH.
  by rewrite groups_take.
Qed.

Lemma groups_bind n m group gs :
  shape n m group → Forall (λ g, length g = n) gs → groups m (length gs) (gs ≫= group) = group <$> gs.
Proof.
  intros Hs. induction 1 as [|g gs Hg Hgs IH]; [done|]. rewrite bind_cons. cbn [length groups].
  rewrite take_app_length' by (by rewrite Hs). rewrite drop_app_length' by (by rewrite Hs). by rewrite IH.
Qed.

Lemma length_groups n k l : length (groups n k l) = k.
Proof. revert l. induction k; intros; simpl; auto. Qed.

(** One conversion after another, on the same groups of the source. *)
Lemma convert_two n c q (group1 group2 : list Z → list Z) k src :
  shape n (q * c) group1 → (n * k <= length src)%nat →
  groups q (k * c) (groups n k src ≫= group1) ≫= group2 =
  groups n k src ≫= λ g, groups q c (group1 g) ≫= group2.
Proof.
  intros Hs Hl. rewrite groups_mul.
  pose proof (groups_bind n (q * c) group1 (groups n k src) Hs (groups_length n k src Hl)) as Hg.
  rewrite length_groups in Hg. rewrite Hg. clear Hg. induction (groups n k src) as [|g gs IH]; [done|].
  rewrite fmap_cons, !bind_cons, bind_app, IH. done.
Qed.

Lemma groups_bind_ext n k src (P : Z → Prop) (f g : list Z → list Z) :
  (n * k <= length src)%nat → Forall P src → (∀ x, length x = n → Forall P x → f x = g x) →
  groups n k src ≫= f = groups n k src ≫= g.
Proof.
  revert src. induction k as [|k IH]; intros src Hl HP Hfg; [done|]. cbn [groups]. rewrite !bind_cons. f_equal.
  - apply Hfg; [rewrite length_take; nia|]. by apply Forall_take.
  - apply IH; [rewrite length_drop; nia|by apply Forall_drop|done].
Qed.

Lemma groups_bytes n k src (f : list Z → list Z) : (∀ x, bytes (f x)) → bytes (groups n k src ≫= f).
Proof.
  intros Hf. induction (groups n k src) as [|g gs IH]; [constructor|]. rewrite bind_cons. apply Forall_app. split; [apply Hf|exact IH].
Qed.

Lemma YUV2RGB_bytes y u v : bytes (YUV2RGB y u v).
Proof. repeat constructor; apply clamp_byte. Qed.

Lemma any (src : list Z) : Forall (λ _, True) src.
Proof. by apply Forall_true. Qed.

(** The pairs of swab, taken two at a time. *)
Lemma uyvy2yuy2_image k src cap :
  length src = (4 * k)%nat → 4 * Z.of_nat k ≤ cap →
  uyvy2yuy2 cap (2 * Z.of_nat k) src = Ok (groups 4 k src ≫= λ g, groups 2 2 g ≫= uyvy_yuy2_group).
Proof.
  intros Hl Hc. unfold uyvy2yuy2. rewrite (convert_groups 2 2 _ _ _ _ (k * 2)); [|lia|apply shape_uyvy_yuy2| |lia|lia].
  - rewrite groups_mul. f_equal. change (2 * 2)%nat with 4%nat. induction (groups 4 k src) as [|g gs IH]; [done|].
    by rewrite !bind_cons, bind_app, IH.
  - rewrite Z.shiftl_mul_pow2 by lia. lia.
Qed.

Lemma yuy22rgb_image k src cap :
  length src = (4 * k)%nat → 6 * Z.of_nat k ≤ cap →
  yuy22rgb cap (2 * Z.of_nat k) src = Ok (groups 4 k src ≫= yuy2_rgb_group).
Proof.
  intros Hl Hc. unfold yuy22rgb. apply (convert_groups 4 6); [lia|apply shape_yuy2_rgb| |lia|lia].
  rewrite Z.shiftl_mul_pow2 by lia. lia.
Qed.

Lemma uyvy_agree k src :
  length src = (4 * k)%nat → let n := Z.of_nat k in
  ∃ rgb, uyvy2rgb (6 * n) (2 * n) src = Ok rgb ∧ bytes rgb ∧
    (yuy2 ← uyvy2yuy2 (4 * n) (2 * n) src; yuy22rgb (6 * n) (2 * n) yuy2) = Ok rgb.
Proof.
  intros Hl n. subst n. exists (groups 4 k src ≫= uyvy_rgb_group). split; [|split].
  - unfold uyvy2rgb. apply (convert_groups 4 6); [lia|apply shape_uyvy_rgb| |lia|lia].
    rewrite Z.shiftl_mul_pow2 by lia. lia.
  - apply groups_bytes. intros g. unfold uyvy_rgb_group. repeat case_match; try by constructor.
    apply Forall_app. split; apply YUV2RGB_bytes.
  - rewrite uyvy2yuy2_image by lia. rewrite res_bind_ok.
    assert (shape 4 (4 * 1) (λ g, groups 2 2 g ≫= uyvy_yuy2_group)) as Hs
      by (intros g (a & b & c & d & ->)%len4; done).
    rewrite yuy22rgb_image; [|rewrite (shape_length 4 4), length_groups; [done|exact Hs|apply groups_length; lia]|lia].
    f_equal. pose proof (convert_two 4 1 4 _ yuy2_rgb_group k src Hs ltac:(lia)) as E. rewrite Nat.mul_1_r in E.
    rewrite E. apply (groups_bind_ext _ _ _ (λ _, True)); [lia|apply any|].
    intros g (a & b & c & d & ->)%len4 _. done.
Qed.

Lemma iyu1_agree k src :
  length src = (6 * k)%nat → let n := Z.of_nat k in
  ∃ rgb, iyu12rgb (12 * n) (4 * n) src = Ok rgb ∧ bytes rgb ∧
    (yuy2 ← iyu12yuy2 (8 * n) (4 * n) src; yuy22rgb (12 * n) (4 * n) yuy2) = Ok rgb.
Proof.
  intros Hl n. subst n. set (n := Z.of_nat k) in *. exists (groups 6 k src ≫= iyu1_rgb_group).
  assert (4 * n + Z.shiftr (4 * n) 1 = Z.of_nat (6 * k)) as Hlim.
  { rewrite Z.shiftr_div_pow2 by lia. change (2 ^ 1) with 2. replace (4 * n) with (2 * n * 2) by lia.
    rewrite Z.div_mul by lia. lia. }
  split; [|split].
  - unfold iyu12rgb. apply (convert_groups 6 12); [lia|apply shape_iyu1_rgb|done|lia|lia].
  - apply groups_bytes. intros g. unfold iyu1_rgb_group. repeat case_match; try by constructor.
    unfold bytes. rewrite !Forall_app. split_and!; apply YUV2RGB_bytes.
  - unfold iyu12yuy2. rewrite (convert_groups 6 8 _ _ _ _ k); [|lia|apply shape_iyu1_yuy2|done|lia|lia]. rewrite res_bind_ok.
    replace (4 * n) with (2 * Z.of_nat (k * 2)) by lia.
    rewrite yuy22rgb_image;
      [|rewrite (shape_length 6 8), length_groups; [lia|apply shape_iyu1_yuy2|apply groups_length; lia]|lia].
    f_equal. rewrite (convert_two 6 2 4); [|apply shape_iyu1_yuy2|lia].
    apply (groups_bind_ext _ _ _ (λ _, True)); [lia|apply any|].
    intros g (a & b & c & d & e & f & ->)%len6 _. done.
Qed.

(** An IYU2 image whose pixels share their colour in pairs: [u], [v] and the two
    brightnesses of every pair. *)
Definition iyu2_pair (p : Z * Z * Z * Z) : list Z :=
  let '(u, v, y0, y1) := p in [u; y0; v; u; y1; v].

Lemma groups_iyu2_pairs px : groups 6 (length px) (px ≫= iyu2_pair) = iyu2_pair <$> px.
Proof. induction px as [|[[[u v] y0] y1] px IH]; [done|]. rewrite bind_cons. simpl. f_equal. done. Qed.

Lemma iyu2_agree px :
  let n := zlen px in let src := px ≫= iyu2_pair in
  ∃ rgb, iyu22rgb (6 * n) (2 * n) src = Ok rgb ∧ bytes rgb ∧
    (yuy2 ← iyu22yuy2 (4 * n) (2 * n) src; yuy22rgb (6 * n) (2 * n) yuy2) = Ok rgb.
Proof.
  intros n src. subst n. unfold zlen. set (k := length px).
  assert (length src = 6 * k)%nat as Hl.
  { unfold src, k. clear. induction px as [|[[[u v] y0] y1] px IH]; [done|]. rewrite bind_cons, length_app, IH. simpl. lia. }
  assert (2 * Z.of_nat k + Z.shiftl (2 * Z.of_nat k) 1 = Z.of_nat (6 * k)) as Hlim by (rewrite Z.shiftl_mul_pow2; lia).
  exists (groups 6 k src ≫= iyu2_rgb_group). split; [|split].
  - unfold iyu22rgb. apply (convert_groups 6 6); [lia|apply shape_iyu2_rgb|done|lia|lia].
  - apply groups_bytes. intros g. unfold iyu2_rgb_group. repeat case_match; try by constructor.
    unfold bytes. rewrite !Forall_app. split_and!; apply YUV2RGB_bytes.
  - unfold iyu22yuy2. rewrite (convert_groups 6 4 _ _ _ _ k); [|lia|apply shape_iyu2_yuy2|done|lia|lia]. rewrite res_bind_ok.
    rewrite yuy22rgb_image;
      [|rewrite (shape_length 6 4), length_groups; [lia|apply shape_iyu2_yuy2|apply groups_length; lia]|lia].
    f_equal. pose proof (convert_two 6 1 4 _ yuy2_rgb_group k src shape_iyu2_yuy2 ltac:(lia)) as E.
    rewrite Nat.mul_1_r in E. rewrite E. unfold src, k. rewrite groups_iyu2_pairs. clear.
    induction px as [|[[[u v] y0] y1] px IH]; [done|]. rewrite fmap_cons, !bind_cons. f_equal; [|exact IH].
    assert (∀ x, (x + x) `quot` 2 = x) as Hq by (intros x; rewrite Z.add_diag, Z.mul_comm; by apply Z.quot_mul).
    cbn [iyu2_pair iyu2_yuy2_group]. by rewrite !Hq.
Qed.

(** In general they differ: [iyu22yuy2] averages the colours of two pixels,
    [iyu22rgb] keeps each pixel's own. *)
Example iyu2_differs :
  iyu22rgb 6 2 [100; 80; 128; 200; 80; 128] = Ok [80; 86; 51; 80; 66; 153] ∧
  (yuy2 ← iyu22yuy2 4 2 [100; 80; 128; 200; 80; 128]; yuy22rgb 6 2 yuy2) = Ok [80; 76; 102; 80; 76; 102].
Proof. split; vm_compute; reflexivity. Qed.

Lemma bind_groups (k : nat) n (src : list Z) (f : Z → list Z) :
  length src = (n * k)%nat → src ≫= f = groups n k src ≫= λ g, g ≫= f.
Proof.
  revert src. induction k as [|k IH]; intros src Hl.
  - rewrite Nat.mul_0_r in Hl. by destruct src.
  - cbn [groups]. rewrite bind_cons, <- IH by (rewrite length_drop; lia). by rewrite <- bind_app, take_drop.
Qed.

Lemma grey_agree k y :
  length y = (2 * k)%nat → bytes y → let n := Z.of_nat k in
  ∃ yuy2, let rgb := y ≫= λ x, [x; x; x] in
    y2rgb (6 * n) (2 * n) y = Ok rgb ∧ y2yuy2 (4 * n) (2 * n) y = Ok yuy2 ∧
    yuy22rgb (6 * n) (2 * n) yuy2 = Ok rgb ∧ rgb2yuy2 (4 * n) (2 * n) rgb = Ok yuy2.
Proof.
  intros Hl Hb n. subst n. exists (groups 2 k y ≫= y_yuy2_group).
  assert (groups 2 k y ≫= (λ g, g ≫= λ x, [x; x; x]) = y ≫= λ x, [x; x; x]) as Hrgb by (symmetry; by apply bind_groups).
  split; [|split; [|split]].
  - unfold y2rgb. rewrite (convert_groups 1 3 _ _ _ _ (k * 2)); [|lia|apply shape_y_rgb|lia|lia|lia].
    f_equal.
    rewrite (bind_groups (k * 2) 1 y (λ x, [x; x; x])) by lia.
    apply (groups_bind_ext _ _ _ (λ x, 0 ≤ x < 256)); [lia|done|].
    intros [|x []] Hx Hbx; try done. simpl. apply Forall_cons in Hbx as [Hx0 _]. by rewrite YUV2RGB_grey.
  - unfold y2yuy2. apply (convert_groups 2 4); [lia|apply shape_y_yuy2|lia|lia|lia].
  - rewrite yuy22rgb_image;
      [|rewrite (shape_length 2 4), length_groups; [lia|apply shape_y_yuy2|apply groups_length; lia]|lia].
    f_equal. pose proof (convert_two 2 1 4 _ yuy2_rgb_group k y shape_y_yuy2 ltac:(lia)) as E.
    rewrite Nat.mul_1_r in E. rewrite E, <- Hrgb. apply (groups_bind_ext _ _ _ (λ x, 0 ≤ x < 256)); [lia|done|].
    intros g (a & b & ->)%len2 Hg. apply Forall_cons in Hg as [Ha Hg]. apply Forall_cons in Hg as [Hb' _].
    change (groups 4 1 (y_yuy2_group [a; b]) ≫= yuy2_rgb_group) with ((YUV2RGB a 0 0 ++ YUV2RGB b 0 0) ++ []).
    by rewrite !YUV2RGB_grey.
  - assert (length (y ≫= λ x, [x; x; x]) = (6 * k)%nat) as Hlr.
    { clear -Hl. assert (∀ l : list Z, length (l ≫= λ x, [x; x; x]) = (3 * length l)%nat) as H3
        by (induction l as [|x l IH]; [done|rewrite bind_cons, length_app, IH; simpl; lia]). rewrite H3. lia. }
    unfold rgb2yuy2. rewrite (convert_groups 6 4 _ _ _ _ k); [|lia|apply shape_rgb_yuy2| |lia|lia].
    2:{ rewrite Z.shiftl_mul_pow2 by lia. lia. }
    f_equal. rewrite <- Hrgb.
    assert (shape 2 (6 * 1) (λ g, g ≫= λ x : Z, [x; x; x])) as Hs by (intros g (a & b & ->)%len2; done).
    pose proof (convert_two 2 1 6 _ rgb_yuy2_group k y Hs ltac:(lia)) as E. rewrite Nat.mul_1_r in E. rewrite E.
    apply (groups_bind_ext _ _ _ (λ x, 0 ≤ x < 256)); [lia|done|].
    intros g (a & b & ->)%len2 Hg. apply Forall_cons in Hg as [Ha Hg]. apply Forall_cons in Hg as [Hb' _].
    change (groups 6 1 ([a; b] ≫= λ x, [x; x; x]) ≫= rgb_yuy2_group) with (rgb_yuy2_group [a; a; a; b; b; b] ++ []).
    unfold rgb_yuy2_group. by rewrite !RGB2YUV_grey.
Qed.

(** C19. The conversions agree with each other and stay inside their buffers: on
    images of whole groups, converting UYVY or IYU1 to RGB is converting it to
    YUY2 and that to RGB, and every result is a byte; so it is for the IYU2
    images whose pixels share their colour in pairs (and only for those in
    general, see [iyu2_differs]); a grey image becomes RGB with three equal
    components, through YUY2 as well, and rgb2yuy2 turns that back into the
    same YUY2 image. *)
Theorem conversions_agree (k : nat) uyvy iyu1 y iyu2 :
  length uyvy = (4 * k)%nat → length iyu1 = (6 * k)%nat → length y = (2 * k)%nat → bytes y →
  let n := Z.of_nat k in
  (∃ rgb, uyvy2rgb (6 * n) (2 * n) uyvy = Ok rgb ∧ bytes rgb ∧
    (yuy2 ← uyvy2yuy2 (4 * n) (2 * n) uyvy; yuy22rgb (6 * n) (2 * n) yuy2) = Ok rgb) ∧
  (∃ rgb, iyu12rgb (12 * n) (4 * n) iyu1 = Ok rgb ∧ bytes rgb ∧
    (yuy2 ← iyu12yuy2 (8 * n) (4 * n) iyu1; yuy22rgb (12 * n) (4 * n) yuy2) = Ok rgb) ∧
  (∃ rgb, let src := iyu2 ≫= λ '(u, v, y0, y1), [u; y0; v; u; y1; v] in
    iyu22rgb (6 * zlen iyu2) (2 * zlen iyu2) src = Ok rgb ∧ bytes rgb ∧
    (yuy2 ← iyu22yuy2 (4 * zlen iyu2) (2 * zlen iyu2) src;
     yuy22rgb (6 * zlen iyu2) (2 * zlen iyu2) yuy2) = Ok rgb) ∧
  (∃ yuy2, let rgb := y ≫= λ x, [x; x; x] in
    y2rgb (6 * n) (2 * n) y = Ok rgb ∧ y2yuy2 (4 * n) (2 * n) y = Ok yuy2 ∧
    yuy22rgb (6 * n) (2 * n) yuy2 = Ok rgb ∧ rgb2yuy2 (4 * n) (2 * n) rgb = Ok yuy2).
Proof.
  intros Hu Hi Hy Hb n. split; [by apply uyvy_agree|]. split; [by apply iyu1_agree|].
  split; [exact (iyu2_agree iyu2)|by apply grey_agree].
Qed.

(** A Y41P image has 12 bytes for 8 pixels, but the loop of y41p2yuyv goes on for
    16: on every image it reads past the end. *)
Lemma y41p_overruns cap k src :
  0 < k → zlen src = 12 * k → y41p2yuyv cap (8 * k) src = Fault OutOfBounds.
Proof.
  intros Hk Hs. unfold y41p2yuyv, convert. rewrite Z.shiftl_mul_pow2 by lia.
  assert (∀ j i out fuel, i + 12 * Z.of_nat j = 12 * k → (j < fuel)%nat →
    convert_loop 12 y41p_group (8 * k * 2 ^ 1) cap fuel src i out = Fault OutOfBounds) as Hloop.
  { induction j as [|j IH]; intros i out fuel Hi Hf; (destruct fuel as [|fuel]; [lia|]);
      unfold convert_loop; fold convert_loop; rewrite decide_True by lia.
    - by rewrite decide_True by lia.
    - rewrite decide_False by lia. case_decide; [done|]. apply IH; lia. }
  apply (Hloop (Z.to_nat k)); lia.
Qed.

(** ** Converting the frames of a stream (stream.c)

    [bufs] are the buffers of the frames. The new frame goes to the destinations
    of the converted stream; the result is [None] when no frame was free. *)
Definition convert_uyvy_to_rgb24 (h : heap) (bufs : gmap nat (list Z)) (uyvy : nat)
    : res (heap * gmap nat (list Z) * option nat) :=
  '(h, o) ← new_frame h;
  match o with
  | None => Ok (h, bufs, None)
  | Some rgb =>
      match frames h !! rgb, frames h !! uyvy with
      | Some f, Some fu =>
          match bufs !! d f, bufs !! d fu with
          | Some old, Some src =>
              let f := mkFrame (ref_count f) (size f) (destructor f) FORMAT_RAW_RGB24 (width fu) (height fu)
                (s32 (height fu * width fu * 3)) (key fu) (step f) (d f) (timestamp f) in
              out ← uyvy2rgb (size f) (flength fu `quot` 2) src;
              h ← unref_frame 1 (set_frames h (<[rgb := f]> (frames h))) uyvy;
              Ok (h, <[d f := out ++ drop (length out) old]> bufs, Some rgb)
          | _, _ => Fault UseAfterFree
          end
      | _, _ => Fault UseAfterFree
      end
  end.

(** When no frame is free the picture is dropped, but its reference is not: the
    frame is never free again. *)
Lemma convert_leaks h bufs uyvy : heap_inv h [] → convert_uyvy_to_rgb24 h bufs uyvy = Ok (h, bufs, None).
Proof. intros Hi. unfold convert_uyvy_to_rgb24. by rewrite new_frame_empty. Qed.

Lemma conversions_agree_witness :
  uyvy2rgb 6 2 [90; 100; 160; 110] = Ok [122; 99; 61; 132; 109; 71] ∧
  (yuy2 ← uyvy2yuy2 4 2 [90; 100; 160; 110]; yuy22rgb 6 2 yuy2) = Ok [122; 99; 61; 132; 109; 71].
Proof.
  assert (uyvy2rgb 6 2 [90; 100; 160; 110] = Ok [122; 99; 61; 132; 109; 71]) as E by (vm_compute; reflexivity).
  split; [exact E|].
  destruct (conversions_agree 1 [90; 100; 160; 110] [1; 2; 3; 4; 5; 6] [7; 8] [(90, 160, 100, 110)]) as ((rgb & E1 & _ & E2) & _);
    [reflexivity|reflexivity|reflexivity|repeat constructor; lia|].
  simpl Z.of_nat in *. vm_compute Z.mul in E1, E2. rewrite E in E1. injection E1 as <-. exact E2.
Defined.
