(* ===== verification/ParamFile.v ===== *)
(** * The camera's parameter files (wiscam-config.c, httpd-cgi/param.c)

    The network, stream and cloud settings of the camera are text files of lines
    with a name and a value. The REST server and the CGI program read and change
    them with the same functions: ReadLine, ReadParamStr and WriteParamStr. The
    file system is a map from paths to contents; that a file can be created is an
    argument. Values of names with SSID in them are in quotes.

    The files are compared with the list of their lines: a parameter that is
    written is read back, and reading any other gives what it gave before. *)

From stdpp Require Import prelude gmap strings.
From S2P Require Import Prelude Pmsg.

Local Open Scope c_scope.

Notation fsys := (gmap (list Z) (list Z)).

(** ** Functions of the C library *)

(** The text of an array: up to its first zero byte. *)
Definition text_of (l : list Z) : list Z := take (Z.to_nat (span_len (λ x, negb (x =? 0)) l)) l.

(** Where the first occurrence of [pat] begins. *)
Fixpoint strstr (s pat : list Z) : option (list Z) :=
  if decide (pat `prefix_of` s) then Some s
  else match s with [] => None | _ :: s => strstr s pat end.

Definition isspace (c : Z) : bool := bool_decide (c = 32 ∨ 9 ≤ c ≤ 13).
Definition skip_white (l : list Z) : list Z := drop (Z.to_nat (span_len isspace l)) l.

(** sscanf with the format " %s", and with [" \"%[^\"]s"]: what is stored, if
    anything is. *)
Definition scan_word (text : list Z) : option (list Z) :=
  let t := skip_white text in
  let w := take (Z.to_nat (span_len (λ c, negb (isspace c)) t)) t in
  if decide (w = []) then None else Some w.
Definition scan_quoted (text : list Z) : option (list Z) :=
  match skip_white text with
  | [] => None
  | c :: t => let w := take (Z.to_nat (span_len (λ c, negb (c =? 34)) t)) t in
              if decide (c ≠ 34 ∨ w = []) then None else Some w
  end.

(** ** Reading lines *)

(** [buf] are the bytes read so far. The result is the line, [None] at the end
    of the file, and what is left of the stream. *)
Fixpoint ReadLine_loop (iBufByteSize : Z) (stream buf : list Z) : res (option (list Z) * list Z) :=
  let finish rest := if decide (zlen buf < iBufByteSize) then Ok (Some buf, rest) else Fault OutOfBounds in
  match stream with
  | [] => if decide (buf = []) then Ok (None, []) else finish []
  | ch :: rest =>
      let ch := if decide (ch = 13) then 10 else ch in
      if decide (zlen buf < iBufByteSize) then
        let buf := buf ++ [ch] in
        if decide (ch = 10 ∨ zlen buf = iBufByteSize)
        then if decide (zlen buf < iBufByteSize) then Ok (Some buf, rest) else Fault OutOfBounds
        else ReadLine_loop iBufByteSize rest buf
      else Fault OutOfBounds
  end.
Definition ReadLine (iBufByteSize : Z) (stream : list Z) : res (option (list Z) * list Z) :=
  ReadLine_loop iBufByteSize stream [].

(** ** Parameters *)

Definition is_ssid (name : list Z) : bool := bool_decide (strstr name ($"SSID") ≠ None).

(** The loop of ReadParamStr: the text behind the name in the first line that
    begins with it. *)
Fixpoint find_param (fuel : nat) (stream name : list Z) : res (option (list Z)) :=
  match fuel with
  | O => Fault OutOfFuel
  | S fuel =>
      '(line, rest) ← ReadLine 256 stream;
      match line with
      | None => Ok None
      | Some buf =>
          let t := text_of buf in
          if decide (name `prefix_of` t) then Ok (Some (drop (length name) t)) else find_param fuel rest name
      end
  end.

(** [value] is what the array of [size] bytes holds before. *)
Definition ReadParamStr (fs : fsys) (path name value : list Z) (size : Z) : res (Z * list Z) :=
  if decide (size = 0) then Ok (-1, value) else
  match fs !! path with
  | None => Ok (-3, value)
  | Some stream =>
      o ← find_param (S (length stream)) stream name;
      match o with
      | None => Ok (0, [])
      | Some t =>
          match (if is_ssid name then scan_quoted t else scan_word t) with
          | None => Ok (0, [])
          | Some w => w ← sprintf_into size w; Ok (0, w)
          end
      end
  end.

(** A line of the new file. *)
Definition param_line (name value : list Z) : list Z :=
  if is_ssid name then name ++ $" " ++ [34] ++ value ++ [34; 10] else name ++ $" " ++ value ++ [10].

(** The loop of WriteParamStr: the contents of the new file. *)
Fixpoint rewrite_param (fuel : nat) (stream name value : list Z) : res (list Z) :=
  match fuel with
  | O => Fault OutOfFuel
  | S fuel =>
      '(line, rest) ← ReadLine 256 stream;
      match line with
      | None => Ok []
      | Some buf =>
          let t := text_of buf in
          out ← rewrite_param fuel rest name value;
          Ok ((if decide (name `prefix_of` t) then param_line name value else t) ++ out)
      end
  end.

Definition new_path (path : list Z) : list Z := path ++ $".new".

(** [can_create] says whether fopen of the new file succeeds. *)
Definition WriteParamStr (fs : fsys) (can_create : bool) (path name value : list Z) : res (fsys * Z) :=
  _ ← sprintf_into 128 (new_path path);
  let fs1 := if can_create then <[new_path path := []]> fs else fs in
  match fs !! path with
  | Some stream =>
      if can_create then
        contents ← rewrite_param (S (length stream)) stream name value;
        Ok (<[path := contents]> (delete (new_path path) fs1), 0)
      else Ok (fs1, -1)
  | None => Ok (fs1, -1)
  end.

(** ** Files as lines *)

(** A line without its end: no zero byte and no end of line in it, and short
    enough for the buffer. *)
Definition line_ok (l : list Z) : Prop := Forall (λ c, c ≠ 0 ∧ c ≠ 10 ∧ c ≠ 13) l ∧ zlen l ≤ 254.
Definition file_of (ls : list (list Z)) : list Z := concat ((λ l, l ++ [10]) <$> ls).

(** The first line that begins with the name, and its text behind it. *)
Fixpoint find_line (ls : list (list Z)) (name : list Z) : option (list Z) :=
  match ls with
  | [] => None
  | l :: ls => if decide (name `prefix_of` l) then Some (drop (length name) l) else find_line ls name
  end.

(** The value of a parameter: nothing when the line has none. *)
Definition param_value (ls : list (list Z)) (name : list Z) : list Z :=
  match find_line ls name with
  | None => []
  | Some t => default [] (if is_ssid name then scan_quoted (t ++ [10]) else scan_word (t ++ [10]))
  end.

(** The lines after a write. *)
Definition body_of (name value : list Z) : list Z :=
  name ++ $" " ++ if is_ssid name then [34] ++ value ++ [34] else value.
Definition set_lines (ls : list (list Z)) (name value : list Z) : list (list Z) :=
  (λ l, if decide (name `prefix_of` l) then body_of name value else l) <$> ls.

Lemma param_line_body name value : param_line name value = body_of name value ++ [10].
Proof. unfold param_line, body_of. destruct (is_ssid name); by rewrite <- !(assoc (++)). Qed.

Lemma ReadLine_loop_spec size l : ∀ buf rest,
  Forall (λ c, c ≠ 0 ∧ c ≠ 10 ∧ c ≠ 13) l → zlen buf + zlen l ≤ size - 2 →
  ReadLine_loop size (l ++ 10 :: rest) buf = Ok (Some (buf ++ l ++ [10]), rest).
Proof.
  induction l as [|c l IH]; intros buf rest Hl Hn; pose proof (zlen_nonneg buf).
  - cbn [app ReadLine_loop]. rewrite zlen_nil in Hn. rewrite (decide_False (P := 10 = 13)) by done.
    rewrite decide_True by lia. rewrite decide_True by by left.
    by rewrite decide_True by (rewrite zlen_app, zlen_cons, zlen_nil; lia).
  - apply Forall_cons in Hl as ((H0 & H10 & H13) & Hl). rewrite zlen_cons in Hn. pose proof (zlen_nonneg l).
    cbn [app ReadLine_loop]. rewrite (decide_False (P := c = 13)) by done. rewrite decide_True by lia.
    rewrite decide_False by (rewrite zlen_app, zlen_cons, zlen_nil; lia).
    rewrite IH by (rewrite ?zlen_app, ?zlen_cons, ?zlen_nil; done || lia). by rewrite <- (assoc (++)).
Qed.

Lemma ReadLine_spec size l rest : line_ok l → 256 ≤ size → ReadLine size (l ++ 10 :: rest) = Ok (Some (l ++ [10]), rest).
Proof. intros (Hl & Hn) Hs. apply (ReadLine_loop_spec size l []); [done|rewrite zlen_nil; lia]. Qed.

Lemma text_of_id l : Forall (λ c, c ≠ 0) l → text_of l = l.
Proof.
  intros Hl. unfold text_of. assert (span_len (λ x, negb (x =? 0)) l = zlen l) as ->.
  { induction Hl as [|x l Hx _ IH]; [done|]. cbn [span_len]. rewrite zlen_cons, IH. by rewrite (proj2 (Z.eqb_neq x 0) Hx). }
  rewrite to_nat_zlen. by apply take_ge.
Qed.

Lemma line_text l : line_ok l → text_of (l ++ [10]) = l ++ [10].
Proof.
  intros (Hl & _). apply text_of_id, Forall_app. split; [|by repeat constructor].
  eapply Forall_impl; [exact Hl|]. naive_solver.
Qed.

(** A name without an end of line begins the line when it begins its text. *)
Lemma prefix_line name l : Forall (λ c, c ≠ 10) name → name `prefix_of` l ++ [10] ↔ name `prefix_of` l.
Proof.
  intros Hn. split; [|by apply prefix_app_r]. intros (k & E).
  destruct k as [|x k _] using rev_ind.
  - rewrite app_nil_r in E. exfalso. apply (f_equal last) in E. rewrite last_snoc in E. symmetry in E.
    apply last_Some_elem_of in E. rewrite Forall_forall in Hn. by apply (Hn 10).
  - rewrite (assoc (++)) in E. apply app_inj_tail in E as (-> & _). by exists k.
Qed.

Lemma drop_line name l : name `prefix_of` l → drop (length name) (l ++ [10]) = drop (length name) l ++ [10].
Proof. intros (k & ->). by rewrite <- (assoc (++)), !drop_app_length. Qed.

Lemma file_of_cons l ls : file_of (l :: ls) = l ++ 10 :: file_of ls.
Proof. unfold file_of. rewrite fmap_cons. cbn [concat]. by rewrite <- (assoc (++)). Qed.

Lemma length_file_of ls : (length ls <= length (file_of ls))%nat.
Proof. induction ls as [|l ls IH]; [done|]. rewrite file_of_cons, length_app. cbn [length]. lia. Qed.

Lemma find_param_spec ls name : ∀ fuel,
  Forall line_ok ls → Forall (λ c, c ≠ 10) name → (length ls < fuel)%nat →
  find_param fuel (file_of ls) name = Ok ((λ t, t ++ [10]) <$> find_line ls name).
Proof.
  induction ls as [|l ls IH]; intros fuel Hls Hn Hf; (destruct fuel as [|fuel]; [lia|]); [done|].
  apply Forall_cons in Hls as (Hl & Hls). cbn [find_param find_line]. rewrite file_of_cons, ReadLine_spec by done.
  rewrite res_bind_ok, line_text by done.
  destruct (decide (name `prefix_of` l)) as [Hp|Hp].
  - rewrite decide_True by by apply prefix_line. by rewrite drop_line.
  - rewrite decide_False by by rewrite prefix_line. apply IH; [done|done|simpl in Hf; lia].
Qed.

Lemma rewrite_param_spec ls name value : ∀ fuel,
  Forall line_ok ls → Forall (λ c, c ≠ 10) name → (length ls < fuel)%nat →
  rewrite_param fuel (file_of ls) name value = Ok (file_of (set_lines ls name value)).
Proof.
  induction ls as [|l ls IH]; intros fuel Hls Hn Hf; (destruct fuel as [|fuel]; [lia|]); [done|].
  apply Forall_cons in Hls as (Hl & Hls). cbn [rewrite_param]. rewrite file_of_cons, ReadLine_spec by done.
  rewrite res_bind_ok, line_text by done. rewrite IH by (done || (simpl in Hf; lia)). rewrite res_bind_ok.
  unfold set_lines. rewrite fmap_cons, file_of_cons. f_equal. fold (set_lines ls name value).
  destruct (decide (name `prefix_of` l)) as [Hp|Hp].
  - rewrite decide_True by by apply prefix_line. by rewrite param_line_body, <- (assoc (++)).
  - rewrite decide_False by by rewrite prefix_line. by rewrite <- (assoc (++)).
Qed.

(** ** Reading and writing *)

(** A value that can be written: not empty, within a line, and without what ends
    it when it is read. *)
Definition value_ok (name v : list Z) : Prop :=
  v ≠ [] ∧ zlen v ≤ 127 ∧ Forall (λ c, c ≠ 0 ∧ c ≠ 10 ∧ c ≠ 13 ∧ if is_ssid name then c ≠ 34 else isspace c = false) v.
Definition name_ok (name : list Z) : Prop := Forall (λ c, c ≠ 0 ∧ c ≠ 10 ∧ c ≠ 13) name.

Lemma name_no_end name : name_ok name → Forall (λ c, c ≠ 10) name.
Proof. intros H. eapply Forall_impl; [exact H|]. naive_solver. Qed.

(** What a reader finds of a written value: of a name with SSID in it the text
    up to the first quote, of another its first word. *)
Definition plain_value (v : list Z) : Prop := Forall (λ c, c ≠ 0 ∧ c ≠ 10 ∧ c ≠ 13) v ∧ zlen v ≤ 127.
Definition before_quote (v : list Z) : list Z := take (Z.to_nat (span_len (λ c, negb (c =? 34)) v)) v.
Definition first_word (v : list Z) : list Z :=
  take (Z.to_nat (span_len (λ c, negb (isspace c)) (skip_white v))) (skip_white v).
Definition read_back (name v : list Z) : list Z := if is_ssid name then before_quote v else first_word v.

Lemma span_len_nonneg p l : 0 ≤ span_len p l.
Proof. induction l as [|x l IH]; simpl; [done|]. case_match; lia. Qed.

Lemma take_span_whole p v : Forall (λ x, p x = true) v → take (Z.to_nat (span_len p v)) v = v.
Proof.
  induction 1 as [|x v Hx _ IH]; [done|]. simpl. rewrite Hx. pose proof (span_len_nonneg p v).
  rewrite Z2Nat.inj_add by lia. simpl. by rewrite IH.
Qed.

Lemma take_span p v c rest :
  p c = false → take (Z.to_nat (span_len p (v ++ c :: rest))) (v ++ c :: rest) = take (Z.to_nat (span_len p v)) v.
Proof.
  intros Hc. induction v as [|x v IH]; simpl; [by rewrite Hc|]. destruct (p x); [|done].
  pose proof (span_len_nonneg p v). pose proof (span_len_nonneg p (v ++ c :: rest)).
  rewrite !Z2Nat.inj_add by lia. simpl. by rewrite IH.
Qed.

Lemma zlen_take_le (n : nat) (l : list Z) : zlen (take n l) ≤ zlen l.
Proof. unfold zlen. rewrite length_take. lia. Qed.

Lemma skip_white_cons c l : skip_white (c :: l) = if isspace c then skip_white l else c :: l.
Proof.
  unfold skip_white. cbn [span_len]. destruct (isspace c); [|done]. pose proof (span_len_nonneg isspace l).
  rewrite Z2Nat.inj_add by lia. done.
Qed.

Lemma skip_white_end v : skip_white (v ++ [10]) = if decide (skip_white v = []) then [] else skip_white v ++ [10].
Proof.
  induction v as [|c v IH]; [done|]. rewrite <- app_comm_cons, !skip_white_cons. destruct (isspace c); [done|].
  by rewrite decide_False.
Qed.

Lemma read_back_short name v : zlen (read_back name v) ≤ zlen v.
Proof.
  unfold read_back, before_quote, first_word. destruct (is_ssid name); [apply zlen_take_le|].
  etrans; [apply zlen_take_le|]. unfold skip_white, zlen. rewrite length_drop. lia.
Qed.

(** A proper value is found as it was written. *)
Lemma read_back_value name v : value_ok name v → read_back name v = v.
Proof.
  intros (Hne & _ & Hv). unfold read_back. destruct (is_ssid name).
  - apply take_span_whole. eapply Forall_impl; [exact Hv|]. intros c (_ & _ & _ & Hc). cbn. by apply negb_true_iff, Z.eqb_neq.
  - unfold first_word. assert (skip_white v = v) as ->.
    { destruct v as [|c v]; [done|]. rewrite skip_white_cons. apply Forall_cons in Hv as ((_ & _ & _ & ->) & _). done. }
    apply take_span_whole. eapply Forall_impl; [exact Hv|]. intros c (_ & _ & _ & Hc). cbn. by rewrite Hc.
Qed.

Lemma scan_written name v :
  (if is_ssid name then scan_quoted (drop (length name) (body_of name v) ++ [10])
   else scan_word (drop (length name) (body_of name v) ++ [10])) =
  if decide (read_back name v = []) then None else Some (read_back name v).
Proof.
  unfold body_of, read_back. rewrite drop_app_length. change ($" ") with [32]. destruct (is_ssid name).
  - unfold scan_quoted. cbn [app]. rewrite skip_white_cons. change (isspace 32) with true. cbv iota.
    rewrite skip_white_cons. change (isspace 34) with false. cbv iota.
    rewrite <- app_assoc. cbn [app]. rewrite take_span by done. fold (before_quote v).
    repeat case_decide; naive_solver.
  - unfold scan_word. cbn [app]. rewrite skip_white_cons. change (isspace 32) with true. cbv iota.
    unfold first_word. rewrite skip_white_end. destruct (decide (skip_white v = [])) as [->|Hne]; [done|].
    by rewrite take_span by done.
Qed.

Lemma ReadParamStr_spec fs path ls name old size :
  fs !! path = Some (file_of ls) → Forall line_ok ls → Forall (λ c, c ≠ 10) name → size ≠ 0 →
  ReadParamStr fs path name old size =
  if decide (param_value ls name = []) then Ok (0, [])
  else if decide (zlen (param_value ls name) < size) then Ok (0, param_value ls name) else Fault OutOfBounds.
Proof.
  intros Hfs Hls Hn Hs. unfold ReadParamStr, param_value. rewrite decide_False by done. rewrite Hfs.
  pose proof (length_file_of ls). rewrite find_param_spec by (done || lia). rewrite res_bind_ok.
  destruct (find_line ls name) as [t|]; [|done]. cbn [fmap option_fmap option_map].
  assert (∀ w t, scan_word t = Some w → w ≠ []) as Hw.
  { intros w x. unfold scan_word. case_decide; [done|]. by intros [= <-]. }
  assert (∀ w t, scan_quoted t = Some w → w ≠ []) as Hq.
  { intros w x. unfold scan_quoted. destruct (skip_white x) as [|c y]; [done|].
    case_decide as Hc; [done|]. intros [= <-]. naive_solver. }
  destruct (is_ssid name).
  - destruct (scan_quoted (t ++ [10])) as [w|] eqn:E; [|done]. apply Hq in E. cbn. rewrite decide_False by done.
    unfold sprintf_into. by case_decide.
  - destruct (scan_word (t ++ [10])) as [w|] eqn:E; [|done]. apply Hw in E. cbn. rewrite decide_False by done.
    unfold sprintf_into. by case_decide.
Qed.

Lemma find_line_set ls name v :
  Exists (λ l, name `prefix_of` l) ls → find_line (set_lines ls name v) name = Some (drop (length name) (body_of name v)).
Proof.
  induction 1 as [l ls Hl|l ls _ IH]; cbn.
  - rewrite (decide_True (P := name `prefix_of` l)) by done. rewrite decide_True; [done|]. by apply prefix_app_r.
  - fold (set_lines ls name v). destruct (decide (name `prefix_of` l)) as [Hl|Hl].
    + rewrite decide_True; [done|]. by apply prefix_app_r.
    + by rewrite decide_False.
Qed.

(** Names that do not begin each other do not get in each other's way. *)
Lemma find_line_other ls name v other :
  ¬ other `prefix_of` name → ¬ name `prefix_of` other → find_line (set_lines ls name v) other = find_line ls other.
Proof.
  intros H1 H2. induction ls as [|l ls IH]; [done|]. cbn. fold (set_lines ls name v). rewrite IH.
  assert (∀ x, name `prefix_of` x → ¬ other `prefix_of` x) as Hx.
  { intros x Hn Ho. by destruct (prefix_weak_total _ _ _ Hn Ho). }
  destruct (decide (name `prefix_of` l)) as [Hl|Hl]; [|done].
  rewrite !decide_False; [done|by apply Hx|apply Hx; by apply prefix_app_r].
Qed.

Lemma value_plain name v : value_ok name v → plain_value v.
Proof. intros (_ & ? & Hv). split; [|done]. eapply Forall_impl; [exact Hv|]. naive_solver. Qed.

Lemma set_lines_plain ls name v :
  Forall line_ok ls → name_ok name → plain_value v → zlen (body_of name v) ≤ 254 → Forall line_ok (set_lines ls name v).
Proof.
  intros Hls Hn (Hv & _) Hl. apply Forall_fmap. eapply Forall_impl; [exact Hls|]. intros l Hok. cbn.
  case_decide; [|done]. split; [|done]. unfold body_of. change ($" ") with [32].
  apply Forall_app. split; [done|]. apply Forall_app. split; [by repeat constructor|].
  destruct (is_ssid name); [|done]. apply Forall_app. split; [by repeat constructor|].
  apply Forall_app. split; [done|by repeat constructor].
Qed.

Lemma set_lines_ok ls name v :
  Forall line_ok ls → name_ok name → value_ok name v → zlen (body_of name v) ≤ 254 → Forall line_ok (set_lines ls name v).
Proof. intros ? ? ?%value_plain. by apply set_lines_plain. Qed.

(** A write of a parameter the file has not changes nothing. *)
Lemma set_lines_absent ls name v : ¬ Exists (λ l, name `prefix_of` l) ls → set_lines ls name v = ls.
Proof.
  induction ls as [|l ls IH]; [done|]. rewrite Exists_cons. intros Hno. cbn. fold (set_lines ls name v).
  rewrite decide_False by tauto. by rewrite IH by tauto.
Qed.

Lemma find_line_none ls name : ¬ Exists (λ l, name `prefix_of` l) ls → find_line ls name = None.
Proof.
  induction ls as [|l ls IH]; [done|]. rewrite Exists_cons. intros Hno. cbn.
  rewrite decide_False by tauto. by rewrite IH by tauto.
Qed.

Lemma param_value_written ls name v :
  Exists (λ l, name `prefix_of` l) ls → param_value (set_lines ls name v) name = read_back name v.
Proof.
  intros Hex. unfold param_value. rewrite find_line_set, scan_written by done. by case_decide.
Qed.

(** The file system after a write. *)
Definition written (fs : fsys) (path : list Z) (ls : list (list Z)) (name v : list Z) : fsys :=
  <[path := file_of (set_lines ls name v)]> (delete (new_path path) (<[new_path path := []]> fs)).

Section Written.
Context (fs : fsys) (path : list Z) (ls : list (list Z)) (name v : list Z).
Hypothesis Hfs : fs !! path = Some (file_of ls).
Hypothesis Hls : Forall line_ok ls.
Hypothesis Hn : name_ok name.

Lemma written_file : written fs path ls name v !! path = Some (file_of (set_lines ls name v)).
Proof. apply lookup_insert_eq. Qed.

Lemma WriteParamStr_spec : zlen path < 124 → WriteParamStr fs true path name v = Ok (written fs path ls name v, 0).
Proof.
  intros Hp. unfold WriteParamStr, sprintf_into.
  rewrite decide_True by (unfold new_path; rewrite zlen_app; change (zlen ($".new")) with 4; lia).
  rewrite res_bind_ok, Hfs. pose proof (length_file_of ls).
  by rewrite rewrite_param_spec by (done || lia || by apply name_no_end).
Qed.

Lemma written_other_file p : p ≠ path → p ≠ new_path path → written fs path ls name v !! p = fs !! p.
Proof. intros H1 H2. unfold written. by rewrite lookup_insert_ne, lookup_delete_ne, lookup_insert_ne by done. Qed.

Hypothesis Hv : plain_value v.
Hypothesis Hb : zlen (body_of name v) ≤ 254.

Lemma read_written old :
  Exists (λ l, name `prefix_of` l) ls →
  ReadParamStr (written fs path ls name v) path name old 128 = Ok (0, read_back name v).
Proof.
  intros Hex. rewrite (ReadParamStr_spec _ path (set_lines ls name v));
    [|apply written_file|by apply set_lines_plain|by apply name_no_end|done].
  rewrite param_value_written by done. pose proof (read_back_short name v). destruct Hv as (_ & Hl).
  case_decide as He; [by rewrite He|]. by rewrite decide_True by lia.
Qed.

Lemma read_absent old :
  ¬ Exists (λ l, name `prefix_of` l) ls → ReadParamStr (written fs path ls name v) path name old 128 = Ok (0, []).
Proof.
  intros Hno. rewrite (ReadParamStr_spec _ path (set_lines ls name v));
    [|apply written_file|by apply set_lines_plain|by apply name_no_end|done].
  unfold param_value. by rewrite set_lines_absent, find_line_none by done.
Qed.

Lemma read_other other old size :
  Forall (λ c, c ≠ 10) other → ¬ other `prefix_of` name → ¬ name `prefix_of` other → size ≠ 0 →
  ReadParamStr (written fs path ls name v) path other old size = ReadParamStr fs path other old size.
Proof.
  intros Ho H1 H2 Hs. rewrite (ReadParamStr_spec _ path (set_lines ls name v)); [|apply written_file|by apply set_lines_plain|done..].
  rewrite (ReadParamStr_spec fs path ls) by done. unfold param_value. by rewrite find_line_other.
Qed.
End Written.

(** C33. Writing and reading a parameter. On a file of lines of at most 254
    characters, and for a value of at most 127 characters without a zero byte or
    an end of line that fits into a line with its name, WriteParamStr returns 0
    and leaves a well-formed file with as many lines. When the file has a line for
    the parameter, ReadParamStr then finds the value: of a name with SSID in it
    up to the first quote, of another its first word, so exactly the value
    that was written when it has no quote or white space, respectively. When it
    has none, the file is unchanged and the parameter reads as empty. Every
    parameter neither of whose names begins the other, and every other file,
    reads as before. *)
Theorem param_write_read fs path ls name v :
  fs !! path = Some (file_of ls) → Forall line_ok ls → name_ok name → plain_value v →
  zlen (body_of name v) ≤ 254 → zlen path < 124 →
  ∃ fs' ls', WriteParamStr fs true path name v = Ok (fs', 0) ∧
    fs' !! path = Some (file_of ls') ∧ Forall line_ok ls' ∧ length ls' = length ls ∧
    (Exists (λ l, name `prefix_of` l) ls →
       ∀ old, ReadParamStr fs' path name old 128 = Ok (0, read_back name v)) ∧
    (value_ok name v → read_back name v = v) ∧
    (¬ Exists (λ l, name `prefix_of` l) ls →
       ls' = ls ∧ ∀ old, ReadParamStr fs' path name old 128 = Ok (0, [])) ∧
    (∀ other old size, Forall (λ c, c ≠ 10) other → ¬ other `prefix_of` name → ¬ name `prefix_of` other → size ≠ 0 →
       ReadParamStr fs' path other old size = ReadParamStr fs path other old size) ∧
    (∀ p, p ≠ path → p ≠ new_path path → fs' !! p = fs !! p).
Proof.
  intros Hfs Hls Hn Hv Hb Hp. exists (written fs path ls name v), (set_lines ls name v).
  split; [by apply WriteParamStr_spec|]. split; [apply written_file|]. split; [by apply set_lines_plain|].
  split; [apply length_fmap|]. split; [intros Hex old; by apply read_written|]. split; [apply read_back_value|].
  split; [intros Hno; split; [by apply set_lines_absent|intros old; by apply read_absent]|].
  split; [intros other old size; by apply read_other|]. apply written_other_file.
Qed.

Definition ex_path : list Z := $"/mnt/nuwicam/etc/network_config".
Definition ex_lines : list (list Z) :=
  [$"BOOTPROTO DHCP"; $"SSID " ++ [34] ++ $"home" ++ [34]; $"AUTH_KEY 12345678"; $"AP_SSID " ++ [34] ++ $"WisCam" ++ [34]].
Definition ex_fs : fsys := {[ex_path := file_of ex_lines]}.

Lemma ex_lines_ok : Forall line_ok ex_lines.
Proof.
  apply (bool_decide_unpack (Forall (λ l, Forall (λ c, c ≠ 0 ∧ c ≠ 10 ∧ c ≠ 13) l ∧ zlen l ≤ 254) ex_lines)). by vm_compute.
Qed.

Lemma param_write_read_witness :
  ∃ fs', WriteParamStr ex_fs true ex_path ($"SSID") ($"my net") = Ok (fs', 0) ∧
    ReadParamStr fs' ex_path ($"SSID") [] 128 = Ok (0, $"my net") ∧
    ReadParamStr fs' ex_path ($"AP_SSID") [] 128 = Ok (0, $"WisCam").
Proof.
  destruct (param_write_read ex_fs ex_path ex_lines ($"SSID") ($"my net"))
    as (fs' & ls' & Hw & _ & _ & _ & Hr & Hval & _ & Ho & _).
  - reflexivity.
  - apply ex_lines_ok.
  - apply (bool_decide_unpack (Forall (λ c, c ≠ 0 ∧ c ≠ 10 ∧ c ≠ 13) ($"SSID"))). by vm_compute.
  - split; [by repeat constructor|by vm_compute].
  - by vm_compute.
  - by vm_compute.
  - exists fs'. split; [exact Hw|]. split; [rewrite Hr by (apply (bool_decide_unpack _); by vm_compute); by vm_compute|].
    rewrite Ho; [by vm_compute|by repeat constructor|..|done].
    + apply (bool_decide_unpack _). by vm_compute.
    + apply (bool_decide_unpack _). by vm_compute.
Defined.

(** ** Defects *)

(** A parameter that the file does not have is not added; the result is 0 all
    the same. *)
Lemma missing_param_not_added fs path ls name v :
  fs !! path = Some (file_of ls) → Forall line_ok ls → name_ok name → zlen path < 124 →
  Forall (λ l, ¬ name `prefix_of` l) ls →
  ∃ fs', WriteParamStr fs true path name v = Ok (fs', 0) ∧ fs' !! path = fs !! path.
Proof.
  intros Hfs Hls Hn Hp Hno. eexists. split; [by apply WriteParamStr_spec|]. rewrite written_file, Hfs.
  by rewrite set_lines_absent by (by apply Forall_not_Exists).
Qed.

(** ReadLine ends a line of the size of its buffer behind the buffer. *)
Lemma long_file_line_overruns l buf rest :
  Forall (λ c, c ≠ 10 ∧ c ≠ 13) l → 256 ≤ zlen buf + zlen l → zlen buf < 256 → ReadLine_loop 256 (l ++ rest) buf = Fault OutOfBounds.
Proof.
  revert buf. induction l as [|c l IH]; intros buf Hl Hn Hb; [rewrite zlen_nil in Hn; lia|].
  apply Forall_cons in Hl as ((H10 & H13) & Hl). rewrite zlen_cons in Hn. cbn [app ReadLine_loop].
  rewrite (decide_False (P := c = 13)) by done. rewrite decide_True by done.
  assert (zlen (buf ++ [c]) = zlen buf + 1) as Hz by by rewrite zlen_app.
  destruct (decide (zlen buf = 255)) as [He|He].
  - rewrite decide_True by (right; lia). by rewrite decide_False by lia.
  - rewrite decide_False by lia. apply IH; [done|lia|lia].
Qed.

(** A value with an end of line in it adds a line of its own, with any
    parameter. *)
Lemma newline_adds_line fs path ls name v l :
  fs !! path = Some (file_of ls) → Forall line_ok ls → name_ok name → zlen path < 124 → is_ssid name = false →
  find_line ls name ≠ None →
  ∃ fs' ls1 ls2, WriteParamStr fs true path name (v ++ 10 :: l) = Ok (fs', 0) ∧
    fs' !! path = Some (file_of (ls1 ++ body_of name v :: l :: ls2)).
Proof.
  intros Hfs Hls Hn Hp Hq Hf.
  assert (∃ ls1 ls2, file_of (set_lines ls name (v ++ 10 :: l)) = file_of (ls1 ++ body_of name v :: l :: ls2)) as (ls1 & ls2 & E).
  { clear Hfs Hls. induction ls as [|x ls IH]; [done|]. cbn [find_line] in Hf. set (w := v ++ 10 :: l) in *.
    change (set_lines (x :: ls) name w) with ((if decide (name `prefix_of` x) then body_of name w else x) :: set_lines ls name w).
    destruct (decide (name `prefix_of` x)) as [Hx|Hx].
    - exists [], (set_lines ls name w). cbn [app]. rewrite !file_of_cons. unfold body_of, w. rewrite Hq.
      by rewrite <- !app_assoc, <- app_comm_cons.
    - destruct (IH Hf) as (ls1 & ls2 & E). exists (x :: ls1), ls2. rewrite <- app_comm_cons, !file_of_cons. by rewrite E. }
  eexists _, ls1, ls2. split; [by apply WriteParamStr_spec|]. by rewrite written_file, E.
Qed.
