(* ===== verification/Wiscam.v ===== *)
(** * The settings of the REST server (wiscam-config.c)

    The REST server of the camera changes and lists the parameters of its groups.
    configs_update takes the query of a request, "name=value&name=value", apart in
    place, decodes the values (unescape), replaces the names of the interface by
    those of the files, and writes each parameter with [WriteParamStr];
    configs_list and configs_list_all print parameters as members of a JSON
    object. The buffer of the query is kept with its zero bytes and what is
    overwritten in it. *)

From stdpp Require Import prelude gmap strings pretty.
From S2P Require Import Prelude Pmsg ParamFile.

Local Open Scope c_scope.

(** The test for a failure, where there is none. *)
Ltac no_failure := match goal with |- context [decide (?x ≠ ?x)] => rewrite (decide_False (P := x ≠ x)) by (intros H'; by apply H') end.

(** ** Tables (wiscam-config.h) *)

Definition etc : list Z := $"/mnt/nuwicam/etc/".
Definition s_astrConfigFile : list (list Z) :=
  (λ f, etc ++ f) <$> [$"network_config"; $"stream_config"; $"nabtonat_config"; $"apmsg_config"; $"stamsg_config";
                       $"apstamsg_config"; $"wiscam.version"].
Definition g_astrGroupName : list (list Z) :=
  [$"wifi"; $"stream"; $"nabto"; $"apmsg"; $"stamsg"; $"apstamsg"; $"version"].
Definition g_astrWifiParam : list (list Z) :=
  [$"BOOTPROTO"; $"IPADDR"; $"GATEWAY"; $"SSID"; $"AUTH_MODE"; $"ENCRYPT_TYPE"; $"AUTH_KEY"; $"WPS_TRIG_KEY"; $"AP_IPADDR";
   $"AP_SSID"; $"AP_AUTH_MODE"; $"AP_ENCRYPT_TYPE"; $"AP_AUTH_KEY"; $"AP_CHANNEL"].
Definition g_astrStreamParam : list (list Z) :=
  [$"VINWIDTH"; $"VINHEIGHT"; $"JPEGENCWIDTH"; $"JPEGENCHEIGHT"; $"BITRATE"].
Definition g_astrNAbtoParam : list (list Z) := [$"nabto_id"; $"nabto_key"; $"nabto_uuid"].
Definition g_astrApMsgParam : list (list Z) :=
  [$"ap_ssid"; $"ap_key"; $"ap_bssid"; $"ap_ipaddr"; $"ap_channel"; $"ap_gateway"].
Definition g_astrStaMsgParam : list (list Z) := [$"sta_ssid"; $"sta_key"; $"sta_bssid"; $"sta_ipaddr"; $"sta_gateway"].
Definition g_astrParamGroup : list (list (list Z)) :=
  [g_astrWifiParam; g_astrStreamParam; g_astrNAbtoParam; g_astrApMsgParam; g_astrStaMsgParam;
   g_astrApMsgParam ++ g_astrStaMsgParam; [$"version"]].

(** The index of a group; -1 when there is none. *)
Fixpoint search_group (names : list (list Z)) (name : list Z) (i : Z) : Z :=
  match names with
  | [] => -1
  | n :: names => if decide (name = n) then i else search_group names name (i + 1)
  end.
Definition configs_search_groupname (name : list Z) : Z := search_group g_astrGroupName name 0.

(** ** Decoding of values *)

Definition hex_char_to_int (c : Z) : Z :=
  if decide (48 ≤ c ≤ 57) then c - 48
  else if decide (97 ≤ c ≤ 102) then c - 97 + 10
  else if decide (65 ≤ c ≤ 70) then c - 65 + 10
  else -1.

Fixpoint unescape_loop (fuel : nat) (buf : list Z) (length src dst : Z) : res (list Z * Z) :=
  if decide (src < length) then
    match fuel with
    | O => Fault OutOfFuel
    | S fuel =>
        c ← rd buf src;
        if decide (c ≠ 37) then
          buf ← wr buf dst c;
          unescape_loop fuel buf length (src + 1) (dst + 1)
        else if decide (src + 2 > length) then Ok (buf, -1)
        else
          h ← rd buf (src + 1);
          if decide (hex_char_to_int h = -1) then Ok (buf, -1) else
          buf ← wr buf dst (u8 (hex_char_to_int h * 16));
          l ← rd buf (src + 2);
          if decide (hex_char_to_int l = -1) then Ok (buf, -1) else
          x ← rd buf dst;
          buf ← wr buf dst (u8 (x + hex_char_to_int l));
          unescape_loop fuel buf length (src + 3) (dst + 1)
    end
  else buf ← wr buf dst 0; Ok (buf, 0).

(** In place, on a buffer with the string and its zero byte. *)
Definition unescape (buf : list Z) : res (list Z * Z) :=
  s ← cstr buf 0;
  unescape_loop (length buf) buf (zlen s) 0 0.

(** ** Taking a query apart *)

(** strtok_r from offset [i]: the token, where the search goes on, and the
    buffer with the delimiter overwritten. *)
Definition strtok_r (q : list Z) (i delim : Z) : res (option (Z * Z) * list Z) :=
  let i := i + span_len (λ c, c =? delim) (drop (Z.to_nat i) q) in
  c ← rd q i;
  if decide (c = 0) then Ok (None, q) else
  let e := i + span_len (λ c, negb ((c =? 0) || (c =? delim))) (drop (Z.to_nat i) q) in
  c ← rd q e;
  if decide (c = 0) then Ok (Some (i, e), q)
  else q ← wr q e 0; Ok (Some (i, e + 1), q).

(** strcpy to an offset of the buffer. *)
Definition strcpy_at (q : list Z) (i : Z) (s : list Z) : res (list Z) :=
  if decide (0 ≤ i ∧ i + zlen s < zlen q) then Ok (blit q i (s ++ [0])) else Fault OutOfBounds.

(** The names of the interface: what is written instead. *)
Definition wifi_names : list (list Z * list Z) :=
  [($"ap_ssid", $"AP_SSID"); ($"ap_key", $"AP_AUTH_KEY"); ($"ap_ipaddr", $"AP_IPADDR"); ($"ap_channel", $"AP_CHANNEL");
   ($"sta_ssid", $"SSID"); ($"sta_key", $"AUTH_KEY")].
Definition stream_names : list (list Z * list Z) :=
  [($"bitrate", $"BITRATE"); ($"vin_width", $"VINWIDTH"); ($"vin_height", $"VINHEIGHT");
   ($"jpegenc_width", $"JPEGENCWIDTH"); ($"jpegenc_height", $"JPEGENCHEIGHT")].
Definition find_name (t : list (list Z * list Z)) (name : list Z) : option (list Z) :=
  snd <$> (list_find (λ x, x.1 = name) t ≫= λ r, Some r.2).

(** The new name for a group; [None] where the code returns -1. *)
Definition file_name (group name : list Z) : option (list Z) :=
  if decide (group = $"wifi") then find_name wifi_names name
  else if decide (group = $"stream") then find_name stream_names name
  else Some name.

(** The writes before the parameter itself: a key comes with its encryption. *)
Definition before_writes (group name : list Z) : list (list Z * list Z) :=
  if decide (group = $"wifi" ∧ name = $"ap_key") then [($"AP_AUTH_MODE", $"WPA2PSK"); ($"AP_ENCRYPT_TYPE", $"AES")] else [].

(** Writes in order, up to the first that fails. *)
Fixpoint write_all (fs : fsys) (can_create : bool) (path : list Z) (l : list (list Z * list Z)) : res (fsys * Z) :=
  match l with
  | [] => Ok (fs, 0)
  | (n, v) :: l =>
      '(fs, r) ← WriteParamStr fs can_create path n v;
      if decide (r ≠ 0) then Ok (fs, -1) else write_all fs can_create path l
  end.

Section Update.
Context (can_create : bool) (group path : list Z).

(** One turn of the loop, for the token at [tok]. The [bool] says whether the
    loop goes on. *)
Definition update_token (fs : fsys) (q : list Z) (tok : Z) : res (fsys * list Z * Z * bool) :=
  '(t, q) ← strtok_r q tok 61;
  match t with
  | None => Fault NullDeref
  | Some (pParamName, _) =>
      name ← cstr q pParamName;
      v ← cstr q (pParamName + zlen name + 1);
      v ← sprintf_into 128 v;
      '(paramVal, r) ← unescape (v ++ [0]);
      if decide (r = -1) then Ok (fs, q, -1, false) else
      v ← cstr paramVal 0;
      match file_name group name with
      | None => Ok (fs, q, -1, false)
      | Some name' =>
          q ← (if decide (name' = name) then Ok q else strcpy_at q pParamName name');
          '(fs, r) ← write_all fs can_create path (before_writes group name);
          if decide (r ≠ 0) then Ok (fs, q, -1, false) else
          name' ← cstr q pParamName;
          '(fs, r) ← WriteParamStr fs can_create path name' v;
          if decide (r ≠ 0) then Ok (fs, q, -1, false) else Ok (fs, q, 0, true)
      end
  end.

Fixpoint update_loop (fuel : nat) (fs : fsys) (q : list Z) (save : Z) : res (fsys * Z) :=
  '(t, q) ← strtok_r q save 38;
  match t with
  | None => Ok (fs, 0)
  | Some (tok, save) =>
      match fuel with
      | O => Fault OutOfFuel
      | S fuel =>
          '(fs, q, r, go_on) ← update_token fs q tok;
          if (go_on : bool) then update_loop fuel fs q save else Ok (fs, r)
      end
  end.
End Update.

(** [q] is the buffer from the query on; a request without a query has none. *)
Definition configs_update (fs : fsys) (can_create : bool) (q : option (list Z)) (group : list Z) : res (fsys * Z) :=
  let g := configs_search_groupname group in
  if decide (g = -1) then Ok (fs, -1) else
  path ← rd s_astrConfigFile g;
  match q with
  | None => Fault NullDeref
  | Some q => update_loop can_create group path (length q) fs q 0
  end.

(** ** Values: the decoder and the encodings *)

(** The texts that stand for a string: every character as itself, except the
    percent sign, or as two hexadecimal digits of either case. *)
Inductive encodes : list Z → list Z → Prop :=
| enc_nil : encodes [] []
| enc_char c e s : c ≠ 37 → c ≠ 0 → encodes e s → encodes (c :: e) (c :: s)
| enc_hex h l e s : hex_char_to_int h ≠ -1 → hex_char_to_int l ≠ -1 → encodes e s →
    encodes (37 :: h :: l :: e) (16 * hex_char_to_int h + hex_char_to_int l :: s).

Lemma hex_char_range c : -1 ≤ hex_char_to_int c < 16.
Proof. unfold hex_char_to_int. repeat case_decide; lia. Qed.

Lemma hex_char_nonzero c : hex_char_to_int c ≠ -1 → c ≠ 0.
Proof. intros H ->. done. Qed.

Lemma encodes_nonzero e s : encodes e s → Forall (λ c, c ≠ 0) e.
Proof. induction 1; repeat constructor; auto using hex_char_nonzero. Qed.

Lemma rd_mid_app (a b : list Z) i c r : drop (Z.to_nat i) b = c :: r → 0 ≤ i → rd (a ++ b) (zlen a + i) = Ok c.
Proof.
  intros E Hi. unfold rd. pose proof (zlen_nonneg a). rewrite decide_False by lia.
  rewrite lookup_app_r by (unfold zlen; lia).
  replace (Z.to_nat (zlen a + i) - length a)%nat with (Z.to_nat i) by (unfold zlen; lia).
  assert (b !! Z.to_nat i = Some c) as -> by by rewrite <- (Nat.add_0_r (Z.to_nat i)), <- lookup_drop, E. done.
Qed.

Lemma rd_mid0 (a : list Z) x b : rd (a ++ x :: b) (zlen a) = Ok x.
Proof. rewrite <- (Z.add_0_r (zlen a)). by eapply rd_mid_app. Qed.

Lemma wr_mid_app (a : list Z) x b y : wr (a ++ x :: b) (zlen a) y = Ok (a ++ y :: b).
Proof.
  rewrite wr_ok by (rewrite zlen_app, zlen_cons; pose proof (zlen_nonneg a); pose proof (zlen_nonneg b); lia).
  rewrite to_nat_zlen, insert_app_r_alt by done. by rewrite Nat.sub_diag.
Qed.

Lemma gap_head (gap : list Z) c : ∃ g G, gap ++ [c] = g :: G ∧ zlen G = zlen gap.
Proof.
  destruct gap as [|g G]; [by exists c, []|]. exists g, (G ++ [c]). split; [done|].
  rewrite zlen_app, !zlen_cons, zlen_nil. lia.
Qed.

(** The part between [dst] and [src] is what the decoder has left behind. *)
Lemma unescape_loop_spec e s : encodes e s → ∀ fuel done gap rest,
  (length e < fuel)%nat →
  ∃ gap', unescape_loop fuel (done ++ gap ++ e ++ 0 :: rest) (zlen done + zlen gap + zlen e) (zlen done + zlen gap) (zlen done) =
    Ok (done ++ s ++ 0 :: gap' ++ rest, 0) ∧ zlen s + zlen gap' = zlen gap + zlen e.
Proof.
  induction 1 as [|c e s H37 H0 _ IH|h l e s Hh Hl _ IH]; intros fuel done gap rest Hf;
    (destruct fuel as [|fuel]; [simpl in Hf; lia|]); cbn [unescape_loop].
  - rewrite zlen_nil, decide_False by lia. destruct (gap_head gap 0) as (g & G & E & HG).
    exists G. cbn [app]. change (0 :: rest) with ([0] ++ rest). rewrite (app_assoc gap), E. cbn [app].
    split; [by rewrite wr_mid_app|lia].
  - rewrite zlen_cons. pose proof (zlen_nonneg e). rewrite decide_True by lia.
    assert (rd (done ++ gap ++ (c :: e) ++ 0 :: rest) (zlen done + zlen gap) = Ok c) as ->.
    { rewrite app_assoc, <- zlen_app. apply rd_mid0. }
    rewrite res_bind_ok. rewrite decide_True by done. destruct (gap_head gap c) as (g & G & E & HG).
    change ((c :: e) ++ 0 :: rest) with ([c] ++ e ++ 0 :: rest). rewrite (app_assoc gap), E. cbn [app].
    rewrite wr_mid_app, res_bind_ok. destruct (IH fuel (done ++ [c]) G rest) as (gap' & E' & Hlen); [simpl in Hf; lia|].
    rewrite !zlen_app, HG, <- !app_assoc in E'. cbn [app] in E'. change (zlen [c]) with 1 in E'.
    exists gap'. split; [|rewrite zlen_cons; lia]. rewrite <- E'. f_equal; lia.
  - rewrite !zlen_cons. pose proof (zlen_nonneg e). pose proof (hex_char_range h). pose proof (hex_char_range l).
    rewrite decide_True by lia. destruct (gap_head gap 37) as (g & G & E & HG).
    assert (∀ x, rd (done ++ x :: G ++ h :: l :: e ++ 0 :: rest) (zlen done + zlen gap + 1) = Ok h ∧
      rd (done ++ x :: G ++ h :: l :: e ++ 0 :: rest) (zlen done + zlen gap + 2) = Ok l) as HB.
    { intros x. rewrite (app_comm_cons G), app_assoc.
      replace (zlen done + zlen gap + 1) with (zlen (done ++ x :: G) + 0) by (rewrite zlen_app, zlen_cons; lia).
      replace (zlen done + zlen gap + 2) with (zlen (done ++ x :: G) + 1) by (rewrite zlen_app, zlen_cons; lia).
      split; by eapply rd_mid_app. }
    assert (rd (done ++ gap ++ (37 :: h :: l :: e) ++ 0 :: rest) (zlen done + zlen gap) = Ok 37) as ->.
    { rewrite app_assoc, <- zlen_app. apply rd_mid0. }
    rewrite res_bind_ok. rewrite decide_False by (intros Hx; by apply Hx). rewrite decide_False by lia.
    change ((37 :: h :: l :: e) ++ 0 :: rest) with ([37] ++ h :: l :: e ++ 0 :: rest). rewrite (app_assoc gap), E. cbn [app].
    rewrite (proj1 (HB g)), res_bind_ok. rewrite decide_False by done.
    rewrite wr_mid_app, res_bind_ok. rewrite (proj2 (HB _)), res_bind_ok. rewrite decide_False by done.
    rewrite rd_mid0, res_bind_ok, wr_mid_app, res_bind_ok.
    assert (u8 (u8 (hex_char_to_int h * 16) + hex_char_to_int l) = 16 * hex_char_to_int h + hex_char_to_int l) as ->.
    { unfold u8. rewrite (Z.mod_small (_ * 16)) by lia. rewrite Z.mod_small by lia. lia. }
    set (x := 16 * _ + _). destruct (IH fuel (done ++ [x]) (G ++ [h; l]) rest) as (gap' & E' & Hlen); [simpl in Hf; lia|].
    rewrite !zlen_app, HG, <- !app_assoc in E'. cbn [app] in E'. change (zlen [x]) with 1 in E'. change (zlen [h; l]) with 2 in E'.
    rewrite zlen_app in Hlen. change (zlen [h; l]) with 2 in Hlen.
    exists gap'. split; [|lia]. rewrite <- E'. f_equal; lia.
Qed.

(** unescape decodes every percent-encoding of a string, in place: for any text in which each character stands for
    itself or is written as two hexadecimal digits, the buffer holds the string afterwards, nothing outside of the text is
    written, and the result is 0. *)
Lemma unescape_roundtrip e s rest :
  encodes e s → Forall (λ c, c ≠ 0) s →
  ∃ gap, unescape (e ++ 0 :: rest) = Ok (s ++ 0 :: gap ++ rest, 0) ∧ zlen s + zlen gap = zlen e ∧
    cstr (s ++ 0 :: gap ++ rest) 0 = Ok s.
Proof.
  intros He Hs. unfold unescape. pose proof (encodes_nonzero _ _ He) as Hne.
  rewrite (cstr_mid [] e rest Hne : cstr (e ++ 0 :: rest) 0 = Ok e), res_bind_ok.
  destruct (unescape_loop_spec e s He (length (e ++ 0 :: rest)) [] [] rest) as (gap & E & Hl).
  { rewrite length_app. simpl. lia. }
  exists gap. split; [exact E|]. split; [exact Hl|]. by apply (cstr_mid []).
Qed.

(** On any string it ends without a fault, with 0 or -1. *)
Lemma unescape_loop_total fuel : ∀ buf len src dst,
  0 ≤ dst ≤ src → dst ≤ len < zlen buf → (Z.to_nat (len - src) < fuel)%nat →
  ∃ buf' r, unescape_loop fuel buf len src dst = Ok (buf', r) ∧ (r = 0 ∨ r = -1).
Proof.
  induction fuel as [|fuel IH]; intros buf len src dst Hd Hl Hf; [lia|]. cbn [unescape_loop].
  assert (∀ b : list Z, zlen b = zlen buf → ∀ i, 0 ≤ i ≤ len → ∃ x, rd b i = Ok x) as Hrd.
  { intros b Hb i Hi. destruct (rd_ok b i) as (x & Hx & _); [lia|by exists x]. }
  assert (∀ (b : list Z) x, zlen b = zlen buf → ∃ b', wr b dst x = Ok b' ∧ zlen b' = zlen buf) as Hwr.
  { intros b x Hb. exists (<[Z.to_nat dst := x]> b). rewrite wr_ok by lia. split; [done|]. unfold zlen in *. by rewrite length_insert. }
  case_decide as Hs.
  - destruct (Hrd buf eq_refl src) as (c & ->); [lia|]. rewrite res_bind_ok. case_decide as Hc.
    + destruct (Hwr buf c eq_refl) as (b & -> & Hb). rewrite res_bind_ok. apply IH; lia.
    + case_decide as H2; [eauto|]. destruct (Hrd buf eq_refl (src + 1)) as (h & ->); [lia|]. rewrite res_bind_ok.
      case_decide; [eauto|]. destruct (Hwr buf (u8 (hex_char_to_int h * 16)) eq_refl) as (b & -> & Hb). rewrite res_bind_ok.
      destruct (Hrd b Hb (src + 2)) as (l & ->); [lia|]. rewrite res_bind_ok. case_decide; [eauto|].
      destruct (Hrd b Hb dst) as (x & ->); [lia|]. rewrite res_bind_ok.
      destruct (Hwr b (u8 (x + hex_char_to_int l)) Hb) as (b2 & -> & Hb2). rewrite res_bind_ok. apply IH; lia.
  - destruct (Hwr buf 0 eq_refl) as (b & -> & _). rewrite res_bind_ok. eauto.
Qed.

(** ** Queries *)

(** An assignment of a query: the name, the text of its value and the value. *)
Record assign := mkAssign { a_key : list Z; a_text : list Z; a_val : list Z }.

Fixpoint render (l : list assign) : list Z :=
  match l with
  | [] => []
  | a :: l => a_key a ++ 61 :: a_text a ++ match l with [] => [] | _ => 38 :: render l end
  end.

(** What is written for it. *)
Definition assign_writes (group : list Z) (a : assign) : list (list Z * list Z) :=
  before_writes group (a_key a) ++ [(default [] (file_name group (a_key a)), a_val a)].

(** A name that is not empty, a value that is encoded and fits, and a name of
    the files that fits where the text of the assignment was. *)
Record assign_ok (group : list Z) (a : assign) : Prop := {
  ao_key : a_key a ≠ [];
  ao_key_chars : Forall (λ c, c ≠ 0 ∧ c ≠ 38 ∧ c ≠ 61) (a_key a);
  ao_text : encodes (a_text a) (a_val a);
  ao_text_chars : Forall (λ c, c ≠ 38) (a_text a);
  ao_val : Forall (λ c, c ≠ 0) (a_val a);
  ao_len : zlen (a_text a) ≤ 127;
  ao_name : ∃ n, file_name group (a_key a) = Some n ∧ Forall (λ c, c ≠ 0) n ∧
              zlen n ≤ zlen (a_key a) + 1 + zlen (a_text a) }.

Lemma strtok_r_none pre rest delim : delim ≠ 0 → strtok_r (pre ++ 0 :: rest) (zlen pre) delim = Ok (None, pre ++ 0 :: rest).
Proof.
  intros Hd. unfold strtok_r. rewrite to_nat_zlen, drop_app_length, span_len_stop by by apply Z.eqb_neq.
  by rewrite Z.add_0_r, rd_mid0.
Qed.

Lemma strtok_r_token pre t d rest delim :
  delim ≠ 0 → t ≠ [] → Forall (λ c, c ≠ 0 ∧ c ≠ delim) t → d = 0 ∨ d = delim →
  strtok_r (pre ++ t ++ d :: rest) (zlen pre) delim =
  Ok (Some (zlen pre, zlen pre + zlen t + if decide (d = 0) then 0 else 1), pre ++ t ++ 0 :: rest).
Proof.
  intros Hd Hne Ht Hc. unfold strtok_r. rewrite to_nat_zlen, drop_app_length. destruct t as [|x t]; [done|].
  pose proof Ht as Ht0. apply Forall_cons in Ht0 as ((Hx0 & Hxd) & _).
  cbn [app]. rewrite span_len_stop by by apply Z.eqb_neq. rewrite Z.add_0_r, rd_mid0, res_bind_ok. rewrite decide_False by done.
  rewrite to_nat_zlen, drop_app_length. change (x :: t ++ d :: rest) with ((x :: t) ++ d :: rest).
  rewrite span_len_app; [| |destruct Hc as [->| ->]; [done|by rewrite Z.eqb_refl, orb_true_r]].
  2:{ eapply Forall_impl; [exact Ht|]. intros c (H0 & H1). cbn. by rewrite !(proj2 (Z.eqb_neq _ _)). }
  rewrite app_assoc, <- zlen_app, rd_mid0, res_bind_ok. destruct (decide (d = 0)) as [->|H0].
  - by rewrite Z.add_0_r, <- app_assoc.
  - by rewrite wr_mid_app, res_bind_ok, <- app_assoc.
Qed.

(** strcpy of a name that fits over an assignment that has been taken apart. *)
Lemma strcpy_over pre body n rest :
  zlen n ≤ zlen body → Forall (λ c, c ≠ 0) n →
  ∃ m, strcpy_at (pre ++ body ++ 0 :: rest) (zlen pre) n = Ok (pre ++ m ++ 0 :: rest) ∧ zlen m = zlen body ∧
    cstr (pre ++ m ++ 0 :: rest) (zlen pre) = Ok n.
Proof.
  intros Hl Hn. pose proof (zlen_nonneg pre). pose proof (zlen_nonneg rest). unfold strcpy_at.
  rewrite decide_True by (rewrite !zlen_app, zlen_cons; lia). unfold blit.
  rewrite to_nat_zlen, take_app_length, <- drop_drop, drop_app_length.
  destruct (decide (zlen n = zlen body)) as [He|He].
  - exists n. split_and!; [|done|by apply cstr_mid].
    rewrite length_app. cbn [length]. replace (length n + 1)%nat with (length body + 1)%nat by (unfold zlen in He; lia).
    by rewrite <- drop_drop, drop_app_length, <- app_assoc.
  - exists (n ++ 0 :: drop (length n + 1) body). rewrite length_app. cbn [length].
    rewrite drop_app_le by (unfold zlen in *; lia). split_and!.
    + by rewrite <- !app_assoc.
    + rewrite zlen_app, zlen_cons. unfold zlen in *. rewrite length_drop. lia.
    + rewrite <- app_assoc. by apply cstr_mid.
Qed.

Section UpdateSpec.
Context (can_create : bool) (group path : list Z).

(** One assignment, from its text in the query to its writes; what is left in its
    place has the same length. *)
Lemma update_token_spec fs pre a rest :
  assign_ok group a →
  ∃ m, zlen m = zlen (a_key a) + 1 + zlen (a_text a) ∧
  update_token can_create group path fs (pre ++ (a_key a ++ 61 :: a_text a) ++ 0 :: rest) (zlen pre) =
  '(fs, r) ← write_all fs can_create path (assign_writes group a);
  Ok (fs, pre ++ m ++ 0 :: rest, r, bool_decide (r = 0)).
Proof.
  intros [Hk Hkc He Hec Hv Hl (n & Hn & Hn0 & Hnl)]. unfold update_token.
  assert (Forall (λ c, c ≠ 0) (a_key a)) as Hk0 by (eapply Forall_impl; [exact Hkc|]; naive_solver).
  pose proof (encodes_nonzero _ _ He) as He0.
  rewrite <- app_assoc, <- app_comm_cons, strtok_r_token; [|done|done|eapply Forall_impl; [exact Hkc|]; naive_solver|by right].
  rewrite res_bind_ok, cstr_mid, res_bind_ok by done.
  assert (cstr (pre ++ a_key a ++ 0 :: a_text a ++ 0 :: rest) (zlen pre + zlen (a_key a) + 1) = Ok (a_text a)) as ->.
  { replace (pre ++ a_key a ++ 0 :: a_text a ++ 0 :: rest) with ((pre ++ a_key a ++ [0]) ++ a_text a ++ 0 :: rest)
      by by rewrite <- !app_assoc.
    replace (zlen pre + zlen (a_key a) + 1) with (zlen (pre ++ a_key a ++ [0])); [by apply cstr_mid|].
    rewrite !zlen_app. change (zlen [0]) with 1. lia. }
  rewrite res_bind_ok. unfold sprintf_into. rewrite (decide_True (P := zlen (a_text a) < 128)), res_bind_ok by lia.
  assert (∃ gap, unescape (a_text a ++ [0]) = Ok (a_val a ++ 0 :: gap, 0)) as (gap & ->).
  { unfold unescape. rewrite (cstr_mid [] (a_text a) [] He0 : cstr (a_text a ++ [0]) 0 = _), res_bind_ok.
    destruct (unescape_loop_spec _ _ He (length (a_text a ++ [0])) [] [] []) as (gap & E & _); [rewrite length_app; simpl; lia|].
    exists (gap ++ []). exact E. }
  rewrite res_bind_ok. rewrite (decide_False (P := 0 = -1)) by done.
  rewrite (cstr_mid [] (a_val a) gap Hv : cstr (a_val a ++ 0 :: gap) 0 = _), res_bind_ok, Hn.
  assert (∃ m, zlen m = zlen (a_key a) + 1 + zlen (a_text a) ∧
    (if decide (n = a_key a) then Ok (pre ++ a_key a ++ 0 :: a_text a ++ 0 :: rest)
     else strcpy_at (pre ++ a_key a ++ 0 :: a_text a ++ 0 :: rest) (zlen pre) n) = Ok (pre ++ m ++ 0 :: rest) ∧
    cstr (pre ++ m ++ 0 :: rest) (zlen pre) = Ok n) as (m & Hm & -> & Hcm).
  { destruct (decide (n = a_key a)) as [->|_].
    - exists (a_key a ++ 0 :: a_text a). rewrite zlen_app, zlen_cons, <- app_assoc. split; [lia|]. split; [done|].
      by apply cstr_mid.
    - destruct (strcpy_over pre (a_key a ++ 0 :: a_text a) n rest) as (m & E & Hm & Hc); [rewrite zlen_app, zlen_cons; lia|done|].
      exists m. rewrite <- app_assoc in E. rewrite zlen_app, zlen_cons in Hm. split; [lia|]. by split. }
  exists m. split; [done|]. rewrite res_bind_ok. unfold assign_writes. rewrite Hn. cbn [default from_option id].
  revert fs. induction (before_writes group (a_key a)) as [|[b w] l IH]; intros fs; cbn [app write_all].
  - rewrite res_bind_ok. no_failure. rewrite Hcm, res_bind_ok.
    destruct (WriteParamStr fs can_create path n (a_val a)) as [[fs1 r]|]; [|done]. rewrite !res_bind_ok.
    by case_decide.
  - destruct (WriteParamStr fs can_create path b w) as [[fs1 r]|]; [|done]. rewrite !res_bind_ok.
    case_decide; [done|]. apply IH.
Qed.

Lemma write_all_app fs l1 l2 :
  write_all fs can_create path (l1 ++ l2) =
  '(fs, r) ← write_all fs can_create path l1; if decide (r ≠ 0) then Ok (fs, r) else write_all fs can_create path l2.
Proof.
  revert fs. induction l1 as [|[n v] l1 IH]; intros fs; cbn [app write_all].
  - rewrite res_bind_ok. by no_failure.
  - destruct (WriteParamStr fs can_create path n v) as [[fs1 r]|]; [|done]. rewrite !res_bind_ok. case_decide; [done|]. apply IH.
Qed.

Lemma update_loop_spec l : ∀ fuel fs pre tail,
  Forall (assign_ok group) l → (length l <= fuel)%nat →
  update_loop can_create group path fuel fs (pre ++ render l ++ 0 :: tail) (zlen pre) =
  write_all fs can_create path (l ≫= assign_writes group).
Proof.
  induction l as [|a l IH]; intros fuel fs pre tail Hl Hf.
  { cbn [render app]. destruct fuel; cbn [update_loop]; by rewrite strtok_r_none. }
  apply Forall_cons in Hl as (Ha & Hl). simpl in Hf. destruct fuel as [|fuel]; [lia|].
  pose proof Ha as [Hk Hkc He Hec _ _ _]. pose proof (encodes_nonzero _ _ He) as He0.
  assert (a_key a ++ 61 :: a_text a ≠ []) as Hne by by destruct (a_key a).
  assert (Forall (λ c, c ≠ 0 ∧ c ≠ 38) (a_key a ++ 61 :: a_text a)) as Htok.
  { apply Forall_app. split; [eapply Forall_impl; [exact Hkc|]; naive_solver|]. constructor; [done|].
    rewrite Forall_forall in *. naive_solver. }
  assert (∃ d r, (render (a :: l) ++ 0 :: tail = (a_key a ++ 61 :: a_text a) ++ d :: r) ∧
    ((d = 0 ∧ l = [] ∧ r = tail) ∨ (d = 38 ∧ r = render l ++ 0 :: tail))) as (d & r & Er & Hd).
  { destruct l as [|b l].
    - exists 0, tail. split; [cbn [render]; by rewrite app_nil_r|]. by left.
    - exists 38, (render (b :: l) ++ 0 :: tail). split; [|by right].
      change (render (a :: b :: l)) with (a_key a ++ 61 :: a_text a ++ 38 :: render (b :: l)).
      by rewrite <- !app_assoc, <- !app_comm_cons, <- !app_assoc. }
  cbn [update_loop]. rewrite Er, strtok_r_token by (done || naive_solver). rewrite res_bind_ok.
  destruct (update_token_spec fs pre a r Ha) as (m & Hm & ->).
  rewrite bind_cons, write_all_app. destruct (write_all fs can_create path (assign_writes group a)) as [[fs1 r1]|]; [|done].
  rewrite !res_bind_ok. case_bool_decide as Hr; [|by rewrite decide_True].
  rewrite (decide_False (P := r1 ≠ 0)) by (intros H'; by apply H').
  assert (zlen pre + zlen (a_key a ++ 61 :: a_text a) = zlen (pre ++ m)) as Hz by (rewrite !zlen_app, zlen_cons; lia).
  destruct Hd as [(-> & -> & ->)|(-> & ->)].
  - rewrite decide_True, Z.add_0_r, Hz by done. rewrite app_assoc. destruct fuel; cbn [update_loop mbind list_bind]; by rewrite strtok_r_none.
  - rewrite decide_False by done. specialize (IH fuel fs1 (pre ++ m ++ [0]) tail Hl ltac:(lia)).
    rewrite <- IH. f_equal; [by rewrite <- !app_assoc|]. rewrite Hz, !zlen_app. change (zlen [0]) with 1. lia.
Qed.
End UpdateSpec.

(** ** What an update leaves in the file *)

Definition unrelated (a b : list Z) : Prop := ¬ a `prefix_of` b ∧ ¬ b `prefix_of` a.
Definition param_ok (ls : list (list Z)) (x : list Z * list Z) : Prop :=
  name_ok x.1 ∧ value_ok x.1 x.2 ∧ zlen (body_of x.1 x.2) ≤ 254 ∧ Exists (λ l, x.1 `prefix_of` l) ls.

Lemma present_after ls name v other :
  name = other ∨ unrelated name other → Exists (λ l, other `prefix_of` l) ls → Exists (λ l, other `prefix_of` l) (set_lines ls name v).
Proof.
  intros Hr. induction 1 as [l ls Hl|l ls _ IH]; [|by right]. left. cbn. case_decide as Hn; [|done].
  destruct Hr as [->|(H1 & H2)]; [by apply prefix_app_r|]. by destruct (prefix_weak_total _ _ _ Hn Hl).
Qed.

Lemma present_iff ls name v other :
  name = other ∨ unrelated name other →
  Exists (λ l, other `prefix_of` l) (set_lines ls name v) ↔ Exists (λ l, other `prefix_of` l) ls.
Proof.
  intros Hr. split; [|by apply present_after]. unfold set_lines. rewrite Exists_fmap. intros Hex. apply (Exists_impl _ _ _ Hex).
  intros l. cbn. case_decide as Hn; [|done]. intros Ho. destruct Hr as [->|(H1 & H2)]; [done|].
  by destruct (prefix_weak_total name other (body_of name v)) as [?|?]; [apply prefix_app_r|..].
Qed.

(** A write that keeps the file well formed. *)
Definition write_ok (x : list Z * list Z) : Prop :=
  name_ok x.1 ∧ plain_value x.2 ∧ zlen (body_of x.1 x.2) ≤ 254.

(** What a parameter reads as after a write of [v] to a file of the lines [ls]:
    nothing when the file has no line for it. *)
Definition reads_as (ls : list (list Z)) (n v : list Z) : list Z :=
  if decide (Exists (λ l, n `prefix_of` l) ls) then read_back n v else [].

(** Writes in order all succeed, and each parameter reads as the last value
    written to it. *)
Lemma write_all_read ws : ∀ fs path ls,
  fs !! path = Some (file_of ls) → Forall line_ok ls → zlen path < 124 → Forall write_ok ws →
  (∀ x y, x ∈ ws → y ∈ ws → x.1 = y.1 ∨ unrelated x.1 y.1) →
  ∃ fs', write_all fs true path ws = Ok (fs', 0) ∧
    (∀ n old, Forall (λ c, c ≠ 10) n → Forall (λ x, unrelated x.1 n) ws → ReadParamStr fs' path n old 128 = ReadParamStr fs path n old 128) ∧
    (∀ ws1 n v ws2 old, ws = ws1 ++ (n, v) :: ws2 → Forall (λ x, unrelated x.1 n) ws2 →
       ReadParamStr fs' path n old 128 = Ok (0, reads_as ls n v)) ∧
    (∀ p, p ≠ path → p ≠ new_path path → fs' !! p = fs !! p).
Proof.
  induction ws as [|[n v] ws IH]; intros fs path ls Hfs Hls Hp Hok Hrel.
  { exists fs. split; [done|]. split; [done|]. split; [intros [|? ?]; by intros|done]. }
  apply Forall_cons in Hok as ((Hn & Hv & Hb) & Hok). cbn [fst snd] in *. cbn [write_all].
  assert (Hfs1 : written fs path ls n v !! path = Some (file_of (set_lines ls n v))) by apply written_file.
  destruct (IH (written fs path ls n v) path (set_lines ls n v)) as (fs' & Hw & Ho & Hr & Hf);
    [done|by apply set_lines_plain|done|done| |].
  { intros x y Hx Hy. apply Hrel; by right. }
  exists fs'. rewrite WriteParamStr_spec with (ls := ls), res_bind_ok by done. no_failure.
  split; [done|]. split; [|split].
  - intros m old Hm Hu. apply Forall_cons in Hu as ((Hu1 & Hu2) & Hu). rewrite Ho by done. by apply read_other.
  - intros [|x ws1] m w ws2 old E Hu; simplify_eq/=.
    + rewrite Ho by (done || by apply name_no_end). unfold reads_as.
      case_decide; [by apply read_written|by apply read_absent].
    + rewrite (Hr ws1 m w ws2 old eq_refl Hu). unfold reads_as. do 2 f_equal. apply decide_ext, present_iff.
      destruct (Hrel (n, v) (m, w)) as [He|He]; [by left|right; set_solver|by left|by right].
  - intros p H1 H2. rewrite Hf by done. by apply written_other_file.
Qed.

(** An update makes the writes of its assignments, in order. *)
Lemma configs_update_writes fs can_create group path l tail :
  rd s_astrConfigFile (configs_search_groupname group) = Ok path → Forall (assign_ok group) l →
  configs_update fs can_create (Some (render l ++ 0 :: tail)) group = write_all fs can_create path (l ≫= assign_writes group).
Proof.
  intros Hg Hl. unfold configs_update. rewrite decide_False by (intros E; by rewrite E in Hg). rewrite Hg, res_bind_ok.
  apply (update_loop_spec can_create group path l _ fs []); [done|].
  enough (length l <= length (render l))%nat by (rewrite length_app; lia). clear -Hl.
  induction l as [|a l IH]; [done|]. cbn [render length]. apply Forall_cons in Hl as (Ha & Hl). specialize (IH Hl).
  rewrite length_app. cbn [length]. rewrite length_app. destruct l; cbn [length] in *; lia.
Qed.

Lemma config_path_short g path : rd s_astrConfigFile g = Ok path → zlen path < 124.
Proof.
  intros Hg. apply rd_inv in Hg as (_ & Hp). assert (Forall (λ p, zlen p < 124) s_astrConfigFile) as Hall by closed_nonzero.
  rewrite Forall_lookup in Hall. by eapply Hall.
Qed.

#[global] Instance unrelated_dec a b : Decision (unrelated a b).
Proof. unfold unrelated. apply _. Defined.

(** No name of a group begins another one: the prefix test of the files tells
    them apart. *)
Lemma group_names_unrelated : Forall (λ t, Forall (λ a, Forall (λ b, a = b ∨ unrelated a b) t) t) g_astrParamGroup.
Proof. closed_nonzero. Qed.

(** What is known of the names of a group's table. *)
Lemma group_name_ok params n :
  params ∈ g_astrParamGroup → n ∈ params → name_ok n ∧ zlen n ≤ 16.
Proof.
  assert (Forall (λ t, Forall (λ n, Forall (λ c, c ≠ 0 ∧ c ≠ 10 ∧ c ≠ 13) n ∧ zlen n ≤ 16) t) g_astrParamGroup) as H
    by closed_nonzero.
  intros Hp Hn. rewrite Forall_forall in H. specialize (H _ Hp). rewrite Forall_forall in H. by apply H.
Qed.

Lemma encodes_shorter e s : encodes e s → zlen s ≤ zlen e.
Proof. induction 1; rewrite ?zlen_cons; lia. Qed.

Lemma table_lookup g path params :
  rd s_astrConfigFile (configs_search_groupname g) = Ok path →
  rd g_astrParamGroup (configs_search_groupname g) = Ok params →
  params ∈ g_astrParamGroup ∧ (g = $"wifi" → params = g_astrWifiParam).
Proof.
  intros _ Hp. split; [apply rd_inv in Hp as (_ & Hp); by eapply list_elem_of_lookup_2|].
  intros ->. vm_compute in Hp. by injection Hp as <-.
Qed.

(** An assignment of the interface: well encoded, to a parameter of the group, of
    a value without an end of line. *)
Definition known_assign (group : list Z) (params : list (list Z)) (a : assign) : Prop :=
  assign_ok group a ∧ Forall (λ c, c ≠ 10 ∧ c ≠ 13) (a_val a) ∧
  ∀ n, file_name group (a_key a) = Some n → n ∈ params.

Lemma known_writes group path params l x :
  rd s_astrConfigFile (configs_search_groupname group) = Ok path →
  rd g_astrParamGroup (configs_search_groupname group) = Ok params →
  Forall (known_assign group params) l → x ∈ l ≫= assign_writes group → x.1 ∈ params ∧ write_ok x.
Proof.
  intros Hg Hps Hl (a & Hx & Ha)%list_elem_of_bind. rewrite Forall_forall in Hl. destruct (Hl a Ha) as (Hok & Hv & Hn).
  destruct (table_lookup _ _ _ Hg Hps) as (Hin & Hwifi).
  enough (x.1 ∈ params ∧ plain_value x.2) as (Hp & Hpv).
  { split; [done|]. destruct (group_name_ok _ _ Hin Hp) as (? & ?). split_and!; [done..|]. destruct Hpv as (_ & Hlen).
    unfold body_of. rewrite !zlen_app. change (zlen ($" ")) with 1.
    destruct (is_ssid x.1); rewrite ?zlen_app; change (zlen [34]) with 1; lia. }
  unfold assign_writes in Hx. apply elem_of_app in Hx as [Hx| ->%list_elem_of_singleton].
  - unfold before_writes in Hx. case_decide as E; [|by apply not_elem_of_nil in Hx]. rewrite (Hwifi (proj1 E)).
    apply elem_of_cons in Hx as [-> | ->%list_elem_of_singleton];
      (split; [apply (bool_decide_unpack _); by vm_compute|split; [by repeat constructor|by vm_compute]]).
  - destruct Hok as [_ _ He _ Hv0 Hlen (n & En & _)]. rewrite En. split; [by apply Hn|]. cbn. split.
    + rewrite Forall_forall in *. naive_solver.
    + pose proof (encodes_shorter _ _ He). lia.
Qed.

(** C32. An update of the REST interface does what its query says. For a query
    of assignments to parameters of the group, whose values are percent-encoded
    in at most 127 characters (in at least 4 for [ap_key], whose new name is
    written over the text, see [short_key_loses_next]) and have no zero byte or
    end of line, configs_update makes the writes of the assignments in order,
    with the encryption settings before a key. On a well-formed file it returns
    0. A parameter that was written then reads as the last value written to
    it: as ReadParamStr finds it ([read_back]: an SSID up to its first quote,
    another value up to its first white space, so unchanged without these),
    and as empty when the file has no line for the parameter. Every parameter
    that is not assigned, and every other file, is as before. *)
Theorem configs_update_applies fs ls group path params l tail :
  rd s_astrConfigFile (configs_search_groupname group) = Ok path →
  rd g_astrParamGroup (configs_search_groupname group) = Ok params →
  Forall (known_assign group params) l →
  fs !! path = Some (file_of ls) → Forall line_ok ls →
  let ws := l ≫= assign_writes group in
  (∀ can_create, configs_update fs can_create (Some (render l ++ 0 :: tail)) group = write_all fs can_create path ws) ∧
  ∃ fs', configs_update fs true (Some (render l ++ 0 :: tail)) group = Ok (fs', 0) ∧
    (∀ ws1 n v ws2 old, ws = ws1 ++ (n, v) :: ws2 → n ∉ ws2.*1 →
       ReadParamStr fs' path n old 128 =
       Ok (0, if decide (Exists (λ l, n `prefix_of` l) ls) then read_back n v else [])) ∧
    (∀ n v, value_ok n v → read_back n v = v) ∧
    (∀ n old, n ∈ params → n ∉ ws.*1 →
       ReadParamStr fs' path n old 128 = ReadParamStr fs path n old 128) ∧
    (∀ p, p ≠ path → p ≠ new_path path → fs' !! p = fs !! p).
Proof.
  intros Hg Hps Hl Hfs Hls ws.
  assert (Forall (assign_ok group) l) as Hl' by (eapply Forall_impl; [exact Hl|]; by intros a (? & _)).
  pose proof (λ can_create, configs_update_writes fs can_create group path l tail Hg Hl') as Hup. fold ws in Hup.
  pose proof (λ x, known_writes group path params l x Hg Hps Hl) as Hx. fold ws in Hx.
  destruct (table_lookup _ _ _ Hg Hps) as (Hin & _).
  assert (∀ a b, a ∈ params → b ∈ params → a = b ∨ unrelated a b) as Hun.
  { pose proof group_names_unrelated as H. rewrite Forall_forall in H. specialize (H _ Hin). intros a b Ha Hb.
    rewrite Forall_forall in H. specialize (H _ Ha). rewrite Forall_forall in H. by apply H. }
  assert (∀ vs n, vs ⊆ ws → n ∈ params → n ∉ vs.*1 → Forall (λ x, unrelated x.1 n) vs) as Hfar.
  { intros vs n Hsub Hn Hnot. apply Forall_forall. intros x Hxv. destruct (Hx x (Hsub _ Hxv)) as (Hxp & _).
    destruct (Hun x.1 n Hxp Hn) as [E|]; [|done]. destruct Hnot. rewrite <- E. by apply list_elem_of_fmap_2. }
  split; [done|]. rewrite Hup. destruct (write_all_read ws fs path ls) as (fs' & Hw & Ho & Hr & Hf); [done|done| | | |].
  { by eapply config_path_short. }
  { apply Forall_forall. intros x Hxw. by apply Hx. }
  { intros x y Hxw Hyw. apply Hun; by apply Hx. }
  exists fs'. split; [done|]. split; [|split; [apply read_back_value|split; [|done]]].
  - intros ws1 n v ws2 old E Hn. apply (Hr ws1 n v ws2 old E). apply Hfar; [rewrite E; set_solver| |done].
    apply (Hx (n, v)). rewrite E. set_solver.
  - intros n old Hn Hnot. apply Ho; [|by apply Hfar]. by apply name_no_end, (group_name_ok params).
Qed.

Ltac encode := repeat first [apply enc_nil | apply enc_hex; [done|done|] | apply enc_char; [done|done|]].

Lemma unescape_roundtrip_witness :
  ∃ gap, unescape ($"my%20net%21" ++ 0 :: [7]) = Ok ($"my net!" ++ 0 :: gap ++ [7], 0).
Proof.
  destruct (unescape_roundtrip ($"my%20net%21") ($"my net!") [7]) as (gap & E & _).
  - cbn. encode.
  - by repeat constructor.
  - exists gap. exact E.
Defined.

Definition ex_assigns : list assign :=
  [mkAssign ($"sta_ssid") ($"my%20net") ($"my net"); mkAssign ($"sta_key") ($"s=cret%21") ($"s=cret!")].

Lemma configs_update_applies_witness :
  ∃ fs', configs_update ex_fs true (Some ($"sta_ssid=my%20net&sta_key=s=cret%21" ++ [0])) ($"wifi") = Ok (fs', 0) ∧
    ReadParamStr fs' ex_path ($"SSID") [] 128 = Ok (0, $"my net") ∧
    ReadParamStr fs' ex_path ($"AUTH_KEY") [] 128 = Ok (0, $"s=cret!") ∧
    ReadParamStr fs' ex_path ($"BOOTPROTO") [] 128 = Ok (0, $"DHCP").
Proof.
  destruct (configs_update_applies ex_fs ex_lines ($"wifi") ex_path g_astrWifiParam ex_assigns [])
    as (_ & fs' & Hu & Hr & _ & Ho & _).
  - reflexivity.
  - reflexivity.
  - constructor; [|constructor; [|constructor]];
      (split; [|split; [by repeat constructor|intros n E; vm_compute in E; injection E as <-;
                        apply (bool_decide_unpack _); by vm_compute]]);
      (split; cbn [ex_assigns a_key a_text a_val];
       [done|by repeat constructor|cbn; encode|by repeat constructor|by repeat constructor|by vm_compute|]);
      (eexists; split; [reflexivity|]; split; [by repeat constructor|by vm_compute]).
  - reflexivity.
  - apply ex_lines_ok.
  - exists fs'. split; [exact Hu|]. split_and!.
    + rewrite (Hr [] ($"SSID") ($"my net") [($"AUTH_KEY", $"s=cret!")]);
        [by vm_compute|reflexivity|apply (bool_decide_unpack _); by vm_compute].
    + rewrite (Hr [($"SSID", $"my net")] ($"AUTH_KEY") ($"s=cret!") []);
        [by vm_compute|reflexivity|apply (bool_decide_unpack _); by vm_compute].
    + rewrite Ho; [by vm_compute|apply (bool_decide_unpack _); by vm_compute..].
Defined.

(** ** Defects of updates *)

(** A request without a query, and a query with an empty name, follow a null
    pointer. *)
Lemma update_without_query fs can_create : configs_update fs can_create None ($"stream") = Fault NullDeref.
Proof. reflexivity. Qed.

Lemma update_empty_name fs can_create tail : configs_update fs can_create (Some (61 :: 0 :: tail)) ($"nabto") = Fault NullDeref.
Proof. reflexivity. Qed.

(** The text of a value is copied to an array of 128 bytes without a check. *)
Lemma long_value_overruns can_create group path fs pre key text rest :
  key ≠ [] → Forall (λ c, c ≠ 0 ∧ c ≠ 38 ∧ c ≠ 61) key → Forall (λ c, c ≠ 0) text → 128 ≤ zlen text →
  update_token can_create group path fs (pre ++ (key ++ 61 :: text) ++ 0 :: rest) (zlen pre) = Fault OutOfBounds.
Proof.
  intros Hk Hkc Ht Hl. unfold update_token.
  rewrite <- app_assoc, <- app_comm_cons, strtok_r_token; [|done|done|eapply Forall_impl; [exact Hkc|]; naive_solver|by right].
  rewrite res_bind_ok, cstr_mid, res_bind_ok by (eapply Forall_impl; [exact Hkc|]; naive_solver).
  assert (cstr (pre ++ key ++ 0 :: text ++ 0 :: rest) (zlen pre + zlen key + 1) = Ok text) as ->.
  { replace (pre ++ key ++ 0 :: text ++ 0 :: rest) with ((pre ++ key ++ [0]) ++ text ++ 0 :: rest) by by rewrite <- !app_assoc.
    replace (zlen pre + zlen key + 1) with (zlen (pre ++ key ++ [0])); [by apply cstr_mid|].
    rewrite !zlen_app. change (zlen [0]) with 1. lia. }
  rewrite res_bind_ok. unfold sprintf_into. by rewrite decide_False by lia.
Qed.

(** The long name of a key is written over what follows a short value: the next
    assignment is lost, and the result is 0. *)
Lemma short_key_loses_next :
  let q := $"ap_key=abc&sta_ssid=other" ++ [0] in
  match configs_update ex_fs true (Some q) ($"wifi") with
  | Ok (fs', r) => r = 0 ∧ ReadParamStr fs' ex_path ($"SSID") [] 128 = Ok (0, $"home")
  | Fault _ => False
  end.
Proof. by vm_compute. Qed.

(** ** Lists of parameters *)

(** A pointer to a text: null, from malloc, or to a literal of the program. *)
Inductive cptr := PNull | PHeap (s : list Z) | PLiteral (s : list Z).

(** A member of a JSON object. The names of the tables have no dot, so that the
    other form of a member is not reached. *)
Definition member (name v : list Z) : list Z := [34] ++ name ++ [34] ++ $": " ++ [34] ++ v ++ [34].

(** [strcat] to the result, of 1024 bytes. *)
Definition strcat_1024 (acc s : list Z) : res (list Z) := sprintf_into 1024 (acc ++ s).

Section Lists.
Context (fs : fsys) (group path : list Z).

Fixpoint list_loop (params : list (list Z)) (acc : list Z) : res (list Z) :=
  match params with
  | [] => Ok acc
  | p :: rest =>
      '(_, v) ← ReadParamStr fs path p [] 128;
      pBuf ← sprintf_into 128 (member p v);
      let gw := bool_decide (strstr pBuf ($"ap_gateway") ≠ None ∧ group = $"apstamsg") in
      acc ← strcat_1024 acc pBuf;
      acc ← (if gw then strcat_1024 acc ($"}") else Ok acc);
      acc ← (if decide (rest ≠ []) then
               acc ← strcat_1024 acc ($", ");
               if gw then strcat_1024 acc ($"{") else Ok acc
             else Ok acc);
      list_loop rest acc
  end.

Fixpoint find_member (params : list (list Z)) (name : list Z) (pRet : option (list Z)) : res (option (list Z)) :=
  match params with
  | [] => Ok pRet
  | p :: rest =>
      if decide (p = name) then
        '(_, v) ← ReadParamStr fs path p [] 128;
        t ← sprintf_into 128 (member p v);
        find_member rest name (Some t)
      else find_member rest name pRet
  end.
End Lists.

Definition configs_list_all (fs : fsys) (group : list Z) : res cptr :=
  let g := configs_search_groupname group in
  if decide (g = -1) then Ok PNull else
  path ← rd s_astrConfigFile g; params ← rd g_astrParamGroup g;
  t ← list_loop fs group path params [];
  Ok (if decide (t = []) then PNull else PHeap t).

(** [name] is replaced where it is in the request; none of the new names is
    longer than the old one. *)
Definition configs_list (fs : fsys) (group name : list Z) : res cptr :=
  match (if decide (group = $"stream") then find_name stream_names name else Some name) with
  | None => Ok PNull
  | Some name =>
      let g := configs_search_groupname group in
      if decide (g = -1) then Ok PNull else
      path ← rd s_astrConfigFile g; params ← rd g_astrParamGroup g;
      o ← find_member fs path params name None;
      Ok (match o with None => PLiteral ($"no match") | Some t => PHeap t end)
  end.

(** The list as it should be. *)
Fixpoint join (sep : list Z) (l : list (list Z)) : list Z :=
  match l with [] => [] | x :: l => x ++ match l with [] => [] | _ => sep ++ join sep l end end.

Lemma read_value fs path ls p :
  fs !! path = Some (file_of ls) → Forall line_ok ls → Forall (λ c, c ≠ 10) p → zlen (member p (param_value ls p)) < 128 →
  ReadParamStr fs path p [] 128 = Ok (0, param_value ls p).
Proof.
  intros Hfs Hls Hn Hm. rewrite (ReadParamStr_spec fs path ls) by done. case_decide as He; [by rewrite He|].
  rewrite decide_True; [done|]. unfold member in Hm. rewrite !zlen_app in Hm. change (zlen [34]) with 1 in Hm.
  pose proof (zlen_nonneg p). pose proof (zlen_nonneg ($": ")). lia.
Qed.

Lemma list_loop_spec fs group path ls params : ∀ acc,
  group ≠ $"apstamsg" → fs !! path = Some (file_of ls) → Forall line_ok ls →
  Forall (λ p, Forall (λ c, c ≠ 10) p ∧ zlen (member p (param_value ls p)) < 128) params →
  let out := join ($", ") ((λ p, member p (param_value ls p)) <$> params) in
  zlen (acc ++ out) < 1024 → list_loop fs group path params acc = Ok (acc ++ out).
Proof.
  induction params as [|p params IH]; intros acc Hg Hfs Hls Hp out Hl; [by unfold out; rewrite app_nil_r|].
  apply Forall_cons in Hp as ((Hn & Hm) & Hp). cbn [list_loop]. set (m := member p (param_value ls p)) in *.
  rewrite (read_value fs path ls p) by done. rewrite res_bind_ok. fold m. unfold sprintf_into at 1. rewrite decide_True, res_bind_ok by done.
  rewrite bool_decide_eq_false_2 by naive_solver.
  set (rest := join ($", ") ((λ p, member p (param_value ls p)) <$> params)).
  assert (out = m ++ match params with [] => [] | _ => $", " ++ rest end) as Eo by (unfold out; by destruct params).
  rewrite Eo in *. clear Eo out. unfold strcat_1024, sprintf_into. rewrite !zlen_app in Hl.
  pose proof (zlen_nonneg acc). pose proof (zlen_nonneg m). pose proof (zlen_nonneg rest).
  destruct params as [|p2 params].
  - rewrite zlen_nil in Hl. rewrite decide_True, res_bind_ok, res_bind_ok by (rewrite zlen_app; lia).
    no_failure. by rewrite res_bind_ok, app_nil_r.
  - rewrite zlen_app in Hl. change (zlen ($", ")) with 2 in Hl.
    rewrite decide_True, res_bind_ok, res_bind_ok by (rewrite zlen_app; lia).
    rewrite (decide_True (P := p2 :: params ≠ [])) by done.
    rewrite decide_True, res_bind_ok, res_bind_ok by (rewrite !zlen_app; change (zlen ($", ")) with 2; lia).
    rewrite IH; try done; [by rewrite <- !app_assoc|]. rewrite !zlen_app. change (zlen ($", ")) with 2. fold rest. lia.
Qed.

(** ** Lists after updates *)

(** The lines after a sequence of writes, and the value a parameter has then. *)
Definition set_all (ls : list (list Z)) (ws : list (list Z * list Z)) : list (list Z) :=
  foldl (λ ls x, set_lines ls x.1 x.2) ls ws.
Definition last_value (ws : list (list Z * list Z)) (p old : list Z) : list Z :=
  foldl (λ v x, if decide (x.1 = p) then x.2 else v) old ws.

Lemma param_value_set ls n v p :
  value_ok n v → Exists (λ l, n `prefix_of` l) ls → n = p ∨ unrelated n p →
  param_value (set_lines ls n v) p = if decide (n = p) then v else param_value ls p.
Proof.
  intros Hv Hex Hr. unfold param_value. case_decide as E.
  - subst p. fold (param_value (set_lines ls n v) n). rewrite param_value_written by done. by apply read_back_value.
  - destruct Hr as [?|(H1 & H2)]; [done|]. by rewrite find_line_other.
Qed.

Lemma param_ok_set ls n v x : n = x.1 ∨ unrelated n x.1 → param_ok ls x → param_ok (set_lines ls n v) x.
Proof. intros Hr (? & ? & ? & Hp). split_and!; [done..|]. by apply present_after. Qed.

Lemma write_all_lines ws : ∀ fs path ls,
  fs !! path = Some (file_of ls) → Forall line_ok ls → zlen path < 124 → Forall (param_ok ls) ws →
  (∀ x y, x ∈ ws → y ∈ ws → x.1 = y.1 ∨ unrelated x.1 y.1) →
  ∃ fs', write_all fs true path ws = Ok (fs', 0) ∧ fs' !! path = Some (file_of (set_all ls ws)) ∧ Forall line_ok (set_all ls ws).
Proof.
  induction ws as [|[n v] ws IH]; intros fs path ls Hfs Hls Hp Hok Hrel; [by exists fs|].
  apply Forall_cons in Hok as ((Hn & Hv & Hb & _) & Hok). cbn [fst snd] in *. cbn [write_all].
  rewrite WriteParamStr_spec with (ls := ls), res_bind_ok by done. no_failure.
  apply IH; [apply written_file|by apply set_lines_ok|done| |intros x y Hx Hy; apply Hrel; by right].
  rewrite Forall_forall in Hok |- *. intros x Hx. apply param_ok_set; [|by apply Hok].
  destruct (Hrel (n, v) x) as [He|He]; [by left|by right|by left|by right].
Qed.

Lemma set_all_value ws p : ∀ ls,
  Forall (param_ok ls) ws → (∀ x y, x ∈ ws → y ∈ ws → x.1 = y.1 ∨ unrelated x.1 y.1) →
  Forall (λ x, x.1 = p ∨ unrelated x.1 p) ws →
  param_value (set_all ls ws) p = last_value ws p (param_value ls p).
Proof.
  induction ws as [|[n v] ws IH]; intros ls Hok Hrel Hp; [done|].
  apply Forall_cons in Hok as ((Hn & Hv & Hb & Hex) & Hok). apply Forall_cons in Hp as (Hnp & Hp). cbn [fst snd] in *.
  change (param_value (set_all (set_lines ls n v) ws) p = last_value ws p (if decide (n = p) then v else param_value ls p)).
  rewrite IH; [by rewrite param_value_set| |intros x y Hx Hy; apply Hrel; by right|done].
  rewrite Forall_forall in Hok |- *. intros x Hx. apply param_ok_set; [|by apply Hok].
  destruct (Hrel (n, v) x) as [He|He]; [by left|by right|by left|by right].
Qed.

(** The members of a group. *)
Definition members (ls params : list (list Z)) : list (list Z) := (λ p, member p (param_value ls p)) <$> params.

Lemma configs_list_all_spec fs group path params ls :
  rd s_astrConfigFile (configs_search_groupname group) = Ok path →
  rd g_astrParamGroup (configs_search_groupname group) = Ok params → group ≠ $"apstamsg" → params ≠ [] →
  fs !! path = Some (file_of ls) → Forall line_ok ls →
  Forall (λ p, Forall (λ c, c ≠ 10) p ∧ zlen (member p (param_value ls p)) < 128) params →
  zlen (join ($", ") (members ls params)) < 1024 →
  configs_list_all fs group = Ok (PHeap (join ($", ") (members ls params))).
Proof.
  intros Hg Hps Hna Hne Hfs Hls Hp Hl. unfold configs_list_all. rewrite decide_False by (intros E; by rewrite E in Hg).
  rewrite Hg, res_bind_ok, Hps, res_bind_ok. rewrite (list_loop_spec fs group path ls params []) by done.
  cbn [app]. rewrite res_bind_ok. rewrite decide_False; [done|]. by destruct params.
Qed.

Lemma find_member_none fs path params name pRet : name ∉ params → find_member fs path params name pRet = Ok pRet.
Proof.
  induction params as [|p params IH]; intros Hn; [done|]. apply not_elem_of_cons in Hn as (Hp & Hn). cbn [find_member].
  rewrite decide_False by done. by apply IH.
Qed.

Lemma find_member_spec fs path ls params name pRet :
  fs !! path = Some (file_of ls) → Forall line_ok ls → Forall (λ c, c ≠ 10) name → NoDup params →
  zlen (member name (param_value ls name)) < 128 → name ∈ params →
  find_member fs path params name pRet = Ok (Some (member name (param_value ls name))).
Proof.
  intros Hfs Hls Hn Hnd Hm. revert pRet. induction params as [|p params IH]; intros pRet Hin; [by apply not_elem_of_nil in Hin|].
  apply NoDup_cons in Hnd as (Hp & Hnd). cbn [find_member]. case_decide as E.
  - subst p. rewrite (read_value fs path ls name) by done. rewrite res_bind_ok. unfold sprintf_into.
    rewrite decide_True, res_bind_ok by done. by rewrite find_member_none.
  - apply elem_of_cons in Hin as [->|Hin]; [done|]. by apply IH.
Qed.
