(* ===== verification/Rest.v ===== *)
(** * The REST server of the camera (wiscam-server.c)

    The requests of the REST interface: the handler of HTTP requests
    ([ev_handler]) with its methods, GET for lists of parameters and PUT for
    changes and restarts, over the settings of [Wiscam] and the answers of the
    HTTP library (mongoose.c: [mg_strcmp], [mg_strncmp], [mg_strstr] and the
    chunks of an answer). The shell (system) is an argument: what a command
    returns and what it does to the files. A request is the buffer of the
    connection from its URI on, so that what the code reads and overwrites
    behind the URI is there. *)

From stdpp Require Import prelude gmap strings pretty.
From S2P Require Import Prelude Pmsg ParamFile Wiscam.

Local Open Scope c_scope.

(** ** The HTTP library *)

Fixpoint mg_strcmp (s1 s2 : list Z) : Z :=
  match s1, s2 with
  | [], [] => 0
  | _ :: _, [] => 1
  | [], _ :: _ => -1
  | x :: s1, y :: s2 => if decide (x < y) then -1 else if decide (x > y) then 1 else mg_strcmp s1 s2
  end.
Definition mg_strncmp (s1 s2 : list Z) (n : Z) : Z := mg_strcmp (take (Z.to_nat n) s1) (take (Z.to_nat n) s2).

Fixpoint mg_strstr_loop (turns : nat) (haystack needle : list Z) : bool :=
  match turns with
  | O => false
  | S turns => if decide (take (length needle) haystack = needle) then true else mg_strstr_loop turns (drop 1 haystack) needle
  end.
Definition mg_strstr (haystack needle : list Z) : bool :=
  if decide (zlen needle > zlen haystack) then false
  else mg_strstr_loop (length haystack - length needle + 1) haystack needle.

(** [%lX] of an unsigned long. *)
Fixpoint fmt_X_loop (fuel : nat) (n : Z) (acc : list Z) : list Z :=
  match fuel with
  | O => acc
  | S fuel => if decide (n < 16) then hex_digit true n :: acc else fmt_X_loop fuel (n `div` 16) (hex_digit true (n `mod` 16) :: acc)
  end.
Definition fmt_X (n : Z) : list Z := fmt_X_loop 16 n [].

Definition mg_send_http_chunk (buf : list Z) : list Z := fmt_X (zlen buf) ++ crlf ++ buf ++ crlf.

(** What is done with the connection: bytes sent, or the files of the web pages
    served by the library. *)
Inductive output := Send (bytes : list Z) | ServeStatic.

(** ** Requests *)

(** [hm_mem] is the buffer from [uri.p] on; the query begins at an offset of it. *)
Record http_message := mkHm { hm_method : list Z; hm_mem : list Z; hm_uri_len : Z; hm_query : option Z }.
Definition hm_uri (hm : http_message) : list Z := take (Z.to_nat (hm_uri_len hm)) (hm_mem hm).

Definition RK_PLATFORM_API : list Z := $"wiscam.api/v1/".
Definition RK_HTTP_HEADER : list Z := $"Cache-Control: no-store, no-cache" ++ crlf ++ $"Content-Type: application/json" ++ crlf ++ crlf.
Definition status (line : list Z) : output := Send ($"HTTP/1.1 " ++ line ++ crlf ++ RK_HTTP_HEADER).
Definition not_implemented : output := status ($"501 Not Implemented").

(** The answer with a JSON text, in chunks. *)
Definition json_reply (text : list Z) : output :=
  Send ($"HTTP/1.1 200 OK" ++ crlf ++ $"Transfer-Encoding: chunked" ++ crlf ++ crlf ++
        mg_send_http_chunk text ++ mg_send_http_chunk []).

(** What is before " HTTP/1.1" in a text, which the code ends there. *)
Definition cut_version (s : list Z) : list Z :=
  match strstr s ($" HTTP/1.1") with None => s | Some t => take (length s - length t) s end.

Definition list_all : list Z := $"list_all".
Definition getUriHost (hm : http_message) (baseUriLen : Z) : res (option (list Z)) :=
  if decide (hm_uri_len hm = baseUriLen + 1 ∨ hm_uri_len hm = baseUriLen + 2) then Ok (Some list_all)
  else if decide (hm_uri_len hm > baseUriLen + 1) then
    s ← cstr (hm_mem hm) (baseUriLen + 2);
    Ok (Some (cut_version s))
  else Ok None.

(** [%s] of a pointer, and free. *)
Definition ptr_text (p : cptr) : res (list Z) :=
  match p with PNull => Fault NullDeref | PHeap s | PLiteral s => Ok s end.
Definition free_ptr (p : cptr) : res unit :=
  match p with PNull | PHeap _ => Ok () | PLiteral _ => Fault BadFree end.

Section Server.
(** The shell: what a command does to the files and what system returns. *)
Context (system : list Z → fsys → fsys * Z).

(** ** The scan of networks (wifi_scanning) *)

(** The address, the name and the channel of the network that is read, and
    whether the last thing sent is a network. *)
Record scan := mkScan { sc_addr : list Z; sc_essid : list Z; sc_channel : list Z; sc_flag : bool }.

(** The text behind a pattern. *)
Definition behind (line pat : list Z) : option (list Z) := drop (length pat) <$> strstr line pat.

Definition network (st : scan) : list Z :=
  $"{" ++ [34] ++ $"ssid" ++ [34; 58] ++ sc_essid st ++ [44; 34] ++ $"bssid" ++ [34; 58; 34] ++ sc_addr st ++
  [34; 44; 34] ++ $"channel" ++ [34; 58; 34] ++ sc_channel st ++ [34] ++ $"}".

(** One line, without its end: the state and what is sent. *)
Definition scan_line (st : scan) (line : list Z) : res (scan * list Z) :=
  match behind line ($" - Address: ") with
  | Some t =>
      t ← sprintf_into 100 t;
      Ok (mkScan t (sc_essid st) (sc_channel st) false, if sc_flag st then $"," else [])
  | None =>
  match behind line ($"    ESSID:") with
  | Some t => t ← sprintf_into 100 t; Ok (mkScan (sc_addr st) t (sc_channel st) (sc_flag st), [])
  | None =>
  match behind line ($" (Channel ") with
  | Some t =>
      t ← sprintf_into 100 t;
      let t := match strstr t ($")") with None => t | Some r => take (length t - length r) t end in
      Ok (mkScan (sc_addr st) (sc_essid st) t (sc_flag st), [])
  | None =>
  match behind line ($"    Extra:fm=") with
  | Some _ =>
      m ← sprintf_into 512 (network st);
      Ok (mkScan (sc_addr st) (sc_essid st) (sc_channel st) true, m)
  | None => Ok (st, [])
  end end end end.

Fixpoint scan_loop (fuel : nat) (stream : list Z) (st : scan) : res (list Z) :=
  match fuel with
  | O => Fault OutOfFuel
  | S fuel =>
      '(line, rest) ← ReadLine 512 stream;
      match line with
      | None => Ok []
      | Some buf =>
          let t := text_of buf in
          if decide (t = []) then Fault OutOfBounds else
          '(st, out) ← scan_line st (take (length t - 1) t);
          more ← scan_loop fuel rest st;
          Ok (out ++ more)
      end
  end.

Definition DEF_CONF_PATH_NUWICAM_SCANWIFI : list Z := etc ++ $"wifiscan_config".
Definition wifi_scanning (fs : fsys) : res (fsys * list output * Z) :=
  let '(fs, r) := system ($"/mnt/nuwicam/wifi/iwlist wlan0 scanning > /mnt/nuwicam/etc/wifiscan_config;sleep 1") fs in
  if decide (r ≠ 0) then Ok (fs, [], -1) else
  match fs !! DEF_CONF_PATH_NUWICAM_SCANWIFI with
  | None => Ok (fs, [], -1)
  | Some stream =>
      out ← scan_loop (S (length stream)) stream (mkScan [] [] [] false);
      let '(fs, _) := system ($"rm /mnt/nuwicam/etc/wifiscan_config") fs in
      Ok (fs, [Send ($"HTTP/1.1 200 OK" ++ crlf ++ RK_HTTP_HEADER ++ $"{" ++ [34] ++ $"wifimessage" ++ [34] ++ $": [" ++
                     out ++ $"]}")], 0)
  end.

(** ** GET *)

(** The end of the function: the list is freed and the text sent. *)
Definition finish_get (fs : fsys) (out : list output) (listParam : cptr) (respData : list Z) : res (fsys * list output * Z) :=
  _ ← free_ptr listParam;
  Ok (fs, out ++ [json_reply respData], 0).

(** sprintf to respData, of 1024 bytes. *)
Definition respond (open : list Z) (listParam : cptr) (close : list Z) : res (list Z) :=
  s ← ptr_text listParam; sprintf_into 1024 (open ++ s ++ close).

(** The lists of a group with a file of its own; [missing] is what happens when
    the URI is too short. *)
Definition get_group (fs : fsys) (hm : http_message) (group uri : list Z)
    (missing : cptr → res (fsys * list output * Z)) : res (fsys * list output * Z) :=
  listParam ← configs_list_all fs group;
  listStr ← getUriHost hm (zlen uri);
  match listStr with
  | None => missing listParam
  | Some t =>
      listParam ← (if decide (t = list_all) then Ok listParam else configs_list fs group t);
      respData ← respond ($"{") listParam ($"}");
      finish_get fs [] listParam respData
  end.

(** The messages of the network, which a script writes to a file: all of them,
    or the one behind the name of the interface. *)
Definition get_messages (fs : fsys) (which key : list Z) (listVal : option (list Z)) : res (fsys * list output * Z) :=
  let group := which ++ $"msg" in
  let '(fs, r) := system ($"/mnt/nuwicam/bin/wifimsg.sh " ++ which) fs in
  if decide (r ≠ 0) then Ok (fs, [status ($"404 Not Found")], -1) else
  '(listParam, respData) ←
    match listVal with
    | None =>
        p ← configs_list_all fs group;
        match p with
        | PNull => Ok (p, [])
        | _ => t ← respond ($"{" ++ [34] ++ key ++ [34] ++ $": [{") p ($"}]"); Ok (p, t)
        end
    | Some name => p ← configs_list fs group name; t ← respond ($"{") p ($"}"); Ok (p, t)
    end;
  let '(fs, _) := system ($"rm /mnt/nuwicam/etc/" ++ group ++ $"_config") fs in
  finish_get fs [] listParam respData.

(** [listVal] behind the name of the interface: nothing, or the parameter after
    one more character. *)
Definition list_val (t : list Z) : option (list Z) := if decide (t = []) then None else Some (drop 1 t).

Definition get_wifi (fs : fsys) (hm : http_message) (uri : list Z) : res (fsys * list output * Z) :=
  listStr ← getUriHost hm (zlen uri);
  match listStr with
  | None => Fault NullDeref
  | Some t =>
      if decide (t = list_all) then get_messages fs ($"apsta") ($"apstamessages") None
      else match behind t ($"ap") with
      | Some v => get_messages fs ($"ap") ($"apmessage") (list_val v)
      | None =>
      match behind t ($"sta") with
      | Some v => get_messages fs ($"sta") ($"stamessage") (list_val v)
      | None => Ok (fs, [status ($"400 Bad Request")], -1)
      end end
  end.

Definition rk_get_method (fs : fsys) (hm : http_message) : res (fsys * list output * Z) :=
  let at_ s := mg_strstr (hm_uri hm) (RK_PLATFORM_API ++ s) in
  if at_ ($"audio/lists") then Ok (fs, [not_implemented], -1)
  else if at_ ($"video/lists") then
    get_group fs hm ($"stream") (RK_PLATFORM_API ++ $"video/lists")
      (λ listParam, finish_get fs [status ($"400 Bad Request")] listParam [])
  else if at_ ($"wifi/lists") then get_wifi fs hm (RK_PLATFORM_API ++ $"wifi/lists")
  else if at_ ($"wifi/scanning") then
    '(fs, out, r) ← wifi_scanning fs;
    if decide (r ≠ 0) then Ok (fs, out ++ [status ($"500 Internal Server Error")], -1) else Ok (fs, out, 0)
  else if at_ ($"nabto/lists") then
    get_group fs hm ($"nabto") (RK_PLATFORM_API ++ $"nabto/lists") (λ _, Ok (fs, [status ($"400 Bad Request")], -1))
  else if at_ ($"version") then
    listParam ← configs_list_all fs ($"version");
    respData ← respond ($"{") listParam ($"}");
    finish_get fs [] listParam respData
  else Ok (fs, [not_implemented], -1).

(** ** PUT and the other methods *)

(** The query as the code leaves it: ended before the version of the protocol. *)
Definition end_query (q : list Z) : res (list Z) :=
  s ← cstr q 0;
  match strstr s ($" HTTP/1.1") with
  | None => Ok q
  | Some t => wr q (zlen s - zlen t) 0
  end.

Definition value_text (iRet : Z) : list Z := $"{ " ++ [34] ++ $"value" ++ [34] ++ $": " ++ fmt_d iRet ++ $" }".

Definition rk_put_method (fs : fsys) (can_create : bool) (hm : http_message) : res (fsys * list output * Z) :=
  let at_ s := mg_strstr (hm_uri hm) (RK_PLATFORM_API ++ s) in
  query ← (match hm_query hm with
           | None => Ok None
           | Some p => q ← end_query (drop (Z.to_nat p) (hm_mem hm)); Ok (Some q)
           end);
  let update group := '(fs, iRet) ← configs_update fs can_create query group; Ok (fs, [json_reply (value_text iRet)], 0) in
  if at_ ($"audio/modify") then Ok (fs, [not_implemented], -1)
  else if at_ ($"video/modify") then update ($"stream")
  else if at_ ($"wifi/modify") then update ($"wifi")
  else if at_ ($"nabto/modify") then update ($"nabto")
  else if at_ ($"wifi/restart") then
    let '(fs, _) := system ($"/mnt/nuwicam/bin/go_networking.sh") fs in
    Ok (fs, [json_reply (value_text 0)], 0)
  else Ok (fs, [not_implemented], -1).

Definition rk_post_method (fs : fsys) : res (fsys * list output * Z) := Ok (fs, [not_implemented], 0).
Definition rk_delete_method (fs : fsys) : res (fsys * list output * Z) := Ok (fs, [not_implemented], 0).

(** ** The handler *)

(** A request, the event MG_EV_HTTP_REQUEST; other events are ignored. *)
Definition ev_handler (fs : fsys) (can_create : bool) (hm : http_message) : res (fsys * list output) :=
  if decide (mg_strncmp (hm_uri hm) RK_PLATFORM_API (zlen RK_PLATFORM_API) ≠ 0) then
    '(fs, out, _) ←
      (if decide (hm_method hm = $"GET") then rk_get_method fs hm
       else if decide (hm_method hm = $"PUT") then rk_put_method fs can_create hm
       else if decide (hm_method hm = $"POST") then rk_post_method fs
       else if decide (hm_method hm = $"DELETE") then rk_delete_method fs
       else Ok (fs, [status ($"405 Method Not Allowed")], 0));
    Ok (fs, out)
  else Ok (fs, [ServeStatic]).
End Server.

(** The options of the program: the port and the directory of the pages, [None]
    where it prints the option and ends. *)
Fixpoint main_options (argv : list (list Z)) (port root : list Z) : option (list Z * list Z) :=
  match argv with
  | [] => Some (port, root)
  | o :: rest =>
      match rest with
      | v :: rest' =>
          if decide (o = $"-w") then main_options rest' port v
          else if decide (o = $"-p") then main_options rest' v root
          else None
      | [] => None
      end
  end.
Definition main_http_param (argv : list (list Z)) : option (list Z * list Z) :=
  main_options argv ($"9999") ($"/mnt/nuwicam/www/restweb").

(** ** What a client reads *)

(** The size of a chunk, and the body of an answer in chunks (RFC 7230). *)
Fixpoint read_size (l : list Z) (v : Z) : Z * list Z :=
  match l with
  | [] => (v, [])
  | c :: r => if decide (hex_char_to_int c = -1) then (v, l) else read_size r (16 * v + hex_char_to_int c)
  end.
Fixpoint dechunk (fuel : nat) (l : list Z) : option (list Z) :=
  match fuel with
  | O => None
  | S fuel =>
      let '(n, r) := read_size l 0 in
      if decide (take 2 r = crlf) then
        let r := drop 2 r in
        if decide (n = 0) then Some []
        else if decide (take 2 (drop (Z.to_nat n) r) = crlf) then
          app (take (Z.to_nat n) r) <$> dechunk fuel (drop (Z.to_nat n + 2) r)
        else None
      else None
  end.
Definition client_reads (bytes : list Z) : option (list Z) :=
  head ← strstr bytes (crlf ++ crlf); dechunk (length bytes) (drop 4 head).

(** The request changes the files as given and the client reads the text. *)
Definition answers (system : list Z → fsys → fsys * Z) (fs : fsys) (hm : http_message) (fs' : fsys) (text : list Z) : Prop :=
  ∃ bytes, ev_handler system fs true hm = Ok (fs', [Send bytes]) ∧ client_reads bytes = Some text.

Lemma hex_digit_value n : 0 ≤ n < 16 → hex_char_to_int (hex_digit true n) = n.
Proof. intros Hn. unfold hex_digit, hex_char_to_int. repeat case_decide; lia. Qed.

Lemma read_digit n r v : 0 ≤ n < 16 → read_size (hex_digit true n :: r) v = read_size r (16 * v + n).
Proof. intros Hn. cbn. rewrite hex_digit_value by done. by rewrite decide_False by lia. Qed.

Lemma read_fmt_X_loop fuel : ∀ n acc rest, 0 ≤ n < 16 ^ Z.of_nat (S fuel) →
  read_size (fmt_X_loop (S fuel) n acc ++ rest) 0 = read_size (acc ++ rest) n.
Proof.
  induction fuel as [|fuel IH]; intros n acc rest Hn.
  - change (16 ^ Z.of_nat 1) with 16 in Hn. cbn [fmt_X_loop]. rewrite decide_True by lia. cbn [app]. by rewrite read_digit by lia.
  - remember (S fuel) as f. cbn [fmt_X_loop]. case_decide as E.
    + cbn [app]. by rewrite read_digit by lia.
    + rewrite Nat2Z.inj_succ, Z.pow_succ_r in Hn by lia. rewrite IH by (split; zdm). cbn [app].
      rewrite read_digit by zdm. f_equal. zdm.
Qed.

Lemma read_chunk_size n rest : 0 ≤ n < 16 ^ 16 → read_size (fmt_X n ++ crlf ++ rest) 0 = (n, crlf ++ rest).
Proof. intros Hn. unfold fmt_X. by rewrite read_fmt_X_loop. Qed.

(** A client reads the text the server answers with. *)
Lemma json_reply_body text :
  0 < zlen text < 16 ^ 16 → ∃ bytes, json_reply text = Send bytes ∧ client_reads bytes = Some text.
Proof.
  intros Hl. eexists. split; [reflexivity|]. unfold client_reads.
  set (body := mg_send_http_chunk text ++ mg_send_http_chunk []).
  set (bytes := _ ++ _). assert (strstr bytes (crlf ++ crlf) = Some (crlf ++ crlf ++ body)) as -> by reflexivity.
  cbn [mbind option_bind]. change (drop 4 (crlf ++ crlf ++ body)) with body.
  assert (∃ k, length bytes = S (S k)) as (k & ->) by by eexists.
  remember (S k) as f. cbn [dechunk]. unfold body, mg_send_http_chunk at 1. rewrite <- !app_assoc.
  rewrite read_chunk_size by lia. rewrite decide_True by done. change (drop 2 (crlf ++ ?r)) with r.
  cbn [crlf app drop]. rewrite (decide_False (P := zlen text = 0)) by lia. rewrite to_nat_zlen.
  rewrite drop_app_length, decide_True by done. rewrite take_app_length, <- drop_drop, drop_app_length.
  subst f. change (dechunk (S k) _) with (Some (@nil Z)). cbn [fmap option_fmap option_map]. by rewrite app_nil_r.
Qed.

(** ** Requests as texts *)

(** A request with a query, and one without; the header follows. *)
Definition put_request (uri q header : list Z) : http_message :=
  mkHm ($"PUT") (uri ++ $"?" ++ q ++ $" HTTP/1.1" ++ header) (zlen uri) (Some (zlen uri + 1)).
Definition get_request (uri header : list Z) : http_message :=
  mkHm ($"GET") (uri ++ $" HTTP/1.1" ++ header) (zlen uri) None.

Lemma put_request_uri uri q header : hm_uri (put_request uri q header) = uri.
Proof. unfold hm_uri. cbn. by rewrite to_nat_zlen, take_app_length. Qed.

Lemma get_request_uri uri header : hm_uri (get_request uri header) = uri.
Proof. unfold hm_uri. cbn. by rewrite to_nat_zlen, take_app_length. Qed.

Lemma strstr_skip q c p r : Forall (λ x, x ≠ c) q → strstr (q ++ c :: r) (c :: p) = strstr (c :: r) (c :: p).
Proof.
  induction 1 as [|x q Hx _ IH]; [done|]. cbn [app strstr]. rewrite decide_False; [exact IH|].
  intros H. by apply prefix_cons_inv_1 in H.
Qed.

Lemma find_version q r : Forall (λ x, x ≠ 32) q → strstr (q ++ $" HTTP/1.1" ++ r) ($" HTTP/1.1") = Some ($" HTTP/1.1" ++ r).
Proof.
  intros Hq. change ($" HTTP/1.1") with (32 :: $"HTTP/1.1"). rewrite <- app_comm_cons, strstr_skip by done.
  cbn [strstr]. rewrite decide_True; [done|]. rewrite app_comm_cons. by apply prefix_app_r.
Qed.

Lemma cut_version_spec q r : Forall (λ x, x ≠ 32) q → cut_version (q ++ $" HTTP/1.1" ++ r) = q.
Proof.
  intros Hq. unfold cut_version. rewrite find_version by done. rewrite (length_app q), Nat.add_sub. apply take_app_length.
Qed.

(** The query as an update takes it: it ends with a zero byte. *)
Lemma end_query_spec q t1 t2 :
  Forall (λ x, x ≠ 32 ∧ x ≠ 0) q → Forall (λ x, x ≠ 0) t1 →
  end_query (q ++ $" HTTP/1.1" ++ t1 ++ 0 :: t2) = Ok (q ++ 0 :: $"HTTP/1.1" ++ t1 ++ 0 :: t2).
Proof.
  intros Hq Ht. unfold end_query.
  assert (cstr (q ++ $" HTTP/1.1" ++ t1 ++ 0 :: t2) 0 = Ok (q ++ $" HTTP/1.1" ++ t1)) as ->.
  { replace (q ++ $" HTTP/1.1" ++ t1 ++ 0 :: t2) with ([] ++ (q ++ $" HTTP/1.1" ++ t1) ++ 0 :: t2) by by rewrite <- !app_assoc.
    apply (cstr_mid []). apply Forall_app. split; [eapply Forall_impl; [exact Hq|]; naive_solver|].
    apply Forall_app. split; [by repeat constructor|done]. }
  rewrite res_bind_ok, find_version by (eapply Forall_impl; [exact Hq|]; naive_solver).
  rewrite (zlen_app q). replace (_ + _ - _) with (zlen q) by lia.
  change ($" HTTP/1.1") with (32 :: $"HTTP/1.1"). rewrite <- app_comm_cons. apply wr_mid_app.
Qed.

(** ** Changes of the video settings and their lists *)

Definition stream_path : list Z := etc ++ $"stream_config".

(** An assignment of a PUT for the video: a name of the interface and an encoded
    value for it that has no spaces and at most 100 characters. *)
Record stream_assign (a : assign) : Prop := {
  sa_name : ∃ n, (a_key a, n) ∈ stream_names ∧ value_ok n (a_val a);
  sa_text : encodes (a_text a) (a_val a);
  sa_chars : Forall (λ c, c ≠ 38 ∧ c ≠ 32) (a_text a);
  sa_len : zlen (a_text a) ≤ 100 }.

(** The file has the parameters of the video, with values that short. *)
Definition stream_file (ls : list (list Z)) : Prop :=
  Forall line_ok ls ∧ Forall (λ p, Exists (λ l, p `prefix_of` l) ls ∧ zlen (param_value ls p) ≤ 100) g_astrStreamParam.

(** The names of the table: the file's name is in the list, fits in place of the
    interface's, and is found. *)
Definition stream_name_ok (x : list Z * list Z) : Prop :=
  x.2 ∈ g_astrStreamParam ∧ file_name ($"stream") x.1 = Some x.2 ∧ x.1 ≠ [] ∧ zlen x.2 ≤ zlen x.1 ∧
  Forall (λ c, c ≠ 0 ∧ c ≠ 38 ∧ c ≠ 61 ∧ c ≠ 32) x.1 ∧ Forall (λ c, c ≠ 0 ∧ c ≠ 10 ∧ c ≠ 13) x.2 ∧ zlen x.2 ≤ 13.

Lemma stream_names_ok x : x ∈ stream_names → stream_name_ok x.
Proof.
  assert (Forall stream_name_ok stream_names) as H by (unfold stream_name_ok; closed_nonzero).
  rewrite Forall_forall in H. apply H.
Qed.

Lemma stream_params_ok p : p ∈ g_astrStreamParam → Forall (λ c, c ≠ 10) p ∧ zlen p ≤ 13 ∧ is_ssid p = false.
Proof.
  assert (Forall (λ p, Forall (λ c, c ≠ 10) p ∧ zlen p ≤ 13 ∧ is_ssid p = false) g_astrStreamParam) as H by closed_nonzero.
  rewrite Forall_forall in H. apply H.
Qed.

Lemma stream_params_unrelated a b : a ∈ g_astrStreamParam → b ∈ g_astrStreamParam → a = b ∨ unrelated a b.
Proof.
  intros Ha Hb. pose proof group_names_unrelated as H. apply Forall_cons in H as (_ & H). apply Forall_cons in H as (H & _).
  rewrite Forall_forall in H. specialize (H a Ha). rewrite Forall_forall in H. by apply H.
Qed.

Lemma stream_assign_ok a : stream_assign a → assign_ok ($"stream") a.
Proof.
  intros [(n & Hn & _ & _ & Hv) He Hc Hl]. apply stream_names_ok in Hn as (_ & Hf & Hne & Hlen & Hk & Hn & _). cbn [fst snd] in *.
  split; [done| |done| | |lia|].
  - eapply Forall_impl; [exact Hk|]. naive_solver.
  - eapply Forall_impl; [exact Hc|]. naive_solver.
  - eapply Forall_impl; [exact Hv|]. naive_solver.
  - exists n. split; [done|]. split; [eapply Forall_impl; [exact Hn|]; naive_solver|]. pose proof (zlen_nonneg (a_text a)). lia.
Qed.

Lemma encodes_len e s : encodes e s → zlen s ≤ zlen e.
Proof. induction 1; rewrite ?zlen_nil, ?zlen_cons in *; lia. Qed.

Section StreamUpdate.
Context (ls : list (list Z)) (l : list assign).
Hypothesis Hls : stream_file ls.
Hypothesis Hl : Forall stream_assign l.

Let ws := l ≫= assign_writes ($"stream").

Lemma stream_writes x :
  x ∈ ws → x.1 ∈ g_astrStreamParam ∧ zlen x.2 ≤ 100 ∧ param_ok ls x.
Proof.
  intros (a & Hx & Ha)%list_elem_of_bind. rewrite Forall_forall in Hl. destruct (Hl a Ha) as [(n & Hn & Hv) He Hc Hlen].
  apply stream_names_ok in Hn as (Hin & Hf & _ & _ & _ & Hno & Hn). cbn [fst snd] in *.
  unfold assign_writes, before_writes in Hx. rewrite decide_False in Hx by naive_solver. rewrite Hf in Hx.
  apply list_elem_of_singleton in Hx as ->. cbn [fst snd]. pose proof (encodes_len _ _ He). split; [done|]. split; [lia|].
  split_and!; [done|done| |].
  - unfold body_of. cbn [fst snd default from_option id]. rewrite (proj2 (proj2 (stream_params_ok n Hin))). rewrite !zlen_app.
    change (zlen ($" ")) with 1. lia.
  - destruct Hls as (_ & Hp). rewrite Forall_forall in Hp. by apply Hp.
Qed.

Lemma stream_writes_rel x y : x ∈ ws → y ∈ ws → x.1 = y.1 ∨ unrelated x.1 y.1.
Proof. intros (Hx & _)%stream_writes (Hy & _)%stream_writes. by apply stream_params_unrelated. Qed.

Lemma stream_value p : p ∈ g_astrStreamParam → param_value (set_all ls ws) p = last_value ws p (param_value ls p).
Proof.
  intros Hp. apply set_all_value.
  - apply Forall_forall. intros x Hx. by apply stream_writes.
  - apply stream_writes_rel.
  - apply Forall_forall. intros x (Hx & _)%stream_writes. by apply stream_params_unrelated.
Qed.

Lemma last_value_len w p old : zlen old ≤ 100 → Forall (λ x, zlen x.2 ≤ 100) w → zlen (last_value w p old) ≤ 100.
Proof.
  intros Ho Hw. revert old Ho. induction Hw as [|x w Hx _ IH]; intros old Ho; [done|]. cbn. apply IH. by case_decide.
Qed.

Lemma stream_value_len p : p ∈ g_astrStreamParam → zlen (param_value (set_all ls ws) p) ≤ 100.
Proof.
  intros Hp. rewrite stream_value by done. apply last_value_len.
  - destruct Hls as (_ & H). rewrite Forall_forall in H. by apply H.
  - apply Forall_forall. by intros x (_ & Hx & _)%stream_writes.
Qed.

Lemma stream_render : Forall (λ x, x ≠ 32 ∧ x ≠ 0) (render l).
Proof.
  clear ws Hls. induction Hl as [|a l' Ha Hl' IH]; [done|]. destruct Ha as [(n & Hn & _) He Hc _].
  apply stream_names_ok in Hn as (_ & _ & _ & _ & Hk & _). cbn [fst] in Hk. apply encodes_nonzero in He.
  cbn [render]. apply Forall_app. split; [eapply Forall_impl; [exact Hk|]; naive_solver|]. constructor; [done|].
  apply Forall_app. split; [rewrite Forall_forall in *; naive_solver|]. destruct l'; [done|]. constructor; [done|]. by apply IH.
Qed.
End StreamUpdate.

Lemma zlen_member p v : zlen (member p v) = zlen p + zlen v + 6.
Proof. unfold member. rewrite !zlen_app. change (zlen [34]) with 1. change (zlen ($": ")) with 2. lia. Qed.

Lemma zlen_join sep k l : 0 ≤ k → Forall (λ x, zlen x ≤ k) l → zlen (join sep l) ≤ Z.of_nat (length l) * (k + zlen sep).
Proof.
  intros Hk. pose proof (zlen_nonneg sep). induction 1 as [|x l Hx _ IH]; [done|]. cbn [join length].
  rewrite zlen_app, Nat2Z.inj_succ, Z.mul_succ_l. destruct l; [rewrite zlen_nil; lia|]. rewrite zlen_app. lia.
Qed.

(** The lists of the video, when the values are short. *)
Section StreamLists.
Context (fs : fsys) (ls : list (list Z)).
Hypothesis Hfs : fs !! stream_path = Some (file_of ls).
Hypothesis Hls : Forall line_ok ls.
Hypothesis Hv : ∀ p, p ∈ g_astrStreamParam → zlen (param_value ls p) ≤ 100.

Lemma stream_member_len p : p ∈ g_astrStreamParam → zlen (member p (param_value ls p)) ≤ 119.
Proof. intros Hp. rewrite zlen_member. pose proof (Hv p Hp). pose proof (stream_params_ok p Hp). lia. Qed.

Lemma stream_list_len : zlen (join ($", ") (members ls g_astrStreamParam)) ≤ 605.
Proof.
  etrans; [apply (zlen_join _ 119); [done|]|done]. apply Forall_fmap, Forall_forall. apply stream_member_len.
Qed.

Lemma stream_list_all : configs_list_all fs ($"stream") = Ok (PHeap (join ($", ") (members ls g_astrStreamParam))).
Proof.
  pose proof stream_list_len. apply configs_list_all_spec with (path := stream_path); try done; [|lia].
  apply Forall_forall. intros p Hp. pose proof (stream_member_len p Hp). split; [by apply stream_params_ok|lia].
Qed.

Lemma stream_list_one key name :
  (key, name) ∈ stream_names → configs_list fs ($"stream") key = Ok (PHeap (member name (param_value ls name))).
Proof.
  intros (Hin & Hf & _)%stream_names_ok. cbn [fst snd] in *. unfold configs_list.
  unfold file_name in Hf. rewrite (decide_False (P := $"stream" = $"wifi")), decide_True in Hf by done.
  rewrite decide_True, Hf by done. change (configs_search_groupname ($"stream")) with 1.
  rewrite decide_False by done. change (rd s_astrConfigFile 1) with (Ok stream_path). rewrite res_bind_ok.
  change (rd g_astrParamGroup 1) with (Ok g_astrStreamParam). rewrite res_bind_ok.
  pose proof (stream_member_len name Hin).
  rewrite (find_member_spec fs stream_path ls); try done; [by apply stream_params_ok|closed_nonzero|lia].
Qed.

Lemma stream_respond t : zlen t < 1022 → respond ($"{") (PHeap t) ($"}") = Ok ($"{" ++ t ++ $"}").
Proof.
  intros Ht. unfold respond, sprintf_into. cbn [ptr_text]. rewrite res_bind_ok.
  rewrite decide_True; [done|]. rewrite !zlen_app. change (zlen ($"{")) with 1. change (zlen ($"}")) with 1. lia.
Qed.

Definition lists_uri : list Z := $"/" ++ RK_PLATFORM_API ++ $"video/lists".

Lemma get_stream system hm :
  hm_method hm = $"GET" → mg_strncmp (hm_uri hm) RK_PLATFORM_API (zlen RK_PLATFORM_API) ≠ 0 →
  mg_strstr (hm_uri hm) (RK_PLATFORM_API ++ $"audio/lists") = false →
  mg_strstr (hm_uri hm) (RK_PLATFORM_API ++ $"video/lists") = true →
  ∀ s t p, getUriHost hm (zlen (RK_PLATFORM_API ++ $"video/lists")) = Ok (Some s) →
  (if decide (s = list_all) then Ok (PHeap (join ($", ") (members ls g_astrStreamParam))) else configs_list fs ($"stream") s) = Ok p →
  p = PHeap t → zlen t < 1022 → answers system fs hm fs ($"{" ++ t ++ $"}").
Proof.
  intros Hm Hn Ha Hv' s t p Hu Hp -> Ht. destruct (json_reply_body ($"{" ++ t ++ $"}")) as (bytes & Eb & Hc).
  { rewrite !zlen_app. change (zlen ($"{")) with 1. change (zlen ($"}")) with 1. pose proof (zlen_nonneg t). lia. }
  exists bytes. split; [|done]. unfold ev_handler. rewrite decide_True, Hm by done. rewrite decide_True by done.
  unfold rk_get_method. rewrite Ha, Hv'. unfold get_group. rewrite stream_list_all, res_bind_ok, Hu, res_bind_ok, Hp, res_bind_ok.
  rewrite stream_respond, res_bind_ok by done. unfold finish_get. cbn [free_ptr]. by rewrite !res_bind_ok, Eb.
Qed.

Lemma get_all system header :
  answers system fs (get_request lists_uri header) fs ($"{" ++ join ($", ") (members ls g_astrStreamParam) ++ $"}").
Proof.
  pose proof stream_list_len. eapply get_stream; rewrite ?get_request_uri; try done; try lia.
Qed.

Lemma get_one system key name t1 t2 :
  (key, name) ∈ stream_names → Forall (λ x, x ≠ 0) t1 →
  answers system fs (get_request (lists_uri ++ $"/" ++ key) (t1 ++ 0 :: t2)) fs ($"{" ++ member name (param_value ls name) ++ $"}").
Proof.
  intros Hin Ht. pose proof (stream_list_one key name Hin) as Hl. pose proof (stream_names_ok _ Hin) as (Hp & _ & Hne & _ & Hk & _).
  pose proof (stream_member_len name Hp). cbn [fst] in *.
  assert (cstr (hm_mem (get_request (lists_uri ++ $"/" ++ key) (t1 ++ 0 :: t2))) (zlen (RK_PLATFORM_API ++ $"video/lists") + 2) =
    Ok (key ++ $" HTTP/1.1" ++ t1)) as Hc.
  { unfold get_request. cbn [hm_mem]. replace ((lists_uri ++ $"/" ++ key) ++ $" HTTP/1.1" ++ t1 ++ 0 :: t2)
      with ((lists_uri ++ $"/") ++ (key ++ $" HTTP/1.1" ++ t1) ++ 0 :: t2) by by rewrite <- !app_assoc.
    change (zlen (RK_PLATFORM_API ++ $"video/lists") + 2) with (zlen (lists_uri ++ $"/")). apply cstr_mid.
    apply Forall_app. split; [eapply Forall_impl; [exact Hk|]; naive_solver|]. apply Forall_app. split; [by repeat constructor|done]. }
  assert (getUriHost (get_request (lists_uri ++ $"/" ++ key) (t1 ++ 0 :: t2)) (zlen (RK_PLATFORM_API ++ $"video/lists")) = Ok (Some key)) as Hu.
  { unfold getUriHost. rewrite Hc, res_bind_ok. rewrite cut_version_spec by (eapply Forall_impl; [exact Hk|]; naive_solver).
    cbn [hm_uri_len get_request]. rewrite !zlen_app. change (zlen lists_uri) with (zlen (RK_PLATFORM_API ++ $"video/lists") + 1).
    change (zlen ($"/")) with 1. destruct key; [done|]. rewrite zlen_cons. pose proof (zlen_nonneg key).
    rewrite decide_False by (rewrite zlen_app; lia). by rewrite decide_True by (rewrite zlen_app; lia). }
  unfold stream_names in Hin. rewrite list_elem_of_In in Hin. cbn [In] in Hin.
  eapply get_stream; rewrite ?get_request_uri; [reflexivity| | | |exact Hu| |reflexivity|lia];
    repeat (destruct Hin as [[= <- <-]|Hin]; [try done; exact Hl|]); destruct Hin.
Qed.
End StreamLists.

Definition modify_uri : list Z := $"/" ++ RK_PLATFORM_API ++ $"video/modify".

Lemma put_stream system fs ls l t1 t2 :
  fs !! stream_path = Some (file_of ls) → stream_file ls → Forall stream_assign l → Forall (λ x, x ≠ 0) t1 →
  ∃ fs', answers system fs (put_request modify_uri (render l) (t1 ++ 0 :: t2)) fs' (value_text 0) ∧
    let ls' := set_all ls (l ≫= assign_writes ($"stream")) in
    fs' !! stream_path = Some (file_of ls') ∧ Forall line_ok ls'.
Proof.
  intros Hfs Hls Hl Ht. destruct (write_all_lines (l ≫= assign_writes ($"stream")) fs stream_path ls) as (fs' & Hw & Hf & Hok).
  - done.
  - apply Hls.
  - done.
  - apply Forall_forall. intros x Hx. by apply (stream_writes ls l).
  - intros x y. by apply (stream_writes_rel ls).
  - exists fs'. split; [|done]. destruct (json_reply_body (value_text 0)) as (bytes & Eb & Hc); [done|]. exists bytes. split; [|done].
    unfold ev_handler. rewrite put_request_uri. rewrite decide_True by done. cbn [hm_method put_request].
    rewrite (decide_False (P := $"PUT" = $"GET")) by done. rewrite decide_True by done. unfold rk_put_method. rewrite put_request_uri.
    cbn [hm_query hm_mem put_request]. rewrite (app_assoc modify_uri).
    change (zlen modify_uri + 1) with (zlen (modify_uri ++ $"?")). rewrite to_nat_zlen, drop_app_length.
    rewrite end_query_spec by (done || by apply stream_render). rewrite !res_bind_ok.
    change (mg_strstr modify_uri (RK_PLATFORM_API ++ $"audio/modify")) with false.
    change (mg_strstr modify_uri (RK_PLATFORM_API ++ $"video/modify")) with true.
    rewrite (configs_update_writes _ _ ($"stream") stream_path); [|done|eapply Forall_impl; [exact Hl|]; apply stream_assign_ok].
    rewrite Hw, !res_bind_ok, <- Eb. reflexivity.
Qed.

(** C9. What a client sets through the REST interface is what it gets. A PUT of video settings, with encoded values, is
    answered by { "value": 0 } in a well-formed chunked reply; the GET of all settings that follows is answered by the JSON
    members of the settings with the last value assigned to each, or the one the file had, and the GET of one of them by
    its member alone. Neither GET changes a file. *)
Theorem rest_put_get system fs ls l t1 t2 :
  fs !! stream_path = Some (file_of ls) → stream_file ls → Forall stream_assign l → Forall (λ x, x ≠ 0) t1 →
  let new p := last_value (l ≫= assign_writes ($"stream")) p (param_value ls p) in
  ∃ fs', answers system fs (put_request modify_uri (render l) (t1 ++ 0 :: t2)) fs' (value_text 0) ∧
    (∀ header, answers system fs' (get_request lists_uri header) fs'
       ($"{" ++ join ($", ") ((λ p, member p (new p)) <$> g_astrStreamParam) ++ $"}")) ∧
    (∀ key name, (key, name) ∈ stream_names →
       answers system fs' (get_request (lists_uri ++ $"/" ++ key) (t1 ++ 0 :: t2)) fs' ($"{" ++ member name (new name) ++ $"}")).
Proof.
  intros Hfs Hls Hl Ht new. destruct (put_stream system fs ls l t1 t2) as (fs' & Hp & Hf & Hok); [done..|].
  set (ls' := set_all ls _) in *. assert (∀ p, p ∈ g_astrStreamParam → param_value ls' p = new p) as Hnew by by apply stream_value.
  assert (∀ p, p ∈ g_astrStreamParam → zlen (param_value ls' p) ≤ 100) as Hlen by by apply stream_value_len.
  exists fs'. split; [done|]. split.
  - intros header. replace ((λ p, member p (new p)) <$> g_astrStreamParam) with (members ls' g_astrStreamParam); [by apply get_all|].
    apply list_fmap_ext. intros i p Hi. rewrite Hnew; [done|]. by eapply list_elem_of_lookup_2.
  - intros key name Hin. rewrite <- Hnew by by apply stream_names_ok in Hin as (Hin & _). by apply get_one.
Qed.

Definition ex_stream : list (list Z) :=
  [$"VINWIDTH 640"; $"VINHEIGHT 480"; $"JPEGENCWIDTH 640"; $"JPEGENCHEIGHT 480"; $"BITRATE 2000"].
Definition ex_stream_assigns : list assign :=
  [mkAssign ($"bitrate") ($"1000") ($"1000"); mkAssign ($"vin_width") ($"32%30") ($"320"); mkAssign ($"bitrate") ($"%31500") ($"1500")].

Lemma rest_put_get_witness :
  let fs : fsys := {[stream_path := file_of ex_stream]} in
  let header := [13; 10] ++ $"Host: camera" ++ [13; 10; 13; 10] ++ [0] in
  let system (_ : list Z) (fs : fsys) := (fs, 0) in
  ∃ fs', answers system fs (put_request modify_uri ($"bitrate=1000&vin_width=32%30&bitrate=%31500") header) fs' (value_text 0) ∧
    answers system fs' (get_request (lists_uri ++ $"/bitrate") header) fs' ($"{" ++ member ($"BITRATE") ($"1500") ++ $"}") ∧
    answers system fs' (get_request (lists_uri ++ $"/vin_height") header) fs' ($"{" ++ member ($"VINHEIGHT") ($"480") ++ $"}").
Proof.
  destruct (rest_put_get (λ _ fs, (fs, 0)) {[stream_path := file_of ex_stream]} ex_stream ex_stream_assigns
    ([13; 10] ++ $"Host: camera" ++ [13; 10; 13; 10]) []) as (fs' & Hp & _ & Hg).
  - apply lookup_singleton_eq.
  - split; [|closed_nonzero].
    apply (bool_decide_unpack (Forall (λ l, Forall (λ c, c ≠ 0 ∧ c ≠ 10 ∧ c ≠ 13) l ∧ zlen l ≤ 254) ex_stream)). by vm_compute.
  - constructor; [|constructor; [|constructor; [|constructor]]]; split; cbn [a_key a_text a_val]; try (cbn; encode);
      try closed_nonzero; try done.
    + exists ($"BITRATE"). split; [closed_nonzero|]. split; [done|]. split; [done|]. repeat constructor; done.
    + exists ($"VINWIDTH"). split; [closed_nonzero|]. split; [done|]. split; [done|]. repeat constructor; done.
    + exists ($"BITRATE"). split; [closed_nonzero|]. split; [done|]. split; [done|]. repeat constructor; done.
  - closed_nonzero.
  - exists fs'. split; [exact Hp|]. split.
    + apply (Hg ($"bitrate") ($"BITRATE")). closed_nonzero.
    + apply (Hg ($"vin_height") ($"VINHEIGHT")). closed_nonzero.
Defined.

(** ** The scan of networks *)

(** A network as the scan prints it, its lines in order with other lines among
    them. [pats] are the patterns of the code; a line belongs to the first that
    is in it. *)
Definition pats : list (list Z) := [$" - Address: "; $"    ESSID:"; $" (Channel "; $"    Extra:fm="].
Definition line_of (i : nat) (line text : list Z) : Prop :=
  Forall (λ p, behind line p = None) (take i pats) ∧ behind line (default [] (pats !! i)) = Some text.
Definition other_line (line : list Z) : Prop := Forall (λ p, behind line p = None) pats.

Record cell := mkCell { cl_addr : list Z; cl_essid : list Z; cl_channel : list Z }.
Inductive cell_lines (c : cell) : list (list Z) → Prop :=
| cell_lines_intro la o1 le o2 lc after o3 lx extra o4 :
    line_of 0 la (cl_addr c) → line_of 1 le (cl_essid c) → line_of 2 lc (cl_channel c ++ $")" ++ after) → line_of 3 lx extra →
    Forall other_line o1 → Forall other_line o2 → Forall other_line o3 → Forall other_line o4 →
    zlen (cl_addr c) < 100 → zlen (cl_essid c) < 100 → zlen (cl_channel c ++ $")" ++ after) < 100 →
    Forall (λ x, x ≠ 41) (cl_channel c) →
    cell_lines c (la :: o1 ++ le :: o2 ++ lc :: o3 ++ lx :: o4).
Definition cell_text (c : cell) : list Z := network (mkScan (cl_addr c) (cl_essid c) (cl_channel c) true).

(** The lines of a file one after the other. *)
Fixpoint scan_lines (ls : list (list Z)) (st : scan) : res (list Z) :=
  match ls with
  | [] => Ok []
  | l :: ls => '(st, out) ← scan_line st l; more ← scan_lines ls st; Ok (out ++ more)
  end.

Lemma scan_loop_lines ls : ∀ fuel st,
  Forall line_ok ls → (length ls < fuel)%nat → scan_loop fuel (file_of ls) st = scan_lines ls st.
Proof.
  induction ls as [|l ls IH]; intros fuel st Hls Hf; (destruct fuel as [|fuel]; [lia|]); [done|].
  apply Forall_cons in Hls as (Hl & Hls). cbn [scan_loop scan_lines]. rewrite file_of_cons, ReadLine_spec by done.
  rewrite res_bind_ok, line_text by done. rewrite decide_False by by destruct l. rewrite length_app, Nat.add_sub, take_app_length.
  destruct (scan_line st l) as [[st' out]|]; [|done]. rewrite !res_bind_ok. by rewrite IH by (done || (simpl in Hf; lia)).
Qed.

Lemma scan_others o ls st : Forall other_line o → scan_lines (o ++ ls) st = scan_lines ls st.
Proof.
  induction 1 as [|l o Hl _ IH]; [done|]. cbn [app scan_lines]. unfold other_line, pats in Hl. rewrite !Forall_cons in Hl.
  destruct Hl as (H0 & H1 & H2 & H3 & _). unfold scan_line. rewrite H0, H1, H2, H3, res_bind_ok, IH.
  by destruct (scan_lines ls st).
Qed.

Lemma cell_text_len c : zlen (cl_addr c) < 100 → zlen (cl_essid c) < 100 → zlen (cl_channel c) < 100 → zlen (cell_text c) < 512.
Proof.
  intros H1 H2 H3. unfold cell_text, network. cbn [sc_addr sc_essid sc_channel]. rewrite !zlen_app.
  repeat match goal with |- context [zlen ?s] => lazymatch s with bytes_of_string _ => idtac | cons _ _ => idtac end; let v := eval vm_compute in (zlen s) in change (zlen s) with v end. lia.
Qed.

Lemma scan_cell c lines rest st :
  cell_lines c lines →
  scan_lines (lines ++ rest) st =
  more ← scan_lines rest (mkScan (cl_addr c) (cl_essid c) (cl_channel c) true);
  Ok ((if sc_flag st then $"," else []) ++ cell_text c ++ more).
Proof.
  intros [la o1 le o2 lc after o3 lx extra o4 (_ & Ha) (He0 & He) (Hc0 & Hc) (Hx0 & Hx) H1 H2 H3 H4 Hla Hle Hlc Hp].
  cbn [take pats] in *. rewrite ?Forall_cons in *. cbn [pats lookup list_lookup default from_option id] in *.
  repeat (rewrite <- ?app_comm_cons, <- ?app_assoc). cbn [scan_lines]. unfold scan_line at 1. rewrite Ha. unfold sprintf_into.
  rewrite decide_True, !res_bind_ok by done. rewrite scan_others by done. cbn [scan_lines].
  unfold scan_line at 1. rewrite (proj1 He0), He. unfold sprintf_into. rewrite decide_True, !res_bind_ok by done.
  rewrite scan_others by done. cbn [scan_lines]. unfold scan_line at 1. rewrite (proj1 Hc0), (proj1 (proj2 Hc0)), Hc.
  unfold sprintf_into. rewrite decide_True, !res_bind_ok by done. change ($")" ++ after) with (41 :: after).
  change ($")") with [41]. rewrite strstr_skip by done. cbn [strstr]. rewrite decide_True by by apply prefix_cons, prefix_nil.
  rewrite (length_app (cl_channel c)), Nat.add_sub, take_app_length. rewrite scan_others by done. cbn [scan_lines].
  unfold scan_line at 1. destruct Hx0 as (-> & -> & -> & _). rewrite Hx. cbn [sc_addr sc_essid sc_channel sc_flag].
  change (network _) with (cell_text c). unfold sprintf_into. rewrite decide_True by (apply cell_text_len; try done; rewrite zlen_app in Hlc; pose proof (zlen_nonneg ($")" ++ after)); lia).
  rewrite !res_bind_ok, scan_others by done. destruct (scan_lines rest _) as [more|]; [|done]. rewrite !res_bind_ok. cbn [app].
  by rewrite ?app_nil_l.
Qed.

(** What the client gets: the networks with a comma between them. *)
Lemma scan_cells cs : ∀ liness st,
  Forall2 cell_lines cs liness →
  scan_lines (concat liness) st =
  Ok (match cs with [] => [] | _ => (if sc_flag st then $"," else []) ++ join ($",") (cell_text <$> cs) end).
Proof.
  induction cs as [|c cs IH]; intros liness st H; inversion H as [|? lines ? liness' Hc Hcs]; subst; [done|]. cbn [concat].
  rewrite (scan_cell c) by done. rewrite IH by done. rewrite res_bind_ok. cbn [sc_flag fmap list_fmap join].
  destruct cs; [done|]. done.
Qed.

(** The answer to a scan whose command succeeds. *)
Lemma wifi_scan_networks system fs fs1 cs liness :
  system ($"/mnt/nuwicam/wifi/iwlist wlan0 scanning > /mnt/nuwicam/etc/wifiscan_config;sleep 1") fs = (fs1, 0) →
  fs1 !! DEF_CONF_PATH_NUWICAM_SCANWIFI = Some (file_of (concat liness)) →
  Forall line_ok (concat liness) → Forall2 cell_lines cs liness →
  wifi_scanning system fs =
  Ok (fst (system ($"rm /mnt/nuwicam/etc/wifiscan_config") fs1),
      [Send ($"HTTP/1.1 200 OK" ++ crlf ++ RK_HTTP_HEADER ++ $"{" ++ [34] ++ $"wifimessage" ++ [34] ++ $": [" ++
             join ($",") (cell_text <$> cs) ++ $"]}")], 0).
Proof.
  intros Hs Hf Hok Hc. unfold wifi_scanning. rewrite Hs. no_failure. rewrite Hf.
  rewrite scan_loop_lines by (done || (pose proof (length_file_of (concat liness)); lia)). rewrite (scan_cells cs) by done.
  rewrite res_bind_ok. destruct (system _ fs1) as [fs2 r]. cbn [fst]. by destruct cs.
Qed.

(** ** Dispatch *)

Lemma mg_strcmp_eq s1 : ∀ s2, mg_strcmp s1 s2 = 0 ↔ s1 = s2.
Proof.
  induction s1 as [|x s1 IH]; intros [|y s2]; cbn; try done. case_decide; [split; [done|intros [=]; lia]|].
  case_decide; [split; [done|intros [=]; lia]|]. rewrite IH. split; [intros ->; f_equal; lia|by intros [= _ ->]].
Qed.

Lemma api_prefix_test uri :
  mg_strncmp uri RK_PLATFORM_API (zlen RK_PLATFORM_API) = 0 ↔ RK_PLATFORM_API `prefix_of` uri.
Proof.
  unfold mg_strncmp. rewrite mg_strcmp_eq, to_nat_zlen, firstn_all. split.
  - intros E. exists (drop (length RK_PLATFORM_API) uri). by rewrite <- E at 1; rewrite take_drop.
  - intros (r & ->). apply take_app_length.
Qed.

(** The test of the prefix is the wrong way round: the library serves the pages
    for URIs that begin with the name of the interface, and a request for a page,
    whose URI has a slash there, is answered by 501. *)
Lemma api_uri_served_as_page system fs can_create hm :
  RK_PLATFORM_API `prefix_of` hm_uri hm → ev_handler system fs can_create hm = Ok (fs, [ServeStatic]).
Proof. intros Hp%api_prefix_test. unfold ev_handler. by rewrite decide_False by (intros H; by apply H). Qed.

Lemma page_not_served system fs can_create hm :
  hm_method hm = $"GET" → ¬ RK_PLATFORM_API `prefix_of` hm_uri hm → (∀ s, mg_strstr (hm_uri hm) (RK_PLATFORM_API ++ s) = false) →
  ev_handler system fs can_create hm = Ok (fs, [not_implemented]).
Proof.
  intros Hm Hp Hs. unfold ev_handler. rewrite decide_True by by rewrite api_prefix_test. rewrite Hm, decide_True by done.
  unfold rk_get_method. by rewrite !Hs.
Qed.

(** The pointer of a URI that is too short is never seen: such a URI would be
    the interface's name without its slash, which the handler does not take. *)
Lemma uri_never_too_short hm s :
  0 ≤ hm_uri_len hm ≤ zlen (hm_mem hm) → ¬ RK_PLATFORM_API `prefix_of` hm_uri hm → mg_strstr (hm_uri hm) (RK_PLATFORM_API ++ s) = true →
  getUriHost hm (zlen (RK_PLATFORM_API ++ s)) ≠ Ok None.
Proof.
  intros Hl Hp Hs. assert (zlen (hm_uri hm) = hm_uri_len hm) as E.
  { unfold hm_uri, zlen in *. rewrite length_take. lia. }
  assert (zlen (hm_uri hm) > zlen (RK_PLATFORM_API ++ s)) as Hlt.
  { unfold mg_strstr in Hs. case_decide as Hn; [done|]. destruct (decide (zlen (hm_uri hm) = zlen (RK_PLATFORM_API ++ s))) as [He|]; [|lia].
    exfalso. apply Hp. set (needle := RK_PLATFORM_API ++ s) in *. assert (length (hm_uri hm) = length needle) as He' by (unfold zlen in He; lia).
    rewrite He', Nat.sub_diag in Hs. cbn [mg_strstr_loop Nat.add] in Hs. case_decide as Ht; [|done].
    rewrite <- He', firstn_all in Ht. rewrite Ht. by apply prefix_app_r. }
  unfold getUriHost. case_decide as H1; [done|]. rewrite decide_True by lia. by destruct (cstr _ _).
Qed.

(** ** Defects of the requests *)

(** A change without a query follows a null pointer. *)
Lemma put_without_query system fs can_create header :
  ev_handler system fs can_create (mkHm ($"PUT") (modify_uri ++ $" HTTP/1.1" ++ header) (zlen modify_uri) None) = Fault NullDeref.
Proof.
  unfold ev_handler, rk_put_method, hm_uri. cbn [hm_method hm_mem hm_uri_len hm_query].
  rewrite to_nat_zlen, take_app_length. reflexivity.
Qed.

(** A name that is not in the list: the text "no match" is a literal, which is
    given to free; for the video, a null pointer is printed. *)
Definition nabto_fs : fsys := {[etc ++ $"nabtonat_config" := file_of [$"nabto_id 1"]]}.
Lemma unknown_name_frees_literal system :
  ev_handler system nabto_fs true (get_request ($"/" ++ RK_PLATFORM_API ++ $"nabto/lists/id") [0]) = Fault BadFree.
Proof. by vm_compute. Qed.

Lemma unknown_video_name_null system fs ls :
  fs !! stream_path = Some (file_of ls) → stream_file ls →
  ev_handler system fs true (get_request (lists_uri ++ $"/quality") [0]) = Fault NullDeref.
Proof.
  intros Hfs (Hls & Hp). unfold ev_handler, rk_get_method. rewrite get_request_uri. rewrite decide_True by done.
  cbn [hm_method get_request]. rewrite decide_True by done.
  change (mg_strstr (lists_uri ++ $"/quality") (RK_PLATFORM_API ++ $"audio/lists")) with false.
  change (mg_strstr (lists_uri ++ $"/quality") (RK_PLATFORM_API ++ $"video/lists")) with true. unfold get_group.
  rewrite (stream_list_all fs ls) by (done || (intros p Hp'; rewrite Forall_forall in Hp; by apply Hp)). rewrite res_bind_ok. reflexivity.
Qed.

(** The messages of the network are not JSON: the object is not closed. *)
Lemma messages_not_closed system fs fs1 ls :
  system ($"/mnt/nuwicam/bin/wifimsg.sh sta") fs = (fs1, 0) →
  configs_list_all fs1 ($"stamsg") = Ok (PHeap ls) → zlen ls < 900 →
  get_messages system fs ($"sta") ($"stamessage") None =
  Ok (fst (system ($"rm /mnt/nuwicam/etc/stamsg_config") fs1),
      [json_reply ($"{" ++ [34] ++ $"stamessage" ++ [34] ++ $": [{" ++ ls ++ $"}]")], 0).
Proof.
  intros Hs Hl Hn. unfold get_messages. change (_ ++ $"sta") with ($"/mnt/nuwicam/bin/wifimsg.sh sta"). rewrite Hs. no_failure.
  change ($"sta" ++ $"msg") with ($"stamsg"). rewrite Hl, res_bind_ok. unfold respond. cbn [ptr_text]. rewrite res_bind_ok.
  unfold sprintf_into. rewrite decide_True.
  2:{ rewrite !zlen_app. change (zlen ($"}]")) with 2. change (zlen ($": [{")) with 4. change (zlen [34]) with 1.
      change (zlen ($"stamessage")) with 10. change (zlen ($"{")) with 1. lia. }
  rewrite !res_bind_ok. change (_ ++ $"stamsg" ++ _) with ($"rm /mnt/nuwicam/etc/stamsg_config").
  destruct (system _ fs1) as [fs2 r]. unfold finish_get. cbn [free_ptr fst]. rewrite res_bind_ok. cbn [app]. by rewrite <- ?app_assoc.
Qed.
