(* ===== verification/Cgi.v ===== *)
(** * The CGI programs of the camera (httpd-cgi: param.c, restart.c, common.c)

    The older interface to the settings: param.cgi lists and updates the same
    files as the REST server with queries "action=list&group=stream" and
    "action=update&group=stream&BITRATE=1000", restart.cgi restarts a part of the
    camera. The text of the query is copied by strdup, so the buffers here are
    that text and its zero byte. ReadParamStr and WriteParamStr are those of
    [ParamFile]; strtok_r and the members of a list those of [Wiscam]. *)

From stdpp Require Import prelude gmap strings pretty.
From S2P Require Import Prelude Pmsg ParamFile Wiscam.

Local Open Scope c_scope.

(** ** Groups (param.c) *)

Definition cgi_files : list (list Z) := (λ f, etc ++ f) <$> [$"network_config"; $"stream_config"; $"nabtonat_config"].
Definition cgi_groups : list (list Z) := [$"wifi"; $"stream"; $"nabto"].
Definition cgi_params : list (list (list Z)) := [g_astrWifiParam; g_astrStreamParam; [$"nabto_id"; $"nabto_key"]].

(** The first group whose name is anywhere in the text. *)
Fixpoint group_in (names : list (list Z)) (text : list Z) (i : Z) : Z :=
  match names with
  | [] => -1
  | n :: names => if decide (strstr text n ≠ None) then i else group_in names text (i + 1)
  end.

(** What follows a word in a text, if it is there. *)
Definition after (text word : list Z) : option (list Z) := drop (length word) <$> strstr text word.

(** The string at an offset of a text: its zero byte can be read, not more. *)
Definition text_from (text : list Z) (n : Z) : res (list Z) :=
  if decide (n ≤ zlen text) then Ok (drop (Z.to_nat n) text) else Fault OutOfBounds.

(** ** Updates *)

Section Update.
Context (can_create : bool) (path : list Z).

Definition cgi_token (fs : fsys) (q : list Z) (tok : Z) : res (fsys * list Z * Z) :=
  '(t, q) ← strtok_r q tok 61;
  match t with
  | None => Fault NullDeref
  | Some (pParamName, _) =>
      name ← cstr q pParamName;
      v ← cstr q (pParamName + zlen name + 1);
      '(fs, r) ← WriteParamStr fs can_create path name v;
      Ok (fs, q, r)
  end.

Fixpoint cgi_loop (fuel : nat) (fs : fsys) (q : list Z) (save : Z) : res (fsys * Z) :=
  '(t, q) ← strtok_r q save 38;
  match t with
  | None => Ok (fs, 0)
  | Some (tok, save) =>
      match fuel with
      | O => Fault OutOfFuel
      | S fuel =>
          '(fs, q, r) ← cgi_token fs q tok;
          if decide (r ≠ 0) then Ok (fs, -1) else cgi_loop fuel fs q save
      end
  end.
End Update.

Definition cgi_update (can_create : bool) (fs : fsys) (pcStr : list Z) : res (fsys * Z) :=
  match after pcStr ($"group=") with
  | None => Ok (fs, -1)
  | Some t =>
      let g := group_in cgi_groups t 0 in
      if decide (g = -1) then Ok (fs, -1) else
      path ← rd cgi_files g; name ← rd cgi_groups g;
      cgi_loop can_create path (length t) fs (t ++ [0]) (zlen name + 1)
  end.

(** ** Lists *)

(** strcat to g_szOuputData, 4096 pointers of four bytes. *)
Definition strcat_out (acc s : list Z) : res (list Z) := sprintf_into 16384 (acc ++ s).

Fixpoint cgi_list_loop (fs : fsys) (path : list Z) (params : list (list Z)) (acc : list Z) : res (list Z) :=
  match params with
  | [] => Ok acc
  | p :: rest =>
      '(_, v) ← ReadParamStr fs path p [] 128;
      pBuf ← sprintf_into 128 (member p v);
      acc ← strcat_out acc pBuf;
      acc ← (if decide (rest ≠ []) then strcat_out acc ($", ") else Ok acc);
      cgi_list_loop fs path rest acc
  end.

(** The text, [None] for -1. *)
Definition cgi_list (fs : fsys) (pcStr : list Z) : res (option (list Z)) :=
  match after pcStr ($"group=") with
  | None => Ok None
  | Some t =>
      let g := group_in cgi_groups t 0 in
      if decide (g = -1) then Ok None else
      path ← rd cgi_files g; params ← rd cgi_params g;
      out ← cgi_list_loop fs path params [];
      Ok (if decide (out = []) then None else Some out)
  end.

(** ** The programs *)

(** What configs_process leaves for the answer: the list or the return code. *)
Definition param_process (can_create : bool) (fs : fsys) (pcStr : list Z) : res (fsys * (list Z + Z)) :=
  match after pcStr ($"action=") with
  | None => Ok (fs, inr (-1))
  | Some t =>
      if decide (strstr t ($"list") ≠ None) then
        t ← text_from t 5;
        o ← cgi_list fs t;
        Ok (fs, match o with Some out => inl out | None => inr (-1) end)
      else if decide (strstr t ($"update") ≠ None) then
        t ← text_from t 7;
        '(fs, r) ← cgi_update can_create fs t;
        Ok (fs, inr r)
      else Ok (fs, inr (-1))
  end.

Definition cgi_response (out : list Z + Z) : list Z :=
  $"Content-type: application/json" ++ crlf ++ crlf ++ $"{" ++
  match out with inl t => t | inr r => [34] ++ $"value" ++ [34] ++ $": " ++ [34] ++ fmt_d r ++ [34] end ++ $"}" ++ crlf ++ crlf.

(** The variables of the environment: the query of a GET, else a null pointer,
    which strcmp or strdup follow. *)
Definition get_cgi_data (method query : option (list Z)) : res (list Z) :=
  match method with
  | None => Fault NullDeref
  | Some meth => if decide (meth = $"GET") then match query with None => Fault NullDeref | Some q => Ok q end else Fault NullDeref
  end.

Definition param_main (can_create : bool) (fs : fsys) (method query : option (list Z)) : res (fsys * list Z) :=
  pcStr ← get_cgi_data method query;
  '(fs, out) ← param_process can_create fs pcStr;
  Ok (fs, cgi_response out).

(** restart.c: [system] is the shell. *)
Definition restart_groups : list (list Z) := [$"wifi"; $"board"; $"stream"].
Definition restart_commands : list (list Z) :=
  [$"/mnt/nuwicam/bin/go_networking.sh"; $"export PATH=/sbin:$PATH; sync;sync;sync; reboot"; $"killall -9 RTSPServer"].
Definition restart_process (system : list Z → fsys → fsys * Z) (fs : fsys) (pcStr : list Z) : res (fsys * Z) :=
  match after pcStr ($"group=") with
  | None => Ok (fs, -1)
  | Some t =>
      let g := group_in restart_groups t 0 in
      if decide (g = -1) then Ok (fs, -1) else
      command ← rd restart_commands g;
      Ok (system command fs)
  end.
Definition restart_main (system : list Z → fsys → fsys * Z) (fs : fsys) (method query : option (list Z)) : res (fsys * list Z) :=
  pcStr ← get_cgi_data method query;
  '(fs, r) ← restart_process system fs pcStr;
  Ok (fs, cgi_response (inr r)).

(** ** Queries of assignments *)

Definition query_of (l : list (list Z * list Z)) : list Z := join ($"&") ((λ x, x.1 ++ $"=" ++ x.2) <$> l).

(** A name and a value the query can carry: they are not decoded. *)
Definition cgi_assign (x : list Z * list Z) : Prop :=
  x.1 ≠ [] ∧ Forall (λ c, c ≠ 0 ∧ c ≠ 38 ∧ c ≠ 61) x.1 ∧ Forall (λ c, c ≠ 0 ∧ c ≠ 38) x.2.

Lemma cgi_token_spec can_create path fs pre x rest :
  cgi_assign x →
  cgi_token can_create path fs (pre ++ (x.1 ++ 61 :: x.2) ++ 0 :: rest) (zlen pre) =
  '(fs, r) ← WriteParamStr fs can_create path x.1 x.2; Ok (fs, pre ++ (x.1 ++ 0 :: x.2) ++ 0 :: rest, r).
Proof.
  intros (Hk & Hkc & Hv). unfold cgi_token.
  rewrite <- app_assoc, <- app_comm_cons, strtok_r_token; [|done|done|eapply Forall_impl; [exact Hkc|]; naive_solver|by right].
  rewrite res_bind_ok, cstr_mid, res_bind_ok by (eapply Forall_impl; [exact Hkc|]; naive_solver).
  assert (cstr (pre ++ x.1 ++ 0 :: x.2 ++ 0 :: rest) (zlen pre + zlen x.1 + 1) = Ok x.2) as ->.
  { replace (pre ++ x.1 ++ 0 :: x.2 ++ 0 :: rest) with ((pre ++ x.1 ++ [0]) ++ x.2 ++ 0 :: rest) by by rewrite <- !app_assoc.
    replace (zlen pre + zlen x.1 + 1) with (zlen (pre ++ x.1 ++ [0])).
    - apply cstr_mid. eapply Forall_impl; [exact Hv|]. naive_solver.
    - rewrite !zlen_app. change (zlen [0]) with 1. lia. }
  rewrite res_bind_ok. by rewrite <- (app_assoc x.1), <- app_comm_cons.
Qed.

Lemma cgi_loop_spec can_create path l : ∀ fuel fs pre tail,
  Forall cgi_assign l → (length l <= fuel)%nat →
  cgi_loop can_create path fuel fs (pre ++ query_of l ++ 0 :: tail) (zlen pre) = write_all fs can_create path l.
Proof.
  induction l as [|x l IH]; intros fuel fs pre tail Hl Hf.
  { destruct fuel; cbn [cgi_loop query_of fmap list_fmap join app]; by rewrite strtok_r_none. }
  apply Forall_cons in Hl as (Hx & Hl). cbn [length] in Hf. destruct fuel as [|fuel]; [lia|]. pose proof Hx as (Hk & Hkc & Hv).
  assert (x.1 ++ 61 :: x.2 ≠ []) as Hne by by destruct x.1.
  assert (Forall (λ c, c ≠ 0 ∧ c ≠ 38) (x.1 ++ 61 :: x.2)) as Htok.
  { apply Forall_app. split; [eapply Forall_impl; [exact Hkc|]; naive_solver|by constructor]. }
  assert (∃ d r, query_of (x :: l) ++ 0 :: tail = (x.1 ++ 61 :: x.2) ++ d :: r ∧
    ((d = 0 ∧ l = [] ∧ r = tail) ∨ (d = 38 ∧ r = query_of l ++ 0 :: tail))) as (d & r & -> & Hd).
  { destruct l as [|y l].
    - exists 0, tail. split; [cbn; by rewrite app_nil_r|by left].
    - exists 38, (query_of (y :: l) ++ 0 :: tail). split; [|by right].
      change (query_of (x :: y :: l)) with ((x.1 ++ [61] ++ x.2) ++ [38] ++ query_of (y :: l)). by rewrite <- !app_assoc. }
  cbn [cgi_loop]. rewrite strtok_r_token by (done || naive_solver). rewrite res_bind_ok, cgi_token_spec by done.
  destruct x as [n v]. cbn [fst snd write_all] in *. destruct (WriteParamStr fs can_create path n v) as [[fs1 r1]|]; [|done].
  rewrite !res_bind_ok. case_decide as Hr; [done|]. set (m := n ++ 0 :: v).
  assert (zlen pre + zlen (n ++ 61 :: v) = zlen (pre ++ m)) as Hz by (unfold m; rewrite !zlen_app, !zlen_cons; lia).
  destruct Hd as [(-> & -> & ->)|(-> & ->)].
  - rewrite decide_True, Z.add_0_r, Hz by done. rewrite app_assoc. destruct fuel; cbn [cgi_loop write_all]; by rewrite strtok_r_none.
  - rewrite decide_False by done. rewrite <- (IH fuel fs1 (pre ++ m ++ [0]) tail) by (done || lia). f_equal; [by rewrite <- !app_assoc|].
    rewrite Hz, !zlen_app. change (zlen [0]) with 1. lia.
Qed.

(** An update makes the writes of its query in order, when the group is the
    first that the text names and the word "list" is not in it. *)
Lemma cgi_update_writes can_create fs g name path l :
  cgi_groups !! g = Some name → cgi_files !! g = Some path → Forall cgi_assign l →
  let t := name ++ $"&" ++ query_of l in
  group_in cgi_groups t 0 = Z.of_nat g → strstr ($"update&group=" ++ t) ($"list") = None →
  param_process can_create fs ($"action=update&group=" ++ t) =
  '(fs, r) ← write_all fs can_create path l; Ok (fs, inr r).
Proof.
  intros Hn Hp Hl t Hg Ht. unfold param_process.
  change (after ($"action=update&group=" ++ t) ($"action=")) with (Some ($"update&group=" ++ t)).
  cbv match beta. rewrite Ht. rewrite decide_False by (intros H; by apply H).
  change (strstr ($"update&group=" ++ t) ($"update")) with (Some ($"update&group=" ++ t)). rewrite decide_True by done.
  unfold text_from. rewrite decide_True by (rewrite zlen_app; change (zlen ($"update&group=")) with 13; pose proof (zlen_nonneg t); lia).
  rewrite res_bind_ok. change (drop (Z.to_nat 7) ($"update&group=" ++ t)) with ($"group=" ++ t). unfold cgi_update.
  change (after ($"group=" ++ t) ($"group=")) with (Some t). cbv match beta. rewrite Hg. rewrite decide_False by lia.
  unfold rd. rewrite !decide_False by lia. rewrite Nat2Z.id, Hp, Hn, !res_bind_ok.
  replace (t ++ [0]) with ((name ++ $"&") ++ query_of l ++ 0 :: []) by by unfold t; rewrite <- !app_assoc.
  replace (zlen name + 1) with (zlen (name ++ $"&")) by by rewrite zlen_app.
  rewrite cgi_loop_spec; [done|done|]. unfold t. rewrite !length_app.
  enough (length l <= length (query_of l))%nat by lia. clear -Hl.
  induction Hl as [|x l (Hx & _) _ IH]; [done|]. unfold query_of in *. cbn [fmap list_fmap join length]. rewrite !length_app.
  destruct x as [[|c k] v]; [done|]. cbn [fst snd length]. destruct l as [|y l]; cbn [length fmap list_fmap app] in *; [lia|].
  rewrite (length_app ($"&")). change (length ($"&")) with 1%nat. change (length ($"=")) with 1%nat. lia.
Qed.

(** ** Defects *)

(** The word "list" in a value makes an update a list: nothing is written. *)
Lemma list_in_value :
  match param_process true ex_fs ($"action=update&group=wifi&AP_SSID=playlist") with
  | Ok (fs', inl _) => ReadParamStr fs' ex_path ($"AP_SSID") [] 128 = Ok (0, $"WisCam")
  | _ => False
  end.
Proof. by vm_compute. Qed.

(** The name of another group in a value: the parameter is looked for in the
    file of that group, and 0 is returned although nothing is changed. *)
Definition nabto_path : list Z := etc ++ $"nabtonat_config".
Definition nabto_files : fsys := <[nabto_path := file_of [$"nabto_id 1"; $"nabto_key 2"]]> ex_fs.
Lemma group_in_value :
  match param_process true nabto_files ($"action=update&group=nabto&nabto_id=mywifi") with
  | Ok (fs', out) => out = inr 0 ∧ ReadParamStr fs' nabto_path ($"nabto_id") [] 128 = Ok (0, $"1")
  | Fault _ => False
  end.
Proof. by vm_compute. Qed.

(** An update without parameters reads behind the text; a request that is not a
    GET, or has no query, follows a null pointer. *)
Lemma update_without_parameters : param_process true ex_fs ($"action=update&group=wifi") = Fault OutOfBounds.
Proof. by vm_compute. Qed.

Lemma post_crashes can_create fs query : param_main can_create fs (Some ($"POST")) query = Fault NullDeref.
Proof. done. Qed.
