(* ===== verification/SoftQueue.v ===== *)
(** * The software queues of the event loop (event.c)

    A software queue passes pointers between threads: soft_queue_add puts one in,
    get_next_event waits for one, and a queue that has listeners
    (add_softqueue_event) wakes the event loop through a pipe, so that [sq_run]
    calls the listeners. The entries are nodes of two circular doubly linked
    lists, the free ones and the used ones, which are kept here with their
    pointers: a node is a key of a store. Whoever looks at them holds the mutex.

    The lists refine a bounded queue, whatever the order of the calls. *)

From stdpp Require Import prelude gmap list.
From S2P Require Import Prelude Event.

(** ** Circular lists *)

Record soft_event := mkSe { se_next : nat; se_prev : nat; event_data : Z }.
Notation store := (gmap nat soft_event).

Definition get_se (st : store) (p : nat) : res soft_event :=
  match st !! p with Some e => Ok e | None => Fault UseAfterFree end.
Definition set_next (st : store) (p v : nat) : res store :=
  e ← get_se st p; Ok (<[p := mkSe v (se_prev e) (event_data e)]> st).
Definition set_prev (st : store) (p v : nat) : res store :=
  e ← get_se st p; Ok (<[p := mkSe (se_next e) v (event_data e)]> st).
Definition set_data (st : store) (p : nat) (d : Z) : res store :=
  e ← get_se st p; Ok (<[p := mkSe (se_next e) (se_prev e) d]> st).

Definition remove_from_list (st : store) (se : option nat) : res (store * option nat) :=
  match se with
  | None => Fault NullDeref
  | Some p =>
      e ← get_se st p;
      if decide (se_next e ≠ p) then
        st ← set_next st (se_prev e) (se_next e);
        e ← get_se st p;
        st ← set_prev st (se_next e) (se_prev e);
        e ← get_se st p;
        Ok (st, Some (se_next e))
      else Ok (st, None)
  end.

Definition add_to_list (st : store) (se : nat) (head : option nat) : res (store * option nat) :=
  match head with
  | Some h =>
      st ← set_next st se h;
      hd ← get_se st h;
      st ← set_prev st se (se_prev hd);
      e ← get_se st se;
      st ← set_prev st (se_next e) se;
      e ← get_se st se;
      st ← set_next st (se_prev e) se;
      Ok (st, Some h)
  | None =>
      st ← set_next st se se;
      st ← set_prev st se se;
      Ok (st, Some se)
  end.

(** ** Queues *)

(** [sq_pipe] is the number of bytes in the pipe of a queue with listeners. *)
Record soft_queue := mkSq {
  sq_store : store; empty_se_list : option nat; se_list : option nat;
  ev_list : list nat; sq_fds : Z; fd_event : option nat; sq_pipe : Z; sq_mutex : bool }.

Definition with_se_lists (st : store) (es qs : option nat) (sq : soft_queue) : soft_queue :=
  mkSq st es qs (ev_list sq) (sq_fds sq) (fd_event sq) (sq_pipe sq) (sq_mutex sq).
Definition with_mutex (b : bool) (sq : soft_queue) : soft_queue :=
  mkSq (sq_store sq) (empty_se_list sq) (se_list sq) (ev_list sq) (sq_fds sq) (fd_event sq) (sq_pipe sq) b.
Definition with_pipe (n : Z) (sq : soft_queue) : soft_queue :=
  mkSq (sq_store sq) (empty_se_list sq) (se_list sq) (ev_list sq) (sq_fds sq) (fd_event sq) n (sq_mutex sq).
Definition with_listeners (l : list nat) (sq : soft_queue) : soft_queue :=
  mkSq (sq_store sq) (empty_se_list sq) (se_list sq) l (sq_fds sq) (fd_event sq) (sq_pipe sq) (sq_mutex sq).
Definition with_fd_event (fds : Z) (e : option nat) (sq : soft_queue) : soft_queue :=
  mkSq (sq_store sq) (empty_se_list sq) (se_list sq) (ev_list sq) fds e 0 (sq_mutex sq).

Definition sq_lock (sq : soft_queue) : res soft_queue := if sq_mutex sq then Fault Deadlock else Ok (with_mutex true sq).
Definition sq_unlock (sq : soft_queue) : soft_queue := with_mutex false sq.

(** The nodes of a new queue have the numbers below its length; [junk] is what
    malloc left in them. *)
Fixpoint new_nodes (junk : nat → soft_event) (i n : nat) (st : store) (head : option nat) : res (store * option nat) :=
  match n with
  | O => Ok (st, head)
  | S n => '(st, head) ← add_to_list (<[i := junk i]> st) i head; new_nodes junk (S i) n st head
  end.
Definition new_soft_queue (junk : nat → soft_event) (length : Z) : res soft_queue :=
  '(st, head) ← new_nodes junk 0 (Z.to_nat length) ∅ None;
  Ok (mkSq st head None [] 0 None 0 false).

Definition locked_get_next_event (sq : soft_queue) : res (option Z * soft_queue) :=
  match se_list sq with
  | None => Ok (None, sq)
  | Some se =>
      '(st, qs) ← remove_from_list (sq_store sq) (Some se);
      e ← get_se st se;
      '(st, es) ← add_to_list st se (empty_se_list sq);
      Ok (Some (event_data e), with_se_lists st es qs sq)
  end.

(** [others] is what other threads do while pthread_cond_wait has released the
    mutex. *)
Definition get_next_event (others : soft_queue → res soft_queue) (sq : soft_queue) : res (option Z * soft_queue) :=
  sq ← sq_lock sq;
  sq ← (match se_list sq with
        | Some _ => Ok sq
        | None => sq ← others (sq_unlock sq); sq_lock sq
        end);
  '(d, sq) ← locked_get_next_event sq;
  Ok (d, sq_unlock sq).

(** [wrote] says whether write puts its byte into the pipe. *)
Definition soft_queue_add (wrote : bool) (d : Z) (sq : soft_queue) : res (Z * soft_queue) :=
  sq ← sq_lock sq;
  match empty_se_list sq with
  | None => Ok (-1, sq_unlock sq)
  | Some se =>
      '(st, es) ← remove_from_list (sq_store sq) (Some se);
      '(st, qs) ← add_to_list st se (se_list sq);
      st ← set_data st se d;
      let sq := with_se_lists st es qs sq in
      let sq := match fd_event sq with
                | Some _ => if wrote then with_pipe (sq_pipe sq + 1) sq else sq
                | None => sq
                end in
      Ok (0, sq_unlock sq)
  end.

(** ** Listeners *)

Definition EVENT_SOFT_QUEUE : Z := 4.

Section Listeners.
(** A listener is called with the data of the entry; it works on the queue and
    on the event loop. *)
Context (listener : nat → option Z → soft_queue * loop → res (soft_queue * loop)).
(** The number that stands for [sq_run] as a callback. *)
Context (sq_run_id : Z).

Fixpoint call_listeners (l : list nat) (d : option Z) (sq : soft_queue) (st : loop) : res (soft_queue * loop) :=
  match l with
  | [] => Ok (sq, st)
  | e :: l =>
      if end_loop st then Ok (sq, st) else
      x ← get_event st e;
      '(sq, st) ← listener e d (sq_unlock sq, with_log (Called e) (mark_oneshot e x st));
      sq ← sq_lock sq;
      call_listeners l d sq st
  end.

(** [got] says whether read gets a byte. A listener that is added in the middle
    comes before the one that is called, so the rest of the list is as it was. *)
Definition sq_run (got : bool) (sq : soft_queue) (st : loop) : res (soft_queue * loop) :=
  sq ← sq_lock sq;
  if got then
    let sq := with_pipe (sq_pipe sq - 1) sq in
    '(d, sq) ← locked_get_next_event sq;
    '(sq, st) ← call_listeners (ev_list sq) d sq st;
    Ok (sq_unlock (with_listeners (strip_events st (ev_list sq)) sq), st)
  else
    match fd_event sq with
    | None => Fault NullDeref
    | Some e => st ← remove_event e st; Ok (sq_unlock (with_fd_event (sq_fds sq) None sq), st)
    end.

(** [pipe_answer] are the descriptors pipe makes, if it does. *)
Definition add_softqueue_event (pipe_answer : option Z) (flags f d : Z) (sq : soft_queue) (st : loop)
    : res (option nat * soft_queue * loop) :=
  sq ← sq_lock sq;
  match fd_event sq, pipe_answer with
  | None, None => Ok (None, sq_unlock sq, st)
  | o, _ =>
      let '(sq, st) :=
        match o, pipe_answer with
        | None, Some fds => let '(e, st) := add_fd_event fds false 0 sq_run_id 0 st in (with_fd_event fds (Some e) sq, st)
        | _, _ => (sq, st)
        end in
      let '(e, st) := new_event (mkEvent f d EVENT_SOFT_QUEUE (Z.lor flags EVENT_F_ENABLED) EvNone) st in
      Ok (Some e, sq_unlock (with_listeners (e :: ev_list sq) sq), st)
  end.
End Listeners.

(** ** Circular lists, as lists *)

Definition nx (st : store) (p : nat) : option nat := se_next <$> st !! p.
Definition pv (st : store) (p : nat) : option nat := se_prev <$> st !! p.
Definition dat (st : store) (p : nat) : option Z := event_data <$> st !! p.

(** From [a] over [l] to [b], in both directions. *)
Fixpoint chain (st : store) (a : nat) (l : list nat) (b : nat) : Prop :=
  match l with
  | [] => nx st a = Some b ∧ pv st b = Some a
  | c :: l => (nx st a = Some c ∧ pv st c = Some a) ∧ chain st c l b
  end.
Definition ring (st : store) (head : option nat) (l : list nat) : Prop :=
  match l with [] => head = None | x :: l => head = Some x ∧ chain st x l x end.

Lemma chain_snoc st l : ∀ a z b, chain st a (l ++ [z]) b ↔ chain st a l z ∧ nx st z = Some b ∧ pv st b = Some z.
Proof. induction l as [|c l IH]; intros a z b; cbn; [tauto|]. rewrite IH. tauto. Qed.

Lemma chain_frame st st' l : ∀ a b,
  chain st a l b → (∀ c, c ∈ a :: l → nx st' c = nx st c) → (∀ c, c ∈ l ++ [b] → pv st' c = pv st c) → chain st' a l b.
Proof.
  induction l as [|c l IH]; intros a b; cbn.
  - intros (H1 & H2) Hn Hp. rewrite Hn by by left. rewrite Hp by by left. done.
  - intros ((H1 & H2) & H) Hn Hp. rewrite Hn by by left. rewrite Hp by by left. split; [done|]. apply IH; [done|..]; intros x Hx; [apply Hn|apply Hp]; by right.
Qed.

Lemma ring_frame st st' head l :
  ring st head l → (∀ c, c ∈ l → nx st' c = nx st c ∧ pv st' c = pv st c) → ring st' head l.
Proof.
  destruct l as [|x l]; [done|]. cbn. intros (-> & H) Hf. split; [done|]. eapply chain_frame; [exact H|..].
  - intros c Hc. by apply Hf.
  - intros c Hc. apply Hf. rewrite elem_of_app, list_elem_of_singleton in Hc. rewrite elem_of_cons. tauto.
Qed.

(** Writes of one field. *)
Ltac field_write p e He :=
  unfold get_se; rewrite He, res_bind_ok; eexists; split; [done|]; unfold nx, pv, dat;
  split_and!; [intros c; destruct (decide (c = p)) as [->|]; [by rewrite lookup_insert_eq, ?He|by rewrite lookup_insert_ne]..|
    apply dom_insert_lookup_L; by exists e].

Lemma set_next_spec st p v : is_Some (st !! p) →
  ∃ st', set_next st p v = Ok st' ∧ (∀ c, nx st' c = if decide (c = p) then Some v else nx st c) ∧
    (∀ c, pv st' c = pv st c) ∧ (∀ c, dat st' c = dat st c) ∧ dom st' = dom st.
Proof.
  intros (e & He). unfold set_next. field_write p e He.
Qed.

Lemma set_prev_spec st p v : is_Some (st !! p) →
  ∃ st', set_prev st p v = Ok st' ∧ (∀ c, pv st' c = if decide (c = p) then Some v else pv st c) ∧
    (∀ c, nx st' c = nx st c) ∧ (∀ c, dat st' c = dat st c) ∧ dom st' = dom st.
Proof.
  intros (e & He). unfold set_prev. field_write p e He.
Qed.

Lemma set_data_spec st p v : is_Some (st !! p) →
  ∃ st', set_data st p v = Ok st' ∧ (∀ c, nx st' c = nx st c) ∧ (∀ c, pv st' c = pv st c) ∧
    (∀ c, dat st' c = if decide (c = p) then Some v else dat st c) ∧ dom st' = dom st.
Proof.
  intros (e & He). unfold set_data. field_write p e He.
Qed.

Lemma get_se_spec st p n : nx st p = Some n → ∃ e, get_se st p = Ok e ∧ se_next e = n ∧ pv st p = Some (se_prev e) ∧ dat st p = Some (event_data e).
Proof.
  unfold nx, pv, dat, get_se. destruct (st !! p) as [e|]; [|done]. intros [= <-]. by exists e.
Qed.

Lemma nx_is_Some st p n : nx st p = Some n → is_Some (st !! p).
Proof. unfold nx. destruct (st !! p); [eauto|done]. Qed.
Lemma pv_is_Some st p n : pv st p = Some n → is_Some (st !! p).
Proof. unfold pv. destruct (st !! p); [eauto|done]. Qed.

(** The last node of a circle points back to its head. *)
Lemma chain_last st x l : chain st x l x → ∃ z, last (x :: l) = Some z ∧ nx st z = Some x ∧ pv st x = Some z.
Proof.
  destruct l as [|y l _] using rev_ind; [by exists x|]. rewrite chain_snoc. intros (_ & H). exists y. by rewrite app_comm_cons, last_snoc.
Qed.

(** What does not change: the links of nodes outside, the data and the nodes. *)
Definition only_links (l : list nat) (st st' : store) : Prop :=
  (∀ c, c ∉ l → nx st' c = nx st c ∧ pv st' c = pv st c) ∧ (∀ c, dat st' c = dat st c) ∧ dom st' = dom st.

Lemma dom_is_Some (st st' : store) p : dom st' = dom st → is_Some (st !! p) → is_Some (st' !! p).
Proof. intros Hd H. apply elem_of_dom. rewrite Hd. by apply elem_of_dom. Qed.

Ltac decide_links := repeat ((rewrite decide_True by congruence) || (rewrite decide_False by congruence)).

Lemma remove_from_list_spec st x l :
  chain st x l x → NoDup (x :: l) →
  ∃ st' head, remove_from_list st (Some x) = Ok (st', head) ∧ ring st' head l ∧ only_links l st st'.
Proof.
  intros Hc (Hx & Hnd)%NoDup_cons. destruct (chain_last _ _ _ Hc) as (z & Hz & Hzn & Hzp). unfold remove_from_list.
  destruct l as [|y l].
  - destruct Hc as (H1 & _). destruct (get_se_spec st x x H1) as (e & -> & He & _). rewrite res_bind_ok, decide_False by (intros H; by apply H).
    by exists st, None.
  - destruct Hc as ((H1 & H2) & Hc). cbn [last] in Hz. assert (z ∈ y :: l) as Hzl by by apply last_Some_elem_of.
    assert (z ≠ x) as Hzx by (intros ->; done). assert (y ≠ x) as Hyx by (intros ->; apply Hx; by left).
    destruct (get_se_spec st x y H1) as (e & -> & He & Hp & _). rewrite res_bind_ok, He, decide_True by done.
    assert (se_prev e = z) as Ez by congruence. rewrite Ez in *.
    destruct (set_next_spec st z y) as (s1 & -> & N1 & P1 & D1 & M1); [by eapply nx_is_Some|]. rewrite res_bind_ok.
    destruct (get_se_spec s1 x y) as (e1 & -> & E1 & Ep1 & _); [rewrite N1; by decide_links|]. rewrite res_bind_ok, E1.
    rewrite P1, Hp in Ep1. injection Ep1 as Ep1. rewrite <- Ep1.
    destruct (set_prev_spec s1 y z) as (s2 & -> & P2 & N2 & D2 & M2).
    { eapply dom_is_Some; [exact M1|]. by eapply pv_is_Some. }
    rewrite res_bind_ok. destruct (get_se_spec s2 x y) as (e2 & -> & E2 & _); [rewrite N2, N1; by decide_links|].
    rewrite res_bind_ok, E2. exists s2, (Some y). split; [done|]. split; [split; [done|]|split_and!].
    + destruct l as [|w l _] using rev_ind.
      * injection Hz as <-. cbn. rewrite N2, N1, P2. by decide_links.
      * rewrite app_comm_cons, last_snoc in Hz. injection Hz as ->. apply chain_snoc in Hc as (Hc & _). apply chain_snoc.
        split; [|rewrite N2, N1, P2; by decide_links]. rewrite app_comm_cons, NoDup_app in Hnd. destruct Hnd as (Hyl & Hd & _).
        apply NoDup_cons in Hyl as (Hy & _). eapply chain_frame; [exact Hc|..].
        -- intros c Hcl. rewrite N2, N1, decide_False; [done|]. intros ->. apply (Hd z Hcl). by left.
        -- intros c Hcl. rewrite P2, P1, decide_False; [done|]. intros ->. apply elem_of_app in Hcl as [?|Hyz%list_elem_of_singleton]; [done|].
           apply (Hd y); [by left|]. rewrite Hyz. by left.
    + intros c Hcl. rewrite N2, N1, P2, P1. rewrite !decide_False; [done|intros ->; apply Hcl; by left|by intros ->].
    + intros c. by rewrite D2, D1.
    + by rewrite M2.
Qed.

Lemma add_to_list_spec st se head l :
  ring st head l → NoDup l → se ∉ l → is_Some (st !! se) →
  ∃ st' head', add_to_list st se head = Ok (st', head') ∧ ring st' head' (l ++ [se]) ∧ only_links (se :: l) st st'.
Proof.
  intros Hr Hnd Hse Hs. unfold add_to_list. destruct l as [|h l].
  - cbn in Hr. subst head. destruct (set_next_spec st se se Hs) as (s1 & -> & N1 & P1 & D1 & M1). rewrite res_bind_ok.
    destruct (set_prev_spec s1 se se) as (s2 & -> & P2 & N2 & D2 & M2); [by eapply dom_is_Some|]. rewrite res_bind_ok.
    exists s2, (Some se). split; [done|]. split; [cbn; rewrite N2, N1, P2; by decide_links|]. split_and!.
    + intros c Hc. rewrite N2, N1, P2, P1. rewrite !decide_False; [done|..]; intros ->; apply Hc; by left.
    + intros c. by rewrite D2, D1.
    + by rewrite M2.
  - destruct Hr as (-> & Hc). destruct (chain_last _ _ _ Hc) as (z & Hz & Hzn & Hzp).
    assert (z ∈ h :: l) as Hzl by by apply last_Some_elem_of. assert (z ≠ se) as Hzs by (intros ->; done).
    assert (h ≠ se) as Hhs by (intros ->; apply Hse; by left).
    destruct (set_next_spec st se h Hs) as (s1 & -> & N1 & P1 & D1 & M1). rewrite res_bind_ok.
    assert (∃ e, get_se s1 h = Ok e ∧ se_prev e = z) as (e & -> & Ee).
    { destruct (dom_is_Some st s1 h M1) as (e & He); [by eapply pv_is_Some|]. exists e. unfold get_se. rewrite He. split; [done|].
      specialize (P1 h). rewrite Hzp in P1. unfold pv in P1. rewrite He in P1. by injection P1. }
    rewrite res_bind_ok, Ee. destruct (set_prev_spec s1 se z) as (s2 & -> & P2 & N2 & D2 & M2); [by eapply dom_is_Some|]. rewrite res_bind_ok.
    destruct (get_se_spec s2 se h) as (e2 & -> & E2 & _); [rewrite N2, N1; by decide_links|]. rewrite res_bind_ok, E2.
    destruct (set_prev_spec s2 h se) as (s3 & -> & P3 & N3 & D3 & M3).
    { eapply dom_is_Some; [etrans; [exact M2|exact M1]|]. by eapply pv_is_Some. }
    rewrite res_bind_ok. destruct (get_se_spec s3 se h) as (e3 & -> & E3 & Ep3 & _); [rewrite N3, N2, N1; by decide_links|].
    rewrite P3, P2 in Ep3. rewrite decide_False in Ep3 by congruence. rewrite decide_True in Ep3 by done. injection Ep3 as Ep3. rewrite res_bind_ok, <- Ep3.
    destruct (set_next_spec s3 z se) as (s4 & -> & N4 & P4 & D4 & M4).
    { eapply dom_is_Some; [etrans; [exact M3|etrans; [exact M2|exact M1]]|]. by eapply nx_is_Some. }
    rewrite res_bind_ok. exists s4, (Some h). split; [done|].
    assert (∀ c, nx s4 c = if decide (c = z) then Some se else if decide (c = se) then Some h else nx st c) as HN
      by (intros c; by rewrite N4, N3, N2, N1).
    assert (∀ c, pv s4 c = if decide (c = h) then Some se else if decide (c = se) then Some z else pv st c) as HP
      by (intros c; by rewrite P4, P3, P2, P1).
    clear N1 N2 N3 N4 P1 P2 P3 P4. split; [|split_and!].
    + cbn. split; [done|]. apply chain_snoc. split; [|rewrite HN, HP; by decide_links]. destruct l as [|w l _] using rev_ind.
      * injection Hz as <-. cbn. rewrite HN, HP. by decide_links.
      * rewrite app_comm_cons, last_snoc in Hz. injection Hz as ->. apply chain_snoc in Hc as (Hc & _). apply chain_snoc.
        split; [|rewrite HN, HP; by decide_links]. rewrite app_comm_cons, NoDup_app in Hnd. destruct Hnd as (Hyl & Hd & _).
        apply NoDup_cons in Hyl as (Hh & _). eapply chain_frame; [exact Hc|..].
        -- intros c Hcl. rewrite HN, !decide_False; [done|..].
           ++ intros ->. apply Hse. rewrite app_comm_cons. apply elem_of_app. by left.
           ++ intros ->. apply (Hd z Hcl). by left.
        -- intros c Hcl. rewrite HP, !decide_False; [done|..].
           ++ intros ->. apply Hse. by right.
           ++ intros ->. apply elem_of_app in Hcl as [?|Hhz%list_elem_of_singleton]; [done|]. apply (Hd h); [by left|]. rewrite Hhz. by left.
    + intros c Hcl. rewrite not_elem_of_cons in Hcl. destruct Hcl as (Hcs & Hcl). rewrite HN, HP, !decide_False; [done|..]; try done.
      * intros ->. apply Hcl. by left.
      * by intros ->.
    + intros c. by rewrite D4, D3, D2, D1.
    + by rewrite M4, M3, M2.
Qed.

(** ** Queues as lists *)

(** The free nodes, the used nodes and the entries in them. *)
Record repr (sq : soft_queue) (es qs : list nat) (q : list Z) : Prop := {
  re_empty : ring (sq_store sq) (empty_se_list sq) es;
  re_used : ring (sq_store sq) (se_list sq) qs;
  re_nodup : NoDup (es ++ qs);
  re_nodes : ∀ p, p ∈ es ++ qs → is_Some (sq_store sq !! p);
  re_data : Forall2 (λ p d, dat (sq_store sq) p = Some d) qs q }.

(** A queue of [n] entries that holds [q], and nobody has its mutex. *)
Definition holds (n : Z) (q : list Z) (sq : soft_queue) : Prop :=
  sq_mutex sq = false ∧ ∃ es qs, repr sq es qs q ∧ zlen es + zlen qs = n.

Lemma sq_lock_free sq : sq_mutex sq = false → sq_lock sq = Ok (with_mutex true sq).
Proof. unfold sq_lock. by intros ->. Qed.

(** The head of one list becomes the last of the other. *)
Lemma move_node st from to x fs ts :
  ring st from (x :: fs) → ring st to ts → NoDup ((x :: fs) ++ ts) → is_Some (st !! x) →
  ∃ st1 from' st2 to', remove_from_list st from = Ok (st1, from') ∧ dom st1 = dom st ∧ (∀ c, dat st1 c = dat st c) ∧
    add_to_list st1 x to = Ok (st2, to') ∧ ring st2 from' fs ∧ ring st2 to' (ts ++ [x]) ∧
    (∀ c, dat st2 c = dat st c) ∧ dom st2 = dom st.
Proof.
  intros (-> & Hc) Ht Hnd Hx. apply NoDup_app in Hnd as (Hf & Hd & Hts).
  destruct (remove_from_list_spec st x fs Hc Hf) as (st1 & from' & Hr & Hring & Ho & D1 & M1).
  destruct (add_to_list_spec st1 x to ts) as (st2 & to' & Ha & Hring2 & Ho2 & D2 & M2).
  - eapply ring_frame; [exact Ht|]. intros c Hcl. apply Ho. intros Hcf. apply (Hd c); [by right|done].
  - done.
  - intros Hin. apply (Hd x); [by left|done].
  - by eapply dom_is_Some.
  - exists st1, from', st2, to'. split_and!; try done.
    + eapply ring_frame; [exact Hring|]. intros c Hcl. apply Ho2. intros [->|Hct]%elem_of_cons.
      * by apply NoDup_cons in Hf as (? & _).
      * apply (Hd c); [by right|done].
    + intros c. by rewrite D2, D1.
    + by rewrite M2.
Qed.

Lemma ring_head st head l : ring st head l → head = hd_error l.
Proof. destruct l; cbn; [done|]. by intros (-> & _). Qed.

Lemma locked_get_spec sq es qs q :
  repr sq es qs q →
  match q with
  | [] => locked_get_next_event sq = Ok (None, sq)
  | d :: q' => ∃ x qs' sq', qs = x :: qs' ∧ locked_get_next_event sq = Ok (Some d, sq') ∧ repr sq' (es ++ [x]) qs' q' ∧
      (∃ st e s, sq' = with_se_lists st e s sq)
  end.
Proof.
  intros [He Hq Hnd Hn Hd]. unfold locked_get_next_event. destruct q as [|d q].
  - apply Forall2_nil_inv_r in Hd as ->. cbn in Hq. by rewrite Hq.
  - apply Forall2_cons_inv_r in Hd as (x & qs' & Hx & Hd & ->). pose proof Hq as (Eq & _). rewrite Eq.
    assert (x ∈ es ++ x :: qs') as Hin by (apply elem_of_app; right; by left).
    destruct (move_node (sq_store sq) (se_list sq) (empty_se_list sq) x qs' es) as (st1 & qh & st2 & eh & Hr & M1 & D1 & Ha & R1 & R2 & D2 & M2);
      [done|done|by rewrite Permutation_app_comm|by apply Hn|]. rewrite Eq in Hr. rewrite Hr, res_bind_ok.
    assert (∃ e, get_se st1 x = Ok e ∧ event_data e = d) as (e & -> & <-).
    { specialize (D1 x). rewrite Hx in D1. unfold dat, get_se in *. destruct (st1 !! x) as [e|]; [|done]. injection D1 as D1. by exists e. }
    rewrite res_bind_ok, Ha, res_bind_ok. eexists x, qs', _. split; [done|]. split; [reflexivity|]. split; [|by eexists _, _, _].
    split; cbn; [done|done| | |].
    + rewrite <- app_assoc. exact Hnd.
    + intros p Hp. eapply dom_is_Some; [exact M2|]. apply Hn. by rewrite <- app_assoc in Hp.
    + eapply Forall2_impl; [exact Hd|]. intros p d Hp. cbn. by rewrite D2.
Qed.

(** Adding fails exactly when the queue is full, and changes nothing then. *)
Lemma soft_queue_add_spec n q wrote d sq :
  holds n q sq →
  ∃ sq', soft_queue_add wrote d sq = Ok (if decide (zlen q < n) then 0 else -1, sq') ∧
    holds n (if decide (zlen q < n) then q ++ [d] else q) sq' ∧
    fd_event sq' = fd_event sq ∧ ev_list sq' = ev_list sq ∧
    sq_pipe sq' = sq_pipe sq + (if decide (zlen q < n ∧ wrote = true ∧ fd_event sq ≠ None) then 1 else 0).
Proof.
  intros (Hm & es & qs & [He Hq Hnd Hn Hd] & Hl). unfold soft_queue_add. rewrite (sq_lock_free sq Hm), res_bind_ok. cbn [empty_se_list with_mutex].
  assert (zlen q = zlen qs) as Eq by (unfold zlen; f_equal; symmetry; by eapply Forall2_length).
  rewrite (ring_head _ _ _ He). destruct es as [|x es]; cbn [hd_error].
  - rewrite zlen_nil in Hl. rewrite !(decide_False (P := zlen q < n)) by lia. eexists. split; [reflexivity|]. split_and!; [|done|done|].
    + split; [done|]. exists [], qs. split; [by split|]. rewrite zlen_nil. lia.
    + rewrite decide_False by lia. cbn. lia.
  - rewrite zlen_cons in Hl. pose proof (zlen_nonneg es). rewrite !(decide_True (P := zlen q < n)) by lia.
    destruct (move_node (sq_store sq) (empty_se_list sq) (se_list sq) x es qs) as (st1 & eh & st2 & qh & Hr & M1 & _ & Ha & R1 & R2 & D2 & M2);
      [done|done|done|by apply Hn; left|]. rewrite (ring_head _ _ _ He) in Hr. cbn [hd_error] in Hr.
    cbn [sq_store se_list with_mutex]. rewrite Hr, res_bind_ok, Ha, res_bind_ok.
    destruct (set_data_spec st2 x d) as (st3 & -> & N3 & P3 & D3 & M3); [eapply dom_is_Some; [exact M2|]; by apply Hn; left|].
    rewrite res_bind_ok. eexists. split; [reflexivity|].
    assert (repr (with_se_lists st3 eh qh sq) es (qs ++ [x]) (q ++ [d])) as HR.
    { pose proof Hnd as Hnd'. rewrite <- app_comm_cons, NoDup_cons, elem_of_app in Hnd'. destruct Hnd' as (Hx & _).
      split; cbn.
      - eapply ring_frame; [exact R1|]. intros c _. by rewrite N3, P3.
      - eapply ring_frame; [exact R2|]. intros c _. by rewrite N3, P3.
      - eapply NoDup_Permutation_proper; [|exact Hnd]. by rewrite app_assoc, Permutation_app_comm.
      - intros p Hp. eapply dom_is_Some; [exact M3|]. eapply dom_is_Some; [exact M2|]. apply Hn.
        rewrite !elem_of_app, list_elem_of_singleton in Hp. rewrite elem_of_app, elem_of_cons. tauto.
      - apply Forall2_app; [|constructor; [rewrite D3; by rewrite decide_True|constructor]].
        rewrite Forall2_same_length_lookup in Hd |- *. destruct Hd as (Hlen & Hd). split; [done|]. intros i p v Hp Hv.
        rewrite D3, decide_False; [rewrite D2; by eapply Hd|]. intros ->. apply Hx. right. by eapply list_elem_of_lookup_2. }
    assert (zlen es + zlen (qs ++ [x]) = n) as HL by (rewrite zlen_app; change (zlen [x]) with 1; lia).
    destruct HR as [H1 H2 H3 H4 H5]. cbn [fd_event with_se_lists with_mutex]. split_and!.
    + split; [by destruct (fd_event sq), wrote|]. exists es, (qs ++ [x]). split; [|done]. destruct (fd_event sq), wrote; by split.
    + destruct (fd_event sq) eqn:E, wrote; cbn; congruence.
    + by destruct (fd_event sq), wrote.
    + destruct (fd_event sq), wrote; cbn; case_decide; naive_solver lia.
Qed.

Lemma get_spec n q others sq :
  holds n q sq → q ≠ [] →
  ∃ sq', get_next_event others sq = Ok (hd_error q, sq') ∧ holds n (tl q) sq' ∧
    fd_event sq' = fd_event sq ∧ ev_list sq' = ev_list sq ∧ sq_pipe sq' = sq_pipe sq.
Proof.
  intros (Hm & es & qs & HR & Hl) Hne. unfold get_next_event. rewrite (sq_lock_free sq Hm), res_bind_ok.
  assert (HR' : repr (with_mutex true sq) es qs q) by (destruct HR; by split).
  pose proof (locked_get_spec _ _ _ _ HR') as H. destruct q as [|d q]; [done|].
  destruct H as (x & qs' & sq' & -> & Hg & HR2 & st & e & s & ->). pose proof (re_used _ _ _ _ HR) as (Es & _). cbn [se_list with_mutex].
  rewrite Es, res_bind_ok, Hg, res_bind_ok. eexists. split; [reflexivity|]. split_and!; try done.
  split; [done|]. exists (es ++ [x]), qs'. split; [destruct HR2; by split|]. rewrite zlen_app, zlen_cons in *. change (zlen [x]) with 1 in *.
  rewrite zlen_nil. lia.
Qed.

(** Waiting: the mutex is released and taken again, and the queue is looked at
    once. *)
Lemma get_waits n q1 others sq sq1 :
  holds n [] sq → others sq = Ok sq1 → holds n q1 sq1 →
  ∃ sq', get_next_event others sq = Ok (hd_error q1, sq') ∧ holds n (tl q1) sq'.
Proof.
  intros (Hm & es & qs & HR & Hl) Ho H1. unfold get_next_event. rewrite (sq_lock_free sq Hm), res_bind_ok.
  pose proof (re_data _ _ _ _ HR) as Hd. apply Forall2_nil_inv_r in Hd as ->. pose proof (re_used _ _ _ _ HR) as Eq. cbn in Eq.
  cbn [se_list with_mutex]. rewrite Eq. assert (sq_unlock (with_mutex true sq) = sq) as -> by (destruct sq; cbn in *; by rewrite Hm).
  rewrite Ho, res_bind_ok. destruct H1 as (Hm1 & es1 & qs1 & HR1 & Hl1). rewrite (sq_lock_free sq1 Hm1), res_bind_ok.
  assert (HR' : repr (with_mutex true sq1) es1 qs1 q1) by (destruct HR1; by split).
  pose proof (locked_get_spec _ _ _ _ HR') as H. destruct q1 as [|d q1].
  - rewrite H, res_bind_ok. eexists. split; [reflexivity|]. split; [done|]. exists es1, qs1. split; [destruct HR1; by split|done].
  - destruct H as (x & qs' & sq' & -> & Hg & HR2 & st & e & s & ->). rewrite Hg, res_bind_ok. eexists. split; [reflexivity|].
    split; [done|]. exists (es1 ++ [x]), qs'. split; [destruct HR2; by split|]. rewrite zlen_app, zlen_cons in *. change (zlen [x]) with 1 in *.
    rewrite zlen_nil. lia.
Qed.

Lemma new_nodes_spec junk n : ∀ i st head,
  ring st head (seq 0 i) → (∀ p, is_Some (st !! p) ↔ (p < i)%nat) →
  ∃ st' head', new_nodes junk i n st head = Ok (st', head') ∧ ring st' head' (seq 0 (i + n)) ∧
    (∀ p, is_Some (st' !! p) ↔ (p < i + n)%nat).
Proof.
  induction n as [|n IH]; intros i st head Hr Hd; cbn [new_nodes].
  - exists st, head. by rewrite Nat.add_0_r.
  - assert (∀ p, (p < i)%nat → <[i := junk i]> st !! p = st !! p) as Hlt by (intros p Hp; apply lookup_insert_ne; lia).
    destruct (add_to_list_spec (<[i := junk i]> st) i head (seq 0 i)) as (st1 & h1 & -> & Hr1 & _ & _ & M1).
    + eapply ring_frame; [exact Hr|]. intros c Hc%elem_of_seq. unfold nx, pv. by rewrite Hlt by lia.
    + apply NoDup_seq.
    + rewrite elem_of_seq. lia.
    + rewrite lookup_insert_eq. by eexists.
    + rewrite res_bind_ok. destruct (IH (S i) st1 h1) as (st' & head' & E & Hr' & Hd').
      * by rewrite seq_S.
      * intros p. rewrite <- elem_of_dom, M1, elem_of_dom. destruct (decide (p = i)) as [->|]; [rewrite lookup_insert_eq; split; [lia|by eexists]|].
        rewrite lookup_insert_ne, Hd by done. lia.
      * exists st', head'. replace (i + S n)%nat with (S i + n)%nat by lia. done.
Qed.

Lemma new_soft_queue_spec junk n : 0 ≤ n → ∃ sq, new_soft_queue junk n = Ok sq ∧ holds n [] sq ∧ fd_event sq = None.
Proof.
  intros Hn. unfold new_soft_queue. destruct (new_nodes_spec junk (Z.to_nat n) 0 ∅ None) as (st & h & -> & Hr & Hd).
  - done.
  - intros p. rewrite lookup_empty. split; [by intros (? & ?)|lia].
  - rewrite res_bind_ok. eexists. split; [reflexivity|]. split; [|done]. split; [done|]. exists (seq 0 (0 + Z.to_nat n)), [].
    split; [|unfold zlen; rewrite length_seq; cbn; lia]. split; cbn; [done|done| | |constructor].
    + rewrite app_nil_r. apply NoDup_seq.
    + intros p. rewrite app_nil_r, elem_of_seq. intros Hp. apply Hd. lia.
Qed.

(** ** Runs *)

(** Calls, each under the mutex: of soft_queue_add, and of get_next_event by a
    thread that is woken up at once when there is nothing to take. *)
Inductive sq_call := Add (wrote : bool) (d : Z) | Take.
Inductive sq_result := Added (r : Z) | Taken (d : option Z).

Definition run_call (c : sq_call) (sq : soft_queue) : res (sq_result * soft_queue) :=
  match c with
  | Add wrote d => '(r, sq) ← soft_queue_add wrote d sq; Ok (Added r, sq)
  | Take => '(d, sq) ← get_next_event Ok sq; Ok (Taken d, sq)
  end.
Fixpoint run_calls (cs : list sq_call) (sq : soft_queue) : res (list sq_result * soft_queue) :=
  match cs with
  | [] => Ok ([], sq)
  | c :: cs => '(r, sq) ← run_call c sq; '(rs, sq) ← run_calls cs sq; Ok (r :: rs, sq)
  end.

(** The bounded queue. *)
Definition queue_call (n : Z) (c : sq_call) (q : list Z) : sq_result * list Z :=
  match c with
  | Add _ d => if decide (zlen q < n) then (Added 0, q ++ [d]) else (Added (-1), q)
  | Take => (Taken (hd_error q), tl q)
  end.
Fixpoint queue_calls (n : Z) (cs : list sq_call) (q : list Z) : list sq_result * list Z :=
  match cs with
  | [] => ([], q)
  | c :: cs => let '(r, q) := queue_call n c q in let '(rs, q) := queue_calls n cs q in (r :: rs, q)
  end.

Lemma run_call_spec n q c sq :
  holds n q sq → ∃ sq', run_call c sq = Ok ((queue_call n c q).1, sq') ∧ holds n (queue_call n c q).2 sq'.
Proof.
  intros H. destruct c as [wrote d|]; cbn [run_call queue_call].
  - destruct (soft_queue_add_spec n q wrote d sq H) as (sq' & -> & H' & _). rewrite res_bind_ok. exists sq'. case_decide; done.
  - destruct q as [|d q].
    + destruct (get_waits n [] Ok sq sq) as (sq' & -> & H'); [done..|]. rewrite res_bind_ok. by exists sq'.
    + destruct (get_spec n (d :: q) Ok sq) as (sq' & -> & H' & _); [done..|]. rewrite res_bind_ok. by exists sq'.
Qed.

Lemma run_calls_spec n cs : ∀ q sq,
  holds n q sq → ∃ sq', run_calls cs sq = Ok ((queue_calls n cs q).1, sq') ∧ holds n (queue_calls n cs q).2 sq'.
Proof.
  induction cs as [|c cs IH]; intros q sq H; [by exists sq|]. cbn [run_calls queue_calls].
  destruct (run_call_spec n q c sq H) as (sq1 & -> & H1). rewrite res_bind_ok. destruct (queue_call n c q) as [r q1]. cbn [fst snd] in *.
  destruct (IH q1 sq1 H1) as (sq2 & -> & H2). rewrite res_bind_ok. destruct (queue_calls n cs q1) as [rs q2]. by exists sq2.
Qed.

(** C30. A software queue is a bounded queue. Over every sequence of calls on a new queue, whatever malloc left in its nodes,
    no pointer of its circular lists is followed wrongly and the mutex is free after each call; soft_queue_add succeeds
    exactly while fewer than the given number of entries are held, and entries are taken in the order they were added. A
    thread that finds the queue empty gets the first entry left after what the other threads do while it waits. *)
Theorem soft_queue_fifo junk n cs :
  0 ≤ n → let '(rs, q) := queue_calls n cs [] in
  ∃ sq sq', new_soft_queue junk n = Ok sq ∧ run_calls cs sq = Ok (rs, sq') ∧ sq_mutex sq' = false ∧
    (∀ during, q = [] →
       ∃ sq2, get_next_event (λ sq, snd <$> run_calls during sq) sq' = Ok (hd_error (queue_calls n during []).2, sq2) ∧
         sq_mutex sq2 = false).
Proof.
  intros Hn. destruct (new_soft_queue_spec junk n Hn) as (sq & Es & H & _). destruct (run_calls_spec n cs [] sq H) as (sq' & Er & H').
  destruct (queue_calls n cs []) as [rs q]. cbn [fst snd] in *. exists sq, sq'. split; [done|]. split; [done|]. split; [apply H'|].
  intros during ->. set (q' := (queue_calls n during []).2). destruct (run_calls_spec n during [] sq' H') as (sq1 & E1 & H1).
  destruct (get_waits n q' (λ sq, snd <$> run_calls during sq) sq' sq1) as (sq2 & E2 & H2); [done|by rewrite E1|done|].
  exists sq2. split; [done|apply H2].
Qed.

Lemma soft_queue_fifo_witness :
  ∃ sq sq', new_soft_queue (λ _, mkSe 7 8 9) 2 = Ok sq ∧
    run_calls [Add true 5; Add true 6; Add true 7; Take; Take; Take] sq =
    Ok ([Added 0; Added 0; Added (-1); Taken (Some 5); Taken (Some 6); Taken None], sq').
Proof.
  destruct (soft_queue_fifo (λ _, mkSe 7 8 9) 2 [Add true 5; Add true 6; Add true 7; Take; Take; Take]) as (sq & sq' & E & R & _); [lia|].
  exists sq, sq'. split; [exact E|exact R].
Defined.

(** ** Delivery to listeners *)

Section Delivery.
Context (listener : nat → option Z → soft_queue * loop → res (soft_queue * loop)).
(** Listeners that leave the queue and the list of events alone. *)
Hypothesis quiet : ∀ e d sq st, sq_mutex sq = false → ∃ st', listener e d (sq, st) = Ok (sq, st') ∧
  end_loop st' = end_loop st ∧ length (events st') = length (events st) ∧ log st' = log st.

Lemma call_listeners_spec d l : ∀ sq st,
  sq_mutex sq = true → end_loop st = false → Forall (λ e, (e < length (events st))%nat) l →
  ∃ st', call_listeners listener l d sq st = Ok (sq, st') ∧ log st' = reverse (Called <$> l) ++ log st.
Proof.
  induction l as [|e l IH]; intros sq st Hm He Hl; cbn [call_listeners]; [by exists st|].
  apply Forall_cons in Hl as (Hel & Hl). rewrite He. destruct (lookup_lt_is_Some_2 _ _ Hel) as (x & Hx).
  unfold get_event. rewrite Hx, res_bind_ok. set (st1 := with_log _ _).
  assert (end_loop st1 = false ∧ length (events st1) = length (events st) ∧ log st1 = Called e :: log st) as (E1 & L1 & G1).
  { unfold st1, mark_oneshot. destruct (has x EVENT_F_ONESHOT); cbn; rewrite ?length_insert; done. }
  destruct (quiet e d (sq_unlock sq) st1) as (st2 & -> & E2 & L2 & G2); [done|]. rewrite res_bind_ok, sq_lock_free, res_bind_ok by done.
  replace (with_mutex true (sq_unlock sq)) with sq by (destruct sq; cbn in *; by rewrite Hm).
  destruct (IH sq st2) as (st3 & E3 & G3); [done|by rewrite E2|by rewrite L2, L1|]. exists st3. split; [done|].
  by rewrite G3, G2, G1, fmap_cons, reverse_cons, <- app_assoc.
Qed.

(** A byte of the pipe takes the first entry and calls every listener with it,
    the newest first. *)
Lemma sq_run_delivers n d q sq st :
  holds n (d :: q) sq → end_loop st = false → Forall (λ e, (e < length (events st))%nat) (ev_list sq) →
  ∃ sq' st', sq_run listener true sq st = Ok (sq', st') ∧ holds n q sq' ∧ sq_pipe sq' = sq_pipe sq - 1 ∧
    log st' = reverse (Called <$> ev_list sq) ++ log st.
Proof.
  intros (Hm & es & qs & HR & Hl) He Hev. unfold sq_run. rewrite sq_lock_free, res_bind_ok by done.
  set (sq1 := with_pipe _ _). assert (HR1 : repr sq1 es qs (d :: q)) by (destruct HR; by split).
  destruct (locked_get_spec _ _ _ _ HR1) as (x & qs' & sq2 & -> & -> & HR2 & s & e & h & ->). rewrite res_bind_ok.
  destruct (call_listeners_spec (Some d) (ev_list sq) (with_se_lists s e h sq1) st) as (st' & E & G); [done..|].
  change (ev_list (with_se_lists s e h sq1)) with (ev_list sq). rewrite E, res_bind_ok.
  eexists _, st'. split; [reflexivity|]. split_and!; [|done|done]. split; [done|]. exists (es ++ [x]), qs'.
  split; [destruct HR2; by split|]. rewrite zlen_app, zlen_cons in *. change (zlen [x]) with 1 in *. rewrite zlen_nil. lia.
Qed.
End Delivery.

(** ** Defects of the queues *)

Definition ex_loop : loop := mkLoop [] [] [] [] false 0 [].

(** A thread that wakes up without an entry gets a null pointer: the wait is not
    in a loop. *)
Lemma woken_without_entry junk n sq :
  0 ≤ n → new_soft_queue junk n = Ok sq → ∃ sq', get_next_event Ok sq = Ok (None, sq').
Proof.
  intros Hn Hs. destruct (new_soft_queue_spec junk n Hn) as (sq0 & E & H & _). rewrite Hs in E. injection E as <-.
  destruct (get_waits n [] Ok sq sq) as (sq' & E & _); [done..|]. by exists sq'.
Qed.

(** An entry that was added before the first listener has no byte in the pipe:
    every later entry is delivered one late, and the last never. *)
Definition late_run : res (list entry * Z * option nat) :=
  sq ← new_soft_queue (λ _, mkSe 0 0 0) 4;
  '(_, sq) ← soft_queue_add true 1 sq;
  '(_, sq, st) ← add_softqueue_event 9 (Some 5) 0 7 0 sq ex_loop;
  '(_, sq) ← soft_queue_add true 2 sq;
  '(sq, st) ← sq_run (λ _ d x, if decide (d = Some 1) then Ok x else Fault OutOfFuel) true sq st;
  Ok (log st, sq_pipe sq, se_list sq).
Lemma late_entries : late_run = Ok ([Called 1], 0, Some 1%nat).
Proof. by vm_compute. Qed.

(** A listener that another one removes in the same delivery is still called. *)
Definition removed_run : res (list entry) :=
  sq ← new_soft_queue (λ _, mkSe 0 0 0) 4;
  '(_, sq, st) ← add_softqueue_event 9 (Some 5) 0 7 0 sq ex_loop;
  '(_, sq, st) ← add_softqueue_event 9 (Some 5) 0 8 0 sq st;
  '(_, sq) ← soft_queue_add true 1 sq;
  '(sq, st) ← sq_run (λ e _ x, if decide (e = 2%nat) then st ← remove_event 1 x.2; Ok (x.1, st) else Ok x) true sq st;
  Ok (log st).
Lemma removed_listener_called : removed_run = Ok [Called 1; Called 2].
Proof. by vm_compute. Qed.
