(* ===== verification/Convert.v ===== *)
(** * Streams with conversions (stream.c)

    A client that does not take the format of a source is connected through a
    conversion stream: [new_convert_stream] makes a stream whose source is a
    destination of another one, its [set_running] is [set_waiting] on that
    destination, and frames come to it converted. [Live.Stream] has the streams of
    the build, which need no conversion; here is the whole of stream.c, with
    streams as numbers of a store and a destination that feeds another stream
    marked with its number.

    The streams form trees: a source runs exactly while some listener in its tree
    waits, and a frame reaches exactly the listeners that wait. *)

From stdpp Require Import prelude gmap list.
From S2P Require Import Prelude Frame.

(** [d_feeds] is the conversion stream whose frames a destination makes. *)
Record dest := mkDest { d_waiting : bool; d_feeds : option nat }.

(** [st_private] of a conversion stream is the destination it is: the number of
    the base stream and the place in its list, counted from the oldest. The two
    callbacks that new_convert_stream does not set are [None]. *)
Record cstream := mkStr {
  st_name : list Z; st_format : Z; st_dests : list dest; st_private : option (nat * nat);
  st_running : bool; st_notify : option bool }.

Definition with_st_dests (l : list dest) (s : cstream) : cstream :=
  mkStr (st_name s) (st_format s) l (st_private s) (st_running s) (st_notify s).
Definition with_running (b : bool) (s : cstream) : cstream :=
  mkStr (st_name s) (st_format s) (st_dests s) (st_private s) b (st_notify s).

(** The streams, and the order of [stream_list]. *)
Record streams := mkStreams { store : list cstream; stream_list : list nat }.

Definition get_stream (l : list cstream) (i : nat) : res cstream :=
  match l !! i with Some s => Ok s | None => Fault UseAfterFree end.

(** ** Making streams *)

Definition new_stream (nm : list Z) (fmt : Z) (ss : streams) : nat * streams :=
  (length (store ss), mkStreams (store ss ++ [mkStr nm fmt [] None false (Some false)]) (length (store ss) :: stream_list ss)).

Definition new_dest (i : nat) (feeds : option nat) (l : list cstream) : res (nat * list cstream) :=
  s ← get_stream l i;
  Ok (length (st_dests s), <[i := with_st_dests (st_dests s ++ [mkDest false feeds]) s]> l).

(** The new stream comes behind its base in the list. *)
Definition insert_after (b i : nat) (l : list nat) : list nat := l ≫= λ x, if decide (x = b) then [x; i] else [x].

Definition new_convert_stream (b : nat) (fmt : Z) (ss : streams) : res (nat * streams) :=
  base ← get_stream (store ss) b;
  let i := length (store ss) in
  '(k, l) ← new_dest b (Some i) (store ss);
  Ok (i, mkStreams (l ++ [mkStr (st_name base) fmt [] (Some (b, k)) false None]) (insert_after b i (stream_list ss))).

Definition format_match (fmt : Z) (formats : list Z) : bool :=
  match formats with [] => true | _ => existsb (λ f, fmt =? f) formats end.

(** The first stream of a list that satisfies a test. *)
Fixpoint find_stream (l : list cstream) (order : list nat) (p : cstream → bool) : res (option nat) :=
  match order with
  | [] => Ok None
  | i :: order => s ← get_stream l i; if p s then Ok (Some i) else find_stream l order p
  end.

(** A stream of the name in an acceptable format, or a conversion of one. *)
Definition connect_to_stream (nm : list Z) (formats : list Z) (ss : streams) : res (option (nat * nat) * streams) :=
  let named s := bool_decide (st_name s = nm) in
  o ← find_stream (store ss) (stream_list ss) (λ s, named s && format_match (st_format s) formats);
  match o with
  | Some i => '(k, l) ← new_dest i None (store ss); Ok (Some (i, k), mkStreams l (stream_list ss))
  | None =>
      o ← find_stream (store ss) (stream_list ss)
            (λ s, named s && bool_decide (st_format s = FORMAT_RAW_UYVY) && format_match FORMAT_RAW_RGB24 formats);
      match o with
      | Some b =>
          '(i, ss) ← new_convert_stream b FORMAT_RAW_RGB24 ss;
          '(k, l) ← new_dest i None (store ss);
          Ok (Some (i, k), mkStreams l (stream_list ss))
      | None => Ok (None, ss)
      end
  end.

(** A callback that was not set is what malloc left: it is called. *)
Definition new_listener_notify (i : nat) (l : list cstream) : res unit :=
  s ← get_stream l i;
  match st_notify s with None => Fault UseAfterFree | Some _ => Ok () end.

(** ** Listening *)

Definition any_waiting (s : cstream) : bool := existsb d_waiting (st_dests s).
Definition set_flag (l : list cstream) (i k : nat) (s : cstream) (d : dest) (w : bool) : list cstream :=
  <[i := with_st_dests (<[k := mkDest w (d_feeds d)]> (st_dests s)) s]> l.

(** set_waiting with the set_running of a source or of a conversion stream. *)
Fixpoint set_waiting (fuel : nat) (l : list cstream) (i k : nat) (w : bool) : res (list cstream) :=
  match fuel with
  | O => Fault OutOfFuel
  | S fuel =>
      let set_running l :=
        s ← get_stream l i;
        match st_private s with
        | Some (b, kb) => set_waiting fuel l b kb w
        | None => Ok (<[i := with_running w s]> l)
        end in
      s ← get_stream l i;
      match st_dests s !! k with
      | None => Fault UseAfterFree
      | Some d =>
          if d_waiting d then
            if w then Ok l else
            let l := set_flag l i k s d false in
            s ← get_stream l i;
            if any_waiting s then Ok l else set_running l
          else
            if w then set_running (set_flag l i k s d true) else Ok l
      end
  end.

(** ** Delivery *)

Section Deliver.
(** Whether new_frame has a frame for a conversion, at each call. *)
Context (available : nat → bool).

(** The destinations that a frame reaches, the frames that are not released and
    the number of calls of new_frame. *)
Record delivery := mkDel { reached : list (nat * nat); leaked : nat; calls : nat }.

Fixpoint each_dest (deliver : nat → delivery → res delivery) (i : nat) (ds : list (nat * dest)) (st : delivery) : res delivery :=
  match ds with
  | [] => Ok st
  | (k, d) :: ds =>
      st ← (if d_waiting d then
              match d_feeds d with
              | None => Ok (mkDel (reached st ++ [(i, k)]) (leaked st) (calls st))
              | Some j =>
                  if available (calls st) then deliver j (mkDel (reached st) (leaked st) (S (calls st)))
                  else Ok (mkDel (reached st) (S (leaked st)) (S (calls st)))
              end
            else Ok st);
      each_dest deliver i ds st
  end.

(** deliver_frame_to_stream, with convert_uyvy_to_rgb24 for a destination that
    feeds a stream; the newest destination is first. *)
Fixpoint deliver (fuel : nat) (l : list cstream) (i : nat) (st : delivery) : res delivery :=
  match fuel with
  | O => Fault OutOfFuel
  | S fuel => s ← get_stream l i; each_dest (deliver fuel l) i (reverse (imap pair (st_dests s))) st
  end.
End Deliver.

(** ** Trees of streams *)

(** With [o] one destination is about to get the flag in it. *)
Definition flag_of (o : option (nat * nat * bool)) (b k : nat) (f : bool) : bool :=
  match o with Some (b', k', w) => if decide (b' = b ∧ k' = k) then w else f | None => f end.

Record tree (o : option (nat * nat * bool)) (l : list cstream) : Prop := {
  tr_source : ∀ i s, l !! i = Some s → st_private s = None → st_running s = any_waiting s;
  tr_conv : ∀ i s b k, l !! i = Some s → st_private s = Some (b, k) →
    (b < i)%nat ∧ ∃ sb f, l !! b = Some sb ∧ st_dests sb !! k = Some (mkDest f (Some i)) ∧ any_waiting s = flag_of o b k f;
  tr_feeds : ∀ i s k f j, l !! i = Some s → st_dests s !! k = Some (mkDest f (Some j)) →
    ∃ sj, l !! j = Some sj ∧ st_private sj = Some (i, k) }.

(** The flag of a destination. *)
Definition waits (l : list cstream) (i k : nat) : option bool := s ← l !! i; d_waiting <$> st_dests s !! k.
Definition listener (l : list cstream) (i k : nat) : Prop := ∃ s f, l !! i = Some s ∧ st_dests s !! k = Some (mkDest f None).

Lemma get_stream_ok l i s : l !! i = Some s → get_stream l i = Ok s.
Proof. unfold get_stream. by intros ->. Qed.

Lemma any_waiting_insert s k d w f :
  st_dests s !! k = Some d →
  any_waiting (with_st_dests (<[k := mkDest w f]> (st_dests s)) s) = true ↔
  w = true ∨ ∃ j e, j ≠ k ∧ st_dests s !! j = Some e ∧ d_waiting e = true.
Proof.
  intros Hk. pose proof (lookup_lt_Some _ _ _ Hk) as Hlt. unfold any_waiting. cbn. rewrite existsb_exists. split.
  - intros (e & He%list_elem_of_In & Hw). apply list_elem_of_lookup in He as (j & Hj). destruct (decide (j = k)) as [->|Hne].
    + rewrite list_lookup_insert_eq in Hj by done. injection Hj as <-. by left.
    + rewrite list_lookup_insert_ne in Hj by done. right. by exists j, e.
  - intros [->|(j & e & Hne & Hj & He)].
    + exists (mkDest true f). split; [|done]. apply list_elem_of_In, list_elem_of_lookup. exists k. by apply list_lookup_insert_eq.
    + exists e. split; [|done]. apply list_elem_of_In, list_elem_of_lookup. exists j. by rewrite list_lookup_insert_ne.
Qed.

Lemma any_waiting_true s k d : st_dests s !! k = Some d → d_waiting d = true → any_waiting s = true.
Proof. intros Hk Hd. apply existsb_exists. exists d. split; [|done]. apply list_elem_of_In. by eapply list_elem_of_lookup_2. Qed.

(** Setting the flag that was announced, when the stream is then as it was
    announced to its own base. *)
Lemma tree_set_flag l i k s d w o' :
  tree (Some (i, k, w)) l → l !! i = Some s → st_dests s !! k = Some d →
  let s' := with_st_dests (<[k := mkDest w (d_feeds d)]> (st_dests s)) s in
  (match st_private s with
   | Some (b, kb) => o' = Some (b, kb, any_waiting s') ∨ (o' = None ∧ any_waiting s' = any_waiting s)
   | None => o' = None
   end) →
  (∀ j sj, set_flag l i k s d w !! j = Some sj → st_private sj = None → j ≠ i → st_running sj = any_waiting sj) ∧
  (∀ j sj b kb, set_flag l i k s d w !! j = Some sj → st_private sj = Some (b, kb) →
    (b < j)%nat ∧ ∃ sb f, set_flag l i k s d w !! b = Some sb ∧ st_dests sb !! kb = Some (mkDest f (Some j)) ∧
      any_waiting sj = flag_of o' b kb f) ∧
  (∀ j sj kj f m, set_flag l i k s d w !! j = Some sj → st_dests sj !! kj = Some (mkDest f (Some m)) →
    ∃ sm, set_flag l i k s d w !! m = Some sm ∧ st_private sm = Some (j, kj)).
Proof.
  intros [Hs Hc Hf] Hi Hk s' Ho. pose proof (lookup_lt_Some _ _ _ Hi) as Hlt. pose proof (lookup_lt_Some _ _ _ Hk) as Hkt.
  unfold set_flag. fold s'.
  assert (∀ j sj, <[i := s']> l !! j = Some sj → ∃ s0, l !! j = Some s0 ∧ st_private sj = st_private s0 ∧ st_running sj = st_running s0 ∧
    ((j = i ∧ s0 = s ∧ sj = s') ∨ (j ≠ i ∧ sj = s0))) as Hl.
  { intros j sj Hj. destruct (decide (j = i)) as [->|Hne].
    - rewrite list_lookup_insert_eq in Hj by done. injection Hj as <-. exists s. split_and!; try done. by left.
    - rewrite list_lookup_insert_ne in Hj by done. exists sj. split_and!; try done. by right. }
  split; [|split].
  - intros j sj Hj Hp Hne. destruct (Hl j sj Hj) as (s0 & H0 & Ep & Er & [(-> & _)|(_ & ->)]); [done|]. by apply (Hs j).
  - intros j sj b kb Hj Hp. destruct (Hl j sj Hj) as (s0 & H0 & Ep & _ & Hcase). rewrite Ep in Hp.
    destruct (Hc j s0 b kb H0 Hp) as (Hb & sb & f & Hlb & Hkb & Ha). split; [done|].
    destruct (decide (b = i)) as [->|Hbi].
    + (* a destination of the stream itself *)
      rewrite Hi in Hlb. injection Hlb as <-. assert (sj = s0) as -> by (destruct Hcase as [(-> & _)|(_ & ->)]; [lia|done]).
      destruct (decide (kb = k)) as [->|Hkk].
      * rewrite Hk in Hkb. injection Hkb as ->. exists s', w. rewrite list_lookup_insert_eq by done. split; [done|].
        cbn. rewrite list_lookup_insert_eq by done. split; [done|]. rewrite Ha. unfold flag_of at 1. rewrite decide_True by done.
        unfold flag_of. destruct (st_private s) as [[b' kb']|] eqn:E; [|by subst o'].
        destruct (Hc i s b' kb' Hi E) as (Hb' & _). destruct Ho as [->|(-> & _)]; [|done]. rewrite decide_False by lia. done.
      * exists s', f. rewrite list_lookup_insert_eq by done. split; [done|]. cbn. rewrite list_lookup_insert_ne by done. split; [done|].
        rewrite Ha. unfold flag_of at 1. rewrite decide_False by naive_solver.
        unfold flag_of. destruct (st_private s) as [[b' kb']|] eqn:E; [|by subst o'].
        destruct (Hc i s b' kb' Hi E) as (Hb' & _). destruct Ho as [->|(-> & _)]; [|done]. rewrite decide_False by lia. done.
    + exists sb, f. rewrite list_lookup_insert_ne by done. split; [done|]. split; [done|].
      unfold flag_of in Ha. rewrite decide_False in Ha by naive_solver. destruct Hcase as [(-> & -> & ->)|(Hji & ->)].
      * rewrite Hp in Ho. destruct Ho as [->|(-> & Ew)]; [by cbn; rewrite decide_True|]. etrans; [exact Ew|exact Ha].
      * rewrite Ha. unfold flag_of. destruct (st_private s) as [[b' kb']|] eqn:E; [|by subst o'].
        destruct Ho as [->|(-> & _)]; [|done]. rewrite decide_False; [done|]. intros (-> & ->).
        destruct (Hc i s b kb Hi E) as (_ & sb' & f' & Hlb' & Hkb' & _). rewrite Hlb in Hlb'. injection Hlb' as <-. congruence.
  - intros j sj kj f m Hj Hkj. destruct (Hl j sj Hj) as (s0 & H0 & _ & _ & Hcase).
    assert (∃ f0, st_dests s0 !! kj = Some (mkDest f0 (Some m))) as (f0 & Hf0).
    { destruct Hcase as [(-> & -> & ->)|(_ & ->)]; [|by exists f]. cbn in Hkj. destruct (decide (kj = k)) as [->|Hne].
      - rewrite list_lookup_insert_eq in Hkj by done. injection Hkj as _ E. exists (d_waiting d). rewrite Hk. destruct d; cbn in *. by rewrite E.
      - rewrite list_lookup_insert_ne in Hkj by done. by exists f. }
    destruct (Hf j s0 kj f0 m H0 Hf0) as (sm & Hm & Hp). destruct (decide (m = i)) as [->|Hne].
    + rewrite Hi in Hm. injection Hm as <-. exists s'. by rewrite list_lookup_insert_eq.
    + exists sm. by rewrite list_lookup_insert_ne.
Qed.

Lemma tree_running l i s w :
  (∀ j sj, l !! j = Some sj → st_private sj = None → j ≠ i → st_running sj = any_waiting sj) →
  (∀ j sj b kb, l !! j = Some sj → st_private sj = Some (b, kb) →
    (b < j)%nat ∧ ∃ sb f, l !! b = Some sb ∧ st_dests sb !! kb = Some (mkDest f (Some j)) ∧ any_waiting sj = f) →
  (∀ j sj kj f m, l !! j = Some sj → st_dests sj !! kj = Some (mkDest f (Some m)) → ∃ sm, l !! m = Some sm ∧ st_private sm = Some (j, kj)) →
  l !! i = Some s → any_waiting s = w → tree None (<[i := with_running w s]> l).
Proof.
  intros H1 H2 H3 Hi Hw. pose proof (lookup_lt_Some _ _ _ Hi) as Hlt.
  assert (∀ j sj, <[i := with_running w s]> l !! j = Some sj → ∃ s0, l !! j = Some s0 ∧ st_private sj = st_private s0 ∧
    st_dests sj = st_dests s0 ∧ (st_running sj = st_running s0 ∨ j = i ∧ st_running sj = w)) as Hl.
  { intros j sj Hj. destruct (decide (j = i)) as [->|Hne].
    - rewrite list_lookup_insert_eq in Hj by done. injection Hj as <-. exists s. split_and!; try done. by right.
    - rewrite list_lookup_insert_ne in Hj by done. exists sj. split_and!; try done. by left. }
  assert (∀ j s0, l !! j = Some s0 → ∃ sj, <[i := with_running w s]> l !! j = Some sj ∧ st_private sj = st_private s0 ∧ st_dests sj = st_dests s0) as Hr.
  { intros j s0 Hj. destruct (decide (j = i)) as [->|Hne].
    - rewrite Hi in Hj. injection Hj as <-. exists (with_running w s). by rewrite list_lookup_insert_eq.
    - exists s0. by rewrite list_lookup_insert_ne. }
  split.
  - intros j sj Hj Hp. destruct (decide (j = i)) as [->|Hne].
    + rewrite list_lookup_insert_eq in Hj by done. injection Hj as <-. symmetry. exact Hw.
    + rewrite list_lookup_insert_ne in Hj by done. by apply (H1 j).
  - intros j sj b kb Hj Hp. destruct (Hl j sj Hj) as (s0 & H0 & Ep & Ed & _). rewrite Ep in Hp.
    destruct (H2 j s0 b kb H0 Hp) as (Hb & sb & f & Hlb & Hkb & Ha). split; [done|]. destruct (Hr b sb Hlb) as (sb' & Hb' & _ & Edb).
    exists sb', f. split; [done|]. rewrite Edb. split; [done|]. unfold any_waiting in *. by rewrite Ed.
  - intros j sj kj f m Hj Hk. destruct (Hl j sj Hj) as (s0 & H0 & _ & Ed & _). rewrite Ed in Hk.
    destruct (H3 j s0 kj f m H0 Hk) as (sm & Hm & Hp). destruct (Hr m sm Hm) as (sm' & Hm' & Ep & _). exists sm'. by rewrite Ep.
Qed.

(** What a change does to the listeners: the flag of one of them. *)
Definition only_flag (l l' : list cstream) (i k : nat) (w : bool) : Prop :=
  ∀ j kj, (listener l' j kj ↔ listener l j kj) ∧
    (listener l j kj → waits l' j kj = if decide (j = i ∧ kj = k) then Some w else waits l j kj).

Lemma set_flag_only l i k s d w :
  l !! i = Some s → st_dests s !! k = Some d → only_flag l (set_flag l i k s d w) i k w.
Proof.
  intros Hi Hk j kj. pose proof (lookup_lt_Some _ _ _ Hi) as Hlt. pose proof (lookup_lt_Some _ _ _ Hk) as Hkt.
  unfold listener, waits, set_flag. destruct (decide (j = i)) as [->|Hne]; [|rewrite list_lookup_insert_ne by done; by rewrite decide_False by naive_solver].
  rewrite list_lookup_insert_eq, Hi by done. cbn. destruct (decide (kj = k)) as [->|Hnk].
  - rewrite decide_True by done. rewrite list_lookup_insert_eq by done. cbn. split; [|done]. split.
    + intros (s0 & f & [= <-] & E). cbn in E. rewrite list_lookup_insert_eq in E by done. injection E as _ E. exists s, (d_waiting d).
      split; [done|]. rewrite Hk. destruct d. cbn in *. by rewrite E.
    + intros (s0 & f & [= <-] & E). rewrite Hk in E. injection E as ->. eexists _, w. split; [done|]. cbn. by rewrite list_lookup_insert_eq.
  - rewrite decide_False by naive_solver. rewrite list_lookup_insert_ne by done. split; [|done]. split.
    + intros (s0 & f & [= <-] & E). cbn in E. rewrite list_lookup_insert_ne in E by done. by exists s, f.
    + intros (s0 & f & [= <-] & E). eexists _, f. split; [done|]. cbn. by rewrite list_lookup_insert_ne.
Qed.

(** Nothing to do: the flag is as announced. *)
Lemma tree_same l i k s d w :
  tree (Some (i, k, w)) l → l !! i = Some s → st_dests s !! k = Some d → d_waiting d = w → tree None l ∧ only_flag l l i k w.
Proof.
  intros [H1 H2 H3] Hi Hk Hd. split.
  - split; [done| |done]. intros j sj b kb Hj Hp. destruct (H2 j sj b kb Hj Hp) as (Hb & sb & f & Hlb & Hkb & Ha).
    split; [done|]. exists sb, f. split_and!; try done. rewrite Ha. cbn. case_decide as E; [|done]. destruct E as (<- & <-).
    rewrite Hi in Hlb. injection Hlb as <-. rewrite Hk in Hkb. injection Hkb as ->. done.
  - intros j kj. split; [done|]. intros _. case_decide as E; [|done]. destruct E as (-> & ->).
    unfold waits. rewrite Hi. cbn. rewrite Hk. cbn. by rewrite Hd.
Qed.

(** Whether a stream runs is nothing to the listeners. *)
Lemma only_flag_running l l1 i j s k w b :
  only_flag l l1 i k w → l1 !! j = Some s → only_flag l (<[j := with_running b s]> l1) i k w.
Proof.
  intros Hof Hj m km. destruct (Hof m km) as (O1 & O2). pose proof (lookup_lt_Some _ _ _ Hj) as Hlt.
  assert (st_dests <$> <[j := with_running b s]> l1 !! m = st_dests <$> l1 !! m) as Hsd.
  { destruct (decide (m = j)) as [->|Hne]; [by rewrite list_lookup_insert_eq, Hj|by rewrite list_lookup_insert_ne]. }
  assert (∀ x : list cstream, listener x m km ↔ ∃ ds f, st_dests <$> x !! m = Some ds ∧ ds !! km = Some (mkDest f None)) as Hls.
  { intros x. unfold listener. destruct (x !! m) as [y|]; cbn; [|naive_solver]. split.
    - intros (y' & f & [= <-] & E). by exists (st_dests y), f.
    - intros (ds & f & [= <-] & E). by exists y, f. }
  assert (∀ x : list cstream, waits x m km = (st_dests <$> x !! m) ≫= λ ds, d_waiting <$> ds !! km) as Hws.
  { intros x. unfold waits. by destruct (x !! m). }
  split; [by rewrite Hls, Hsd, <- Hls|]. intros Hl. rewrite Hws, Hsd, <- Hws. by apply O2.
Qed.

Lemma set_waiting_tree fuel : ∀ l i k w,
  tree (Some (i, k, w)) l → (i < fuel)%nat → is_Some (waits l i k) →
  ∃ l', set_waiting fuel l i k w = Ok l' ∧ tree None l' ∧ only_flag l l' i k w.
Proof.
  induction fuel as [|fuel IH]; intros l i k w Ht Hf Hwt; [lia|]. cbn [set_waiting].
  unfold waits in Hwt. destruct (l !! i) as [s|] eqn:Hi; [|by destruct Hwt]. cbn in Hwt.
  destruct (st_dests s !! k) as [d|] eqn:Hk; [|by destruct Hwt]. pose proof (lookup_lt_Some _ _ _ Hi) as Hlt.
  rewrite (get_stream_ok l i s Hi), res_bind_ok, Hk.
  set (s' := with_st_dests (<[k := mkDest w (d_feeds d)]> (st_dests s)) s).
  assert (Hi' : set_flag l i k s d w !! i = Some s') by by apply list_lookup_insert_eq.
  pose proof (tree_same l i k s d w Ht Hi Hk) as Hsame.
  assert (any_waiting s' = w → ∃ l', (s1 ← get_stream (set_flag l i k s d w) i;
      match st_private s1 with
      | Some (b, kb) => set_waiting fuel (set_flag l i k s d w) b kb w
      | None => Ok (<[i := with_running w s1]> (set_flag l i k s d w))
      end) = Ok l' ∧ tree None l' ∧ only_flag l l' i k w) as Hrun.
  { intros Ha. rewrite (get_stream_ok _ i s' Hi'), res_bind_ok. change (st_private s') with (st_private s).
    pose proof (set_flag_only l i k s d w Hi Hk) as Hof. destruct (st_private s) as [[b kb]|] eqn:Ep.
    - destruct (tr_conv _ _ Ht i s b kb Hi Ep) as (Hb & sb & f & Hlb & Hkb & _).
      destruct (tree_set_flag l i k s d w (Some (b, kb, w))) as (T1 & T2 & T3); [done|done|done| |].
      { rewrite Ep. left. fold s'. by rewrite Ha. }
      destruct (IH (set_flag l i k s d w) b kb w) as (l' & E & Ht' & Ho').
      + split; [|done|done]. intros j sj Hj Hp. destruct (decide (j = i)) as [->|Hne]; [|by apply (T1 j)].
        rewrite Hi' in Hj. injection Hj as <-. cbn in Hp. congruence.
      + lia.
      + unfold waits, set_flag. rewrite list_lookup_insert_ne by lia. rewrite Hlb. cbn. rewrite Hkb. by eexists.
      + exists l'. split; [exact E|]. split; [done|]. intros j kj. destruct (Hof j kj) as (O1 & O2), (Ho' j kj) as (P1 & P2).
        split; [by rewrite P1|]. intros Hl. rewrite P2 by by apply O1. rewrite decide_False; [by apply O2|].
        intros (-> & ->). destruct Hl as (sl & fl & El & Ekl). rewrite Hlb in El. injection El as <-. congruence.
    - destruct (tree_set_flag l i k s d w None) as (T1 & T2 & T3); [done|done|done|by rewrite Ep|].
      eexists. split; [reflexivity|]. split; [by apply tree_running|by apply only_flag_running]. }
  destruct (d_waiting d) eqn:Hd.
  - destruct w; [by exists l; split; [|apply Hsame]|]. rewrite (get_stream_ok _ i s' Hi'), res_bind_ok.
    destruct (any_waiting s') eqn:Ha; [|rewrite (get_stream_ok _ i s' Hi') in Hrun; by apply Hrun]. eexists. split; [reflexivity|]. split; [|by apply set_flag_only].
    pose proof (any_waiting_true s k d Hk Hd) as Has.
    destruct (tree_set_flag l i k s d false None) as (T1 & T2 & T3); [done|done|done| |].
    { destruct (st_private s) as [[b kb]|]; [|done]. right. split; [done|]. fold s'. by rewrite Ha. }
    split; [|done|done]. intros j sj Hj Hp. destruct (decide (j = i)) as [->|Hne]; [|by apply (T1 j)].
    rewrite Hi' in Hj. injection Hj as <-. change (st_running s') with (st_running s). by rewrite Ha, (tr_source _ _ Ht i s Hi Hp).
  - destruct w; [|by exists l; split; [|apply Hsame]]. apply Hrun. apply (any_waiting_insert s k d true (d_feeds d)); [done|by left].
Qed.

(** ** What a frame reaches *)

Fixpoint reach (fuel : nat) (l : list cstream) (i : nat) : list (nat * nat) :=
  match fuel with
  | O => []
  | S fuel =>
      match l !! i with
      | None => []
      | Some s =>
          reverse (imap pair (st_dests s)) ≫= λ x : nat * dest,
            if d_waiting x.2 then match d_feeds x.2 with None => [(i, x.1)] | Some j => reach fuel l j end else []
      end
  end.

Lemma elem_of_imap_pair (ds : list dest) k d : (k, d) ∈ reverse (imap pair ds) ↔ ds !! k = Some d.
Proof.
  rewrite elem_of_reverse. split.
  - intros (n & Hn)%list_elem_of_lookup. rewrite list_lookup_imap in Hn. destruct (ds !! n) eqn:E; [|done]. cbn in Hn. by injection Hn as <- <-.
  - intros Hk. apply list_elem_of_lookup. exists k. by rewrite list_lookup_imap, Hk.
Qed.

Lemma deliver_reach available fuel : ∀ l i st,
  (∀ n, available n = true) → tree None l → (i < length l)%nat → (length l - i <= fuel)%nat →
  ∃ c, deliver available fuel l i st = Ok (mkDel (reached st ++ reach fuel l i) (leaked st) c).
Proof.
  induction fuel as [|fuel IH]; intros l i st Hav Ht Hi Hf; [lia|]. cbn [deliver reach].
  destruct (lookup_lt_is_Some_2 _ _ Hi) as (s & Hs). rewrite (get_stream_ok l i s Hs), Hs, res_bind_ok.
  assert (Forall (λ x : nat * dest, st_dests s !! x.1 = Some x.2) (reverse (imap pair (st_dests s)))) as Hds.
  { apply Forall_forall. intros [k d] Hx. by apply elem_of_imap_pair. }
  revert st. induction Hds as [|[k d] ds Hd Hds IHd]; intros st; [exists (calls st); destruct st; cbn; by rewrite app_nil_r|].
  cbn [each_dest fst snd] in *. rewrite bind_cons. cbn [fst snd].
  assert (∃ c, (if d_waiting d then
      match d_feeds d with
      | None => Ok (mkDel (reached st ++ [(i, k)]) (leaked st) (calls st))
      | Some j => if available (calls st) then deliver available fuel l j (mkDel (reached st) (leaked st) (S (calls st)))
                  else Ok (mkDel (reached st) (S (leaked st)) (S (calls st)))
      end else Ok st) =
      Ok (mkDel (reached st ++ (if d_waiting d then match d_feeds d with None => [(i, k)] | Some j => reach fuel l j end else []))
            (leaked st) c)) as (c & ->).
  { destruct d as [w f]. cbn. destruct w; [|exists (calls st); destruct st; cbn; by rewrite app_nil_r].
    destruct f as [j|]; [|by eexists]. rewrite Hav. destruct (tr_feeds _ _ Ht i s k _ j Hs Hd) as (sj & Hj & Hp).
    destruct (tr_conv _ _ Ht j sj i k Hj Hp) as (Hij & _). pose proof (lookup_lt_Some _ _ _ Hj).
    destruct (IH l j (mkDel (reached st) (leaked st) (S (calls st)))) as (c & ->); [done|done|done|lia|]. by eexists. }
  rewrite res_bind_ok. destruct (IHd (mkDel (reached st ++ (if d_waiting d then match d_feeds d with None => [(i, k)] | Some j => reach fuel l j end else []))
    (leaked st) c)) as (c' & ->). exists c'. cbn. by rewrite <- app_assoc.
Qed.

(** The streams of a tree. *)
Inductive below (l : list cstream) (i : nat) : nat → Prop :=
| below_refl : below l i i
| below_step j s b k : l !! j = Some s → st_private s = Some (b, k) → below l i b → below l i j.

Lemma below_first l i j : below l i j → j = i ∨ ∃ m sm k, l !! m = Some sm ∧ st_private sm = Some (i, k) ∧ below l m j.
Proof.
  induction 1 as [|j s b k Hj Hp _ IH]; [by left|]. right. destruct IH as [->|(m & sm & km & Hm & Hpm & Hb)].
  - exists j, s, k. split_and!; [done..|]. constructor.
  - exists m, sm, km. split_and!; [done..|]. by eapply below_step.
Qed.

Lemma below_trans l i m sm k j : l !! m = Some sm → st_private sm = Some (i, k) → below l m j → below l i j.
Proof. intros Hm Hp. induction 1 as [|j s b kb Hj Hpj _ IH]; [eapply below_step; [done..|constructor]|by eapply below_step]. Qed.

Lemma below_waiting l i si j sj :
  tree None l → below l i j → l !! i = Some si → l !! j = Some sj → any_waiting sj = true → any_waiting si = true.
Proof.
  intros Ht Hb Hi. revert sj. induction Hb as [|j s b k Hj Hp _ IH]; intros sj Hj' Ha; [by simplify_eq|].
  rewrite Hj in Hj'. injection Hj' as <-. destruct (tr_conv _ _ Ht j s b k Hj Hp) as (_ & sb & f & Hlb & Hkb & Hf). cbn in Hf.
  apply (IH sb Hlb). eapply any_waiting_true; [exact Hkb|]. cbn. congruence.
Qed.

Lemma reach_spec fuel : ∀ l i j k,
  tree None l → (i < length l)%nat → (length l - i <= fuel)%nat →
  (j, k) ∈ reach fuel l i ↔ below l i j ∧ listener l j k ∧ waits l j k = Some true.
Proof.
  induction fuel as [|fuel IH]; intros l i j k Ht Hi Hf; [lia|]. cbn [reach].
  destruct (lookup_lt_is_Some_2 _ _ Hi) as (s & Hs). rewrite Hs. rewrite list_elem_of_bind. split.
  - intros ([k0 [w f]] & Hin & Hx%elem_of_imap_pair). cbn in Hin. destruct w; [|by apply elem_of_nil in Hin]. destruct f as [m|].
    + destruct (tr_feeds _ _ Ht i s k0 _ m Hs Hx) as (sm & Hm & Hp). destruct (tr_conv _ _ Ht m sm i k0 Hm Hp) as (Him & _).
      pose proof (lookup_lt_Some _ _ _ Hm). apply IH in Hin as (Hb & ?); [|done|done|lia]. split; [by eapply below_trans|done].
    + apply list_elem_of_singleton in Hin. injection Hin as -> ->. split; [constructor|]. split; [by exists s, true|].
      unfold waits. rewrite Hs. cbn. by rewrite Hx.
  - intros (Hb & Hl & Hw). pose proof Hl as (sj & f & Hj & Hk). unfold waits in Hw. rewrite Hj in Hw. cbn in Hw. rewrite Hk in Hw. cbn in Hw.
    injection Hw as ->. destruct (below_first _ _ _ Hb) as [->|(m & sm & km & Hm & Hp & Hb')].
    + rewrite Hs in Hj. injection Hj as <-. exists (k, mkDest true None). split; [by left|]. by apply elem_of_imap_pair.
    + destruct (tr_conv _ _ Ht m sm i km Hm Hp) as (Him & sb & f & Hlb & Hkb & Hf'). rewrite Hs in Hlb. injection Hlb as <-. cbn in Hf'.
      pose proof (lookup_lt_Some _ _ _ Hm). exists (km, mkDest f (Some m)). split; [|by apply elem_of_imap_pair].
      assert (f = true) as ->.
      { rewrite <- Hf'. eapply below_waiting; [done|done|done|done|]. by eapply any_waiting_true. }
      cbn. apply IH; [done|done|lia|]. split; [done|]. split; [done|]. unfold waits. rewrite Hj. cbn. by rewrite Hk.
Qed.

(** A stream that is waited for has a listener below it. *)
Lemma waiting_below l : tree None l → ∀ n i s,
  (length l - i <= n)%nat → l !! i = Some s → any_waiting s = true → ∃ j k, below l i j ∧ listener l j k ∧ waits l j k = Some true.
Proof.
  intros Ht. induction n as [|n IH]; intros i s Hn Hi Ha; pose proof (lookup_lt_Some _ _ _ Hi); [lia|].
  apply existsb_exists in Ha as (d & (k & Hk)%list_elem_of_In%list_elem_of_lookup & Hd). destruct d as [w [m|]]; cbn in Hd; subst w.
  - destruct (tr_feeds _ _ Ht i s k _ m Hi Hk) as (sm & Hm & Hp). destruct (tr_conv _ _ Ht m sm i k Hm Hp) as (Him & sb & f & Hlb & Hkb & Hf).
    rewrite Hi in Hlb. injection Hlb as <-. rewrite Hk in Hkb. injection Hkb as <-.
    destruct (IH m sm) as (j & kj & Hb & ?); [lia|done|done|]. exists j, kj. split; [by eapply below_trans|done].
  - exists i, k. split; [constructor|]. split; [by exists s, true|]. unfold waits. rewrite Hi. cbn. by rewrite Hk.
Qed.

(** ** The operations keep the trees *)

Lemma tree_new_stream ss nm fmt : tree None (store ss) → tree None (store (new_stream nm fmt ss).2).
Proof.
  intros [H1 H2 H3]. cbn. set (n := mkStr nm fmt [] None false (Some false)).
  assert (∀ i s, (store ss ++ [n]) !! i = Some s → (store ss !! i = Some s) ∨ (i = length (store ss) ∧ s = n)) as Hl.
  { intros i s. rewrite lookup_app_Some. intros [?|(? & E)]; [by left|]. right. apply list_lookup_singleton_Some in E as (E & <-). split; [lia|done]. }
  assert (∀ i s, store ss !! i = Some s → (store ss ++ [n]) !! i = Some s) as Hr by (intros i s; apply lookup_app_l_Some).
  split.
  - intros i s [Hi|(-> & ->)]%Hl Hp; [by apply (H1 i)|done].
  - intros i s b k [Hi|(-> & ->)]%Hl Hp; [|done]. destruct (H2 i s b k Hi Hp) as (Hb & sb & f & Hlb & ?). split; [done|]. exists sb, f. split; [by apply Hr|done].
  - intros i s k f j [Hi|(-> & ->)]%Hl Hk; [|done]. destruct (H3 i s k f j Hi Hk) as (sj & Hj & ?). exists sj. split; [by apply Hr|done].
Qed.

Lemma any_waiting_snoc s f : any_waiting (with_st_dests (st_dests s ++ [mkDest false f]) s) = any_waiting s.
Proof. unfold any_waiting. cbn. rewrite existsb_app. cbn. by rewrite orb_false_r. Qed.

(** Adding a destination that does not wait; one that feeds a stream comes with
    that stream, [extra]. *)
Lemma tree_new_dest l i s feeds extra :
  tree None l → l !! i = Some s →
  (match feeds with
   | None => extra = []
   | Some j => ∃ n, extra = [n] ∧ j = length l ∧ st_dests n = [] ∧ st_private n = Some (i, length (st_dests s))
   end) →
  tree None (<[i := with_st_dests (st_dests s ++ [mkDest false feeds]) s]> l ++ extra).
Proof.
  intros [H1 H2 H3] Hi He. pose proof (lookup_lt_Some _ _ _ Hi) as Hlt. set (s' := with_st_dests _ s). set (l' := _ ++ extra).
  assert (∀ j sj, l' !! j = Some sj → (∃ s0, l !! j = Some s0 ∧ (j = i ∧ s0 = s ∧ sj = s' ∨ j ≠ i ∧ sj = s0)) ∨ (feeds = Some j ∧ extra = [sj])) as Hl.
  { intros j sj. unfold l'. rewrite lookup_app_Some, length_insert. intros [Hj|(Hge & Hj)].
    - left. destruct (decide (j = i)) as [->|Hne]; [rewrite list_lookup_insert_eq in Hj by done; injection Hj as <-; exists s; auto|].
      rewrite list_lookup_insert_ne in Hj by done. exists sj. auto.
    - right. destruct feeds as [m|]; [|by subst extra]. destruct He as (n & -> & -> & _). apply list_lookup_singleton_Some in Hj as (E & <-). split; [f_equal; lia|done]. }
  assert (∀ j s0, l !! j = Some s0 → ∃ sj, l' !! j = Some sj ∧ st_private sj = st_private s0 ∧ (∀ k d, st_dests s0 !! k = Some d → st_dests sj !! k = Some d)) as Hr.
  { intros j s0 Hj. unfold l'. destruct (decide (j = i)) as [->|Hne].
    - rewrite Hi in Hj. injection Hj as <-. exists s'. split; [apply lookup_app_l_Some; by apply list_lookup_insert_eq|]. split; [done|].
      intros k d Hk. cbn. by apply lookup_app_l_Some.
    - exists s0. split; [apply lookup_app_l_Some; by rewrite list_lookup_insert_ne|]. auto. }
  split.
  - intros j sj [(s0 & Hj & [(-> & -> & ->)|(_ & ->)])|(Hfe & Hex)]%Hl Hp.
    + change (st_running s') with (st_running s). rewrite (H1 i s Hi Hp). symmetry. apply any_waiting_snoc.
    + by apply (H1 j).
    + rewrite Hfe in He. destruct He as (n & -> & _ & _ & Hpn). injection Hex as <-. congruence.
  - intros j sj b k [(s0 & Hj & Hcase)|(Hfe & Hex)]%Hl Hp.
    + assert (st_private s0 = Some (b, k) ∧ any_waiting sj = any_waiting s0) as (Hp0 & Ha).
      { destruct Hcase as [(-> & -> & ->)|(_ & ->)]; [split; [done|apply any_waiting_snoc]|done]. }
      destruct (H2 j s0 b k Hj Hp0) as (Hb & sb & f & Hlb & Hkb & Hf). split; [done|]. destruct (Hr b sb Hlb) as (sb' & Hb' & _ & Hd).
      exists sb', f. split; [done|]. split; [by apply Hd|]. by rewrite Ha.
    + rewrite Hfe in He. destruct He as (n & -> & Ej & Hdn & Hpn). injection Hex as <-. rewrite Hpn in Hp. injection Hp as <- <-.
      split; [lia|]. exists s', false. split; [apply lookup_app_l_Some; by apply list_lookup_insert_eq|]. split.
      * cbn. rewrite lookup_app_r, Nat.sub_diag by lia. by rewrite Hfe.
      * unfold any_waiting. by rewrite Hdn.
  - intros j sj k f m [(s0 & Hj & Hcase)|(Hfe & Hex)]%Hl Hk.
    + destruct Hcase as [(-> & -> & ->)|(_ & ->)].
      * cbn in Hk. rewrite lookup_app_Some in Hk. destruct Hk as [Hk|(Hge & Hk)].
        -- destruct (H3 i s k f m Hi Hk) as (sm & Hm & Hpm). destruct (Hr m sm Hm) as (sm' & Hm' & Ep & _). exists sm'. by rewrite Ep.
        -- apply list_lookup_singleton_Some in Hk as (Ek & [= <- ->]). destruct He as (n & -> & -> & _ & Hpn). exists n.
           split; [unfold l'; rewrite lookup_app_r by (rewrite length_insert; lia); by rewrite length_insert, Nat.sub_diag|]. rewrite Hpn. do 2 f_equal. lia.
      * destruct (H3 j s0 k f m Hj Hk) as (sm & Hm & Hpm). destruct (Hr m sm Hm) as (sm' & Hm' & Ep & _). exists sm'. by rewrite Ep.
    + rewrite Hfe in He. destruct He as (n & -> & _ & Hdn & _). injection Hex as <-. by rewrite Hdn in Hk.
Qed.

Definition well (ss : streams) : Prop := tree None (store ss) ∧ Forall (λ i, (i < length (store ss))%nat) (stream_list ss).

Lemma find_stream_spec l order p :
  Forall (λ i, (i < length l)%nat) order →
  ∃ o, find_stream l order p = Ok o ∧ ∀ i, o = Some i → ∃ s, l !! i = Some s ∧ p s = true.
Proof.
  induction 1 as [|i order Hi _ IH]; cbn [find_stream]; [by exists None|]. destruct (lookup_lt_is_Some_2 _ _ Hi) as (s & Hs).
  rewrite (get_stream_ok l i s Hs), res_bind_ok. destruct (p s) eqn:E; [|done]. exists (Some i). split; [done|]. intros ? [= <-]. by exists s.
Qed.

Lemma new_dest_spec ss i s :
  well ss → store ss !! i = Some s →
  ∃ l, new_dest i None (store ss) = Ok (length (st_dests s), l) ∧ well (mkStreams l (stream_list ss)) ∧ listener l i (length (st_dests s)) ∧
    ∃ s', l !! i = Some s' ∧ st_name s' = st_name s ∧ st_format s' = st_format s.
Proof.
  intros (Ht & Ho) Hi. pose proof (lookup_lt_Some _ _ _ Hi) as Hlt. unfold new_dest. rewrite (get_stream_ok _ i s Hi), res_bind_ok. eexists. split; [reflexivity|].
  set (s' := with_st_dests _ s). assert (<[i := s']> (store ss) !! i = Some s') as Hi' by by apply list_lookup_insert_eq. split; [split|split].
  - cbn. rewrite <- (app_nil_r (<[i := s']> _)). by apply tree_new_dest.
  - cbn. by rewrite length_insert.
  - exists s', false. split; [done|]. cbn. by rewrite lookup_app_r, Nat.sub_diag by lia.
  - by exists s'.
Qed.

Lemma new_convert_spec ss b base :
  well ss → store ss !! b = Some base →
  ∃ ss', new_convert_stream b FORMAT_RAW_RGB24 ss = Ok (length (store ss), ss') ∧ well ss' ∧
    ∃ n, store ss' !! length (store ss) = Some n ∧ st_name n = st_name base ∧ st_format n = FORMAT_RAW_RGB24.
Proof.
  intros (Ht & Ho) Hb. pose proof (lookup_lt_Some _ _ _ Hb) as Hlt. unfold new_convert_stream, new_dest.
  rewrite (get_stream_ok _ b base Hb), !res_bind_ok. eexists. split; [reflexivity|]. split; [split|]; cbn [store stream_list].
  - apply tree_new_dest; [done..|]. by eexists.
  - rewrite length_app, length_insert. apply Forall_forall. intros x (y & Hx & Hy)%list_elem_of_bind. rewrite Forall_forall in Ho. specialize (Ho y Hy).
    cbn. case_decide as E; rewrite ?elem_of_cons in Hx; set_unfold; destruct Hx as [->|[->|[]]] || destruct Hx as [->|[]]; lia.
  - eexists. rewrite lookup_app_r by (by rewrite length_insert). rewrite length_insert, Nat.sub_diag. done.
Qed.

Lemma connect_spec nm formats ss :
  well ss → ∃ o ss', connect_to_stream nm formats ss = Ok (o, ss') ∧ well ss' ∧
    match o with
    | None => ss' = ss
    | Some (i, k) => listener (store ss') i k ∧ ∃ s, store ss' !! i = Some s ∧ st_name s = nm ∧ format_match (st_format s) formats = true
    end.
Proof.
  intros Hw. pose proof Hw as (Ht & Ho). unfold connect_to_stream.
  destruct (find_stream_spec (store ss) (stream_list ss) (λ s, bool_decide (st_name s = nm) && format_match (st_format s) formats) Ho)
    as (o1 & -> & H1).
  rewrite res_bind_ok. destruct o1 as [i|].
  - destruct (H1 i eq_refl) as (s & Hs & (Hn%bool_decide_eq_true & Hf)%andb_true_iff).
    destruct (new_dest_spec ss i s Hw Hs) as (l & -> & Hw' & Hl & s' & Hs' & En & Ef). rewrite res_bind_ok. eexists _, _. split; [reflexivity|].
    split; [done|]. split; [done|]. exists s'. by rewrite En, Ef.
  - clear H1. match goal with |- context [find_stream _ _ ?p] => destruct (find_stream_spec (store ss) (stream_list ss) p Ho) as (o2 & -> & H2) end.
    rewrite res_bind_ok. destruct o2 as [b|]; [|by eexists _, _].
    destruct (H2 b eq_refl) as (base & Hb & ((Hn%bool_decide_eq_true & _)%andb_true_iff & Hf)%andb_true_iff).
    destruct (new_convert_spec ss b base Hw Hb) as (ss1 & -> & Hw1 & n & Hn1 & En & Ef). rewrite res_bind_ok.
    destruct (new_dest_spec ss1 _ n Hw1 Hn1) as (l & -> & Hw' & Hl & s' & Hs' & En' & Ef'). rewrite res_bind_ok. eexists _, _. split; [reflexivity|].
    split; [done|]. split; [done|]. exists s'. rewrite En', En, Ef', Ef. done.
Qed.

(** Everything the rest of the program does with streams: clients change the
    flags of the destinations they were given. *)
Inductive reachable : streams → Prop :=
| reach_init : reachable (mkStreams [] [])
| reach_new nm fmt ss : reachable ss → reachable (new_stream nm fmt ss).2
| reach_connect nm formats ss o ss' : reachable ss → connect_to_stream nm formats ss = Ok (o, ss') → reachable ss'
| reach_wait i k w ss l : reachable ss → listener (store ss) i k → set_waiting (S i) (store ss) i k w = Ok l →
    reachable (mkStreams l (stream_list ss)).

Lemma listener_waits l i k : listener l i k → is_Some (waits l i k).
Proof. intros (s & f & Hi & Hk). unfold waits. rewrite Hi. cbn. rewrite Hk. by eexists. Qed.

(** To announce a change to a listener is nothing to the streams. *)
Lemma tree_listener l i k w : tree None l → listener l i k → tree (Some (i, k, w)) l.
Proof.
  intros [H1 H2 H3] (s & f & Hi & Hk). split; [done| |done]. intros j sj b kb Hj Hp.
  destruct (H2 j sj b kb Hj Hp) as (Hb & sb & f' & Hlb & Hkb & Ha). split; [done|]. exists sb, f'. split_and!; try done. cbn.
  rewrite decide_False; [done|]. intros (<- & <-). rewrite Hi in Hlb. injection Hlb as <-. congruence.
Qed.

Lemma wait_spec ss i k w :
  well ss → listener (store ss) i k →
  ∃ l, set_waiting (S i) (store ss) i k w = Ok l ∧ tree None l ∧ only_flag (store ss) l i k w.
Proof. intros (Ht & _) Hl. apply set_waiting_tree; [by apply tree_listener|lia|by apply listener_waits]. Qed.

Lemma set_waiting_length fuel : ∀ l i k w l', set_waiting fuel l i k w = Ok l' → length l' = length l.
Proof.
  induction fuel as [|fuel IH]; intros l i k w l'; [done|]. cbn [set_waiting]. unfold get_stream.
  assert (∀ m, length m = length l → (s ← match m !! i with Some s => Ok s | None => Fault UseAfterFree end;
      match st_private s with Some (b, kb) => set_waiting fuel m b kb w | None => Ok (<[i := with_running w s]> m) end) = Ok l' →
      length l' = length l) as Hrun.
  { intros m Hm. destruct (m !! i) as [s|]; [|done]. rewrite res_bind_ok. destruct (st_private s) as [[b kb]|].
    - intros E. by rewrite (IH _ _ _ _ _ E).
    - intros [= <-]. by rewrite length_insert. }
  destruct (l !! i) as [s|]; [|done]. rewrite res_bind_ok. destruct (st_dests s !! k) as [d|]; [|done].
  assert (∀ x, length (set_flag l i k s d x) = length l) as Hsf by (intros x; unfold set_flag; by rewrite length_insert).
  destruct (d_waiting d).
  - destruct w; [by intros [= <-]|]. destruct (set_flag l i k s d false !! i) as [s1|] eqn:E; [|done]. rewrite res_bind_ok.
    destruct (any_waiting s1); [intros [= <-]; apply Hsf|]. intros H. apply (Hrun (set_flag l i k s d false) (Hsf _)). by rewrite E.
  - destruct w; [|by intros [= <-]]. apply Hrun, Hsf.
Qed.

Lemma reachable_well ss : reachable ss → well ss.
Proof.
  induction 1 as [|nm fmt ss _ Hw|nm formats ss o ss' _ Hw E|i k w ss l _ Hw Hl E].
  - split; [by split; intros ???|done].
  - destruct Hw as (Ht & Ho). split; [by apply tree_new_stream|]. cbn. rewrite length_app. cbn. constructor; [lia|].
    eapply Forall_impl; [exact Ho|]. cbn. lia.
  - destruct (connect_spec nm formats ss Hw) as (o1 & ss1 & E1 & Hw1 & _). rewrite E in E1. by injection E1 as _ <-.
  - destruct (wait_spec ss i k w Hw Hl) as (l' & E' & Ht & _). rewrite E in E'. injection E' as <-. split; [done|]. cbn.
    rewrite (set_waiting_length _ _ _ _ _ _ E). apply Hw.
Qed.

(** C29. A source runs exactly while somebody listens, through conversions too. Whatever streams are made, whoever connects
    and whichever clients wait, connecting and waiting never fault; a connected client gets a stream of the name it asked for
    in a format it takes; a change of one client's wish changes no other's; a source has been told to run exactly while some
    client of its tree waits; and a frame of it reaches exactly the clients of its tree that wait, when every conversion gets
    a frame. *)
Theorem conversion_streams ss :
  reachable ss →
  (∀ nm formats, ∃ o ss', connect_to_stream nm formats ss = Ok (o, ss') ∧
     match o with
     | None => ss' = ss
     | Some (i, k) => listener (store ss') i k ∧ ∃ s, store ss' !! i = Some s ∧ st_name s = nm ∧ format_match (st_format s) formats = true
     end) ∧
  (∀ i k w, listener (store ss) i k → ∃ l, set_waiting (S i) (store ss) i k w = Ok l ∧ only_flag (store ss) l i k w) ∧
  (∀ i s, store ss !! i = Some s → st_private s = None →
     (st_running s = true ↔ ∃ j k, below (store ss) i j ∧ listener (store ss) j k ∧ waits (store ss) j k = Some true) ∧
     ∀ available, (∀ n, available n = true) →
       ∃ got c, deliver available (length (store ss)) (store ss) i (mkDel [] 0 0) = Ok (mkDel got 0 c) ∧
         ∀ j k, (j, k) ∈ got ↔ below (store ss) i j ∧ listener (store ss) j k ∧ waits (store ss) j k = Some true).
Proof.
  intros Hw%reachable_well. split; [|split].
  - intros nm formats. destruct (connect_spec nm formats ss Hw) as (o & ss' & E & _ & Ho). by exists o, ss'.
  - intros i k w Hl. destruct (wait_spec ss i k w Hw Hl) as (l & E & _ & Ho). by exists l.
  - intros i s Hi Hp. destruct Hw as (Ht & _). pose proof (lookup_lt_Some _ _ _ Hi) as Hlt. split.
    + rewrite (tr_source _ _ Ht i s Hi Hp). split; [by apply (waiting_below _ Ht (length (store ss))); [lia|]|].
      intros (j & k & Hb & (sj & f & Hj & Hk) & Hwt). eapply below_waiting; [done..|]. eapply any_waiting_true; [exact Hk|].
      unfold waits in Hwt. rewrite Hj in Hwt. cbn in Hwt. rewrite Hk in Hwt. by injection Hwt.
    + intros available Hav. destruct (deliver_reach available (length (store ss)) (store ss) i (mkDel [] 0 0)) as (c & E); [done|done|done|lia|].
      exists (reach (length (store ss)) (store ss) i), c. split; [exact E|]. intros j k. apply reach_spec; [done|done|lia].
Qed.

Definition ex_uyvy : streams := (new_stream [99] FORMAT_RAW_UYVY (mkStreams [] [])).2.

Lemma conversion_streams_witness :
  ∃ ss l, connect_to_stream [99] [FORMAT_RAW_RGB24] ex_uyvy = Ok (Some (1%nat, 0%nat), ss) ∧
    set_waiting 2 (store ss) 1 0 true = Ok l ∧ (st_running <$> l !! 0%nat) = Some true ∧
    ∃ got c, deliver (λ _, true) 2 l 0 (mkDel [] 0 0) = Ok (mkDel got 0 c) ∧ (1%nat, 0%nat) ∈ got.
Proof.
  destruct (connect_to_stream [99] [FORMAT_RAW_RGB24] ex_uyvy) as [[o ss]|] eqn:E; [|by vm_compute in E].
  assert (reachable ss) as Hr by (eapply reach_connect; [apply reach_new, reach_init|exact E]).
  assert (o = Some (1%nat, 0%nat)) as -> by (vm_compute in E; by injection E as <- _).
  assert (listener (store ss) 1 0) as Hl.
  { vm_compute in E. injection E as <-. eexists _, false. split; reflexivity. }
  destruct (set_waiting 2 (store ss) 1 0 true) as [l|] eqn:El; [|vm_compute in E; injection E as <-; by vm_compute in El].
  pose proof (reach_wait 1 0 true ss l Hr Hl El) as Hr2. exists ss, l. split; [done|]. split; [done|].
  destruct (conversion_streams (mkStreams l (stream_list ss)) Hr2) as (_ & _ & H). cbn [store] in H.
  vm_compute in E. injection E as <-. vm_compute in El. injection El as <-.
  destruct (H 0%nat _ eq_refl eq_refl) as (_ & Hd). split; [reflexivity|].
  destruct (Hd (λ _, true) (λ _, eq_refl)) as (got & c & Ed & Hgot). exists got, c. split; [exact Ed|]. apply Hgot. split; [|split].
  - eapply below_step; [reflexivity|reflexivity|constructor].
  - eexists _, true. split; reflexivity.
  - reflexivity.
Defined.

(** ** Defects *)

(** new_convert_stream does not set new_listener_notify, which is called when a
    client of the stream starts to play. *)
Lemma convert_notify_unset ss b base :
  well ss → store ss !! b = Some base →
  ∃ i ss', new_convert_stream b FORMAT_RAW_RGB24 ss = Ok (i, ss') ∧ new_listener_notify i (store ss') = Fault UseAfterFree.
Proof.
  intros Hw Hb. pose proof (lookup_lt_Some _ _ _ Hb). unfold new_convert_stream, new_dest. rewrite (get_stream_ok _ b base Hb), !res_bind_ok.
  eexists _, _. split; [reflexivity|]. cbn [store]. unfold new_listener_notify, get_stream.
  rewrite lookup_app_r by (by rewrite length_insert). by rewrite length_insert, Nat.sub_diag.
Qed.

(** A frame that cannot be converted is never released. *)
Lemma unconverted_frame_lost l i s :
  l !! i = Some s → st_dests s = [mkDest true (Some 1%nat)] →
  deliver (λ _, false) 2 l i (mkDel [] 0 0) = Ok (mkDel [] 1 1).
Proof. intros Hi Hd. cbn [deliver]. rewrite (get_stream_ok _ i s Hi), res_bind_ok, Hd. reflexivity. Qed.
