(* ===== verification/Overlay.v ===== *)
(** * Text and pictures drawn on a frame (TextOverlap.c, ImgOverlap.c)

    [Text] is TextOverlap.c, which the JPEG encoder draws the date with: the
    glyphs of a text are packed side by side into an image, the image is
    converted to the colour format of the frame and then merged into it, a pixel
    whose luma is the colour key staying as it was. [Img] is ImgOverlap.c, which
    copies a rectangle.

    Buffers are lists of bytes, pointers into them offsets, and the loops carry
    the pointers the C loops advance. What malloc returns, contents included, is
    an argument. [paint] describes what a loop does to a buffer byte by byte; the
    theorems say which byte of the frame every pixel of the text reaches and that
    the rest of the frame stays. *)

From stdpp Require Import prelude.
From S2P Require Import Prelude.

(** ** Formats and constants (ImgProc.h, TextOverlap.h) *)

Inductive E_IMGPROC_COLOR_FORMAT :=
| eIMGPROC_RGB888
| eIMGPROC_RGB555
| eIMGPROC_RGB565
| eIMGPROC_YUV422
| eIMGPROC_YUV422P
| eIMGPROC_YUV420
| eIMGPROC_YUV420P
| eIMGPROC_YUV420P_MB.

#[global] Instance color_format_eq_dec : EqDecision E_IMGPROC_COLOR_FORMAT.
Proof. solve_decision. Defined.

Definition ERR_IMGPROC_SUCCESS : Z := 0.

Definition eTEXT_OVERLAP_ERROR_NONE : Z := 0.
Definition eTEXT_OVERLAP_ERROR_INVALID_HANDLE : Z := -1.
Definition eTEXT_OVERLAP_ERROR_SIZE : Z := -2.
Definition eTEXT_OVERLAP_ERROR_MB_BOUNDARY : Z := -3.

Definition ONE_MB_Y_WIDTH : Z := 16.
Definition ONE_MB_Y_HEIGHT : Z := 16.
Definition ONE_MB_Y_SIZE : Z := ONE_MB_Y_WIDTH * ONE_MB_Y_HEIGHT.
Definition ONE_MB_UV_WIDTH : Z := 8.
Definition ONE_MB_UV_HEIGHT : Z := 16.
Definition ONE_MB_UV_SIZE : Z := ONE_MB_UV_WIDTH * ONE_MB_UV_HEIGHT.

(** ** Loops and memory *)

(** [for (x = 0; x < limit; x += step) body] with a counter that wraps as [wrap]
    says; a counter that never wraps needs at most [limit] iterations. *)
Fixpoint for_loop {S : Type} (wrap : Z → Z) (limit step : Z) (body : Z → S → res S) (fuel : nat) (x : Z) (s : S)
    : res S :=
  if decide (x < limit) then
    match fuel with
    | O => Fault OutOfFuel
    | S fuel => s ← body x s; for_loop wrap limit step body fuel (wrap (x + step)) s
    end
  else Ok s.

Definition for_u32 {S : Type} (limit step : Z) (body : Z → S → res S) (s : S) : res S :=
  for_loop u32 limit step body (Z.to_nat limit) 0 s.
Definition for_u16 {S : Type} (limit step : Z) (body : Z → S → res S) (s : S) : res S :=
  for_loop u16 limit step body (Z.to_nat limit) 0 s.

(** Writes in order. *)
Fixpoint wrs (l : list Z) (ws : list (Z * Z)) : res (list Z) :=
  match ws with
  | [] => Ok l
  | (i, x) :: ws => l ← wr l i x; wrs l ws
  end.

(** memcpy of [n] bytes, from [s] of [src] to [d] of [dst]. *)
Definition memcpy (dst : list Z) (d : Z) (src : list Z) (s n : Z) : res (list Z) :=
  if decide (0 ≤ d ∧ d + n ≤ zlen dst ∧ 0 ≤ s ∧ s + n ≤ zlen src) then
    Ok (take (Z.to_nat d) dst ++ slice src s n ++ drop (Z.to_nat (d + n)) dst)
  else Fault OutOfBounds.

(** A little-endian halfword, [p] a [uint16_t *]. *)
Definition rd16 (l : list Z) (i : Z) : res Z :=
  lo ← rd l (2 * i);
  hi ← rd l (2 * i + 1);
  Ok (lo + 256 * hi).

(** ** Text on a frame (TextOverlap.c) *)

Module Text.

Record S_TEXT_OVERLAP := mkText {
  u32FontWidth : Z;
  u32FontHeight : Z;
  u32MaxTexts : Z;
  pu8TextImg : list Z;
  pu8TextBGImg : list Z;
  u32TextImgWidth : Z;
  u32TextImgHeight : Z;
  u32ColorKeyY : Z;
  u32ColorKeyU : Z;
  u32ColorKeyV : Z
}.

Definition set_img (ps : S_TEXT_OVERLAP) (img : list Z) (w h : Z) : S_TEXT_OVERLAP :=
  mkText (u32FontWidth ps) (u32FontHeight ps) (u32MaxTexts ps) img (pu8TextBGImg ps) w h
    (u32ColorKeyY ps) (u32ColorKeyU ps) (u32ColorKeyV ps).

Definition set_bgimg (ps : S_TEXT_OVERLAP) (bgimg : list Z) : S_TEXT_OVERLAP :=
  mkText (u32FontWidth ps) (u32FontHeight ps) (u32MaxTexts ps) (pu8TextImg ps) bgimg
    (u32TextImgWidth ps) (u32TextImgHeight ps) (u32ColorKeyY ps) (u32ColorKeyU ps) (u32ColorKeyV ps).

Definition PackTextImg (ps : S_TEXT_OVERLAP) (apu8TextAddr : list (list Z)) (u32NumTexts : Z) : res S_TEXT_OVERLAP :=
  let fw := u32FontWidth ps in
  let fh := u32FontHeight ps in
  let u32TextImgWidth := u32 (fw * u32NumTexts) in
  let stride := u32TextImgWidth in
  '(_, img) ← for_u32 u32NumTexts 1 (λ i '(x, img),
      glyph ← rd apu8TextAddr i;
      '(_, img) ← for_u32 fh 1 (λ y '(text, img),
          img ← memcpy img (u32 (u32 (u32 (y * stride) + x) * 2)) glyph text (u32 (fw * 2));
          Ok (text + u32 (fw * 2), img)) (0, img);
      Ok (u32 (x + fw), img)) (0, pu8TextImg ps);
  Ok (set_img ps img u32TextImgWidth fh).

(** The width and height arrive as [uint16_t]. *)
Definition YUV422ToYUV420Planar_SW (src dest : list Z) (width height : Z) : res (list Z) :=
  let w := u16 width in
  let h := u16 height in
  let y0 := 0 in
  let u0 := y0 + w * h in
  let v0 := u0 + (w * h) `quot` 4 in
  '(_, _, dest) ← for_u16 h 2 (λ y '(up, vp, dest),
      let srcY0 := u32 (y * w) in
      let srcY2 := u32 ((y + 1) * w) in
      let destY0 := u32 (y * w) in
      let destY2 := u32 ((y + 1) * w) in
      for_u16 w 2 (λ x '(up, vp, dest),
          t0 ← rd16 src (u32 (srcY0 + x));
          t1 ← rd16 src (u32 (srcY0 + x + 1));
          t2 ← rd16 src (u32 (srcY2 + x));
          t3 ← rd16 src (u32 (srcY2 + x + 1));
          let u8Y0 := u8 (Z.land t0 255) in let u8U0 := u8 (Z.shiftr (Z.land t0 65280) 8) in
          let u8Y1 := u8 (Z.land t1 255) in let u8V0 := u8 (Z.shiftr (Z.land t1 65280) 8) in
          let u8Y2 := u8 (Z.land t2 255) in let u8U1 := u8 (Z.shiftr (Z.land t2 65280) 8) in
          let u8Y3 := u8 (Z.land t3 255) in let u8V1 := u8 (Z.shiftr (Z.land t3 65280) 8) in
          dest ← wrs dest
            [(y0 + u32 (destY0 + x), u8Y0); (y0 + u32 (destY0 + x + 1), u8Y1);
             (y0 + u32 (destY2 + x), u8Y2); (y0 + u32 (destY2 + x + 1), u8Y3);
             (up, u8 (Z.shiftr (u8U0 + u8U1) 1)); (vp, u8 (Z.shiftr (u8V0 + u8V1) 1))];
          Ok (up + 1, vp + 1, dest)) (up, vp, dest)) (u0, v0, dest);
  Ok dest.

(** The buffers of the program are never null; with any formats but these two
    nothing is converted. *)
Definition ImgProc_CST (eSrcFmt eDestFmt : E_IMGPROC_COLOR_FORMAT) (src dest : list Z) (width height : Z)
    : res (list Z * Z) :=
  dest ← (if decide (eSrcFmt = eIMGPROC_YUV422 ∧ eDestFmt = eIMGPROC_YUV420P)
          then YUV422ToYUV420Planar_SW src dest width height else Ok dest);
  Ok (dest, ERR_IMGPROC_SUCCESS).

Definition ColorTrans (ps : S_TEXT_OVERLAP) (eBGColor : E_IMGPROC_COLOR_FORMAT) : res S_TEXT_OVERLAP :=
  if decide (eBGColor = eIMGPROC_YUV422) then
    img ← memcpy (pu8TextBGImg ps) 0 (pu8TextImg ps) 0 (u32 (u32TextImgWidth ps * u32TextImgHeight ps * 2));
    Ok (set_bgimg ps img)
  else
    '(img, _) ← ImgProc_CST eIMGPROC_YUV422 eBGColor (pu8TextImg ps) (pu8TextBGImg ps)
                  (u32TextImgWidth ps) (u32TextImgHeight ps);
    Ok (set_bgimg ps img).

(** [if (c) { writes }]. *)
Definition when (c : bool) (ws : list (Z * Z)) (l : list Z) : res (list Z) := if c then wrs l ws else Ok l.

Definition Overlap_YUV422 (ps : S_TEXT_OVERLAP) (bg : list Z) (u32BGImgWidth u32BGImgHeight u32PosX u32PosY : Z)
    : res (list Z) :=
  let ov := pu8TextBGImg ps in
  let w := u32TextImgWidth ps in
  let h := u32TextImgHeight ps in
  let key := u8 (u32ColorKeyY ps) in
  '(_, _, bg) ← for_u32 h 1 (λ _ '(bgT, ovT, bg),
      '(_, _, bg) ← for_u32 w 2 (λ _ '(b, o, bg),
          Y ← rd ov (o + 0); U ← rd ov (o + 1); Yn ← rd ov (o + 2); V ← rd ov (o + 3);
          bg ← when (negb (Y =? key)) [(b + 0, Y); (b + 1, U); (b + 3, V)] bg;
          bg ← when (negb (Yn =? key)) [(b + 1, U); (b + 2, Yn); (b + 3, V)] bg;
          Ok (b + 4, o + 4, bg)) (bgT, ovT, bg);
      Ok (bgT + u32 (u32BGImgWidth * 2), ovT + u32 (w * 2), bg))
    (u32 (u32 (u32PosY * u32BGImgWidth + u32PosX) * 2), 0, bg);
  Ok bg.

Definition Overlap_YUV420 (ps : S_TEXT_OVERLAP) (bg : list Z) (u32BGImgWidth u32BGImgHeight u32PosX u32PosY : Z)
    : res (list Z) :=
  let ov := pu8TextBGImg ps in
  let w := u32TextImgWidth ps in
  let h := u32TextImgHeight ps in
  let key := u8 (u32ColorKeyY ps) in
  '(_, _, bg) ← for_u32 h 2 (λ _ '(bgT, ovT, bg),
      '(_, _, _, _, bg) ← for_u32 w 2 (λ _ '(b, o, bn, on, bg),
          Y0 ← rd ov (o + 0); Y1 ← rd ov (o + 1); U ← rd ov (o + 2);
          Y0n ← rd ov (on + 0); Y1n ← rd ov (on + 1); V ← rd ov (on + 2);
          bg ← when (negb (Y0 =? key)) [(b + 0, Y0); (b + 2, U); (bn + 2, V)] bg;
          bg ← when (negb (Y1 =? key)) [(b + 1, Y1); (b + 2, U); (bn + 2, V)] bg;
          bg ← when (negb (Y0n =? key)) [(bn + 0, Y0n); (b + 2, U); (bn + 2, V)] bg;
          bg ← when (negb (Y1n =? key)) [(bn + 1, Y1n); (b + 2, U); (bn + 2, V)] bg;
          Ok (b + 3, o + 3, bn + 3, on + 3, bg))
        (bgT, ovT, bgT + u32 (u32BGImgWidth `div` 2 * 3), ovT + u32 (w `div` 2 * 3), bg);
      Ok (bgT + u32 (u32BGImgWidth * 3), ovT + u32 (w * 3), bg))
    (u32 (u32 (u32PosY * u32BGImgWidth + u32PosX) `div` 2 * 3), 0, bg);
  Ok bg.

Definition Overlap_YUV422P (ps : S_TEXT_OVERLAP) (bg : list Z) (u32BGImgWidth u32BGImgHeight u32PosX u32PosY : Z)
    : res (list Z) :=
  let ov := pu8TextBGImg ps in
  let w := u32TextImgWidth ps in
  let h := u32TextImgHeight ps in
  let key := u8 (u32ColorKeyY ps) in
  let W := u32BGImgWidth in
  let bgY := u32 (u32PosY * W + u32PosX) in
  let bgU := u32 (W * u32BGImgHeight) + u32 (u32PosY * W + u32PosX) `div` 2 in
  let bgV := bgU + u32 (W * u32BGImgHeight) `div` 2 in
  let ovU := u32 (w * h) in
  let ovV := ovU + u32 (w * h) `div` 2 in
  '(_, bg) ← for_u32 h 1 (λ _ '(bgY, bgU, bgV, oY, oU, oV, bg),
      '(_, bg) ← for_u32 w 2 (λ _ '(b, bu, bv, o, ou, ov', bg),
          Y ← rd ov (o + 0); U ← rd ov (ou + 0); Yn ← rd ov (o + 1); V ← rd ov (ov' + 0);
          bg ← when (negb (Y =? key)) [(b + 0, Y); (bu + 0, U); (bv + 0, V)] bg;
          bg ← when (negb (Yn =? key)) [(b + 1, Yn); (bu + 0, U); (bv + 0, V)] bg;
          Ok (b + 2, bu + 1, bv + 1, o + 2, ou + 1, ov' + 1, bg)) (bgY, bgU, bgV, oY, oU, oV, bg);
      Ok (bgY + W, bgU + W `div` 2, bgV + W `div` 2, oY + w, oU + w `div` 2, oV + w `div` 2, bg))
    (bgY, bgU, bgV, 0, ovU, ovV, bg);
  Ok bg.

Definition Overlap_YUV420P (ps : S_TEXT_OVERLAP) (bg : list Z) (u32BGImgWidth u32BGImgHeight u32PosX u32PosY : Z)
    : res (list Z) :=
  let ov := pu8TextBGImg ps in
  let w := u32TextImgWidth ps in
  let h := u32TextImgHeight ps in
  let key := u8 (u32ColorKeyY ps) in
  let W := u32BGImgWidth in
  let bgY := u32 (u32PosY * W + u32PosX) in
  let bgU := u32 (W * u32BGImgHeight) + u32 (u32PosY `div` 2 * (W `div` 2) + u32PosX `div` 2) in
  let bgV := bgU + u32 (W * u32BGImgHeight) `div` 4 in
  let ovU := u32 (w * h) in
  let ovV := ovU + u32 (w * h) `div` 4 in
  '(_, bg) ← for_u32 h 2 (λ _ '(bgY, bgU, bgV, oY, oU, oV, bg),
      '(_, bg) ← for_u32 w 2 (λ _ '(b, bu, bv, o, ou, ov', bn, on, bg),
          Y0 ← rd ov (o + 0); Y1 ← rd ov (o + 1); U ← rd ov (ou + 0);
          Y0n ← rd ov (on + 0); Y1n ← rd ov (on + 1); V ← rd ov (ov' + 0);
          bg ← when (negb (Y0 =? key)) [(b + 0, Y0); (bu + 0, U); (bv + 0, V)] bg;
          bg ← when (negb (Y1 =? key)) [(b + 1, Y1); (bu + 0, U); (bv + 0, V)] bg;
          bg ← when (negb (Y0n =? key)) [(bn + 0, Y0n); (bu + 0, U); (bv + 0, V)] bg;
          bg ← when (negb (Y1n =? key)) [(bn + 1, Y1n); (bu + 0, U); (bv + 0, V)] bg;
          Ok (b + 2, bu + 1, bv + 1, o + 2, ou + 1, ov' + 1, bn + 2, on + 2, bg))
        (bgY, bgU, bgV, oY, oU, oV, bgY + W, oY + w, bg);
      Ok (bgY + u32 (W * 2), bgU + W `div` 2, bgV + W `div` 2, oY + u32 (w * 2), oU + w `div` 2, oV + w `div` 2, bg))
    (bgY, bgU, bgV, 0, ovU, ovV, bg);
  Ok bg.

(** Where the block of a pixel starts, in the luma and in the chroma part of a
    frame in macro blocks. *)
Definition mb_pos_y (W px py : Z) : Z :=
  u32 ((py `div` ONE_MB_Y_HEIGHT * (u32 (W + ONE_MB_Y_WIDTH - 1) `div` ONE_MB_Y_WIDTH) + px `div` ONE_MB_Y_WIDTH)
         * ONE_MB_Y_SIZE
       + (Z.land py (ONE_MB_Y_HEIGHT - 1) * ONE_MB_Y_WIDTH + Z.land px (ONE_MB_Y_WIDTH - 1))).
Definition mb_pos_uv (W px py : Z) : Z :=
  u32 ((py `div` ONE_MB_UV_HEIGHT * ((W `div` 2 + ONE_MB_UV_WIDTH - 1) `div` ONE_MB_UV_WIDTH)
          + px `div` 2 `div` ONE_MB_UV_WIDTH) * ONE_MB_UV_SIZE
       + (Z.land py (ONE_MB_UV_HEIGHT - 1) * ONE_MB_UV_WIDTH + Z.land (px `div` 2) (ONE_MB_UV_WIDTH - 1))).

(** One of the loops on [j]: the pair of luma bytes at [o] of the text and [b] of
    the frame, with the chroma at [ou], [ov'] and [bu], [bv]. *)
Definition mb_pair (ov : list Z) (key : Z) (ou ov' bu bv : Z) (s : Z * Z * list Z) : res (Z * Z * list Z) :=
  for_u32 2 1 (λ _ '(o, b, bg),
      Y ← rd ov o;
      bg ← (if negb (Y =? key) then U ← rd ov ou; V ← rd ov ov'; wrs bg [(b, Y); (bu, U); (bv, V)] else Ok bg);
      Ok (o + 1, b + 1, bg)) s.

Definition Overlap_YUV420MB (ps : S_TEXT_OVERLAP) (bg : list Z) (u32BGImgWidth u32BGImgHeight u32PosX u32PosY : Z)
    : res (list Z) :=
  let ov := pu8TextBGImg ps in
  let w := u32TextImgWidth ps in
  let h := u32TextImgHeight ps in
  let key := u8 (u32ColorKeyY ps) in
  let W := u32BGImgWidth in
  '(_, bg) ← for_u32 (h `div` ONE_MB_Y_HEIGHT) 1 (λ _ '(o, op, ou, ov', py, bg),
      let b := mb_pos_y W u32PosX py in
      let bp := b + ONE_MB_Y_WIDTH in
      let bu := u32 (W * u32BGImgHeight) + mb_pos_uv W u32PosX py in
      let bv := bu + ONE_MB_UV_WIDTH in
      '(o, op, ou, ov', _, _, _, _, bg) ← for_u32 (w `div` ONE_MB_Y_WIDTH) 1 (λ _ s,
          for_u32 ONE_MB_Y_HEIGHT 2 (λ _ s,
              '(o, op, ou, ov', b, bp, bu, bv, bg) ← for_u32 ONE_MB_Y_WIDTH 2
                (λ _ '(o, op, ou, ov', b, bp, bu, bv, bg),
                  '(o, b, bg) ← mb_pair ov key ou ov' bu bv (o, b, bg);
                  '(op, bp, bg) ← mb_pair ov key ou ov' bu bv (op, bp, bg);
                  Ok (o, op, ou + 1, ov' + 1, b, bp, bu + 1, bv + 1, bg)) s;
              Ok (o + ONE_MB_Y_WIDTH, op + ONE_MB_Y_WIDTH, ou + ONE_MB_UV_WIDTH, ov' + ONE_MB_UV_WIDTH,
                  b + ONE_MB_Y_WIDTH, bp + ONE_MB_Y_WIDTH, bu + ONE_MB_UV_WIDTH, bv + ONE_MB_UV_WIDTH, bg)) s)
        (o, op, ou, ov', b, bp, bu, bv, bg);
      Ok (o, op, ou, ov', u32 (py + ONE_MB_Y_HEIGHT), bg))
    (0, ONE_MB_Y_WIDTH, u32 (w * h), u32 (w * h) + ONE_MB_UV_WIDTH, u32PosY, bg);
  Ok bg.

Definition supported (eBGColor : E_IMGPROC_COLOR_FORMAT) : bool :=
  match eBGColor with
  | eIMGPROC_YUV422 | eIMGPROC_YUV422P | eIMGPROC_YUV420 | eIMGPROC_YUV420P | eIMGPROC_YUV420P_MB => true
  | _ => false
  end.

(** The blocks TextOverlap_Init takes from malloc. *)
Inductive block := BlkTextImg | BlkTextBGImg | BlkHandle.

#[global] Instance block_eq_dec : EqDecision block.
Proof. solve_decision. Defined.

Definition free (used : list block) (b : block) : list block := filter (.≠ b) used.

(** [img1], [img2] are what malloc returns for the two images of the given size
    and [junk] the two fields of the handle that are not set; [None] when malloc
    fails. The blocks in use afterwards come with the handle. *)
Definition TextOverlap_Init (fw fh : Z) (eBGColor : E_IMGPROC_COLOR_FORMAT) (u32MaxTexts keyY keyU keyV : Z)
    (img1 img2 : Z → option (list Z)) (junk : option (Z * Z)) : option S_TEXT_OVERLAP * list block :=
  let u32TextImgSize := u32 (fw * fh * u32MaxTexts * 2) in
  if negb (supported eBGColor) then (None, []) else
  if (bool_decide (eBGColor = eIMGPROC_YUV420P_MB) && negb (fw `mod` (ONE_MB_Y_WIDTH `quot` 2) =? 0))%bool
  then (None, []) else
  if (bool_decide (eBGColor = eIMGPROC_YUV420P_MB) && negb (fh `mod` ONE_MB_Y_HEIGHT =? 0))%bool
  then (None, []) else
  match img1 u32TextImgSize with
  | None => (None, [])
  | Some textimg =>
      let used := [BlkTextImg] in
      match img2 u32TextImgSize with
      | None => (None, free used BlkTextImg)
      | Some textbgimg =>
          let used := BlkTextBGImg :: used in
          match junk with
          | None => (None, free (free used BlkTextImg) BlkTextBGImg)
          | Some (w, h) => (Some (mkText fw fh u32MaxTexts textimg textbgimg w h keyY keyU keyV), BlkHandle :: used)
          end
      end
  end.

(** The handle and the frame afterwards, with the value returned. *)
Definition TextOverlap_Overlap (hTextOverlap : option S_TEXT_OVERLAP) (apu8TextAddr : list (list Z)) (u32NumTexts : Z)
    (bg : list Z) (eBGColor : E_IMGPROC_COLOR_FORMAT) (u32BGImgWidth u32BGImgHeight u32PosX u32PosY : Z)
    : res (option S_TEXT_OVERLAP * list Z * Z) :=
  match hTextOverlap with
  | None => Ok (None, bg, eTEXT_OVERLAP_ERROR_INVALID_HANDLE)
  | Some ps =>
      if decide (u32NumTexts > u32MaxTexts ps) then Ok (Some ps, bg, eTEXT_OVERLAP_ERROR_SIZE) else
      if decide (u32 (u32PosY + u32FontHeight ps) > u32BGImgHeight) then Ok (Some ps, bg, eTEXT_OVERLAP_ERROR_SIZE) else
      let px := if decide (Z.land u32PosX 1 ≠ 0) then u32PosX - 1 else u32PosX in
      let py := if decide (eBGColor = eIMGPROC_YUV420 ∨ eBGColor = eIMGPROC_YUV420P)
                then if decide (Z.land u32PosY 1 ≠ 0) then u32PosY - 1 else u32PosY
                else u32PosY in
      if decide (eBGColor = eIMGPROC_YUV420P_MB ∧
                 (Z.land (u32 (u32FontWidth ps * u32NumTexts)) (ONE_MB_Y_WIDTH - 1) ≠ 0 ∨
                  Z.land px (ONE_MB_Y_WIDTH - 1) ≠ 0 ∨ Z.land py (ONE_MB_Y_HEIGHT - 1) ≠ 0))
      then Ok (Some ps, bg, eTEXT_OVERLAP_ERROR_MB_BOUNDARY) else
      ps ← PackTextImg ps apu8TextAddr u32NumTexts;
      ps ← ColorTrans ps eBGColor;
      bg ← match eBGColor with
           | eIMGPROC_YUV420P_MB => Overlap_YUV420MB ps bg u32BGImgWidth u32BGImgHeight px py
           | eIMGPROC_YUV422 => Overlap_YUV422 ps bg u32BGImgWidth u32BGImgHeight px py
           | eIMGPROC_YUV422P => Overlap_YUV422P ps bg u32BGImgWidth u32BGImgHeight px py
           | eIMGPROC_YUV420 => Overlap_YUV420 ps bg u32BGImgWidth u32BGImgHeight px py
           | eIMGPROC_YUV420P => Overlap_YUV420P ps bg u32BGImgWidth u32BGImgHeight px py
           | _ => Ok bg
           end;
      Ok (Some ps, bg, eTEXT_OVERLAP_ERROR_NONE)
  end.

(** [phTextOverlap] is null or the address of a handle; the result is what is
    left in it, and the blocks in use. *)
Definition TextOverlap_UnInit (phTextOverlap : option (option S_TEXT_OVERLAP)) (used : list block)
    : option (option S_TEXT_OVERLAP) * list block :=
  match phTextOverlap with
  | None => (None, used)
  | Some None => (Some None, used)
  | Some (Some _) => (Some None, free (free (free used BlkTextImg) BlkTextBGImg) BlkHandle)
  end.

End Text.

(** ** A picture on a frame (ImgOverlap.c) *)

Module Img.

Definition eIMG_OVERLAP_ERROR_NONE : Z := 0.
Definition eIMG_OVERLAP_ERROR_MB_BOUNDARY : Z := -3.

(** u32CopyImgWidth and u32CopyImgHeight: what of a length at a position is inside
    the frame. *)
Definition clip (pos len limit : Z) : Z := if decide (u32 (pos + len) > limit) then u32 (limit - pos) else len.

Definition Overlap_YUV422 (bg : list Z) (W H : Z) (op : list Z) (ow oh px py : Z) : res (list Z) :=
  let cw := clip px ow W in
  let ch := clip py oh H in
  '(_, bg) ← for_u32 ch 1 (λ _ '(b, o, bg),
      bg ← memcpy bg b op o (u32 (cw * 2));
      Ok (b + u32 (W * 2), o + u32 (ow * 2), bg)) (u32 (u32 (py * W + px) * 2), 0, bg);
  Ok bg.

Definition Overlap_YUV420 (bg : list Z) (W H : Z) (op : list Z) (ow oh px py : Z) : res (list Z) :=
  let cw := clip px ow W in
  let ch := clip py oh H in
  '(_, bg) ← for_u32 ch 1 (λ _ '(b, o, bg),
      bg ← memcpy bg b op o (u32 (cw `div` 2 * 3));
      Ok (b + u32 (W `div` 2 * 3), o + u32 (ow `div` 2 * 3), bg)) (u32 (u32 (py * W + px) `div` 2 * 3), 0, bg);
  Ok bg.

Definition Overlap_YUV422P (bg : list Z) (W H : Z) (op : list Z) (ow oh px py : Z) : res (list Z) :=
  let cw := clip px ow W in
  let ch := clip py oh H in
  let bgU := u32 (W * H) + u32 (py * W + px) `div` 2 in
  let opU := u32 (ow * oh) in
  '(_, bg) ← for_u32 ch 1 (λ _ '(b, bu, bv, o, ou, ov, bg),
      bg ← memcpy bg b op o cw;
      bg ← memcpy bg bu op ou (cw `div` 2);
      bg ← memcpy bg bv op ov (cw `div` 2);
      Ok (b + W, bu + W `div` 2, bv + W `div` 2, o + ow, ou + ow `div` 2, ov + ow `div` 2, bg))
    (u32 (py * W + px), bgU, bgU + u32 (W * H) `div` 2, 0, opU, opU + u32 (ow * oh) `div` 2, bg);
  Ok bg.

Definition Overlap_YUV420P (bg : list Z) (W H : Z) (op : list Z) (ow oh px py : Z) : res (list Z) :=
  let cw := clip px ow W in
  let ch := clip py oh H in
  let bgU := u32 (W * H) + u32 (py `div` 2 * (W `div` 2) + px `div` 2) in
  let opU := u32 (ow * oh) in
  '(_, bg) ← for_u32 ch 2 (λ _ '(b, bu, bv, o, ou, ov, bg),
      let bn := b + W in
      let on := o + ow in
      bg ← memcpy bg b op o cw;
      bg ← memcpy bg bn op on cw;
      bg ← memcpy bg bu op ou (cw `div` 2);
      bg ← memcpy bg bv op ov (cw `div` 2);
      Ok (b + u32 (W * 2), bu + W `div` 2, bv + W `div` 2, o + u32 (ow * 2), ou + ow `div` 2, ov + ow `div` 2, bg))
    (u32 (py * W + px), bgU, bgU + u32 (W * H) `div` 4, 0, opU, opU + u32 (ow * oh) `div` 4, bg);
  Ok bg.

Definition Overlap_YUV420MB (bg : list Z) (W H : Z) (op : list Z) (ow oh px py : Z) : res (list Z) :=
  let mw := ow `div` ONE_MB_Y_WIDTH in
  let cmw := clip px ow W `div` ONE_MB_Y_WIDTH in
  let cmh := clip py oh H `div` ONE_MB_Y_HEIGHT in
  '(_, bg) ← for_u32 cmh 1 (λ _ '(o, ou, py, bg),
      let b := Text.mb_pos_y W px py in
      let bu := u32 (W * H) + Text.mb_pos_uv W px py in
      bg ← memcpy bg b op o (u32 (ONE_MB_Y_SIZE * cmw));
      bg ← memcpy bg bu op ou (u32 (ONE_MB_UV_SIZE * cmw));
      Ok (o + u32 (ONE_MB_Y_SIZE * mw), ou + u32 (ONE_MB_UV_SIZE * mw), u32 (py + ONE_MB_Y_HEIGHT), bg))
    (0, u32 (ow * oh), py, bg);
  Ok bg.

Definition ImgOverlap_Overlap (eBGColor : E_IMGPROC_COLOR_FORMAT) (bg : list Z) (W H : Z) (op : list Z)
    (ow oh posx posy : Z) : res (list Z * Z) :=
  let px := if decide (Z.land posx 1 ≠ 0) then posx - 1 else posx in
  let py := if decide (eBGColor = eIMGPROC_YUV420 ∨ eBGColor = eIMGPROC_YUV420P)
            then if decide (Z.land posy 1 ≠ 0) then posy - 1 else posy
            else posy in
  if decide (eBGColor = eIMGPROC_YUV420P_MB ∧
             (Z.land ow (ONE_MB_Y_WIDTH - 1) ≠ 0 ∨ Z.land oh (ONE_MB_Y_HEIGHT - 1) ≠ 0 ∨
              Z.land px (ONE_MB_Y_WIDTH - 1) ≠ 0 ∨ Z.land py (ONE_MB_Y_HEIGHT - 1) ≠ 0))
  then Ok (bg, eIMG_OVERLAP_ERROR_MB_BOUNDARY) else
  bg ← match eBGColor with
       | eIMGPROC_YUV420P_MB => Overlap_YUV420MB bg W H op ow oh px py
       | eIMGPROC_YUV422 => Overlap_YUV422 bg W H op ow oh px py
       | eIMGPROC_YUV422P => Overlap_YUV422P bg W H op ow oh px py
       | eIMGPROC_YUV420 => Overlap_YUV420 bg W H op ow oh px py
       | eIMGPROC_YUV420P => Overlap_YUV420P bg W H op ow oh px py
       | _ => Ok bg
       end;
  Ok (bg, eIMG_OVERLAP_ERROR_NONE).

End Img.

(** ** The date (Digit_8_16.h and OverlapText of encoder-jpeg.c) *)

Module Date.
Import Text.

Definition DIGIT_8_16_WIDTH : Z := 8.
Definition DIGIT_8_16_HEIGHT : Z := 16.
Definition DEF_MAX_OVERLAP_TEXT : Z := 32.

(** The glyphs: luma and chroma of 16 rows of 8 pixels; the colour key is white
    (luma 255). *)
Definition s_achPic_8_16_D0 : list Z :=
  [255; 128; 255; 128; 255; 128; 255; 128; 255; 128; 255; 128; 255; 128; 255; 128;
   255; 128; 255; 128; 255; 128; 255; 128; 255; 128; 255; 128; 255; 128; 255; 128;
   255; 128; 255; 128; 255; 128; 255; 128; 255; 128; 255; 128; 255; 128; 255; 128;
   255; 128; 255; 128; 255; 128; 255; 128; 255; 128; 255; 128; 255; 128; 255; 128;
   255; 128; 255; 128; 155; 62; 155; 199; 155; 62; 155; 199; 255; 128; 255; 128;
   255; 95; 155; 164; 155; 95; 255; 164; 255; 95; 155; 164; 155; 95; 255; 164;
   255; 95; 155; 164; 155; 95; 255; 164; 255; 95; 155; 164; 155; 95; 255; 164;
   155; 62; 155; 199; 255; 128; 255; 128; 255; 128; 255; 128; 155; 62; 155; 199;
   155; 62; 155; 199; 255; 128; 255; 128; 255; 128; 255; 128; 155; 62; 155; 199;
   155; 62; 155; 199; 255; 128; 255; 128; 255; 128; 255; 128; 155; 62; 155; 199;
   155; 62; 155; 199; 255; 128; 255; 128; 255; 128; 255; 128; 155; 62; 155; 199;
   155; 62; 155; 199; 255; 128; 255; 128; 255; 128; 255; 128; 155; 62; 155; 199;
   155; 62; 155; 199; 255; 128; 255; 128; 255; 128; 255; 128; 155; 62; 155; 199;
   255; 95; 155; 164; 155; 95; 255; 164; 255; 95; 155; 164; 155; 95; 255; 164;
   255; 95; 155; 164; 155; 95; 255; 164; 255; 95; 155; 164; 155; 95; 255; 164;
   255; 128; 255; 128; 155; 62; 155; 199; 155; 62; 155; 199; 255; 128; 255; 128].
Definition s_achPic_8_16_D1 : list Z :=
  [255; 128; 255; 128; 255; 128; 255; 128; 255; 128; 255; 128; 255; 128; 255; 128;
   255; 128; 255; 128; 255; 128; 255; 128; 255; 128; 255; 128; 255; 128; 255; 128;
   255; 128; 255; 128; 255; 128; 255; 128; 255; 128; 255; 128; 255; 128; 255; 128;
   255; 128; 255; 128; 255; 128; 255; 128; 255; 128; 255; 128; 255; 128; 255; 128;
   255; 128; 255; 128; 255; 95; 155; 164; 155; 95; 255; 164; 255; 128; 255; 128;
   255; 128; 255; 128; 155; 62; 155; 199; 155; 95; 255; 164; 255; 128; 255; 128;
   255; 128; 255; 128; 255; 95; 155; 164; 155; 95; 255; 164; 255; 128; 255; 128;
   255; 128; 255; 128; 255; 95; 155; 164; 155; 95; 255; 164; 255; 128; 255; 128;
   255; 128; 255; 128; 255; 95; 155; 164; 155; 95; 255; 164; 255; 128; 255; 128;
   255; 128; 255; 128; 255; 95; 155; 164; 155; 95; 255; 164; 255; 128; 255; 128;
   255; 128; 255; 128; 255; 95; 155; 164; 155; 95; 255; 164; 255; 128; 255; 128;
   255; 128; 255; 128; 255; 95; 155; 164; 155; 95; 255; 164; 255; 128; 255; 128;
   255; 128; 255; 128; 255; 95; 155; 164; 155; 95; 255; 164; 255; 128; 255; 128;
   255; 128; 255; 128; 255; 95; 155; 164; 155; 95; 255; 164; 255; 128; 255; 128;
   255; 128; 255; 128; 255; 95; 155; 164; 155; 95; 255; 164; 255; 128; 255; 128;
   255; 95; 155; 164; 155; 62; 155; 199; 155; 62; 155; 199; 155; 95; 255; 164].
Definition s_achPic_8_16_D2 : list Z :=
  [255; 128; 255; 128; 255; 128; 255; 128; 255; 128; 255; 128; 255; 128; 255; 128;
   255; 128; 255; 128; 255; 128; 255; 128; 255; 128; 255; 128; 255; 128; 255; 128;
   255; 128; 255; 128; 255; 128; 255; 128; 255; 128; 255; 128; 255; 128; 255; 128;
   255; 128; 255; 128; 255; 128; 255; 128; 255; 128; 255; 128; 255; 128; 255; 128;
   255; 95; 155; 164; 155; 62; 155; 199; 155; 62; 155; 199; 255; 128; 255; 128;
   155; 62; 155; 199; 255; 128; 255; 128; 255; 95; 155; 164; 155; 95; 255; 164;
   155; 62; 155; 199; 255; 128; 255; 128; 255; 128; 255; 128; 155; 62; 155; 199;
   255; 128; 255; 128; 255; 128; 255; 128; 255; 128; 255; 128; 155; 62; 155; 199;
   255; 128; 255; 128; 255; 128; 255; 128; 255; 128; 255; 128; 155; 62; 155; 199;
   255; 128; 255; 128; 255; 128; 255; 128; 255; 95; 155; 164; 155; 95; 255; 164;
   255; 128; 255; 128; 255; 128; 255; 128; 155; 62; 155; 199; 255; 128; 255; 128;
   255; 128; 255; 128; 255; 95; 155; 164; 155; 95; 255; 164; 255; 128; 255; 128;
   255; 128; 255; 128; 155; 62; 155; 199; 255; 128; 255; 128; 255; 128; 255; 128;
   255; 95; 155; 164; 155; 95; 255; 164; 255; 128; 255; 128; 255; 128; 255; 128;
   155; 62; 155; 199; 255; 128; 255; 128; 255; 128; 255; 128; 155; 62; 155; 199;
   155; 62; 155; 199; 155; 62; 155; 199; 155; 62; 155; 199; 155; 62; 155; 199].
Definition s_achPic_8_16_D3 : list Z :=
  [255; 128; 255; 128; 255; 128; 255; 128; 255; 128; 255; 128; 255; 128; 255; 128;
   255; 128; 255; 128; 255; 128; 255; 128; 255; 128; 255; 128; 255; 128; 255; 128;
   255; 128; 255; 128; 255; 128; 255; 128; 255; 128; 255; 128; 255; 128; 255; 128;
   255; 128; 255; 128; 255; 128; 255; 128; 255; 128; 255; 128; 255; 128; 255; 128;
   255; 128; 255; 128; 155; 62; 155; 199; 155; 62; 155; 199; 255; 128; 255; 128;
   255; 95; 155; 164; 155; 95; 255; 164; 255; 95; 155; 164; 155; 95; 255; 164;
   255; 128; 255; 128; 255; 128; 255; 128; 255; 95; 155; 164; 155; 95; 255; 164;
   255; 128; 255; 128; 255; 128; 255; 128; 255; 95; 155; 164; 155; 95; 255; 164;
   255; 128; 255; 128; 255; 128; 255; 128; 155; 62; 155; 199; 255; 128; 255; 128;
   255; 128; 255; 128; 155; 62; 155; 199; 155; 62; 155; 199; 255; 128; 255; 128;
   255; 128; 255; 128; 255; 128; 255; 128; 255; 95; 155; 164; 155; 95; 255; 164;
   255; 128; 255; 128; 255; 128; 255; 128; 255; 128; 255; 128; 155; 62; 155; 199;
   255; 128; 255; 128; 255; 128; 255; 128; 255; 128; 255; 128; 155; 62; 155; 199;
   255; 128; 255; 128; 255; 128; 255; 128; 255; 128; 255; 128; 155; 62; 155; 199;
   155; 62; 155; 199; 255; 128; 255; 128; 255; 95; 155; 164; 155; 95; 255; 164;
   255; 95; 155; 164; 155; 62; 155; 199; 155; 62; 155; 199; 255; 128; 255; 128].
Definition s_achPic_8_16_D4 : list Z :=
  [255; 128; 255; 128; 255; 128; 255; 128; 255; 128; 255; 128; 255; 128; 255; 128;
   255; 128; 255; 128; 255; 128; 255; 128; 255; 128; 255; 128; 255; 128; 255; 128;
   255; 128; 255; 128; 255; 128; 255; 128; 255; 128; 255; 128; 255; 128; 255; 128;
   255; 128; 255; 128; 255; 128; 255; 128; 255; 128; 255; 128; 255; 128; 255; 128;
   255; 128; 255; 128; 255; 128; 255; 128; 155; 62; 155; 199; 255; 128; 255; 128;
   255; 128; 255; 128; 255; 95; 155; 164; 155; 62; 155; 199; 255; 128; 255; 128;
   255; 128; 255; 128; 255; 95; 155; 164; 155; 62; 155; 199; 255; 128; 255; 128;
   255; 128; 255; 128; 155; 62; 155; 199; 155; 62; 155; 199; 255; 128; 255; 128;
   255; 128; 255; 128; 155; 62; 155; 199; 155; 62; 155; 199; 255; 128; 255; 128;
   255; 95; 155; 164; 155; 95; 255; 164; 155; 62; 155; 199; 255; 128; 255; 128;
   255; 95; 155; 164; 155; 95; 255; 164; 155; 62; 155; 199; 255; 128; 255; 128;
   155; 62; 155; 199; 255; 128; 255; 128; 155; 62; 155; 199; 255; 128; 255; 128;
   155; 62; 155; 199; 155; 62; 155; 199; 155; 62; 155; 199; 155; 62; 155; 199;
   255; 128; 255; 128; 255; 128; 255; 128; 155; 62; 155; 199; 255; 128; 255; 128;
   255; 128; 255; 128; 255; 128; 255; 128; 155; 62; 155; 199; 255; 128; 255; 128;
   255; 128; 255; 128; 255; 128; 255; 128; 155; 62; 155; 199; 255; 128; 255; 128].
Definition s_achPic_8_16_D5 : list Z :=
  [255; 128; 255; 128; 255; 128; 255; 128; 255; 128; 255; 128; 255; 128; 255; 128;
   255; 128; 255; 128; 255; 128; 255; 128; 255; 128; 255; 128; 255; 128; 255; 128;
   255; 128; 255; 128; 255; 128; 255; 128; 255; 128; 255; 128; 255; 128; 255; 128;
   255; 128; 255; 128; 255; 128; 255; 128; 255; 128; 255; 128; 255; 128; 255; 128;
   255; 95; 155; 164; 155; 62; 155; 199; 155; 62; 155; 199; 155; 62; 155; 199;
   255; 95; 155; 164; 155; 95; 255; 164; 255; 128; 255; 128; 255; 128; 255; 128;
   255; 95; 155; 164; 155; 95; 255; 164; 255; 128; 255; 128; 255; 128; 255; 128;
   255; 95; 155; 164; 155; 95; 255; 164; 255; 128; 255; 128; 255; 128; 255; 128;
   255; 95; 155; 164; 155; 62; 155; 199; 155; 62; 155; 199; 255; 128; 255; 128;
   255; 128; 255; 128; 255; 128; 255; 128; 255; 95; 155; 164; 155; 95; 255; 164;
   255; 128; 255; 128; 255; 128; 255; 128; 255; 128; 255; 128; 155; 62; 155; 199;
   255; 128; 255; 128; 255; 128; 255; 128; 255; 128; 255; 128; 155; 62; 155; 199;
   255; 128; 255; 128; 255; 128; 255; 128; 255; 128; 255; 128; 155; 62; 155; 199;
   255; 128; 255; 128; 255; 128; 255; 128; 255; 128; 255; 128; 155; 62; 155; 199;
   155; 62; 155; 199; 255; 128; 255; 128; 255; 95; 155; 164; 155; 95; 255; 164;
   255; 95; 155; 164; 155; 62; 155; 199; 155; 62; 155; 199; 255; 128; 255; 128].
Definition s_achPic_8_16_D6 : list Z :=
  [255; 128; 255; 128; 255; 128; 255; 128; 255; 128; 255; 128; 255; 128; 255; 128;
   255; 128; 255; 128; 255; 128; 255; 128; 255; 128; 255; 128; 255; 128; 255; 128;
   255; 128; 255; 128; 255; 128; 255; 128; 255; 128; 255; 128; 255; 128; 255; 128;
   255; 128; 255; 128; 255; 128; 255; 128; 255; 128; 255; 128; 255; 128; 255; 128;
   255; 128; 255; 128; 255; 95; 155; 164; 155; 62; 155; 199; 155; 95; 255; 164;
   255; 128; 255; 128; 155; 62; 155; 199; 255; 128; 255; 128; 255; 128; 255; 128;
   255; 95; 155; 164; 155; 95; 255; 164; 255; 128; 255; 128; 255; 128; 255; 128;
   155; 72; 185; 189; 255; 128; 255; 128; 255; 128; 255; 128; 255; 128; 255; 128;
   155; 72; 185; 189; 155; 62; 155; 199; 155; 62; 155; 199; 255; 128; 255; 128;
   155; 62; 155; 199; 155; 95; 255; 164; 255; 95; 155; 164; 155; 95; 255; 164;
   155; 72; 185; 189; 255; 128; 255; 128; 255; 128; 255; 128; 155; 62; 155; 199;
   155; 72; 185; 189; 255; 128; 255; 128; 255; 128; 255; 128; 155; 62; 155; 199;
   155; 72; 185; 189; 255; 128; 255; 128; 255; 128; 255; 128; 155; 62; 155; 199;
   155; 72; 185; 189; 255; 128; 255; 128; 255; 128; 255; 128; 155; 62; 155; 199;
   255; 95; 155; 164; 155; 95; 255; 164; 255; 95; 155; 164; 155; 95; 255; 164;
   255; 128; 255; 128; 155; 62; 155; 199; 155; 62; 155; 199; 255; 128; 255; 128].
Definition s_achPic_8_16_D7 : list Z :=
  [255; 128; 255; 128; 255; 128; 255; 128; 255; 128; 255; 128; 255; 128; 255; 128;
   255; 128; 255; 128; 255; 128; 255; 128; 255; 128; 255; 128; 255; 128; 255; 128;
   255; 128; 255; 128; 255; 128; 255; 128; 255; 128; 255; 128; 255; 128; 255; 128;
   255; 128; 255; 128; 255; 128; 255; 128; 255; 128; 255; 128; 255; 128; 255; 128;
   155; 62; 155; 199; 155; 62; 155; 199; 155; 62; 155; 199; 155; 62; 155; 199;
   155; 62; 155; 199; 255; 128; 255; 128; 255; 128; 255; 128; 155; 62; 155; 199;
   155; 62; 155; 199; 255; 128; 255; 128; 255; 128; 255; 128; 155; 62; 155; 199;
   255; 128; 255; 128; 255; 128; 255; 128; 255; 95; 155; 164; 155; 95; 255; 164;
   255; 128; 255; 128; 255; 128; 255; 128; 255; 95; 155; 164; 155; 95; 255; 164;
   255; 128; 255; 128; 255; 128; 255; 128; 255; 95; 155; 164; 155; 95; 255; 164;
   255; 128; 255; 128; 255; 128; 255; 128; 155; 62; 155; 199; 255; 128; 255; 128;
   255; 128; 255; 128; 255; 128; 255; 128; 155; 62; 155; 199; 255; 128; 255; 128;
   255; 128; 255; 128; 255; 128; 255; 128; 155; 62; 155; 199; 255; 128; 255; 128;
   255; 128; 255; 128; 255; 95; 155; 164; 155; 95; 255; 164; 255; 128; 255; 128;
   255; 128; 255; 128; 255; 95; 155; 164; 155; 95; 255; 164; 255; 128; 255; 128;
   255; 128; 255; 128; 255; 95; 155; 164; 155; 95; 255; 164; 255; 128; 255; 128].
Definition s_achPic_8_16_D8 : list Z :=
  [255; 128; 255; 128; 255; 128; 255; 128; 255; 128; 255; 128; 255; 128; 255; 128;
   255; 128; 255; 128; 255; 128; 255; 128; 255; 128; 255; 128; 255; 128; 255; 128;
   255; 128; 255; 128; 255; 128; 255; 128; 255; 128; 255; 128; 255; 128; 255; 128;
   255; 128; 255; 128; 255; 128; 255; 128; 255; 128; 255; 128; 255; 128; 255; 128;
   255; 128; 255; 128; 155; 62; 155; 199; 155; 62; 155; 199; 255; 128; 255; 128;
   255; 95; 155; 164; 155; 95; 255; 164; 255; 95; 155; 164; 155; 95; 255; 164;
   155; 62; 155; 199; 255; 128; 255; 128; 255; 128; 255; 128; 155; 62; 155; 199;
   155; 62; 155; 199; 255; 128; 255; 128; 255; 128; 255; 128; 155; 62; 155; 199;
   255; 95; 155; 164; 155; 95; 255; 164; 255; 95; 155; 164; 155; 95; 255; 164;
   255; 128; 255; 128; 155; 62; 155; 199; 155; 62; 155; 199; 255; 128; 255; 128;
   255; 95; 155; 164; 155; 95; 255; 164; 255; 95; 155; 164; 155; 95; 255; 164;
   155; 62; 155; 199; 255; 128; 255; 128; 255; 128; 255; 128; 155; 62; 155; 199;
   155; 62; 155; 199; 255; 128; 255; 128; 255; 128; 255; 128; 155; 62; 155; 199;
   155; 62; 155; 199; 255; 128; 255; 128; 255; 128; 255; 128; 155; 62; 155; 199;
   255; 95; 155; 164; 155; 95; 255; 164; 255; 95; 155; 164; 155; 95; 255; 164;
   255; 128; 255; 128; 155; 62; 155; 199; 155; 62; 155; 199; 255; 128; 255; 128].
Definition s_achPic_8_16_D9 : list Z :=
  [255; 128; 255; 128; 255; 128; 255; 128; 255; 128; 255; 128; 255; 128; 255; 128;
   255; 128; 255; 128; 255; 128; 255; 128; 255; 128; 255; 128; 255; 128; 255; 128;
   255; 128; 255; 128; 255; 128; 255; 128; 255; 128; 255; 128; 255; 128; 255; 128;
   255; 128; 255; 128; 255; 128; 255; 128; 255; 128; 255; 128; 255; 128; 255; 128;
   255; 128; 255; 128; 155; 62; 155; 199; 155; 62; 155; 199; 255; 128; 255; 128;
   255; 95; 155; 164; 155; 95; 255; 164; 255; 95; 155; 164; 155; 95; 255; 164;
   155; 62; 155; 199; 255; 128; 255; 128; 255; 128; 255; 128; 155; 62; 155; 199;
   155; 62; 155; 199; 255; 128; 255; 128; 255; 128; 255; 128; 155; 62; 155; 199;
   155; 62; 155; 199; 255; 128; 255; 128; 255; 128; 255; 128; 155; 62; 155; 199;
   155; 62; 155; 199; 255; 128; 255; 128; 255; 128; 255; 128; 155; 62; 155; 199;
   255; 95; 155; 164; 155; 95; 255; 164; 255; 95; 155; 164; 155; 62; 155; 199;
   255; 128; 255; 128; 155; 62; 155; 199; 155; 85; 225; 175; 155; 62; 155; 199;
   255; 128; 255; 128; 255; 128; 255; 128; 255; 128; 255; 128; 155; 62; 155; 199;
   255; 128; 255; 128; 255; 128; 255; 128; 255; 95; 155; 164; 155; 95; 255; 164;
   255; 128; 255; 128; 255; 128; 255; 128; 155; 62; 155; 199; 255; 128; 255; 128;
   255; 95; 155; 164; 155; 62; 155; 199; 155; 95; 255; 164; 255; 128; 255; 128].
Definition s_achPic_8_16_Blank : list Z :=
  [255; 128; 255; 128; 255; 128; 255; 128; 255; 128; 255; 128; 255; 128; 255; 128;
   255; 128; 255; 128; 255; 128; 255; 128; 255; 128; 255; 128; 255; 128; 255; 128;
   255; 128; 255; 128; 255; 128; 255; 128; 255; 128; 255; 128; 255; 128; 255; 128;
   255; 128; 255; 128; 255; 128; 255; 128; 255; 128; 255; 128; 255; 128; 255; 128;
   255; 128; 255; 128; 255; 128; 255; 128; 255; 128; 255; 128; 255; 128; 255; 128;
   255; 128; 255; 128; 255; 128; 255; 128; 255; 128; 255; 128; 255; 128; 255; 128;
   255; 128; 255; 128; 255; 128; 255; 128; 255; 128; 255; 128; 255; 128; 255; 128;
   255; 128; 255; 128; 255; 128; 255; 128; 255; 128; 255; 128; 255; 128; 255; 128;
   255; 128; 255; 128; 255; 128; 255; 128; 255; 128; 255; 128; 255; 128; 255; 128;
   255; 128; 255; 128; 255; 128; 255; 128; 255; 128; 255; 128; 255; 128; 255; 128;
   255; 128; 255; 128; 255; 128; 255; 128; 255; 128; 255; 128; 255; 128; 255; 128;
   255; 128; 255; 128; 255; 128; 255; 128; 255; 128; 255; 128; 255; 128; 255; 128;
   255; 128; 255; 128; 255; 128; 255; 128; 255; 128; 255; 128; 255; 128; 255; 128;
   255; 128; 255; 128; 255; 128; 255; 128; 255; 128; 255; 128; 255; 128; 255; 128;
   255; 128; 255; 128; 255; 128; 255; 128; 255; 128; 255; 128; 255; 128; 255; 128;
   255; 128; 255; 128; 255; 128; 255; 128; 255; 128; 255; 128; 255; 128; 255; 128].
Definition s_achPic_8_16_Colon : list Z :=
  [255; 128; 255; 128; 255; 128; 255; 128; 255; 128; 255; 128; 255; 128; 255; 128;
   255; 128; 255; 128; 255; 128; 255; 128; 255; 128; 255; 128; 255; 128; 255; 128;
   255; 128; 255; 128; 255; 128; 255; 128; 255; 128; 255; 128; 255; 128; 255; 128;
   255; 128; 255; 128; 255; 128; 255; 128; 255; 128; 255; 128; 255; 128; 255; 128;
   255; 128; 255; 128; 255; 128; 255; 128; 255; 128; 255; 128; 255; 128; 255; 128;
   255; 128; 255; 128; 255; 128; 255; 128; 255; 128; 255; 128; 255; 128; 255; 128;
   255; 128; 255; 128; 255; 95; 155; 164; 155; 95; 255; 164; 255; 128; 255; 128;
   255; 128; 255; 128; 255; 95; 155; 164; 155; 95; 255; 164; 255; 128; 255; 128;
   255; 128; 255; 128; 255; 128; 255; 128; 255; 128; 255; 128; 255; 128; 255; 128;
   255; 128; 255; 128; 255; 128; 255; 128; 255; 128; 255; 128; 255; 128; 255; 128;
   255; 128; 255; 128; 255; 128; 255; 128; 255; 128; 255; 128; 255; 128; 255; 128;
   255; 128; 255; 128; 255; 128; 255; 128; 255; 128; 255; 128; 255; 128; 255; 128;
   255; 128; 255; 128; 255; 95; 155; 164; 155; 95; 255; 164; 255; 128; 255; 128;
   255; 128; 255; 128; 255; 95; 155; 164; 155; 95; 255; 164; 255; 128; 255; 128;
   255; 128; 255; 128; 255; 128; 255; 128; 255; 128; 255; 128; 255; 128; 255; 128;
   255; 128; 255; 128; 255; 128; 255; 128; 255; 128; 255; 128; 255; 128; 255; 128].
Definition s_achPic_8_16_Slash : list Z :=
  [255; 128; 255; 128; 255; 128; 255; 128; 255; 128; 255; 128; 255; 128; 255; 128;
   255; 128; 255; 128; 255; 128; 255; 128; 255; 128; 255; 128; 255; 128; 255; 128;
   255; 128; 255; 128; 255; 128; 255; 128; 255; 128; 255; 128; 255; 128; 255; 128;
   255; 128; 255; 128; 255; 128; 255; 128; 255; 128; 255; 128; 255; 128; 255; 128;
   255; 128; 255; 128; 255; 95; 155; 164; 155; 95; 255; 164; 255; 128; 255; 128;
   255; 128; 255; 128; 255; 95; 155; 164; 155; 95; 255; 164; 255; 128; 255; 128;
   255; 128; 255; 128; 255; 95; 155; 164; 155; 95; 255; 164; 255; 128; 255; 128;
   255; 128; 255; 128; 155; 62; 155; 199; 255; 128; 255; 128; 255; 128; 255; 128;
   255; 128; 255; 128; 155; 62; 155; 199; 255; 128; 255; 128; 255; 128; 255; 128;
   255; 128; 255; 128; 155; 62; 155; 199; 255; 128; 255; 128; 255; 128; 255; 128;
   255; 95; 155; 164; 155; 95; 255; 164; 255; 128; 255; 128; 255; 128; 255; 128;
   255; 95; 155; 164; 155; 95; 255; 164; 255; 128; 255; 128; 255; 128; 255; 128;
   255; 95; 155; 164; 155; 95; 255; 164; 255; 128; 255; 128; 255; 128; 255; 128;
   155; 62; 155; 199; 255; 128; 255; 128; 255; 128; 255; 128; 255; 128; 255; 128;
   155; 62; 155; 199; 255; 128; 255; 128; 255; 128; 255; 128; 255; 128; 255; 128;
   155; 62; 155; 199; 255; 128; 255; 128; 255; 128; 255; 128; 255; 128; 255; 128].

(** The code book. *)
Definition glyph_of (c : Z) : list Z :=
  if decide (c = 48) then s_achPic_8_16_D0 else
  if decide (c = 49) then s_achPic_8_16_D1 else
  if decide (c = 50) then s_achPic_8_16_D2 else
  if decide (c = 51) then s_achPic_8_16_D3 else
  if decide (c = 52) then s_achPic_8_16_D4 else
  if decide (c = 53) then s_achPic_8_16_D5 else
  if decide (c = 54) then s_achPic_8_16_D6 else
  if decide (c = 55) then s_achPic_8_16_D7 else
  if decide (c = 56) then s_achPic_8_16_D8 else
  if decide (c = 57) then s_achPic_8_16_D9 else
  if decide (c = 58) then s_achPic_8_16_Colon else
  if decide (c = 47) then s_achPic_8_16_Slash else s_achPic_8_16_Blank.

(** The colour types of a picture: the two the function draws on, and others. *)
Inductive color_type := eNM_COLOR_YUV420P | eNM_COLOR_YUV422 | eNM_COLOR_other.

(** A text longer than the array of addresses is written past its end. *)
Definition OverlapText (hTextOverlap : option S_TEXT_OVERLAP) (eColorType : color_type) (u32Width u32Height : Z)
    (bg : list Z) (pchOverlapStr : list Z) : res (option S_TEXT_OVERLAP * list Z) :=
  let u32StrLen := zlen pchOverlapStr in
  let draw eColorFmt :=
    if decide (u32StrLen > DEF_MAX_OVERLAP_TEXT) then Fault OutOfBounds else
    '(h, bg, _) ← TextOverlap_Overlap hTextOverlap (glyph_of <$> pchOverlapStr) u32StrLen bg eColorFmt u32Width u32Height
                    (u32 (u32Width - u32StrLen * DIGIT_8_16_WIDTH) `div` 2) (2 * DIGIT_8_16_HEIGHT);
    Ok (h, bg) in
  match eColorType with
  | eNM_COLOR_YUV420P => draw eIMGPROC_YUV420P
  | eNM_COLOR_YUV422 => draw eIMGPROC_YUV422
  | eNM_COLOR_other => Ok (hTextOverlap, bg)
  end.

End Date.

(** ** What a sequence of writes does to a buffer *)

(** The byte at [i] of a buffer. *)
Definition byte_at (l : list Z) (i : Z) : Z := default 0 (l !! Z.to_nat i).

(** Every byte replaced by a function of its position and its value. *)
Definition paint (f : Z → Z → Z) (l : list Z) : list Z := imap (λ k c, f (Z.of_nat k) c) l.

(** Writes, as such a function. *)
Definition put (ws : list (Z * Z)) (k c : Z) : Z := foldl (λ c '(i, x), if decide (k = i) then x else c) c ws.

(** The iterations [0 .. n) of a loop whose [i]-th one paints [g i]. *)
Definition paints (g : Z → Z → Z → Z) (n : nat) (k c : Z) : Z :=
  foldl (λ c i, g (Z.of_nat i) k c) c (seq 0 n).

Section Paint.

Lemma zlen_paint f l : zlen (paint f l) = zlen l.
Proof. unfold zlen, paint. by rewrite length_imap. Qed.

Lemma paint_ext f g l : (∀ k c, 0 ≤ k < zlen l → f k c = g k c) → paint f l = paint g l.
Proof.
  intros H. apply imap_ext. intros i x Hi. apply H.
  apply lookup_lt_Some in Hi. unfold zlen. lia.
Qed.

Lemma paint_id l : paint (λ _ c, c) l = l.
Proof.
  apply list_eq. intros i. unfold paint. rewrite list_lookup_imap. by destruct (l !! i).
Qed.

Lemma paint_paint f g l : paint g (paint f l) = paint (λ k c, g k (f k c)) l.
Proof.
  apply list_eq. intros i. unfold paint. rewrite !list_lookup_imap. by destruct (l !! i).
Qed.

Lemma byte_at_paint f l i : 0 ≤ i < zlen l → byte_at (paint f l) i = f i (byte_at l i).
Proof.
  intros Hi. unfold byte_at, paint. rewrite list_lookup_imap.
  destruct (lookup_lt_is_Some_2 l (Z.to_nat i)) as [x Hx]; [unfold zlen in Hi; lia|].
  rewrite Hx. simpl. by rewrite Z2Nat.id by lia.
Qed.

Lemma rd_byte_at l i : 0 ≤ i < zlen l → rd l i = Ok (byte_at l i).
Proof.
  intros Hi. unfold rd, byte_at. rewrite decide_False by lia.
  destruct (lookup_lt_is_Some_2 l (Z.to_nat i)) as [x Hx]; [unfold zlen in Hi; lia|].
  by rewrite Hx.
Qed.

Lemma wr_paint l i x : 0 ≤ i < zlen l → wr l i x = Ok (paint (put [(i, x)]) l).
Proof.
  intros Hi. unfold wr. rewrite decide_True by (unfold zlen in Hi; lia). f_equal.
  apply list_eq. intros j. unfold paint, put. rewrite list_lookup_imap. simpl.
  destruct (decide (j = Z.to_nat i)) as [->|Hne].
  - rewrite list_lookup_insert_eq by (unfold zlen in Hi; lia).
    destruct (lookup_lt_is_Some_2 l (Z.to_nat i)) as [y Hy]; [unfold zlen in Hi; lia|].
    rewrite Hy. simpl. by rewrite decide_True by lia.
  - rewrite list_lookup_insert_ne by done. destruct (l !! j); simpl; [|done]. by rewrite decide_False by lia.
Qed.

Lemma put_app ws ws' k c : put (ws ++ ws') k c = put ws' k (put ws k c).
Proof. apply foldl_app. Qed.

Lemma put_out ws k c : Forall (λ w, k ≠ w.1) ws → put ws k c = c.
Proof.
  unfold put. induction ws as [|[i x] ws IH] in c |- *; [done|].
  intros [Hk Hws]%Forall_cons. simpl in *. rewrite decide_False by done. by apply IH.
Qed.

Lemma wrs_paint ws l : Forall (λ w, 0 ≤ w.1 < zlen l) ws → wrs l ws = Ok (paint (put ws) l).
Proof.
  induction ws as [|[i x] ws IH] in l |- *; intros Hws; [by rewrite paint_id|].
  apply Forall_cons in Hws as [Hi Hws]. cbn [wrs]. rewrite wr_paint by done. cbn [mbind res_bind].
  rewrite IH by (eapply Forall_impl; [exact Hws|]; intros w; by rewrite zlen_paint).
  by rewrite paint_paint.
Qed.

Lemma when_paint c ws l :
  Forall (λ w, 0 ≤ w.1 < zlen l) ws → Text.when c ws l = Ok (paint (put (if c then ws else [])) l).
Proof. intros H. destruct c; simpl; [by apply wrs_paint|]. by rewrite paint_id. Qed.

(** The bytes a memcpy moves. *)
Definition moved (d : Z) (src : list Z) (s n k c : Z) : Z :=
  if decide (d ≤ k < d + n) then byte_at src (s + (k - d)) else c.

Lemma memcpy_paint dst d src s n :
  0 ≤ n → 0 ≤ d → d + n ≤ zlen dst → 0 ≤ s → s + n ≤ zlen src →
  memcpy dst d src s n = Ok (paint (moved d src s n) dst).
Proof.
  intros Hn Hd Hdn Hs Hsn. unfold memcpy. rewrite decide_True by lia. f_equal.
  unfold zlen in *. apply list_eq. intros j. unfold paint. rewrite list_lookup_imap.
  assert (Hl : length (slice src s n) = Z.to_nat n) by (unfold slice; rewrite length_take, length_drop; lia).
  destruct (decide (j < Z.to_nat d)%nat) as [H1|H1].
  { rewrite lookup_app_l by (rewrite length_take; lia). rewrite lookup_take_lt by lia.
    destruct (dst !! j); simpl; [|done]. unfold moved. by rewrite decide_False by lia. }
  rewrite lookup_app_r by (rewrite length_take; lia).
  replace (j - length (take (Z.to_nat d) dst))%nat with (j - Z.to_nat d)%nat by (rewrite length_take; lia).
  destruct (decide (j < Z.to_nat (d + n))%nat) as [H2|H2].
  - rewrite lookup_app_l by lia. unfold slice. rewrite lookup_take_lt, lookup_drop by lia.
    destruct (lookup_lt_is_Some_2 dst j) as [y Hy]; [lia|]. rewrite Hy. simpl.
    unfold moved. rewrite decide_True by lia. unfold byte_at.
    replace (Z.to_nat (s + (Z.of_nat j - d))) with (Z.to_nat s + (j - Z.to_nat d))%nat by lia.
    destruct (lookup_lt_is_Some_2 src (Z.to_nat s + (j - Z.to_nat d))) as [x Hx]; [lia|]. by rewrite Hx.
  - rewrite lookup_app_r by lia. rewrite Hl, lookup_drop.
    replace (Z.to_nat (d + n) + (j - Z.to_nat d - Z.to_nat n))%nat with j by lia.
    destruct (dst !! j); simpl; [|done]. unfold moved. by rewrite decide_False by lia.
Qed.

Lemma paints_S g n k c : paints g (S n) k c = g (Z.of_nat n) k (paints g n k c).
Proof. unfold paints. by rewrite seq_S, foldl_app. Qed.

Lemma byte_at_byte l i : Forall is_byte l → is_byte (byte_at l i).
Proof.
  intros H. unfold byte_at. destruct (l !! Z.to_nat i) as [x|] eqn:E; simpl; [|by unfold is_byte; lia].
  exact (Forall_lookup_1 _ _ _ _ H E).
Qed.

Lemma paint_bytes f l : Forall is_byte l → (∀ k c, is_byte c → is_byte (f k c)) → Forall is_byte (paint f l).
Proof.
  intros Hl Hf. apply Forall_lookup_2. intros i x. unfold paint. rewrite list_lookup_imap.
  destruct (l !! i) as [y|] eqn:E; simpl; [|done]. intros [= <-]. apply Hf. exact (Forall_lookup_1 _ _ _ _ Hl E).
Qed.

Lemma paints_byte g n k c : is_byte c → (∀ i c, is_byte c → is_byte (g i k c)) → is_byte (paints g n k c).
Proof. intros Hc Hg. induction n as [|n IH]; [done|]. rewrite paints_S. by apply Hg. Qed.

(** At most one iteration touches the byte [k]. *)
Lemma paints_none g n k c : (∀ i c, 0 ≤ i < Z.of_nat n → g i k c = c) → paints g n k c = c.
Proof.
  induction n as [|n IH]; intros H; [done|]. rewrite paints_S, IH by (intros; apply H; lia). apply H. lia.
Qed.

Lemma paints_one g n k c i0 :
  0 ≤ i0 < Z.of_nat n → (∀ i c, 0 ≤ i < Z.of_nat n → i ≠ i0 → g i k c = c) → paints g n k c = g i0 k c.
Proof.
  induction n as [|n IH]; intros Hi0 H; [lia|]. rewrite paints_S.
  destruct (decide (i0 = Z.of_nat n)) as [->|Hne].
  - f_equal. apply paints_none. intros. apply H; lia.
  - rewrite IH by (lia || (intros; apply H; lia)). apply H; lia.
Qed.

(** A loop whose [i]-th iteration finds the pointers at [p i] and paints [g i]
    leaves them at [p n], the buffer painted by all of them. *)
Lemma for_paint {P : Type} (wrap : Z → Z) (M limit step : Z) (body : Z → P * list Z → res (P * list Z))
    (p : Z → P) (g : Z → Z → Z → Z) (n : nat) (L : Z) (l : list Z) :
  (∀ x, 0 ≤ x < M → wrap x = x) →
  0 < step → limit + step ≤ M →
  limit ≤ Z.of_nat n * step < limit + step →
  (∀ i l, 0 ≤ i < Z.of_nat n → zlen l = L → body (i * step) (p i, l) = Ok (p (i + 1), paint (g i) l)) →
  zlen l = L →
  for_loop wrap limit step body (Z.to_nat limit) 0 (p 0, l) = Ok (p (Z.of_nat n), paint (paints g n) l).
Proof.
  intros Hwrap Hstep HM Hn Hbody Hl.
  assert (Hgo : ∀ j i fuel, (i + j)%nat = n → (j ≤ fuel)%nat →
    for_loop wrap limit step body fuel (Z.of_nat i * step) (p (Z.of_nat i), paint (paints g i) l)
      = Ok (p (Z.of_nat n), paint (paints g n) l)).
  { induction j as [|j IH]; intros i fuel Hij Hf.
    - replace i with n by lia. destruct fuel; simpl; by rewrite decide_False by lia.
    - destruct fuel as [|fuel]; [lia|]. simpl. rewrite decide_True by nia.
      rewrite Hbody by (rewrite ?zlen_paint; lia). cbn [mbind res_bind].
      rewrite Hwrap by nia.
      replace (Z.of_nat i * step + step) with (Z.of_nat (S i) * step) by lia.
      replace (Z.of_nat i + 1) with (Z.of_nat (S i)) by lia.
      rewrite paint_paint, (paint_ext _ (paints g (S i))) by (intros; by rewrite paints_S).
      apply IH; lia. }
  specialize (Hgo n 0%nat (Z.to_nat limit)). simpl in Hgo.
  rewrite <- (paint_id l) at 1. apply Hgo; nia.
Qed.

End Paint.

(** Equal tuples of pointers. *)
Ltac ptrs_eq := repeat match goal with |- (_, _) = (_, _) => f_equal end; lia.

Lemma for_u32_paint {P : Type} (limit step : Z) body (p : Z → P) g (n : nat) (L : Z) (s : P * list Z) :
  0 < step → limit + step ≤ 4294967296 → limit ≤ Z.of_nat n * step < limit + step →
  (∀ i l, 0 ≤ i < Z.of_nat n → zlen l = L → body (i * step) (p i, l) = Ok (p (i + 1), paint (g i) l)) →
  s.1 = p 0 → zlen s.2 = L →
  for_u32 limit step body s = Ok (p (Z.of_nat n), paint (paints g n) s.2).
Proof. destruct s; simpl. intros ???? -> ?. eapply for_paint with (M := 4294967296); eauto using u32_small. Qed.

Lemma for_u16_paint {P : Type} (limit step : Z) body (p : Z → P) g (n : nat) (L : Z) (s : P * list Z) :
  0 < step → limit + step ≤ 65536 → limit ≤ Z.of_nat n * step < limit + step →
  (∀ i l, 0 ≤ i < Z.of_nat n → zlen l = L → body (i * step) (p i, l) = Ok (p (i + 1), paint (g i) l)) →
  s.1 = p 0 → zlen s.2 = L →
  for_u16 limit step body s = Ok (p (Z.of_nat n), paint (paints g n) s.2).
Proof.
  destruct s; simpl. intros ???? -> ?. eapply for_paint with (M := 65536); eauto. intros. by apply Z.mod_small.
Qed.

(** ** The text image *)

Module TextSpec.
Import Text.

(** A handle as TextOverlap_Init leaves it, with a text it has room for. *)
Record fits (ps : S_TEXT_OVERLAP) (gs : list (list Z)) : Prop := {
  fits_width : 0 < u32FontWidth ps;
  fits_height : 0 < u32FontHeight ps;
  fits_max : 0 < u32MaxTexts ps;
  fits_number : zlen gs ≤ u32MaxTexts ps;
  fits_img : zlen (pu8TextImg ps) = u32FontWidth ps * u32FontHeight ps * u32MaxTexts ps * 2;
  fits_bgimg : zlen (pu8TextBGImg ps) = u32FontWidth ps * u32FontHeight ps * u32MaxTexts ps * 2;
  fits_u32 : u32FontWidth ps * u32FontHeight ps * u32MaxTexts ps * 2 < 4294967296;
  fits_bytes : Forall is_byte (pu8TextImg ps);
  fits_glyphs : Forall (λ g, u32FontWidth ps * u32FontHeight ps * 2 ≤ zlen g ∧ Forall is_byte g) gs
}.

(** Byte [c] (0 the luma, 1 the chroma) of the pixel at [x], [y] of the text: in
    the glyph of its column. *)
Definition text_byte (fw : Z) (gs : list (list Z)) (c x y : Z) : Z :=
  byte_at (default [] (gs !! Z.to_nat (x `div` fw))) (2 * (y * fw + x `mod` fw) + c).

Section Pack.
Context (ps : S_TEXT_OVERLAP) (gs : list (list Z)) (Hfit : fits ps gs).
Notation fw := (u32FontWidth ps).
Notation fh := (u32FontHeight ps).
Notation N := (zlen gs).

Lemma fits_area : 0 ≤ N ∧ fw * N * fh * 2 ≤ fw * fh * u32MaxTexts ps * 2 ∧
  fw ≤ fw * fh * u32MaxTexts ps ∧ fh ≤ fw * fh * u32MaxTexts ps ∧ fw * N ≤ fw * fh * u32MaxTexts ps ∧
  u32MaxTexts ps ≤ fw * fh * u32MaxTexts ps.
Proof.
  destruct Hfit as [Hw Hh Hm HN _ _ _ _ _]. assert (0 ≤ N) by (unfold zlen; lia).
  assert (1 ≤ fw * fh) by nia. assert (fw * N ≤ fw * u32MaxTexts ps) by nia.
  assert (fw * u32MaxTexts ps ≤ fw * u32MaxTexts ps * fh) by nia.
  assert (fw * 1 ≤ fw * u32MaxTexts ps) by nia. assert (fh ≤ fh * (fw * u32MaxTexts ps)) by nia.
  repeat split; nia.
Qed.

Lemma glyph_at i : 0 ≤ i < N → ∃ g, gs !! Z.to_nat i = Some g ∧ rd gs i = Ok g ∧ fw * fh * 2 ≤ zlen g ∧ Forall is_byte g.
Proof.
  intros Hi. destruct (lookup_lt_is_Some_2 gs (Z.to_nat i)) as [g Hg]; [unfold zlen in Hi; lia|].
  exists g. split; [done|]. split; [|exact (Forall_lookup_1 _ _ _ _ (fits_glyphs _ _ Hfit) Hg)].
  unfold rd. rewrite decide_False by lia. by rewrite Hg.
Qed.

(** A row of the glyph number [i]. *)
Definition glyph_row (i y : Z) : Z → Z → Z :=
  moved (2 * (y * (fw * N) + i * fw)) (default [] (gs !! Z.to_nat i)) (y * (fw * 2)) (fw * 2).

Lemma row_bound i y : 0 ≤ i < N → 0 ≤ y < fh → 0 ≤ 2 * (y * (fw * N) + i * fw) ∧
  2 * (y * (fw * N) + i * fw) + fw * 2 ≤ fw * N * fh * 2 ∧ 0 ≤ y * (fw * 2) ∧ y * (fw * 2) + fw * 2 ≤ fw * fh * 2 ∧
  0 ≤ y * (fw * N) + i * fw ∧ 0 ≤ y * (fw * N).
Proof.
  intros Hi Hy. pose proof (fits_width _ _ Hfit). assert (0 < fw * N) by nia.
  assert (0 ≤ i * fw) by nia. assert (i * fw + fw ≤ fw * N) by nia.
  assert (0 ≤ y * (fw * N)) by nia. assert (y * (fw * N) + fw * N ≤ fw * N * fh) by nia.
  repeat split; nia.
Qed.

Lemma PackTextImg_paint :
  PackTextImg ps gs N
  = Ok (set_img ps (paint (paints (λ i, paints (glyph_row i) (Z.to_nat fh)) (Z.to_nat N)) (pu8TextImg ps)) (fw * N) fh).
Proof.
  destruct fits_area as (HN & Ha & Hw & Hh & Hr & Hm). pose proof Hfit as [Hfw Hfh _ HNm Himg _ Hu _ _].
  unfold PackTextImg. rewrite !(u32_small (fw * N)), !(u32_small (fw * 2)) by nia.
  erewrite (for_u32_paint N 1 _ (λ i, i * fw) (λ i, paints (glyph_row i) (Z.to_nat fh)) (Z.to_nat N)
              (zlen (pu8TextImg ps))); [reflexivity|lia..| |done|done].
  intros i l Hi Hl. rewrite Z.mul_1_r. destruct (glyph_at i ltac:(lia)) as (g & Hg & -> & Hgl & _).
  cbn [mbind res_bind].
  erewrite (for_u32_paint fh 1 _ (λ y, y * (fw * 2)) (glyph_row i) (Z.to_nat fh) (zlen (pu8TextImg ps)));
    [| lia.. | |done|exact Hl].
  - cbn [mbind res_bind]. rewrite u32_small by nia. do 3 f_equal. lia.
  - intros y m Hy Hml. rewrite Z.mul_1_r.
    destruct (row_bound i y) as (R1 & R2 & R3 & R4 & R5 & R6); [lia..|].
    rewrite (u32_small (y * (fw * N))), (u32_small (_ + i * fw)), (u32_small (_ * 2)) by nia.
    rewrite memcpy_paint by (rewrite ?Hml; lia). cbn [mbind res_bind]. do 2 f_equal; [f_equal; lia|].
    apply paint_ext. intros k c _. unfold glyph_row. rewrite Hg. simpl. f_equal. lia.
Qed.

Lemma text_pixel x y c l : 0 ≤ x < fw * N → 0 ≤ y < fh → 0 ≤ c < 2 →
  paints (λ i, paints (glyph_row i) (Z.to_nat fh)) (Z.to_nat N) (2 * (y * (fw * N) + x) + c) l = text_byte fw gs c x y.
Proof.
  intros Hx Hy Hc. pose proof (fits_width _ _ Hfit) as Hfw.
  pose proof (Z.div_mod x fw ltac:(lia)) as Hdm. pose proof (Z.mod_pos_bound x fw Hfw) as Hmod.
  assert (Hi : 0 ≤ x `div` fw < N) by (split; [apply Z.div_pos; lia|apply Z.div_lt_upper_bound; lia]).
  set (i0 := x `div` fw) in *. set (r := x `mod` fw) in *.
  rewrite (paints_one _ _ _ _ i0) by
    (lia || (intros i c' Hi' Hne; apply paints_none; intros y' c'' Hy'; unfold glyph_row, moved;
       rewrite decide_False; [done|]; destruct (row_bound i y') as (R1 & R2 & _); [lia..|];
       destruct (decide (y' = y)) as [->|]; [destruct (decide (i < i0)); nia|];
       destruct (decide (y' < y)); [assert (i * fw + fw ≤ fw * N) by nia; nia|assert (0 ≤ i * fw) by nia; nia])).
  rewrite (paints_one _ _ _ _ y) by
    (lia || (intros y' c' Hy' Hne; unfold glyph_row, moved; rewrite decide_False; [done|];
       assert (i0 * fw + fw ≤ fw * N) by nia; assert (0 ≤ i0 * fw) by nia;
       destruct (decide (y' < y)); nia)).
  unfold glyph_row, moved. rewrite decide_True by nia. unfold text_byte. fold i0 r. f_equal. nia.
Qed.

Lemma PackTextImg_ok : ∃ img,
  PackTextImg ps gs N = Ok (set_img ps img (fw * N) fh) ∧ zlen img = zlen (pu8TextImg ps) ∧ Forall is_byte img ∧
  ∀ x y c, 0 ≤ x < fw * N → 0 ≤ y < fh → 0 ≤ c < 2 →
    byte_at img (2 * (y * (fw * N) + x) + c) = text_byte fw gs c x y.
Proof.
  rewrite PackTextImg_paint. eexists. split; [reflexivity|]. split; [apply zlen_paint|]. split.
  { apply paint_bytes; [apply (fits_bytes _ _ Hfit)|]. intros k c Hc. apply paints_byte; [done|]. intros i c' Hc'.
    apply paints_byte; [done|]. intros y c'' Hc''. unfold glyph_row, moved. case_decide; [|done].
    apply byte_at_byte. destruct (gs !! Z.to_nat i) as [g|] eqn:Hg; simpl; [|constructor].
    apply (Forall_lookup_1 _ _ _ _ (fits_glyphs _ _ Hfit) Hg). }
  intros x y c Hx Hy Hc. destruct fits_area as (_ & Ha & _). rewrite byte_at_paint; [by apply text_pixel|].
  rewrite (fits_img _ _ Hfit). assert (0 ≤ y * (fw * N)) by nia.
  assert (y * (fw * N) + fw * N ≤ fw * N * fh) by nia. lia.
Qed.

End Pack.

(** *** The text on a frame of packed 4:2:2 pixels *)

Section Packed422.
Context (ov : list Z) (key w h : Z) (W H px py : Z).
Context (w_even : w `mod` 2 = 0) (w_pos : 0 ≤ w) (h_pos : 0 ≤ h) (ov_size : w * h * 2 ≤ zlen ov).
Context (px_pos : 0 ≤ px) (py_pos : 0 ≤ py) (x_in : px + w ≤ W) (y_in : py + h ≤ H) (WH : 2 * (W * H) < 4294967296).
Context (h_u32 : h < 2147483648) (w_u32 : w < 2147483648).

(** What a pair of pixels of the text at [o] writes at [b]. *)
Definition pair422 (b o : Z) : list (Z * Z) :=
  (if negb (byte_at ov o =? key) then [(b + 0, byte_at ov o); (b + 1, byte_at ov (o + 1)); (b + 3, byte_at ov (o + 3))]
   else []) ++
  (if negb (byte_at ov (o + 2) =? key)
   then [(b + 1, byte_at ov (o + 1)); (b + 2, byte_at ov (o + 2)); (b + 3, byte_at ov (o + 3))] else []).

Definition row422 (y : Z) : Z → Z → Z :=
  paints (λ j, put (pair422 (2 * ((py + y) * W + px) + 4 * j) (y * (w * 2) + 4 * j))) (Z.to_nat (w `div` 2)).

Lemma pair422_out b o k c : k < b ∨ b + 4 ≤ k → put (pair422 b o) k c = c.
Proof.
  intros Hk. apply put_out. unfold pair422. destruct (negb (byte_at ov o =? key)), (negb (byte_at ov (o + 2) =? key));
    simpl; repeat constructor; simpl; lia.
Qed.

(** The four bytes of a pair. *)
Lemma pair422_luma b o c (i : Z) : i = 0 ∨ i = 1 →
  put (pair422 b o) (b + 2 * i) c = if byte_at ov (o + 2 * i) =? key then c else byte_at ov (o + 2 * i).
Proof.
  intros [->| ->]; unfold pair422, put; rewrite ?Z.mul_0_r, ?Z.mul_1_r, ?Z.add_0_r;
    destruct (byte_at ov o =? key), (byte_at ov (o + 2) =? key); simpl; repeat case_decide; try lia; done.
Qed.

Lemma pair422_chroma b o c (i : Z) : i = 0 ∨ i = 1 →
  put (pair422 b o) (b + 2 * i + 1) c
  = if (byte_at ov o =? key) && (byte_at ov (o + 2) =? key) then c else byte_at ov (o + 2 * i + 1).
Proof.
  intros [->| ->]; unfold pair422, put; rewrite ?Z.mul_0_r, ?Z.mul_1_r, ?Z.add_0_r, <- ?Z.add_assoc;
    destruct (byte_at ov o =? key), (byte_at ov (o + 2) =? key); simpl; repeat case_decide; try lia; done.
Qed.

Lemma row422_out y k c :
  k < 2 * ((py + y) * W + px) ∨ 2 * ((py + y) * W + px) + 2 * w ≤ k → row422 y k c = c.
Proof.
  intros Hk. apply paints_none. intros j c' Hj. apply pair422_out.
  assert (4 * j + 4 ≤ 2 * w) by zdm. lia.
Qed.

Lemma Overlap_YUV422_paint ps bg : zlen bg = 2 * (W * H) → pu8TextBGImg ps = ov → u32TextImgWidth ps = w →
  u32TextImgHeight ps = h → u8 (u32ColorKeyY ps) = key →
  Overlap_YUV422 ps bg W H px py = Ok (paint (paints row422 (Z.to_nat h)) bg).
Proof.
  intros Hbg Eov Ew Eh Ek. unfold Overlap_YUV422. rewrite Eov, Ew, Eh, Ek.
  destruct (decide (h = 0)) as [->|Hh].
  { unfold for_u32. simpl. change (paints row422 0) with (λ (_ c : Z), c). by rewrite paint_id. }
  assert (0 ≤ py * W) by nia. assert (Hpw : py * W + W ≤ W * H) by nia.
  rewrite (u32_small (W * 2)), (u32_small (w * 2)), (u32_small (py * W + px)), (u32_small (_ * 2)) by nia.
  erewrite (for_u32_paint h 1 _ (λ y, (2 * ((py + y) * W + px), y * (w * 2))) row422 (Z.to_nat h) (2 * (W * H)));
    [reflexivity|lia..| |simpl; f_equal; lia|exact Hbg].
  intros y l Hy Hl.
  assert (Hrow : 0 ≤ (py + y) * W ∧ (py + y) * W + W ≤ W * H) by nia.
  assert (Hov : 0 ≤ y * (w * 2) ∧ y * (w * 2) + w * 2 ≤ zlen ov) by nia.
  erewrite (for_u32_paint w 2 _ (λ j, (2 * ((py + y) * W + px) + 4 * j, y * (w * 2) + 4 * j)) _
              (Z.to_nat (w `div` 2)) (2 * (W * H))); [|lia|lia|zdm| |simpl; f_equal; lia|exact Hl].
  - cbn [mbind res_bind]. unfold row422. do 3 f_equal; lia.
  - intros j m Hj Hm. assert (4 * j + 4 ≤ 2 * w) by zdm.
    rewrite !rd_byte_at by lia. cbn [mbind res_bind].
    rewrite when_paint by (repeat constructor; simpl; lia). cbn [mbind res_bind].
    rewrite when_paint by (rewrite zlen_paint; repeat constructor; simpl; lia). cbn [mbind res_bind].
    rewrite paint_paint. do 2 f_equal; [f_equal; lia|]. apply paint_ext. intros k c _.
    rewrite Z.add_0_r. unfold pair422. by rewrite put_app.
Qed.

(** Whether the pixel [x], [y] of the frame is under the text. *)
Definition under (x y : Z) : bool := bool_decide (px ≤ x < px + w ∧ py ≤ y < py + h).

(** The pair of pixels a byte of the frame belongs to. *)
Lemma paints422_at x y c0 c : 0 ≤ x < W → 0 ≤ y → 0 ≤ c0 < 2 →
  paints row422 (Z.to_nat h) (2 * (y * W + x) + c0) c
  = if under x y then
      let j := (x - px) `div` 2 in
      put (pair422 (2 * (y * W + px) + 4 * j) (2 * ((y - py) * w + 2 * j)))
        (2 * (y * W + px) + 4 * j + 2 * ((x - px) `mod` 2) + c0) c
    else c.
Proof.
  intros Hx Hy Hc. unfold under. case_bool_decide as Hu; cbv zeta.
  - rewrite (paints_one _ _ _ _ (y - py)) by
      (lia || (intros y' c' Hy' Hne; apply row422_out; destruct (decide (py + y' < y)); nia)).
    unfold row422. rewrite (paints_one _ _ _ _ ((x - px) `div` 2)) by
      (zdm || (intros j c' Hj Hne; apply pair422_out; replace (py + (y - py)) with y by lia; zdm)).
    f_equal; [f_equal; f_equal; lia|zdm].
  - apply paints_none. intros y' c' Hy'. apply row422_out.
    destruct (decide (py + y' < y)); [nia|]. destruct (decide (y < py + y')); [nia|].
    replace (py + y') with y by lia. assert (x < px ∨ px + w ≤ x) by lia. lia.
Qed.

Lemma luma422 x y c : 0 ≤ x < W → 0 ≤ y →
  paints row422 (Z.to_nat h) (2 * (y * W + x)) c
  = let t := byte_at ov (2 * ((y - py) * w + (x - px))) in
    if under x y && negb (t =? key) then t else c.
Proof.
  intros Hx Hy. rewrite <- (Z.add_0_r (2 * (y * W + x))), paints422_at by lia. cbv zeta.
  destruct (under x y); [|done]. rewrite Z.add_0_r, pair422_luma by zdm. simpl.
  replace (2 * ((y - py) * w + 2 * ((x - px) `div` 2)) + 2 * ((x - px) `mod` 2))
    with (2 * ((y - py) * w + (x - px))) by zdm.
  by destruct (byte_at ov _ =? key).
Qed.

Lemma chroma422 x y c : 0 ≤ x < W → 0 ≤ y →
  paints row422 (Z.to_nat h) (2 * (y * W + x) + 1) c
  = let j := (x - px) `div` 2 in
    let luma i := byte_at ov (2 * ((y - py) * w + 2 * j + i)) in
    if under x y && negb ((luma 0 =? key) && (luma 1 =? key)) then byte_at ov (2 * ((y - py) * w + (x - px)) + 1) else c.
Proof.
  intros Hx Hy. rewrite paints422_at by lia. cbv zeta.
  destruct (under x y); [|done]. rewrite pair422_chroma by zdm. cbn [andb].
  replace (2 * ((y - py) * w + 2 * ((x - px) `div` 2)) + 2 * ((x - px) `mod` 2))
    with (2 * ((y - py) * w + (x - px))) by zdm.
  rewrite Z.add_0_r.
  replace (2 * ((y - py) * w + 2 * ((x - px) `div` 2)) + 2)
    with (2 * ((y - py) * w + 2 * ((x - px) `div` 2) + 1)) by lia.
  by destruct (byte_at ov _ =? key), (byte_at ov _ =? key).
Qed.
End Packed422.

(** *** The text on a planar 4:2:0 frame *)

(** The offset of a pixel names its row and column. *)
Lemma pixel_inj W x y x' y' : 0 ≤ x < W → 0 ≤ x' < W → y * W + x = y' * W + x' → y = y' ∧ x = x'.
Proof.
  intros Hx Hx' E. assert (y = y') as -> by (destruct (Z.lt_trichotomy y y') as [?|[?|?]]; [nia|done|nia]). lia.
Qed.

Section Planar420.
Context (ov : list Z) (key w h : Z) (W H px py : Z).
Context (w_even : w `mod` 2 = 0) (h_even : h `mod` 2 = 0) (W_even : W `mod` 2 = 0) (H_even : H `mod` 2 = 0).
Context (px_even : px `mod` 2 = 0) (py_even : py `mod` 2 = 0).
Context (w_pos : 0 ≤ w) (h_pos : 0 ≤ h) (ov_size : w * h + 2 * (w `div` 2 * (h `div` 2)) ≤ zlen ov).
Context (px_pos : 0 ≤ px) (py_pos : 0 ≤ py) (x_in : px + w ≤ W) (y_in : py + h ≤ H) (WH : 2 * (W * H) < 4294967296).
Context (h_u32 : h < 2147483648) (w_u32 : w < 2147483648).

Notation hw := (w `div` 2).
Notation hh := (h `div` 2).
Notation hW := (W `div` 2).
Notation hH := (H `div` 2).

(** The planes of the text, and of a frame. *)
Definition ovY (x y : Z) : Z := byte_at ov (y * w + x).
Definition ovU (u v : Z) : Z := byte_at ov (w * h + (v * hw + u)).
Definition ovV (u v : Z) : Z := byte_at ov (w * h + hw * hh + (v * hw + u)).
Definition frameU (u v : Z) : Z := W * H + (v * hW + u).
Definition frameV (u v : Z) : Z := W * H + hW * hH + (v * hW + u).

(** What the four pixels [2 j .. 2 j + 1], [2 i .. 2 i + 1] of the text write. *)
Definition dot420 (i j : Z) (dx dy : Z) : list (Z * Z) :=
  let t := ovY (2 * j + dx) (2 * i + dy) in
  if negb (t =? key)
  then [((py + (2 * i + dy)) * W + (px + (2 * j + dx)), t); (frameU (px `div` 2 + j) (py `div` 2 + i), ovU j i);
        (frameV (px `div` 2 + j) (py `div` 2 + i), ovV j i)]
  else [].
Definition quad420 (i j : Z) : list (Z * Z) := dot420 i j 0 0 ++ dot420 i j 1 0 ++ dot420 i j 0 1 ++ dot420 i j 1 1.
Definition row420 (i : Z) : Z → Z → Z := paints (λ j, put (quad420 i j)) (Z.to_nat hw).

Lemma quarter420 : (W * H) `div` 4 = hW * hH ∧ (w * h) `div` 4 = hw * hh.
Proof.
  split; [rewrite (Z.div_mod W 2) at 1 by lia; rewrite (Z.div_mod H 2) at 1 by lia; rewrite W_even, H_even
         |rewrite (Z.div_mod w 2) at 1 by lia; rewrite (Z.div_mod h 2) at 1 by lia; rewrite w_even, h_even];
    symmetry; apply Z.div_unique with 0; lia.
Qed.

Lemma quad_bounds i j : 0 ≤ i < hh → 0 ≤ j < hw →
  (∀ dx dy, 0 ≤ dx < 2 → 0 ≤ dy < 2 →
    0 ≤ (2 * i + dy) * w + (2 * j + dx) < w * h ∧
    0 ≤ (py + (2 * i + dy)) * W + (px + (2 * j + dx)) < W * H) ∧
  (0 ≤ i * hw + j < hw * hh) ∧ (0 ≤ (py `div` 2 + i) * hW + (px `div` 2 + j) < hW * hH).
Proof.
  intros Hi Hj. assert (2 * i + 2 ≤ h) by zdm. assert (2 * j + 2 ≤ w) by zdm.
  assert (0 ≤ px `div` 2 ∧ px `div` 2 + hw ≤ hW) by zdm. assert (0 ≤ py `div` 2 ∧ py `div` 2 + hh ≤ hH) by zdm.
  split; [|split; nia].
  intros dx dy Hdx Hdy. split; nia.
Qed.

Lemma Overlap_YUV420P_paint ps bg : zlen bg = W * H + 2 * (hW * hH) → pu8TextBGImg ps = ov → u32TextImgWidth ps = w →
  u32TextImgHeight ps = h → u8 (u32ColorKeyY ps) = key →
  Overlap_YUV420P ps bg W H px py = Ok (paint (paints row420 (Z.to_nat hh)) bg).
Proof.
  intros Hbg Eov Ew Eh Ek. unfold Overlap_YUV420P. rewrite Eov, Ew, Eh, Ek.
  destruct (decide (h = 0)) as [->|Hh].
  { unfold for_u32. simpl. change (paints row420 _) with (λ (_ c : Z), c). by rewrite paint_id. }
  assert (0 ≤ py * W) by nia. assert (Hpw : py * W + W ≤ W * H) by nia.
  assert (Hp2 : 0 ≤ px `div` 2 ∧ px `div` 2 ≤ hW ∧ 0 ≤ py `div` 2 ∧ py `div` 2 < hH ∧ 0 ≤ hW) by zdm.
  assert (hW * hH * 4 = W * H) by (rewrite <- (proj1 quarter420); zdm).
  assert (w * h ≤ W * H) by nia.
  rewrite (u32_small (W * 2)), (u32_small (w * 2)), !(u32_small (W * H)), !(u32_small (w * h)),
    (u32_small (py * W + px)), (u32_small (_ * hW + _)) by nia.
  rewrite (proj1 quarter420), (proj2 quarter420).
  erewrite (for_u32_paint h 2 _ (λ i, ((py + 2 * i) * W + px, frameU (px `div` 2) (py `div` 2 + i),
      frameV (px `div` 2) (py `div` 2 + i), 2 * i * w, w * h + i * hw, w * h + hw * hh + i * hw))
      row420 (Z.to_nat hh) (zlen bg)); [reflexivity|lia|lia|zdm| | |done].
  2:{ simpl. unfold frameU, frameV. ptrs_eq. }
  intros i l Hi Hl.
  erewrite (for_u32_paint w 2 _ (λ j, ((py + 2 * i) * W + px + 2 * j, frameU (px `div` 2 + j) (py `div` 2 + i),
      frameV (px `div` 2 + j) (py `div` 2 + i), 2 * i * w + 2 * j, w * h + i * hw + j, w * h + hw * hh + i * hw + j,
      (py + (2 * i + 1)) * W + px + 2 * j, (2 * i + 1) * w + 2 * j))
      _ (Z.to_nat hw) (zlen bg)); [|lia|lia|zdm| | |exact Hl].
  - cbn [mbind res_bind]. unfold row420. do 2 f_equal. unfold frameU, frameV. ptrs_eq.
  - intros j m Hj Hm. destruct (quad_bounds i j) as (Hq & Hu & Hv); [lia..|].
    pose proof (Hq 0 0). pose proof (Hq 1 0). pose proof (Hq 0 1). pose proof (Hq 1 1).
    rewrite !rd_byte_at by lia. cbn [mbind res_bind].
    do 4 (rewrite when_paint by (rewrite ?zlen_paint; unfold frameU, frameV; repeat constructor; simpl; lia);
          cbn [mbind res_bind]).
    rewrite !paint_paint. do 2 f_equal; [unfold frameU, frameV; ptrs_eq|].
    apply paint_ext. intros k c _. unfold quad420. rewrite !put_app. unfold dot420, ovY, ovU, ovV.
    by rewrite ?Z.add_0_r, ?Z.add_assoc.
  - simpl. unfold frameU, frameV. ptrs_eq.
Qed.

(** The bytes of one group: its four pixels and its chroma. *)
Definition keyed (x y : Z) : bool := ovY x y =? key.
Definition group_keyed (i j : Z) : bool :=
  keyed (2 * j) (2 * i) && keyed (2 * j + 1) (2 * i) && keyed (2 * j) (2 * i + 1) && keyed (2 * j + 1) (2 * i + 1).

Definition luma_pos (i j dx dy : Z) : Z := (py + (2 * i + dy)) * W + (px + (2 * j + dx)).

Lemma dot420_out i j dx dy k c :
  k ≠ luma_pos i j dx dy → k ≠ frameU (px `div` 2 + j) (py `div` 2 + i) → k ≠ frameV (px `div` 2 + j) (py `div` 2 + i) →
  put (dot420 i j dx dy) k c = c.
Proof. intros. apply put_out. unfold dot420. destruct (negb _); repeat constructor; done. Qed.

Lemma quad420_out i j k c :
  (∀ dx dy, 0 ≤ dx < 2 → 0 ≤ dy < 2 → k ≠ luma_pos i j dx dy) →
  k ≠ frameU (px `div` 2 + j) (py `div` 2 + i) → k ≠ frameV (px `div` 2 + j) (py `div` 2 + i) →
  put (quad420 i j) k c = c.
Proof. intros Hl Hu Hv. unfold quad420. rewrite !put_app, !dot420_out; auto; apply Hl; lia. Qed.

Lemma dot420_luma i j dx dy dx' dy' c : 0 ≤ i < hh → 0 ≤ j < hw → 0 ≤ dx < 2 → 0 ≤ dy < 2 → 0 ≤ dx' < 2 → 0 ≤ dy' < 2 →
  put (dot420 i j dx' dy') (luma_pos i j dx dy) c
  = if bool_decide (dx' = dx ∧ dy' = dy) && negb (keyed (2 * j + dx) (2 * i + dy)) then ovY (2 * j + dx) (2 * i + dy) else c.
Proof.
  intros Hi Hj Hdx Hdy Hdx' Hdy'. destruct (quad_bounds i j Hi Hj) as (Hq & Hu & Hv).
  destruct (Hq dx dy Hdx Hdy) as [_ Hk]. unfold luma_pos.
  case_bool_decide as E.
  - destruct E as [-> ->]. unfold dot420, keyed. destruct (ovY _ _ =? key); [done|]. unfold put. simpl.
    unfold frameU, frameV. repeat case_decide; try lia; done.
  - apply dot420_out; unfold frameU, frameV; [|lia..]. intros E'.
    apply pixel_inj in E' as [? ?]; [lia| |]; zdm.
Qed.

Lemma quad420_luma i j dx dy c : 0 ≤ i < hh → 0 ≤ j < hw → 0 ≤ dx < 2 → 0 ≤ dy < 2 →
  put (quad420 i j) (luma_pos i j dx dy) c
  = if keyed (2 * j + dx) (2 * i + dy) then c else ovY (2 * j + dx) (2 * i + dy).
Proof.
  intros Hi Hj Hdx Hdy. unfold quad420. rewrite !put_app, !dot420_luma by lia.
  repeat case_bool_decide; destruct (keyed _ _); simpl; try done; lia.
Qed.

Lemma dot420_chroma i j dx dy c : 0 ≤ i < hh → 0 ≤ j < hw → 0 ≤ dx < 2 → 0 ≤ dy < 2 →
  put (dot420 i j dx dy) (frameU (px `div` 2 + j) (py `div` 2 + i)) c
    = (if keyed (2 * j + dx) (2 * i + dy) then c else ovU j i) ∧
  put (dot420 i j dx dy) (frameV (px `div` 2 + j) (py `div` 2 + i)) c
    = (if keyed (2 * j + dx) (2 * i + dy) then c else ovV j i).
Proof.
  intros Hi Hj Hdx Hdy. destruct (quad_bounds i j Hi Hj) as (Hq & Hu & Hv). destruct (Hq dx dy Hdx Hdy) as [_ Hk].
  unfold dot420, keyed. destruct (ovY _ _ =? key); [done|]. unfold put. simpl.
  unfold frameU, frameV. split; repeat case_decide; try lia; done.
Qed.

Lemma quad420_chroma i j c : 0 ≤ i < hh → 0 ≤ j < hw →
  put (quad420 i j) (frameU (px `div` 2 + j) (py `div` 2 + i)) c = (if group_keyed i j then c else ovU j i) ∧
  put (quad420 i j) (frameV (px `div` 2 + j) (py `div` 2 + i)) c = (if group_keyed i j then c else ovV j i).
Proof.
  intros Hi Hj. unfold quad420. rewrite !put_app.
  rewrite !(λ dx dy c Hx Hy, proj1 (dot420_chroma i j dx dy c Hi Hj Hx Hy)) by lia.
  rewrite !(λ dx dy c Hx Hy, proj2 (dot420_chroma i j dx dy c Hi Hj Hx Hy)) by lia.
  rewrite !Z.add_0_r. unfold group_keyed.
  split; destruct (keyed (2 * j) (2 * i)), (keyed (2 * j + 1) (2 * i)), (keyed (2 * j) (2 * i + 1)),
    (keyed (2 * j + 1) (2 * i + 1)); done.
Qed.

Notation under' := (under w h px py).

Lemma luma420 x y c : 0 ≤ x < W → 0 ≤ y < H →
  paints row420 (Z.to_nat hh) (y * W + x) c
  = if under' x y && negb (keyed (x - px) (y - py)) then ovY (x - px) (y - py) else c.
Proof.
  intros Hx Hy. assert (Hk : 0 ≤ y * W + x < W * H) by nia.
  assert (Hout : ∀ i j c, 0 ≤ i < hh → 0 ≤ j < hw → ¬ (0 ≤ y - py - 2 * i < 2 ∧ 0 ≤ x - px - 2 * j < 2) →
    put (quad420 i j) (y * W + x) c = c).
  { intros i j c' Hi Hj Hne. destruct (quad_bounds i j Hi Hj) as (Hq & Hu & Hv).
    apply quad420_out; unfold frameU, frameV; [|lia..]. intros dx dy Hdx Hdy E. apply Hne.
    apply pixel_inj in E as [-> ->]; [lia|lia|zdm]. }
  unfold under. case_bool_decide as Hu; simpl.
  - rewrite (paints_one _ _ _ _ ((y - py) `div` 2)) by
      (zdm || (intros i c' Hi Hne; apply paints_none; intros j c'' Hj; apply Hout; zdm)).
    unfold row420. rewrite (paints_one _ _ _ _ ((x - px) `div` 2)) by
      (zdm || (intros j c' Hj Hne; apply Hout; zdm)).
    replace (y * W + x) with (luma_pos ((y - py) `div` 2) ((x - px) `div` 2) ((x - px) `mod` 2) ((y - py) `mod` 2))
      by (unfold luma_pos; f_equal; [f_equal|]; zdm).
    rewrite quad420_luma by zdm.
    replace (2 * ((x - px) `div` 2) + (x - px) `mod` 2) with (x - px) by zdm.
    replace (2 * ((y - py) `div` 2) + (y - py) `mod` 2) with (y - py) by zdm.
    by destruct (keyed _ _).
  - apply paints_none. intros i c' Hi. apply paints_none. intros j c'' Hj. apply Hout; zdm.
Qed.

Lemma chroma420 u v c : 0 ≤ u < hW → 0 ≤ v < hH →
  let i := v - py `div` 2 in let j := u - px `div` 2 in
  let changed := under' (2 * u) (2 * v) && negb (group_keyed i j) in
  paints row420 (Z.to_nat hh) (frameU u v) c = (if changed then ovU j i else c) ∧
  paints row420 (Z.to_nat hh) (frameV u v) c = (if changed then ovV j i else c).
Proof.
  intros Hu Hv i0 j0 changed.
  assert (Hk : 0 ≤ v * hW + u < hW * hH) by nia.
  assert (Hout : ∀ i j c, 0 ≤ i < hh → 0 ≤ j < hw → ¬ (i = i0 ∧ j = j0) →
    put (quad420 i j) (frameU u v) c = c ∧ put (quad420 i j) (frameV u v) c = c).
  { intros i j c' Hi Hj Hne. destruct (quad_bounds i j Hi Hj) as (Hq & Hu' & Hv').
    assert (v * hW + u ≠ (py `div` 2 + i) * hW + (px `div` 2 + j)).
    { intros E. apply pixel_inj in E as [? ?]; [apply Hne; lia|lia|zdm]. }
    split; apply quad420_out; unfold frameU, frameV; try lia;
      intros dx dy Hdx Hdy; specialize (Hq dx dy Hdx Hdy); unfold luma_pos; lia. }
  unfold changed, under. case_bool_decide as Hin; simpl.
  - assert (Hi0 : 0 ≤ i0 < hh) by (unfold i0; zdm). assert (Hj0 : 0 ≤ j0 < hw) by (unfold j0; zdm).
    split.
    all: rewrite (paints_one _ _ _ _ i0) by
      (lia || (intros i c' Hi Hne; apply paints_none; intros j c'' Hj; apply Hout; lia)).
    all: unfold row420; rewrite (paints_one _ _ _ _ j0) by (lia || (intros j c' Hj Hne; apply Hout; lia)).
    all: replace u with (px `div` 2 + j0) by lia; replace v with (py `div` 2 + i0) by lia.
    1: rewrite (proj1 (quad420_chroma i0 j0 c Hi0 Hj0)).
    2: rewrite (proj2 (quad420_chroma i0 j0 c Hi0 Hj0)).
    all: by destruct (group_keyed i0 j0).
  - split; apply paints_none; intros i c' Hi; apply paints_none; intros j c'' Hj; apply Hout; try lia; unfold i0, j0; zdm.
Qed.
End Planar420.

(** *** The text image as planar 4:2:0 *)

Section ToPlanar.
Context (src : list Z) (w h : Z).
Context (w_even : w `mod` 2 = 0) (h_even : h `mod` 2 = 0) (w_pos : 0 ≤ w ≤ 65534) (h_pos : 0 ≤ h ≤ 65534).
Context (src_size : w * h * 2 ≤ zlen src) (src_bytes : Forall is_byte src) (wh_u32 : w * h * 2 < 4294967296).

Notation hw := (w `div` 2).
Notation hh := (h `div` 2).

(** Byte [c] of a pixel. *)
Definition pix (c x y : Z) : Z := byte_at src (2 * (y * w + x) + c).

(** The mean of the chroma of two rows: [d] is 0 for U, 1 for V. *)
Definition mean (d u v : Z) : Z := (pix 1 (2 * u + d) (2 * v) + pix 1 (2 * u + d) (2 * v + 1)) `div` 2.

Definition planes (i j : Z) : list (Z * Z) :=
  [(2 * i * w + 2 * j, pix 0 (2 * j) (2 * i)); (2 * i * w + (2 * j + 1), pix 0 (2 * j + 1) (2 * i));
   ((2 * i + 1) * w + 2 * j, pix 0 (2 * j) (2 * i + 1)); ((2 * i + 1) * w + (2 * j + 1), pix 0 (2 * j + 1) (2 * i + 1));
   (w * h + (i * hw + j), mean 0 j i); (w * h + hw * hh + (i * hw + j), mean 1 j i)].

Lemma quarter : (w * h) `quot` 4 = hw * hh.
Proof.
  rewrite Z.quot_div_nonneg by nia. rewrite (Z.div_mod w 2) at 1 by lia. rewrite (Z.div_mod h 2) at 1 by lia.
  rewrite w_even, h_even. symmetry. apply Z.div_unique with 0; lia.
Qed.

Lemma planes_bounds i j : 0 ≤ i < hh → 0 ≤ j < hw →
  (∀ dx dy, 0 ≤ dx < 2 → 0 ≤ dy < 2 → 0 ≤ (2 * i + dy) * w + (2 * j + dx) < w * h) ∧ (0 ≤ i * hw + j < hw * hh).
Proof.
  intros Hi Hj. assert (2 * i + 2 ≤ h) by zdm. assert (2 * j + 2 ≤ w) by zdm.
  split; [|nia]. intros dx dy Hdx Hdy. nia.
Qed.

(** The halfword of a pixel and its two bytes. *)
Lemma rd16_pix x y : 0 ≤ y * w + x < w * h → ∃ t, rd16 src (y * w + x) = Ok t ∧
  u8 (Z.land t 255) = pix 0 x y ∧ u8 (Z.shiftr (Z.land t 65280) 8) = pix 1 x y.
Proof.
  intros Hk. unfold rd16. rewrite !rd_byte_at by lia. cbn [mbind res_bind]. eexists. split; [reflexivity|].
  unfold pix. rewrite Z.add_0_r.
  set (lo := byte_at src _). set (hi := byte_at src _).
  assert (Hlo : is_byte lo) by by apply byte_at_byte. assert (Hhi : is_byte hi) by by apply byte_at_byte.
  unfold is_byte in *. split.
  - rewrite land_ff. unfold u8. zdm.
  - change 65280 with (Z.shiftl 255 8). rewrite Z.shiftr_land, Z.shiftr_shiftl_l, Z.sub_diag, Z.shiftl_0_r by lia.
    rewrite land_ff, shiftr_div by lia. change (2 ^ 8) with 256. unfold u8. zdm.
Qed.

Lemma mean_byte x y x' y' : u8 (Z.shiftr (pix 1 x y + pix 1 x' y') 1) = (pix 1 x y + pix 1 x' y') `div` 2.
Proof.
  rewrite shiftr_div by lia. change (2 ^ 1) with 2. apply Z.mod_small.
  pose proof (byte_at_byte src (2 * (y * w + x) + 1) src_bytes).
  pose proof (byte_at_byte src (2 * (y' * w + x') + 1) src_bytes). unfold pix, is_byte in *. zdm.
Qed.

Lemma to_planar_paint dest : w * h + 2 * (hw * hh) ≤ zlen dest →
  YUV422ToYUV420Planar_SW src dest w h
  = Ok (paint (paints (λ i, paints (λ j, put (planes i j)) (Z.to_nat hw)) (Z.to_nat hh)) dest).
Proof.
  intros Hd. unfold YUV422ToYUV420Planar_SW. rewrite !(Z.mod_small _ 65536 : _ → u16 _ = _) by lia.
  rewrite quarter.
  erewrite (for_u16_paint h 2 _ (λ i, (w * h + i * hw, w * h + hw * hh + i * hw)) _ (Z.to_nat hh) (zlen dest));
    [reflexivity|lia|lia|zdm| |simpl; ptrs_eq|done].
  intros i l Hi Hl.
  erewrite (for_u16_paint w 2 _ (λ j, (w * h + i * hw + j, w * h + hw * hh + i * hw + j)) _ (Z.to_nat hw) (zlen dest));
    [|lia|lia|zdm| |simpl; ptrs_eq|exact Hl].
  { do 2 f_equal. assert (0 ≤ hw) by zdm. ptrs_eq. }
  intros j m Hj Hm. destruct (planes_bounds i j) as [Hq Hu]; [lia..|].
  pose proof (Hq 0 0 ltac:(lia) ltac:(lia)) as Q0. pose proof (Hq 1 0 ltac:(lia) ltac:(lia)) as Q1.
  pose proof (Hq 0 1 ltac:(lia) ltac:(lia)) as Q2. pose proof (Hq 1 1 ltac:(lia) ltac:(lia)) as Q3.
  rewrite !Z.add_0_r in *. rewrite (Z.mul_comm i 2), (Z.mul_comm j 2), <- !Z.add_assoc.
  assert (0 ≤ 2 * i * w) by nia. assert (0 ≤ (2 * i + 1) * w) by nia.
  rewrite !(u32_small (2 * i * w)), !(u32_small ((2 * i + 1) * w)) by lia.
  rewrite !u32_small by lia.
  destruct (rd16_pix _ _ Q0) as (t0 & -> & E0 & F0). destruct (rd16_pix _ _ Q1) as (t1 & -> & E1 & F1).
  destruct (rd16_pix _ _ Q2) as (t2 & -> & E2 & F2). destruct (rd16_pix _ _ Q3) as (t3 & -> & E3 & F3).
  cbn [mbind res_bind]. rewrite E0, F0, E1, F1, E2, F2, E3, F3, !mean_byte.
  rewrite wrs_paint by (repeat constructor; simpl; lia). cbn [mbind res_bind].
  do 2 f_equal. unfold planes, mean. by rewrite ?Z.add_0_r, ?Z.add_0_l, <- ?Z.add_assoc.
Qed.

(** Each byte of the three planes. *)
Lemma planes_out i j k c :
  (∀ dx dy, 0 ≤ dx < 2 → 0 ≤ dy < 2 → k ≠ (2 * i + dy) * w + (2 * j + dx)) →
  k ≠ w * h + (i * hw + j) → k ≠ w * h + hw * hh + (i * hw + j) → put (planes i j) k c = c.
Proof.
  intros Hq Hu Hv. apply put_out. unfold planes.
  pose proof (Hq 0 0 ltac:(lia) ltac:(lia)). pose proof (Hq 1 0 ltac:(lia) ltac:(lia)).
  pose proof (Hq 0 1 ltac:(lia) ltac:(lia)). pose proof (Hq 1 1 ltac:(lia) ltac:(lia)). rewrite !Z.add_0_r in *.
  repeat constructor; done.
Qed.

Lemma planes_luma i j dx dy c : 0 ≤ i < hh → 0 ≤ j < hw → 0 ≤ dx < 2 → 0 ≤ dy < 2 →
  put (planes i j) ((2 * i + dy) * w + (2 * j + dx)) c = pix 0 (2 * j + dx) (2 * i + dy).
Proof.
  intros Hi Hj Hdx Hdy. destruct (planes_bounds i j Hi Hj) as [Hq Hu]. pose proof (Hq dx dy Hdx Hdy).
  assert (2 * j + 2 ≤ w) by zdm.
  assert (dx = 0 ∨ dx = 1) as [-> | ->] by lia; assert (dy = 0 ∨ dy = 1) as [-> | ->] by lia;
    unfold planes, put; simpl; rewrite ?Z.add_0_r in *; repeat case_decide; try done; lia.
Qed.

Lemma planes_chroma i j c : 0 ≤ i < hh → 0 ≤ j < hw →
  put (planes i j) (w * h + (i * hw + j)) c = mean 0 j i ∧
  put (planes i j) (w * h + hw * hh + (i * hw + j)) c = mean 1 j i.
Proof.
  intros Hi Hj. destruct (planes_bounds i j Hi Hj) as [Hq Hu].
  unfold planes, put. simpl. split; repeat case_decide; try done; lia.
Qed.

Lemma to_planar_ok dest : w * h + 2 * (hw * hh) ≤ zlen dest → ∃ dest',
  YUV422ToYUV420Planar_SW src dest w h = Ok dest' ∧ zlen dest' = zlen dest ∧
  (∀ x y, 0 ≤ x < w → 0 ≤ y < h → byte_at dest' (y * w + x) = pix 0 x y) ∧
  (∀ u v, 0 ≤ u < hw → 0 ≤ v < hh →
     byte_at dest' (w * h + (v * hw + u)) = mean 0 u v ∧ byte_at dest' (w * h + hw * hh + (v * hw + u)) = mean 1 u v).
Proof.
  intros Hd. eexists. split; [by apply to_planar_paint|]. split; [apply zlen_paint|]. split.
  - intros x y Hx Hy. assert (Hk : 0 ≤ y * w + x < w * h) by nia. assert (0 ≤ hw * hh) by (apply Z.mul_nonneg_nonneg; zdm).
    assert (Hout : ∀ i j c, 0 ≤ i < hh → 0 ≤ j < hw → ¬ (i = y `div` 2 ∧ j = x `div` 2) → put (planes i j) (y * w + x) c = c).
    { intros i j c Hi Hj Hne. destruct (planes_bounds i j Hi Hj) as [Hq Hu]. apply planes_out; [|lia..].
      intros dx dy Hdx Hdy E. apply Hne. apply pixel_inj in E as [-> ->]; zdm. }
    rewrite byte_at_paint by lia.
    rewrite (paints_one _ _ _ _ (y `div` 2)) by
      (zdm || (intros i c Hi Hne; apply paints_none; intros j c' Hj; apply Hout; lia)).
    rewrite (paints_one _ _ _ _ (x `div` 2)) by (zdm || (intros j c Hj Hne; apply Hout; [zdm|lia|lia])).
    pose proof (planes_luma (y `div` 2) (x `div` 2) (x `mod` 2) (y `mod` 2) (byte_at dest (y * w + x))) as Hl.
    rewrite <- !Z.div_mod in Hl by lia. apply Hl; zdm.
  - intros u v Hu Hv. assert (Hk : 0 ≤ v * hw + u < hw * hh) by nia. assert (0 ≤ w * h) by nia.
    assert (Hout : ∀ i j c, 0 ≤ i < hh → 0 ≤ j < hw → ¬ (i = v ∧ j = u) →
      put (planes i j) (w * h + (v * hw + u)) c = c ∧ put (planes i j) (w * h + hw * hh + (v * hw + u)) c = c).
    { intros i j c Hi Hj Hne. destruct (planes_bounds i j Hi Hj) as [Hq Hu'].
      assert (v * hw + u ≠ i * hw + j) by (intros E; apply pixel_inj in E as [? ?]; [apply Hne; lia|lia|lia]).
      split; apply planes_out; try lia; intros dx dy Hdx Hdy; specialize (Hq dx dy Hdx Hdy); lia. }
    split; rewrite byte_at_paint by lia.
    all: rewrite (paints_one _ _ _ _ v) by (lia || (intros i c Hi Hne; apply paints_none; intros j c' Hj; apply Hout; lia)).
    all: rewrite (paints_one _ _ _ _ u) by (lia || (intros j c Hj Hne; apply Hout; lia)).
    all: by apply planes_chroma.
Qed.
End ToPlanar.

(** *** The frame with the text *)

(** The number of bytes of a frame. *)
Definition frame_size (fmt : E_IMGPROC_COLOR_FORMAT) (W H : Z) : Z :=
  match fmt with eIMGPROC_YUV420P => W * H + 2 * (W `div` 2 * (H `div` 2)) | _ => 2 * (W * H) end.

Section Drawn.
Context (fw fh : Z) (gs : list (list Z)) (key px py W H : Z).

Definition covered (x y : Z) : bool := under (fw * zlen gs) fh px py x y.
Definition txt (c x y : Z) : Z := text_byte fw gs c (x - px) (y - py).
Definition clear (x y : Z) : bool := txt 0 x y =? key.

(** A pixel under the text takes the luma of the text unless that is the key. *)
Definition drawn_luma (x y old : Z) : Z := if covered x y && negb (clear x y) then txt 0 x y else old.

(** Packed: the two pixels of a pair take the chroma of the text when one of them
    took its luma. *)
Definition drawn_chroma422 (x y old : Z) : Z :=
  let x0 := px + 2 * ((x - px) `div` 2) in
  if covered x y && negb (clear x0 y && clear (x0 + 1) y) then txt 1 x y else old.

(** Planar: a chroma byte covers four pixels; that of the text is the mean over
    two rows. [d] is 0 for U and 1 for V. *)
Definition drawn_chroma420 (d u v old : Z) : Z :=
  if covered (2 * u) (2 * v) && negb (clear (2 * u) (2 * v) && clear (2 * u + 1) (2 * v) && clear (2 * u) (2 * v + 1)
                                      && clear (2 * u + 1) (2 * v + 1))
  then (txt 1 (2 * u + d) (2 * v) + txt 1 (2 * u + d) (2 * v + 1)) `div` 2 else old.

(** [bg'] is the frame [bg] with the text; every byte of it is described. *)
Definition drawn (fmt : E_IMGPROC_COLOR_FORMAT) (bg bg' : list Z) : Prop :=
  zlen bg' = zlen bg ∧
  match fmt with
  | eIMGPROC_YUV422 =>
      ∀ x y, 0 ≤ x < W → 0 ≤ y < H →
        byte_at bg' (2 * (y * W + x)) = drawn_luma x y (byte_at bg (2 * (y * W + x))) ∧
        byte_at bg' (2 * (y * W + x) + 1) = drawn_chroma422 x y (byte_at bg (2 * (y * W + x) + 1))
  | eIMGPROC_YUV420P =>
      (∀ x y, 0 ≤ x < W → 0 ≤ y < H → byte_at bg' (y * W + x) = drawn_luma x y (byte_at bg (y * W + x))) ∧
      (∀ u v, 0 ≤ u < W `div` 2 → 0 ≤ v < H `div` 2 →
        byte_at bg' (frameU W H u v) = drawn_chroma420 0 u v (byte_at bg (frameU W H u v)) ∧
        byte_at bg' (frameV W H u v) = drawn_chroma420 1 u v (byte_at bg (frameV W H u v)))
  | _ => False
  end.
End Drawn.

Lemma even_pos x : 0 ≤ x → (if decide (Z.land x 1 ≠ 0) then x - 1 else x) = x - x `mod` 2.
Proof. intros. rewrite land_1. case_decide; zdm. Qed.

Section Overlap.
Context (ps : S_TEXT_OVERLAP) (gs : list (list Z)) (Hfit : fits ps gs).
Context (bg : list Z) (W H posx posy : Z).
Context (posx_pos : 0 ≤ posx) (posy_pos : 0 ≤ posy) (WH_u32 : 2 * (W * H) < 4294967296) (H_u32 : H < 4294967296).
Notation fw := (u32FontWidth ps).
Notation fh := (u32FontHeight ps).
Notation w := (fw * zlen gs).
Notation key := (u8 (u32ColorKeyY ps)).
Context (x_in : posx + w ≤ W) (y_in : posy + fh ≤ H) (fw_even : fw `mod` 2 = 0).

(** The handle keeps its sizes, so the next text can be drawn with it. *)
Definition same_handle (ps' : S_TEXT_OVERLAP) : Prop := ∀ gs', fits ps gs' → fits ps' gs'.

Lemma w_even' : w `mod` 2 = 0.
Proof. rewrite Z.mul_mod, fw_even by lia. done. Qed.

Lemma same_handle_set img bgimg w' h' : zlen img = zlen (pu8TextImg ps) → Forall is_byte img →
  zlen bgimg = zlen (pu8TextBGImg ps) → same_handle (set_bgimg (set_img ps img w' h') bgimg).
Proof. intros Hi Hb Hbg gs' []. constructor; simpl; rewrite ?Hi, ?Hbg; done. Qed.

Lemma sizes_small : 0 ≤ w < 2147483648 ∧ 0 < fh < 2147483648 ∧ w * fh * 2 < 4294967296 ∧ 0 ≤ w * fh ∧
  w * fh * 2 ≤ zlen (pu8TextImg ps) ∧ w * fh * 2 ≤ zlen (pu8TextBGImg ps).
Proof.
  destruct (fits_area ps gs Hfit) as (HN & Ha & Hw & Hh & Hr & Hm). destruct Hfit as [Hfw Hfh _ HNm Himg Hbg Hu _ _].
  repeat split; nia.
Qed.

(** The text image of the handle, in the format of the frame. *)
Lemma text_on_packed : zlen bg = 2 * (W * H) → ∃ ps' bg',
  TextOverlap_Overlap (Some ps) gs (zlen gs) bg eIMGPROC_YUV422 W H posx posy
    = Ok (Some ps', bg', eTEXT_OVERLAP_ERROR_NONE) ∧
  same_handle ps' ∧ drawn fw fh gs key (posx - posx `mod` 2) posy W H eIMGPROC_YUV422 bg bg'.
Proof.
  intros Hbg. destruct sizes_small as (Hw & Hh & Hwh & Hwh0 & Himg & Hbgi).
  destruct (PackTextImg_ok ps gs Hfit) as (img & Hpack & Hlen & Hbytes & Hpix).
  unfold TextOverlap_Overlap. rewrite decide_False by (pose proof (fits_number _ _ Hfit); lia).
  rewrite u32_small, decide_False by lia. rewrite even_pos by done. cbv zeta.
  rewrite (decide_False (P := _ ∨ _)), (decide_False (P := _ ∧ _)) by naive_solver.
  rewrite Hpack. cbn [mbind res_bind]. unfold ColorTrans. rewrite decide_True by done. simpl.
  rewrite u32_small, memcpy_paint by lia. cbn [mbind res_bind].
  set (px := posx - posx `mod` 2). assert (Hpx : 0 ≤ px ≤ posx) by (unfold px; zdm).
  set (ov := paint _ (pu8TextBGImg ps)).
  assert (Hov : zlen ov = zlen (pu8TextBGImg ps)) by apply zlen_paint.
  pose proof w_even'.
  rewrite (Overlap_YUV422_paint ov key w fh W H px posy) by (done || lia).
  cbn [mbind res_bind]. do 2 eexists. split; [reflexivity|]. split; [by apply same_handle_set|].
  split; [apply zlen_paint|]. intros x y Hx Hy.
  assert (Hk : 0 ≤ y * W + x < W * H) by nia.
  assert (Hpix' : ∀ a b c, 0 ≤ a < w → 0 ≤ b < fh → 0 ≤ c < 2 →
            byte_at ov (2 * (b * w + a) + c) = text_byte fw gs c a b).
  { intros a b c Ha Hb Hc. assert (0 ≤ b * w + a < w * fh) by nia.
    unfold ov. rewrite byte_at_paint by lia. unfold moved. rewrite decide_True by lia.
    rewrite <- (Hpix a b c) by done. f_equal. lia. }
  rewrite !byte_at_paint by lia. rewrite luma422 with (H := H), chroma422 with (H := H) by (done || lia). cbv zeta.
  unfold drawn_luma, drawn_chroma422, covered, clear, txt, under. case_bool_decide as Hu; [|done]. cbn [andb].
  pose proof (Hpix' (x - px) (y - posy) 0 ltac:(lia) ltac:(lia) ltac:(lia)) as E. rewrite Z.add_0_r in E. rewrite E.
  rewrite (Hpix' (x - px) (y - posy) 1) by lia.
  assert (Hj : 0 ≤ 2 * ((x - px) `div` 2) ∧ 2 * ((x - px) `div` 2) + 2 ≤ w) by zdm.
  pose proof (Hpix' (2 * ((x - px) `div` 2) + 0) (y - posy) 0 ltac:(lia) ltac:(lia) ltac:(lia)) as E0.
  pose proof (Hpix' (2 * ((x - px) `div` 2) + 1) (y - posy) 0 ltac:(lia) ltac:(lia) ltac:(lia)) as E1.
  rewrite Z.add_0_r, Z.add_assoc in E0, E1. rewrite E0, E1.
  replace (px + 2 * ((x - px) `div` 2) - px) with (2 * ((x - px) `div` 2) + 0) by lia.
  replace (px + 2 * ((x - px) `div` 2) + 1 - px) with (2 * ((x - px) `div` 2) + 1) by lia. done.
Qed.

Lemma text_on_planar : zlen bg = W * H + 2 * (W `div` 2 * (H `div` 2)) → w ≤ 65534 → fh ≤ 65534 →
  fh `mod` 2 = 0 → W `mod` 2 = 0 → H `mod` 2 = 0 → ∃ ps' bg',
  TextOverlap_Overlap (Some ps) gs (zlen gs) bg eIMGPROC_YUV420P W H posx posy
    = Ok (Some ps', bg', eTEXT_OVERLAP_ERROR_NONE) ∧
  same_handle ps' ∧ drawn fw fh gs key (posx - posx `mod` 2) (posy - posy `mod` 2) W H eIMGPROC_YUV420P bg bg'.
Proof.
  intros Hbg Hw16 Hh16 fh_even W_even H_even. destruct sizes_small as (Hw & Hh & Hwh & Hwh0 & Himg & Hbgi).
  destruct (PackTextImg_ok ps gs Hfit) as (img & Hpack & Hlen & Hbytes & Hpix).
  unfold TextOverlap_Overlap. rewrite decide_False by (pose proof (fits_number _ _ Hfit); lia).
  rewrite u32_small, decide_False by lia. rewrite !even_pos by done. cbv zeta.
  rewrite (decide_True (P := _ ∨ _)), (decide_False (P := _ ∧ _)) by naive_solver.
  rewrite Hpack. cbn [mbind res_bind]. unfold ColorTrans, ImgProc_CST. rewrite decide_False by done.
  rewrite decide_True by done. simpl. pose proof w_even'.
  assert (Hq : 4 * (w `div` 2 * (fh `div` 2)) = w * fh).
  { rewrite (Z.div_mod w 2) at 2 by lia. rewrite (Z.div_mod fh 2) at 2 by lia. rewrite w_even', fh_even. lia. }
  destruct (to_planar_ok img w fh w_even' fh_even ltac:(lia) ltac:(lia) ltac:(lia) Hbytes Hwh (pu8TextBGImg ps))
    as (ov & -> & Hov & HY & HUV); [lia|].
  cbn [mbind res_bind].
  set (px := posx - posx `mod` 2). assert (Hpx : 0 ≤ px ≤ posx ∧ px `mod` 2 = 0) by (unfold px; zdm).
  set (py := posy - posy `mod` 2). assert (Hpy : 0 ≤ py ≤ posy ∧ py `mod` 2 = 0) by (unfold py; zdm).
  rewrite (Overlap_YUV420P_paint ov key w fh W H px py) by (done || lia).
  cbn [mbind res_bind]. do 2 eexists. split; [reflexivity|]. split; [by apply same_handle_set|].
  split; [apply zlen_paint|].
  assert (Hpix0 : ∀ a b, 0 ≤ a < w → 0 ≤ b < fh → ovY ov w a b = text_byte fw gs 0 a b).
  { intros a b Ha Hb. unfold ovY. rewrite HY by done. by apply Hpix. }
  assert (W `div` 2 * (H `div` 2) * 4 = W * H).
  { rewrite (Z.div_mod W 2) at 2 by lia. rewrite (Z.div_mod H 2) at 2 by lia. rewrite W_even, H_even. lia. }
  split.
  - intros x y Hx Hy. assert (Hk : 0 ≤ y * W + x < W * H) by nia.
    rewrite byte_at_paint, luma420 by (done || lia).
    unfold drawn_luma, covered, clear, keyed, txt. unfold under. case_bool_decide as Hu; [|done]. cbn [andb].
    by rewrite Hpix0 by lia.
  - intros u v Hu Hv. assert (Hk : 0 ≤ v * (W `div` 2) + u < W `div` 2 * (H `div` 2)) by nia.
    rewrite !byte_at_paint by (unfold frameU, frameV; nia).
    assert (Hch : ∀ c, _) by (intros c; apply (chroma420 ov key w fh W H px py) with (c := c); [done || lia..]).
    rewrite (proj1 (Hch _)), (proj2 (Hch _)).
    unfold drawn_chroma420, covered, clear, group_keyed, keyed, txt, under. cbv zeta.
    case_bool_decide as Hin; [|done]. cbn [andb].
    set (j := u - px `div` 2). set (i := v - py `div` 2).
    assert (Hj : 2 * u - px = 2 * j ∧ 0 ≤ 2 * j ∧ 2 * j + 2 ≤ w) by (unfold j; zdm).
    assert (Hi : 2 * v - py = 2 * i ∧ 0 ≤ 2 * i ∧ 2 * i + 2 ≤ fh) by (unfold i; zdm).
    replace (2 * u + 1 - px) with (2 * j + 1) by lia. replace (2 * v + 1 - py) with (2 * i + 1) by lia.
    replace (2 * u + 0 - px) with (2 * j) by lia. rewrite (proj1 Hj), (proj1 Hi), !Hpix0 by lia.
    destruct (HUV j i) as [HU HV]; [zdm..|]. unfold ovU, ovV. rewrite HU, HV. unfold mean, pix.
    by rewrite Z.add_0_r, !Hpix by lia.
Qed.
End Overlap.

End TextSpec.

(** ** The date on a frame *)

Module DateSpec.
Import Text Date TextSpec.

(** malloc: a block of the size asked for, of bytes. *)
Definition gives (m : Z → option (list Z)) : Prop := ∀ n b, 0 ≤ n → m n = Some b → zlen b = n ∧ Forall is_byte b.

Lemma glyph_ok c : zlen (glyph_of c) = 256 ∧ Forall is_byte (glyph_of c).
Proof.
  unfold glyph_of. repeat case_decide; (split; [done|]); apply (bool_decide_unpack _); vm_compute; exact I.
Qed.

Definition format_of (t : color_type) : E_IMGPROC_COLOR_FORMAT :=
  match t with eNM_COLOR_YUV420P => eIMGPROC_YUV420P | eNM_COLOR_YUV422 => eIMGPROC_YUV422 | _ => eIMGPROC_RGB888 end.

(** A handle TextOverlap_Init makes for the encoder has room for every text of
    at most 32 characters. *)
Lemma init_fits fmt img1 img2 junk ps used text : gives img1 → gives img2 →
  TextOverlap_Init DIGIT_8_16_WIDTH DIGIT_8_16_HEIGHT fmt DEF_MAX_OVERLAP_TEXT 255 128 128 img1 img2 junk = (Some ps, used) →
  zlen text ≤ DEF_MAX_OVERLAP_TEXT →
  fits ps (glyph_of <$> text) ∧ u32FontWidth ps = 8 ∧ u32FontHeight ps = 16 ∧ u32ColorKeyY ps = 255.
Proof.
  intros H1 H2 E Ht. unfold TextOverlap_Init in E. repeat case_match; simplify_eq.
  destruct (H1 _ _ (proj1 (u32_range _)) ltac:(eassumption)) as [L1 B1].
  destruct (H2 _ _ (proj1 (u32_range _)) ltac:(eassumption)) as [L2 B2].
  repeat split; simpl; try done; [by unfold zlen in *; rewrite length_fmap|].
  apply Forall_fmap, Forall_true. intros c. destruct (glyph_ok c) as [Hl Hb].
  unfold compose. by rewrite Hl.
Qed.

(** C31. The date is drawn where it should be and nowhere else. With a handle
    TextOverlap_Init made, OverlapText draws a text of at most 32 characters on
    every even-sized frame that is at least as wide as the text and 48 rows high, in
    the two formats of the encoder: no byte outside the frame is touched, each
    pixel of the glyphs that is not the colour key replaces the luma of its pixel
    (rows 32 to 47, centred to an even column), the chroma of the pair or of the
    group of four pixels follows when one of its pixels was replaced, and every
    other byte of the frame keeps its value. The handle can be used again. *)
Theorem date_drawn t W H bg text img1 img2 junk ps used :
  t ≠ eNM_COLOR_other → gives img1 → gives img2 →
  TextOverlap_Init DIGIT_8_16_WIDTH DIGIT_8_16_HEIGHT (format_of t) DEF_MAX_OVERLAP_TEXT 255 128 128 img1 img2 junk
    = (Some ps, used) →
  zlen text ≤ DEF_MAX_OVERLAP_TEXT → zlen text * 8 ≤ W → 48 ≤ H → W `mod` 2 = 0 → H `mod` 2 = 0 →
  W < 4294967296 → H < 4294967296 → 2 * (W * H) < 4294967296 → zlen bg = frame_size (format_of t) W H →
  ∃ ps' bg', OverlapText (Some ps) t W H bg text = Ok (Some ps', bg') ∧ same_handle ps ps' ∧
    let px := (W - zlen text * 8) `div` 2 in
    drawn 8 16 (glyph_of <$> text) 255 (px - px `mod` 2) 32 W H (format_of t) bg bg'.
Proof.
  intros Ht H1 H2 E Hn HW HH We He Wu Hu WHu Hbg.
  destruct (init_fits _ _ _ _ _ _ text H1 H2 E Hn) as (Hfit & Efw & Efh & Ek).
  assert (HN : zlen (glyph_of <$> text) = zlen text) by (unfold zlen; by rewrite length_fmap).
  assert (0 ≤ zlen text) by (unfold zlen; lia). unfold DEF_MAX_OVERLAP_TEXT in Hn.
  set (px := (W - zlen text * 8) `div` 2).
  assert (Hpx : 0 ≤ px ∧ px + 8 * zlen text ≤ W) by (unfold px; zdm).
  unfold OverlapText, DIGIT_8_16_WIDTH, DIGIT_8_16_HEIGHT, DEF_MAX_OVERLAP_TEXT.
  rewrite (u32_small (W - _)), !decide_False by lia. fold px.
  destruct t; [| |done].
  - destruct (text_on_planar ps (glyph_of <$> text) Hfit bg W H px (2 * 16)) as (ps' & bg' & Hr & Hs & Hd);
      rewrite ?Efw, ?Efh, ?HN; try (done || lia).
    rewrite <- HN, Hr. exists ps', bg'. rewrite Efw, Efh, Ek in Hd. done.
  - destruct (text_on_packed ps (glyph_of <$> text) Hfit bg W H px (2 * 16)) as (ps' & bg' & Hr & Hs & Hd);
      rewrite ?Efw, ?Efh, ?HN; try (done || lia).
    rewrite <- HN, Hr. exists ps', bg'. rewrite Efw, Efh, Ek in Hd. done.
Qed.

(** Memory that happens to be zero. *)
Definition zeros (n : Z) : option (list Z) := Some (replicate (Z.to_nat n) 0).

Lemma gives_zeros : gives zeros.
Proof.
  intros n b Hn [= <-]. split; [unfold zlen; rewrite length_replicate; lia|].
  apply Forall_replicate. unfold is_byte. lia.
Qed.

Definition zero_handle : S_TEXT_OVERLAP :=
  mkText 8 16 32 (replicate 8192 0) (replicate 8192 0) 0 0 255 128 128.

Lemma date_drawn_witness : ∃ ps' bg',
  OverlapText (Some zero_handle) eNM_COLOR_YUV420P 16 48 (replicate 1152 7) [49; 50] = Ok (Some ps', bg') ∧
  same_handle zero_handle ps' ∧
  let px := (16 - zlen [49; 50] * 8) `div` 2 in
  drawn 8 16 (glyph_of <$> [49; 50]) 255 (px - px `mod` 2) 32 16 48 eIMGPROC_YUV420P (replicate 1152 7) bg'.
Proof.
  apply (date_drawn eNM_COLOR_YUV420P 16 48 (replicate 1152 7) [49; 50] zeros zeros (Some (0, 0)) zero_handle
           [BlkHandle; BlkTextBGImg; BlkTextImg]);
    [done|apply gives_zeros|apply gives_zeros|vm_compute; reflexivity|vm_compute; done..].
Defined.

(** What is drawn on a grey frame: a pixel of the 1, one beside it, the chroma. *)
Example one_drawn :
  (λ r, match r with
        | Ok (Some _, bg) => (byte_at bg (37 * 16 + 3), byte_at bg (37 * 16 + 7), byte_at bg (16 * 48 + 18 * 8 + 1))
        | _ => (0, 0, 0)
        end) (OverlapText (Some zero_handle) eNM_COLOR_YUV420P 16 48 (replicate 1152 7) [49; 50]) = (155, 7, 78).
Proof. vm_compute. reflexivity. Qed.

(** A frame narrower than the text: the width less that of the text wraps, and
    the text is drawn two gigabytes behind the start of the frame. *)
Lemma narrow_frame_overruns :
  OverlapText (Some zero_handle) eNM_COLOR_YUV420P 8 48 (replicate 576 0) [49; 49] = Fault OutOfBounds.
Proof. vm_compute. reflexivity. Qed.

(** A text that does not fit is refused by its height only: at the right edge the
    rows go on in the next row of the frame, and past its end from the last. *)
Lemma right_edge_overruns :
  is_ok (TextOverlap_Overlap (Some zero_handle) [glyph_of 49] 1 (replicate 512 0) eIMGPROC_YUV422 16 16 12 0) = false.
Proof. vm_compute. reflexivity. Qed.

(** In the other three formats ColorTrans converts nothing: the frame that comes
    out does not depend on the text, only on what malloc left in the image. *)
Lemma other_formats_ignore_text ps gs gs' bg fmt W H px py : fits ps gs → fits ps gs' → zlen gs = zlen gs' →
  fmt = eIMGPROC_YUV422P ∨ fmt = eIMGPROC_YUV420 ∨ fmt = eIMGPROC_YUV420P_MB →
  (λ r, (r.1.2, r.2)) <$> TextOverlap_Overlap (Some ps) gs (zlen gs) bg fmt W H px py
  = (λ r, (r.1.2, r.2)) <$> TextOverlap_Overlap (Some ps) gs' (zlen gs) bg fmt W H px py.
Proof.
  intros F F' E Hf. unfold TextOverlap_Overlap.
  destruct (PackTextImg_ok ps gs F) as (img & Hp & _). destruct (PackTextImg_ok ps gs' F') as (img' & Hp' & _).
  rewrite <- E in Hp'. repeat case_decide; try done; rewrite Hp, Hp'; cbn [mbind res_bind];
    destruct Hf as [-> |[-> | ->]]; unfold ColorTrans, ImgProc_CST; repeat (rewrite decide_False by naive_solver);
    cbn [mbind res_bind];
    match goal with |- fmap _ (?x ≫= _) = _ => set (r := x) end;
    match goal with |- _ = fmap _ (?x ≫= _) => change x with r end; by destruct r.
Qed.

(** The blocks: a failed TextOverlap_Init keeps none, TextOverlap_UnInit frees the
    three of a handle and leaves the invalid handle, so that a second call does
    nothing. *)
Lemma init_uninit_blocks fw fh fmt n ky ku kv img1 img2 junk :
  let '(h, used) := TextOverlap_Init fw fh fmt n ky ku kv img1 img2 junk in
  TextOverlap_UnInit (Some h) used = (Some None, []).
Proof. unfold TextOverlap_Init. repeat case_match; simplify_eq; done. Qed.
End DateSpec.

(** ** The picture on a frame *)

Module ImgSpec.
Import Img TextSpec.

Lemma row_before W a b : 0 ≤ W → a < b → a * W + W ≤ b * W.
Proof. nia. Qed.

Section Packed.
Context (bg op : list Z) (W H ow oh posx posy : Z).
Context (posx_in : 0 ≤ posx ≤ W) (posy_in : 0 ≤ posy ≤ H) (ow_pos : 0 ≤ ow < 2147483648) (oh_pos : 0 ≤ oh < 2147483648).
Context (W_small : W < 2147483648) (H_small : H < 2147483648) (WH : 2 * (W * H) < 4294967296).
Context (bg_size : zlen bg = 2 * (W * H)) (op_size : zlen op = 2 * (ow * oh)).

Lemma clip_min pos len limit : 0 ≤ pos ≤ limit → 0 ≤ len → pos + len < 4294967296 → limit < 4294967296 →
  clip pos len limit = Z.min len (limit - pos).
Proof. intros. unfold clip. rewrite !u32_small by lia. case_decide; lia. Qed.

(** A packed picture is copied, cut at the right and the bottom edge of the
    frame; the rest of the frame keeps its bytes. *)
Lemma picture_copied : ∃ bg',
  ImgOverlap_Overlap eIMGPROC_YUV422 bg W H op ow oh posx posy = Ok (bg', eIMG_OVERLAP_ERROR_NONE) ∧
  zlen bg' = zlen bg ∧
  let px := posx - posx `mod` 2 in
  ∀ x y c, 0 ≤ x < W → 0 ≤ y < H → 0 ≤ c < 2 →
    byte_at bg' (2 * (y * W + x) + c)
    = if under ow oh px posy x y then byte_at op (2 * ((y - posy) * ow + (x - px)) + c)
      else byte_at bg (2 * (y * W + x) + c).
Proof.
  unfold ImgOverlap_Overlap. rewrite even_pos by lia. cbv zeta.
  rewrite (decide_False (P := _ ∨ _)), (decide_False (P := _ ∧ _)) by naive_solver.
  set (px := posx - posx `mod` 2). assert (Hpx : 0 ≤ px ≤ W) by (unfold px; zdm).
  unfold Overlap_YUV422. rewrite !clip_min by lia.
  set (cw := Z.min ow (W - px)). set (ch := Z.min oh (H - posy)).
  rewrite (u32_small (cw * 2)), (u32_small (W * 2)), (u32_small (ow * 2)) by lia.
  destruct (decide (ch = 0)) as [Hch|Hch].
  { rewrite Hch. unfold for_u32. simpl. eexists. split; [reflexivity|]. split; [done|].
    intros x y c Hx Hy Hc. unfold under. rewrite bool_decide_eq_false_2; [done|lia]. }
  assert (Hr : 0 ≤ posy * W ∧ posy * W + W ≤ W * H) by nia.
  rewrite (u32_small (posy * W + px)), (u32_small (_ * 2)) by (unfold px in *; zdm || nia).
  erewrite (for_u32_paint ch 1 _ (λ y, (2 * ((posy + y) * W + px), y * (ow * 2)))
      (λ y, moved (2 * ((posy + y) * W + px)) op (y * (ow * 2)) (cw * 2)) (Z.to_nat ch) (zlen bg));
    [|lia..| |simpl; ptrs_eq|done].
  2:{ intros y l Hy Hl.
      assert (Hrow : ∀ a b n, 0 ≤ a < n → 0 ≤ b → 0 ≤ a * b ∧ a * b + b ≤ b * n) by (clear; intros; nia).
      pose proof (Hrow (posy + y) W H ltac:(lia) ltac:(lia)). pose proof (Hrow y ow oh ltac:(lia) ltac:(lia)).
      rewrite memcpy_paint by lia. cbn [mbind res_bind]. do 2 f_equal. ptrs_eq. }
  cbn [mbind res_bind]. eexists. split; [reflexivity|]. split; [apply zlen_paint|].
  intros x y c Hx Hy Hc. assert (0 ≤ y * W + x < W * H) by nia. cbn [snd].
  rewrite byte_at_paint by lia. unfold under. case_bool_decide as Hu.
  - rewrite (paints_one _ _ _ _ (y - posy)) by
      (lia || (intros i c' Hi Hne; unfold moved; rewrite decide_False; [done|];
         destruct (decide (posy + i < y)) as [Hlt|Hge];
         [pose proof (row_before W (posy + i) y); lia|pose proof (row_before W y (posy + i)); lia])).
    unfold moved. replace (posy + (y - posy)) with y by lia. rewrite decide_True by lia. f_equal. lia.
  - apply paints_none. intros i c' Hi. unfold moved. rewrite decide_False; [done|].
    destruct (Z.lt_trichotomy (posy + i) y) as [Hlt|[E|Hgt]].
    + pose proof (row_before W (posy + i) y). lia.
    + assert (x < px ∨ px + ow ≤ x) by lia. rewrite E. lia.
    + pose proof (row_before W y (posy + i)). lia.
Qed.
End Packed.

(** A position outside the frame is not refused: the width left to copy wraps. *)
Lemma outside_overruns :
  is_ok (ImgOverlap_Overlap eIMGPROC_YUV422 (replicate 32 0) 4 4 (replicate 8 0) 2 2 6 0) = false.
Proof. vm_compute. reflexivity. Qed.

End ImgSpec.
